(* ===== verification/_CoqProject ===== *)
-Q . S2P
Prelude.v
Bytes.v
Index.v
Phys.v
PhysInv.v
PhysOps.v
PhysRuns.v
PhysInit.v
PhysTheorems.v
Swap.v
SwapSpec.v
SwapTheorems.v
Policy.v
PolicySpec.v
PolicyTheorems.v
VmFrames.v
VmPage.v
VmScan.v
VmPageInv.v
VmPageOps.v
VmPageEnter.v
VmPageIn.v
VmScanSpec.v
VmPageTheorems.v
FsError.v
DriverError.v
Block.v
BlockSpec.v
Partition.v
PartitionSpec.v
Path.v
Tags.v
Vmem.v
VmemInv.v
VmemFit.v
VmemOps.v
VmemTheorems.v
Amap.v
AmapInv.v
AmapSpec.v
AmapHeap.v
AmapHeapSpec.v
AmapTheorems.v
VmMap.v
VmMapInv.v
VmMapOps.v
VmMapUnmap.v
VmMapMerge.v
VmMapPlace.v
VmMapFault.v
VmMapFork.v
VmMapTheorems.v
MemIo.v
MemIoSpec.v
MemIoTheorems.v
BlockUser.v
BlockUserSpec.v
BlockTheorems.v
UserCopy.v
Syscall.v
SyscallTheorems.v
Poll.v
Pipe.v
PipeSpec.v
PipeThreads.v
PipeTheorems.v
TimerFd.v
TimerFdTheorems.v
Klog.v
KlogSpec.v
KlogRing.v
KlogTheorems.v
