(* ===== verification/Prelude.v ===== *)
(** * Roanix: a verification of kernel components

    Roanix is an operating system kernel written in Rust. This development
    models parts of [src/kernel/src] as executable functions and proves what
    makes them correct. Each model follows its source function by function;
    the source names are kept where the language allows it.

    ** Conventions

    A Rust function that only computes is a Gallina function. A function with
    effects is a computation of the monad [M St A], a function from a state
    and an oracle to a result, a new state and the rest of the oracle. The
    oracle answers the questions the source leaves open, such as whether an
    allocation succeeds. A computation returns [None] exactly where the source
    panics: an [unwrap], an [assert] or an index out of range.
    [wp m Q s o] says that [m] does not panic from [s] and [o] and ends in a result satisfying [Q], so every
    specification stated with it includes termination and freedom from panic.
    Errors are values of [result]. A u64 is a [Z] whose operations wrap
    ([wrap64]), check or saturate as the source writes them. Loops take fuel
    computed from their state, and the theorems show that the fuel is enough:
    a run out of fuel would be a panic.

    ** Files

    - [Prelude] and [Bytes]: the monad, machine integers, list, option and
      little-endian lemmas, tactics and hint databases.
    - [Index]: the ordered index of [mem/index.rs].
    - [Tags], [Vmem], [VmemInv], [VmemFit], [VmemOps], [VmemTheorems]: the address arena of [mem/vmem.rs], with boundary tags,
      linked free lists and their bitmap.
    - [Amap], [AmapInv], [AmapSpec], [AmapHeap], [AmapHeapSpec], [AmapTheorems]: the anonymous maps of [mem/anon.rs].
    - [VmMap] and the files [VmMap*]: the address map of [mem/map.rs].
      Operations, their invariant ([VmMapInv]), one file per group of
      operations, and the theorems ([VmMapTheorems]).
    - [MemIo], [MemIoSpec], [MemIoTheorems], [UserCopy]: transfers with user
      memory ([mem/io.rs], the copies of [mem/pmap.rs]). The hardware side is
      the class [UserSpace] with its laws.
    - [FsError], [Path], [Poll], [Syscall], [SyscallTheorems]: errors, paths
      and the reading of system call arguments.
    - [DriverError], [Block], [BlockSpec], [BlockUser],
      [BlockUserSpec], [Partition], [PartitionSpec], [BlockTheorems]:
      the block layer ([dev/block.rs]) over the callbacks of a driver (class
      [Driver]), and partition discovery ([fs/partition.rs]).
    - [Pipe], [PipeSpec], [PipeThreads], [PipeTheorems]: pipes
      ([proc/pipe.rs]), as sequential operations and as interleaved threads.
    - [TimerFd], [TimerFdTheorems]: timer descriptors ([proc/timerfd.rs]).
    - [Klog], [KlogSpec], [KlogRing], [KlogTheorems]: the log ring
      ([sys/klog/packet.rs]), sequential and with producers and a reader
      interleaved one memory cell at a time.
    - [Phys], [PhysInv], [PhysOps], [PhysRuns], [PhysInit], [PhysTheorems]: physical frames ([mem/phys.rs],
      [mem/physseg.rs], [mem/reserve.rs]): the frame database, the free and
      zeroed lists, the caches of the processors and initialization. A
      reference to a frame is its number.
    - [Swap], [SwapSpec], [SwapTheorems]: swap storage ([mem/swap.rs]) over
      the compression codec (class [Lz4]) and a backend (class [SwapBackend]).
    - [Policy], [PolicySpec], [PolicyTheorems]: the replacement
      queues with their deferred intents ([mem/policy.rs]).
    - [VmPage], [VmScan]: demand paging. [VmPage] has logical pages
      ([mem/page.rs]) and the leaves and reverse mappings of the page tables
      ([mem/pmap.rs], [arch/x86/paging.rs]): an operation that drops the lock
      of a page in the middle is one definition for each section under the
      lock, so that other sections can run in between. [VmScan] has the scans
      of [mem/policy.rs], the reclaim passes and frame allocation of
      [mem/mod.rs] and, sequentially, residency and raw access. The index of
      a pmap and its page tables are one map of leaves. File contents come
      from a pager (class [VmPager]); user accesses are the stores and loads
      that set the bits of a leaf.
    - [VmFrames], [VmPageInv], [VmPageOps], [VmPageIn], [VmPageEnter],
      [VmScanSpec], [VmPageTheorems]: what holds of them. [VmPageInv] is the invariant; [VmPageTheorems] has the threads,
      their actions and the runs.

    ** What the theorems show

    The arena: an invariant over tags, lists, bitmap and counters that every
    public operation keeps, and the exact outcome of each operation, failures
    included. The anonymous maps: the run-length encoded reference counts
    refine one count per slot. The address map: in every reachable state the
    entries are disjoint and agree with the arena, and map, unmap, protect,
    fork, prepare_copy and the fault lookup do what a map from pages to
    mappings says. User transfers: exact bytes or a prefix with the fault.
    Pipes: the byte stream, and wake-ups under interleaving. The log: what a
    reader is served, and when it can be torn. Timers: expirations are
    conserved. Block devices: byte transfers of any alignment through drivers
    of any transfer limit, and partitions that cannot reach each other.
    Frames: from every boot memory map the database, the lists, the caches
    and the counters stay in agreement, allocation returns free frames only,
    zeroed frames are zero, and a contiguous run is refused only when there
    is none. Swap: a held handle always loads the page it was stored from, and
    the statistics are those of the held handles. Replacement: the queue of a
    frame is the one last asked for, whenever a processor realizes it.
    Paging: under any interleaving of the sections of faults, accesses,
    unmapping, harvesting and reclaim, pages behave like a memory whose pages
    never leave, no permitted action panics, and frames, leaves, pins and
    queues agree. The loops over reverse mappings and over the leaves of a
    range have fuel from the sizes of their lists, which is proved enough;
    a scan follows its marker with fuel from the length of the queue.

    ** Bounds

    Fuel is the length of the list, the number of tags, blocks or bytes a
    loop can visit; each loop lemma is an induction on it. Machine constants
    (page size, capacities, limits) have the values of the source. Lengths in
    the block layer stay below 2^32 blocks per call, the width of the count a
    driver takes.

    ** Not modelled

    Lock acquisition and memory ordering, except where a component's own
    theorem is about interleaving ([PipeThreads], [KlogRing],
    [VmPageTheorems]): elsewhere an operation runs under the lock its source
    takes. The levels of the page tables and the messages that invalidate
    translations of other processors, interrupt controllers, timers and the other device registers; assembly and the boot
    sequence; the C interface of driver modules, which is raw-pointer
    conversion. The scheduler, terminals, signals and the file systems are
    listed as parts of the system in the manifest with their state. *)
From stdpp Require Export base gmap list numbers option sorting.
From Stdlib Require Export ZArith Lia.

#[export] Set Default Goal Selector "!".
#[global] Open Scope Z_scope.

(** ** Machine integers *)

Declare Scope rust_scope.
Delimit Scope rust_scope with rust.

(** [u64] and [usize] (both targets are 64-bit) as integers of [Z]. *)
Abbreviation two64 := 18446744073709551616 (only parsing).
Definition u64_max : Z := 18446744073709551615.
Definition is_u64 (x : Z) : Prop := 0 ≤ x < two64.

#[export] Instance is_u64_dec x : Decision (is_u64 x).
Proof. unfold is_u64. apply _. Defined.

(** Unchecked arithmetic, with the two's complement wrap-around. *)
Definition wrap64 (x : Z) : Z := x mod two64.
Definition u64_add (a b : Z) : Z := wrap64 (a + b).
Definition u64_sub (a b : Z) : Z := wrap64 (a - b).
Definition u64_mul (a b : Z) : Z := wrap64 (a * b).
Definition u64_not (a : Z) : Z := u64_max - a.
Definition u64_shl (a n : Z) : Z := wrap64 (Z.shiftl a n).

(** Checked arithmetic: [checked_add], [checked_sub], [checked_mul]. *)
Definition checked_add (a b : Z) : option Z :=
  if decide (a + b < two64) then Some (a + b) else None.
Definition checked_sub (a b : Z) : option Z :=
  if decide (b ≤ a) then Some (a - b) else None.
Definition checked_mul (a b : Z) : option Z :=
  if decide (a * b < two64) then Some (a * b) else None.
Definition saturating_sub (a b : Z) : Z := Z.max 0 (a - b).
Definition saturating_add (a b : Z) : Z := Z.min u64_max (a + b).

Definition is_power_of_two (x : Z) : bool := x =? 2 ^ Z.log2 x.
(** [x.is_multiple_of(y)]: only zero is a multiple of zero. *)
Definition is_multiple_of (x y : Z) : bool :=
  if y =? 0 then x =? 0 else x mod y =? 0.
Definition leading_zeros (x : Z) : Z := if x =? 0 then 64 else 63 - Z.log2 x.

(** [trailing_zeros]: the least set bit, [64] for zero. *)
Fixpoint lowest_bit_from (fuel : nat) (i x : Z) : Z :=
  match fuel with
  | O => 64
  | S fuel => if Z.testbit x i then i else lowest_bit_from fuel (i + 1) x
  end.
Definition trailing_zeros (x : Z) : Z := lowest_bit_from 64 0 x.

(** ** Errors, panics and state *)

Inductive result (E A : Type) : Type :=
| Ok (a : A)
| Err (e : E).
Arguments Ok {E A} a.
Arguments Err {E A} e.

#[export] Instance result_eq_dec {E A} `{EqDecision E, EqDecision A} :
  EqDecision (result E A).
Proof. solve_decision. Defined.

Definition ok_or {E A} (o : option A) (e : E) : result E A :=
  match o with Some a => Ok a | None => Err e end.
Definition map_err {E E' A} (f : E → E') (r : result E A) : result E' A :=
  match r with Ok a => Ok a | Err e => Err (f e) end.
Definition result_ok {E A} (r : result E A) : option A :=
  match r with Ok a => Some a | Err _ => None end.
Definition result_bind {E A B} (r : result E A) (f : A → result E B) : result E B :=
  match r with Ok a => f a | Err e => Err e end.

Notation "'let?' x := r 'in' k" := (result_bind r (λ x, k))
  (at level 10, x name, r at level 200, k at level 200) : rust_scope.
Notation "'let?' ' p := r 'in' k" := (result_bind r (λ p, k))
  (at level 10, p strict pattern, r at level 200, k at level 200) : rust_scope.

(** The allocator's answers to the requests of one run, in order; an
    exhausted list means that every later request is granted. *)
Definition oracle : Type := list bool.
Definition ask (o : oracle) : bool * oracle :=
  match o with [] => (true, []) | b :: o => (b, o) end.

(** A stateful computation that may panic ([None]) and asks the allocator. *)
Definition M (St A : Type) : Type := St → oracle → option (A * St * oracle).

Section monad.
Context {St : Type}.
Definition ret {A} (a : A) : M St A := λ s o, Some (a, s, o).
Definition panic {A} : M St A := λ _ _, None.
Definition bind {A B} (m : M St A) (k : A → M St B) : M St B :=
  λ s o, match m s o with Some (a, s', o') => k a s' o' | None => None end.
Definition get : M St St := λ s o, Some (s, s, o).
Definition gets {A} (f : St → A) : M St A := λ s o, Some (f s, s, o).
Definition modify (f : St → St) : M St () := λ s o, Some ((), f s, o).
(** [expect]/[unwrap]: a missing value panics. *)
Definition expect {A} (x : option A) : M St A :=
  match x with Some a => ret a | None => panic end.
Definition massert (b : bool) : M St () := if b then ret () else panic.
Definition ask_pool : M St bool := λ s o, let '(b, o') := ask o in Some (b, s, o').
(** The [?] operator inside a stateful function that returns a [Result]. *)
Definition bind_res {E A B} (m : M St (result E A)) (k : A → M St (result E B)) :
    M St (result E B) :=
  bind m (λ r, match r with Ok a => k a | Err e => ret (Err e) end).

(** Total correctness of a run: no panic, and the outcome satisfies [Q]. *)
Definition wp {A} (m : M St A) (Q : A → St → oracle → Prop) (s : St) (o : oracle) : Prop :=
  match m s o with Some (a, s', o') => Q a s' o' | None => False end.
End monad.

(** Running a computation of a field of the state. *)
Definition zoom {St T A} (view : St → T) (put : T → St → St) (m : M T A) : M St A :=
  λ s o, match m (view s) o with
         | Some (a, t, o') => Some (a, put t s, o')
         | None => None
         end.

(** [let*] sequences, [let!] is [let*] on a [Result] with the [?] operator. *)
Notation "'let*' x := m 'in' k" := (bind m (λ x, k))
  (at level 10, x name, m at level 200, k at level 200) : rust_scope.
Notation "'let*' ' p := m 'in' k" := (bind m (λ p, k))
  (at level 10, p strict pattern, m at level 200, k at level 200) : rust_scope.
Notation "'let!' x := m 'in' k" := (bind_res m (λ x, k))
  (at level 10, x name, m at level 200, k at level 200) : rust_scope.
Notation "'do' m 'then' k" := (bind m (λ _, k))
  (at level 10, m at level 200, k at level 200) : rust_scope.

(** ** Rules for [wp] *)

Section wp_rules.
Context {St : Type}.
Implicit Types (s : St) (o : oracle).

Lemma wp_ret {A} (a : A) (Q : A → St → oracle → Prop) s o :
  Q a s o → wp (ret a) Q s o.
Proof. done. Qed.

Lemma wp_bind {A B} (m : M St A) (k : A → M St B) Q s o :
  wp m (λ a s' o', wp (k a) Q s' o') s o → wp (bind m k) Q s o.
Proof. unfold wp, bind. by destruct (m s o) as [[[a s'] o']|]. Qed.

Lemma wp_bind_inv {A B} (m : M St A) (k : A → M St B) Q s o :
  wp (bind m k) Q s o → wp m (λ a s' o', wp (k a) Q s' o') s o.
Proof. unfold wp, bind. by destruct (m s o) as [[[a s'] o']|]. Qed.

Lemma wp_bind_res {E A B} (m : M St (result E A)) (k : A → M St (result E B)) Q s o :
  wp m (λ r s' o', match r with
                   | Ok a => wp (k a) Q s' o'
                   | Err e => Q (Err e) s' o'
                   end) s o →
  wp (bind_res m k) Q s o.
Proof.
  intros H. apply wp_bind. unfold wp in *.
  destruct (m s o) as [[[[a|e] s'] o']|]; done.
Qed.

Lemma wp_mono {A} (m : M St A) (P Q : A → St → oracle → Prop) s o :
  wp m P s o → (∀ a s' o', P a s' o' → Q a s' o') → wp m Q s o.
Proof. unfold wp. destruct (m s o) as [[[a s'] o']|]; auto. Qed.

Lemma wp_get (Q : St → St → oracle → Prop) s o : Q s s o → wp get Q s o.
Proof. done. Qed.

Lemma wp_gets {A} (f : St → A) (Q : A → St → oracle → Prop) s o :
  Q (f s) s o → wp (gets f) Q s o.
Proof. done. Qed.

Lemma wp_modify (f : St → St) (Q : () → St → oracle → Prop) s o :
  Q () (f s) o → wp (modify f) Q s o.
Proof. done. Qed.

Lemma wp_expect {A} (x : option A) a (Q : A → St → oracle → Prop) s o :
  x = Some a → Q a s o → wp (expect x) Q s o.
Proof. by intros ->. Qed.

Lemma wp_massert (b : bool) (Q : () → St → oracle → Prop) s o :
  b = true → Q () s o → wp (massert b) Q s o.
Proof. by intros ->. Qed.

Lemma wp_ask (Q : bool → St → oracle → Prop) s o :
  (∀ b o', o' ⊆ o → (b = false → false ∈ o) → Q b s o') → wp ask_pool Q s o.
Proof.
  intros H. unfold wp, ask_pool, ask. destruct o as [|b o]; apply H; try done.
  - by apply list_subseteq_skip_r || set_solver.
  - intros ->. left.
Qed.

Lemma wp_conj {A} (m : M St A) (P Q : A → St → oracle → Prop) s o :
  wp m P s o → wp m Q s o → wp m (λ a s' o', P a s' o' ∧ Q a s' o') s o.
Proof. unfold wp. destruct (m s o) as [[[a s'] o']|]; auto. Qed.

Lemma wp_elim {A} (m : M St A) (Q : A → St → oracle → Prop) s o :
  wp m Q s o → ∃ a s' o', m s o = Some (a, s', o') ∧ Q a s' o'.
Proof. unfold wp. destruct (m s o) as [[[a s'] o']|]; naive_solver. Qed.
End wp_rules.

Lemma wp_zoom {St T A} (view : St → T) (put : T → St → St) (m : M T A) Q s o :
  wp m (λ a t o', Q a (put t s) o') (view s) o → wp (zoom view put m) Q s o.
Proof. unfold wp, zoom. by destruct (m (view s) o) as [[[a t] o']|]. Qed.

(** A computation that asks the allocator only what is left to ask. *)
Definition frugal {St A} (m : M St A) : Prop := ∀ s o, match m s o with Some (_, _, o') => o' ⊆ o | None => True end.

Section frugal.
Context {St : Type}.
Lemma frugal_ret {A} (a : A) : frugal (St:=St) (ret a).
Proof. intros s o. simpl. done || reflexivity. Qed.
Lemma frugal_panic {A} : frugal (St:=St) (panic (A:=A)).
Proof. intros s o. simpl. done || reflexivity. Qed.
Lemma frugal_get : frugal (St:=St) get.
Proof. intros s o. simpl. done || reflexivity. Qed.
Lemma frugal_gets {A} (f : St → A) : frugal (gets f).
Proof. intros s o. simpl. done || reflexivity. Qed.
Lemma frugal_modify (f : St → St) : frugal (modify f).
Proof. intros s o. simpl. done || reflexivity. Qed.
Lemma frugal_massert b : frugal (St:=St) (massert b).
Proof. destruct b; [apply frugal_ret|apply frugal_panic]. Qed.
Lemma frugal_ask : frugal (St:=St) ask_pool.
Proof. intros s [|b o]; simpl; set_solver. Qed.
Lemma frugal_bind {A B} (m : M St A) (k : A → M St B) : frugal m → (∀ a, frugal (k a)) → frugal (bind m k).
Proof.
  intros Hm Hk s o. unfold bind. specialize (Hm s o). destruct (m s o) as [[[a s'] o']|]; [|done].
  specialize (Hk a s' o'). destruct (k a s' o') as [[[b s''] o'']|]; [by etrans|done].
Qed.
Lemma frugal_bind_res {E A B} (m : M St (result E A)) (k : A → M St (result E B)) :
  frugal m → (∀ a, frugal (k a)) → frugal (bind_res m k).
Proof. intros Hm Hk. apply frugal_bind; [done|]. intros [a|e]; [apply Hk|apply frugal_ret]. Qed.
Lemma wp_frugal {A} (m : M St A) Q s o : frugal m → wp m Q s o → wp m (λ a s' o', o' ⊆ o ∧ Q a s' o') s o.
Proof. intros Hm. specialize (Hm s o). unfold wp. by destruct (m s o) as [[[a s'] o']|]. Qed.
End frugal.
Lemma frugal_zoom {St T A} (view : St → T) (put : T → St → St) (m : M T A) : frugal m → frugal (zoom view put m).
Proof. intros Hm s o. unfold zoom. specialize (Hm (view s) o). by destruct (m (view s) o) as [[[a t] o']|]. Qed.

Create HintDb frugal.
#[export] Hint Resolve frugal_ret frugal_panic frugal_get frugal_gets frugal_modify frugal_massert frugal_ask frugal_zoom : frugal.
(** [frugal] of a body made of binds, branches and known computations. *)
Ltac frugal_steps :=
  repeat first
    [ apply frugal_bind; [|intros ?]
    | apply frugal_bind_res; [|intros ?]
    | solve [eauto with frugal]
    | match goal with |- frugal (match ?x with _ => _ end) => destruct x end ].

(** One step of symbolic execution of a [wp] goal. *)
Ltac wp_step :=
  lazymatch goal with
  | |- wp (bind _ _) _ _ _ => apply wp_bind
  | |- wp (bind_res _ _) _ _ _ => apply wp_bind_res
  | |- wp (ret _) _ _ _ => apply wp_ret
  | |- wp (gets _) _ _ _ => apply wp_gets
  | |- wp get _ _ _ => apply wp_get
  | |- wp (modify _) _ _ _ => apply wp_modify
  | |- wp (expect _) _ _ _ => eapply wp_expect; [first [reflexivity|eassumption]|]
  | |- wp (massert true) _ _ _ => apply wp_massert; [reflexivity|]
  end; cbv beta iota.
Ltac wp_steps := repeat wp_step.
(** Inclusions between the answers left at successive points of a run. *)
Ltac sub_oracle := repeat (etrans; [eassumption|]); reflexivity.

(** ** Arithmetic *)

Lemma wrap64_small x : is_u64 x → wrap64 x = x.
Proof. unfold wrap64, is_u64. intros. by apply Z.mod_small. Qed.
Lemma wrap64_is_u64 x : is_u64 (wrap64 x).
Proof. apply Z.mod_pos_bound. lia. Qed.
Lemma u64_add_small a b : 0 ≤ a + b < two64 → u64_add a b = a + b.
Proof. apply wrap64_small. Qed.
Lemma u64_sub_small a b : 0 ≤ a - b < two64 → u64_sub a b = a - b.
Proof. apply wrap64_small. Qed.
Lemma u64_mul_small a b : 0 ≤ a * b < two64 → u64_mul a b = a * b.
Proof. apply wrap64_small. Qed.

Lemma checked_add_Some a b c : checked_add a b = Some c ↔ c = a + b ∧ a + b < two64.
Proof. unfold checked_add. case_decide; split; [by intros [= <-]|by intros [-> _]|done|lia]. Qed.
Lemma checked_add_None a b : checked_add a b = None ↔ two64 ≤ a + b.
Proof. unfold checked_add. case_decide; split; intros; [done|lia|lia|done]. Qed.

(** Powers of two that fit in 64 bits. *)
Definition pow2 (x : Z) : Prop := ∃ k, 0 ≤ k < 64 ∧ x = 2 ^ k.

Lemma is_power_of_two_pow2 x : is_u64 x → is_power_of_two x = true ↔ pow2 x.
Proof.
  unfold is_power_of_two, is_u64. intros Hx. rewrite Z.eqb_eq. split.
  - intros H. exists (Z.log2 x). split; [|done].
    split; [apply Z.log2_nonneg|].
    destruct (decide (x = 0)) as [->|]; [simpl; lia|].
    apply Z.log2_lt_pow2; [lia|]. change (2 ^ 64) with two64. lia.
  - intros (k & Hk & ->). rewrite Z.log2_pow2; lia.
Qed.

Lemma pow2_pos x : pow2 x → 0 < x.
Proof. intros (k & ? & ->). apply Z.pow_pos_nonneg; lia. Qed.
Lemma pow2_bound x : pow2 x → x ≤ 9223372036854775808.
Proof.
  intros (k & ? & ->). change 9223372036854775808 with (2 ^ 63).
  apply Z.pow_le_mono_r; lia.
Qed.

Lemma pow2_max x y : pow2 x → pow2 y → pow2 (Z.max x y).
Proof. destruct (Z.max_spec x y) as [[_ ->]|[_ ->]]; auto. Qed.

Lemma pow2_divide x y : pow2 x → pow2 y → x ≤ y → (x | y).
Proof.
  intros (j & ? & ->) (k & ? & ->) Hle.
  assert (j ≤ k) by (apply (Z.pow_le_mono_r_iff 2); lia).
  exists (2 ^ (k - j)). rewrite <- Z.pow_add_r by lia. f_equal. lia.
Qed.

(** [n & !(q - 1)] rounds down to a multiple of [q]. *)
Lemma land_not_mask n q : is_u64 n → pow2 q → Z.land n (u64_not (q - 1)) = n - n mod q.
Proof.
  intros Hn (k & Hk & ->). unfold is_u64 in Hn.
  assert (u64_not (2 ^ k - 1) = Z.ldiff (Z.ones 64) (Z.ones k)) as ->.
  { unfold u64_not, u64_max. rewrite <- Z.sub_nocarry_ldiff.
    - rewrite !Z.ones_equiv. change (Z.pred (2 ^ 64)) with 18446744073709551615. lia.
    - apply Z.bits_inj'. intros i Hi. rewrite Z.ldiff_spec, Z.bits_0.
      rewrite !Z.testbit_ones_nonneg by lia.
      destruct (Z.ltb_spec i k), (Z.ltb_spec i 64); simpl; lia || done. }
  assert (Z.land n (Z.ldiff (Z.ones 64) (Z.ones k)) = Z.ldiff n (Z.ones k)) as ->.
  { apply Z.bits_inj'. intros i Hi.
    rewrite Z.land_spec, !Z.ldiff_spec, !Z.testbit_ones_nonneg by lia.
    destruct (Z.ltb_spec i 64); [done|].
    rewrite (Z.bits_above_log2 n i); [done|lia|].
    destruct (decide (n = 0)) as [->|]; [simpl; lia|].
    assert (Z.log2 n < 64); [|lia].
    apply Z.log2_lt_pow2; [lia|]. change (2 ^ 64) with two64. lia. }
  rewrite Z.ldiff_ones_r by lia. rewrite Z.shiftl_mul_pow2, Z.shiftr_div_pow2 by lia.
  pose proof (Z.div_mod n (2 ^ k)). lia.
Qed.

Lemma is_multiple_of_mod x y : 0 < y → is_multiple_of x y = true ↔ x mod y = 0.
Proof.
  unfold is_multiple_of. intros Hy. destruct (Z.eqb_spec y 0); [lia|].
  apply Z.eqb_eq.
Qed.

(** ** Sums over finite maps *)

Definition msum {V} (f : V → Z) (m : gmap Z V) : Z := map_fold (λ _ v acc, f v + acc) 0 m.

Section msum.
Context {V : Type} (f : V → Z).
Implicit Types (m : gmap Z V).

Lemma msum_empty : msum f ∅ = 0.
Proof. apply map_fold_empty. Qed.
Lemma msum_insert_None m k v : m !! k = None → msum f (<[k:=v]> m) = f v + msum f m.
Proof. intros Hk. unfold msum. rewrite map_fold_insert_L; [done| |done]. intros; lia. Qed.
Lemma msum_delete m k v : m !! k = Some v → msum f (delete k m) = msum f m - f v.
Proof.
  intros Hk. rewrite <- (insert_delete_id m k v Hk) at 2.
  rewrite msum_insert_None by apply lookup_delete_eq. lia.
Qed.
Lemma msum_insert_Some m k v v' :
  m !! k = Some v → msum f (<[k:=v']> m) = msum f m - f v + f v'.
Proof.
  intros Hk. rewrite <- insert_delete_eq, msum_insert_None by apply lookup_delete_eq.
  rewrite (msum_delete m k v) by done. lia.
Qed.
Lemma msum_nonneg m : map_Forall (λ _ v, 0 ≤ f v) m → 0 ≤ msum f m.
Proof.
  induction m as [|k v m Hk IH] using map_ind; intros Hall; [by rewrite msum_empty|].
  rewrite msum_insert_None by done. rewrite map_Forall_insert in Hall by done.
  destruct Hall as [? Hm]. specialize (IH Hm). lia.
Qed.
Lemma msum_lookup_le m k v :
  map_Forall (λ _ v, 0 ≤ f v) m → m !! k = Some v → f v ≤ msum f m.
Proof.
  intros Hall Hk. pose proof (msum_nonneg (delete k m)) as Hn.
  rewrite (msum_delete m k v) in Hn by done.
  assert (map_Forall (λ _ v, 0 ≤ f v) (delete k m)) by (by apply map_Forall_delete).
  specialize (Hn H). lia.
Qed.
End msum.

(** ** Bitmaps of 64 bits *)

Lemma is_u64_bits x : is_u64 x ↔ 0 ≤ x ∧ ∀ i, 64 ≤ i → Z.testbit x i = false.
Proof.
  split.
  - intros [H0 H1]. split; [done|]. intros i Hi.
    destruct (decide (x = 0)) as [->|]; [apply Z.bits_0|].
    apply Z.bits_above_log2; [done|].
    assert (Z.log2 x < 64); [|lia]. apply Z.log2_lt_pow2; [lia|]. change (2 ^ 64) with two64. lia.
  - intros [H0 Hb]. assert (x = x mod 2 ^ 64) as ->.
    { apply Z.bits_inj'. intros i Hi. destruct (decide (i < 64)).
      - by rewrite Z.mod_pow2_bits_low.
      - rewrite Z.mod_pow2_bits_high by lia. apply Hb. lia. }
    apply Z.mod_pos_bound. lia.
Qed.
Lemma lor_u64 a b : is_u64 a → is_u64 b → is_u64 (Z.lor a b).
Proof.
  rewrite !is_u64_bits. intros [? Ha] [? Hb]. split; [by apply Z.lor_nonneg|].
  intros i Hi. by rewrite Z.lor_spec, Ha, Hb.
Qed.
Lemma land_u64 a b : is_u64 a → 0 ≤ b → is_u64 (Z.land a b).
Proof.
  rewrite !is_u64_bits. intros [? Ha] ?. split; [apply Z.land_nonneg; by left|].
  intros i Hi. by rewrite Z.land_spec, Ha.
Qed.
Lemma u64_shl_1 i : 0 ≤ i < 64 → u64_shl 1 i = 2 ^ i.
Proof.
  intros Hi. unfold u64_shl. rewrite Z.shiftl_1_l. apply wrap64_small. split; [lia|].
  change two64 with (2 ^ 64). apply Z.pow_lt_mono_r; lia.
Qed.
Lemma testbit_pow2 i j : 0 ≤ i → Z.testbit (2 ^ i) j = bool_decide (i = j).
Proof.
  intros Hi. rewrite Z.pow2_bits_eqb by done.
  destruct (Z.eqb_spec i j); [by rewrite bool_decide_true|by rewrite bool_decide_false].
Qed.
Lemma testbit_not i x : is_u64 x → 0 ≤ i < 64 → Z.testbit (u64_not x) i = negb (Z.testbit x i).
Proof.
  intros Hx Hi. assert (u64_not x = Z.lxor x (Z.ones 64)) as ->.
  { unfold u64_not. change u64_max with (Z.ones 64). rewrite Z.lxor_comm.
    assert (Z.land x (Z.ones 64) = x) as Hl.
    { rewrite Z.land_ones by lia. apply Z.mod_small. apply Hx. }
    rewrite (Z.sub_nocarry_ldiff (Z.ones 64) x).
    - apply Z.bits_inj'. intros j Hj. rewrite Z.ldiff_spec, Z.lxor_spec.
      rewrite <- Hl, Z.land_spec. destruct (Z.testbit x j), (Z.testbit (Z.ones 64) j); done.
    - apply Z.bits_inj'. intros j Hj. rewrite Z.ldiff_spec, Z.bits_0.
      rewrite <- Hl, Z.land_spec. destruct (Z.testbit x j), (Z.testbit (Z.ones 64) j); done. }
  rewrite Z.lxor_spec, Z.testbit_ones_nonneg by lia. destruct (Z.ltb_spec i 64); [|lia].
  apply xorb_true_r.
Qed.

(** [trailing_zeros] finds the least set bit. *)
Lemma lowest_bit_from_spec fuel i x j :
  i ≤ j < i + Z.of_nat fuel → Z.testbit x j = true →
  i ≤ lowest_bit_from fuel i x ≤ j ∧ Z.testbit x (lowest_bit_from fuel i x) = true ∧
  ∀ k, i ≤ k < lowest_bit_from fuel i x → Z.testbit x k = false.
Proof.
  revert i. induction fuel as [|fuel IH]; intros i Hj Hb; simpl; [lia|].
  destruct (Z.testbit x i) eqn:E; [split_and!; [lia|lia|done|lia]|].
  assert (i ≠ j) by congruence.
  destruct (IH (i + 1)) as (?&?&Hk); [lia|done|]. split_and!; [lia|lia|done|].
  intros k ?. destruct (decide (k = i)) as [->|]; [done|]. apply Hk. lia.
Qed.

Lemma msum_le_Forall {V} (f g : V → Z) (m : gmap Z V) :
  map_Forall (λ _ v, f v ≤ g v) m → msum f m ≤ msum g m.
Proof.
  induction m as [|k v m Hk IH] using map_ind; intros Hall; [by rewrite !msum_empty|].
  rewrite !msum_insert_None by done. rewrite map_Forall_insert in Hall by done.
  destruct Hall as [? Hm]. specialize (IH Hm). lia.
Qed.

(** ** Counting *)

Definition countb {A} (f : A → bool) (l : list A) : Z := Z.of_nat (length (List.filter f l)).

Section countb.
Context {A : Type} (f : A → bool).
Lemma countb_cons x l : countb f (x :: l) = Z.b2z (f x) + countb f l.
Proof. unfold countb. simpl. destruct (f x); simpl; lia. Qed.
Lemma countb_insert l i x y : l !! i = Some x → countb f (<[i:=y]> l) = countb f l - Z.b2z (f x) + Z.b2z (f y).
Proof.
  revert i. induction l as [|z l IH]; intros [|i]; simpl; intros Hl; simplify_eq; rewrite !countb_cons; [lia|].
  rewrite (IH i) by done. lia.
Qed.
Lemma countb_bound l : 0 ≤ countb f l ≤ Z.of_nat (length l).
Proof. induction l as [|x l IH]; [done|]. rewrite countb_cons. simpl. destruct (f x); simpl; lia. Qed.
Lemma countb_pos l i x : l !! i = Some x → f x = true → 0 < countb f l.
Proof.
  revert i. induction l as [|y l IH]; intros [|i]; simpl; intros Hl Hf; simplify_eq; rewrite countb_cons; pose proof (countb_bound l).
  - rewrite Hf. simpl. lia.
  - specialize (IH _ Hl Hf). destruct (f y); simpl; lia.
Qed.
Lemma countb_zero l : (∀ x, x ∈ l → f x = false) → countb f l = 0.
Proof.
  induction l as [|x l IH]; intros Hl; [done|]. rewrite countb_cons, (Hl x), IH; [done| |left]. intros y Hy. apply Hl. by right.
Qed.
End countb.

(** ** Sums over a list *)

Definition sumz {A} (f : A → Z) (l : list A) : Z := foldr (λ x n, f x + n) 0 l.

Section sumz.
Context {A : Type} (f : A → Z).
Lemma sumz_cons x l : sumz f (x :: l) = f x + sumz f l.
Proof. done. Qed.
Lemma sumz_app l k : sumz f (l ++ k) = sumz f l + sumz f k.
Proof. induction l as [|x l IH]; [done|]. cbn [app]. rewrite !sumz_cons, IH. lia. Qed.
Lemma sumz_insert l i x y : l !! i = Some x → sumz f (<[i:=y]> l) = sumz f l - f x + f y.
Proof.
  revert i. induction l as [|z l IH]; intros i Hl; [done|].
  destruct i as [|i]; [injection Hl as ->; simpl; lia|].
  change (<[S i:=y]> (z :: l)) with (z :: <[i:=y]> l). rewrite !sumz_cons, (IH i) by done. lia.
Qed.
Lemma sumz_nonneg l : (∀ x, x ∈ l → 0 ≤ f x) → 0 ≤ sumz f l.
Proof.
  induction l as [|x l IH]; intros Hl; [done|]. rewrite sumz_cons.
  pose proof (Hl x (list_elem_of_here _ _)). pose proof (IH (λ y Hy, Hl y (list_elem_of_further _ _ _ Hy))). lia.
Qed.
Lemma sumz_le (g : A → Z) l : (∀ x, x ∈ l → f x ≤ g x) → sumz f l ≤ sumz g l.
Proof.
  induction l as [|x l IH]; intros Hl; [done|]. unfold sumz in *. simpl.
  pose proof (Hl x (list_elem_of_here _ _)). pose proof (IH (λ y Hy, Hl y (list_elem_of_further _ _ _ Hy))). lia.
Qed.
Lemma sumz_lookup l i x : (∀ x, x ∈ l → 0 ≤ f x) → l !! i = Some x → f x ≤ sumz f l.
Proof.
  revert i. induction l as [|z l IH]; intros [|i] Hall; cbn; intros Hl; simplify_eq.
  - pose proof (sumz_nonneg l (λ y Hy, Hall y (list_elem_of_further _ _ _ Hy))). unfold sumz in *. lia.
  - pose proof (IH i (λ y Hy, Hall y (list_elem_of_further _ _ _ Hy)) Hl). pose proof (Hall z (list_elem_of_here _ _)). unfold sumz in *. lia.
Qed.
End sumz.
Lemma countb_app {A} (f : A → bool) l k : countb f (l ++ k) = countb f l + countb f k.
Proof. unfold countb. rewrite List.filter_app, length_app. lia. Qed.
Lemma countb_perm {A} (f : A → bool) l k : l ≡ₚ k → countb f l = countb f k.
Proof. intros Hp. induction Hp; rewrite ?countb_cons in *; lia. Qed.
