(* ===== verification/Bytes.v ===== *)
(** Byte strings: slices, copies into a buffer, and the little-endian encoding
    of integers ([to_ne_bytes] and [from_ne_bytes] on both targets, and
    [from_le_bytes]). Bytes are integers of [Z] below 256. *)
From S2P Require Import Prelude.
Open Scope rust_scope.

Definition is_byte (b : Z) : Prop := 0 ≤ b < 256.
#[export] Instance is_byte_dec b : Decision (is_byte b).
Proof. unfold is_byte. apply _. Defined.

(** [&l[a..b]], for [a ≤ b ≤ l.len()]. *)
Definition slice {A} (l : list A) (a b : nat) : list A := take (b - a) (drop a l).
(** [l[at..at + bytes.len()].copy_from_slice(bytes)], inside the bounds of [l]. *)
Definition copy_into {A} (l : list A) (at_ : nat) (bytes : list A) : list A :=
  take at_ l ++ bytes ++ drop (at_ + length bytes) l.

(** [x.to_le_bytes()] in [n] bytes, and its inverse. *)
Fixpoint to_le (n : nat) (x : Z) : list Z :=
  match n with
  | O => []
  | S n => x mod 256 :: to_le n (x / 256)
  end.
Fixpoint of_le (l : list Z) : Z :=
  match l with
  | [] => 0
  | b :: l => b + 256 * of_le l
  end.

(** [x as i64] for a [u64] [x], and back. *)
Definition to_i64 (x : Z) : Z := if x <? 9223372036854775808 then x else x - two64.
Definition of_i64 (x : Z) : Z := x mod two64.

Lemma length_to_le n : ∀ x, length (to_le n x) = n.
Proof. induction n as [|n IH]; intros x; simpl; [done|]. by rewrite IH. Qed.

Lemma to_le_bytes n : ∀ x, Forall is_byte (to_le n x).
Proof. induction n as [|n IH]; intros x; simpl; constructor; [|done]. apply Z.mod_pos_bound. lia. Qed.

Lemma pow256_S n : 256 ^ Z.of_nat (S n) = 256 * 256 ^ Z.of_nat n.
Proof. rewrite Nat2Z.inj_succ, Z.pow_succ_r by lia. done. Qed.

Lemma of_to_le n : ∀ x, 0 ≤ x < 256 ^ Z.of_nat n → of_le (to_le n x) = x.
Proof.
  induction n as [|n IH]; intros x Hx; simpl.
  - change (256 ^ Z.of_nat 0) with 1 in Hx. lia.
  - rewrite pow256_S in Hx. pose proof (Z.div_mod x 256). rewrite IH; [lia|].
    split; [apply Z.div_pos; lia|]. apply Z.div_lt_upper_bound; lia.
Qed.

Lemma of_le_bound l : Forall is_byte l → 0 ≤ of_le l < 256 ^ Z.of_nat (length l).
Proof.
  induction 1 as [|b l Hb Hl IH]; simpl of_le; [done|]. cbn [length]. rewrite pow256_S.
  unfold is_byte in Hb. lia.
Qed.

Lemma to_of_le l : Forall is_byte l → to_le (length l) (of_le l) = l.
Proof.
  induction 1 as [|b l Hb Hl IH]; simpl; [done|]. unfold is_byte in Hb.
  replace (b + 256 * of_le l) with (of_le l * 256 + b) by lia.
  rewrite Z.add_comm, Z.mod_add, Z.div_add, (Z.mod_small b), (Z.div_small b) by lia. by rewrite Z.add_0_l, IH.
Qed.

Lemma to_of_i64 x : is_u64 x → of_i64 (to_i64 x) = x.
Proof.
  unfold is_u64, of_i64, to_i64. intros Hx. destruct (Z.ltb_spec x 9223372036854775808).
  - by apply Z.mod_small.
  - rewrite Zminus_mod, Z_mod_same_full, Z.sub_0_r, Z.mod_mod by lia. by apply Z.mod_small.
Qed.

Section slices.
Context {A : Type}.
Implicit Types (l : list A).

Lemma length_slice l a b : (a ≤ b)%nat → (b ≤ length l)%nat → length (slice l a b) = (b - a)%nat.
Proof. intros. unfold slice. rewrite length_take, length_drop. lia. Qed.

Lemma length_copy_into l at_ bytes :
  (at_ + length bytes ≤ length l)%nat → length (copy_into l at_ bytes) = length l.
Proof. intros. unfold copy_into. rewrite !length_app, length_take, length_drop. lia. Qed.

Lemma slice_all l : slice l 0 (length l) = l.
Proof. unfold slice. rewrite Nat.sub_0_r, drop_0. by apply take_ge. Qed.

Lemma slice_app_l l1 l2 a b : (b ≤ length l1)%nat → slice (l1 ++ l2) a b = slice l1 a b.
Proof.
  intros Hb. unfold slice. destruct (decide (a ≤ b)%nat).
  - rewrite drop_app_le by lia. apply take_app_le. rewrite length_drop. lia.
  - replace (b - a)%nat with 0%nat by lia. by rewrite !take_0.
Qed.

Lemma slice_app_r l1 l2 a b : (length l1 ≤ a)%nat →
  slice (l1 ++ l2) a b = slice l2 (a - length l1) (b - length l1).
Proof.
  intros Ha. unfold slice. rewrite drop_app_ge by done. f_equal. lia.
Qed.

Lemma slice_lookup l a b i : slice l a b !! i = if decide (i < b - a)%nat then l !! (a + i)%nat else None.
Proof.
  unfold slice. case_decide.
  - by rewrite lookup_take_lt, lookup_drop by done.
  - by rewrite lookup_take_ge by lia.
Qed.
End slices.
