(* ===== verification/Index.v ===== *)
(** The ordered indexes of [mem/index.rs].

    An index is a red-black tree of the [intrusive_collections] crate, keyed by
    [u64], whose nodes come from a pool and can be reserved before they are
    published.  The crate is a parameter: [RBTree] lists the operations the
    code calls and [RBTreeLaws] what the crate documents of them.  The section
    [index] translates the methods of [Index]; a node reservation asks the
    pool, whose answers are the oracle of the monad.  [assoc_tree] is a sorted
    association list that satisfies the laws and makes everything executable. *)
From S2P Require Import Prelude.

(** ** The tree of the [intrusive_collections] crate *)

(** A bound of a key range ([core::ops::Bound]). *)
Inductive Bound : Type :=
| Included (k : Z)
| Excluded (k : Z)
| Unbounded.

Definition above (b : Bound) (k : Z) : bool :=
  match b with Included x => x <=? k | Excluded x => x <? k | Unbounded => true end.
Definition below (b : Bound) (k : Z) : bool :=
  match b with Included x => k <=? x | Excluded x => k <? x | Unbounded => true end.

(** The operations used: a cursor that found, removed or walked a node is
    reduced to the key and the payload of that node.  [rb_update] writes the
    payload of a published node, which leaves links and keys alone. *)
Class RBTree (tree : Type → Type) : Type := {
  rb_new {V} : tree V;
  rb_iter {V} : tree V → list (Z * V);
  rb_find {V} : Z → tree V → option V;
  rb_insert {V} : Z → V → tree V → tree V;
  rb_remove {V} : Z → tree V → tree V;
  rb_update {V} : Z → (V → V) → tree V → tree V;
}.

Definition on_key {V} (k : Z) (f : V → V) (p : Z * V) : Z * V :=
  if decide (p.1 = k) then (p.1, f p.2) else p.

(** What the crate documents: in-order iteration by key, lookup of a present
    key, insertion of one node, removal of one node, payload writes. *)
Class RBTreeLaws (tree : Type → Type) `{RBTree tree} : Prop := {
  rb_iter_new V : rb_iter (rb_new (V:=V)) = [];
  rb_iter_sorted V (t : tree V) : StronglySorted Z.le (rb_iter t).*1;
  rb_find_some V (t : tree V) k v : rb_find k t = Some v → (k, v) ∈ rb_iter t;
  rb_find_none V (t : tree V) k : rb_find k t = None → k ∉ (rb_iter t).*1;
  rb_iter_insert V (t : tree V) k v : rb_iter (rb_insert k v t) ≡ₚ (k, v) :: rb_iter t;
  rb_iter_remove V (t : tree V) k v :
    rb_find k t = Some v → (k, v) :: rb_iter (rb_remove k t) ≡ₚ rb_iter t;
  rb_iter_update V (t : tree V) k f :
    NoDup (rb_iter t).*1 → rb_iter (rb_update k f t) = on_key k f <$> rb_iter t;
}.

(** ** The index *)

(** [mem::Error]. *)
Inductive Error : Type :=
| OutOfMemory
| InvalidAddress
| AlreadyMapped
| NotMapped
| Protection
| LimitExceeded
| SwapUnavailable
| CorruptSwap
| Pmap
| Io.
#[export] Instance Error_eq_dec : EqDecision Error.
Proof. solve_decision. Defined.

(** A node reserved in the pool and not yet published: its key is set and its
    value is still absent. *)
Record Node : Type := mkNode { node_key : Z }.

Section index.
Context {tree : Type → Type} `{!RBTree tree} {T : Type}.

Record Index : Type := mkIndex { tree_of : tree T; len : Z }.

Definition index_new : Index := mkIndex rb_new 0.

Definition index_get (k : Z) (i : Index) : option T := rb_find k (tree_of i).

Definition contains_key (k : Z) (i : Index) : bool :=
  bool_decide (is_Some (index_get k i)).

(** [range]: the entries between two bounds, in ascending key order. *)
Definition range (lo hi : Bound) (i : Index) : list (Z * T) :=
  filter (λ p, above lo p.1 && below hi p.1 = true) (rb_iter (tree_of i)).

Definition values (i : Index) : list T := (rb_iter (tree_of i)).*2.

(** [get_mut] followed by a write, and the writes through [Cell]s. *)
Definition index_update (k : Z) (f : T → T) (i : Index) : Index :=
  mkIndex (rb_update k f (tree_of i)) (len i).

(** Writes through [range_mut] and [iter_mut]. *)
Definition update_keys (f : T → T) (ks : list Z) (i : Index) : Index :=
  foldl (λ i k, index_update k f i) i ks.
Definition range_update (lo hi : Bound) (f : T → T) (i : Index) : Index :=
  update_keys f (range lo hi i).*1 i.

Definition reserve_new {St} (k : Z) : M St (result Error Node) :=
  (let* granted := ask_pool in
   ret (if granted : bool then Ok (mkNode k) else Err OutOfMemory))%rust.

Definition index_reserve {St} (k : Z) (i : Index) : M St (result Error (option Node)) :=
  if contains_key k i then ret (Ok None)
  else (let! node := reserve_new k in ret (Ok (Some node)))%rust.

(** [insert] returns the payload it replaces; without one it needs a node
    reserved for that very key. *)
Definition index_insert (k : Z) (v : T) (reserved : option Node) :
    M Index (option T) :=
  (let* i := get in
   match index_get k i with
   | Some old => do modify (index_update k (λ _, v)) then ret (Some old)
   | None =>
       let* node := expect reserved in
       do massert (node_key node =? k) then
       do modify (λ i, mkIndex (rb_insert k v (tree_of i)) (len i + 1)) then
       ret None
   end)%rust.

Definition index_remove (k : Z) : M Index (option T) :=
  (let* i := get in
   match index_get k i with
   | None => ret None
   | Some v =>
       do modify (λ i, mkIndex (rb_remove k (tree_of i)) (len i - 1)) then
       ret (Some v)
   end)%rust.

Definition rekey (old new : Z) : M Index () :=
  (let* i := get in
   do massert (negb (contains_key new i)) then
   let* v := expect (index_get old i) in
   modify (λ i, mkIndex (rb_insert new v (rb_remove old (tree_of i))) (len i)))%rust.

(** The cursor loop of [split_off] and [extract_range]: the nodes that match
    move to the other tree one at a time. *)
Definition move_node (removed : Index) (p : Z * T) : Index :=
  mkIndex (rb_insert p.1 p.2 (tree_of removed)) (len removed + 1).
Definition detach (nodes : list (Z * T)) (i : Index) : Index * Index :=
  let removed := foldl move_node index_new nodes in
  (removed,
   mkIndex (foldl (λ t p, rb_remove p.1 t) (tree_of i) nodes) (len i - len removed)).

Definition split_off (k : Z) (i : Index) : Index * Index :=
  match rb_iter (tree_of i) with
  | p :: _ => if k <=? p.1 then (i, index_new) else detach (range (Included k) Unbounded i) i
  | [] => detach (range (Included k) Unbounded i) i
  end.

Definition extract_range (start end_ : Z) (i : Index) : Index * Index :=
  detach (range (Included start) (Excluded end_) i) i.
End index.
Arguments Index : clear implicits.

(** ** What an index stores *)

Section index_facts.
Context {tree : Type → Type} `{!RBTree tree, !RBTreeLaws tree} {T : Type}.
Implicit Types (i : Index tree T) (k : Z) (v : T).

(** The finite map an index represents. *)
Definition index_map i : gmap Z T := list_to_map (rb_iter (tree_of i)).

(** No key is published twice and the counter counts the nodes. *)
Definition index_ok i : Prop :=
  NoDup (rb_iter (tree_of i)).*1 ∧ len i = Z.of_nat (length (rb_iter (tree_of i))).

Lemma imap_elem i k v : index_ok i → index_map i !! k = Some v ↔ (k, v) ∈ rb_iter (tree_of i).
Proof. intros [Hnd _]. symmetry. by apply elem_of_list_to_map. Qed.

Lemma index_ok_size i : index_ok i → len i = Z.of_nat (size (index_map i)).
Proof.
  intros [Hnd ->]. unfold index_map. f_equal. rewrite <- length_map_to_list.
  apply Permutation_length. symmetry. by apply map_to_list_to_map.
Qed.

Lemma index_new_ok : index_ok (index_new (tree:=tree) (T:=T)).
Proof. split; simpl; rewrite rb_iter_new; [constructor|done]. Qed.
Lemma imap_new : index_map (index_new (tree:=tree) (T:=T)) = ∅.
Proof. unfold index_map. simpl. by rewrite rb_iter_new. Qed.

Lemma index_get_imap i k : index_ok i → index_get k i = index_map i !! k.
Proof.
  intros Hok. unfold index_get. destruct (rb_find k (tree_of i)) as [v|] eqn:E.
  - symmetry. apply imap_elem; [done|]. by apply rb_find_some.
  - apply rb_find_none in E. symmetry. by apply not_elem_of_list_to_map_1.
Qed.

Lemma contains_key_spec i k :
  index_ok i → contains_key k i = bool_decide (is_Some (index_map i !! k)).
Proof. intros. unfold contains_key. by rewrite index_get_imap. Qed.

Lemma index_insert_new_ok i k v :
  index_ok i → index_map i !! k = None →
  index_ok (mkIndex (rb_insert k v (tree_of i)) (len i + 1)) ∧
  index_map (mkIndex (rb_insert k v (tree_of i)) (len i + 1)) = <[k:=v]> (index_map i).
Proof.
  intros [Hnd Hlen] Hk. pose proof (rb_iter_insert T (tree_of i) k v) as Hp.
  assert (NoDup ((k, v) :: rb_iter (tree_of i)).*1) as Hnd'.
  { rewrite fmap_cons. apply NoDup_cons. split; [|done].
    by apply not_elem_of_list_to_map_2. }
  assert (NoDup (rb_iter (rb_insert k v (tree_of i))).*1) by (by rewrite Hp).
  split; [split; [done|]|].
  - simpl. rewrite Hp, Hlen. simpl. lia.
  - unfold index_map. simpl tree_of. by rewrite (list_to_map_proper _ _ ltac:(done) Hp).
Qed.

Lemma index_remove_ok i k v :
  index_ok i → index_map i !! k = Some v →
  index_ok (mkIndex (rb_remove k (tree_of i)) (len i - 1)) ∧
  index_map (mkIndex (rb_remove k (tree_of i)) (len i - 1)) = delete k (index_map i).
Proof.
  intros Hok Hk. rewrite <- index_get_imap in Hk by done.
  destruct Hok as [Hnd Hlen]. pose proof (rb_iter_remove T _ _ _ Hk) as Hp.
  assert (NoDup ((k, v) :: rb_iter (rb_remove k (tree_of i))).*1) as Hnd' by (by rewrite Hp).
  pose proof Hnd' as Hnd''. rewrite fmap_cons in Hnd''.
  apply NoDup_cons in Hnd'' as [Hni Hnd''].
  split; [split; [done|]|].
  - simpl. rewrite Hlen, <- Hp. simpl. lia.
  - unfold index_map. simpl tree_of. rewrite <- (list_to_map_proper _ _ Hnd' Hp). simpl.
    rewrite delete_insert_id; [done|]. by apply not_elem_of_list_to_map_1.
Qed.

Lemma on_key_fst k (f : T → T) l : (on_key k f <$> l).*1 = l.*1.
Proof.
  rewrite <- list_fmap_compose. apply list_fmap_ext. intros ? [] _.
  unfold on_key. simpl. by case_decide.
Qed.

Lemma list_to_map_on_key k (f : T → T) l :
  list_to_map (M:=gmap Z T) (on_key k f <$> l) = alter f k (list_to_map l).
Proof.
  induction l as [|[k' v'] l IH].
  - symmetry. by apply alter_id.
  - rewrite fmap_cons, (list_to_map_cons _ k' v'). unfold on_key at 1. cbn [fst snd].
    case_decide; simplify_eq; rewrite list_to_map_cons, IH.
    + apply map_eq. intros j. rewrite lookup_alter, !lookup_insert, lookup_alter.
      by repeat case_decide.
    + by rewrite alter_insert_ne.
Qed.

Lemma index_update_ok i k f :
  index_ok i → index_ok (index_update k f i) ∧ index_map (index_update k f i) = alter f k (index_map i).
Proof.
  intros [Hnd Hlen]. unfold index_ok, index_map. simpl.
  rewrite !(rb_iter_update _ _ _ _ Hnd), on_key_fst, length_fmap.
  split; [done|]. apply list_to_map_on_key.
Qed.

(** Membership in a range, and its first and last entries. *)
Lemma elem_of_range i lo hi k v :
  index_ok i →
  (k, v) ∈ range lo hi i ↔ index_map i !! k = Some v ∧ above lo k = true ∧ below hi k = true.
Proof.
  intros Hok. unfold range. rewrite list_elem_of_filter, imap_elem by done.
  simpl. rewrite andb_true_iff. tauto.
Qed.

Lemma StronglySorted_lt_NoDup (l : list Z) : StronglySorted Z.lt l → NoDup l.
Proof.
  induction 1 as [|x l _ IH Hall]; constructor; [|done].
  rewrite Forall_forall in Hall. intros Hin. specialize (Hall _ Hin). lia.
Qed.

Lemma elem_of_range_2 i lo hi k v :
  index_ok i → index_map i !! k = Some v → above lo k = true → below hi k = true →
  (k, v) ∈ range lo hi i.
Proof. intros. by apply elem_of_range. Qed.

Lemma range_sorted i lo hi : index_ok i → StronglySorted Z.lt (range lo hi i).*1.
Proof.
  intros [Hnd _]. pose proof (rb_iter_sorted T (tree_of i)) as Hs. unfold range.
  induction (rb_iter (tree_of i)) as [|[k v] l IH]; [constructor|].
  rewrite fmap_cons in Hs, Hnd. apply StronglySorted_inv in Hs as [Hs Hall].
  apply NoDup_cons in Hnd as [Hni Hnd]. rewrite filter_cons.
  case_decide; [|by apply IH]. simpl. constructor; [by apply IH|].
  rewrite Forall_forall in *. intros x Hx.
  apply list_elem_of_fmap in Hx as ([x' w] & -> & Hx). apply list_elem_of_filter in Hx as [_ Hx].
  assert (x' ∈ l.*1) as Hx' by (apply list_elem_of_fmap; by exists (x', w)).
  specialize (Hall _ Hx'). simpl in *. assert (x' ≠ k) by congruence. lia.
Qed.

Lemma sorted_last_max (l : list (Z * T)) k v k' v' :
  StronglySorted Z.lt l.*1 → last l = Some (k, v) → (k', v') ∈ l → k' ≤ k.
Proof.
  induction l as [|[k1 v1] l IH]; [done|]. rewrite fmap_cons. intros Hs Hlast Hin.
  apply StronglySorted_inv in Hs as [Hs Hall]. rewrite last_cons in Hlast.
  destruct (last l) as [[k2 v2]|] eqn:El; simplify_eq.
  - apply elem_of_cons in Hin as [[= -> ->]|Hin]; [|by apply IH].
    rewrite Forall_forall in Hall. apply Z.lt_le_incl, Hall.
    apply list_elem_of_fmap. exists (k, v). split; [done|].
    apply last_Some in El as [l' ->]. set_solver.
  - apply last_None in El as ->. apply list_elem_of_singleton in Hin. simplify_eq. lia.
Qed.

(** [range(..hi).next_back()] is the entry of greatest key below [hi]. *)
Lemma range_last_Some i hi k v :
  index_ok i → last (range Unbounded hi i) = Some (k, v) →
  index_map i !! k = Some v ∧ below hi k = true ∧
  ∀ k' v', index_map i !! k' = Some v' → below hi k' = true → k' ≤ k.
Proof.
  intros Hok Hl. assert ((k, v) ∈ range Unbounded hi i) as Hin.
  { apply last_Some in Hl as [l' ->]. set_solver. }
  apply elem_of_range in Hin as (? & _ & ?); [|done]. split_and!; [done..|].
  intros k' v' Hk' Hb. eapply sorted_last_max; [by apply range_sorted|done|].
  by apply elem_of_range_2.
Qed.

Lemma range_last_None i hi k v :
  index_ok i → last (range Unbounded hi i) = None →
  index_map i !! k = Some v → below hi k = false.
Proof.
  intros Hok Hl Hk. apply last_None in Hl. destruct (below hi k) eqn:E; [|done].
  assert ((k, v) ∈ range Unbounded hi i) as Hin by (by apply elem_of_range_2).
  rewrite Hl in Hin. by apply not_elem_of_nil in Hin.
Qed.

(** [range(lo..).next()] is the entry of least key above [lo]. *)
Lemma range_head_Some i lo k v :
  index_ok i → head (range lo Unbounded i) = Some (k, v) →
  index_map i !! k = Some v ∧ above lo k = true ∧
  ∀ k' v', index_map i !! k' = Some v' → above lo k' = true → k ≤ k'.
Proof.
  intros Hok Hh. pose proof (range_sorted i lo Unbounded Hok) as Hs.
  destruct (range lo Unbounded i) as [|p l] eqn:El; simplify_eq/=.
  assert ((k, v) ∈ range lo Unbounded i) as Hin by (rewrite El; left).
  apply elem_of_range in Hin as (? & ? & _); [|done]. split_and!; [done..|].
  intros k' v' Hk' Ha.
  assert ((k', v') ∈ range lo Unbounded i) as Hin' by (by apply elem_of_range_2).
  rewrite El in Hin'. apply elem_of_cons in Hin' as [[= -> ->]|Hin']; [lia|].
  apply StronglySorted_inv in Hs as [_ Hall]. rewrite Forall_forall in Hall.
  apply Z.lt_le_incl, Hall. apply list_elem_of_fmap. by exists (k', v').
Qed.

Lemma range_head_None i lo k v :
  index_ok i → head (range lo Unbounded i) = None →
  index_map i !! k = Some v → above lo k = false.
Proof.
  intros Hok Hl Hk. destruct (above lo k) eqn:E; [|done].
  assert ((k, v) ∈ range lo Unbounded i) as Hin by (by apply elem_of_range_2).
  destruct (range lo Unbounded i); [|done]. by apply not_elem_of_nil in Hin.
Qed.

(** Publication of a reserved node, replacement and removal. *)
Lemma wp_index_insert i o k v node (Q : option T → Index tree T → oracle → Prop) :
  index_ok i →
  (index_map i !! k = None → node = Some (mkNode k)) →
  (∀ i', index_ok i' → index_map i' = <[k:=v]> (index_map i) → Q (index_map i !! k) i' o) →
  wp (index_insert k v node) Q i o.
Proof.
  intros Hok Hnode HQ. unfold index_insert. wp_steps.
  rewrite index_get_imap by done. destruct (index_map i !! k) as [old|] eqn:E.
  - wp_steps. destruct (index_update_ok i k (λ _, v) Hok) as [? Hm].
    apply HQ; [done|]. rewrite Hm. apply map_eq. intros j.
    rewrite lookup_alter, lookup_insert. case_decide; [subst; by rewrite E|done].
  - rewrite (Hnode eq_refl). wp_steps. apply wp_massert.
    { simpl. apply Z.eqb_refl. }
    wp_steps. destruct (index_insert_new_ok i k v Hok E). by apply HQ.
Qed.

Lemma wp_index_remove i o k v (Q : option T → Index tree T → oracle → Prop) :
  index_ok i → index_map i !! k = Some v →
  (∀ i', index_ok i' → index_map i' = delete k (index_map i) → Q (Some v) i' o) →
  wp (index_remove k) Q i o.
Proof.
  intros Hok Hk HQ. unfold index_remove. wp_steps. rewrite index_get_imap, Hk by done.
  wp_steps. destruct (index_remove_ok i k v Hok Hk). by apply HQ.
Qed.

Lemma wp_rekey i o old new v (Q : () → Index tree T → oracle → Prop) :
  index_ok i → index_map i !! old = Some v → index_map i !! new = None →
  (∀ i', index_ok i' → index_map i' = <[new:=v]> (delete old (index_map i)) → Q () i' o) →
  wp (rekey old new) Q i o.
Proof.
  intros Hok Ho Hn HQ. unfold rekey. wp_steps. apply wp_massert.
  { rewrite contains_key_spec, Hn by done. done. }
  wp_step. eapply wp_expect; [by rewrite index_get_imap|]. wp_steps.
  destruct (index_remove_ok i old v Hok Ho) as [Hok1 Hm1].
  assert (old ≠ new) by congruence.
  destruct (index_insert_new_ok _ new v Hok1) as [Hok2 Hm2].
  { rewrite Hm1, lookup_delete_ne by done. done. }
  simpl in Hok2, Hm2. replace (len i - 1 + 1) with (len i) in Hok2, Hm2 by lia.
  apply HQ; [done|]. by rewrite Hm2, Hm1.
Qed.

Lemma wp_reserve_new {St} k (Q : result Error Node → St → oracle → Prop) s o :
  (∀ o', o' ⊆ o → Q (Ok (mkNode k)) s o') →
  (∀ o', o' ⊆ o → false ∈ o → Q (Err OutOfMemory) s o') →
  wp (reserve_new k) Q s o.
Proof.
  intros H1 H2. unfold reserve_new. wp_steps. apply wp_ask.
  intros [] o' Ho Hf; wp_steps; auto.
Qed.

(** Writes to all the entries of a range. *)
Lemma update_keys_ok f (ks : list Z) : ∀ i,
  index_ok i → NoDup ks →
  index_ok (update_keys f ks i) ∧
  ∀ k, index_map (update_keys f ks i) !! k =
       (λ v, if decide (k ∈ ks) then f v else v) <$> index_map i !! k.
Proof.
  induction ks as [|k0 ks IH]; intros i Hok Hnd.
  - split; [done|]. intros k. change (update_keys f [] i) with i. by destruct (index_map i !! k).
  - apply NoDup_cons in Hnd as [Hni Hnd].
    destruct (index_update_ok i k0 f Hok) as [Hok' Hm].
    destruct (IH _ Hok' Hnd) as [Hok'' Hm'']. split; [done|].
    intros k. change (update_keys f (k0 :: ks) i) with (update_keys f ks (index_update k0 f i)).
    rewrite Hm'', Hm.
    rewrite lookup_alter. destruct (decide (k0 = k)) as [->|Hne].
    + destruct (index_map i !! k); simpl; [|done].
      rewrite (decide_False (P:=k ∈ ks)) by done. by rewrite decide_True by left.
    + destruct (index_map i !! k); simpl; [|done]. f_equal.
      destruct (decide (k ∈ ks)); [by rewrite decide_True by (by right)|].
      rewrite decide_False; [done|]. rewrite elem_of_cons. by intros [->|?].
Qed.

Lemma range_update_ok lo hi f i :
  index_ok i →
  index_ok (range_update lo hi f i) ∧
  ∀ k, index_map (range_update lo hi f i) !! k =
       (λ v, if above lo k && below hi k then f v else v) <$> index_map i !! k.
Proof.
  intros Hok. unfold range_update.
  assert (NoDup (range lo hi i).*1) as Hnd.
  { apply StronglySorted_lt_NoDup. by apply range_sorted. }
  destruct (update_keys_ok f _ i Hok Hnd) as [Hok' Hm]. split; [done|].
  intros k. rewrite Hm. destruct (index_map i !! k) as [v|] eqn:E; simpl; [|done]. f_equal.
  destruct (above lo k && below hi k) eqn:Eb.
  - rewrite decide_True; [done|]. apply andb_true_iff in Eb as [??].
    apply list_elem_of_fmap. exists (k, v). split; [done|]. by apply elem_of_range_2.
  - rewrite decide_False; [done|]. intros Hin.
    apply list_elem_of_fmap in Hin as ([k' v'] & -> & Hin).
    apply elem_of_range in Hin as (_ & Ha & Hb); [|done]. simpl in Eb. by rewrite Ha, Hb in Eb.
Qed.

(** Detaching a range splits the map in two. *)
Lemma move_nodes_ok (l : list (Z * T)) : ∀ r,
  index_ok r → NoDup l.*1 → (∀ k, k ∈ l.*1 → index_map r !! k = None) →
  index_ok (foldl move_node r l) ∧
  len (foldl move_node r l) = len r + Z.of_nat (length l) ∧
  index_map (foldl move_node r l) = list_to_map l ∪ index_map r.
Proof.
  induction l as [|[k v] l IH]; intros r Hok Hnd Hfresh.
  - split_and!; [done|cbn; lia|]. cbn. by rewrite (left_id_L ∅ (∪)).
  - rewrite fmap_cons in Hnd. apply NoDup_cons in Hnd as [Hni Hnd].
    destruct (index_insert_new_ok r k v Hok) as [Hok' Hm'].
    { apply Hfresh. rewrite fmap_cons. by left. }
    destruct (IH (move_node r (k, v))) as (Hok'' & Hlen & Hm''); [done|done| |].
    { intros k' Hk'. unfold move_node. simpl. rewrite Hm'.
      rewrite lookup_insert_ne by (intros ->; done). apply Hfresh.
      rewrite fmap_cons. by right. }
    split_and!; [done| |].
    + cbn [foldl]. rewrite Hlen. simpl. lia.
    + cbn [foldl]. rewrite Hm''. unfold move_node. simpl. rewrite Hm'.
      rewrite <- insert_union_l, insert_union_r; [done|].
      by apply not_elem_of_list_to_map_1.
Qed.

Lemma remove_nodes_ok (l : list (Z * T)) : ∀ i,
  index_ok i → NoDup l.*1 → (∀ k v, (k, v) ∈ l → index_map i !! k = Some v) →
  let i' := mkIndex (foldl (λ t p, rb_remove p.1 t) (tree_of i) l)
                    (len i - Z.of_nat (length l)) in
  index_ok i' ∧ ∀ k, index_map i' !! k = if decide (k ∈ l.*1) then None else index_map i !! k.
Proof.
  induction l as [|[k v] l IH]; intros i Hok Hnd Hin.
  - simpl. rewrite Z.sub_0_r. by destruct i.
  - rewrite fmap_cons in Hnd. apply NoDup_cons in Hnd as [Hni Hnd].
    destruct (index_remove_ok i k v Hok) as [Hok' Hm']; [apply Hin; by left|].
    destruct (IH _ Hok' Hnd) as [Hok'' Hm''].
    { intros k' v' Hk'. rewrite Hm'. rewrite lookup_delete_ne.
      - apply Hin. by right.
      - intros ->. apply Hni. apply list_elem_of_fmap. by exists (k', v'). }
    cbn [tree_of len] in Hok'', Hm''. cbv zeta. cbn [foldl fst].
    replace (len i - Z.of_nat (length ((k, v) :: l)))
      with (len i - 1 - Z.of_nat (length l)) by (simpl; lia).
    split; [done|]. intros k'. rewrite Hm'', Hm'.
    destruct (decide (k' ∈ l.*1)); [by rewrite decide_True by (by right)|].
    destruct (decide (k = k')) as [->|].
    + rewrite lookup_delete_eq. by rewrite decide_True by left.
    + rewrite lookup_delete_ne by done. rewrite decide_False; [done|].
      rewrite fmap_cons, elem_of_cons. by intros [->|?].
Qed.

Lemma range_extract_ok lo hi i :
  index_ok i →
  let '(r, i') := detach (range lo hi i) i in
  index_ok r ∧ index_ok i' ∧
  (∀ k, index_map r !! k = if above lo k && below hi k then index_map i !! k else None) ∧
  (∀ k, index_map i' !! k = if above lo k && below hi k then None else index_map i !! k).
Proof.
  intros Hok. assert (NoDup (range lo hi i).*1) as Hnd.
  { apply StronglySorted_lt_NoDup. by apply range_sorted. }
  assert (∀ k, k ∈ (range lo hi i).*1 ↔
               is_Some (index_map i !! k) ∧ above lo k && below hi k = true) as Hdom.
  { intros k. rewrite list_elem_of_fmap, andb_true_iff. split.
    - intros ([k' v] & -> & Hin). apply elem_of_range in Hin as (?&?&?); [|done]. eauto.
    - intros ([v Hv] & ? & ?). exists (k, v). split; [done|]. by apply elem_of_range_2. }
  unfold detach.
  destruct (move_nodes_ok (range lo hi i) index_new index_new_ok Hnd) as (Hr & Hl & Hmr).
  { intros k _. by rewrite imap_new. }
  rewrite imap_new, (right_id_L ∅ (∪)) in Hmr.
  destruct (remove_nodes_ok (range lo hi i) i Hok Hnd) as [Hi' Hmi'].
  { intros k v Hin. by apply elem_of_range in Hin as (?&?&?). }
  rewrite Hl. split_and!; [done|done| |].
  - intros k. rewrite Hmr. destruct (above lo k && below hi k) eqn:Eb.
    + destruct (index_map i !! k) as [v|] eqn:E.
      * apply elem_of_list_to_map; [done|]. apply andb_true_iff in Eb as [??].
        by apply elem_of_range_2.
      * apply not_elem_of_list_to_map_1. rewrite Hdom, E. intros [[? ?] _]. done.
    + apply not_elem_of_list_to_map_1. rewrite Hdom. intros [_ ?]. congruence.
  - intros k. simpl in Hmi'. rewrite Hmi'. destruct (above lo k && below hi k) eqn:Eb.
    + destruct (index_map i !! k) as [v|] eqn:E; [|by case_decide].
      rewrite decide_True; [done|]. rewrite Hdom, E. eauto.
    + rewrite decide_False; [done|]. rewrite Hdom. intros [_ ?]. congruence.
Qed.
End index_facts.

(** ** An executable tree *)

(** Association lists, iterated through an insertion sort by key. *)
Definition assoc_tree (V : Type) : Type := list (Z * V).

Section assoc_tree.
Context {V : Type}.
Implicit Types (l : list (Z * V)) (p : Z * V).

Fixpoint insert_by_key p l : list (Z * V) :=
  match l with
  | [] => [p]
  | q :: l' => if p.1 <=? q.1 then p :: l else q :: insert_by_key p l'
  end.
Definition sort_by_key l : list (Z * V) := foldr insert_by_key [] l.

Fixpoint assoc_find k l : option V :=
  match l with
  | [] => None
  | q :: l' => if decide (q.1 = k) then Some q.2 else assoc_find k l'
  end.
Fixpoint assoc_remove k l : list (Z * V) :=
  match l with
  | [] => []
  | q :: l' => if decide (q.1 = k) then l' else q :: assoc_remove k l'
  end.

Lemma insert_by_key_perm p l : insert_by_key p l ≡ₚ p :: l.
Proof.
  induction l as [|q l IH]; simpl; [done|]. case_match; [done|].
  rewrite IH. apply Permutation_swap.
Qed.
Lemma sort_by_key_perm l : sort_by_key l ≡ₚ l.
Proof. induction l as [|p l IH]; simpl; [done|]. by rewrite insert_by_key_perm, IH. Qed.

Lemma insert_by_key_sorted p l :
  StronglySorted Z.le l.*1 → StronglySorted Z.le (insert_by_key p l).*1.
Proof.
  induction l as [|q l IH]; intros Hs; simpl; [repeat constructor|].
  rewrite fmap_cons in Hs. pose proof (StronglySorted_inv Hs) as [Hs' Hall].
  destruct (Z.leb_spec p.1 q.1).
  - constructor; [done|]. constructor; [done|].
    eapply Forall_impl; [done|]. simpl. intros. lia.
  - simpl. constructor; [by apply IH|]. rewrite insert_by_key_perm. simpl.
    constructor; [lia|done].
Qed.
Lemma sort_by_key_sorted l : StronglySorted Z.le (sort_by_key l).*1.
Proof. induction l; simpl; [constructor|by apply insert_by_key_sorted]. Qed.

Lemma sort_by_key_map k f l : sort_by_key (on_key k f <$> l) = on_key k f <$> sort_by_key l.
Proof.
  assert (∀ q : Z * V, (on_key k f q).1 = q.1) as Hk.
  { intros []. unfold on_key. simpl. by case_decide. }
  assert (∀ p l, insert_by_key (on_key k f p) (on_key k f <$> l)
                 = on_key k f <$> insert_by_key p l) as Hi.
  { intros p l'. induction l' as [|q l' IH]; [done|]. rewrite fmap_cons. simpl.
    rewrite !Hk. case_match; [done|]. rewrite fmap_cons. by f_equal. }
  induction l as [|p l IH]; [done|]. rewrite fmap_cons. simpl. by rewrite IH, Hi.
Qed.

Lemma assoc_find_Some k v l : assoc_find k l = Some v → (k, v) ∈ l.
Proof.
  induction l as [|[k' v'] l IH]; simpl; [done|]. case_decide; intros; simplify_eq.
  - by left.
  - right. auto.
Qed.
Lemma assoc_find_None k l : assoc_find k l = None → k ∉ l.*1.
Proof.
  induction l as [|[k' v'] l IH]; simpl; [intros _; apply not_elem_of_nil|].
  case_decide; [done|]. intros Hn. rewrite elem_of_cons. intros [->|?]; [done|by apply IH].
Qed.
Lemma assoc_remove_perm k v l :
  assoc_find k l = Some v → (k, v) :: assoc_remove k l ≡ₚ l.
Proof.
  induction l as [|[k' v'] l IH]; simpl; [done|]. case_decide; intros; simplify_eq; [done|].
  rewrite <- IH at 2 by done. apply Permutation_swap.
Qed.
End assoc_tree.

#[export] Instance assoc_rbtree : RBTree assoc_tree := {|
  rb_new V := [];
  rb_iter V := sort_by_key;
  rb_find V := assoc_find;
  rb_insert V k v t := (k, v) :: t;
  rb_remove V := assoc_remove;
  rb_update V k f t := on_key k f <$> t;
|}.

#[export] Instance assoc_rbtree_laws : RBTreeLaws assoc_tree.
Proof.
  split; simpl.
  - done.
  - intros. apply sort_by_key_sorted.
  - intros V t k v ?. rewrite sort_by_key_perm. by apply assoc_find_Some.
  - intros V t k ?. rewrite sort_by_key_perm. by apply assoc_find_None.
  - intros V t k v. by rewrite insert_by_key_perm, sort_by_key_perm.
  - intros V t k v ?. rewrite !sort_by_key_perm. by apply assoc_remove_perm.
  - intros. apply sort_by_key_map.
Qed.
