(* ===== verification/Phys.v ===== *)
(** Physical frames ([mem/phys.rs], [mem/physseg.rs], [mem/reserve.rs]): the
    frame database, the free and zero lists, the caches of the processors and
    the page accounting.

    A reference to a database entry is the frame number the entry stands for;
    the entry is found through the segments.  A linked list of the allocator is
    the list of its references, and an entry is linked when it is in one.  Each
    operation runs under the locks its source takes. *)
From S2P Require Import Prelude.
From S2P Require Import Bytes.
Open Scope rust_scope.

Definition PAGE_BYTES : nat := 4096.
(** A frame of zeros. *)
Definition zero_frame : list Z := replicate PAGE_BYTES 0.
#[global] Arguments zero_frame : simpl never.
#[global] Arguments PAGE_BYTES : simpl never.
Definition FRAME_SIZE : Z := 4096.
Definition MAX_PAGE_CPUS : nat := 256.
Definition PAGE_CACHE_CAPACITY : nat := 16.
Definition PAGE_CACHE_REFILL : nat := 8.

(** [PageAllocFlags]. *)
Definition ZERO : Z := 1.
Definition USERESERVE : Z := 2.

(** [PageFlags]. *)
Definition DIRTY : Z := 1.
Definition REFERENCED : Z := 2.
Definition BUSY : Z := 4.
Definition WANTED : Z := 8.
Definition RELEASED : Z := 16.
Definition TABLED : Z := 32.
Definition ANON : Z := 64.
Definition FILE : Z := 128.
Definition MARKER : Z := 256.
Definition EXECUTABLE : Z := 512.
Definition DIRTY_UNKNOWN : Z := 1024.

Definition u32_not (x : Z) : Z := 4294967295 - x.
(** [contains] of a flag of one bit. *)
Definition has_flag (flags f : Z) : bool := negb (Z.land flags f =? 0).

Inductive PageState : Type := StReserved | StFree | StZero | StAllocated.
Inductive PageUse : Type := UseNone | UseManaged | UseKernelHeap | UsePageTable | UsePfnDatabase | UseReserved.
Inductive PageOwnerKind : Type := OwnNone | OwnAnonymous | OwnFile | OwnKernel.
Inductive PageQueue : Type := QueueNone | QueueActive | QueueInactive.
#[export] Instance PageState_eq_dec : EqDecision PageState.
Proof. solve_decision. Defined.
#[export] Instance PageUse_eq_dec : EqDecision PageUse.
Proof. solve_decision. Defined.
#[export] Instance PageOwnerKind_eq_dec : EqDecision PageOwnerKind.
Proof. solve_decision. Defined.
#[export] Instance PageQueue_eq_dec : EqDecision PageQueue.
Proof. solve_decision. Defined.

(** The [repr(u8)] values. *)
Definition state_code (s : PageState) : Z := match s with StReserved => 0 | StFree => 1 | StZero => 2 | StAllocated => 3 end.
Definition use_code (u : PageUse) : Z :=
  match u with UseNone => 0 | UseManaged => 1 | UseKernelHeap => 2 | UsePageTable => 3 | UsePfnDatabase => 4 | UseReserved => 5 end.
Definition owner_code (o : PageOwnerKind) : Z := match o with OwnNone => 0 | OwnAnonymous => 1 | OwnFile => 2 | OwnKernel => 3 end.
Definition queue_code (q : PageQueue) : Z := match q with QueueNone => 0 | QueueActive => 1 | QueueInactive => 2 end.

(** A value outside the range panics. *)
Definition decode_page_state (value : Z) : option PageState :=
  if value =? 0 then Some StReserved else if value =? 1 then Some StFree
  else if value =? 2 then Some StZero else if value =? 3 then Some StAllocated else None.
Definition decode_page_use (value : Z) : option PageUse :=
  if value =? 0 then Some UseNone else if value =? 1 then Some UseManaged
  else if value =? 2 then Some UseKernelHeap else if value =? 3 then Some UsePageTable
  else if value =? 4 then Some UsePfnDatabase else if value =? 5 then Some UseReserved else None.
Definition decode_owner_kind (value : Z) : option PageOwnerKind :=
  if value =? 0 then Some OwnNone else if value =? 1 then Some OwnAnonymous
  else if value =? 2 then Some OwnFile else if value =? 3 then Some OwnKernel else None.

Definition STATE_SHIFT : Z := 0.
Definition USAGE_SHIFT : Z := 8.
Definition QUEUE_SHIFT : Z := 16.
Definition OWNER_KIND_SHIFT : Z := 24.
Definition FIELD_MASK : Z := 255.

Definition pack_status (st : PageState) (usage : PageUse) (queue : PageQueue) (owner : PageOwnerKind) : Z :=
  Z.lor (Z.lor (Z.lor (Z.shiftl (state_code st) STATE_SHIFT) (Z.shiftl (use_code usage) USAGE_SHIFT))
    (Z.shiftl (queue_code queue) QUEUE_SHIFT)) (Z.shiftl (owner_code owner) OWNER_KIND_SHIFT).

(** One entry of the database; the weak reference to the logical page is its
    identity. *)
Record Page : Type := mkPage {
  frame_number : Z;
  policy_flags : Z;
  flags : Z;
  status : Z;
  wire_count : Z;
  loan_count : Z;
  map_count : Z;
  owner : option nat;
}.
#[export] Instance Page_eq_dec : EqDecision Page.
Proof. solve_decision. Defined.

Definition with_policy (f : Z) (p : Page) : Page :=
  mkPage (frame_number p) f (flags p) (status p) (wire_count p) (loan_count p) (map_count p) (owner p).
Definition with_flags (f : Z) (p : Page) : Page :=
  mkPage (frame_number p) (policy_flags p) f (status p) (wire_count p) (loan_count p) (map_count p) (owner p).
Definition with_status (s : Z) (p : Page) : Page :=
  mkPage (frame_number p) (policy_flags p) (flags p) s (wire_count p) (loan_count p) (map_count p) (owner p).
Definition with_counts (w l m : Z) (p : Page) : Page :=
  mkPage (frame_number p) (policy_flags p) (flags p) (status p) w l m (owner p).
Definition with_owner (o : option nat) (p : Page) : Page :=
  mkPage (frame_number p) (policy_flags p) (flags p) (status p) (wire_count p) (loan_count p) (map_count p) o.

Definition page_new : Page := mkPage 0 0 0 (pack_status StReserved UseReserved QueueNone OwnNone) 0 0 0 None.

Definition status_field (p : Page) (shift : Z) : Z := Z.land (Z.shiftr (status p) shift) FIELD_MASK.
Definition page_state (p : Page) : option PageState := decode_page_state (status_field p STATE_SHIFT).
Definition page_usage (p : Page) : option PageUse := decode_page_use (status_field p USAGE_SHIFT).
Definition page_owner_kind (p : Page) : option PageOwnerKind := decode_owner_kind (status_field p OWNER_KIND_SHIFT).
Definition set_status_field (shift value : Z) (p : Page) : Page :=
  with_status (Z.lor (Z.land (status p) (u32_not (Z.shiftl FIELD_MASK shift))) (Z.shiftl value shift)) p.

(** ** Segments *)

Record Segment : Type := mkSegment { seg_start : Z; seg_end : Z; seg_first : Z }.
#[export] Instance Segment_eq_dec : EqDecision Segment.
Proof. solve_decision. Defined.

(** [sort_unstable_by_key] on the first frame; accepted segments have distinct
    ones, so that the order is determined. *)
Fixpoint insert_segment (g : Segment) (l : list Segment) : list Segment :=
  match l with
  | [] => [g]
  | h :: l' => if seg_start g <=? seg_start h then g :: l else h :: insert_segment g l'
  end.
Definition sort_segments (l : list Segment) : list Segment := foldr insert_segment [] l.

(** The loop of [initialize]: [None] when the assertion fails. *)
Fixpoint assign_slices (l : list Segment) (count previous_end : Z) : option (list Segment * Z) :=
  match l with
  | [] => Some ([], count)
  | g :: l =>
      if (previous_end <=? seg_start g) && (seg_start g <? seg_end g) then
        match checked_add count (seg_end g - seg_start g) with
        | Some count' =>
            match assign_slices l count' (seg_end g) with
            | Some (l', total) => Some (mkSegment (seg_start g) (seg_end g) count :: l', total)
            | None => None
            end
        | None => None
        end
      else None
  end.
Definition initialize (l : list Segment) : option (list Segment * Z) := assign_slices (sort_segments l) 0 0.

(** [partition_point]: the length of the prefix that satisfies the predicate
    (the binary search assumes that the slice is partitioned by it). *)
Fixpoint partition_point (P : Segment → bool) (l : list Segment) : nat :=
  match l with [] => O | g :: l => if P g then S (partition_point P l) else O end.

Definition seg_lookup (l : list Segment) (pfn : Z) : option Z :=
  match partition_point (λ g, seg_start g <=? pfn) l with
  | O => None
  | S i =>
      match l !! i with
      | Some g => if pfn <? seg_end g then Some (seg_first g + pfn - seg_start g) else None
      | None => None
      end
  end.
Definition seg_next (l : list Segment) (pfn : Z) : option Z :=
  match l !! partition_point (λ g, seg_end g <=? pfn) l with
  | Some g => Some (Z.max pfn (seg_start g))
  | None => None
  end.

(** ** Reserves *)

Definition KERNEL_PAGES_PER_CPU : Z := 5.
Definition DAEMON_PAGES : Z := 1.
Inductive Access : Type := Denied | Single | Fill.
#[export] Instance Access_eq_dec : EqDecision Access.
Proof. solve_decision. Defined.
Definition access (free cpus : Z) (use_reserve daemon : bool) : Access :=
  if free =? 0 then Denied
  else if free <=? KERNEL_PAGES_PER_CPU * Z.max cpus 1 then
    if negb use_reserve || ((free <=? DAEMON_PAGES) && negb daemon) then Denied else Single
  else Fill.
Definition clamp (x lo hi : Z) : Z := if x <? lo then lo else if hi <? x then hi else x.
Definition watermarks (pages cpus : Z) : Z * Z :=
  let cpus := Z.max cpus 1 in
  let minimum := Z.max (clamp (pages / 200) (128 * 1024 / FRAME_SIZE) (1024 * 1024 / FRAME_SIZE) * cpus)
                   (KERNEL_PAGES_PER_CPU * cpus + 1) in
  (minimum, Z.max (minimum * 4 / 3) (minimum + 1)).

(** ** The caches of the processors *)

Record PageCache : Type := mkCache { c_dirty : list Z; c_dirty_len : nat; c_zero : list Z; c_zero_len : nat }.
Definition cache_new : PageCache :=
  mkCache (replicate PAGE_CACHE_CAPACITY 0) 0 (replicate PAGE_CACHE_CAPACITY 0) 0.
Definition cache_slots (zero : bool) (c : PageCache) : list Z * nat :=
  if zero then (c_zero c, c_zero_len c) else (c_dirty c, c_dirty_len c).
Definition cache_put (zero : bool) (slots : list Z) (len : nat) (c : PageCache) : PageCache :=
  if zero then mkCache (c_dirty c) (c_dirty_len c) slots len else mkCache slots len (c_zero c) (c_zero_len c).
Definition cache_pop (zero : bool) (c : PageCache) : option Z * PageCache :=
  let '(slots, len) := cache_slots zero c in
  match len with
  | O => (None, c)
  | S len' => (slots !! len', cache_put zero slots len' c)
  end.
Definition cache_push (pfn : Z) (zero : bool) (c : PageCache) : bool * PageCache :=
  let '(slots, len) := cache_slots zero c in
  if (len =? PAGE_CACHE_CAPACITY)%nat then (false, c) else (true, cache_put zero (<[len := pfn]> slots) (S len) c).

(** ** The allocator *)

Record Phys : Type := mkPhys {
  ready : bool;
  segments : list Segment;
  pagedb : list Page;
  max_pfn : Z;
  free_list : list Z;
  zero_list : list Z;
  nfree : Z;
  caches : list PageCache;
  total_pages : Z;
  used_pages : Z;
  free_pages : Z;
  zero_pages : Z;
  managed_pages : Z;
  anon_pages : Z;
  file_pages : Z;
  exec_pages : Z;
  bootstrap_next : Z;
  bootstrap_end : Z;
  memory : Z → list Z;
}.

(** The thread that runs an operation, as the source asks for it. *)
Record Caller : Type := mkCaller { cpu : nat; cpus : Z; is_page_daemon : bool; is_kernel : bool }.

Definition with_pagedb (db : list Page) (s : Phys) : Phys :=
  mkPhys (ready s) (segments s) db (max_pfn s) (free_list s) (zero_list s) (nfree s) (caches s) (total_pages s)
    (used_pages s) (free_pages s) (zero_pages s) (managed_pages s) (anon_pages s) (file_pages s) (exec_pages s)
    (bootstrap_next s) (bootstrap_end s) (memory s).
Definition with_lists (free zero : list Z) (n : Z) (s : Phys) : Phys :=
  mkPhys (ready s) (segments s) (pagedb s) (max_pfn s) free zero n (caches s) (total_pages s)
    (used_pages s) (free_pages s) (zero_pages s) (managed_pages s) (anon_pages s) (file_pages s) (exec_pages s)
    (bootstrap_next s) (bootstrap_end s) (memory s).
Definition with_caches (cs : list PageCache) (s : Phys) : Phys :=
  mkPhys (ready s) (segments s) (pagedb s) (max_pfn s) (free_list s) (zero_list s) (nfree s) cs (total_pages s)
    (used_pages s) (free_pages s) (zero_pages s) (managed_pages s) (anon_pages s) (file_pages s) (exec_pages s)
    (bootstrap_next s) (bootstrap_end s) (memory s).
Definition with_usage (used free zero : Z) (s : Phys) : Phys :=
  mkPhys (ready s) (segments s) (pagedb s) (max_pfn s) (free_list s) (zero_list s) (nfree s) (caches s) (total_pages s)
    used free zero (managed_pages s) (anon_pages s) (file_pages s) (exec_pages s)
    (bootstrap_next s) (bootstrap_end s) (memory s).
Definition with_owned (managed anon file exec : Z) (s : Phys) : Phys :=
  mkPhys (ready s) (segments s) (pagedb s) (max_pfn s) (free_list s) (zero_list s) (nfree s) (caches s) (total_pages s)
    (used_pages s) (free_pages s) (zero_pages s) managed anon file exec
    (bootstrap_next s) (bootstrap_end s) (memory s).
Definition with_bootstrap (next : Z) (s : Phys) : Phys :=
  mkPhys (ready s) (segments s) (pagedb s) (max_pfn s) (free_list s) (zero_list s) (nfree s) (caches s) (total_pages s)
    (used_pages s) (free_pages s) (zero_pages s) (managed_pages s) (anon_pages s) (file_pages s) (exec_pages s)
    next (bootstrap_end s) (memory s).
Definition with_memory (m : Z → list Z) (s : Phys) : Phys :=
  mkPhys (ready s) (segments s) (pagedb s) (max_pfn s) (free_list s) (zero_list s) (nfree s) (caches s) (total_pages s)
    (used_pages s) (free_pages s) (zero_pages s) (managed_pages s) (anon_pages s) (file_pages s) (exec_pages s)
    (bootstrap_next s) (bootstrap_end s) m.

(** [page_by_index], and access to the entry behind a reference. *)
Definition page_by_index (s : Phys) (pfn : Z) : option Z :=
  match seg_lookup (segments s) pfn with Some _ => Some pfn | None => None end.
Definition entry (s : Phys) (pfn : Z) : option Page :=
  match seg_lookup (segments s) pfn with Some i => pagedb s !! Z.to_nat i | None => None end.
Definition set_entry (pfn : Z) (p : Page) (s : Phys) : Phys :=
  match seg_lookup (segments s) pfn with
  | Some i => with_pagedb (<[Z.to_nat i := p]> (pagedb s)) s
  | None => s
  end.
Definition get_page (pfn : Z) : M Phys Page := let* s := get in expect (entry s pfn).
Definition update_page (pfn : Z) (f : Page → Page) : M Phys () :=
  let* p := get_page pfn in modify (set_entry pfn (f p)).
Definition state_of (pfn : Z) : M Phys PageState := let* p := get_page pfn in expect (page_state p).
Definition owner_kind_of (pfn : Z) : M Phys PageOwnerKind := let* p := get_page pfn in expect (page_owner_kind p).

(** [link.is_linked()]. *)
Definition is_linked (s : Phys) (pfn : Z) : bool := bool_decide (pfn ∈ free_list s ++ zero_list s).

Definition write_frame (pfn : Z) (bytes : list Z) (s : Phys) : Phys :=
  with_memory (λ n, if n =? pfn then bytes else memory s n) s.
Definition zero_page (pfn : Z) : M Phys () := modify (write_frame pfn (zero_frame)).

Definition prepare_allocation (pfn : Z) (usage : PageUse) : M Phys () :=
  let* st := state_of pfn in
  do massert (bool_decide (st = StFree ∨ st = StZero)) then
  let* s := get in
  do massert (negb (is_linked s pfn)) then
  update_page pfn (λ p,
    mkPage (frame_number p) (policy_flags p) 0 (pack_status StAllocated usage QueueNone OwnNone) 0 0 0 None).

Definition prepare_free (pfn : Z) (zeroed : bool) : M Phys () :=
  let* st := state_of pfn in
  do massert (bool_decide (st = StAllocated)) then
  let* k := owner_kind_of pfn in
  do massert (bool_decide (k = OwnNone)) then
  let* p := get_page pfn in
  do massert (wire_count p =? 0) then
  do massert (loan_count p =? 0) then
  do massert (map_count p =? 0) then
  let* s := get in
  do massert (negb (is_linked s pfn)) then
  update_page pfn (λ p, with_status (pack_status (if zeroed then StZero else StFree) UseNone QueueNone OwnNone) (with_flags 0 p)).

Definition cache_id (c : Caller) : M Phys nat := do massert (cpu c <? MAX_PAGE_CPUS)%nat then ret (cpu c).
Definition get_cache (id : nat) : M Phys PageCache := let* s := get in expect (caches s !! id).
Definition set_cache (id : nat) (c : PageCache) : M Phys () := modify (λ s, with_caches (<[id := c]> (caches s)) s).
Definition pop_from (id : nat) (zero : bool) : M Phys (option Z) :=
  let* c := get_cache id in
  let '(r, c') := cache_pop zero c in
  do set_cache id c' then ret r.

Definition push_to (id : nat) (pfn : Z) (zeroed : bool) : M Phys bool :=
  let* c := get_cache id in
  let '(pushed, c') := cache_push pfn zeroed c in
  do set_cache id c' then ret pushed.

(** The preferred kind first, then the other one; a cached number with no
    entry is dropped. *)
Definition found (pfn : Z) (zero : bool) : M Phys (option (Z * bool)) :=
  let* s := get in
  ret (match page_by_index s pfn with Some page => Some (page, zero) | None => None end).
Definition pop_cache (id : nat) (want_zero : bool) : M Phys (option (Z * bool)) :=
  let* r := pop_from id want_zero in
  match r with
  | Some pfn => found pfn want_zero
  | None =>
      let* r := pop_from id (negb want_zero) in
      match r with
      | Some pfn => found pfn (negb want_zero)
      | None => ret None
      end
  end.

Definition pop_list (zero : bool) (s : Phys) : option (Z * Phys) :=
  if zero then
    match zero_list s with [] => None | x :: l => Some (x, with_lists (free_list s) l (nfree s) s) end
  else
    match free_list s with [] => None | x :: l => Some (x, with_lists l (zero_list s) (nfree s) s) end.
Definition push_list (front zero : bool) (x : Z) (s : Phys) : Phys :=
  let add := λ l, if front then x :: l else l ++ [x] in
  if zero then with_lists (free_list s) (add (zero_list s)) (nfree s) s
  else with_lists (add (free_list s)) (zero_list s) (nfree s) s.
Definition add_nfree (d : Z) (s : Phys) : Phys := with_lists (free_list s) (zero_list s) (wrap64 (nfree s + d)) s.

Definition pop_preferred (want_zero : bool) : M Phys (option (Z * bool)) :=
  let* s := get in
  match pop_list want_zero s with
  | Some (x, s') => do modify (λ _, s') then ret (Some (x, want_zero))
  | None =>
      match pop_list (negb want_zero) s with
      | Some (x, s') => do modify (λ _, s') then ret (Some (x, negb want_zero))
      | None => ret None
      end
  end.

Fixpoint refill_loop (n : nat) (id : nat) (want_zero use_reserve : bool) (c : Caller) : M Phys () :=
  match n with
  | O => ret ()
  | S n =>
      let* s := get in
      let a := access (nfree s) (cpus c) use_reserve (is_page_daemon c) in
      if bool_decide (a = Denied) then ret ()
      else
        let* r := pop_preferred want_zero in
        match r with
        | None => ret ()
        | Some (page, zero) =>
            do modify (add_nfree (-1)) then
            let* p := get_page page in
            let* pushed := push_to id (frame_number p) zero in
            if (pushed : bool) then
              if bool_decide (a = Single) then ret () else refill_loop n id want_zero use_reserve c
            else
              do modify (add_nfree 1) then
              modify (push_list true zero page)
        end
  end.
Definition refill_cache (id : nat) (want_zero : bool) (fl : Z) (c : Caller) : M Phys () :=
  refill_loop PAGE_CACHE_REFILL id want_zero (has_flag fl USERESERVE) c.

(** [steal_cached_page]: the other caches in order. *)
Fixpoint steal_loop (ids : list nat) (local_id : nat) (want_zero : bool) : M Phys (option (Z * bool)) :=
  match ids with
  | [] => ret None
  | id :: ids =>
      if (id =? local_id)%nat then steal_loop ids local_id want_zero
      else
        let* r := pop_from id want_zero in
        match r with
        | Some pfn => found pfn want_zero
        | None =>
            let* r := pop_from id (negb want_zero) in
            match r with
            | Some pfn => found pfn (negb want_zero)
            | None => steal_loop ids local_id want_zero
            end
        end
  end.
Definition steal_cached_page (local_id : nat) (want_zero : bool) : M Phys (option (Z * bool)) :=
  steal_loop (seq 0 MAX_PAGE_CPUS) local_id want_zero.

Definition take_page (want_zero : bool) (fl : Z) (c : Caller) : M Phys (option (Z * bool)) :=
  let* id := cache_id c in
  let* r := pop_cache id want_zero in
  match r with
  | Some x => ret (Some x)
  | None =>
      do refill_cache id want_zero fl c then
      let* r := pop_cache id want_zero in
      match r with
      | Some x => ret (Some x)
      | None => steal_cached_page id want_zero
      end
  end.

Definition dynamic_use (usage : PageUse) : bool :=
  match usage with UseNone | UseReserved | UsePfnDatabase => false | _ => true end.

Definition alloc_page (usage : PageUse) (fl : Z) (c : Caller) : M Phys (option Z) :=
  let* s := get in
  if negb (ready s) then ret None
  else
    do massert (dynamic_use usage) then
    let fl := if is_kernel c then Z.lor fl USERESERVE else fl in
    let want_zero := has_flag fl ZERO in
    let* r := take_page want_zero fl c in
    match r with
    | None => ret None
    | Some (page, was_zero) =>
        do modify (λ s, with_usage (wrap64 (used_pages s + 1)) (wrap64 (free_pages s - 1))
                          (if (was_zero : bool) then wrap64 (zero_pages s - 1) else zero_pages s) s) then
        do prepare_allocation page usage then
        do (if want_zero && negb was_zero then zero_page page else ret ()) then
        ret (Some page)
    end.
Definition alloc_zeroed_page (usage : PageUse) (c : Caller) : M Phys (option Z) :=
  let reserve := if bool_decide (usage = UseManaged) then 0 else USERESERVE in
  alloc_page usage (Z.lor ZERO reserve) c.

(** The physical address; before the database is published, from the
    bootstrap range. *)
Definition alloc_zeroed_phys (usage : PageUse) (c : Caller) : M Phys (option Z) :=
  let* r := alloc_zeroed_page usage c in
  match r with
  | Some page => let* p := get_page page in ret (Some (frame_number p * FRAME_SIZE))
  | None =>
      let* s := get in
      if ready s then ret None
      else if bootstrap_end s <=? bootstrap_next s then ret None
      else
        let pa := bootstrap_next s in
        do modify (with_bootstrap (u64_add pa FRAME_SIZE)) then
        do zero_page (pa / FRAME_SIZE) then
        ret (Some pa)
  end.

(** ** Freeing *)

Fixpoint spill_cache (n : nat) (id : nat) (zeroed : bool) : M Phys (list Z) :=
  match n with
  | O => ret []
  | S n =>
      let* r := pop_from id zeroed in
      match r with
      | None => ret []
      | Some pfn => let* l := spill_cache n id zeroed in ret (pfn :: l)
      end
  end.
Fixpoint return_spill (l : list Z) (zeroed : bool) : M Phys () :=
  match l with
  | [] => ret ()
  | pfn :: l =>
      do modify (add_nfree 1) then
      let* s := get in
      let* page := expect (page_by_index s pfn) in
      do modify (push_list false zeroed page) then
      return_spill l zeroed
  end.
Definition free_page_inner (page : Z) (zeroed : bool) (c : Caller) : M Phys () :=
  do prepare_free page zeroed then
  do modify (λ s, with_usage (wrap64 (used_pages s - 1)) (wrap64 (free_pages s + 1))
                    (if zeroed then wrap64 (zero_pages s + 1) else zero_pages s) s) then
  let* id := cache_id c in
  let* p := get_page page in
  let* pushed := push_to id (frame_number p) zeroed in
  if (pushed : bool) then ret ()
  else
    let* spill := spill_cache PAGE_CACHE_REFILL id zeroed in
    let* again := push_to id (frame_number p) zeroed in
    do massert again then
    return_spill spill zeroed.
Definition free_page (page : Z) (c : Caller) : M Phys () := free_page_inner page false c.
Definition free_zeroed_page (page : Z) (c : Caller) : M Phys () := free_page_inner page true c.
Fixpoint free_run (count : nat) (base : Z) (c : Caller) : M Phys () :=
  match count with
  | O => ret ()
  | S count =>
      let* s := get in
      match page_by_index s base with
      | None => ret ()
      | Some page => do free_page page c then free_run count (base + 1) c
      end
  end.
Definition free_contiguous (first : Z) (count : nat) (c : Caller) : M Phys () :=
  let* p := get_page first in free_run count (frame_number p) c.

(** [zero_free_pages]: pages leave the dirty list, are cleared, and come back
    on the zero list. *)
Fixpoint take_dirty (n : nat) : M Phys (list Z) :=
  match n with
  | O => ret []
  | S n =>
      let* s := get in
      match pop_list false s with
      | None => ret []
      | Some (x, s') =>
          do modify (λ _, s') then
          do modify (add_nfree (-1)) then
          let* l := take_dirty n in
          ret (x :: l)
      end
  end.
Fixpoint clear_pages (l : list Z) : M Phys () :=
  match l with
  | [] => ret ()
  | page :: l =>
      do zero_page page then
      do update_page page (set_status_field STATE_SHIFT (state_code StZero)) then
      clear_pages l
  end.
Fixpoint queue_zero (l : list Z) : M Phys () :=
  match l with
  | [] => ret ()
  | page :: l =>
      do modify (add_nfree 1) then
      do modify (push_list false true page) then
      queue_zero l
  end.
Definition zero_free_pages (maximum : nat) : M Phys nat :=
  let* s := get in
  if (maximum =? 0)%nat || negb (ready s) then ret 0%nat
  else
    let* pages := take_dirty (Nat.min maximum PAGE_CACHE_REFILL) in
    do clear_pages pages then
    do (match pages with
        | [] => ret ()
        | _ =>
            do queue_zero pages then
            modify (λ s, with_usage (used_pages s) (free_pages s) (wrap64 (zero_pages s + Z.of_nat (length pages))) s)
        end) then
    ret (length pages).

(** ** Contiguous runs *)

(** One cache emptied into the lists; the fuel is what it can hold. *)
Fixpoint drain_cache (fuel : nat) (id : nat) : M Phys () :=
  match fuel with
  | O => ret ()
  | S fuel =>
      let* r := pop_from id false in
      let* e := match r with
                | Some pfn => ret (Some (pfn, false))
                | None => let* r := pop_from id true in
                          ret (match r with Some pfn => Some (pfn, true) | None => None end)
                end in
      match e with
      | None => ret ()
      | Some (pfn, zeroed) =>
          let* s := get in
          match page_by_index s pfn with
          | None => drain_cache fuel id
          | Some page =>
              do modify (add_nfree 1) then
              do modify (push_list false zeroed page) then
              drain_cache fuel id
          end
      end
  end.
Fixpoint drain_caches (ids : list nat) : M Phys () :=
  match ids with
  | [] => ret ()
  | id :: ids => do drain_cache (S (2 * PAGE_CACHE_CAPACITY)) id then drain_caches ids
  end.
Definition drain_page_caches : M Phys () := drain_caches (seq 0 MAX_PAGE_CPUS).

(** [usize::next_multiple_of]. *)
Definition align_index (index align : Z) : Z :=
  if index mod align =? 0 then index else index + (align - index mod align).
Definition is_linked_free (page : Z) : M Phys bool :=
  let* st := state_of page in
  let* s := get in
  ret (bool_decide (st = StFree ∨ st = StZero) && is_linked s page).

(** The inner loop: how many of the next [count] frames are linked free. *)
Fixpoint run_from (count : nat) (index : Z) : M Phys nat :=
  match count with
  | O => ret 0%nat
  | S count =>
      let* s := get in
      match page_by_index s index with
      | None => ret 0%nat
      | Some page =>
          let* b := is_linked_free page in
          if (b : bool) then let* n := run_from count (index + 1) in ret (S n) else ret 0%nat
      end
  end.
(** The outer loop; [start] grows with every turn. *)
Fixpoint find_run (fuel : nat) (start : Z) (count : nat) (align entries : Z) : M Phys (option Z) :=
  match fuel with
  | O => panic
  | S fuel =>
      if start + Z.of_nat count <=? entries then
        let* s := get in
        match seg_next (segments s) start with
        | None => ret None
        | Some next =>
            let start := align_index next align in
            if entries <? start + Z.of_nat count then ret None
            else
              let* run := run_from count start in
              if (run =? count)%nat then ret (Some start)
              else find_run fuel (align_index (start + Z.of_nat run + 1) align) count align entries
        end
      else ret None
  end.
Fixpoint unlink_run (count : nat) (start : Z) : M Phys nat :=
  match count with
  | O => ret 0%nat
  | S count =>
      let* st := state_of start in
      do (if bool_decide (st = StZero)
          then modify (λ s, with_lists (free_list s) (filter (λ x, x ≠ start) (zero_list s)) (nfree s) s)
          else modify (λ s, with_lists (filter (λ x, x ≠ start) (free_list s)) (zero_list s) (nfree s) s)) then
      let* n := unlink_run count (start + 1) in
      ret (if bool_decide (st = StZero) then S n else n)
  end.
Fixpoint claim_run (count : nat) (base : Z) (usage : PageUse) : M Phys () :=
  match count with
  | O => ret ()
  | S count => do prepare_allocation base usage then claim_run count (base + 1) usage
  end.
Definition alloc_contiguous (usage : PageUse) (count : nat) (align_pages max_address : Z) (c : Caller) : M Phys (option Z) :=
  let* s := get in
  if negb (ready s) || (count =? 0)%nat then ret None
  else
    do massert (dynamic_use usage) then
    let align := Z.max align_pages 1 in
    if negb (is_power_of_two align) then ret None
    else
      do drain_page_caches then
      let* s := get in
      let entries := Z.min (max_pfn s) (saturating_add max_address 1 / FRAME_SIZE) in
      if entries <? Z.of_nat count then ret None
      else
        let minimum := if is_page_daemon c then 0 else DAEMON_PAGES in
        if nfree s <? saturating_add (Z.of_nat count) minimum then ret None
        else
          let* claimed := find_run (S (Z.to_nat entries)) (align_index 0 align) count align entries in
          match claimed with
          | None => ret None
          | Some base =>
              let* zeroed := unlink_run count base in
              do modify (add_nfree (- Z.of_nat count)) then
              do claim_run count base usage then
              do modify (λ s, with_usage (wrap64 (used_pages s + Z.of_nat count)) (wrap64 (free_pages s - Z.of_nat count))
                                (if (zeroed =? 0)%nat then zero_pages s else wrap64 (zero_pages s - Z.of_nat zeroed)) s) then
              ret (Some base)
          end.

(** ** Owners, wires and flags *)

Definition account (kind : PageOwnerKind) (executable : bool) (delta : Z) (s : Phys) : Phys :=
  if bool_decide (kind = OwnFile) && executable then
    with_owned (managed_pages s) (anon_pages s) (file_pages s) (wrap64 (exec_pages s + delta)) s
  else if bool_decide (kind = OwnFile) then
    with_owned (managed_pages s) (anon_pages s) (wrap64 (file_pages s + delta)) (exec_pages s) s
  else with_owned (managed_pages s) (wrap64 (anon_pages s + delta)) (file_pages s) (exec_pages s) s.
Definition add_managed (delta : Z) (s : Phys) : Phys :=
  with_owned (wrap64 (managed_pages s + delta)) (anon_pages s) (file_pages s) (exec_pages s) s.

(** [id] identifies the logical page, [is_executable] is its flag. *)
Definition bind_owner (page : Z) (id : nat) (is_executable : bool) (kind : PageOwnerKind) : M Phys () :=
  let* p := get_page page in
  let* u := expect (page_usage p) in
  do massert (bool_decide (u = UseManaged)) then
  let* k := expect (page_owner_kind p) in
  do massert (bool_decide (k = OwnNone)) then
  do update_page page (λ p, set_status_field OWNER_KIND_SHIFT (owner_code kind) (with_owner (Some id) p)) then
  let executable := bool_decide (kind = OwnFile) && is_executable in
  let owner_flag := match kind with OwnAnonymous => ANON | OwnFile => FILE | OwnKernel | OwnNone => 0 end in
  let owner_flag := if executable then Z.lor owner_flag EXECUTABLE else owner_flag in
  do update_page page (λ p, with_flags (Z.lor (flags p) (Z.lor TABLED owner_flag)) p) then
  do modify (add_managed 1) then
  modify (account kind executable 1).
Definition owner_mask : Z := Z.lor (Z.lor TABLED ANON) (Z.lor FILE EXECUTABLE).
Definition clear_owner (page : Z) : M Phys () :=
  let* p := get_page page in
  let* k := expect (page_owner_kind p) in
  do (if bool_decide (k ≠ OwnNone) then
        do modify (account k (has_flag (flags p) EXECUTABLE) (-1)) then modify (add_managed (-1))
      else ret ()) then
  update_page page (λ p, with_flags (Z.land (flags p) (u32_not owner_mask))
                           (set_status_field OWNER_KIND_SHIFT (owner_code OwnNone) (with_owner None p))).
Definition note_executable (page : Z) : M Phys () :=
  let* p := get_page page in
  let* k := expect (page_owner_kind p) in
  if bool_decide (k = OwnFile) then
    do update_page page (λ p, with_flags (Z.lor (flags p) EXECUTABLE) p) then
    if Z.land (flags p) EXECUTABLE =? 0 then
      do modify (account OwnFile false (-1)) then modify (account OwnFile true 1)
    else ret ()
  else ret ().
Definition loan (page : Z) : M Phys () :=
  update_page page (λ p, with_counts (wire_count p) (loan_count p + 1) (map_count p) p).
Definition unloan (page : Z) : M Phys () :=
  let* p := get_page page in
  do update_page page (λ p, with_counts (wire_count p) (loan_count p - 1) (map_count p) p) then
  massert (negb (loan_count p =? 0)).
Definition add_mapping (page : Z) : M Phys () :=
  update_page page (λ p, with_counts (wire_count p) (loan_count p) (map_count p + 1) p).
Definition remove_mapping (page : Z) : M Phys () :=
  let* p := get_page page in
  do update_page page (λ p, with_counts (wire_count p) (loan_count p) (map_count p - 1) p) then
  massert (negb (map_count p =? 0)).
Definition mark_dirty (p : Page) : Page := with_flags (Z.land (Z.lor (flags p) DIRTY) (u32_not DIRTY_UNKNOWN)) p.
Definition mark_clean (p : Page) : Page := with_flags (Z.land (flags p) (u32_not (Z.lor DIRTY DIRTY_UNKNOWN))) p.
Definition mark_unknown (p : Page) : Page :=
  with_flags (if Z.land (flags p) DIRTY =? 0 then Z.lor (flags p) DIRTY_UNKNOWN else flags p) p.
Definition resolve_unknown (p : Page) : Page := with_flags (Z.land (flags p) (u32_not DIRTY_UNKNOWN)) p.
Definition mark_referenced (p : Page) : Page := with_flags (Z.lor (flags p) REFERENCED) p.
Definition take_referenced (p : Page) : bool * Page :=
  (has_flag (flags p) REFERENCED, with_flags (Z.land (flags p) (u32_not REFERENCED)) p).
Definition try_busy (p : Page) : bool * Page :=
  if has_flag (flags p) BUSY then (false, with_flags (Z.lor (flags p) WANTED) p)
  else (true, with_flags (Z.lor (flags p) BUSY) p).
Definition unbusy (p : Page) : Z * Page := (flags p, with_flags (Z.land (flags p) (u32_not (Z.lor BUSY WANTED))) p).
Definition reclaimable (p : Page) : bool :=
  (wire_count p =? 0) && (loan_count p =? 0) && (map_count p =? 0) && negb (has_flag (flags p) BUSY).

(** ** Queries *)

Definition phys_to_page (s : Phys) (pa : Z) : option Z :=
  if negb (ready s) || negb (Z.land pa (FRAME_SIZE - 1) =? 0) then None else page_by_index s (pa / FRAME_SIZE).
Record PhysStats : Type := mkStats { st_total : Z; st_used : Z; st_free : Z; st_zero : Z; st_managed : Z }.
Definition stats (s : Phys) : option PhysStats :=
  if ready s then Some (mkStats (total_pages s) (used_pages s) (free_pages s) (zero_pages s) (managed_pages s)) else None.
(** [None] where a status field does not decode. *)
Fixpoint any_file_page (l : list Page) : option bool :=
  match l with
  | [] => Some false
  | p :: l =>
      match page_owner_kind p with
      | None => None
      | Some k =>
          if bool_decide (k = OwnFile) && (wire_count p =? 0) && (loan_count p =? 0) then Some true else any_file_page l
      end
  end.
Definition file_reclaim_possible (s : Phys) : option bool :=
  if negb (free_pages s =? 0) then Some true else any_file_page (take (Z.to_nat (total_pages s)) (pagedb s)).

(** ** Initialization *)

(** An entry of the boot memory map. *)
Record MemEntry : Type := mkMem { mem_base : Z; mem_length : Z; mem_usable : bool }.

(** Both panic on an alignment that is not a power of two, and [align_up] when
    the sum overflows. *)
Definition align_up (value align : Z) : option Z :=
  if negb (is_power_of_two align) then None
  else match checked_add value (align - 1) with Some v => Some (Z.land v (u64_not (align - 1))) | None => None end.
Definition align_down (value align : Z) : option Z :=
  if negb (is_power_of_two align) then None else Some (Z.land value (u64_not (align - 1))).
Definition pages_for_len (len : Z) : option Z :=
  if len =? 0 then Some 0 else match align_up len FRAME_SIZE with Some v => Some (v / FRAME_SIZE) | None => None end.
Definition usable_page_range (e : MemEntry) : option (option (Z * Z)) :=
  if negb (mem_usable e) then Some None
  else
    match align_up (mem_base e) FRAME_SIZE, align_down (saturating_add (mem_base e) (mem_length e)) FRAME_SIZE with
    | Some start, Some end_ => Some (if start <? end_ then Some (start, end_) else None)
    | _, _ => None
    end.
Fixpoint usable_ranges (l : list MemEntry) : option (list (Z * Z)) :=
  match l with
  | [] => Some []
  | e :: l =>
      match usable_page_range e, usable_ranges l with
      | Some (Some r), Some rs => Some (r :: rs)
      | Some None, Some rs => Some rs
      | _, _ => None
      end
  end.
(** The frame numbers from [a] on. *)
Definition frames_from (a : Z) (n : nat) : list Z := map (λ i, a + Z.of_nat i) (seq 0 n).
Definition range_frames (r : Z * Z) : list Z := frames_from (r.1 / FRAME_SIZE) (Z.to_nat ((r.2 - r.1) / FRAME_SIZE)).
Definition div_ceil (a b : Z) : Z := (a + b - 1) / b.
Definition fresh_page (pfn : Z) : Page :=
  mkPage pfn 0 0 (pack_status StReserved UseReserved QueueNone OwnNone) 0 0 0 None.

(** The loop over the usable frames. *)
Definition publish (base end_ : Z) (x : option (Phys * Z * Z)) (pfn : Z) : option (Phys * Z * Z) :=
  match x with
  | None => None
  | Some (s, used, free) =>
      match entry s pfn with
      | None => None
      | Some p =>
          if (base <=? pfn * FRAME_SIZE) && (pfn * FRAME_SIZE <? end_) then
            Some (set_entry pfn (with_status (pack_status StAllocated UsePfnDatabase QueueNone OwnNone) p) s, used + 1, free)
          else
            Some (push_list false false pfn
                    (set_entry pfn (with_status (pack_status StFree UseNone QueueNone OwnNone) p) s), used, free + 1)
      end
  end.

(** [page_size_of] is [size_of::<Page>()]; the mapping of the database into
    the kernel's page tables is left out. *)
Definition phys_init (page_size_of : Z) (mmap : list MemEntry) (content : Z → list Z) : option Phys :=
  match usable_ranges mmap with
  | None => None
  | Some ranges =>
      let max_usable_end := foldr (λ r m, Z.max r.2 m) 0 ranges in
      let usable_pages := foldr (λ r n, (r.2 - r.1) / FRAME_SIZE + n) 0 ranges in
      if max_usable_end =? 0 then None
      else
        match pages_for_len max_usable_end, pages_for_len (page_size_of * usable_pages),
              pages_for_len (Z.of_nat (length ranges) * 24) with
        | Some maximum_pfn, Some pagedb_pages, Some segment_pages =>
            if negb (maximum_pfn <=? 4294967295) then None
            else
              let l1 := div_ceil pagedb_pages 512 in
              let l2 := div_ceil l1 512 in
              let l3 := div_ceil l2 512 in
              let l4 := div_ceil l3 512 in
              let chunk_size := (pagedb_pages + segment_pages + (l1 + l2 + l3 + l4 + 8)) * FRAME_SIZE in
              match List.find (λ r, chunk_size <=? r.2 - r.1) ranges with
              | None => None
              | Some (pagedb_phys_base, _) =>
                  match initialize (map (λ r, mkSegment (r.1 / FRAME_SIZE) (r.2 / FRAME_SIZE) 0) ranges) with
                  | None => None
                  | Some (segs, count) =>
                      if negb (count =? usable_pages) then None
                      else
                        let db := flat_map (λ g, map fresh_page (frames_from (seg_start g) (Z.to_nat (seg_end g - seg_start g)))) segs in
                        let s0 := mkPhys false segs db 0 [] [] 0 (replicate MAX_PAGE_CPUS cache_new) 0 0 0 0 0 0 0 0 0 0 content in
                        match foldl (publish pagedb_phys_base (pagedb_phys_base + chunk_size)) (Some (s0, 0, 0))
                                (flat_map range_frames ranges) with
                        | None => None
                        | Some (s, used, free) =>
                            Some (mkPhys true segs (pagedb s) maximum_pfn (free_list s) [] free (caches s) usable_pages
                                    used free 0 0 0 0 0 0 0 content)
                        end
                  end
              end
        | _, _, _ => None
        end
  end.
