(* ===== verification/PhysInv.v ===== *)
(** The invariant of the physical allocator, and the moves of pages between
    its lists and caches. *)
From S2P Require Import Prelude.
From S2P Require Import Bytes.
From S2P Require Import Phys.
Open Scope rust_scope.

(** ** Segments *)

(** Slices assigned from [count] on to segments above [lo], up to [total]. *)
Fixpoint slices (l : list Segment) (count lo total : Z) : Prop :=
  match l with
  | [] => count = total
  | g :: l => lo ≤ seg_start g < seg_end g ∧ seg_first g = count ∧ slices l (count + (seg_end g - seg_start g)) (seg_end g) total
  end.

(** [seg_lookup] as a search through the list. *)
Fixpoint find_slice (l : list Segment) (pfn : Z) : option Z :=
  match l with
  | [] => None
  | g :: l =>
      if decide (seg_start g ≤ pfn < seg_end g) then Some (seg_first g + pfn - seg_start g) else find_slice l pfn
  end.
Lemma find_slice_below l count lo total pfn : slices l count lo total → pfn < lo → find_slice l pfn = None.
Proof.
  revert count lo. induction l as [|g l IH]; intros count lo; [done|]. intros (? & _ & Hl) Hlt. simpl. rewrite decide_False by lia.
  eapply IH; [exact Hl|lia].
Qed.
Lemma seg_lookup_find l count lo total pfn : slices l count lo total → seg_lookup l pfn = find_slice l pfn.
Proof.
  unfold seg_lookup. revert count lo. induction l as [|g l IH]; intros count lo; [done|]. intros (Hg & _ & Hl). simpl.
  specialize (IH _ _ Hl). destruct (Z.leb_spec (seg_start g) pfn).
  - destruct (decide (pfn < seg_end g)) as [Hlt|Hge].
    + rewrite decide_True by lia.
      assert (partition_point (λ g, seg_start g <=? pfn) l = 0%nat) as ->.
      { destruct l as [|g' l]; [done|]. destruct Hl as (? & _). simpl. destruct (Z.leb_spec (seg_start g') pfn); [lia|done]. }
      simpl. destruct (Z.ltb_spec pfn (seg_end g)); [done|lia].
    + rewrite decide_False by lia. rewrite <- IH. destruct (partition_point _ l) as [|i]; simpl; [|done].
      destruct (Z.ltb_spec pfn (seg_end g)); [lia|done].
  - rewrite decide_False by lia. symmetry. eapply find_slice_below; [exact Hl|lia].
Qed.
Lemma find_slice_spec l count lo total pfn i : slices l count lo total → find_slice l pfn = Some i → count ≤ i < total ∧ lo ≤ pfn.
Proof.
  revert count lo. induction l as [|g l IH]; intros count lo; [done|]. intros (Hg & Hf & Hl). simpl.
  assert (∀ l c lo, slices l c lo total → c ≤ total) as Hle.
  { clear. induction l as [|g l IH]; intros c lo; simpl; [lia|]. intros (? & _ & Hl). apply IH in Hl. lia. }
  apply Hle in Hl as Hc. case_decide.
  - intros [= <-]. lia.
  - intros Hi. destruct (IH _ _ Hl Hi). lia.
Qed.
Lemma find_slice_inj l count lo total p q i :
  slices l count lo total → find_slice l p = Some i → find_slice l q = Some i → p = q.
Proof.
  revert count lo. induction l as [|g l IH]; intros count lo; [done|]. intros (Hg & Hf & Hl). simpl.
  case_decide; case_decide; try (intros [= <-] [= E]; lia).
  - intros [= <-] Hq. destruct (find_slice_spec _ _ _ _ _ _ Hl Hq). lia.
  - intros Hp [= <-]. destruct (find_slice_spec _ _ _ _ _ _ Hl Hp). lia.
  - by apply (IH _ _ Hl).
Qed.
Lemma find_slice_surj l count lo total i : slices l count lo total → count ≤ i < total → ∃ pfn, find_slice l pfn = Some i.
Proof.
  revert count lo. induction l as [|g l IH]; intros count lo; simpl; [lia|]. intros (Hg & Hf & Hl) Hi.
  destruct (decide (i < count + (seg_end g - seg_start g))).
  - exists (seg_start g + i - count). rewrite decide_True by lia. f_equal. lia.
  - destruct (IH _ _ Hl) as [pfn Hp]; [lia|]. exists pfn. rewrite decide_False; [done|]. destruct (find_slice_spec _ _ _ _ _ _ Hl Hp). lia.
Qed.
(** [seg_next] is the first frame of a segment at or above [pfn]. *)
Lemma seg_next_spec l count lo total pfn :
  slices l count lo total →
  match seg_next l pfn with
  | Some q => pfn ≤ q ∧ is_Some (find_slice l q) ∧ ∀ x, pfn ≤ x < q → find_slice l x = None
  | None => ∀ x, pfn ≤ x → find_slice l x = None
  end.
Proof.
  unfold seg_next. revert count lo. induction l as [|g l IH]; intros count lo; [done|]. intros (Hg & Hf & Hl). simpl.
  destruct (Z.leb_spec (seg_end g) pfn).
  - specialize (IH _ _ Hl). simpl. destruct (l !! _) as [g'|].
    + destruct IH as (? & [i Hi] & Hnone). split_and!; [done| |].
      * exists i. rewrite decide_False; [done|]. destruct (find_slice_spec _ _ _ _ _ _ Hl Hi). lia.
      * intros x Hx. rewrite decide_False by lia. by apply Hnone.
    + intros x Hx. rewrite decide_False by lia. by apply IH.
  - simpl. split_and!; [lia| |].
    + eexists. by rewrite decide_True by lia.
    + intros x Hx. rewrite decide_False by lia. eapply find_slice_below; [exact Hl|lia].
Qed.

(** ** Entries and their status *)

Lemma status_packed p st u q o :
  status p = pack_status st u q o →
  page_state p = Some st ∧ page_usage p = Some u ∧ page_owner_kind p = Some o.
Proof. unfold page_state, page_usage, page_owner_kind, status_field. intros ->. by destruct st, u, q, o. Qed.
Lemma set_state_packed p st u q o st' :
  status p = pack_status st u q o → status (set_status_field STATE_SHIFT (state_code st') p) = pack_status st' u q o.
Proof. unfold set_status_field. simpl. intros ->. by destruct st, u, q, o, st'. Qed.
Lemma set_owner_packed p st u q o o' :
  status p = pack_status st u q o → status (set_status_field OWNER_KIND_SHIFT (owner_code o') p) = pack_status st u q o'.
Proof. unfold set_status_field. simpl. intros ->. by destruct st, u, q, o, o'. Qed.

(** An entry of the database: only allocated frames have an owner, and only
    managed ones; only frames of files are marked executable. *)
Definition page_wf (p : Page) : Prop :=
  ∃ st u o, status p = pack_status st u QueueNone o ∧ st ≠ StReserved ∧ (st ≠ StAllocated → o = OwnNone) ∧
    (o ≠ OwnNone → u = UseManaged) ∧ (has_flag (flags p) EXECUTABLE = true → o = OwnFile).
Definition in_state (st : PageState) (p : Page) : bool := bool_decide (page_state p = Some st).
Definition pool_state (zero : bool) : PageState := if zero then StZero else StFree.

Lemma page_wf_state p : page_wf p → ∃ st, page_state p = Some st ∧ st ≠ StReserved.
Proof. intros (st & u & o & Hs & Hr & _). exists st. by destruct (status_packed _ _ _ _ _ Hs). Qed.

(** ** Where the free frames are *)

Definition cached (zero : bool) (c : PageCache) : list Z := let '(slots, len) := cache_slots zero c in take len slots.
Definition cache_ok (c : PageCache) : Prop :=
  ∀ zero, length (cache_slots zero c).1 = PAGE_CACHE_CAPACITY ∧ ((cache_slots zero c).2 ≤ PAGE_CACHE_CAPACITY)%nat.
Definition list_of (zero : bool) (s : Phys) : list Z := if zero then zero_list s else free_list s.
Definition pool (zero : bool) (s : Phys) : list Z := list_of zero s ++ concat (cached zero <$> caches s).
(** Free frames taken out of the pools by a running operation. *)
Abbreviation held := (bool → list Z).
Definition hold (zero : bool) (pfn : Z) (h : held) : held := λ z, if Bool.eqb z zero then pfn :: h z else h z.
Definition nobody : held := λ _, [].

Record phys_core (h : held) (s : Phys) : Prop := mkCore {
  core_ready : ready s = true;
  core_segs : slices (segments s) 0 0 (Z.of_nat (length (pagedb s)));
  core_number : ∀ pfn p, entry s pfn = Some p → frame_number p = pfn ∧ page_wf p ∧ pfn < max_pfn s;
  core_max : max_pfn s ≤ 4294967295;
  core_size : Z.of_nat (length (pagedb s)) ≤ max_pfn s;
  core_caches : length (caches s) = MAX_PAGE_CPUS ∧ Forall cache_ok (caches s);
  core_nodup : NoDup ((pool false s ++ h false) ++ (pool true s ++ h true));
  core_pool : ∀ zero pfn, pfn ∈ pool zero s ++ h zero ↔
    ∃ p, entry s pfn = Some p ∧ page_state p = Some (pool_state zero);
  core_zero : ∀ pfn p, entry s pfn = Some p → page_state p = Some StZero → memory s pfn = zero_frame;
  core_nfree : nfree s = Z.of_nat (length (free_list s) + length (zero_list s));
}.

(** ** Moving pages between the lists and the caches *)

(** Nothing but the lists and the caches differs. *)
Definition moved (s s' : Phys) : Prop := ∃ f z n cs, s' = with_caches cs (with_lists f z n s).
Lemma moved_refl s : moved s s.
Proof. exists (free_list s), (zero_list s), (nfree s), (caches s). by destruct s. Qed.
Lemma moved_trans s1 s2 s3 : moved s1 s2 → moved s2 s3 → moved s1 s3.
Proof. intros (f & z & n & cs & ->) (f' & z' & n' & cs' & ->). by exists f', z', n', cs'. Qed.
Lemma moved_entry s s' pfn : moved s s' → entry s' pfn = entry s pfn.
Proof. by intros (f & z & n & cs & ->). Qed.

(** The pages of the pools and those held are what they were. *)
Lemma core_moved h h' s s' :
  phys_core h s → moved s s' → (∀ z, pool z s' ++ h' z ≡ₚ pool z s ++ h z) →
  length (caches s') = MAX_PAGE_CPUS → Forall cache_ok (caches s') →
  nfree s' = Z.of_nat (length (free_list s') + length (zero_list s')) →
  phys_core h' s'.
Proof.
  intros [] Hm Hp Hl Hc Hn. assert (∀ pfn, entry s' pfn = entry s pfn) as He by (intros; by apply moved_entry).
  destruct Hm as (f & z & n & cs & ->). split; try done.
  - by rewrite (Hp false), (Hp true).
  - intros zero pfn. rewrite (Hp zero), He. apply core_pool0.
Qed.

Lemma cache_pop_spec zero c :
  cache_ok c →
  match cache_pop zero c with
  | (None, c') => c' = c ∧ cached zero c = []
  | (Some pfn, c') => cache_ok c' ∧ cached zero c = cached zero c' ++ [pfn] ∧ cached (negb zero) c' = cached (negb zero) c
  end.
Proof.
  intros Hc. pose proof (Hc zero) as [Hl Hn]. unfold cache_pop. destruct (cache_slots zero c) as [slots len] eqn:E. simpl in *.
  destruct len as [|len]; [by unfold cached; rewrite E|].
  destruct (lookup_lt_is_Some_2 slots len) as [x Hx]; [lia|]. rewrite Hx. split_and!.
  - intros z. specialize (Hc z). unfold cache_slots, cache_put in *. destruct zero, z; simplify_eq/=; try done; lia.
  - unfold cached at 1. rewrite E. rewrite (take_S_r _ _ _ Hx). unfold cached, cache_slots, cache_put. by destruct zero.
  - unfold cached, cache_slots, cache_put. by destruct zero.
Qed.
Lemma cache_push_spec pfn zero c :
  cache_ok c →
  match cache_push pfn zero c with
  | (false, c') => c' = c ∧ length (cached zero c) = PAGE_CACHE_CAPACITY
  | (true, c') => cache_ok c' ∧ cached zero c' = cached zero c ++ [pfn] ∧ cached (negb zero) c' = cached (negb zero) c
  end.
Proof.
  intros Hc. pose proof (Hc zero) as [Hl Hn]. unfold cache_push. destruct (cache_slots zero c) as [slots len] eqn:E. simpl in *.
  destruct (Nat.eqb_spec len PAGE_CACHE_CAPACITY) as [->|Hne].
  { unfold cached. rewrite E. split; [done|]. rewrite length_take. lia. }
  split_and!.
  - intros z. specialize (Hc z). unfold cache_slots, cache_put in *.
    destruct zero, z; simplify_eq/=; rewrite ?length_insert; try done; lia.
  - unfold cached at 2. rewrite E. unfold cached, cache_slots, cache_put.
    destruct zero; simpl; rewrite (take_S_r _ len pfn) by (apply list_lookup_insert_eq; lia); by rewrite take_insert_ge by lia.
  - unfold cached, cache_slots, cache_put. by destruct zero.
Qed.

Lemma list_delete_insert {A} (l : list A) i x : delete i (<[i:=x]> l) = delete i l.
Proof. revert i. induction l as [|y l IH]; intros [|i]; simpl; f_equal; auto. Qed.

(** The cache of one processor among all of them. *)
Lemma cached_split z cs id c :
  cs !! id = Some c → concat (cached z <$> cs) ≡ₚ cached z c ++ concat (cached z <$> delete id cs).
Proof. intros Hc. by rewrite (delete_Permutation cs id c Hc) at 1. Qed.
Lemma cached_insert z cs id c c' :
  cs !! id = Some c → concat (cached z <$> <[id:=c']> cs) ≡ₚ cached z c' ++ concat (cached z <$> delete id cs).
Proof.
  intros Hc. assert (id < length cs)%nat by (by eapply lookup_lt_Some).
  rewrite (cached_split z _ id c') by (by apply list_lookup_insert_eq). by rewrite list_delete_insert.
Qed.

Lemma pool_with_caches z cs s : pool z (with_caches cs s) = list_of z s ++ concat (cached z <$> cs).
Proof. by destruct z. Qed.
Lemma negb_neq z zero : z ≠ zero → z = negb zero.
Proof. by destruct z, zero. Qed.
Lemma hold_eq z pfn h : hold z pfn h z = pfn :: h z.
Proof. unfold hold. by rewrite Bool.eqb_reflx. Qed.
Lemma hold_ne z zero pfn h : z ≠ zero → hold zero pfn h z = h z.
Proof. unfold hold. by destruct z, zero. Qed.

Section moves.
Context (h : held).
Implicit Types s : Phys.

Lemma wp_get_cache id (Q : PageCache → Phys → oracle → Prop) s o :
  phys_core h s → (id < MAX_PAGE_CPUS)%nat → (∀ c, caches s !! id = Some c → cache_ok c → Q c s o) → wp (get_cache id) Q s o.
Proof.
  intros Hi Hid HQ. apply core_caches in Hi as [Hl Hc]. destruct (lookup_lt_is_Some_2 (caches s) id) as [c Hcs]; [lia|].
  unfold get_cache. wp_steps. apply HQ; [done|]. by eapply (Forall_lookup_1 _ _ _ _ Hc).
Qed.

Lemma pop_from_spec id zero s o :
  phys_core h s → (id < MAX_PAGE_CPUS)%nat →
  wp (pop_from id zero) (λ r s' o', o' = o ∧ moved s s' ∧ nfree s' = nfree s ∧ (∀ z, list_of z s' = list_of z s) ∧
     match r with
     | None => s' = s ∧ (∀ c, caches s !! id = Some c → cached zero c = [])
     | Some pfn => phys_core (hold zero pfn h) s' ∧ pfn ∈ pool zero s ∧
         ∃ c c', caches s !! id = Some c ∧ caches s' = <[id:=c']> (caches s) ∧
           cached zero c = cached zero c' ++ [pfn] ∧ cached (negb zero) c' = cached (negb zero) c
     end) s o.
Proof.
  intros Hi Hid. unfold pop_from. apply wp_bind. apply wp_get_cache; [done|done|]. intros c Hc Hok.
  pose proof (cache_pop_spec zero c Hok) as Hpop. destruct (cache_pop zero c) as [[pfn|] c'].
  - destruct Hpop as (Hok' & Hz & Hn). unfold set_cache. wp_steps.
    assert (concat (cached zero <$> caches s) ≡ₚ pfn :: concat (cached zero <$> <[id:=c']> (caches s))) as Hperm.
    { rewrite (cached_insert zero _ _ _ _ Hc), (cached_split zero _ _ _ Hc), Hz. simpl. solve_Permutation. }
    assert (moved s (with_caches (<[id:=c']> (caches s)) s)) as Hm.
    { exists (free_list s), (zero_list s), (nfree s), (<[id:=c']> (caches s)). by destruct s. }
    split_and!; [done|done|done|done| | |by exists c, c'].
    + eapply (core_moved h); [exact Hi|exact Hm| |simpl; rewrite length_insert; apply Hi| |apply Hi].
      * intros z. rewrite pool_with_caches. destruct (decide (z = zero)) as [->|Hz'].
        -- rewrite hold_eq. unfold pool. rewrite Hperm. solve_Permutation.
        -- rewrite hold_ne by done. unfold pool. apply negb_neq in Hz' as ->.
           rewrite (cached_insert _ _ _ _ _ Hc), Hn, <- (cached_split _ _ _ _ Hc). done.
      * apply Forall_insert; [apply Hi|done].
    + unfold pool. rewrite Hperm. set_solver.
  - destruct Hpop as [-> Hz]. unfold set_cache. wp_steps.
    assert (with_caches (<[id:=c]> (caches s)) s = s) as ->.
    { rewrite list_insert_id by done. by destruct s. }
    split_and!; [done|apply moved_refl|done|done|done|]. intros c' Hc'. by simplify_eq.
Qed.
End moves.

(** ** The shared lists *)

Definition set_list (zero : bool) (l : list Z) (n : Z) (s : Phys) : Phys :=
  if zero then with_lists (free_list s) l n s else with_lists l (zero_list s) n s.
Lemma set_list_moved zero l n s : moved s (set_list zero l n s).
Proof.
  destruct zero; [exists (free_list s), l, n, (caches s)|exists l, (zero_list s), n, (caches s)]; by destruct s.
Qed.
Lemma push_list_moved front zero x d s : moved s (push_list front zero x (add_nfree d s)).
Proof.
  assert (push_list front zero x (add_nfree d s) =
    set_list zero (if front then x :: list_of zero s else list_of zero s ++ [x]) (wrap64 (nfree s + d)) s) as -> by (by destruct zero, front, s).
  apply set_list_moved.
Qed.
Lemma pool_set_list zero l n s z :
  pool z (set_list zero l n s) = (if Bool.eqb z zero then l else list_of z s) ++ concat (cached z <$> caches s).
Proof. by destruct zero, z. Qed.

(** Distinct frames of the database are not more than its entries. *)
Lemma frames_bound h s (l : list Z) :
  phys_core h s → NoDup l → (∀ x, x ∈ l → is_Some (entry s x)) → (length l ≤ length (pagedb s))%nat.
Proof.
  intros [] Hnd Hin. set (idx x := default 0 (seg_lookup (segments s) x)).
  assert (∀ x, x ∈ l → ∃ i, find_slice (segments s) x = Some i ∧ idx x = i) as Hidx.
  { intros x Hx. destruct (Hin x Hx) as [p Hp]. unfold entry in Hp. unfold idx. rewrite (seg_lookup_find _ _ _ _ _ core_segs0) in Hp |- *.
    destruct (find_slice (segments s) x) as [i|]; [by exists i|done]. }
  rewrite <- (length_fmap idx l). replace (length (pagedb s)) with (length (seqZ 0 (Z.of_nat (length (pagedb s))))) by (rewrite length_seqZ; lia).
  apply submseteq_length, NoDup_submseteq.
  - apply NoDup_fmap_2_strong; [|done]. intros x y Hx Hy E. destruct (Hidx x Hx) as (i & Hi & Ei), (Hidx y Hy) as (j & Hj & Ej).
    eapply find_slice_inj; [exact core_segs0|exact Hi|congruence].
  - intros i. rewrite list_elem_of_fmap. intros (x & -> & Hx). destruct (Hidx x Hx) as (i & Hi & ->). apply elem_of_seqZ.
    destruct (find_slice_spec _ _ _ _ _ _ core_segs0 Hi). lia.
Qed.
Lemma pool_bound h s : phys_core h s → Z.of_nat (length (free_list s) + length (zero_list s)) ≤ 4294967295.
Proof.
  intros Hi. pose proof Hi as [].
  assert (length ((pool false s ++ h false) ++ pool true s ++ h true) ≤ length (pagedb s))%nat as Hb.
  { eapply frames_bound; [done|done|]. intros x. rewrite elem_of_app. intros [Hx|Hx]; apply core_pool0 in Hx as (p & Hp & _); by exists p. }
  unfold pool, list_of in Hb. rewrite !length_app in Hb. lia.
Qed.

Lemma core_pop_list h s zero x l :
  phys_core h s → list_of zero s = x :: l → phys_core (hold zero x h) (set_list zero l (wrap64 (nfree s + -1)) s).
Proof.
  intros Hi El. pose proof (pool_bound _ _ Hi) as Hb. eapply (core_moved h); [exact Hi|apply set_list_moved| | | |].
  - intros z. rewrite pool_set_list. unfold hold, pool. destruct (Bool.eqb z zero) eqn:E; [|done].
    apply Bool.eqb_prop in E as ->. rewrite El. solve_Permutation.
  - destruct zero; apply Hi.
  - destruct zero; apply Hi.
  - rewrite (core_nfree _ _ Hi). unfold list_of in El. destruct zero; simpl; rewrite El in *; simpl in *; rewrite wrap64_small; unfold is_u64; lia.
Qed.
Lemma core_push_list h s zero x front :
  phys_core (hold zero x h) s → phys_core h (push_list front zero x (add_nfree 1 s)).
Proof.
  intros Hi. pose proof (pool_bound _ _ Hi) as Hb. set (l := if front then x :: list_of zero s else list_of zero s ++ [x]).
  assert (push_list front zero x (add_nfree 1 s) = set_list zero l (wrap64 (nfree s + 1)) s) as ->.
  { unfold l. by destruct zero, front, s. }
  assert (l ≡ₚ x :: list_of zero s) as Hl by (unfold l; destruct front; solve_Permutation).
  eapply (core_moved (hold zero x h)); [exact Hi|apply set_list_moved| | | |].
  - intros z. rewrite pool_set_list. unfold hold, pool. destruct (Bool.eqb z zero) eqn:E; [|done].
    apply Bool.eqb_prop in E as ->. rewrite Hl. solve_Permutation.
  - destruct zero; apply Hi.
  - destruct zero; apply Hi.
  - apply Permutation_length in Hl. simpl in Hl. rewrite (core_nfree _ _ Hi). unfold list_of in *.
    destruct zero; simpl; rewrite Hl, wrap64_small; unfold is_u64; lia.
Qed.

Lemma pop_list_spec zero s :
  match pop_list zero s with
  | None => list_of zero s = []
  | Some (x, s') => ∃ l, list_of zero s = x :: l ∧ s' = set_list zero l (nfree s) s
  end.
Proof. unfold pop_list, list_of, set_list. destruct zero; [destruct (zero_list s)|destruct (free_list s)]; eauto. Qed.

Lemma pop_preferred_spec want_zero s o :
  wp (pop_preferred want_zero) (λ r s' o', o' = o ∧
     match r with
     | None => s' = s ∧ ∀ z, list_of z s = []
     | Some (x, z) => ∃ l, list_of z s = x :: l ∧ s' = set_list z l (nfree s) s
     end) s o.
Proof.
  unfold pop_preferred. wp_steps. pose proof (pop_list_spec want_zero s) as H1. destruct (pop_list want_zero s) as [[x s1]|].
  { wp_steps. eauto. }
  pose proof (pop_list_spec (negb want_zero) s) as H2. destruct (pop_list (negb want_zero) s) as [[x s1]|].
  { wp_steps. eauto. }
  wp_steps. split_and!; [done|done|]. intros z. destruct z, want_zero; done.
Qed.

Lemma held_entry h s zero pfn : phys_core (hold zero pfn h) s → ∃ p, entry s pfn = Some p ∧ page_state p = Some (pool_state zero).
Proof. intros Hi. apply (core_pool _ _ Hi). rewrite hold_eq. set_solver. Qed.
Lemma entry_index s pfn p : entry s pfn = Some p → page_by_index s pfn = Some pfn.
Proof. unfold entry, page_by_index. by destruct (seg_lookup _ _). Qed.
Lemma wp_get_page pfn p (Q : Page → Phys → oracle → Prop) s o : entry s pfn = Some p → Q p s o → wp (get_page pfn) Q s o.
Proof. intros Hp HQ. unfold get_page. wp_steps. done. Qed.

Lemma push_to_spec h id pfn zero s o :
  phys_core (hold zero pfn h) s → (id < MAX_PAGE_CPUS)%nat →
  wp (push_to id pfn zero) (λ b s' o', o' = o ∧ moved s s' ∧ nfree s' = nfree s ∧ (∀ z, list_of z s' = list_of z s) ∧
     if (b : bool) then phys_core h s' ∧ (∃ c, caches s' !! id = Some c ∧ pfn ∈ cached zero c)
     else s' = s ∧ ∃ c, caches s !! id = Some c ∧ length (cached zero c) = PAGE_CACHE_CAPACITY) s o.
Proof.
  intros Hi Hid. unfold push_to. apply wp_bind. eapply wp_get_cache; [exact Hi|done|]. intros c Hc Hok.
  pose proof (cache_push_spec pfn zero c Hok) as Hpush. destruct (cache_push pfn zero c) as [[] c'].
  - destruct Hpush as (Hok' & Hz & Hn). unfold set_cache. wp_steps. split_and!; try done.
    + exists (free_list s), (zero_list s), (nfree s), (<[id:=c']> (caches s)). by destruct s.
    + eapply (core_moved (hold zero pfn h)); [exact Hi| | |simpl; rewrite length_insert; apply Hi| |apply Hi].
      * exists (free_list s), (zero_list s), (nfree s), (<[id:=c']> (caches s)). by destruct s.
      * intros z. rewrite pool_with_caches. unfold pool. rewrite (cached_insert _ _ _ _ _ Hc), (cached_split z _ _ _ Hc).
        destruct (decide (z = zero)) as [->|Hz']; [rewrite hold_eq, Hz; solve_Permutation|].
        rewrite hold_ne by done. apply negb_neq in Hz' as ->. by rewrite Hn.
      * apply Forall_insert; [apply Hi|done].
    + exists c'. simpl. rewrite list_lookup_insert_eq by (by eapply lookup_lt_Some). split; [done|]. rewrite Hz. set_solver.
  - destruct Hpush as [-> Hfull]. unfold set_cache. wp_steps.
    assert (with_caches (<[id:=c]> (caches s)) s = s) as -> by (rewrite list_insert_id by done; by destruct s).
    split_and!; [done|apply moved_refl|done|done|done|by exists c].
Qed.
