(* ===== verification/PhysOps.v ===== *)
(** Allocation and release of single frames. *)
From S2P Require Import Prelude.
From S2P Require Import Bytes.
From S2P Require Import Phys.
From S2P Require Import PhysInv.
Open Scope rust_scope.

(** The cache of a processor holds something. *)
Definition stocked (id : nat) (s : Phys) : Prop := ∃ c z x, caches s !! id = Some c ∧ x ∈ cached z c.
Definition cache_empty (id : nat) (s : Phys) : Prop := ∀ c z, caches s !! id = Some c → cached z c = [].

Lemma found_spec h s pfn zero o :
  phys_core (hold zero pfn h) s → wp (found pfn zero) (λ r s' o', r = Some (pfn, zero) ∧ s' = s ∧ o' = o) s o.
Proof. intros Hi. destruct (held_entry _ _ _ _ Hi) as (p & Hp & _). unfold found. wp_steps. by rewrite (entry_index _ _ _ Hp). Qed.

(** One cache is asked for the preferred kind, then for the other. *)
Definition pop_either (id : nat) (want_zero : bool) (k : M Phys (option (Z * bool))) : M Phys (option (Z * bool)) :=
  let* r := pop_from id want_zero in
  match r with
  | Some pfn => found pfn want_zero
  | None =>
      let* r := pop_from id (negb want_zero) in
      match r with
      | Some pfn => found pfn (negb want_zero)
      | None => k
      end
  end.
Lemma pop_either_spec h id want_zero k Q s o :
  phys_core h s → (id < MAX_PAGE_CPUS)%nat →
  (∀ s' pfn z, moved s s' → nfree s' = nfree s → phys_core (hold z pfn h) s' → pfn ∈ pool z s → Q (Some (pfn, z)) s' o) →
  (cache_empty id s → wp k Q s o) →
  wp (pop_either id want_zero k) Q s o.
Proof.
  intros Hi Hid Hsome Hnone. unfold pop_either. apply wp_bind. eapply wp_mono; [by apply (pop_from_spec h)|].
  intros [pfn|] s1 o1 (-> & Hm & Hn & _ & Hr).
  - destruct Hr as (Hc & Hin & _). eapply wp_mono; [by apply (found_spec h)|]. intros r s2 o2 (-> & -> & ->). by apply Hsome.
  - destruct Hr as [-> He]. apply wp_bind. eapply wp_mono; [by apply (pop_from_spec h)|].
    intros [pfn|] s2 o2 (-> & Hm2 & Hn2 & _ & Hr).
    + destruct Hr as (Hc & Hin & _). eapply wp_mono; [by apply (found_spec h)|]. intros r s3 o3 (-> & -> & ->). by apply Hsome.
    + destruct Hr as [-> He']. apply Hnone. intros c z Hc. destruct (decide (z = want_zero)) as [->|Hz]; [by apply He|].
      rewrite (negb_neq _ _ Hz). by apply He'.
Qed.

Section take.
Context (h : held).
Implicit Types s : Phys.

Lemma refill_loop_spec n id want_zero use_reserve c s o :
  phys_core h s → (id < MAX_PAGE_CPUS)%nat →
  wp (refill_loop n id want_zero use_reserve c) (λ _ s' o', o' = o ∧ moved s s' ∧ phys_core h s' ∧
     (stocked id s → stocked id s') ∧
     if decide (access (nfree s) (cpus c) use_reserve (is_page_daemon c) = Denied) then s' = s
     else (0 < n)%nat → stocked id s') s o.
Proof.
  revert s. induction n as [|n IH]; intros s Hi Hid.
  { simpl. wp_steps. split_and!; [done|apply moved_refl|done|done|]. case_decide; [done|lia]. }
  cbn [refill_loop]. wp_step. destruct (decide (access _ _ _ _ = Denied)) as [Ha|Ha]; wp_steps.
  { rewrite bool_decide_true by done. wp_steps. split_and!; [done|apply moved_refl|done|done|done]. }
  rewrite bool_decide_false by done. apply wp_bind. eapply wp_mono; [apply pop_preferred_spec|]. intros r s1 o1 [-> Hr].
  destruct r as [[x z]|]; cycle 1.
  { exfalso. destruct Hr as [_ He]. apply Ha. rewrite (core_nfree _ _ Hi). pose proof (He false) as Ef. pose proof (He true) as Ez.
    unfold list_of in *. by rewrite Ef, Ez. }
  destruct Hr as (l & Hl & ->). apply wp_bind, wp_modify.
  pose proof (core_pop_list _ _ _ _ _ Hi Hl) as Hh.
  replace (add_nfree (-1) (set_list z l (nfree s) s)) with (set_list z l (wrap64 (nfree s + -1)) s) by (by destruct z).
  set (s2 := set_list z l (wrap64 (nfree s + -1)) s) in *. assert (moved s s2) as Hm by apply set_list_moved.
  destruct (held_entry _ _ _ _ Hh) as (p & Hp & _). apply wp_bind. eapply wp_get_page; [exact Hp|].
  destruct (core_number _ _ Hh _ _ Hp) as (-> & _ & _). apply wp_bind. eapply wp_mono; [by apply push_to_spec|].
  intros [] s3 o3 (-> & Hm3 & Hn3 & Hl3 & Hr).
  - destruct Hr as (Hc3 & c3 & Hc3l & Hin). assert (stocked id s3) as Hst by (by exists c3, z, x).
    case_bool_decide.
    + wp_steps. split_and!; [done|by eapply moved_trans|done|done|done].
    + eapply wp_mono; [by apply IH|]. intros _ s4 o4 (-> & Hm4 & Hc4 & Hst4 & _).
      split_and!; [done|do 2 (eapply moved_trans; [eassumption|]); done|done|auto|auto].
  - destruct Hr as (-> & c3 & Hc3 & Hfull). wp_steps. apply (core_push_list h s2 z x true) in Hh as Hback.
    assert (stocked id (push_list true z x (add_nfree 1 s2))) as Hst.
    { assert (caches s2 = caches s) as Ec by (by destruct z). exists c3, z.
      destruct (cached z c3) as [|y l'] eqn:Ey; [done|]. exists y. split; [by destruct z|set_solver]. }
    split_and!; [done| |done|done|done].
    eapply moved_trans; [exact Hm|apply push_list_moved].
Qed.

Lemma steal_loop_spec ids local_id want_zero s o :
  phys_core h s → Forall (λ id, id < MAX_PAGE_CPUS)%nat ids →
  wp (steal_loop ids local_id want_zero) (λ r s' o', o' = o ∧ moved s s' ∧ nfree s' = nfree s ∧
     match r with
     | Some (pfn, z) => phys_core (hold z pfn h) s' ∧ pfn ∈ pool z s
     | None => s' = s ∧ ∀ id, id ∈ ids → id ≠ local_id → cache_empty id s
     end) s o.
Proof.
  intros Hi. induction ids as [|id ids IH]; intros Hids.
  { simpl. wp_steps. split_and!; [done|apply moved_refl|done|done|]. intros id Hid. by apply not_elem_of_nil in Hid. }
  apply Forall_cons in Hids as [Hid Hids]. cbn [steal_loop]. destruct (Nat.eqb_spec id local_id) as [->|Hne].
  { eapply wp_mono; [by apply IH|]. intros [[pfn z]|] s' o' (-> & Hm & Hn & Hr); [done|].
    destruct Hr as [-> Hr]. split_and!; try done. intros id Hin Hne. apply Hr; [|done]. by apply elem_of_cons in Hin as [|]. }
  apply (pop_either_spec h id want_zero (steal_loop ids local_id want_zero)); [done|done| |].
  - intros s' pfn z Hm Hn Hc Hin. done.
  - intros He. eapply wp_mono; [by apply IH|]. intros [[pfn z]|] s' o' (-> & Hm & Hn & Hr); [done|].
    destruct Hr as [-> Hr]. split_and!; try done. intros id' Hin Hne'. apply elem_of_cons in Hin as [->|Hin]; [done|by apply Hr].
Qed.

(** [take_page] finds a page whenever one is cached anywhere or the reserve
    allows one from the lists. *)
Lemma take_page_spec want_zero fl c s o :
  phys_core h s → (cpu c < MAX_PAGE_CPUS)%nat →
  wp (take_page want_zero fl c) (λ r s' o', o' = o ∧ moved s s' ∧
     match r with
     | Some (pfn, z) => phys_core (hold z pfn h) s'
     | None => s' = s ∧ access (nfree s) (cpus c) (has_flag fl USERESERVE) (is_page_daemon c) = Denied ∧
         ∀ id, (id < MAX_PAGE_CPUS)%nat → cache_empty id s
     end) s o.
Proof.
  intros Hi Hid. unfold take_page, cache_id. wp_steps. apply wp_massert; [by apply Nat.ltb_lt|]. wp_steps.
  apply (pop_either_spec h (cpu c) want_zero (ret None)); [done|done|intros; by wp_steps|]. intros He. wp_steps.
  eapply wp_mono; [by apply refill_loop_spec|]. intros _ s1 o1 (-> & Hm & Hc & _ & Hacc). apply wp_bind.
  apply (pop_either_spec h (cpu c) want_zero (ret None)); [done|done| |].
  { intros s2 pfn z Hm2 _ Hc2 _. wp_steps. split_and!; [done|by eapply moved_trans|done]. }
  intros He1. wp_steps. case_decide as Ha.
  - subst s1. eapply wp_mono; [apply steal_loop_spec; [done|]|].
    { apply Forall_forall. intros id Hin. apply elem_of_seq in Hin. lia. }
    intros [[pfn z]|] s' o' (-> & Hm' & Hn & Hr); [by destruct Hr|].
    destruct Hr as [-> Hr]. split_and!; try done. intros id Hlt. destruct (decide (id = cpu c)) as [->|Hne]; [done|]. apply Hr; [|done]. apply elem_of_seq. lia.
  - exfalso. destruct Hacc as (c1 & z & x & Hc1 & Hx); [unfold PAGE_CACHE_REFILL; lia|]. rewrite (He1 _ z Hc1) in Hx. set_solver.
Qed.
End take.

(** ** Entries that change *)

Lemma entry_set h s pfn p p' q :
  phys_core h s → entry s pfn = Some p → entry (set_entry pfn p' s) q = if decide (q = pfn) then Some p' else entry s q.
Proof.
  intros Hi Hp. pose proof (core_segs _ _ Hi) as Hs. unfold entry, set_entry in *.
  destruct (seg_lookup (segments s) pfn) as [i|] eqn:Ei; [|done]. simpl. assert (Z.to_nat i < length (pagedb s))%nat by (by eapply lookup_lt_Some).
  case_decide as Hq; [subst q; rewrite Ei; by apply list_lookup_insert_eq|].
  destruct (seg_lookup (segments s) q) as [j|] eqn:Ej; [|done]. apply list_lookup_insert_ne. intros E. apply Hq.
  rewrite (seg_lookup_find _ _ _ _ _ Hs) in Ei. rewrite (seg_lookup_find _ _ _ _ _ Hs) in Ej. destruct (find_slice_spec _ _ _ _ _ _ Hs Ei), (find_slice_spec _ _ _ _ _ _ Hs Ej).
  symmetry. eapply find_slice_inj; [exact Hs|exact Ei|]. rewrite Ej. f_equal. lia.
Qed.
Lemma set_entry_form s pfn p' : ∃ db, set_entry pfn p' s = with_pagedb db s ∧ length db = length (pagedb s).
Proof.
  unfold set_entry. destruct (seg_lookup _ _) as [i|].
  - eexists. split; [done|]. by rewrite length_insert.
  - exists (pagedb s). by destruct s.
Qed.

Lemma core_set h h' s pfn p p' :
  phys_core h s → entry s pfn = Some p → frame_number p' = pfn → page_wf p' →
  (page_state p' = Some StZero → memory s pfn = zero_frame) →
  NoDup ((pool false s ++ h' false) ++ (pool true s ++ h' true)) →
  (∀ z x, x ∈ pool z s ++ h' z ↔ if decide (x = pfn) then page_state p' = Some (pool_state z) else x ∈ pool z s ++ h z) →
  phys_core h' (set_entry pfn p' s).
Proof.
  intros Hi Hp Hn Hwf Hz Hnd Hpool. assert (∀ q, entry (set_entry pfn p' s) q = if decide (q = pfn) then Some p' else entry s q) as He.
  { intros q. by eapply entry_set. }
  destruct (core_number _ _ Hi _ _ Hp) as (_ & _ & Hlt). destruct (set_entry_form s pfn p') as (db & E & Hl). rewrite E in *.
  destruct Hi. split; try done.
  - simpl. by rewrite Hl.
  - intros q r. rewrite He. case_decide; [|by apply core_number]. intros [= <-]. by subst.
  - simpl. lia.
  - intros z x. transitivity (x ∈ pool z s ++ h' z); [done|]. rewrite Hpool, He. case_decide as Hx.
    + split; [intros Hst; by exists p'|by intros (r & [= <-] & Hst)].
    + apply core_pool.
  - intros q r. rewrite He. case_decide; [|by apply core_zero]. intros [= <-]. subst. apply Hz.
Qed.

(** Changes that keep the state of the frame. *)
Lemma core_set_same h s pfn p p' :
  phys_core h s → entry s pfn = Some p → frame_number p' = pfn → page_wf p' → page_state p' = page_state p →
  phys_core h (set_entry pfn p' s).
Proof.
  intros Hi Hp Hn Hwf Hst. eapply core_set; try done.
  - rewrite Hst. by apply (core_zero _ _ Hi).
  - apply Hi.
  - intros z x. case_decide as Hx; [subst x|done]. rewrite (core_pool _ _ Hi), Hst. split; [intros (r & Hr & ?); by simplify_eq|by exists p].
Qed.
(** A held frame is allocated. *)
Lemma core_set_allocated h s zero pfn p p' :
  phys_core (hold zero pfn h) s → entry s pfn = Some p → frame_number p' = pfn → page_wf p' → page_state p' = Some StAllocated →
  phys_core h (set_entry pfn p' s).
Proof.
  intros Hi Hp Hn Hwf Hst.
  assert (((pool false s ++ hold zero pfn h false) ++ pool true s ++ hold zero pfn h true) ≡ₚ
          pfn :: (pool false s ++ h false) ++ pool true s ++ h true) as Hperm.
  { unfold hold. destruct zero; simpl; solve_Permutation. }
  pose proof (core_nodup _ _ Hi) as Hnd. rewrite Hperm in Hnd. apply NoDup_cons in Hnd as [Hnot Hnd].
  eapply core_set; try done.
  - by rewrite Hst.
  - intros z x. case_decide as Hx.
    + subst x. rewrite Hst. split; [|by destruct z]. intros Hin. exfalso. apply Hnot. destruct z; set_solver.
    + unfold hold. destruct (Bool.eqb z zero); set_solver.
Qed.
(** An allocated frame is freed, and held. *)
Lemma core_set_freed h s zero pfn p p' :
  phys_core h s → entry s pfn = Some p → page_state p = Some StAllocated → frame_number p' = pfn → page_wf p' →
  page_state p' = Some (pool_state zero) → (zero = true → memory s pfn = zero_frame) →
  phys_core (hold zero pfn h) (set_entry pfn p' s).
Proof.
  intros Hi Hp Ha Hn Hwf Hst Hz.
  assert (((pool false s ++ hold zero pfn h false) ++ pool true s ++ hold zero pfn h true) ≡ₚ
          pfn :: (pool false s ++ h false) ++ pool true s ++ h true) as Hperm.
  { unfold hold. destruct zero; simpl; solve_Permutation. }
  assert (∀ z, pfn ∉ pool z s ++ h z) as Hnot.
  { intros z Hin. apply (core_pool _ _ Hi) in Hin as (r & Hr & Hs). rewrite Hp in Hr. injection Hr as <-. rewrite Ha in Hs. by destruct z. }
  eapply core_set; try done.
  - rewrite Hst. destruct zero; [by auto|done].
  - rewrite Hperm. apply NoDup_cons. split; [|apply Hi]. rewrite elem_of_app. intros [Hin|Hin]; by eapply Hnot.
  - intros z x. case_decide as Hx.
    + subst x. rewrite Hst. unfold hold. destruct (Bool.eqb z zero) eqn:E.
      * apply Bool.eqb_prop in E as ->. split; [done|]. intros _. set_solver.
      * split; [intros Hin; exfalso; by eapply Hnot|]. intros [= E']. by destruct z, zero.
    + unfold hold. destruct (Bool.eqb z zero); set_solver.
Qed.
Lemma core_with_usage h u f z s : phys_core h s → phys_core h (with_usage u f z s).
Proof. by intros []. Qed.
Lemma core_with_owned h m a f e s : phys_core h s → phys_core h (with_owned m a f e s).
Proof. by intros []. Qed.
Lemma core_write h s pfn bytes :
  phys_core h s → (∀ p, entry s pfn = Some p → page_state p = Some StZero → bytes = zero_frame) →
  phys_core h (write_frame pfn bytes s).
Proof.
  intros Hi Hb. destruct Hi. split; try done. intros q r Hr Hst. simpl.
  destruct (Z.eqb_spec q pfn) as [->|]; [by eapply Hb|by eapply core_zero].
Qed.

(** ** The allocator's operations and its accounting. *)

(** ** Accounting *)

Definition is_owned (p : Page) : bool := bool_decide (page_owner_kind p ≠ Some OwnNone).
Definition is_exec (p : Page) : bool := bool_decide (page_owner_kind p = Some OwnFile) && has_flag (flags p) EXECUTABLE.
Definition is_file (p : Page) : bool := bool_decide (page_owner_kind p = Some OwnFile) && negb (has_flag (flags p) EXECUTABLE).
Definition is_anon (p : Page) : bool := bool_decide (page_owner_kind p = Some OwnAnonymous ∨ page_owner_kind p = Some OwnKernel).

(** Every counter is the number of entries it stands for. *)
Record counts_ok (s : Phys) : Prop := mkCounts {
  count_total : total_pages s = Z.of_nat (length (pagedb s));
  count_used : used_pages s = countb (in_state StAllocated) (pagedb s);
  count_free : free_pages s = countb (in_state StFree) (pagedb s) + countb (in_state StZero) (pagedb s);
  count_zero : zero_pages s = countb (in_state StZero) (pagedb s);
  count_managed : managed_pages s = countb is_owned (pagedb s);
  count_anon : anon_pages s = countb is_anon (pagedb s);
  count_file : file_pages s = countb is_file (pagedb s);
  count_exec : exec_pages s = countb is_exec (pagedb s);
}.
Definition phys_inv (s : Phys) : Prop := phys_core nobody s ∧ counts_ok s.

Lemma countb_set f s pfn p p' :
  entry s pfn = Some p → countb f (pagedb (set_entry pfn p' s)) = countb f (pagedb s) - Z.b2z (f p) + Z.b2z (f p').
Proof. unfold entry, set_entry. destruct (seg_lookup _ _) as [i|]; [|done]. intros Hp. simpl. by apply countb_insert. Qed.
Lemma counts_bound h s f : phys_core h s → 0 ≤ countb f (pagedb s) ≤ 4294967295.
Proof. intros []. pose proof (countb_bound f (pagedb s)). lia. Qed.
Lemma counts_positive s pfn p f : entry s pfn = Some p → f p = true → 0 < countb f (pagedb s).
Proof. unfold entry. destruct (seg_lookup _ _); [|done]. intros Hp Hf. by eapply countb_pos. Qed.
Lemma counts_moved s s' : counts_ok s → moved s s' → counts_ok s'.
Proof. by intros [] (f & z & n & cs & ->). Qed.
Lemma wrap64_count x : 0 ≤ x ≤ 4 * 4294967296 → wrap64 x = x.
Proof. intros. apply wrap64_small. unfold is_u64. lia. Qed.

(** ** Claiming and releasing an entry *)

Definition claimed (usage : PageUse) (p : Page) : Page :=
  mkPage (frame_number p) (policy_flags p) 0 (pack_status StAllocated usage QueueNone OwnNone) 0 0 0 None.
Definition released (zeroed : bool) (p : Page) : Page :=
  with_status (pack_status (if zeroed then StZero else StFree) UseNone QueueNone OwnNone) (with_flags 0 p).

Lemma claimed_state usage p : page_state (claimed usage p) = Some StAllocated ∧ page_owner_kind (claimed usage p) = Some OwnNone.
Proof. destruct (status_packed (claimed usage p) StAllocated usage QueueNone OwnNone eq_refl) as (? & _ & ?). done. Qed.
Lemma claimed_wf usage p : page_wf (claimed usage p).
Proof. by exists StAllocated, usage, OwnNone. Qed.
Lemma released_state zeroed p : page_state (released zeroed p) = Some (pool_state zeroed) ∧ page_owner_kind (released zeroed p) = Some OwnNone.
Proof. destruct (status_packed (released zeroed p) (pool_state zeroed) UseNone QueueNone OwnNone eq_refl) as (? & _ & ?). done. Qed.
Lemma released_wf zeroed p : page_wf (released zeroed p).
Proof. exists (pool_state zeroed), UseNone, OwnNone. by destruct zeroed. Qed.

Lemma wf_unowned p st : page_wf p → page_state p = Some st → st ≠ StAllocated → page_owner_kind p = Some OwnNone.
Proof.
  intros (st' & u & o & Hs & _ & Ho & _ & _) Hst Hne. destruct (status_packed _ _ _ _ _ Hs) as (E & _ & ->). rewrite E in Hst. simplify_eq.
  by rewrite Ho.
Qed.
(** Entries without an owner count for no owner. *)
Lemma unowned_counts p : page_owner_kind p = Some OwnNone →
  is_owned p = false ∧ is_anon p = false ∧ is_file p = false ∧ is_exec p = false.
Proof. unfold is_owned, is_anon, is_file, is_exec. intros ->. done. Qed.
Lemma in_state_spec p st st' : page_state p = Some st → in_state st' p = bool_decide (st = st').
Proof. unfold in_state. intros ->. apply bool_decide_ext. naive_solver. Qed.

Lemma not_linked h s zero pfn : phys_core (hold zero pfn h) s → is_linked s pfn = false.
Proof.
  intros Hi. pose proof (core_nodup _ _ Hi) as Hnd. unfold is_linked. apply bool_decide_false. intros Hin.
  assert (((pool false s ++ hold zero pfn h false) ++ pool true s ++ hold zero pfn h true) ≡ₚ
          pfn :: (pool false s ++ h false) ++ pool true s ++ h true) as Hperm by (unfold hold; destruct zero; simpl; solve_Permutation).
  rewrite Hperm in Hnd. apply NoDup_cons in Hnd as [Hnot _]. apply Hnot. unfold pool, list_of. set_solver.
Qed.

Lemma update_page_spec pfn f p s o Q : entry s pfn = Some p → Q () (set_entry pfn (f p) s) o → wp (update_page pfn f) Q s o.
Proof. intros Hp HQ. unfold update_page. apply wp_bind. eapply wp_get_page; [done|]. by apply wp_modify. Qed.
Lemma state_of_spec pfn p st s o Q : entry s pfn = Some p → page_state p = Some st → Q st s o → wp (state_of pfn) Q s o.
Proof. intros Hp Hst HQ. unfold state_of. apply wp_bind. eapply wp_get_page; [done|]. by eapply wp_expect. Qed.

Lemma prepare_allocation_spec h s zero pfn p usage o :
  phys_core (hold zero pfn h) s → entry s pfn = Some p →
  wp (prepare_allocation pfn usage) (λ _ s' o', o' = o ∧ s' = set_entry pfn (claimed usage p) s ∧ phys_core h s') s o.
Proof.
  intros Hi Hp. destruct (held_entry _ _ _ _ Hi) as (q & Hq & Hst). simplify_eq. unfold prepare_allocation. apply wp_bind.
  eapply state_of_spec; [done|done|]. apply wp_bind, wp_massert; [apply bool_decide_true; destruct zero; auto|]. apply wp_bind, wp_get.
  apply wp_bind, wp_massert; [by rewrite (not_linked _ _ _ _ Hi)|]. eapply update_page_spec; [done|]. split_and!; [done|done|].
  eapply core_set_allocated; [done|done|apply (core_number _ _ Hi _ _ Hp)|apply claimed_wf|apply claimed_state].
Qed.

(** What makes a frame releasable. *)
Definition releasable (p : Page) : Prop :=
  page_state p = Some StAllocated ∧ page_owner_kind p = Some OwnNone ∧ wire_count p = 0 ∧ loan_count p = 0 ∧ map_count p = 0.
Lemma prepare_free_spec h s zeroed pfn p o :
  phys_core h s → entry s pfn = Some p → releasable p → (zeroed = true → memory s pfn = zero_frame) →
  wp (prepare_free pfn zeroed) (λ _ s' o', o' = o ∧ s' = set_entry pfn (released zeroed p) s ∧ phys_core (hold zeroed pfn h) s') s o.
Proof.
  intros Hi Hp (Hst & Hk & Hw & Hl & Hm) Hz. unfold prepare_free. apply wp_bind. eapply state_of_spec; [done|done|].
  apply wp_bind, wp_massert; [done|]. apply wp_bind. unfold owner_kind_of. apply wp_bind. eapply wp_get_page; [done|].
  eapply wp_expect; [done|]. apply wp_bind, wp_massert; [done|]. apply wp_bind. eapply wp_get_page; [done|].
  rewrite Hw, Hl, Hm. do 3 (apply wp_bind, wp_massert; [done|]). apply wp_bind, wp_get. apply wp_bind, wp_massert.
  { apply negb_true_iff. unfold is_linked. apply bool_decide_false. rewrite elem_of_app. intros Hin.
    assert (∃ z, pfn ∈ pool z s ++ h z) as [z Hz'].
    { destruct Hin; [exists false|exists true]; unfold pool, list_of; set_solver. }
    apply (core_pool _ _ Hi) in Hz' as (q & Hq & Hst'). rewrite Hp in Hq. injection Hq as <-. rewrite Hst in Hst'. by destruct z. }
  eapply update_page_spec; [done|]. split_and!; [done|done|].
  eapply core_set_freed; [done|done|done|apply (core_number _ _ Hi _ _ Hp)|apply released_wf|apply released_state|done].
Qed.

(** ** Allocation *)

(** [pfn] was free and is allocated; every other frame keeps its entry and its
    bytes. *)
Definition allocated (usage : PageUse) (s s' : Phys) (pfn : Z) : Prop :=
  (∃ p, entry s pfn = Some p ∧ (page_state p = Some StFree ∨ page_state p = Some StZero) ∧ entry s' pfn = Some (claimed usage p)) ∧
  (∀ q, q ≠ pfn → entry s' q = entry s q ∧ memory s' q = memory s q).

(** The counters after one frame changed its state. *)
Lemma counts_claim s pfn p zero usage :
  counts_ok s → phys_core (hold zero pfn nobody) s → entry s pfn = Some p →
  counts_ok (set_entry pfn (claimed usage p)
    (with_usage (wrap64 (used_pages s + 1)) (wrap64 (free_pages s - 1))
       (if zero then wrap64 (zero_pages s - 1) else zero_pages s) s)).
Proof.
  intros [] Hi Hp. destruct (held_entry _ _ _ _ Hi) as (q & Hq & Hst). simplify_eq.
  destruct (core_number _ _ Hi _ _ Hp) as (_ & Hwf & _).
  assert (page_owner_kind p = Some OwnNone) as Hk by (by eapply wf_unowned; [done|done|destruct zero]).
  destruct (claimed_state usage p) as [Hst' Hk'].
  destruct (unowned_counts _ Hk) as (E1 & E2 & E3 & E4), (unowned_counts _ Hk') as (F1 & F2 & F3 & F4).
  set (s1 := with_usage _ _ _ s). assert (entry s1 pfn = Some p) as Hp1 by done.
  assert (length (pagedb (set_entry pfn (claimed usage p) s1)) = length (pagedb s)) as Hl.
  { destruct (set_entry_form s1 pfn (claimed usage p)) as (db & -> & E). simpl. by rewrite E. }
  pose proof (counts_bound _ _ (in_state StAllocated) Hi). pose proof (counts_bound _ _ (in_state StZero) Hi).
  pose proof (counts_bound _ _ (in_state StFree) Hi). pose proof (counts_positive s pfn p (in_state (pool_state zero)) Hp) as Hpos.
  rewrite (in_state_spec _ _ _ Hst), bool_decide_true in Hpos by done. specialize (Hpos eq_refl).
  assert (∀ f, countb f (pagedb s1) = countb f (pagedb s)) as Es by done.
  split; rewrite ?Hl, ?(countb_set _ s1 pfn p) by done; rewrite ?Es, ?(in_state_spec _ _ _ Hst), ?(in_state_spec _ _ _ Hst');
    rewrite ?E1, ?E2, ?E3, ?E4, ?F1, ?F2, ?F3, ?F4; unfold set_entry; destruct (seg_lookup (segments s1) pfn); simpl;
    destruct zero; simpl in *; rewrite ?wrap64_count by lia; try lia.
Qed.

Lemma alloc_page_spec usage fl c s o :
  phys_inv s → (cpu c < MAX_PAGE_CPUS)%nat → dynamic_use usage = true →
  let reserve := is_kernel c || has_flag fl USERESERVE in
  wp (alloc_page usage fl c) (λ r s' o', o' = o ∧ phys_inv s' ∧ segments s' = segments s ∧
     match r with
     | Some pfn => allocated usage s s' pfn ∧ (has_flag fl ZERO = true → memory s' pfn = zero_frame)
     | None => s' = s ∧ access (nfree s) (cpus c) reserve (is_page_daemon c) = Denied ∧
         ∀ id, (id < MAX_PAGE_CPUS)%nat → cache_empty id s
     end) s o.
Proof.
  intros [Hi Hc] Hcpu Hu reserve. unfold alloc_page. wp_step. wp_step. rewrite (core_ready _ _ Hi). simpl. apply wp_bind, wp_massert; [done|].
  set (fl' := if is_kernel c then Z.lor fl USERESERVE else fl).
  assert (has_flag fl' USERESERVE = reserve) as Er.
  { unfold fl', reserve, has_flag. destruct (is_kernel c); [|done]. simpl. apply negb_true_iff, Z.eqb_neq. intros E.
    apply (f_equal (λ x, Z.testbit x 1)) in E. rewrite Z.land_spec, Z.lor_spec in E. simpl in E. by rewrite orb_true_r in E. }
  assert (has_flag fl' ZERO = has_flag fl ZERO) as Ez.
  { unfold fl', has_flag. destruct (is_kernel c); [|done]. f_equal. f_equal. apply Z.bits_inj'. intros i Hi'.
    rewrite !Z.land_spec, Z.lor_spec. unfold USERESERVE, ZERO. destruct (decide (i = 0)) as [->|]; [by rewrite orb_false_r|].
    replace (Z.testbit 1 i) with false; [by rewrite !andb_false_r|]. symmetry. change 1 with (2 ^ 0). by apply Z.pow2_bits_false. }
  rewrite Ez. apply wp_bind. eapply wp_mono; [by apply take_page_spec|]. rewrite Er. intros [[pfn was_zero]|] s1 o1 (-> & Hm & Hr).
  - destruct (held_entry _ _ _ _ Hr) as (p & Hp & Hst). apply wp_bind, wp_modify. apply wp_bind.
    set (s2 := with_usage _ _ _ s1). assert (phys_core (hold was_zero pfn nobody) s2) as Hr2 by (by apply core_with_usage).
    eapply wp_mono; [by eapply (prepare_allocation_spec _ s2 was_zero pfn p)|]. intros _ s3 o3 (-> & -> & Hi3).
    pose proof (counts_claim s1 pfn p was_zero usage (counts_moved _ _ Hc Hm) Hr Hp) as Hc3. fold s2 in Hc3.
    assert (∀ q, entry (set_entry pfn (claimed usage p) s2) q = if decide (q = pfn) then Some (claimed usage p) else entry s q) as He.
    { intros q. rewrite (entry_set _ s2 pfn p) by done. case_decide; [done|]. by rewrite <- (moved_entry s s1). }
    assert (∀ q, memory (set_entry pfn (claimed usage p) s2) q = memory s q) as Hmem.
    { intros q. destruct (set_entry_form s2 pfn (claimed usage p)) as (db & -> & _). by destruct Hm as (? & ? & ? & ? & ->). }
    assert (segments (set_entry pfn (claimed usage p) s2) = segments s) as Hseg.
    { destruct (set_entry_form s2 pfn (claimed usage p)) as (db & -> & _). by destruct Hm as (? & ? & ? & ? & ->). }
    set (s3 := set_entry pfn (claimed usage p) s2) in *.
    assert (allocated usage s s3 pfn) as Hall.
    { split; [|intros q Hq; by rewrite He, decide_False, Hmem]. exists p. rewrite He, decide_True by done.
      rewrite <- (moved_entry s s1) by done. split_and!; [done|by destruct was_zero; auto|done]. }
    destruct (has_flag fl ZERO && negb was_zero) eqn:Ew.
    + unfold zero_page. wp_steps. assert (phys_core nobody (write_frame pfn (zero_frame) s3)) as Hi4 by (by apply core_write).
      split_and!; [done|split; [done|by destruct Hc3]|done| |intros _; simpl; by rewrite Z.eqb_refl].
      destruct Hall as [H1 H2]. split; [exact H1|]. intros q Hq. simpl. destruct (Z.eqb_spec q pfn); [done|]. by apply H2.
    + wp_steps. split_and!; [done|done|done|done|]. intros Hz. rewrite Hz in Ew. destruct was_zero; [|done].
      rewrite Hmem. pose proof (core_zero _ _ Hr _ _ Hp Hst) as Hz1. by destruct Hm as (? & ? & ? & ? & ->).
  - destruct Hr as (-> & Ha & He). by wp_steps.
Qed.

(** ** Release *)

Definition hold_list (zero : bool) (l : list Z) (h : held) : held := λ z, if Bool.eqb z zero then l ++ h z else h z.
Lemma core_perm h h' s : phys_core h s → (∀ z, h' z ≡ₚ h z) → phys_core h' s.
Proof.
  intros Hi Hp. eapply (core_moved h _ s s); [done|apply moved_refl| |apply Hi|apply Hi|apply Hi]. intros z. by rewrite Hp.
Qed.

Lemma spill_cache_spec n id zeroed : ∀ h s o,
  phys_core h s → (id < MAX_PAGE_CPUS)%nat →
  wp (spill_cache n id zeroed) (λ l s' o', o' = o ∧ moved s s' ∧ phys_core (hold_list zeroed l h) s' ∧
     ∃ c c', caches s !! id = Some c ∧ caches s' !! id = Some c' ∧
       length (cached zeroed c') = (length (cached zeroed c) - n)%nat) s o.
Proof.
  induction n as [|n IH]; intros h s o Hi Hid.
  { simpl. wp_steps. split_and!; [done|apply moved_refl|apply (core_perm h); [done|]; intros z; unfold hold_list; by destruct (Bool.eqb _ _)|].
    destruct (lookup_lt_is_Some_2 (caches s) id) as [c Hc]; [rewrite (proj1 (core_caches _ _ Hi)); lia|]. exists c, c. split_and!; [done|done|lia]. }
  cbn [spill_cache]. apply wp_bind. eapply wp_mono; [by apply (pop_from_spec h)|]. intros [x|] s1 o1 (-> & Hm & _ & _ & Hr).
  - destruct Hr as (Hi1 & _ & c & c1 & Hc & Hc1 & Hx & _). apply wp_bind. eapply wp_mono; [by apply IH|].
    intros l s2 o2 (-> & Hm2 & Hi2 & c1' & c2 & Hc1' & Hc2 & Hlen). wp_steps. split_and!; [done|by eapply moved_trans| |].
    + eapply core_perm; [exact Hi2|]. intros z. unfold hold_list, hold. destruct (Bool.eqb z zeroed); solve_Permutation.
    + rewrite Hc1, list_lookup_insert_eq in Hc1' by (by eapply lookup_lt_Some). simplify_eq. exists c, c2. split_and!; [done|done|].
      rewrite Hlen, Hx, length_app. simpl. lia.
  - destruct Hr as [-> He]. wp_steps. split_and!; [done|done|apply (core_perm h); [done|]; intros z; unfold hold_list; by destruct (Bool.eqb _ _)|].
    destruct (lookup_lt_is_Some_2 (caches s) id) as [c Hc]; [rewrite (proj1 (core_caches _ _ Hi)); lia|]. exists c, c.
    rewrite (He _ Hc). split_and!; [done|done|done].
Qed.

Lemma return_spill_spec zeroed l : ∀ h s o,
  phys_core (hold_list zeroed l h) s →
  wp (return_spill l zeroed) (λ _ s' o', o' = o ∧ moved s s' ∧ phys_core h s') s o.
Proof.
  induction l as [|x l IH]; intros h s o Hi.
  { simpl. wp_steps. split_and!; [done|apply moved_refl|]. eapply core_perm; [exact Hi|]. intros z. unfold hold_list. by destruct (Bool.eqb _ _). }
  cbn [return_spill]. apply wp_bind, wp_modify, wp_bind, wp_get, wp_bind.
  assert (phys_core (hold zeroed x (hold_list zeroed l h)) s) as Hi'.
  { eapply core_perm; [exact Hi|]. intros z. unfold hold_list, hold. by destruct (Bool.eqb z zeroed). }
  destruct (held_entry _ _ _ _ Hi') as (p & Hp & _). eapply wp_expect; [exact (entry_index (add_nfree 1 s) x p Hp)|]. apply wp_bind, wp_modify.
  eapply wp_mono; [apply IH, core_push_list, Hi'|]. intros _ s' o' (-> & Hm & Hi2). split_and!; [done| |done].
  eapply moved_trans; [apply push_list_moved|exact Hm].
Qed.

Lemma counts_release s pfn p (zeroed : bool) :
  phys_inv s → entry s pfn = Some p → releasable p →
  counts_ok (with_usage (wrap64 (used_pages s - 1)) (wrap64 (free_pages s + 1))
    (if zeroed then wrap64 (zero_pages s + 1) else zero_pages s) (set_entry pfn (released zeroed p) s)).
Proof.
  intros [Hi []] Hp (Hst & Hk & _). destruct (released_state zeroed p) as [Hst' Hk'].
  destruct (unowned_counts _ Hk) as (E1 & E2 & E3 & E4), (unowned_counts _ Hk') as (F1 & F2 & F3 & F4).
  assert (length (pagedb (set_entry pfn (released zeroed p) s)) = length (pagedb s)) as Hl.
  { destruct (set_entry_form s pfn (released zeroed p)) as (db & -> & E). done. }
  pose proof (counts_bound _ _ (in_state StAllocated) Hi). pose proof (counts_bound _ _ (in_state StZero) Hi).
  pose proof (counts_bound _ _ (in_state StFree) Hi). pose proof (counts_positive s pfn p (in_state StAllocated) Hp) as Hpos.
  rewrite (in_state_spec _ _ _ Hst), bool_decide_true in Hpos by done. specialize (Hpos eq_refl).
  split; cbn [with_usage pagedb total_pages used_pages free_pages zero_pages managed_pages anon_pages file_pages exec_pages];
    rewrite ?Hl, ?(countb_set _ s pfn p) by done; rewrite ?(in_state_spec _ _ _ Hst), ?(in_state_spec _ _ _ Hst');
    rewrite ?E1, ?E2, ?E3, ?E4, ?F1, ?F2, ?F3, ?F4; unfold set_entry; destruct (seg_lookup (segments s) pfn); simpl;
    destruct zeroed; simpl in *; rewrite ?wrap64_count by lia; try lia.
Qed.

Lemma free_page_inner_spec pfn p (zeroed : bool) c s o :
  phys_inv s → (cpu c < MAX_PAGE_CPUS)%nat → entry s pfn = Some p → releasable p → (zeroed = true → memory s pfn = zero_frame) →
  wp (free_page_inner pfn zeroed c) (λ _ s' o', o' = o ∧ phys_inv s' ∧ segments s' = segments s ∧ memory s' = memory s ∧
     ∀ q, entry s' q = if decide (q = pfn) then Some (released zeroed p) else entry s q) s o.
Proof.
  intros Hinv Hcpu Hp Hrel Hz. pose proof Hinv as [Hi Hc]. unfold free_page_inner. apply wp_bind.
  eapply wp_mono; [by eapply (prepare_free_spec nobody)|]. intros _ s1 o1 (-> & -> & Hi1). apply wp_bind, wp_modify.
  pose proof (counts_release s pfn p zeroed Hinv Hp Hrel) as Hc2.
  apply (core_with_usage _ (wrap64 (used_pages s - 1)) (wrap64 (free_pages s + 1)) (if zeroed then wrap64 (zero_pages s + 1) else zero_pages s)) in Hi1.
  assert (∀ A (f : Phys → A) u fr z, (∀ db, f (with_pagedb db s) = f s) → (∀ s, f (with_usage u fr z s) = f s) →
    f (with_usage u fr z (set_entry pfn (released zeroed p) s)) = f s) as Hkeep.
  { intros A f u fr z Hdb Hus. rewrite Hus. destruct (set_entry_form s pfn (released zeroed p)) as (db & -> & _). apply Hdb. }
  match goal with |- wp _ _ ?x _ => replace x with (with_usage (wrap64 (used_pages s - 1)) (wrap64 (free_pages s + 1))
    (if zeroed then wrap64 (zero_pages s + 1) else zero_pages s) (set_entry pfn (released zeroed p) s)) end; cycle 1.
  { destruct (set_entry_form s pfn (released zeroed p)) as (db & -> & _). done. }
  set (s2 := with_usage _ _ _ _) in *.
  assert (∀ q, entry s2 q = if decide (q = pfn) then Some (released zeroed p) else entry s q) as He by (intros q; by apply (entry_set _ s pfn p _ _ Hi)).
  assert (segments s2 = segments s ∧ memory s2 = memory s) as [Hseg Hmem].
  { split; [exact (Hkeep _ segments _ _ _ (λ _, eq_refl) (λ _, eq_refl))|exact (Hkeep _ memory _ _ _ (λ _, eq_refl) (λ _, eq_refl))]. }
  assert (∀ s', moved s2 s' → phys_core nobody s' → o = o ∧ phys_inv s' ∧ segments s' = segments s ∧ memory s' = memory s ∧
     ∀ q, entry s' q = if decide (q = pfn) then Some (released zeroed p) else entry s q) as Hdone.
  { intros s' Hm Hi'. split_and!; [done|split; [done|by eapply counts_moved]| | |].
    - by destruct Hm as (? & ? & ? & ? & ->).
    - by destruct Hm as (? & ? & ? & ? & ->).
    - intros q. rewrite <- He. by apply moved_entry. }
  unfold cache_id. apply wp_bind, wp_bind, wp_massert; [by apply Nat.ltb_lt|]. wp_step. apply wp_bind.
  eapply wp_get_page; [rewrite He, decide_True by done; done|].
  assert (frame_number (released zeroed p) = pfn) as -> by apply (core_number _ _ Hi _ _ Hp). apply wp_bind.
  eapply wp_mono; [by apply (push_to_spec nobody)|]. intros [] s3 o3 (-> & Hm3 & _ & _ & Hr).
  { wp_steps. destruct Hr. by apply Hdone. }
  destruct Hr as (-> & c0 & Hc0 & Hfull). apply wp_bind. eapply wp_mono; [by apply spill_cache_spec|].
  intros l s4 o4 (-> & Hm4 & Hi4 & c1 & c2 & Hc1 & Hc2' & Hlen). simplify_eq. apply wp_bind.
  eapply wp_mono; [apply (push_to_spec (hold_list zeroed l nobody)); [|done]|].
  { eapply core_perm; [exact Hi4|]. intros z. unfold hold_list, hold, nobody. destruct (Bool.eqb z zeroed); solve_Permutation. }
  intros [] s5 o5 (-> & Hm5 & _ & _ & Hr); cycle 1.
  { exfalso. destruct Hr as (-> & c3 & Hc3 & Hf3). simplify_eq. rewrite Hlen, Hfull in Hf3. done. }
  apply wp_bind, wp_massert; [done|]. destruct Hr as [Hi5 _]. eapply wp_mono; [by apply return_spill_spec|].
  intros _ s6 o6 (-> & Hm6 & Hi6). apply Hdone; [|done]. eapply moved_trans; [exact Hm4|]. by eapply moved_trans.
Qed.
