(* ===== verification/PhysRuns.v ===== *)
(** Contiguous runs, the draining of the caches, and the clearing of free
    frames. *)
From S2P Require Import Prelude.
From S2P Require Import Bytes.
From S2P Require Import Phys.
From S2P Require Import PhysInv.
From S2P Require Import PhysOps.
Open Scope rust_scope.

(** ** Draining the caches *)

Lemma drain_cache_spec h id fuel : ∀ s o,
  phys_core h s → (id < MAX_PAGE_CPUS)%nat →
  (∀ c, caches s !! id = Some c → length (cached false c) + length (cached true c) < fuel)%nat →
  wp (drain_cache fuel id) (λ _ s' o', o' = o ∧ moved s s' ∧ phys_core h s' ∧ cache_empty id s' ∧
     ∀ j, j ≠ id → caches s' !! j = caches s !! j) s o.
Proof.
  induction fuel as [|fuel IH]; intros s o Hi Hid Hf.
  { destruct (lookup_lt_is_Some_2 (caches s) id) as [c Hc]; [rewrite (proj1 (core_caches _ _ Hi)); lia|]. specialize (Hf c Hc). lia. }
  assert (∀ s1 x z c c1, moved s s1 → phys_core (hold z x h) s1 → caches s !! id = Some c → caches s1 = <[id:=c1]> (caches s) →
    cached z c = cached z c1 ++ [x] → cached (negb z) c1 = cached (negb z) c →
    wp (let* s := get in
        match page_by_index s x with
        | None => drain_cache fuel id
        | Some page => do modify (add_nfree 1) then do modify (push_list false z page) then drain_cache fuel id
        end) (λ _ s' o', o' = o ∧ moved s s' ∧ phys_core h s' ∧ cache_empty id s' ∧ ∀ j, j ≠ id → caches s' !! j = caches s !! j) s1 o) as Hgo.
  { intros s1 x z c c1 Hm Hi1 Hc Hcs Hx Hn. destruct (held_entry _ _ _ _ Hi1) as (p & Hp & _). wp_steps.
    rewrite (entry_index _ _ _ Hp). wp_steps. set (s2 := push_list false z x (add_nfree 1 s1)).
    assert (caches s2 = caches s1) as Ec by (unfold s2; by destruct z).
    assert (id < length (caches s))%nat by (by eapply lookup_lt_Some).
    eapply wp_mono; [apply IH; [by apply core_push_list|done|]|].
    - intros c2. rewrite Ec, Hcs, list_lookup_insert_eq by done. intros [= <-]. specialize (Hf c Hc).
      apply (f_equal length) in Hx. rewrite length_app in Hx. apply (f_equal length) in Hn. simpl in Hx. destruct z; simpl in *; lia.
    - intros _ s3 o3 (-> & Hm3 & Hi3 & He & Hj). split_and!; [done| |done|done|].
      + eapply moved_trans; [exact Hm|]. eapply moved_trans; [apply push_list_moved|exact Hm3].
      + intros j Hne. rewrite Hj by done. by rewrite Ec, Hcs, list_lookup_insert_ne. }
  cbn [drain_cache]. apply wp_bind. eapply wp_mono; [by apply (pop_from_spec h)|]. intros [x|] s1 o1 (-> & Hm & _ & _ & Hr).
  - destruct Hr as (Hi1 & _ & c & c1 & Hc & Hcs & Hx & Hn). wp_step. wp_step. by eapply Hgo.
  - destruct Hr as [-> He1]. apply wp_bind, wp_bind. eapply wp_mono; [by apply (pop_from_spec h)|].
    intros [x|] s2 o2 (-> & Hm2 & _ & _ & Hr).
    + destruct Hr as (Hi1 & _ & c & c1 & Hc & Hcs & Hx & Hn). apply wp_ret. by eapply Hgo.
    + destruct Hr as [-> He2]. apply wp_ret. wp_steps. split_and!; try done. intros c [] Hc; auto.
Qed.

Lemma cached_length h s id c : phys_core h s → caches s !! id = Some c → (length (cached false c) + length (cached true c) ≤ 32)%nat.
Proof.
  intros Hi Hc. destruct (core_caches _ _ Hi) as [_ Hall]. pose proof (Forall_lookup_1 _ _ _ _ Hall Hc) as Hok.
  pose proof (Hok false) as [_ H1]. pose proof (Hok true) as [_ H2]. unfold cached, PAGE_CACHE_CAPACITY in *.
  destruct (cache_slots false c), (cache_slots true c). simpl in *. rewrite !length_take. lia.
Qed.
Lemma drain_caches_spec h ids : ∀ s o,
  phys_core h s → Forall (λ id, id < MAX_PAGE_CPUS)%nat ids → NoDup ids →
  wp (drain_caches ids) (λ _ s' o', o' = o ∧ moved s s' ∧ phys_core h s' ∧ (∀ id, id ∈ ids → cache_empty id s') ∧
     ∀ j, j ∉ ids → caches s' !! j = caches s !! j) s o.
Proof.
  induction ids as [|id ids IH]; intros s o Hi Hids Hnd.
  { simpl. wp_steps. split_and!; [done|apply moved_refl|done| |done]. intros id Hin. by apply not_elem_of_nil in Hin. }
  apply Forall_cons in Hids as [Hid Hids]. apply NoDup_cons in Hnd as [Hnot Hnd]. cbn [drain_caches]. apply wp_bind.
  eapply wp_mono; [apply (drain_cache_spec h); [done|done|]|].
  { intros c Hc. pose proof (cached_length _ _ _ _ Hi Hc). unfold PAGE_CACHE_CAPACITY. lia. }
  intros _ s1 o1 (-> & Hm & Hi1 & He & Hj). eapply wp_mono; [by apply IH|]. intros _ s2 o2 (-> & Hm2 & Hi2 & He2 & Hj2).
  split_and!; [done|by eapply moved_trans|done| |].
  - intros id' Hin. apply elem_of_cons in Hin as [->|Hin]; [|by apply He2]. intros c z Hc. rewrite Hj2 in Hc by done. by eapply He.
  - intros j Hnotin. apply not_elem_of_cons in Hnotin as [Hne Hnotin]. by rewrite Hj2, Hj.
Qed.
Lemma drain_page_caches_spec h s o :
  phys_core h s →
  wp drain_page_caches (λ _ s' o', o' = o ∧ moved s s' ∧ phys_core h s' ∧ ∀ id, (id < MAX_PAGE_CPUS)%nat → cache_empty id s') s o.
Proof.
  intros Hi. unfold drain_page_caches. eapply wp_mono; [apply (drain_caches_spec h); [done| |apply NoDup_seq]|].
  - apply Forall_forall. intros id Hin. apply elem_of_seq in Hin. lia.
  - intros _ s' o' (-> & Hm & Hi' & He & _). split_and!; try done. intros id Hid. apply He, elem_of_seq. lia.
Qed.
(** With the caches empty, the free frames are in the lists. *)
Lemma drained_pool h s z : phys_core h s → (∀ id, (id < MAX_PAGE_CPUS)%nat → cache_empty id s) → pool z s = list_of z s.
Proof.
  intros Hi He. unfold pool. assert (concat (cached z <$> caches s) = []) as ->; [|by rewrite app_nil_r].
  assert (∀ c, c ∈ caches s → cached z c = []) as Hc.
  { intros c Hin. apply list_elem_of_lookup in Hin as [i Hi']. eapply (He i); [|exact Hi'].
    apply lookup_lt_Some in Hi'. by rewrite (proj1 (core_caches _ _ Hi)) in Hi'. }
  clear -Hc. induction (caches s) as [|c cs IH]; [done|]. simpl. rewrite (Hc c) by left. apply IH. intros d Hd. apply Hc. by right.
Qed.

(** ** Searching for a run *)

Definition listed (s : Phys) (pfn : Z) : Prop := pfn ∈ free_list s ++ zero_list s.
#[export] Instance listed_dec s pfn : Decision (listed s pfn).
Proof. unfold listed. apply _. Defined.

Lemma listed_entry h s pfn : phys_core h s → listed s pfn →
  ∃ p z, entry s pfn = Some p ∧ page_state p = Some (pool_state z) ∧ pfn ∈ list_of z s.
Proof.
  intros Hi Hl. assert (∃ z, pfn ∈ list_of z s) as [z Hz].
  { unfold listed in Hl. apply elem_of_app in Hl as [?|?]; [by exists false|by exists true]. }
  destruct (proj1 (core_pool _ _ Hi z pfn)) as (p & Hp & Hst); [unfold pool; set_solver|]. by exists p, z.
Qed.

Lemma run_from_spec h s count : ∀ index o,
  phys_core h s →
  wp (run_from count index) (λ n s' o', o' = o ∧ s' = s ∧ (n ≤ count)%nat ∧ (∀ i, 0 ≤ i < Z.of_nat n → listed s (index + i)) ∧
     ((n < count)%nat → ¬ listed s (index + Z.of_nat n))) s o.
Proof.
  induction count as [|count IH]; intros index o Hi; cbn [run_from].
  { wp_steps. split_and!; try done; lia. }
  wp_steps. destruct (page_by_index s index) as [page|] eqn:E; cycle 1.
  { wp_steps. split_and!; try done; [lia|lia|]. intros _ Hl. rewrite Z.add_0_r in Hl.
    destruct (listed_entry _ _ _ Hi Hl) as (p & z & Hp & _). by rewrite (entry_index _ _ _ Hp) in E. }
  assert (page = index) as -> by (unfold page_by_index in E; by destruct (seg_lookup _ _); simplify_eq).
  destruct (entry s index) as [p|] eqn:Hp; cycle 1.
  { exfalso. unfold entry, page_by_index in *. destruct (seg_lookup (segments s) index) as [i|] eqn:Ei; [|done].
    rewrite (seg_lookup_find _ _ _ _ _ (core_segs _ _ Hi)) in Ei. destruct (find_slice_spec _ _ _ _ _ _ (core_segs _ _ Hi) Ei).
    apply lookup_ge_None in Hp. lia. }
  destruct (core_number _ _ Hi _ _ Hp) as (_ & Hwf & _). destruct (page_wf_state _ Hwf) as (st & Hst & _).
  unfold is_linked_free. apply wp_bind, wp_bind. eapply state_of_spec; [done|done|]. wp_step. wp_step. wp_step.
  assert ((bool_decide (st = StFree ∨ st = StZero) && is_linked s index) = bool_decide (listed s index)) as ->.
  { change (is_linked s index) with (bool_decide (listed s index)). case_bool_decide as Hf; [done|].
    destruct (bool_decide_reflect (listed s index)) as [Hl|]; [|done]. exfalso. apply Hf.
    destruct (listed_entry _ _ _ Hi Hl) as (p' & z & Hp' & Hst' & _). simplify_eq. destruct z; auto. }
  case_bool_decide as Hl.
  - apply wp_bind. eapply wp_mono; [by apply IH|]. intros n s' o' (-> & -> & Hn & Hin & Hnot). wp_steps. split_and!; [done|done|lia| |].
    + intros i Hir. destruct (decide (i = 0)) as [->|]; [by rewrite Z.add_0_r|]. replace (index + i) with (index + 1 + (i - 1)) by lia. apply Hin. lia.
    + intros Hlt. replace (index + Z.of_nat (S n)) with (index + 1 + Z.of_nat n) by lia. apply Hnot. lia.
  - wp_steps. split_and!; [done|done|lia|lia|]. intros _. by rewrite Z.add_0_r.
Qed.

Lemma align_index_spec x a : 0 < a → x ≤ align_index x a < x + a ∧ (a | align_index x a) ∧ ∀ y, x ≤ y → (a | y) → align_index x a ≤ y.
Proof.
  intros Ha. unfold align_index. pose proof (Z.mod_pos_bound x a Ha) as Hm. pose proof (Z.div_mod x a ltac:(lia)) as Hd.
  destruct (Z.eqb_spec (x mod a) 0) as [E|E].
  - split_and!; [lia|lia|by apply Z.mod_divide; lia|done].
  - split_and!; [lia|lia| |].
    + exists (x / a + 1). lia.
    + intros y Hy [k ->]. assert (x / a < k) by nia. nia.
Qed.

(** The search finds the first run, and none only if there is none. *)
Lemma find_run_spec h s count align entries (Hc : (0 < count)%nat) (Ha : 0 < align) fuel : ∀ start o,
  phys_core h s → 0 ≤ start → (align | start) → entries - start < Z.of_nat fuel → (0 < fuel)%nat →
  wp (find_run fuel start count align entries) (λ r s' o', o' = o ∧ s' = s ∧
     match r with
     | Some b => start ≤ b ∧ (align | b) ∧ b + Z.of_nat count ≤ entries ∧ ∀ i, 0 ≤ i < Z.of_nat count → listed s (b + i)
     | None => ∀ b, start ≤ b → (align | b) → b + Z.of_nat count ≤ entries → ∃ i, 0 ≤ i < Z.of_nat count ∧ ¬ listed s (b + i)
     end) s o.
Proof.
  induction fuel as [|fuel IH]; intros start o Hi Hpos Hst Hfuel H0; [lia|]. cbn [find_run].
  destruct (Z.leb_spec (start + Z.of_nat count) entries) as [Hfit|Hno]; cycle 1.
  { wp_steps. split_and!; try done. intros b Hb _ Hbe. lia. }
  assert (∀ x, listed s x → is_Some (find_slice (segments s) x)) as Hseg.
  { intros x Hx. destruct (listed_entry _ _ _ Hi Hx) as (p & _ & Hp & _). unfold entry in Hp.
    rewrite (seg_lookup_find _ _ _ _ _ (core_segs _ _ Hi)) in Hp. destruct (find_slice (segments s) x); [by eexists|done]. }
  wp_steps. pose proof (seg_next_spec _ _ _ _ start (core_segs _ _ Hi)) as Hnext.
  destruct (seg_next (segments s) start) as [next|]; cycle 1.
  { wp_steps. split_and!; try done. intros b Hb _ _. exists 0. split; [lia|]. rewrite Z.add_0_r. intros Hl.
    apply Hseg in Hl. rewrite Hnext in Hl by done. by destruct Hl. }
  destruct Hnext as (Hge & _ & Hhole). destruct (align_index_spec next align Ha) as (Hal & Hdiv & Hleast).
  assert (∀ b, start ≤ b → (align | b) → b < align_index next align → ¬ listed s b) as Hskip.
  { intros b Hb Hbd Hlt Hl. destruct (decide (next ≤ b)) as [Hle|]; [specialize (Hleast b Hle Hbd); lia|].
    apply Hseg in Hl. rewrite Hhole in Hl by lia. by destruct Hl. }
  set (start1 := align_index next align) in *. destruct (Z.ltb_spec entries (start1 + Z.of_nat count)).
  { wp_steps. split_and!; try done. intros b Hb Hbd Hbe. exists 0. split; [lia|]. rewrite Z.add_0_r. apply Hskip; [done|done|lia]. }
  apply wp_bind. eapply wp_mono; [by apply (run_from_spec h)|]. intros run s' o' (-> & -> & Hrun & Hin & Hnot).
  destruct (Nat.eqb_spec run count) as [->|Hne].
  { wp_steps. split_and!; try done. lia. }
  destruct (align_index_spec (start1 + Z.of_nat run + 1) align Ha) as (Hal2 & Hdiv2 & Hleast2).
  eapply wp_mono; [apply IH; [done|lia|done|lia|lia]|]. intros r s' o' (-> & -> & Hr). split_and!; [done|done|]. destruct r as [b|].
  - destruct Hr as (? & ? & ? & ?). split_and!; try done. lia.
  - intros b Hb Hbd Hbe. destruct (decide (b < start1)) as [Hlt|]; [exists 0; split; [lia|rewrite Z.add_0_r; by apply Hskip]|].
    destruct (decide (b ≤ start1 + Z.of_nat run)) as [Hle|]; [|apply Hr; [apply Hleast2; [lia|done]|done|done]].
    exists (start1 + Z.of_nat run - b). split; [lia|]. replace (b + (start1 + Z.of_nat run - b)) with (start1 + Z.of_nat run) by lia.
    apply Hnot. lia.
Qed.

(** ** Taking a run *)

(** The state with the count of listed frames that its lists have. *)
Definition renum (s : Phys) : Phys :=
  with_lists (free_list s) (zero_list s) (Z.of_nat (length (free_list s) + length (zero_list s))) s.
Definition zero_at (s : Phys) (pfn : Z) : bool :=
  match entry s pfn with Some p => in_state StZero p | None => false end.
(** The frames of a run, held by their states. *)
Fixpoint run_held (s : Phys) (count : nat) (b : Z) (h : held) : held :=
  match count with O => h | S count => run_held s count (b + 1) (hold (zero_at s b) b h) end.
Fixpoint run_zeros (s : Phys) (count : nat) (b : Z) : nat :=
  match count with O => 0 | S count => (if zero_at s b then 1 else 0) + run_zeros s count (b + 1) end%nat.

Lemma run_held_hold s count : ∀ b h z x z', run_held s count b (hold z x h) z' ≡ₚ hold z x (run_held s count b h) z'.
Proof.
  assert (∀ count b h h', (∀ z, h z ≡ₚ h' z) → ∀ z, run_held s count b h z ≡ₚ run_held s count b h' z) as Hmono.
  { clear. induction count as [|count IH]; intros b h h' Hh z; [by apply Hh|]. simpl. apply IH. intros z'. unfold hold.
    destruct (Bool.eqb z' _); by rewrite Hh. }
  induction count as [|count IH]; intros b h z x z'; [done|]. simpl. rewrite <- IH. apply Hmono. intros z1. unfold hold.
  destruct (Bool.eqb z1 z), (Bool.eqb z1 _); solve_Permutation.
Qed.
Lemma zero_at_moved s s' pfn : moved s s' → zero_at s' pfn = zero_at s pfn.
Proof. intros Hm. unfold zero_at. by rewrite (moved_entry _ _ _ Hm). Qed.
Lemma renum_moved s : moved s (renum s).
Proof. exists (free_list s), (zero_list s), (Z.of_nat (length (free_list s) + length (zero_list s))), (caches s). by destruct s. Qed.

Lemma moved_sym s s' : moved s s' → moved s' s.
Proof. intros (f & z & n & cs & ->). exists (free_list s), (zero_list s), (nfree s), (caches s). by destruct s. Qed.

Lemma filter_perm (x : Z) (l : list Z) : NoDup l → x ∈ l → l ≡ₚ x :: filter (λ y, y ≠ x) l.
Proof.
  induction l as [|y l IH]; intros Hnd Hin; [by apply not_elem_of_nil in Hin|]. apply NoDup_cons in Hnd as [Hnot Hnd].
  apply elem_of_cons in Hin as [<-|Hin].
  - rewrite filter_cons_False by (intros Hx; by apply Hx). f_equiv. clear IH Hnd. induction l as [|z l IH]; [done|].
    apply not_elem_of_cons in Hnot as [Hne Hnot]. rewrite filter_cons_True by done. f_equiv. by apply IH.
  - rewrite filter_cons_True by (by intros ->). rewrite (IH Hnd Hin) at 1. solve_Permutation.
Qed.

Lemma unlink_run_spec count : ∀ h s b o,
  phys_core h (renum s) → (∀ i, 0 ≤ i < Z.of_nat count → listed s (b + i)) →
  wp (unlink_run count b) (λ n s' o', o' = o ∧ moved s s' ∧ nfree s' = nfree s ∧ n = run_zeros s count b ∧
     phys_core (run_held s count b h) (renum s') ∧
     (length (free_list s') + length (zero_list s') + count = length (free_list s) + length (zero_list s))%nat) s o.
Proof.
  induction count as [|count IH]; intros h s b o Hi Hl; cbn [unlink_run].
  { wp_steps. split_and!; first [done|lia|apply moved_refl]. }
  specialize (Hl 0 ltac:(lia)) as Hb. rewrite Z.add_0_r in Hb.
  destruct (listed_entry _ (renum s) _ Hi Hb) as (p & z & Hp & Hst & Hin).
  assert (entry s b = Some p) as Hp' by done. assert (zero_at s b = z) as Ez.
  { unfold zero_at. rewrite Hp', (in_state_spec _ _ _ Hst). by destruct z. }
  assert (NoDup (list_of z s)) as Hnd.
  { pose proof (core_nodup _ _ Hi) as Hnd. unfold pool in Hnd.
    rewrite !NoDup_app in Hnd. destruct z; simpl; apply Hnd || (destruct Hnd as ((( ? & _) & _) & _ & ((? & _) & _)); done). }
  apply wp_bind. eapply state_of_spec; [done|done|].
  pose proof (filter_perm b (list_of z s) Hnd Hin) as Hperm. set (s1 := set_list z (filter (λ x, x ≠ b) (list_of z s)) (nfree s) s).
  assert (∀ Q, Q () s1 o → wp (if bool_decide (pool_state z = StZero)
      then modify (λ s, with_lists (free_list s) (filter (λ x, x ≠ b) (zero_list s)) (nfree s) s)
      else modify (λ s, with_lists (filter (λ x, x ≠ b) (free_list s)) (zero_list s) (nfree s) s)) Q s o) as Hmod.
  { intros Q HQ. unfold s1 in HQ. by destruct z. }
  apply wp_bind, Hmod. assert (moved s s1) as Hm1 by apply set_list_moved. clear Hmod.
  assert (∀ x, x ≠ b → listed s x → listed s1 x) as Hlisted.
  { intros x Hx. unfold listed, s1. destruct z; simpl; rewrite !elem_of_app, list_elem_of_filter; naive_solver. }
  revert Hperm s1 Hm1 Hlisted. generalize (filter (λ x, x ≠ b) (list_of z s)). intros F Hperm s1 Hm1 Hlisted.
  pose proof (Permutation_length Hperm) as Hlen. simpl in Hlen.
  assert (length (free_list s1) + length (zero_list s1) + 1 = length (free_list s) + length (zero_list s))%nat as Hlen1.
  { unfold s1. destruct z; simpl in *; lia. }
  assert (phys_core (hold z b h) (renum s1)) as Hi1.
  { eapply (core_moved h (hold z b h) (renum s)); [done| | | | |done].
    - eapply moved_trans; [apply moved_sym, renum_moved|]. eapply moved_trans; [exact Hm1|apply renum_moved].
    - intros z'. change (pool z' (renum s1)) with (pool z' s1). unfold s1. rewrite pool_set_list. unfold hold, pool.
      destruct (Bool.eqb z' z) eqn:E; [|done]. apply Bool.eqb_prop in E as ->. change (list_of z (renum s)) with (list_of z s).
      rewrite Hperm. solve_Permutation.
    - unfold s1. by destruct z; apply Hi.
    - unfold s1. by destruct z; apply Hi. }
  apply wp_bind. eapply wp_mono; [apply (IH (hold z b h) s1 (b + 1)); [done|]|].
  { intros i Hir. apply Hlisted; [lia|]. replace (b + 1 + i) with (b + (1 + i)) by lia. apply Hl. lia. }
  intros n s2 o2 (-> & Hm2 & Hn2 & -> & Hi2 & Hlen2). wp_steps.
  assert (∀ count b, run_zeros s1 count b = run_zeros s count b) as Ezs.
  { clear -Hm1. induction count as [|count IH]; intros b; [done|]. simpl. by rewrite (zero_at_moved _ _ _ Hm1), IH. }
  assert (∀ count b h, run_held s1 count b h = run_held s count b h) as Ehs.
  { clear -Hm1. induction count as [|count IH]; intros b h; [done|]. simpl. by rewrite (zero_at_moved _ _ _ Hm1), IH. }
  split_and!; [done|by eapply moved_trans| | | |lia].
  - rewrite Hn2. unfold s1. by destruct z.
  - cbn [run_zeros]. rewrite Ez, Ezs. destruct z; simpl; lia.
  - cbn [run_held]. rewrite Ez. by rewrite Ehs in Hi2.
Qed.

Lemma run_held_ext s s' count : ∀ b h,
  (∀ x, b ≤ x < b + Z.of_nat count → zero_at s' x = zero_at s x) →
  run_held s' count b h = run_held s count b h ∧ run_zeros s' count b = run_zeros s count b.
Proof.
  induction count as [|count IH]; intros b h Hz; [done|]. cbn [run_held run_zeros]. rewrite (Hz b) by lia.
  destruct (IH (b + 1) (hold (zero_at s b) b h)) as [-> ->]; [|done]. intros x Hx. apply Hz. lia.
Qed.

(** The entries of the claimed run, and the numbers of entries by state. *)
Record run_claimed (usage : PageUse) (count : nat) (b : Z) (s s' : Phys) : Prop := mkRun {
  run_db : s' = with_pagedb (pagedb s') s ∧ length (pagedb s') = length (pagedb s);
  run_in : ∀ x, b ≤ x < b + Z.of_nat count → ∃ p, entry s x = Some p ∧ entry s' x = Some (claimed usage p);
  run_out : ∀ x, ¬ (b ≤ x < b + Z.of_nat count) → entry s' x = entry s x;
  run_allocated : countb (in_state StAllocated) (pagedb s') = countb (in_state StAllocated) (pagedb s) + Z.of_nat count;
  run_zero : countb (in_state StZero) (pagedb s') = countb (in_state StZero) (pagedb s) - Z.of_nat (run_zeros s count b);
  run_free : countb (in_state StFree) (pagedb s') + countb (in_state StZero) (pagedb s') =
    countb (in_state StFree) (pagedb s) + countb (in_state StZero) (pagedb s) - Z.of_nat count;
  run_owners : ∀ f, f ∈ [is_owned; is_anon; is_file; is_exec] → countb f (pagedb s') = countb f (pagedb s);
}.

(** One frame claimed, as a run of length one in front of another. *)
Lemma run_claimed_step h usage count b s s' p z :
  phys_core h s → entry s b = Some p → page_state p = Some (pool_state z) → page_wf p →
  run_claimed usage count (b + 1) (set_entry b (claimed usage p) s) s' →
  run_claimed usage (S count) b s s'.
Proof.
  intros Hi Hp Hst Hwf []. set (s1 := set_entry b (claimed usage p) s) in *.
  assert (∀ q, entry s1 q = if decide (q = b) then Some (claimed usage p) else entry s q) as He by (intros q; by eapply entry_set).
  assert (∀ x, x ≠ b → zero_at s1 x = zero_at s x) as Hz by (intros x Hx; unfold zero_at; by rewrite He, decide_False).
  assert (zero_at s b = z) as Ez by (unfold zero_at; rewrite Hp, (in_state_spec _ _ _ Hst); by destruct z).
  destruct (run_held_ext s s1 count (b + 1) nobody) as [_ Ezs]; [intros x Hx; apply Hz; lia|].
  destruct (claimed_state usage p) as [Hst' Hk'].
  assert (page_owner_kind p = Some OwnNone) as Hk by (by eapply wf_unowned; [done|done|destruct z]).
  destruct (unowned_counts _ Hk) as (E1 & E2 & E3 & E4), (unowned_counts _ Hk') as (F1 & F2 & F3 & F4).
  assert (∀ f, countb f (pagedb s1) = countb f (pagedb s) - Z.b2z (f p) + Z.b2z (f (claimed usage p))) as Hcnt by (intros f; by apply countb_set).
  destruct (set_entry_form s b (claimed usage p)) as (db & E & Hl). fold s1 in E. destruct run_db0 as [Edb Hlen].
  split.
  - split; [rewrite Edb; simpl; by rewrite E|by rewrite Hlen, E].
  - intros x Hx. destruct (decide (x = b)) as [->|Hne].
    + exists p. rewrite run_out0 by lia. by rewrite He, decide_True.
    + destruct (run_in0 x) as (q & Hq & Hq'); [lia|]. rewrite He, decide_False in Hq by done. by exists q.
  - intros x Hx. rewrite run_out0 by lia. rewrite He, decide_False by lia. done.
  - rewrite run_allocated0, Hcnt, (in_state_spec _ _ _ Hst), (in_state_spec _ _ _ Hst'). destruct z; simpl; lia.
  - rewrite run_zero0, Hcnt, (in_state_spec _ _ _ Hst), (in_state_spec _ _ _ Hst'), Ezs. cbn [run_zeros]. rewrite Ez. destruct z; simpl; lia.
  - rewrite run_free0, !Hcnt, !(in_state_spec _ _ _ Hst), !(in_state_spec _ _ _ Hst'). destruct z; simpl; lia.
  - intros f Hf. rewrite run_owners0, Hcnt by done. set_unfold in Hf. destruct Hf as [->|[->|[->|[->|[]]]]]; rewrite ?E1, ?E2, ?E3, ?E4, ?F1, ?F2, ?F3, ?F4; simpl; lia.
Qed.

Lemma claim_run_spec usage count : ∀ h s b o,
  phys_core (run_held s count b h) s →
  wp (claim_run count b usage) (λ _ s' o', o' = o ∧ phys_core h s' ∧ run_claimed usage count b s s') s o.
Proof.
  induction count as [|count IH]; intros h s b o Hi; cbn [claim_run].
  { wp_steps. split_and!; [done|done|]. split; try done; try lia; [split; [by destruct s|done]|simpl; lia]. }
  cbn [run_held] in Hi.
  assert (phys_core (hold (zero_at s b) b (run_held s count (b + 1) h)) s) as Hi'.
  { eapply core_perm; [exact Hi|]. intros z. by rewrite run_held_hold. }
  destruct (held_entry _ _ _ _ Hi') as (p & Hp & Hst). destruct (core_number _ _ Hi' _ _ Hp) as (_ & Hwf & _). apply wp_bind.
  eapply wp_mono; [by eapply (prepare_allocation_spec _ s _ b p)|]. intros _ s1 o1 (-> & -> & Hi1).
  eapply wp_mono; [apply (IH h)|].
  { destruct (run_held_ext s (set_entry b (claimed usage p) s) count (b + 1) h) as [-> _]; [|done].
    intros x Hx. unfold zero_at. by rewrite (entry_set _ s b p _ _ Hi' Hp), decide_False by lia. }
  intros _ s2 o2 (-> & Hi2 & Hrun). split_and!; [done|done|]. eapply run_claimed_step; [exact Hi'|done|done|done|done].
Qed.

(** ** Contiguous allocation *)

Definition free_at (s : Phys) (pfn : Z) : Prop := ∃ p z, entry s pfn = Some p ∧ page_state p = Some (pool_state z).

Lemma counts_run h usage count b s s' :
  counts_ok s → phys_core h s → phys_core nobody s' → run_claimed usage count b s s' →
  counts_ok (with_usage (wrap64 (used_pages s + Z.of_nat count)) (wrap64 (free_pages s - Z.of_nat count))
    (if (run_zeros s count b =? 0)%nat then zero_pages s else wrap64 (zero_pages s - Z.of_nat (run_zeros s count b))) s').
Proof.
  intros [] Hi Hi' [[E Hl] _ _ Ha Hz Hf Ho].
  pose proof (counts_bound _ _ (in_state StAllocated) Hi'). pose proof (counts_bound _ _ (in_state StZero) Hi').
  pose proof (counts_bound _ _ (in_state StFree) Hi'). pose proof (counts_bound _ _ (in_state StAllocated) Hi).
  split; simpl.
  - rewrite E. simpl. by rewrite Hl.
  - rewrite wrap64_count; lia.
  - rewrite wrap64_count; lia.
  - destruct (Nat.eqb_spec (run_zeros s count b) 0) as [E0|]; [rewrite E0 in Hz; lia|]. rewrite wrap64_count; lia.
  - rewrite Ho by set_solver. rewrite E. done.
  - rewrite Ho by set_solver. rewrite E. done.
  - rewrite Ho by set_solver. rewrite E. done.
  - rewrite Ho by set_solver. rewrite E. done.
Qed.

Definition free_count (s : Phys) : Z := Z.of_nat (length (pool false s) + length (pool true s)).
Lemma free_count_moved h s s' : phys_core h s → phys_core h s' → moved s s' → free_count s' = free_count s.
Proof.
  intros Hi Hi' Hm. unfold free_count.
  assert (∀ z, length (pool z s' ++ h z) = length (pool z s ++ h z)) as Hz.
  { intros z. apply Permutation_length, NoDup_Permutation.
    - pose proof (core_nodup _ _ Hi') as Hnd. destruct z; apply NoDup_app in Hnd as (? & _ & ?); done.
    - pose proof (core_nodup _ _ Hi) as Hnd. destruct z; apply NoDup_app in Hnd as (? & _ & ?); done.
    - intros x. rewrite (core_pool _ _ Hi), (core_pool _ _ Hi'). by setoid_rewrite (moved_entry _ _ _ Hm). }
  pose proof (Hz false). pose proof (Hz true). rewrite !length_app in *. lia.
Qed.
Lemma free_listed h s x :
  phys_core h s → (∀ z, h z = []) → (∀ id, (id < MAX_PAGE_CPUS)%nat → cache_empty id s) → free_at s x ↔ listed s x.
Proof.
  intros Hi Hh He. unfold listed, free_at. split.
  - intros (p & z & Hp & Hst). assert (x ∈ pool z s ++ h z) as Hx by (apply (core_pool _ _ Hi); by exists p).
    rewrite Hh, app_nil_r, (drained_pool h s z Hi He) in Hx. apply elem_of_app. destruct z; [by right|by left].
  - intros Hx. destruct (listed_entry _ _ _ Hi Hx) as (p & z & Hp & Hst & _). by exists p, z.
Qed.

(** The last address of a run of [count] frames at [b] is at most
    [max_address]. *)
Definition run_below (b : Z) (count : nat) (max_address : Z) : Prop := (b + Z.of_nat count) * FRAME_SIZE ≤ max_address + 1.

Lemma alloc_contiguous_spec usage count align_pages max_address c s o :
  phys_inv s → dynamic_use usage = true → is_u64 max_address → is_u64 align_pages →
  let align := Z.max align_pages 1 in
  let minimum := if is_page_daemon c then 0 else DAEMON_PAGES in
  wp (alloc_contiguous usage count align_pages max_address c) (λ r s' o', o' = o ∧ phys_inv s' ∧ segments s' = segments s ∧ memory s' = memory s ∧
     match r with
     | Some b => 0 ≤ b ∧ (align | b) ∧ run_below b count max_address ∧
         (∀ x, b ≤ x < b + Z.of_nat count → free_at s x ∧ ∃ p, entry s x = Some p ∧ entry s' x = Some (claimed usage p)) ∧
         (∀ x, ¬ (b ≤ x < b + Z.of_nat count) → entry s' x = entry s x)
     | None => (∀ x, entry s' x = entry s x) ∧
         (count = 0%nat ∨ ¬ pow2 align ∨ free_count s < Z.of_nat count + minimum ∨
          ∀ b, 0 ≤ b → (align | b) → run_below b count max_address → ∃ i, 0 ≤ i < Z.of_nat count ∧ ¬ free_at s (b + i))
     end) s o.
Proof.
  intros [Hi Hc] Hu Hmax Hal align minimum. unfold alloc_contiguous. wp_step. wp_step. rewrite (core_ready _ _ Hi). simpl negb. cbn [orb].
  destruct (Nat.eqb_spec count 0) as [->|Hc0]; [wp_steps; split_and!; auto; by split|].
  apply wp_bind, wp_massert; [done|]. fold align. assert (is_u64 align) as Halign by (unfold align, is_u64 in *; lia).
  destruct (is_power_of_two align) eqn:Epow; simpl negb; cbn match; cycle 1.
  { wp_steps. split_and!; try done. right; left. intros Hp. apply is_power_of_two_pow2 in Hp; congruence. }
  apply is_power_of_two_pow2 in Epow as Hpow; [|done]. pose proof (pow2_pos _ Hpow) as Hapos.
  apply wp_bind. eapply wp_mono; [by apply (drain_page_caches_spec nobody)|]. intros _ s1 o1 (-> & Hm1 & Hi1 & He1).
  assert (∀ x, entry s1 x = entry s x) as Hent by (intros; by apply moved_entry).
  assert (segments s1 = segments s ∧ memory s1 = memory s) as [Hseg Hmem] by (by destruct Hm1 as (? & ? & ? & ? & ->)).
  assert (∀ x, free_at s1 x ↔ free_at s x) as Hfree by (intros; unfold free_at; by setoid_rewrite Hent).
  assert (∀ x, free_at s x ↔ listed s1 x) as Hlist by (intros x; rewrite <- Hfree; by apply (free_listed nobody)).
  pose proof (counts_moved _ _ Hc Hm1) as Hc1.
  wp_step. wp_step. set (entries := Z.min (max_pfn s1) (saturating_add max_address 1 / FRAME_SIZE)).
  assert (∀ b, 0 ≤ b → run_below b count max_address → b + Z.of_nat count ≤ entries ∨ ∃ i, 0 ≤ i < Z.of_nat count ∧ ¬ free_at s (b + i)) as Hbelow.
  { intros b Hb Hr. destruct (decide (b + Z.of_nat count ≤ max_pfn s1)) as [Hle|Hgt]; [left|right].
    - pose proof (core_max _ _ Hi1) as H32. unfold entries, saturating_add, run_below, FRAME_SIZE, is_u64, u64_max in *.
      apply Z.min_glb; [done|]. apply Z.div_le_lower_bound; lia.
    - exists (Z.of_nat count - 1). split; [lia|]. intros (p & z & Hp & _). rewrite <- Hent in Hp. destruct (core_number _ _ Hi1 _ _ Hp) as (_ & _ & ?). lia. }
  assert (∀ b, b + Z.of_nat count ≤ entries → run_below b count max_address) as Habove.
  { intros b Hb. unfold entries, run_below in *. assert (b + Z.of_nat count ≤ saturating_add max_address 1 / FRAME_SIZE) as Hd by lia.
    pose proof (Z.mul_div_le (saturating_add max_address 1) FRAME_SIZE ltac:(unfold FRAME_SIZE; lia)).
    unfold saturating_add, FRAME_SIZE in *. lia. }
  assert (∀ s', s' = s1 → o = o ∧ phys_inv s' ∧ segments s' = segments s ∧ memory s' = memory s ∧ (∀ x, entry s' x = entry s x)) as Hkeep.
  { intros s' ->. split_and!; try done; by split. }
  destruct (Z.ltb_spec entries (Z.of_nat count)).
  { wp_steps. destruct (Hkeep s1 eq_refl) as (? & ? & ? & ? & ?). split_and!; try done. right; right; right. intros b Hb _ Hr.
    destruct (Hbelow b Hb Hr); [lia|done]. }
  fold minimum. destruct (Z.ltb_spec (nfree s1) (saturating_add (Z.of_nat count) minimum)) as [Hlow|Hhigh].
  { wp_steps. destruct (Hkeep s1 eq_refl) as (? & ? & ? & ? & ?). split_and!; try done. right; right; left.
    rewrite <- (free_count_moved nobody s s1) by done. unfold free_count. rewrite !(drained_pool nobody) by done.
    rewrite (core_nfree _ _ Hi1) in Hlow. unfold saturating_add in Hlow. simpl. lia. }
  assert ((align | align_index 0 align) ∧ align_index 0 align = 0) as [Hd0 E0] by (unfold align_index; rewrite Z.mod_0_l by lia; split; [apply Z.divide_0_r|done]).
  apply wp_bind. eapply wp_mono; [apply (find_run_spec nobody); [lia|done|done|lia|done|lia|lia]|]. rewrite E0.
  intros [b|] s2 o2 (-> & -> & Hr); cycle 1.
  { wp_steps. destruct (Hkeep s1 eq_refl) as (? & ? & ? & ? & ?). split_and!; try done. right; right; right. intros b Hb Hbd Hrb.
    destruct (Hbelow b Hb Hrb) as [Hle|]; [|done]. destruct (Hr b Hb Hbd Hle) as (i & Hir & Hnot). exists i. split; [done|]. by rewrite Hlist. }
  destruct Hr as (Hb0 & Hbd & Hbe & Hall).
  assert (phys_core nobody (renum s1)) as Hren.
  { eapply (core_moved nobody); [exact Hi1|apply renum_moved|done|apply Hi1|apply Hi1|done]. }
  apply wp_bind. eapply wp_mono; [by apply (unlink_run_spec count nobody)|]. intros n s3 o3 (-> & Hm3 & Hn3 & -> & Hi3 & Hlen3).
  apply wp_bind, wp_modify. assert (add_nfree (- Z.of_nat count) s3 = renum s3) as ->.
  { unfold add_nfree, renum. f_equal. pose proof (pool_bound _ _ Hi1). rewrite Hn3, (core_nfree _ _ Hi1), wrap64_count; lia. }
  assert (moved s1 (renum s3)) as Hm4 by (eapply moved_trans; [exact Hm3|apply renum_moved]).
  destruct (run_held_ext s1 (renum s3) count b nobody) as [Eh Ezs]; [intros; by apply zero_at_moved|].
  apply wp_bind. eapply wp_mono; [apply (claim_run_spec usage count nobody (renum s3) b)|].
  { by rewrite Eh. }
  intros _ s5 o5 (-> & Hi5 & Hrun). wp_step. wp_step. wp_step.
  pose proof (counts_run _ usage count b _ _ (counts_moved _ _ Hc1 Hm4) Hi3 Hi5 Hrun) as Hc5. rewrite Ezs in Hc5. pose proof Hrun as [[Edb _] Hin Hout _ _ _ _].
  assert (segments s5 = segments s ∧ memory s5 = memory s) as [Hseg5 Hmem5].
  { rewrite Edb. destruct Hm4 as (? & ? & ? & ? & Em). by rewrite Em. }
  assert (used_pages s5 = used_pages (renum s3) ∧ free_pages s5 = free_pages (renum s3) ∧ zero_pages s5 = zero_pages (renum s3)) as (Eu & Ef & Ez).
  { rewrite Edb. done. }
  rewrite Eu, Ef, Ez. split_and!; try done.
  - split; [by apply core_with_usage|done].
  - by apply Habove.
  - intros x Hx. destruct (Hin x Hx) as (p & Hp & Hp'). rewrite (moved_entry _ _ _ Hm4), Hent in Hp. split; [|by exists p].
    apply Hlist. replace x with (b + (x - b)) by lia. apply Hall. lia.
  - intros x Hx. etrans; [exact (Hout x Hx)|]. by rewrite (moved_entry _ _ _ Hm4).
Qed.

(** ** Clearing free frames, and the owners of frames. *)

(** ** [zero_free_pages] *)

Lemma take_dirty_spec n : ∀ h s o,
  phys_core h s →
  wp (take_dirty n) (λ l s' o', o' = o ∧ moved s s' ∧ phys_core (hold_list false l h) s' ∧ (length l ≤ n)%nat ∧
     ((length l < n)%nat → free_list s' = [])) s o.
Proof.
  induction n as [|n IH]; intros h s o Hi; cbn [take_dirty].
  { wp_steps. split_and!; [done|apply moved_refl| |done|simpl; lia]. eapply core_perm; [exact Hi|]. intros z. unfold hold_list. by destruct (Bool.eqb _ _). }
  wp_steps. pose proof (pop_list_spec false s) as Hp. destruct (pop_list false s) as [[x s1]|].
  - destruct Hp as (l & Hl & ->). wp_steps.
    replace (add_nfree (-1) (set_list false l (nfree s) s)) with (set_list false l (wrap64 (nfree s + -1)) s) by done.
    eapply wp_mono; [apply (IH (hold false x h)), core_pop_list; [done|exact Hl]|].
    intros l' s' o' (-> & Hm & Hi' & Hlen & He). wp_steps. split_and!; [done| | |simpl; lia|simpl; intros; apply He; lia].
    + eapply moved_trans; [apply set_list_moved|exact Hm].
    + eapply core_perm; [exact Hi'|]. intros z. unfold hold_list, hold. destruct (Bool.eqb z false); solve_Permutation.
  - wp_steps. split_and!; [done|apply moved_refl| |simpl; lia|done]. eapply core_perm; [exact Hi|]. intros z. unfold hold_list. by destruct (Bool.eqb _ _).
Qed.

Definition zeroed_page (p : Page) : Page := set_status_field STATE_SHIFT (state_code StZero) p.
Lemma zeroed_page_spec p : page_wf p → page_state p = Some StFree →
  page_state (zeroed_page p) = Some StZero ∧ page_wf (zeroed_page p) ∧ page_owner_kind (zeroed_page p) = Some OwnNone ∧ page_owner_kind p = Some OwnNone.
Proof.
  intros Hwf Hst. pose proof (wf_unowned p StFree Hwf Hst ltac:(done)) as Hk. destruct Hwf as (st & u & o & Hs & Hr & Ho & Hm & Hx).
  destruct (status_packed _ _ _ _ _ Hs) as (E1 & E2 & E3). simplify_eq.
  pose proof (set_state_packed p StFree u QueueNone OwnNone StZero Hs) as Hz. destruct (status_packed _ _ _ _ _ Hz) as (F1 & _ & F3).
  split_and!; [done| |done|done]. by exists StZero, u, OwnNone.
Qed.

(** A held dirty frame becomes a held zero frame. *)
Lemma core_retag h s x p :
  phys_core (hold false x h) s → entry s x = Some p →
  phys_core (hold true x h) (set_entry x (zeroed_page p) (write_frame x zero_frame s)).
Proof.
  intros Hi Hp. destruct (held_entry _ _ _ _ Hi) as (q & Hq & Hst). simplify_eq.
  destruct (core_number _ _ Hi _ _ Hp) as (Hn & Hwf & _). destruct (zeroed_page_spec p Hwf Hst) as (Hst' & Hwf' & _).
  assert (phys_core (hold false x h) (write_frame x zero_frame s)) as Hi1 by (by apply core_write).
  pose proof (core_nodup _ _ Hi) as Hnd.
  assert (((pool false s ++ hold false x h false) ++ pool true s ++ hold false x h true) ≡ₚ
          x :: (pool false s ++ h false) ++ pool true s ++ h true) as Hperm by (unfold hold; simpl; solve_Permutation).
  rewrite Hperm in Hnd. apply NoDup_cons in Hnd as [Hnot Hnd].
  eapply (core_set (hold false x h)); [done|exact Hp|done|done|intros _; simpl; by rewrite Z.eqb_refl| |].
  - change (pool false (write_frame x zero_frame s)) with (pool false s). change (pool true (write_frame x zero_frame s)) with (pool true s).
    assert (((pool false s ++ hold true x h false) ++ pool true s ++ hold true x h true) ≡ₚ
          x :: (pool false s ++ h false) ++ pool true s ++ h true) as -> by (unfold hold; simpl; solve_Permutation).
    by apply NoDup_cons.
  - intros z y. change (pool z (write_frame x zero_frame s)) with (pool z s). case_decide as Hy.
    + subst y. rewrite Hst'. destruct z; unfold hold; simpl; [set_solver|]. split; [|done]. intros Hin. exfalso. apply Hnot. set_solver.
    + destruct z; unfold hold; simpl; set_solver.
Qed.

(** The accounting when [k] frames already cleared are not yet counted. *)
Definition counts_zero (k : Z) (s : Phys) : Prop := counts_ok (with_usage (used_pages s) (free_pages s) (zero_pages s + k) s).
Lemma counts_retag s x p k :
  counts_zero k s → entry s x = Some p → page_wf p → page_state p = Some StFree →
  counts_zero (k + 1) (set_entry x (zeroed_page p) (write_frame x zero_frame s)).
Proof.
  intros [] Hp Hwf Hst. destruct (zeroed_page_spec p Hwf Hst) as (Hst' & Hwf' & Hk' & Hk). simpl in *.
  destruct (unowned_counts _ Hk) as (E1 & E2 & E3 & E4), (unowned_counts _ Hk') as (F1 & F2 & F3 & F4).
  set (s0 := write_frame x zero_frame s). assert (entry s0 x = Some p) as Hp0 by done.
  assert (length (pagedb (set_entry x (zeroed_page p) s0)) = length (pagedb s)) as Hl.
  { destruct (set_entry_form s0 x (zeroed_page p)) as (db & -> & E). done. }
  assert (∀ f, countb f (pagedb s0) = countb f (pagedb s)) as Es by done. unfold counts_zero.
  split; cbn [with_usage pagedb total_pages used_pages free_pages zero_pages managed_pages anon_pages file_pages exec_pages];
    rewrite ?Hl, ?(countb_set _ s0 x p) by done; rewrite ?Es, ?(in_state_spec _ _ _ Hst), ?(in_state_spec _ _ _ Hst');
    rewrite ?E1, ?E2, ?E3, ?E4, ?F1, ?F2, ?F3, ?F4; unfold set_entry; destruct (seg_lookup (segments s0) x); simpl; lia.
Qed.

Record cleared (l : list Z) (s s' : Phys) : Prop := mkCleared {
  cl_segs : segments s' = segments s ∧ zero_pages s' = zero_pages s;
  cl_in : ∀ x, x ∈ l → memory s' x = zero_frame ∧ ∃ p, entry s x = Some p ∧ page_state p = Some StFree ∧ entry s' x = Some (zeroed_page p);
  cl_out : ∀ x, x ∉ l → memory s' x = memory s x ∧ entry s' x = entry s x;
  cl_counters : ∀ k, counts_zero k s → counts_zero (k + Z.of_nat (length l)) s';
}.

Lemma cleared_cons h x l s s' p :
  phys_core h s → x ∉ l → entry s x = Some p → page_wf p → page_state p = Some StFree →
  cleared l (set_entry x (zeroed_page p) (write_frame x zero_frame s)) s' → cleared (x :: l) s s'.
Proof.
  intros Hi Hnot Hp Hwf Hst []. set (s1 := set_entry x (zeroed_page p) (write_frame x zero_frame s)) in *.
  assert (∀ q, entry s1 q = if decide (q = x) then Some (zeroed_page p) else entry s q) as He.
  { intros q. apply (entry_set h (write_frame x zero_frame s) x p); [|done]. apply core_write; [done|].
    intros p' Hp' Hz. done. }
  assert (∀ q, memory s1 q = if q =? x then zero_frame else memory s q) as Hm.
  { intros q. unfold s1. destruct (set_entry_form (write_frame x zero_frame s) x (zeroed_page p)) as (db & -> & _). done. }
  assert (segments s1 = segments s ∧ zero_pages s1 = zero_pages s) as [Hs Hz].
  { unfold s1. destruct (set_entry_form (write_frame x zero_frame s) x (zeroed_page p)) as (db & -> & _). done. }
  split.
  - destruct cl_segs0 as [-> ->]. done.
  - intros y Hy. apply elem_of_cons in Hy as [->|Hy].
    + destruct (cl_out0 x Hnot) as [-> ->]. rewrite Hm, He, Z.eqb_refl, decide_True by done. split; [done|by exists p].
    + destruct (cl_in0 y Hy) as (? & q & Hq & Hq1 & Hq2). split; [done|]. assert (y ≠ x) by (by intros ->).
      rewrite He, decide_False in Hq by done. by exists q.
  - intros y Hy. apply not_elem_of_cons in Hy as [Hne Hy]. destruct (cl_out0 y Hy) as [-> ->]. rewrite Hm, He, decide_False by done.
    destruct (Z.eqb_spec y x); [done|done].
  - intros k Hk. pose proof (cl_counters0 (k + 1) (counts_retag s x p k Hk Hp Hwf Hst)) as Hc.
    replace (k + Z.of_nat (length (x :: l))) with (k + 1 + Z.of_nat (length l)) by (simpl; lia). done.
Qed.

Lemma clear_pages_spec l : ∀ h s o,
  phys_core (hold_list false l h) s →
  wp (clear_pages l) (λ _ s' o', o' = o ∧ phys_core (hold_list true l h) s' ∧ cleared l s s') s o.
Proof.
  induction l as [|x l IH]; intros h s o Hi; cbn [clear_pages].
  { wp_steps. split_and!; [done| |].
    - eapply core_perm; [exact Hi|]. intros z. unfold hold_list. by destruct (Bool.eqb _ _), (Bool.eqb _ _).
    - split; try done; [by intros x Hx; apply not_elem_of_nil in Hx|]. intros k Hk. by rewrite Z.add_0_r. }
  assert (phys_core (hold false x (hold_list false l h)) s) as Hi1.
  { eapply core_perm; [exact Hi|]. intros z. unfold hold_list, hold. by destruct (Bool.eqb z false). }
  destruct (held_entry _ _ _ _ Hi1) as (p & Hp & Hst). destruct (core_number _ _ Hi1 _ _ Hp) as (_ & Hwf & _).
  assert (x ∉ l) as Hnot.
  { pose proof (core_nodup _ _ Hi) as Hnd. unfold hold_list in Hnd. simpl in Hnd. apply NoDup_app in Hnd as (Hnd & _).
    apply NoDup_app in Hnd as (_ & _ & Hnd). apply NoDup_cons in Hnd as [Hnot _]. set_solver. }
  unfold zero_page. apply wp_bind, wp_modify, wp_bind. eapply update_page_spec; [exact Hp|].
  pose proof (core_retag _ _ _ _ Hi1 Hp) as Hi2. fold (zeroed_page p). eapply wp_mono; [apply (IH (hold true x h))|].
  { eapply core_perm; [exact Hi2|]. intros z. unfold hold_list, hold. by destruct z. }
  intros _ s' o' (-> & Hi3 & Hcl). split_and!; [done| |by eapply cleared_cons].
  eapply core_perm; [exact Hi3|]. intros z. unfold hold_list, hold. destruct z; simpl; solve_Permutation.
Qed.
Lemma queue_zero_spec l : ∀ h s o,
  phys_core (hold_list true l h) s → wp (queue_zero l) (λ _ s' o', o' = o ∧ moved s s' ∧ phys_core h s') s o.
Proof.
  induction l as [|x l IH]; intros h s o Hi; cbn [queue_zero].
  { wp_steps. split_and!; [done|apply moved_refl|]. eapply core_perm; [exact Hi|]. intros z. unfold hold_list. by destruct (Bool.eqb _ _). }
  wp_steps. eapply wp_mono; [apply (IH h), core_push_list|].
  { eapply core_perm; [exact Hi|]. intros z. unfold hold_list, hold. by destruct (Bool.eqb z true). }
  intros _ s' o' (-> & Hm & Hi'). split_and!; [done| |done]. eapply moved_trans; [apply push_list_moved|exact Hm].
Qed.

(** What clearing may change: dirty free frames become zero frames. *)
Definition only_cleared (s s' : Phys) : Prop :=
  ∀ x, (memory s' x = memory s x ∧ entry s' x = entry s x) ∨
    (memory s' x = zero_frame ∧ ∃ p, entry s x = Some p ∧ page_state p = Some StFree ∧ entry s' x = Some (zeroed_page p)).
Lemma zero_free_pages_spec maximum s o :
  phys_inv s →
  wp (zero_free_pages maximum) (λ n s' o', o' = o ∧ phys_inv s' ∧ segments s' = segments s ∧ only_cleared s s' ∧
     zero_pages s' = zero_pages s + Z.of_nat n ∧ (n ≤ Nat.min maximum PAGE_CACHE_REFILL)%nat) s o.
Proof.
  intros [Hi Hc]. unfold zero_free_pages. wp_step. wp_step. rewrite (core_ready _ _ Hi). simpl negb. rewrite orb_false_r.
  destruct (Nat.eqb_spec maximum 0) as [->|Hm0].
  { wp_steps. split_and!; try done; [intros x; by left|lia]. }
  apply wp_bind. eapply wp_mono; [by apply (take_dirty_spec _ nobody)|]. intros l s1 o1 (-> & Hm1 & Hi1 & Hlen & _).
  apply wp_bind. eapply wp_mono; [by apply (clear_pages_spec l nobody)|]. intros _ s2 o2 (-> & Hi2 & Hcl).
  assert (counts_zero (Z.of_nat (length l)) s2) as Hc2.
  { apply (cl_counters _ _ _ Hcl 0). pose proof (counts_moved _ _ Hc Hm1) as []. unfold counts_zero. split; simpl; try done; lia. }
  assert (zero_pages s2 = zero_pages s ∧ segments s2 = segments s) as [Ez2 Es2].
  { destruct (cl_segs _ _ _ Hcl) as [-> ->]. by destruct Hm1 as (? & ? & ? & ? & ->). }
  assert (only_cleared s s2) as Honly.
  { intros x. destruct (decide (x ∈ l)) as [Hx|Hx].
    - right. destruct (cl_in _ _ _ Hcl x Hx) as (? & p & Hp & ?). rewrite (moved_entry _ _ _ Hm1) in Hp. eauto.
    - left. destruct (cl_out _ _ _ Hcl x Hx) as [-> ->]. rewrite (moved_entry _ _ _ Hm1). by destruct Hm1 as (? & ? & ? & ? & ->). }
  pose proof (counts_bound _ _ (in_state StZero) Hi2) as Hb. pose proof (count_zero _ Hc2) as Hz2. simpl in Hz2.
  destruct l as [|x l].
  { wp_steps. simpl in *. assert (counts_ok s2) as Hc2'.
    { destruct Hc2. split; simpl in *; try done. lia. }
    split_and!; try done; [|lia]. split; [|done]. eapply core_perm; [exact Hi2|]. intros z. unfold hold_list. by destruct (Bool.eqb _ _). }
  apply wp_bind, wp_bind. eapply wp_mono; [by apply (queue_zero_spec _ nobody)|]. intros _ s3 o3 (-> & Hm3 & Hi3). wp_steps.
  assert (wrap64 (zero_pages s3 + Z.of_nat (length (x :: l))) = zero_pages s + Z.of_nat (length (x :: l))) as Ez3.
  { assert (zero_pages s3 = zero_pages s2) as -> by (by destruct Hm3 as (? & ? & ? & ? & ->)). rewrite Ez2. rewrite Ez2 in Hz2. apply wrap64_count. lia. }
  split_and!; [done| | | |exact Ez3|done].
  - split; [by apply core_with_usage|]. rewrite Ez3. rewrite <- Ez2. destruct Hm3 as (? & ? & ? & ? & ->). by destruct Hc2.
  - rewrite <- Es2. by destruct Hm3 as (? & ? & ? & ? & ->).
  - intros y. specialize (Honly y). destruct Hm3 as (? & ? & ? & ? & ->). exact Honly.
Qed.

(** ** Owners *)

(** The counters after an entry changed its owner, or its flags. *)
Lemma counts_owner s pfn p p' m a f e :
  counts_ok s → entry s pfn = Some p → page_state p' = page_state p →
  m = managed_pages s - Z.b2z (is_owned p) + Z.b2z (is_owned p') → a = anon_pages s - Z.b2z (is_anon p) + Z.b2z (is_anon p') →
  f = file_pages s - Z.b2z (is_file p) + Z.b2z (is_file p') → e = exec_pages s - Z.b2z (is_exec p) + Z.b2z (is_exec p') →
  counts_ok (with_owned m a f e (set_entry pfn p' s)).
Proof.
  intros [] Hp Hst -> -> -> ->.
  assert (length (pagedb (set_entry pfn p' s)) = length (pagedb s)) as Hl.
  { destruct (set_entry_form s pfn p') as (db & -> & E). done. }
  assert (∀ st, in_state st p' = in_state st p) as Ein by (intros st; unfold in_state; by rewrite Hst).
  pose proof (λ g, countb_set g s pfn p p' Hp) as Hset.
  destruct (set_entry_form s pfn p') as (db & E & _). rewrite E in *. cbn [with_pagedb pagedb] in *. clear E Hp Hst.
  split; cbn [with_owned with_pagedb pagedb total_pages used_pages free_pages zero_pages managed_pages anon_pages file_pages exec_pages];
    rewrite ?Hl, ?Hset, ?Ein;
    rewrite ?count_total, ?count_used, ?count_free, ?count_zero, ?count_managed, ?count_anon, ?count_file, ?count_exec; ring.
Qed.

Lemma has_flag_lor a b f : has_flag (Z.lor a b) f = has_flag a f || has_flag b f.
Proof.
  unfold has_flag. rewrite Z.land_lor_distr_l. destruct (Z.eqb_spec (Z.land a f) 0) as [->|Ha]; simpl; [done|].
  apply negb_true_iff, Z.eqb_neq. intros E. apply Ha. by apply Z.lor_eq_0_iff in E as [? _].
Qed.

Lemma set_entry_twice pfn p1 p2 s : set_entry pfn p2 (set_entry pfn p1 s) = set_entry pfn p2 s.
Proof.
  unfold set_entry. destruct (seg_lookup (segments s) pfn) as [i|] eqn:E; simpl; rewrite E; [|done].
  unfold with_pagedb. simpl. by rewrite list_insert_insert_eq.
Qed.

Definition owner_flags (kind : PageOwnerKind) (executable : bool) : Z :=
  let f := match kind with OwnAnonymous => ANON | OwnFile => FILE | OwnKernel | OwnNone => 0 end in
  if executable then Z.lor f EXECUTABLE else f.
Definition bound (id : nat) (kind : PageOwnerKind) (executable : bool) (p : Page) : Page :=
  let p := set_status_field OWNER_KIND_SHIFT (owner_code kind) (with_owner (Some id) p) in
  with_flags (Z.lor (flags p) (Z.lor TABLED (owner_flags kind executable))) p.

(** What an owner counts for. *)
Lemma owner_counts p kind : page_owner_kind p = Some kind → kind ≠ OwnNone →
  is_owned p = true ∧
  is_anon p = negb (bool_decide (kind = OwnFile)) ∧
  is_file p = bool_decide (kind = OwnFile) && negb (has_flag (flags p) EXECUTABLE) ∧
  is_exec p = bool_decide (kind = OwnFile) && has_flag (flags p) EXECUTABLE.
Proof. unfold is_owned, is_anon, is_file, is_exec. intros -> Hk. by destruct kind. Qed.

Lemma bound_spec id kind executable p u :
  status p = pack_status StAllocated u QueueNone OwnNone → u = UseManaged → kind ≠ OwnNone → has_flag (flags p) EXECUTABLE = false →
  (executable = true → kind = OwnFile) →
  page_state (bound id kind executable p) = Some StAllocated ∧ page_owner_kind (bound id kind executable p) = Some kind ∧
  page_wf (bound id kind executable p) ∧ has_flag (flags (bound id kind executable p)) EXECUTABLE = executable.
Proof.
  intros Hs -> Hk Hx He. pose proof (set_owner_packed (with_owner (Some id) p) _ _ _ _ kind Hs) as Hs'.
  destruct (status_packed (bound id kind executable p) _ _ _ _ Hs') as (E1 & E2 & E3).
  assert (has_flag (flags (bound id kind executable p)) EXECUTABLE = executable) as Ef.
  { unfold bound. simpl. rewrite has_flag_lor, Hx. simpl. unfold owner_flags. destruct executable; [rewrite He by done; done|by destruct kind]. }
  split_and!; [done|done| |done]. exists StAllocated, UseManaged, kind. split_and!; try done. rewrite Ef. done.
Qed.

Lemma bind_owner_spec pfn p id is_executable kind s o :
  phys_inv s → entry s pfn = Some p → page_state p = Some StAllocated → page_usage p = Some UseManaged →
  page_owner_kind p = Some OwnNone → kind ≠ OwnNone →
  wp (bind_owner pfn id is_executable kind) (λ _ s' o', o' = o ∧ phys_inv s' ∧ segments s' = segments s ∧ memory s' = memory s ∧
     ∀ q, entry s' q = if decide (q = pfn) then Some (bound id kind (bool_decide (kind = OwnFile) && is_executable) p) else entry s q) s o.
Proof.
  intros [Hi Hc] Hp Hst Hu Hk Hkind. destruct (core_number _ _ Hi _ _ Hp) as (Hn & Hwf & _).
  assert (status p = pack_status StAllocated UseManaged QueueNone OwnNone ∧ has_flag (flags p) EXECUTABLE = false) as [Hs Hx].
  { destruct Hwf as (st & u & o' & Hs & _ & _ & _ & Hx). destruct (status_packed _ _ _ _ _ Hs) as (E1 & E2 & E3). simplify_eq.
    split; [done|]. destruct (has_flag _ _); [|done]. by specialize (Hx eq_refl). }
  set (executable := bool_decide (kind = OwnFile) && is_executable).
  destruct (bound_spec id kind executable p UseManaged Hs eq_refl Hkind Hx) as (E1 & E2 & Ewf & Ef).
  { unfold executable. intros [E _]%andb_true_iff. by apply bool_decide_eq_true in E. }
  set (p1 := set_status_field OWNER_KIND_SHIFT (owner_code kind) (with_owner (Some id) p)).
  unfold bind_owner. apply wp_bind. eapply wp_get_page; [done|]. apply wp_bind. eapply wp_expect; [done|]. apply wp_bind, wp_massert; [done|].
  apply wp_bind. eapply wp_expect; [done|]. apply wp_bind, wp_massert; [done|]. apply wp_bind. eapply update_page_spec; [done|]. fold p1. fold executable.
  apply wp_bind. eapply update_page_spec; [by rewrite (entry_set _ s pfn p _ _ Hi Hp), decide_True|]. rewrite set_entry_twice.
  change (with_flags _ p1) with (bound id kind executable p). set (p2 := bound id kind executable p) in *. wp_steps.
  assert (phys_core nobody (set_entry pfn p2 s)) as Hi2.
  { eapply core_set_same; [done|done|done|done|by rewrite E1, Hst]. }
  destruct (owner_counts _ _ E2 Hkind) as (G1 & G2 & G3 & G4). destruct (unowned_counts _ Hk) as (F1 & F2 & F3 & F4).
  set (s2 := set_entry pfn p2 s). assert (∃ m a f e, account kind executable 1 (add_managed 1 s2) = with_owned m a f e s2 ∧
     m = managed_pages s - Z.b2z (is_owned p) + Z.b2z (is_owned p2) ∧ a = anon_pages s - Z.b2z (is_anon p) + Z.b2z (is_anon p2) ∧
     f = file_pages s - Z.b2z (is_file p) + Z.b2z (is_file p2) ∧ e = exec_pages s - Z.b2z (is_exec p) + Z.b2z (is_exec p2))
     as (m & a & f & e & -> & Em & Ea & Efi & Ee).
  { pose proof (counts_bound _ _ is_owned Hi). pose proof (counts_bound _ _ is_anon Hi). pose proof (counts_bound _ _ is_file Hi).
    pose proof (counts_bound _ _ is_exec Hi). destruct Hc.
    assert (managed_pages s2 = managed_pages s ∧ anon_pages s2 = anon_pages s ∧ file_pages s2 = file_pages s ∧ exec_pages s2 = exec_pages s) as (K1 & K2 & K3 & K4).
    { unfold s2. destruct (set_entry_form s pfn p2) as (db & -> & _). done. }
    rewrite G1, G2, G3, G4, F1, F2, F3, F4, Ef. unfold account, add_managed. cbn [with_owned managed_pages anon_pages file_pages exec_pages].
    rewrite K1, K2, K3, K4, !wrap64_count by lia.
    destruct (bool_decide (kind = OwnFile)), executable; eexists _, _, _, _; (split; [reflexivity|]); simpl; lia. }
  split_and!; [done|split; [by apply core_with_owned|by apply counts_owner with p; [done..|by rewrite E1, Hst| | | |]]| | |].
  - unfold s2. destruct (set_entry_form s pfn p2) as (db & -> & _). done.
  - unfold s2. destruct (set_entry_form s pfn p2) as (db & -> & _). done.
  - intros q. exact (entry_set _ s pfn p p2 q Hi Hp).
Qed.

Definition unbound (p : Page) : Page :=
  with_flags (Z.land (flags p) (u32_not owner_mask)) (set_status_field OWNER_KIND_SHIFT (owner_code OwnNone) (with_owner None p)).
Lemma land_mask_exec x : has_flag (Z.land x (u32_not owner_mask)) EXECUTABLE = false.
Proof. unfold has_flag. rewrite <- Z.land_assoc. change (Z.land (u32_not owner_mask) EXECUTABLE) with 0. by rewrite Z.land_0_r. Qed.
Lemma unbound_spec p : page_wf p →
  page_state (unbound p) = page_state p ∧ page_owner_kind (unbound p) = Some OwnNone ∧ page_wf (unbound p).
Proof.
  intros (st & u & o & Hs & Hr & Ho & Hm & Hx). pose proof (set_owner_packed (with_owner None p) _ _ _ _ OwnNone Hs) as Hs'.
  destruct (status_packed (unbound p) _ _ _ _ Hs') as (E1 & E2 & E3), (status_packed _ _ _ _ _ Hs) as (F1 & _ & _).
  split_and!; [congruence|done|]. exists st, u, OwnNone. split_and!; try done. unfold unbound. simpl. by rewrite land_mask_exec.
Qed.

Lemma clear_owner_spec pfn p s o :
  phys_inv s → entry s pfn = Some p →
  wp (clear_owner pfn) (λ _ s' o', o' = o ∧ phys_inv s' ∧ segments s' = segments s ∧ memory s' = memory s ∧
     ∀ q, entry s' q = if decide (q = pfn) then Some (unbound p) else entry s q) s o.
Proof.
  intros [Hi Hc] Hp. destruct (core_number _ _ Hi _ _ Hp) as (Hn & Hwf & _). destruct (unbound_spec p Hwf) as (E1 & E2 & Ewf).
  pose proof Hwf as (st & u & k & Hs & _). destruct (status_packed _ _ _ _ _ Hs) as (_ & _ & Hk).
  assert (phys_core nobody (set_entry pfn (unbound p) s)) as Hi2 by (by eapply core_set_same).
  destruct (unowned_counts _ E2) as (F1 & F2 & F3 & F4).
  unfold clear_owner. apply wp_bind. eapply wp_get_page; [done|]. apply wp_bind. eapply wp_expect; [done|].
  assert (∃ m a f e,
     (∀ Q, Q () (with_owned m a f e s) o → wp (if bool_decide (k ≠ OwnNone) then
        do modify (account k (has_flag (flags p) EXECUTABLE) (-1)) then modify (add_managed (-1)) else ret ()) Q s o) ∧
     m = managed_pages s - Z.b2z (is_owned p) + 0 ∧ a = anon_pages s - Z.b2z (is_anon p) + 0 ∧
     f = file_pages s - Z.b2z (is_file p) + 0 ∧ e = exec_pages s - Z.b2z (is_exec p) + 0) as (m & a & f & e & Hif & Em & Ea & Efi & Ee).
  { case_bool_decide as Hne.
    - destruct (owner_counts _ _ Hk Hne) as (G1 & G2 & G3 & G4).
      pose proof (counts_bound _ _ is_owned Hi). pose proof (counts_bound _ _ is_anon Hi). pose proof (counts_bound _ _ is_file Hi).
      pose proof (counts_bound _ _ is_exec Hi). pose proof (counts_positive s pfn p is_owned Hp G1).
      pose proof (counts_positive s pfn p is_anon Hp) as P2. pose proof (counts_positive s pfn p is_file Hp) as P3.
      pose proof (counts_positive s pfn p is_exec Hp) as P4. rewrite G2 in P2. rewrite G3 in P3. rewrite G4 in P4.
      rewrite G1, G2, G3, G4. destruct Hc as [_ _ _ _ C1 C2 C3 C4]. rewrite <- C1, <- C2, <- C3, <- C4 in *.
      destruct (bool_decide (k = OwnFile)) eqn:Ek, (has_flag (flags p) EXECUTABLE) eqn:Ex; simpl in *;
        eexists _, _, _, _; (split; [intros Q HQ; wp_steps; unfold add_managed, account; rewrite Ek; simpl; exact HQ|]);
        simpl; rewrite ?wrap64_count; lia.
    - assert (k = OwnNone) as -> by (by destruct k; try (exfalso; apply Hne)). destruct (unowned_counts _ Hk) as (-> & -> & -> & ->).
      exists (managed_pages s), (anon_pages s), (file_pages s), (exec_pages s). split; [|simpl; lia]. intros Q HQ. wp_steps. by destruct s. }
  apply wp_bind, Hif. eapply update_page_spec; [exact Hp|]. fold (unbound p).
  assert (set_entry pfn (unbound p) (with_owned m a f e s) = with_owned m a f e (set_entry pfn (unbound p) s)) as ->.
  { unfold set_entry. simpl. by destruct (seg_lookup _ _). }
  split_and!; [done|split; [by apply core_with_owned|]| | |].
  - apply counts_owner with p; rewrite ?F1, ?F2, ?F3, ?F4; done.
  - destruct (set_entry_form s pfn (unbound p)) as (db & -> & _). done.
  - destruct (set_entry_form s pfn (unbound p)) as (db & -> & _). done.
  - intros q. exact (entry_set _ s pfn p (unbound p) q Hi Hp).
Qed.
