(* ===== verification/PhysInit.v ===== *)
(** The frame database as it is built from the boot memory map. *)
From S2P Require Import Prelude.
From S2P Require Import Bytes.
From S2P Require Import Phys.
From S2P Require Import PhysInv.
From S2P Require Import PhysOps.
Open Scope rust_scope.

(** ** Segments *)

Lemma insert_segment_perm g l : insert_segment g l ≡ₚ g :: l.
Proof. induction l as [|h l IH]; simpl; [done|]. destruct (_ <=? _); [done|]. rewrite IH. solve_Permutation. Qed.
Lemma sort_segments_perm l : sort_segments l ≡ₚ l.
Proof. induction l as [|g l IH]; simpl; [done|]. by rewrite insert_segment_perm, IH. Qed.

Definition seg_range (g : Segment) : Z * Z := (seg_start g, seg_end g).
Lemma assign_slices_spec l : ∀ count lo l' total,
  assign_slices l count lo = Some (l', total) → slices l' count lo total ∧ map seg_range l' = map seg_range l.
Proof.
  induction l as [|g l IH]; intros count lo l' total; simpl; [intros [= <- <-]; done|].
  destruct (Z.leb_spec lo (seg_start g)), (Z.ltb_spec (seg_start g) (seg_end g)); simpl; try done.
  destruct (checked_add count (seg_end g - seg_start g)) as [count'|] eqn:Ec; [|done]. apply checked_add_Some in Ec as [-> _].
  destruct (assign_slices l _ _) as [[l1 t1]|] eqn:E; [|done]. intros [= <- <-]. apply IH in E as [Hs Hm]. simpl.
  split; [done|]. by rewrite Hm.
Qed.

(** The frames of segments. *)
Definition seg_frames (l : list Segment) : list Z :=
  flat_map (λ g, frames_from (seg_start g) (Z.to_nat (seg_end g - seg_start g))) l.
Lemma frames_from_elem a n x : x ∈ frames_from a n ↔ a ≤ x < a + Z.of_nat n.
Proof.
  unfold frames_from. rewrite list_elem_of_In, in_map_iff. setoid_rewrite in_seq. split.
  - intros (i & <- & Hi). lia.
  - intros Hx. exists (Z.to_nat (x - a)). lia.
Qed.
Lemma frames_from_lookup a n i : (i < n)%nat → frames_from a n !! i = Some (a + Z.of_nat i).
Proof. intros Hi. unfold frames_from. rewrite list_lookup_fmap, lookup_seq_lt by done. done. Qed.
Lemma length_frames_from a n : length (frames_from a n) = n.
Proof. unfold frames_from. by rewrite length_map, length_seq. Qed.
Lemma NoDup_frames_from a n : NoDup (frames_from a n).
Proof. unfold frames_from. apply (NoDup_fmap_2_strong (λ i, a + Z.of_nat i)); [lia|apply NoDup_seq]. Qed.

Lemma seg_frames_elem l count lo total x : slices l count lo total → x ∈ seg_frames l ↔ is_Some (find_slice l x).
Proof.
  revert count lo. induction l as [|g l IH]; intros count lo; simpl.
  { intros _. rewrite elem_of_nil. split; [done|by intros [? ?]]. }
  intros (Hg & _ & Hl). rewrite elem_of_app, frames_from_elem, (IH _ _ Hl). case_decide as Hd.
  - split; [by eexists|]. intros _. left. lia.
  - split; [intros [?|?]; [lia|done]|by right].
Qed.
Lemma seg_frames_bound l count lo total : slices l count lo total → length (seg_frames l) = Z.to_nat (total - count) ∧ Forall (λ x, lo ≤ x) (seg_frames l).
Proof.
  revert count lo. induction l as [|g l IH]; intros count lo; simpl.
  { intros ->. split; [lia|done]. }
  intros (Hg & _ & Hl). destruct (IH _ _ Hl) as [Hlen Hall]. rewrite length_app, length_frames_from, Hlen.
  assert (∀ l c lo, slices l c lo total → c ≤ total) as Hle.
  { clear. induction l as [|g l IH]; intros c lo; simpl; [lia|]. intros (? & _ & Hl). apply IH in Hl. lia. }
  apply Hle in Hl. split; [lia|]. apply Forall_app. split.
  - apply Forall_forall. intros x. rewrite frames_from_elem. lia.
  - eapply Forall_impl; [exact Hall|]. simpl. lia.
Qed.
Lemma NoDup_seg_frames l count lo total : slices l count lo total → NoDup (seg_frames l).
Proof.
  revert count lo. induction l as [|g l IH]; intros count lo; simpl; [constructor|]. intros (Hg & _ & Hl). apply NoDup_app.
  destruct (seg_frames_bound _ _ _ _ Hl) as [_ Hall]. split_and!; [apply NoDup_frames_from| |by eapply IH].
  intros x. rewrite frames_from_elem. intros Hx Hin. rewrite Forall_forall in Hall. specialize (Hall x Hin). simpl in Hall. lia.
Qed.
(** The entry a frame is given is at its index. *)
Lemma seg_frames_lookup l count lo total x i :
  slices l count lo total → find_slice l x = Some i → seg_frames l !! Z.to_nat (i - count) = Some x.
Proof.
  revert count lo. induction l as [|g l IH]; intros count lo; simpl; [done|]. intros (Hg & Hf & Hl). case_decide as Hd.
  - intros [= <-]. rewrite lookup_app_l by (rewrite length_frames_from; lia). rewrite frames_from_lookup by lia. f_equal. lia.
  - intros Hx. destruct (find_slice_spec _ _ _ _ _ _ Hl Hx) as [Hi _]. rewrite lookup_app_r by (rewrite length_frames_from; lia).
    rewrite length_frames_from. specialize (IH _ _ Hl Hx). rewrite <- IH. f_equal. lia.
Qed.
Lemma seg_frames_perm l l' : l ≡ₚ l' → seg_frames l ≡ₚ seg_frames l'.
Proof. intros H. unfold seg_frames. rewrite !flat_map_concat_map. by rewrite H. Qed.

(** ** Publication *)

Section publish.
Context (segs : list Segment) (total : Z) (base end_ : Z).
Hypothesis Hsegs : slices segs 0 0 total.
Definition reserved (x : Z) : bool := (base <=? x * FRAME_SIZE) && (x * FRAME_SIZE <? end_).
Definition published (x : Z) : Page :=
  with_status (if reserved x then pack_status StAllocated UsePfnDatabase QueueNone OwnNone
               else pack_status StFree UseNone QueueNone OwnNone) (fresh_page x).

(** The state after the frames of [l]. *)
Record publishing (l : list Z) (s : Phys) (used free : Z) : Prop := mkPublishing {
  pb_segs : segments s = segs;
  pb_len : Z.of_nat (length (pagedb s)) = total;
  pb_entry : ∀ x, entry s x = match find_slice segs x with
                              | Some _ => Some (if decide (x ∈ l) then published x else fresh_page x)
                              | None => None
                              end;
  pb_free : free_list s = List.filter (λ x, negb (reserved x)) l;
  pb_used : used = countb (in_state StAllocated) (pagedb s);
  pb_nfree : free = countb (in_state StFree) (pagedb s) ∧ free = Z.of_nat (length (free_list s));
  pb_caches : caches s = replicate MAX_PAGE_CPUS cache_new;
}.

Lemma published_state x : page_state (published x) = Some (if reserved x then StAllocated else StFree) ∧
  page_owner_kind (published x) = Some OwnNone ∧ page_wf (published x) ∧ frame_number (published x) = x.
Proof.
  unfold published. destruct (reserved x).
  - split_and!; try done. by exists StAllocated, UsePfnDatabase, OwnNone.
  - split_and!; try done. by exists StFree, UseNone, OwnNone.
Qed.

(** Writing an entry in a table of known segments. *)
Lemma set_entry_entry s pfn p p' q : segments s = segs → Z.of_nat (length (pagedb s)) = total → entry s pfn = Some p →
  entry (set_entry pfn p' s) q = if decide (q = pfn) then Some p' else entry s q.
Proof using Hsegs.
  intros Es Hl Hp. unfold entry, set_entry in *. rewrite Es in *. rewrite !(seg_lookup_find _ _ _ _ _ Hsegs) in *.
  destruct (find_slice segs pfn) as [i|] eqn:Ei; [|done]. simpl. rewrite Es, (seg_lookup_find _ _ _ _ _ Hsegs).
  destruct (find_slice_spec _ _ _ _ _ _ Hsegs Ei) as [Hi _].
  case_decide as Hq; [subst q; rewrite Ei; apply list_lookup_insert_eq; lia|].
  destruct (find_slice segs q) as [j|] eqn:Ej; [|done]. apply list_lookup_insert_ne. intros E. apply Hq.
  destruct (find_slice_spec _ _ _ _ _ _ Hsegs Ej) as [Hj _]. eapply find_slice_inj; [exact Hsegs|exact Ej|]. rewrite Ei. f_equal. lia.
Qed.

Lemma publish_step l x s used free :
  publishing l s used free → x ∉ l → is_Some (find_slice segs x) →
  ∃ s' used' free', publish base end_ (Some (s, used, free)) x = Some (s', used', free') ∧ publishing (l ++ [x]) s' used' free' ∧
    memory s' = memory s ∧ zero_list s' = zero_list s.
Proof using Hsegs.
  intros [Es Hlen He Hf Hu [Hn Hn2] Hc] Hx [i Hi].
  assert (entry s x = Some (fresh_page x)) as Hp by (by rewrite He, Hi, decide_False).
  pose proof (λ p', set_entry_entry s x (fresh_page x) p') as Hset. unfold publish. rewrite Hp. fold (reserved x).
  assert (∀ p', countb (in_state StAllocated) (pagedb (set_entry x p' s)) = countb (in_state StAllocated) (pagedb s) + Z.b2z (in_state StAllocated p') ∧
    countb (in_state StFree) (pagedb (set_entry x p' s)) = countb (in_state StFree) (pagedb s) + Z.b2z (in_state StFree p')) as Hcnt.
  { intros p'. rewrite !(countb_set _ s x (fresh_page x)) by done. split; [change (in_state StAllocated (fresh_page x)) with false|change (in_state StFree (fresh_page x)) with false]; simpl; lia. }
  destruct (published_state x) as (Hst & _). unfold published in Hst.
  assert (∀ s', segments s' = segs → (∀ q, entry s' q = if decide (q = x) then Some (published x) else entry s q) →
    ∀ q, entry s' q = match find_slice segs q with Some _ => Some (if decide (q ∈ l ++ [x]) then published q else fresh_page q) | None => None end) as Hent.
  { intros s' _ Hs' q. rewrite Hs', He. case_decide as Hq.
    - subst q. rewrite Hi, decide_True by set_solver. done.
    - destruct (find_slice segs q); [|done]. destruct (decide (q ∈ l)); [by rewrite decide_True by set_solver|by rewrite decide_False by set_solver]. }
  destruct (reserved x) eqn:Er.
  - eexists _, _, _. split; [reflexivity|]. set (p' := with_status _ (fresh_page x)) in *. destruct (Hcnt p') as [C1 C2].
    assert (published x = p') as Ep by (unfold published; by rewrite Er). rewrite (in_state_spec p' _ StAllocated Hst) in C1. rewrite (in_state_spec p' _ StFree Hst) in C2.
    destruct (set_entry_form s x p') as (db & E & Hl). rewrite E in *. split; [|done].
    split; simpl; try done; [by rewrite Hl| | |simpl in *; lia|simpl in *; lia].
    + apply Hent; [done|]. intros q. rewrite Ep, <- E. by apply Hset.
    + rewrite Hf, List.filter_app. simpl. rewrite Er. simpl. by rewrite app_nil_r.
  - eexists _, _, _. split; [reflexivity|]. set (p' := with_status _ (fresh_page x)) in *. destruct (Hcnt p') as [C1 C2].
    assert (published x = p') as Ep by (unfold published; by rewrite Er). rewrite (in_state_spec p' _ StAllocated Hst) in C1. rewrite (in_state_spec p' _ StFree Hst) in C2.
    destruct (set_entry_form s x p') as (db & E & Hl). rewrite E in *. split; [|done].
    split; simpl; try done; [by rewrite Hl| | |simpl in *; lia|rewrite length_app; simpl in *; lia].
    + apply Hent; [done|]. intros q. rewrite Ep. transitivity (entry (with_pagedb db s) q); [done|]. rewrite <- E. by apply Hset.
    + rewrite Hf, List.filter_app. simpl. by rewrite Er.
Qed.

Lemma publish_all f : ∀ l s used free,
  publishing l s used free → NoDup (l ++ f) → (∀ x, x ∈ f → is_Some (find_slice segs x)) →
  ∃ s' used' free', foldl (publish base end_) (Some (s, used, free)) f = Some (s', used', free') ∧ publishing (l ++ f) s' used' free' ∧
    memory s' = memory s ∧ zero_list s' = zero_list s.
Proof using Hsegs.
  induction f as [|x f IH]; intros l s used free Hpub Hnd Hf.
  { exists s, used, free. by rewrite app_nil_r. }
  destruct (publish_step l x s used free Hpub) as (s1 & u1 & f1 & E & Hpub1 & Hm & Hz).
  - apply NoDup_app in Hnd as (_ & Hnd & _). intros Hx. apply (Hnd x Hx). left.
  - apply Hf. left.
  - cbn [foldl]. rewrite E. destruct (IH (l ++ [x]) s1 u1 f1 Hpub1) as (s2 & u2 & f2 & E2 & Hpub2 & Hm2 & Hz2).
    + by rewrite <- app_assoc.
    + intros y Hy. apply Hf. by right.
    + exists s2, u2, f2. rewrite <- app_assoc in Hpub2. split_and!; [done|done|congruence|congruence].
Qed.
End publish.

(** ** Usable ranges *)

Lemma mul_range_aligned e a b : is_u64 (mem_base e) → 0 ≤ mem_length e → usable_page_range e = Some (Some (a, b)) →
  a mod FRAME_SIZE = 0 ∧ b mod FRAME_SIZE = 0 ∧ 0 ≤ a < b ∧ b < two64 ∧ mem_base e ≤ a ∧ b ≤ mem_base e + mem_length e.
Proof.
  assert (pow2 4096) as Hp by (exists 12; done). unfold usable_page_range, align_up, align_down, FRAME_SIZE. change (negb (is_power_of_two 4096)) with false. intros Hb Hlen.
  destruct (mem_usable e); [|done]. simpl negb. cbn match. destruct (checked_add (mem_base e) (4096 - 1)) as [v|] eqn:Ev; [|done].
  apply checked_add_Some in Ev as [-> Hv]. unfold is_u64 in Hb.
  rewrite !land_not_mask by (done || (unfold is_u64, saturating_add, u64_max; lia)).
  set (m := saturating_add (mem_base e) (mem_length e)).
  destruct (Z.ltb_spec (mem_base e + (4096 - 1) - (mem_base e + (4096 - 1)) mod 4096) (m - m mod 4096)); [|done].
  intros [= <- <-]. unfold m, saturating_add, u64_max in *. clear m.
  pose proof (Z.mod_pos_bound (mem_base e + (4096 - 1)) 4096). pose proof (Z.mod_pos_bound (Z.min 18446744073709551615 (mem_base e + mem_length e)) 4096).
  split_and!; try lia.
  - rewrite Zminus_mod, Z.mod_mod, Z.sub_diag by lia. done.
  - rewrite Zminus_mod, Z.mod_mod, Z.sub_diag by lia. done.
Qed.
Definition entry_ok (e : MemEntry) : Prop := is_u64 (mem_base e) ∧ is_u64 (mem_length e).
Definition range_ok (r : Z * Z) : Prop := r.1 mod FRAME_SIZE = 0 ∧ r.2 mod FRAME_SIZE = 0 ∧ 0 ≤ r.1 < r.2 ∧ r.2 < two64.
Lemma usable_ranges_ok l rs : Forall entry_ok l → usable_ranges l = Some rs → Forall range_ok rs.
Proof.
  revert rs. induction l as [|e l IH]; intros rs Hall; simpl; [by intros [= <-]|]. apply Forall_cons in Hall as [[Hb Hlen] Hall].
  destruct (usable_page_range e) as [[[a b]|]|] eqn:E; [| |done]; destruct (usable_ranges l) as [rs'|]; try done; intros [= <-].
  - constructor; [|by apply IH]. unfold is_u64 in Hlen. destruct (mul_range_aligned e a b Hb ltac:(lia) E) as (? & ? & ? & ? & _). done.
  - by apply IH.
Qed.
(** A range of whole frames as a segment. *)
Definition range_segment (r : Z * Z) : Segment := mkSegment (r.1 / FRAME_SIZE) (r.2 / FRAME_SIZE) 0.
Lemma range_frames_segment r : range_ok r → range_frames r = frames_from (seg_start (range_segment r)) (Z.to_nat (seg_end (range_segment r) - seg_start (range_segment r))).
Proof.
  intros (H1 & H2 & ?). unfold range_frames, range_segment. simpl. f_equal. f_equal.
  pose proof (Z.div_mod r.1 FRAME_SIZE ltac:(done)) as E1. pose proof (Z.div_mod r.2 FRAME_SIZE ltac:(done)) as E2.
  rewrite H1 in E1. rewrite H2 in E2. replace (r.2 - r.1) with ((r.2 / FRAME_SIZE - r.1 / FRAME_SIZE) * FRAME_SIZE) by lia.
  by apply Z.div_mul.
Qed.
Lemma ranges_frames rs : Forall range_ok rs → flat_map range_frames rs = seg_frames (map range_segment rs).
Proof. induction 1 as [|r rs Hr _ IH]; [done|]. simpl. by rewrite IH, range_frames_segment. Qed.

Lemma pages_for_len_ge len n : is_u64 len → pages_for_len len = Some n → len ≤ n * FRAME_SIZE.
Proof.
  assert (pow2 4096) as Hp by (exists 12; done). unfold pages_for_len, align_up, FRAME_SIZE. change (negb (is_power_of_two 4096)) with false. intros Hl.
  destruct (Z.eqb_spec len 0) as [->|]; [intros [= <-]; lia|]. destruct (checked_add len (4096 - 1)) as [v|] eqn:Ev; [|done].
  apply checked_add_Some in Ev as [-> Hv]. intros [= <-]. unfold is_u64 in Hl. rewrite land_not_mask by (done || (unfold is_u64; lia)).
  pose proof (Z.mod_pos_bound (len + (4096 - 1)) 4096). pose proof (Z.div_mod (len + (4096 - 1)) 4096).
  replace (len + (4096 - 1) - (len + (4096 - 1)) mod 4096) with ((len + (4096 - 1)) / 4096 * 4096) by lia. rewrite Z.div_mul; lia.
Qed.
Lemma max_end_ge (rs : list (Z * Z)) r : r ∈ rs → r.2 ≤ foldr (λ r m, Z.max r.2 m) 0 rs.
Proof. induction rs as [|r' rs IH]; intros Hin; [by apply not_elem_of_nil in Hin|]. apply elem_of_cons in Hin as [->|Hin]; simpl; [lia|]. specialize (IH Hin). lia. Qed.
Lemma max_end_u64 (rs : list (Z * Z)) : Forall range_ok rs → is_u64 (foldr (λ r m, Z.max r.2 m) 0 rs).
Proof. induction 1 as [|r rs (? & ? & ? & ?) _ IH]; simpl; unfold is_u64 in *; lia. Qed.

(** Frames of a database within [n] frame numbers. *)
Lemma seg_frames_length_le segs total n :
  slices segs 0 0 total → (∀ x, x ∈ seg_frames segs → x < n) → 0 ≤ n → total ≤ n.
Proof.
  intros Hs Hn H0. destruct (seg_frames_bound _ _ _ _ Hs) as [Hlen Hlo]. pose proof (NoDup_seg_frames _ _ _ _ Hs) as Hnd.
  assert (length (seg_frames segs) ≤ length (seqZ 0 n))%nat as Hle.
  { apply submseteq_length, NoDup_submseteq; [done|]. intros x Hx. apply elem_of_seqZ. rewrite Forall_forall in Hlo.
    specialize (Hlo x Hx). specialize (Hn x Hx). simpl in Hlo. lia. }
  rewrite length_seqZ in Hle. lia.
Qed.

Lemma cached_fresh z : concat (cached z <$> replicate MAX_PAGE_CPUS cache_new) = [].
Proof. generalize MAX_PAGE_CPUS. intros n. induction n as [|n IH]; [done|]. cbn [replicate]. rewrite fmap_cons. cbn [concat]. rewrite IH. by destruct z. Qed.
Lemma cache_new_ok : cache_ok cache_new.
Proof. intros []; split; simpl; unfold PAGE_CACHE_CAPACITY; lia. Qed.

(** The published database satisfies the invariant. *)
Lemma published_inv segs total base end_ f s used free maximum content :
  slices segs 0 0 total → f ≡ₚ seg_frames segs → publishing segs total base end_ f s used free →
  (∀ x, x ∈ seg_frames segs → x < maximum) → 0 ≤ maximum ≤ 4294967295 →
  phys_inv (mkPhys true segs (pagedb s) maximum (free_list s) [] free (caches s) total used free 0 0 0 0 0 0 0 content).
Proof.
  intros Hs Hf [Es Hlen He Hfl Hu [Hn Hn2] Hc] Hmax H32.
  set (s' := mkPhys _ _ _ _ _ _ _ _ _ _ _ _ _ _ _ _ _ _ _).
  assert (∀ x, x ∈ f ↔ is_Some (find_slice segs x)) as Hin by (intros x; rewrite Hf; by eapply seg_frames_elem).
  assert (∀ x, entry s' x = match find_slice segs x with Some _ => Some (published base end_ x) | None => None end) as He'.
  { intros x. transitivity (entry s x); [unfold entry; by rewrite Es|]. rewrite He. destruct (find_slice segs x) eqn:E; [|done].
    rewrite decide_True; [done|]. apply Hin. by eexists. }
  assert (∀ z, pool z s' = if z then [] else List.filter (λ x, negb (reserved base end_ x)) f) as Hpool.
  { intros z. unfold pool. simpl. rewrite Hc, cached_fresh, app_nil_r. by destruct z. }
  assert (∀ p, p ∈ pagedb s → ∃ x, p = published base end_ x) as Hall.
  { intros p Hp. apply list_elem_of_lookup in Hp as [i Hi]. assert (i < length (pagedb s))%nat by (by eapply lookup_lt_Some).
    destruct (find_slice_surj segs 0 0 total (Z.of_nat i) Hs) as [x Hx]; [lia|]. exists x.
    specialize (He' x). unfold entry in He'. simpl in He'. rewrite (seg_lookup_find _ _ _ _ _ Hs), Hx, Nat2Z.id, Hi in He'. by simplify_eq. }
  split.
  - split; try done.
    + simpl. by rewrite Hlen.
    + intros x p. rewrite He'. destruct (find_slice segs x) eqn:E; [|done]. intros [= <-].
      destruct (published_state base end_ x) as (_ & _ & Hwf & Hfn). split_and!; [done|done|]. apply Hmax, (seg_frames_elem _ _ _ _ _ Hs). by eexists.
    + simpl. lia.
    + simpl. rewrite Hlen. apply (seg_frames_length_le segs); [done|done|lia].
    + simpl. rewrite Hc, length_replicate. split; [done|]. apply Forall_replicate, cache_new_ok.
    + rewrite !Hpool. unfold nobody. rewrite !app_nil_r. apply (NoDup_ListNoDup _), List.NoDup_filter, NoDup_ListNoDup. rewrite Hf. by eapply NoDup_seg_frames.
    + intros z x. rewrite Hpool. unfold nobody. rewrite app_nil_r, He'. destruct (published_state base end_ x) as (Hst & _). destruct z.
      * rewrite elem_of_nil. split; [done|]. intros (p & Hp & Hz). destruct (find_slice segs x); [|done]. injection Hp as <-. rewrite Hst in Hz. by destruct (reserved base end_ x).
      * rewrite list_elem_of_In, List.filter_In, <- list_elem_of_In, Hin. split.
        -- intros [[i ->] Hr]. eexists. split; [done|]. rewrite Hst. by destruct (reserved base end_ x).
        -- intros (p & Hp & Hz). destruct (find_slice segs x); [|done]. injection Hp as <-. split; [by eexists|]. rewrite Hst in Hz. by destruct (reserved base end_ x).
    + intros x p. rewrite He'. destruct (find_slice segs x); [|done]. intros [= <-]. destruct (published_state base end_ x) as (-> & _).
      by destruct (reserved base end_ x).
    + simpl. rewrite Hn2. lia.
  - split; simpl; try done.
    + rewrite countb_zero with (f := in_state StZero); [lia|]. intros p Hp. destruct (Hall p Hp) as [x ->]. destruct (published_state base end_ x) as (Hst & _).
      rewrite (in_state_spec _ _ _ Hst). by destruct (reserved base end_ x).
    + rewrite countb_zero with (f := in_state StZero); [done|]. intros p Hp. destruct (Hall p Hp) as [x ->]. destruct (published_state base end_ x) as (Hst & _).
      rewrite (in_state_spec _ _ _ Hst). by destruct (reserved base end_ x).
    + rewrite countb_zero; [done|]. intros p Hp. destruct (Hall p Hp) as [x ->]. apply unowned_counts, published_state.
    + rewrite countb_zero; [done|]. intros p Hp. destruct (Hall p Hp) as [x ->]. apply unowned_counts, published_state.
    + rewrite countb_zero; [done|]. intros p Hp. destruct (Hall p Hp) as [x ->]. apply unowned_counts, published_state.
    + rewrite countb_zero; [done|]. intros p Hp. destruct (Hall p Hp) as [x ->]. apply unowned_counts, published_state.
Qed.

Lemma fresh_db segs :
  flat_map (λ g, map fresh_page (frames_from (seg_start g) (Z.to_nat (seg_end g - seg_start g)))) segs = map fresh_page (seg_frames segs).
Proof. induction segs as [|g segs IH]; [done|]. simpl. by rewrite IH, map_app. Qed.
Lemma publishing_start segs total base end_ content :
  slices segs 0 0 total →
  publishing segs total base end_ []
    (mkPhys false segs (map fresh_page (seg_frames segs)) 0 [] [] 0 (replicate MAX_PAGE_CPUS cache_new) 0 0 0 0 0 0 0 0 0 0 content) 0 0.
Proof.
  intros Hs. destruct (seg_frames_bound _ _ _ _ Hs) as [Hlen _].
  assert (∀ l c lo, slices l c lo total → c ≤ total) as Hle.
  { clear. induction l as [|g l IH]; intros c lo; simpl; [lia|]. intros (? & _ & Hl). apply IH in Hl. lia. }
  apply Hle in Hs as H0. assert (∀ st, st ≠ StReserved → countb (in_state st) (map fresh_page (seg_frames segs)) = 0) as Hc.
  { intros st Hst. apply countb_zero. intros p Hp. apply list_elem_of_In, in_map_iff in Hp as (x & <- & _). by destruct st. }
  split; try done.
  - simpl. rewrite length_map. lia.
  - intros x. unfold entry. simpl. rewrite (seg_lookup_find _ _ _ _ _ Hs). destruct (find_slice segs x) as [i|] eqn:E; [|done].
    rewrite list_lookup_fmap. pose proof (seg_frames_lookup _ _ _ _ _ _ Hs E) as Hx. rewrite Z.sub_0_r in Hx. rewrite Hx. done.
  - simpl. by rewrite Hc.
  - simpl. by rewrite Hc.
Qed.

(** What the boot code builds. *)
Lemma phys_init_spec page_size_of mmap content s :
  Forall entry_ok mmap → phys_init page_size_of mmap content = Some s →
  phys_inv s ∧ memory s = content ∧
  ∃ rs, usable_ranges mmap = Some rs ∧ ∀ pfn, is_Some (entry s pfn) ↔ ∃ r, r ∈ rs ∧ r.1 ≤ pfn * FRAME_SIZE < r.2.
Proof.
  intros Hok. unfold phys_init. destruct (usable_ranges mmap) as [rs|] eqn:Ers; [|done].
  pose proof (usable_ranges_ok _ _ Hok Ers) as Hrs. set (max_end := foldr _ 0 rs). set (usable := foldr _ 0 rs).
  destruct (max_end =? 0); [done|]. destruct (pages_for_len max_end) as [maximum|] eqn:Emax; [|done].
  destruct (pages_for_len (page_size_of * usable)) as [dbp|]; [|done]. destruct (pages_for_len (Z.of_nat (length rs) * 24)) as [sp|]; [|done].
  destruct (Z.leb_spec maximum 4294967295) as [H32|]; [|done]. simpl negb. cbn match.
  set (chunk := (_ + _) * FRAME_SIZE). clearbody chunk. destruct (List.find _ rs) as [[base x]|]; [|done].
  change (map (λ r, mkSegment (r.1 / FRAME_SIZE) (r.2 / FRAME_SIZE) 0) rs) with (map range_segment rs). unfold initialize.
  destruct (assign_slices _ 0 0) as [[segs count]|] eqn:Eas; [|done]. apply assign_slices_spec in Eas as [Hs Hm].
  destruct (Z.eqb_spec count usable) as [Eu|]; [|done]. simpl negb. cbn match. rewrite fresh_db, ranges_frames by done.
  assert (seg_frames segs ≡ₚ seg_frames (map range_segment rs)) as Hperm.
  { assert (∀ l l', map seg_range l = map seg_range l' → seg_frames l = seg_frames l') as Heq.
    { clear. induction l as [|g l IH]; intros [|g' l'] E; try done. simpl in E. unfold seg_range in E at 1 3. injection E as E1 E2 E.
      simpl. by rewrite E1, E2, (IH l' E). }
    rewrite (Heq _ _ Hm). apply seg_frames_perm, sort_segments_perm. }
  assert (∀ x, x ∈ seg_frames segs ↔ ∃ r, r ∈ rs ∧ r.1 ≤ x * FRAME_SIZE < r.2) as Hframes.
  { intros y. rewrite Hperm, <- ranges_frames by done. rewrite list_elem_of_In, in_flat_map. setoid_rewrite <- list_elem_of_In.
    rewrite Forall_forall in Hrs. split; intros (r & Hr & Hy); exists r; (split; [done|]); destruct (Hrs r Hr) as (M1 & M2 & ? & ?).
    - rewrite range_frames_segment in Hy by (by apply Hrs). apply frames_from_elem in Hy. simpl in Hy.
      pose proof (Z.div_mod r.1 FRAME_SIZE ltac:(done)). pose proof (Z.div_mod r.2 FRAME_SIZE ltac:(done)). unfold FRAME_SIZE in *. lia.
    - rewrite range_frames_segment by (by apply Hrs). apply frames_from_elem. simpl.
      pose proof (Z.div_mod r.1 FRAME_SIZE ltac:(done)). pose proof (Z.div_mod r.2 FRAME_SIZE ltac:(done)). unfold FRAME_SIZE in *. lia. }
  assert (∀ y, y ∈ seg_frames segs → y < maximum) as Hbelow.
  { intros y Hy. apply Hframes in Hy as (r & Hr & Hy). pose proof (max_end_ge rs r Hr) as Hge. fold max_end in Hge.
    pose proof (pages_for_len_ge max_end maximum (max_end_u64 rs Hrs) Emax). unfold FRAME_SIZE in *. lia. }
  assert (0 ≤ maximum) as H0.
  { pose proof (pages_for_len_ge max_end maximum (max_end_u64 rs Hrs) Emax). pose proof (max_end_u64 rs Hrs) as [? _]. fold max_end in H0. unfold FRAME_SIZE in *. lia. }
  destruct (publish_all segs count base (base + chunk) Hs (seg_frames (map range_segment rs)) [] _ 0 0 (publishing_start _ _ _ _ content Hs))
    as (s' & used & free & -> & Hpub & Hmem & _).
  - simpl. rewrite <- Hperm. by eapply NoDup_seg_frames.
  - intros y Hy. rewrite <- Hperm in Hy. by apply (seg_frames_elem _ _ _ _ _ Hs) in Hy.
  - intros [= <-]. rewrite <- Eu. split_and!; [|done|].
    + eapply (published_inv segs count base (base + chunk)); [done|symmetry; exact Hperm|exact Hpub|done|lia].
    + exists rs. split; [done|]. intros pfn. rewrite <- Hframes, (seg_frames_elem _ _ _ _ _ Hs). destruct Hpub as [Es Hlen He _ _ _ _].
      specialize (He pfn). unfold entry in *. simpl. rewrite Es in He. rewrite He. destruct (find_slice segs pfn); split; intros [? ?]; try done; by eexists.
Qed.
