(* ===== verification/PhysTheorems.v ===== *)
(** The properties of the physical allocator, over every sequence of
    operations from the boot memory map on. *)
From S2P Require Import Prelude.
From S2P Require Import Bytes.
From S2P Require Import Phys.
From S2P Require Import PhysInv.
From S2P Require Import PhysOps.
From S2P Require Import PhysRuns.
From S2P Require Import PhysInit.
Open Scope rust_scope.









(** C9: A page allocation takes a frame that was free, resets its entry, changes
    no other entry and no byte of any other frame, and clears the frame when
    zeros were asked for. It fails only when every cache is empty and the
    reserve is denied to the caller, and then changes nothing. *)
Theorem alloc_page_correct usage fl c s o
    (Hinv : phys_inv s) (Hcpu : (cpu c < MAX_PAGE_CPUS)%nat) (Hu : dynamic_use usage = true) :
  wp (alloc_page usage fl c) (λ r s' o', o' = o ∧ phys_inv s' ∧
     match r with
     | Some pfn => allocated usage s s' pfn ∧ (has_flag fl ZERO = true → memory s' pfn = zero_frame)
     | None => s' = s ∧ access (nfree s) (cpus c) (is_kernel c || has_flag fl USERESERVE) (is_page_daemon c) = Denied ∧
         ∀ id, (id < MAX_PAGE_CPUS)%nat → cache_empty id s
     end) s o.
Proof. eapply wp_mono; [by apply alloc_page_spec|]. intros r s' o' (? & ? & _ & ?). done. Qed.

(** C10: A contiguous allocation returns a run of frames that were all free, at the
    alignment asked for and below the limit, and touches no other entry and no
    byte. It refuses only an empty run, an alignment that is not a power of
    two, a request beyond the free frames that are not reserved, or one that
    no run of free frames satisfies. *)
Theorem alloc_contiguous_correct usage count align_pages max_address c s o
    (Hinv : phys_inv s) (Hu : dynamic_use usage = true) (Hmax : is_u64 max_address) (Halign : is_u64 align_pages) :
  let align := Z.max align_pages 1 in
  let minimum := if is_page_daemon c then 0 else DAEMON_PAGES in
  wp (alloc_contiguous usage count align_pages max_address c) (λ r s' o', o' = o ∧ phys_inv s' ∧ memory s' = memory s ∧
     match r with
     | Some b => 0 ≤ b ∧ (align | b) ∧ run_below b count max_address ∧
         (∀ x, b ≤ x < b + Z.of_nat count → free_at s x ∧ ∃ p, entry s x = Some p ∧ entry s' x = Some (claimed usage p)) ∧
         (∀ x, ¬ (b ≤ x < b + Z.of_nat count) → entry s' x = entry s x)
     | None => (∀ x, entry s' x = entry s x) ∧
         (count = 0%nat ∨ ¬ pow2 align ∨ free_count s < Z.of_nat count + minimum ∨
          ∀ b, 0 ≤ b → (align | b) → run_below b count max_address → ∃ i, 0 ≤ i < Z.of_nat count ∧ ¬ free_at s (b + i))
     end) s o.
Proof. eapply wp_mono; [by apply alloc_contiguous_spec|]. intros r s' o' (? & ? & _ & ? & ?). done. Qed.

(** ** A small machine *)

(** Sixty-four frames of memory with a hole. *)
Definition phys_demo_map : list MemEntry := [mkMem 0x100000 0x10000 true; mkMem 0x1000 0x30800 true; mkMem 0xa0000 0x1000 false].
Definition phys_demo_content (pfn : Z) : list Z := [].
Definition phys_demo_caller : Caller := mkCaller 0 1 false true.
Definition phys_demo_boot : option Phys := phys_init 128 phys_demo_map phys_demo_content.
Definition demo_phys : Phys := match phys_demo_boot with Some s => s | None => mkPhys false [] [] 0 [] [] 0 [] 0 0 0 0 0 0 0 0 0 0 phys_demo_content end.
Lemma phys_demo_booted : phys_init 128 phys_demo_map phys_demo_content = Some demo_phys.
Proof. vm_compute. reflexivity. Qed.
Lemma phys_demo_map_ok : Forall entry_ok phys_demo_map.
Proof. repeat constructor; unfold is_u64; simpl; lia. Qed.
Lemma phys_demo_inv : phys_inv demo_phys.
Proof. exact (proj1 (phys_init_spec _ _ _ _ phys_demo_map_ok phys_demo_booted)). Qed.

Lemma alloc_page_correct_witness :
  wp (alloc_page UseManaged ZERO phys_demo_caller) (λ r s' o', o' = [] ∧ phys_inv s' ∧
     match r with
     | Some pfn => allocated UseManaged demo_phys s' pfn ∧ (has_flag ZERO ZERO = true → memory s' pfn = zero_frame)
     | None => s' = demo_phys ∧ access (nfree demo_phys) 1 (true || has_flag ZERO USERESERVE) false = Denied ∧
         ∀ id, (id < MAX_PAGE_CPUS)%nat → cache_empty id demo_phys
     end) demo_phys [].
Proof. exact (alloc_page_correct UseManaged ZERO phys_demo_caller demo_phys [] phys_demo_inv (Nat.lt_0_succ 255) eq_refl). Defined.
Lemma alloc_contiguous_correct_witness :
  wp (alloc_contiguous UseManaged 4 4 0xffffffff phys_demo_caller) (λ r s' o', o' = [] ∧ phys_inv s' ∧ memory s' = memory demo_phys ∧
     match r with
     | Some b => 0 ≤ b ∧ (4 | b) ∧ run_below b 4 0xffffffff ∧
         (∀ x, b ≤ x < b + Z.of_nat 4 → free_at demo_phys x ∧ ∃ p, entry demo_phys x = Some p ∧ entry s' x = Some (claimed UseManaged p)) ∧
         (∀ x, ¬ (b ≤ x < b + Z.of_nat 4) → entry s' x = entry demo_phys x)
     | None => (∀ x, entry s' x = entry demo_phys x) ∧
         (4%nat = 0%nat ∨ ¬ pow2 4 ∨ free_count demo_phys < Z.of_nat 4 + DAEMON_PAGES ∨
          ∀ b, 0 ≤ b → (4 | b) → run_below b 4 0xffffffff → ∃ i, 0 ≤ i < Z.of_nat 4 ∧ ¬ free_at demo_phys (b + i))
     end) demo_phys [].
Proof.
  refine (alloc_contiguous_correct UseManaged 4 4 0xffffffff phys_demo_caller demo_phys [] phys_demo_inv eq_refl _ _); unfold is_u64; lia.
Defined.
