(* ===== verification/Swap.v ===== *)
(** * Compressed swap

    The swap storage of [mem/swap.rs]: pages of one repeated word, compressed
    pages in a table of slots, and an external store. The compressor and the
    external store are behind the classes [Lz4] and [SwapBackend]. The oracle
    answers whether a reservation of memory succeeds and whether the state
    could be locked without waiting. *)
From stdpp Require Import base list.
From S2P Require Import Prelude.
From S2P Require Import Bytes.
From S2P Require Import Phys.
Open Scope rust_scope.

(** The slot of an external store. *)
Abbreviation ExternalSwapSlot := Z (only parsing).
Inductive SwapHandle : Type :=
| Fill (value : Z)
| Compressed (slot : nat)
| External (slot : ExternalSwapSlot).
Inductive SwapError : Type := SwapFull | Incompressible | Corrupt | SwapIo.
#[export] Instance SwapHandle_eq_dec : EqDecision SwapHandle.
Proof. solve_decision. Defined.
#[export] Instance SwapError_eq_dec : EqDecision SwapError.
Proof. solve_decision. Defined.

(** [compress_into] a buffer of the maximum output size, and
    [decompress_into] a given buffer: the count it returns and the buffer it
    leaves. *)
Class Lz4 : Type := {
  compress_into : list Z → option (list Z);
  decompress_into : list Z → list Z → option nat * list Z;
}.
(** The trait of external stores, over a store of type [B]. *)
Class SwapBackend (B : Type) : Type := {
  be_store : list Z → B → result SwapError ExternalSwapSlot * B;
  be_load : ExternalSwapSlot → list Z → B → result SwapError () * list Z * B;
  be_free : ExternalSwapSlot → B → B;
}.

Definition MAX_USEFUL_COMPRESSED_BYTES : nat := 2048.

Record CompressedSlot : Type := mkSlot {
  slot_data : option (list Z);
  slot_checksum : Z;
  slot_resident : bool;
}.
#[export] Instance CompressedSlot_eq_dec : EqDecision CompressedSlot.
Proof. solve_decision. Defined.
Definition empty_slot : CompressedSlot := mkSlot None 0 false.

(** [SwapManager] with its [SwapState]. The head of [free_slots] is the end of
    the vector, where it is popped and pushed; [free_capacity] is the room the
    vector has reserved. *)
Record Swap (B : Type) : Type := mkSwap {
  maximum_compressed_bytes : Z;
  compressed_bytes : Z;
  compressed_pages : Z;
  same_fill_pages : Z;
  external_pages : Z;
  pageins : Z;
  pageouts : Z;
  rejected_pages : Z;
  configuration_generation : Z;
  compressed : list CompressedSlot;
  free_slots : list nat;
  free_capacity : nat;
  maximum_slots : nat;
  backend : option B;
  external_ops : Z;
  resident_pages : Z;
  resident_bytes : Z;
}.
Arguments mkSwap {B}.
Arguments maximum_compressed_bytes {B}. Arguments compressed_bytes {B}. Arguments compressed_pages {B}.
Arguments same_fill_pages {B}. Arguments external_pages {B}. Arguments pageins {B}. Arguments pageouts {B}.
Arguments rejected_pages {B}. Arguments configuration_generation {B}. Arguments compressed {B}. Arguments free_slots {B}.
Arguments free_capacity {B}. Arguments maximum_slots {B}. Arguments backend {B}. Arguments external_ops {B}.
Arguments resident_pages {B}. Arguments resident_bytes {B}.

Section updates.
Context {B : Type}.
Implicit Types s : Swap B.
(** The payload counters: bytes, pages, fills and external pages. *)
Definition with_stored (bytes pages fills externals : Z) s : Swap B :=
  mkSwap (maximum_compressed_bytes s) bytes pages fills externals (pageins s) (pageouts s) (rejected_pages s)
    (configuration_generation s) (compressed s) (free_slots s) (free_capacity s) (maximum_slots s) (backend s)
    (external_ops s) (resident_pages s) (resident_bytes s).
(** The traffic counters: page-ins, page-outs and rejections. *)
Definition with_traffic (ins outs rejected : Z) s : Swap B :=
  mkSwap (maximum_compressed_bytes s) (compressed_bytes s) (compressed_pages s) (same_fill_pages s) (external_pages s)
    ins outs rejected (configuration_generation s) (compressed s) (free_slots s) (free_capacity s) (maximum_slots s)
    (backend s) (external_ops s) (resident_pages s) (resident_bytes s).
(** The slot table, its free slots and their room. *)
Definition with_slots (slots : list CompressedSlot) (free : list nat) (room : nat) s : Swap B :=
  mkSwap (maximum_compressed_bytes s) (compressed_bytes s) (compressed_pages s) (same_fill_pages s) (external_pages s)
    (pageins s) (pageouts s) (rejected_pages s) (configuration_generation s) slots free room (maximum_slots s)
    (backend s) (external_ops s) (resident_pages s) (resident_bytes s).
(** The external store, the configuration and the operations in progress. *)
Definition with_backend (b : option B) (generation ops : Z) s : Swap B :=
  mkSwap (maximum_compressed_bytes s) (compressed_bytes s) (compressed_pages s) (same_fill_pages s) (external_pages s)
    (pageins s) (pageouts s) (rejected_pages s) generation (compressed s) (free_slots s) (free_capacity s)
    (maximum_slots s) b ops (resident_pages s) (resident_bytes s).
(** The slots whose page is also resident. *)
Definition with_resident (pages bytes : Z) s : Swap B :=
  mkSwap (maximum_compressed_bytes s) (compressed_bytes s) (compressed_pages s) (same_fill_pages s) (external_pages s)
    (pageins s) (pageouts s) (rejected_pages s) (configuration_generation s) (compressed s) (free_slots s)
    (free_capacity s) (maximum_slots s) (backend s) (external_ops s) pages bytes.
End updates.

(** The words of a page, and the digest over them. *)
Fixpoint words (n : nat) (l : list Z) : list (list Z) :=
  match n with O => [] | S n => take 8 l :: words n (drop 8 l) end.
Definition page_words (page : list Z) : list (list Z) := words (Nat.div (length page) 8) page.
Definition checksum_round (hash : Z) (word : list Z) : Z :=
  let hash := Z.lxor hash (of_le word) in
  let hash := wrap64 (hash * 0x100000001b3) in
  Z.lxor hash (Z.shiftr hash 29).
Definition page_checksum (page : list Z) : Z := foldl checksum_round 0xcbf29ce484222325 (page_words page).
(** The page a fill value stands for. *)
Definition fill_page (fill : Z) : list Z := concat (replicate 512 (to_le 8 fill)).

Section swap.
Context `{Lz4} {B : Type} `{SwapBackend B}.
Abbreviation SwapM := (M (Swap B)).

(** [init] *)
Definition swap_init (maximum_bytes : Z) (slots : Z) : Swap B :=
  mkSwap maximum_bytes 0 0 0 0 0 0 0 1 [] [] 0 (Z.to_nat (clamp slots 64 4294967295)) None 0 0 0.

(** Before initialization there is no capacity. *)
Definition has_capacity (m : option (Swap B)) : bool :=
  match m with
  | None => false
  | Some s => bool_decide (is_Some (backend s))
      || (compressed_bytes s <? maximum_compressed_bytes s)
         && (negb (bool_decide (free_slots s = [])) || bool_decide (length (compressed s) < maximum_slots s)%nat)
  end.
(** The subtractions wrap, as unchecked ones do. *)
Definition is_full (m : option (Swap B)) : bool :=
  match m with
  | None => true
  | Some s =>
      if bool_decide (is_Some (backend s)) then false
      else
        let only_pages := wrap64 (Z.of_nat (length (compressed s)) - Z.of_nat (length (free_slots s)) - resident_pages s) in
        let only_bytes := wrap64 (compressed_bytes s - resident_bytes s) in
        (Z.of_nat (maximum_slots s) <=? Z.min u64_max (only_pages * 100) / 99)
        || (maximum_compressed_bytes s <=? Z.min u64_max (only_bytes * 100) / 99)
  end.

(** [n as u32], for the number of a slot. *)
Definition as_slot (n : nat) : nat := Z.to_nat (Z.of_nat n mod 4294967296).
Definition take_slot : SwapM (option nat) :=
  let* s := get in
  match free_slots s with
  | slot :: free =>
      do modify (with_slots (compressed s) free (free_capacity s)) then ret (Some slot)
  | [] =>
      if (maximum_slots s <=? length (compressed s))%nat then ret None
      else
        let* ok := ask_pool in
        if negb ok then ret None
        else
          match checked_add (Z.of_nat (length (compressed s))) 1 with
          | None => ret None
          | Some required =>
              let additional := Z.to_nat (saturating_sub required (Z.of_nat (length (free_slots s)))) in
              let* ok := ask_pool in
              if negb ok then ret None
              else
                do modify (with_slots (compressed s ++ [empty_slot]) (free_slots s)
                             (Nat.max (free_capacity s) (length (free_slots s) + additional))) then
                ret (Some (as_slot (length (compressed s))))
          end
  end.

Definition set_slot (i : nat) (e : CompressedSlot) (s : Swap B) : Swap B :=
  with_slots (<[i:=e]> (compressed s)) (free_slots s) (free_capacity s) s.
Definition page_out : SwapM () := modify (λ s, with_traffic (pageins s) (wrap64 (pageouts s + 1)) (rejected_pages s) s).
Definition page_in : SwapM () := modify (λ s, with_traffic (wrap64 (pageins s + 1)) (pageouts s) (rejected_pages s) s).

(** The part of [store] under the lock; [None] when the payload found no room. *)
Definition store_compressed (payload : list Z) (checksum : Z) : SwapM (option SwapHandle) :=
  let* s := get in
  match checked_add (compressed_bytes s) (Z.of_nat (length payload)) with
  | None => ret None
  | Some next =>
      if negb (next <=? maximum_compressed_bytes s) then ret None
      else
        let* r := take_slot in
        match r with
        | None => ret None
        | Some slot =>
            let* s := get in
            let* e := expect (compressed s !! slot) in
            do massert (bool_decide (slot_data e = None) && negb (slot_resident e)) then
            do modify (set_slot slot (mkSlot (Some payload) checksum (slot_resident e))) then
            do modify (λ s, with_stored next (wrap64 (compressed_pages s + 1)) (same_fill_pages s) (external_pages s) s) then
            ret (Some (Compressed slot))
        end
  end.
(** The external store, after the compressed tier answered [e]. *)
Definition store_external (page : list Z) (e : SwapError) : SwapM (result SwapError SwapHandle) :=
  let* locked := ask_pool in
  if negb locked then ret (Err SwapFull)
  else
    let* s := get in
    match backend s with
    | None => ret (Err e)
    | Some b =>
        do modify (with_backend (Some b) (configuration_generation s) (wrap64 (external_ops s + 1))) then
        let '(r, b') := be_store page b in
        do modify (λ s, with_backend (Some b') (configuration_generation s) (wrap64 (external_ops s - 1)) s) then
        match r with
        | Err e => ret (Err e)
        | Ok slot =>
            do modify (λ s, with_stored (compressed_bytes s) (compressed_pages s) (same_fill_pages s)
                              (wrap64 (external_pages s + 1)) s) then
            do page_out then
            ret (Ok (External slot))
        end
    end.
Definition store (page : list Z) : SwapM (result SwapError SwapHandle) :=
  let fill := of_le (take 8 page) in
  if forallb (λ word, of_le word =? fill) (page_words page) then
    do modify (λ s, with_stored (compressed_bytes s) (compressed_pages s) (wrap64 (same_fill_pages s + 1))
                      (external_pages s) s) then
    do page_out then
    ret (Ok (Fill fill))
  else
    match compress_into page with
    | None => ret (Err Incompressible)
    | Some payload =>
        if (length payload <=? MAX_USEFUL_COMPRESSED_BYTES)%nat then
          let* reserved := ask_pool in
          if reserved then
            let* locked := ask_pool in
            if negb locked then ret (Err SwapFull)
            else
              let* r := store_compressed payload (page_checksum page) in
              match r with
              | Some handle => do page_out then ret (Ok handle)
              | None => store_external page SwapFull
              end
          else store_external page SwapFull
        else
          do modify (λ s, with_traffic (pageins s) (pageouts s) (wrap64 (rejected_pages s + 1)) s) then
          store_external page Incompressible
    end.

(** [load] into a buffer: the result and the buffer it leaves. *)
Definition load_compressed (slot : nat) (page : list Z) : SwapM (result SwapError () * list Z) :=
  let* s := get in
  match compressed s !! slot with
  | None => ret (Err Corrupt, page)
  | Some e =>
      match slot_data e with
      | None => ret (Err Corrupt, page)
      | Some data =>
          do modify (set_slot slot (mkSlot None (slot_checksum e) (slot_resident e))) then
          let '(count, page) := decompress_into data page in
          let valid := bool_decide (count = Some PAGE_BYTES) && (page_checksum page =? slot_checksum e) in
          let* s := get in
          match compressed s !! slot with
          | None => ret (Err Corrupt, page)
          | Some e =>
              do massert (bool_decide (slot_data e = None)) then
              do modify (set_slot slot (mkSlot (Some data) (slot_checksum e) (slot_resident e))) then
              ret (if valid then Ok () else Err Corrupt, page)
          end
      end
  end.
Definition load_external (slot : ExternalSwapSlot) (page : list Z) : SwapM (result SwapError () * list Z) :=
  let* s := get in
  match backend s with
  | None => ret (Err SwapIo, page)
  | Some b =>
      let '(r, page, b') := be_load slot page b in
      do modify (λ s, with_backend (Some b') (configuration_generation s) (external_ops s) s) then
      ret (r, page)
  end.
Definition load (handle : SwapHandle) (page : list Z) : SwapM (result SwapError () * list Z) :=
  let* r :=
    match handle with
    | Fill fill => ret (Ok (), fill_page fill)
    | Compressed slot => load_compressed slot page
    | External slot => load_external slot page
    end in
  match r with
  | (Ok _, page) => do page_in then ret (Ok (), page)
  | (Err e, page) => ret (Err e, page)
  end.

Definition swap_free (handle : SwapHandle) : SwapM () :=
  match handle with
  | Fill _ =>
      modify (λ s, with_stored (compressed_bytes s) (compressed_pages s) (wrap64 (same_fill_pages s - 1)) (external_pages s) s)
  | Compressed slot =>
      let* s := get in
      match compressed s !! slot with
      | None => ret ()
      | Some e =>
          match slot_data e with
          | None => ret ()
          | Some data =>
              let length_ := Z.of_nat (length data) in
              do modify (set_slot slot empty_slot) then
              do (if slot_resident e then
                    modify (λ s, with_resident (wrap64 (resident_pages s - 1)) (wrap64 (resident_bytes s - length_)) s)
                  else ret ()) then
              do modify (λ s, with_stored (wrap64 (compressed_bytes s - length_)) (wrap64 (compressed_pages s - 1))
                                (same_fill_pages s) (external_pages s) s) then
              let* s := get in
              do massert (length (free_slots s) <? free_capacity s)%nat then
              modify (with_slots (compressed s) (as_slot slot :: free_slots s) (free_capacity s))
          end
      end
  | External slot =>
      let* s := get in
      match backend s with
      | None => ret ()
      | Some b =>
          do modify (with_backend (Some b) (configuration_generation s) (wrap64 (external_ops s + 1))) then
          do modify (λ s, with_backend (Some (be_free slot b)) (configuration_generation s) (wrap64 (external_ops s - 1)) s) then
          modify (λ s, with_stored (compressed_bytes s) (compressed_pages s) (same_fill_pages s) (wrap64 (external_pages s - 1)) s)
      end
  end.

Definition set_resident (handle : SwapHandle) (resident : bool) : SwapM () :=
  match handle with
  | Compressed slot =>
      let* s := get in
      let* e := expect (compressed s !! slot) in
      if Bool.eqb (slot_resident e) resident then ret ()
      else
        let* data := expect (slot_data e) in
        let bytes := Z.of_nat (length data) in
        do modify (set_slot slot (mkSlot (slot_data e) (slot_checksum e) resident)) then
        if resident then
          modify (λ s, with_resident (wrap64 (resident_pages s + 1)) (wrap64 (resident_bytes s + bytes)) s)
        else
          modify (λ s, with_resident (wrap64 (resident_pages s - 1)) (wrap64 (resident_bytes s - bytes)) s)
  | _ => ret ()
  end.

Definition register_backend (b : B) : SwapM (result SwapError ()) :=
  let* s := get in
  match backend s with
  | Some _ => ret (Err SwapIo)
  | None => do modify (with_backend (Some b) (wrap64 (configuration_generation s + 1)) (external_ops s)) then ret (Ok ())
  end.
Definition unregister_backend : SwapM (result SwapError (option B)) :=
  let* s := get in
  if negb (external_pages s =? 0) || negb (external_ops s =? 0) then ret (Err SwapFull)
  else
    match backend s with
    | None => ret (Ok None)
    | Some b => do modify (with_backend None (wrap64 (configuration_generation s + 1)) (external_ops s)) then ret (Ok (Some b))
    end.
End swap.
