(* ===== verification/SwapSpec.v ===== *)
(** * The swap storage: what it holds

    [swap_inv live s] relates a state to the handles its clients hold, each
    with the page it stands for. Storing a page adds a handle, loading one
    gives the page back, and freeing it returns its slot. *)
From stdpp Require Import base list sorting.
From S2P Require Import Prelude.
From S2P Require Import Bytes.
From S2P Require Import Phys.
From S2P Require Import Swap.
Open Scope rust_scope.

#[local] Arguments sumz : simpl never.
#[local] Arguments countb : simpl never.

Lemma sumz_ext {A} (f g : A → Z) (l : list A) : (∀ e, e ∈ l → f e = g e) → sumz f l = sumz g l.
Proof. induction l as [|e l IH]; intros Hl; [done|]. rewrite !sumz_cons, (Hl e), IH; [done| |left]. intros x Hx. apply Hl. by right. Qed.
Lemma countb_seq {A} (f : A → bool) (l : list A) :
  countb f l = countb (λ i, match l !! i with Some e => f e | None => false end) (seq 0 (length l)).
Proof.
  induction l as [|e l IH] using rev_ind; [done|]. rewrite length_app, seq_app, !countb_app, IH. cbn. rewrite !countb_cons.
  rewrite list_lookup_middle by done. f_equal. unfold countb. f_equal. f_equal. apply List.filter_ext_in. intros i [_ Hi]%List.in_seq.
  by rewrite lookup_app_l by lia.
Qed.
Lemma sumz_seq {A} (f : A → Z) (l : list A) :
  sumz f l = sumz (λ i, match l !! i with Some e => f e | None => 0 end) (seq 0 (length l)).
Proof.
  induction l as [|e l IH] using rev_ind; [done|]. rewrite length_app, seq_app, !sumz_app, IH. cbn. rewrite !sumz_cons.
  rewrite list_lookup_middle by done. f_equal. apply sumz_ext. intros i [_ Hi]%elem_of_seq. by rewrite lookup_app_l by lia.
Qed.
Lemma sumz_perm {A} (f : A → Z) l k : l ≡ₚ k → sumz f l = sumz f k.
Proof. intros Hp. induction Hp; rewrite ?sumz_cons in *; lia. Qed.
Lemma countb_sumz {A} (f : A → bool) (l : list A) : countb f l = sumz (λ e, Z.b2z (f e)) l.
Proof. induction l as [|e l IH]; [done|]. by rewrite countb_cons, sumz_cons, IH. Qed.
Lemma sumz_sub {A} (f g h : A → Z) (l : list A) : (∀ e, e ∈ l → f e = g e - h e) → sumz f l = sumz g l - sumz h l.
Proof.
  induction l as [|e l IH]; intros Hl; [done|]. rewrite !sumz_cons, (Hl e), IH; [lia| |left]. intros x Hx. apply Hl. by right.
Qed.

(** The documented behaviour of the compressor. *)
Class Lz4Laws `{Lz4} : Prop := {
  lz4_roundtrip page data out : length page = PAGE_BYTES → Forall is_byte page → compress_into page = Some data →
    length out = PAGE_BYTES → decompress_into data out = (Some PAGE_BYTES, page);
  lz4_length data out : length (decompress_into data out).2 = length out;
}.
(** What the trait asks of an external store: [be_held] is the page of a slot. *)
Class SwapBackendLaws (B : Type) `{SwapBackend B} : Type := {
  be_held : B → Z → option (list Z);
  be_store_ok page b slot b' : be_store page b = (Ok slot, b') →
    be_held b slot = None ∧ ∀ x, be_held b' x = if bool_decide (x = slot) then Some page else be_held b x;
  be_store_err page b e b' : be_store page b = (Err e, b') → ∀ x, be_held b' x = be_held b x;
  be_load_law slot out b r out' b' : be_load slot out b = (r, out', b') →
    (∀ x, be_held b' x = be_held b x) ∧ length out' = length out ∧ (r = Ok () → be_held b slot = Some out');
  be_free_law slot b x : be_held (be_free slot b) x = if bool_decide (x = slot) then None else be_held b x;
}.

(** ** Words and fills *)

Definition page_ok (page : list Z) : Prop := length page = PAGE_BYTES ∧ Forall is_byte page.

Lemma words_concat n l : length l = (8 * n)%nat → concat (words n l) = l.
Proof.
  revert l. induction n as [|n IH]; intros l Hl; [by destruct l|].
  simpl. rewrite IH; [apply take_drop|]. rewrite length_drop. lia.
Qed.
Lemma words_length n l w : (8 * n ≤ length l)%nat → w ∈ words n l → length w = 8%nat.
Proof.
  revert l. induction n as [|n IH]; intros l Hl; simpl; [set_solver|].
  intros [->|Hw]%elem_of_cons; [rewrite length_take; lia|]. eapply IH; [|done]. rewrite length_drop. lia.
Qed.
Lemma words_bytes n l w : Forall is_byte l → w ∈ words n l → Forall is_byte w.
Proof.
  revert l. induction n as [|n IH]; intros l Hl; simpl; [set_solver|].
  intros [->|Hw]%elem_of_cons; [by apply Forall_take|]. eapply IH; [|done]. by apply Forall_drop.
Qed.
Lemma length_words n l : length (words n l) = n.
Proof. revert l. induction n as [|n IH]; intros l; simpl; [done|]. by rewrite IH. Qed.

Lemma fill_page_ok fill : page_ok (fill_page fill).
Proof.
  unfold page_ok, fill_page. split.
  - assert (∀ n, length (concat (replicate n (to_le 8 fill))) = (n * 8)%nat) as ->; [|by unfold PAGE_BYTES].
    intros n. induction n as [|n IH]; [done|]. rewrite replicate_S. cbn [concat]. rewrite length_app, IH, length_to_le. lia.
  - assert (∀ n, Forall is_byte (concat (replicate n (to_le 8 fill)))) as Hall; [|apply Hall].
    intros n. induction n as [|n IH]; [constructor|]. rewrite replicate_S. cbn [concat]. apply Forall_app. split; [apply to_le_bytes|done].
Qed.

(** A page all of whose words are the first one is that fill. *)
Lemma fill_page_spec page : page_ok page → forallb (λ word, of_le word =? of_le (take 8 page)) (page_words page) = true →
  fill_page (of_le (take 8 page)) = page.
Proof.
  intros [Hlen Hbytes] Hall. unfold page_words in Hall. rewrite Hlen in Hall. change (PAGE_BYTES / 8)%nat with 512%nat in Hall.
  assert (length page = 8 * 512)%nat as Hlen' by (rewrite Hlen; by unfold PAGE_BYTES).
  rewrite <- (words_concat 512 page Hlen') at 2. unfold fill_page. f_equal.
  apply replicate_as_elem_of. split; [apply length_words|]. intros w Hw.
  rewrite forallb_forall in Hall. specialize (Hall w). rewrite <- list_elem_of_In in Hall. specialize (Hall Hw).
  apply Z.eqb_eq in Hall. rewrite <- Hall.
  pose proof (words_length 512 page w ltac:(lia) Hw) as Hl. rewrite <- Hl. symmetry. apply to_of_le. by eapply words_bytes.
Qed.

(** ** The invariant *)

Definition live_slot (x : SwapHandle * list Z) : option nat := match x.1 with Compressed i => Some i | _ => None end.
Definition live_external (x : SwapHandle * list Z) : option Z := match x.1 with External i => Some i | _ => None end.
Definition is_fill (x : SwapHandle * list Z) : bool := match x.1 with Fill _ => true | _ => false end.
Definition is_external (x : SwapHandle * list Z) : bool := match x.1 with External _ => true | _ => false end.
Definition slot_bytes (e : CompressedSlot) : Z := match slot_data e with Some d => Z.of_nat (length d) | None => 0 end.
Definition slot_full (e : CompressedSlot) : bool := match slot_data e with Some _ => true | None => false end.
Definition resident_slot_bytes (e : CompressedSlot) : Z := if slot_resident e then slot_bytes e else 0.

Section spec.
Context `{Lz4Laws} {B : Type} `{SwapBackendLaws B}.
Implicit Types (s : Swap B) (live : list (SwapHandle * list Z)).

(** The storage of [s] gives [page] back for [h]. *)
Definition backs s (h : SwapHandle) (page : list Z) : Prop :=
  match h with
  | Fill v => page = fill_page v
  | Compressed i => ∃ data r, compressed s !! i = Some (mkSlot (Some data) (page_checksum page) r) ∧ compress_into page = Some data
  | External x => ∃ b, backend s = Some b ∧ be_held b x = Some page
  end.

(** The handles, the slots and the external store. *)
Record swap_held live s : Prop := {
  held_pages : ∀ h page, (h, page) ∈ live → page_ok page ∧ backs s h page;
  held_slots : omap live_slot live ++ free_slots s ≡ₚ seq 0 (length (compressed s));
  held_free : ∀ i, i ∈ free_slots s → compressed s !! i = Some empty_slot;
  held_externals : NoDup (omap live_external live);
  held_maximum : (length (compressed s) ≤ maximum_slots s)%nat ∧ Z.of_nat (maximum_slots s) ≤ 4294967295;
  held_room : (length (compressed s) ≤ free_capacity s)%nat;
}.
(** The counters. *)
Record swap_counts live s : Prop := {
  cnt_fills : same_fill_pages s = wrap64 (countb is_fill live);
  cnt_externals : external_pages s = wrap64 (countb is_external live);
  cnt_bytes : compressed_bytes s = sumz slot_bytes (compressed s);
  cnt_limit : compressed_bytes s ≤ maximum_compressed_bytes s ∧ is_u64 (maximum_compressed_bytes s);
  cnt_pages : compressed_pages s = countb slot_full (compressed s);
  cnt_resident : resident_pages s = countb slot_resident (compressed s);
  cnt_resident_bytes : resident_bytes s = sumz resident_slot_bytes (compressed s);
  cnt_ops : external_ops s = 0;
}.
Definition swap_inv live s : Prop := swap_held live s ∧ swap_counts live s.

Lemma swap_inv_perm live live' s : live ≡ₚ live' → swap_inv live s → swap_inv live' s.
Proof.
  intros Hp [Hh Hc]. split.
  - destruct Hh. split; try done.
    + intros h page Hin. apply held_pages0. by rewrite Hp.
    + rewrite <- held_slots0. by rewrite Hp.
    + by rewrite <- Hp.
  - destruct Hc. split; try done; by rewrite <- (countb_perm _ _ _ Hp).
Qed.

Lemma live_index live s i page : swap_held live s → (Compressed i, page) ∈ live →
  (i < length (compressed s))%nat ∧ i ∉ free_slots s.
Proof.
  intros Hh Hin. assert (i ∈ omap live_slot live) as Hi by (apply list_elem_of_omap; by exists (Compressed i, page)).
  pose proof (NoDup_seq 0 (length (compressed s))) as Hnd. rewrite <- (held_slots _ _ Hh), NoDup_app in Hnd.
  split; [|by apply Hnd]. assert (i ∈ seq 0 (length (compressed s))) as Hs by (rewrite <- (held_slots _ _ Hh); set_solver).
  apply elem_of_seq in Hs. lia.
Qed.
Lemma as_slot_small s n live : swap_held live s → (n < length (compressed s) ∨ n < maximum_slots s)%nat → as_slot n = n.
Proof. intros Hh Hn. destruct (held_maximum _ _ Hh). unfold as_slot. rewrite Z.mod_small; lia. Qed.
Lemma counts_small live s : swap_held live s → swap_counts live s →
  0 ≤ compressed_pages s ≤ 4294967295 ∧ 0 ≤ resident_pages s ≤ 4294967295.
Proof.
  intros Hh Hc. rewrite (cnt_pages _ _ Hc), (cnt_resident _ _ Hc). destruct (held_maximum _ _ Hh).
  pose proof (countb_bound slot_full (compressed s)). pose proof (countb_bound slot_resident (compressed s)). lia.
Qed.
Lemma slot_bytes_nonneg e : 0 ≤ slot_bytes e.
Proof. unfold slot_bytes. destruct (slot_data e); lia. Qed.
Lemma resident_le e : 0 ≤ resident_slot_bytes e ≤ slot_bytes e.
Proof. unfold resident_slot_bytes. pose proof (slot_bytes_nonneg e). destruct (slot_resident e); lia. Qed.

(** ** Taking a slot *)

(** The slot [i] is empty and neither free nor held. *)
Record slot_taken live s (i : nat) s' : Prop := {
  tk_slots : omap live_slot live ++ i :: free_slots s' ≡ₚ seq 0 (length (compressed s'));
  tk_table : compressed s' = compressed s ∨ compressed s' = compressed s ++ [empty_slot];
  tk_empty : ∀ j, j = i ∨ j ∈ free_slots s' → compressed s' !! j = Some empty_slot;
  tk_maximum : (length (compressed s') ≤ maximum_slots s)%nat;
  tk_room : (length (compressed s') ≤ free_capacity s')%nat;
  tk_rest : s' = with_slots (compressed s') (free_slots s') (free_capacity s') s;
}.
Lemma take_slot_spec live s o : swap_held live s →
  wp take_slot (λ r s' _, match r with None => s' = s | Some i => slot_taken live s i s' end) s o.
Proof.
  intros Hh. unfold take_slot. wp_steps. destruct (free_slots s) as [|slot free] eqn:Ef.
  - destruct (maximum_slots s <=? length (compressed s))%nat eqn:Em; [by wp_steps|]. apply Nat.leb_gt in Em.
    apply wp_bind, wp_ask. intros b o1 _ _. destruct b; cbn [negb]; cbn match; [|by wp_steps].
    destruct (checked_add _ 1) as [required|] eqn:Er; [|by wp_steps].
    unfold checked_add in Er. case_decide; [|done]. injection Er as <-.
    apply wp_bind, wp_ask. intros b o2 _ _. destruct b; cbn [negb]; cbn match; [|by wp_steps]. wp_steps.
    rewrite (as_slot_small s _ live) by (try done; lia). split; cbn.
    + rewrite length_app. cbn. rewrite seq_app. pose proof (held_slots _ _ Hh) as Hs. rewrite Ef, app_nil_r in Hs. by rewrite Hs.
    + by right.
    + intros j [->|[]%elem_of_nil]. by apply list_lookup_middle.
    + rewrite length_app. cbn. lia.
    + rewrite length_app. unfold saturating_sub. cbn. pose proof (held_room _ _ Hh). lia.
    + done.
  - wp_steps. pose proof (held_slots _ _ Hh) as Hs. rewrite Ef in Hs. split; cbn; try done.
    + by left.
    + intros j Hj. apply (held_free _ _ Hh). rewrite Ef. set_solver.
    + apply (held_maximum _ _ Hh).
    + apply (held_room _ _ Hh).
Qed.

(** Filling the taken slot gives a new handle. *)
Lemma backs_filled live s i s' h page e :
  swap_held live s → slot_taken live s i s' → (h, page) ∈ live → backs s h page → backs (set_slot i e s') h page.
Proof.
  intros Hh Ht Hin Hb. rewrite (tk_rest _ _ _ _ Ht). destruct h as [v|j|x]; cbn in *; [done| |done].
  destruct Hb as (data & r & Hj & Hd). exists data, r. split; [|done]. rewrite list_lookup_insert_ne.
  - destruct (tk_table _ _ _ _ Ht) as [-> | ->]; [done|]. by apply lookup_app_l_Some.
  - intros <-. pose proof (NoDup_seq 0 (length (compressed s'))) as Hnd. rewrite <- (tk_slots _ _ _ _ Ht), NoDup_app in Hnd.
    destruct Hnd as (_ & Hnd & _). apply (Hnd i); [|left]. apply list_elem_of_omap. by exists (Compressed i, page).
Qed.

(** A sum over the table after the taken slot was filled. *)
Lemma taken_sumz live s i s' e (f : CompressedSlot → Z) : slot_taken live s i s' → f empty_slot = 0 →
  sumz f (<[i:=e]> (compressed s')) = sumz f (compressed s) + f e.
Proof.
  intros Ht Hf. rewrite (sumz_insert _ _ _ empty_slot) by (apply (tk_empty _ _ _ _ Ht); by left).
  destruct (tk_table _ _ _ _ Ht) as [-> | ->]; [|rewrite sumz_app, sumz_cons; change (sumz f []) with 0]; lia.
Qed.
Lemma taken_countb live s i s' e (f : CompressedSlot → bool) : slot_taken live s i s' → f empty_slot = false →
  countb f (<[i:=e]> (compressed s')) = countb f (compressed s) + Z.b2z (f e).
Proof.
  intros Ht Hf. rewrite (countb_insert _ _ _ empty_slot) by (apply (tk_empty _ _ _ _ Ht); by left).
  destruct (tk_table _ _ _ _ Ht) as [-> | ->]; [|rewrite countb_app, countb_cons; change (countb f []) with 0]; rewrite Hf; change (Z.b2z false) with 0; lia.
Qed.

Lemma fill_slot live s i s' page payload next : swap_inv live s → slot_taken live s i s' → page_ok page →
  compress_into page = Some payload → next = compressed_bytes s + Z.of_nat (length payload) → next ≤ maximum_compressed_bytes s →
  let s1 := set_slot i (mkSlot (Some payload) (page_checksum page) false) s' in
  swap_inv ((Compressed i, page) :: live)
    (with_stored next (wrap64 (compressed_pages s1 + 1)) (same_fill_pages s1) (external_pages s1) s1).
Proof.
  intros [Hh Hc] Ht Hok Hpay Hnext Hle s1. pose proof (tk_rest _ _ _ _ Ht) as Hrest. split.
  - split; cbn.
    + intros h p [[= -> ->]|Hin]%elem_of_cons.
      * split; [done|]. exists payload, false. split; [|done]. cbn. rewrite list_lookup_insert_eq; [done|].
        apply lookup_lt_Some with empty_slot. apply (tk_empty _ _ _ _ Ht). by left.
      * destruct (held_pages _ _ Hh _ _ Hin) as [? Hb]. split; [done|].
        pose proof (backs_filled _ _ _ _ _ _ (mkSlot (Some payload) (page_checksum page) false) Hh Ht Hin Hb) as Hb'. by destruct h.
    + rewrite length_insert, <- (tk_slots _ _ _ _ Ht). apply Permutation_middle.
    + intros j Hj. rewrite list_lookup_insert_ne; [apply (tk_empty _ _ _ _ Ht); by right|]. intros <-.
      pose proof (NoDup_seq 0 (length (compressed s'))) as Hnd. rewrite <- (tk_slots _ _ _ _ Ht), NoDup_app, NoDup_cons in Hnd. by destruct Hnd as (_ & _ & ? & _).
    + apply (held_externals _ _ Hh).
    + rewrite length_insert, Hrest. cbn. pose proof (tk_maximum _ _ _ _ Ht). destruct (held_maximum _ _ Hh). lia.
    + rewrite length_insert. apply (tk_room _ _ _ _ Ht).
  - assert (compressed_pages s' = compressed_pages s) as Hpages by (by rewrite Hrest).
    pose proof (counts_small _ _ Hh Hc) as [? _]. destruct Hc. split; cbn; rewrite ?countb_cons; cbn; rewrite ?Hpages.
    + by rewrite Hrest.
    + by rewrite Hrest.
    + rewrite (taken_sumz live s i s') by done. unfold slot_bytes at 2. cbn. lia.
    + rewrite Hrest. cbn. by destruct cnt_limit0.
    + rewrite (taken_countb live s i s') by done. unfold wrap64. rewrite Z.mod_small by lia. cbn. lia.
    + rewrite (taken_countb live s i s') by done. rewrite Hrest. cbn. lia.
    + rewrite (taken_sumz live s i s') by done. rewrite Hrest. cbn. lia.
    + by rewrite Hrest.
Qed.

Lemma store_compressed_spec live s page payload o : swap_inv live s → page_ok page → compress_into page = Some payload →
  wp (store_compressed payload (page_checksum page))
    (λ r s' _, match r with Some h => swap_inv ((h, page) :: live) s' | None => swap_inv live s' end) s o.
Proof.
  intros Hi Hok Hpay. pose proof Hi as [Hh Hc]. unfold store_compressed. wp_steps.
  destruct (checked_add _ _) as [next|] eqn:En; [|by wp_steps]. unfold checked_add in En. case_decide; [|done]. injection En as <-.
  destruct (_ <=? maximum_compressed_bytes s) eqn:Em; cbn [negb]; cbn match; [|by wp_steps]. apply Z.leb_le in Em.
  apply wp_bind. eapply wp_mono; [by apply take_slot_spec|]. intros [i|] s1 o1; cbn beta iota; [|intros ->; by wp_steps].
  intros Ht. wp_steps. assert (compressed s1 !! i = Some empty_slot) as He by (apply (tk_empty _ _ _ _ Ht); by left).
  wp_steps. by apply fill_slot with s.
Qed.

(** ** Storing *)

Lemma inv_traffic live s a b c : swap_inv live s → swap_inv live (with_traffic a b c s).
Proof. intros [Hh Hc]. split; [by destruct Hh|by destruct Hc]. Qed.
Lemma inv_backend live s b g : swap_inv live s → (∀ x page, (External x, page) ∈ live → be_held b x = Some page) →
  swap_inv live (with_backend (Some b) g 0 s).
Proof.
  intros [Hh Hc] Hb. split; [|by destruct Hc]. destruct Hh. split; cbn; try done.
  intros h page Hin. destruct (held_pages0 _ _ Hin) as [? Hp]. split; [done|]. destruct h; cbn in *; [done|done|]. exists b. split; [done|]. by apply Hb.
Qed.
Lemma live_held live s b x page : swap_held live s → backend s = Some b → (External x, page) ∈ live → be_held b x = Some page.
Proof. intros Hh Hb Hin. destruct (held_pages _ _ Hh _ _ Hin) as [_ (b' & Hb' & ?)]. congruence. Qed.

Lemma inv_fill live s v : swap_inv live s →
  swap_inv ((Fill v, fill_page v) :: live)
    (with_stored (compressed_bytes s) (compressed_pages s) (wrap64 (same_fill_pages s + 1)) (external_pages s) s).
Proof.
  intros [Hh Hc]. split.
  - destruct Hh. split; cbn; try done. intros h page [[= -> ->]|Hin]%elem_of_cons; [split; [apply fill_page_ok|done]|].
    destruct (held_pages0 _ _ Hin). by destruct h.
  - destruct Hc. split; cbn; rewrite ?countb_cons; try done. rewrite cnt_fills0. cbn. unfold wrap64. rewrite Zplus_mod_idemp_l. f_equal. lia.
Qed.

Lemma inv_external live s b page slot b' : swap_inv live s → backend s = Some b → page_ok page →
  be_store page b = (Ok slot, b') →
  let s1 := with_backend (Some b') (configuration_generation s) 0 s in
  swap_inv ((External slot, page) :: live)
    (with_stored (compressed_bytes s1) (compressed_pages s1) (same_fill_pages s1) (wrap64 (external_pages s1 + 1)) s1).
Proof.
  intros [Hh Hc] Hb Hok Hst s1. destruct (be_store_ok _ _ _ _ Hst) as [Hnone Hheld].
  assert (∀ x p, (External x, p) ∈ live → x ≠ slot) as Hne.
  { intros x p Hin ->. pose proof (live_held _ _ _ _ _ Hh Hb Hin). congruence. }
  split.
  - pose proof Hh as Hh'. destruct Hh. split; cbn; try done.
    + intros h p [[= -> ->]|Hin]%elem_of_cons; [split; [done|]; exists b'; split; [done|]; rewrite Hheld; by rewrite bool_decide_true|].
      destruct (held_pages0 _ _ Hin) as [? Hp]. split; [done|]. destruct h as [v|i|x]; cbn in *; [done|done|]. exists b'. split; [done|].
      rewrite Hheld, bool_decide_false by (by eapply Hne). by eapply live_held.
    + constructor; [|done]. intros ([h p] & Hin & Hx)%list_elem_of_omap. destruct h; try done. injection Hx as ->. by eapply Hne.
  - destruct Hc. split; cbn; rewrite ?countb_cons; try done. rewrite cnt_externals0. cbn. unfold wrap64. rewrite Zplus_mod_idemp_l. f_equal. lia.
Qed.

Lemma store_external_spec live s page e o : swap_inv live s → page_ok page →
  wp (store_external page e) (λ r s' _, match r with Ok h => swap_inv ((h, page) :: live) s' | Err _ => swap_inv live s' end) s o.
Proof.
  intros Hi Hok. unfold store_external. apply wp_bind, wp_ask. intros b o1 _ _. destruct b; cbn [negb]; cbn match; [|by wp_steps].
  wp_steps. destruct (backend s) as [b|] eqn:Eb; [|by wp_steps]. wp_steps.
  destruct (be_store page b) as [r b'] eqn:Es. wp_steps. pose proof Hi as [Hh Hc]. rewrite (cnt_ops _ _ Hc).
  change (wrap64 (wrap64 (0 + 1) - 1)) with 0. destruct r as [slot|e'].
  - unfold page_out. wp_steps. apply inv_traffic. by apply (inv_external live s b page slot b').
  - wp_steps. apply (inv_backend live s b'); [done|]. intros x p Hin. rewrite (be_store_err _ _ _ _ Es). by eapply live_held.
Qed.

Lemma swap_store_spec live s page o : swap_inv live s → page_ok page →
  wp (store page) (λ r s' _, match r with Ok h => swap_inv ((h, page) :: live) s' | Err _ => swap_inv live s' end) s o.
Proof.
  intros Hi Hok. unfold store. destruct (forallb _ _) eqn:Ef.
  - unfold page_out. wp_steps. apply inv_traffic. pose proof (inv_fill live s (of_le (take 8 page)) Hi) as Hx.
    by rewrite (fill_page_spec page Hok Ef) in Hx.
  - destruct (compress_into page) as [payload|] eqn:Ec; [|by wp_steps].
    destruct (_ <=? _)%nat eqn:El.
    + apply wp_bind, wp_ask. intros b o1 _ _. destruct b; [|by apply store_external_spec].
      apply wp_bind, wp_ask. intros b o2 _ _. destruct b; cbn [negb]; cbn match; [|by wp_steps].
      apply wp_bind. eapply wp_mono; [by apply store_compressed_spec|]. intros [h|] s1 o3; cbn beta iota; intros Hi1.
      * unfold page_out. wp_steps. by apply inv_traffic.
      * by apply store_external_spec.
    + wp_steps. apply store_external_spec; [by apply inv_traffic|done].
Qed.

(** ** Loading *)

Lemma set_slot_lookup s i e : (i < length (compressed s))%nat → compressed (set_slot i e s) !! i = Some e.
Proof. intros Hi. cbn. by apply list_lookup_insert_eq. Qed.
Lemma set_slot_back s i e e' : compressed s !! i = Some e → set_slot i e (set_slot i e' s) = s.
Proof. intros Hi. unfold set_slot. destruct s. cbn in *. by rewrite list_insert_insert_eq, list_insert_id. Qed.
Lemma load_compressed_spec live s i page out o : swap_inv live s → (Compressed i, page) ∈ live → length out = PAGE_BYTES →
  wp (load_compressed i out) (λ r s' o', o' = o ∧ s' = s ∧ r = (Ok (), page)) s o.
Proof.
  intros [Hh Hc] Hin Hout. destruct (held_pages _ _ Hh _ _ Hin) as [[Hlen Hbytes] (data & r & Hi & Hd)].
  unfold load_compressed. wp_steps. rewrite Hi. cbn [slot_data slot_checksum slot_resident]. wp_steps.
  rewrite (lz4_roundtrip page data out) by done. wp_steps. rewrite set_slot_lookup by (by eapply lookup_lt_Some).
  cbn [slot_data slot_checksum slot_resident]. wp_steps. split; [done|]. split; [by apply set_slot_back|].
  by rewrite bool_decide_true, Z.eqb_refl.
Qed.

(** Loading a live handle gives its page; only an external store can fail. *)
Lemma swap_load_spec live s h page out o : swap_inv live s → (h, page) ∈ live → length out = PAGE_BYTES →
  wp (load h out) (λ r s' o', o' = o ∧ swap_inv live s' ∧ length r.2 = PAGE_BYTES ∧
     match r.1 with Ok _ => r.2 = page | Err _ => ∃ x, h = External x end) s o.
Proof.
  intros Hi Hin Hout. destruct (held_pages _ _ (proj1 Hi) _ _ Hin) as [[Hlen Hbytes] Hb]. unfold load, page_in. apply wp_bind. destruct h as [v|i|x].
  - wp_steps. rewrite <- Hb. split_and!; try done. by apply inv_traffic.
  - eapply wp_mono; [by eapply load_compressed_spec|]. intros r s' o' (-> & -> & ->). wp_steps. split_and!; try done. by apply inv_traffic.
  - destruct Hb as (b & Hb & Hheld). unfold load_external. wp_steps. rewrite Hb.
    destruct (be_load x out b) as [[r out'] b'] eqn:El. destruct (be_load_law _ _ _ _ _ _ El) as (Hsame & Hlen' & Hr). wp_steps.
    assert (swap_inv live (with_backend (Some b') (configuration_generation s) (external_ops s) s)) as Hi'.
    { rewrite (cnt_ops _ _ (proj2 Hi)). apply inv_backend; [done|]. intros y p Hy. rewrite Hsame. by eapply live_held; [apply Hi|..]. }
    destruct r as [[]|e]; wp_steps; split_and!; try done; cbn.
    + by apply inv_traffic.
    + congruence.
    + specialize (Hr eq_refl). congruence.
    + congruence.
    + by eexists.
Qed.

(** ** Freeing *)

Lemma live_cons_ne live s i page h p : swap_held ((Compressed i, page) :: live) s → (h, p) ∈ live → h ≠ Compressed i.
Proof.
  intros Hh Hin ->. pose proof (NoDup_seq 0 (length (compressed s))) as Hnd. rewrite <- (held_slots _ _ Hh) in Hnd. cbn in Hnd.
  apply NoDup_cons in Hnd as [Hnd _]. apply Hnd. apply elem_of_app. left. apply list_elem_of_omap. by exists (Compressed i, p).
Qed.
Lemma wrap64_pred a : wrap64 (wrap64 (1 + a) - 1) = wrap64 a.
Proof. unfold wrap64. rewrite Zminus_mod_idemp_l. f_equal. lia. Qed.

Lemma free_compressed_held live s i page : swap_held ((Compressed i, page) :: live) s →
  swap_held live (with_slots (<[i:=empty_slot]> (compressed s)) (i :: free_slots s) (free_capacity s) s).
Proof.
  intros Hh. pose proof (live_index _ _ i page Hh (list_elem_of_here _ _)) as [Hlt Hfree].
  pose proof (λ h p Hp, live_cons_ne live s i page h p Hh Hp) as Hne. destruct Hh. split; cbn; rewrite ?length_insert; try done.
  - intros h p Hin. destruct (held_pages0 h p) as [? Hb]; [by right|]. split; [done|]. specialize (Hne _ _ Hin). destruct h as [v|j|x]; cbn in *; try done.
    rewrite list_lookup_insert_ne; [done|]. intros ->. done.
  - rewrite <- held_slots0. cbn. symmetry. apply Permutation_middle.
  - intros j [->|Hj]%elem_of_cons; [by rewrite list_lookup_insert_eq|]. rewrite list_lookup_insert_ne; [by apply held_free0|]. by intros ->.
Qed.

(** The counters after slot [i] was emptied. *)
Lemma free_compressed_counts live s s' i page data sum r :
  swap_held ((Compressed i, page) :: live) s → swap_counts ((Compressed i, page) :: live) s →
  compressed s !! i = Some (mkSlot (Some data) sum r) →
  let n := Z.of_nat (length data) in
  compressed s' = <[i:=empty_slot]> (compressed s) →
  compressed_bytes s' = wrap64 (compressed_bytes s - n) → compressed_pages s' = wrap64 (compressed_pages s - 1) →
  resident_pages s' = (if r then wrap64 (resident_pages s - 1) else resident_pages s) →
  resident_bytes s' = (if r then wrap64 (resident_bytes s - n) else resident_bytes s) →
  same_fill_pages s' = same_fill_pages s → external_pages s' = external_pages s → external_ops s' = external_ops s →
  maximum_compressed_bytes s' = maximum_compressed_bytes s → swap_counts live s'.
Proof.
  intros Hh Hc Hi n Htable Hb Hp Hr Hrb Hf He Ho Hm. pose proof (counts_small _ _ Hh Hc) as [Hcp Hcr].
  pose proof (countb_pos slot_full _ _ _ Hi eq_refl) as Hpos.
  pose proof (sumz_lookup slot_bytes _ _ _ (λ x _, slot_bytes_nonneg x) Hi) as Hbytes. change (slot_bytes _) with n in Hbytes.
  pose proof (sumz_lookup resident_slot_bytes _ _ _ (λ x _, proj1 (resident_le x)) Hi) as Hrbytes.
  pose proof (sumz_le resident_slot_bytes slot_bytes (compressed s) (λ x _, proj2 (resident_le x))) as Hrle.
  destruct Hc. destruct cnt_limit0 as [Hlim Hu]. unfold is_u64 in Hu. assert (0 ≤ n) by (unfold n; lia).
  split; rewrite ?Htable, ?Hm, ?Hf, ?He, ?Ho; try done.
  - rewrite Hb, (sumz_insert _ _ _ _ _ Hi). change (slot_bytes (mkSlot _ _ _)) with n. change (slot_bytes empty_slot) with 0.
    rewrite wrap64_small; [lia|unfold is_u64; lia].
  - split; [|done]. rewrite Hb, wrap64_small; [lia|unfold is_u64; lia].
  - rewrite Hp, (countb_insert _ _ _ _ _ Hi). change (slot_full empty_slot) with false. cbn [slot_full slot_data Z.b2z].
    rewrite wrap64_small; [lia|unfold is_u64; lia].
  - rewrite Hr, (countb_insert _ _ _ _ _ Hi). destruct r; cbn [slot_resident empty_slot Z.b2z]; [|lia].
    pose proof (countb_pos slot_resident _ _ _ Hi eq_refl). rewrite wrap64_small; [lia|unfold is_u64; lia].
  - rewrite Hrb, (sumz_insert _ _ _ _ _ Hi). change (resident_slot_bytes empty_slot) with 0. destruct r.
    + change (resident_slot_bytes (mkSlot _ _ _)) with n in *. rewrite wrap64_small; [lia|unfold is_u64; lia].
    + change (resident_slot_bytes (mkSlot _ _ _)) with 0. lia.
Qed.

Lemma free_compressed_spec live s i page o : swap_inv ((Compressed i, page) :: live) s →
  wp (swap_free (Compressed i)) (λ _ s' o', o' = o ∧ swap_inv live s') s o.
Proof.
  intros [Hh Hc]. pose proof (live_index _ _ i page Hh (list_elem_of_here _ _)) as [Hlt Hfree].
  destruct (held_pages _ _ Hh _ _ (list_elem_of_here _ _)) as [_ (data & r & Hi & _)].
  assert (length (free_slots s) < free_capacity s)%nat as Hroom.
  { pose proof (held_room _ _ Hh). pose proof (Permutation_length (held_slots _ _ Hh)) as Hl. rewrite length_app, length_seq in Hl. cbn in Hl. lia. }
  pose proof (free_compressed_held _ _ _ _ Hh) as Hh'.
  unfold swap_free. wp_steps. rewrite Hi. cbn [slot_data slot_resident]. rewrite (as_slot_small s i _ Hh) by (by left).
  destruct r; wp_steps; (apply wp_massert; [by apply Nat.ltb_lt|]); wp_steps; (split; [done|]);
    (split; [by destruct Hh'|by eapply free_compressed_counts]).
Qed.

Lemma swap_free_spec live s h page o : swap_inv ((h, page) :: live) s →
  wp (swap_free h) (λ _ s' o', o' = o ∧ swap_inv live s') s o.
Proof.
  intros Hi. destruct h as [v|i|x]; [|by eapply free_compressed_spec|]; pose proof Hi as [Hh Hc].
  - unfold swap_free. wp_steps. split; [done|]. split.
    + destruct Hh. split; cbn; try done. intros h p Hin. destruct (held_pages0 h p) as [? Hb]; [by right|]. by destruct h.
    + destruct Hc. rewrite countb_cons in *. split; cbn; try done. rewrite cnt_fills0. apply wrap64_pred.
  - destruct (held_pages _ _ Hh _ _ (list_elem_of_here _ _)) as [_ (b & Hb & _)]. unfold swap_free. wp_steps. rewrite Hb. wp_steps. split; [done|].
    rewrite (cnt_ops _ _ Hc). change (wrap64 (wrap64 (0 + 1) - 1)) with 0.
    assert (∀ y p, (External y, p) ∈ live → y ≠ x) as Hne.
    { intros y p Hin ->. pose proof (held_externals _ _ Hh) as Hnd. cbn in Hnd. apply NoDup_cons in Hnd as [Hnd _]. apply Hnd.
      apply list_elem_of_omap. by exists (External x, p). }
    split.
    + pose proof Hh as Hh0. destruct Hh. split; cbn; try done; [|by apply NoDup_cons in held_externals0 as [_ ?]].
      intros h p Hin. destruct (held_pages0 h p) as [? Hp]; [by right|]. split; [done|]. destruct h as [w|j|y]; cbn in *; try done.
      exists (be_free x b). split; [done|]. rewrite be_free_law, bool_decide_false by (by eapply Hne). eapply live_held; [done..|by right].
    + destruct Hc. rewrite countb_cons in *. split; cbn; try done. rewrite cnt_externals0. apply wrap64_pred.
Qed.

(** ** Residency and configuration *)

Lemma set_resident_held live s i page data r0 r : swap_held live s → (Compressed i, page) ∈ live →
  compressed s !! i = Some (mkSlot (Some data) (page_checksum page) r0) → swap_held live (set_slot i (mkSlot (Some data) (page_checksum page) r) s).
Proof.
  intros Hh Hin Hi. pose proof (live_index _ _ i page Hh Hin) as [Hlt Hfree]. destruct Hh. split; cbn; rewrite ?length_insert; try done.
  - intros h p Hp. destruct (held_pages0 _ _ Hp) as [? Hb]. split; [done|]. destruct h as [v|j|x]; cbn in *; try done.
    destruct Hb as (d & r1 & Hj & Hd). destruct (decide (j = i)) as [->|Hne]; [|exists d, r1; by rewrite list_lookup_insert_ne].
    rewrite Hi in Hj. injection Hj as -> Hsum ->. exists d, r. rewrite list_lookup_insert_eq, Hsum by done. done.
  - intros j Hj. rewrite list_lookup_insert_ne; [by apply held_free0|]. by intros ->.
Qed.
(** The counters after the flag of slot [i] was changed. *)
Lemma set_resident_counts live s s' i data sum (b : bool) :
  swap_held live s → swap_counts live s → compressed s !! i = Some (mkSlot (Some data) sum (negb b)) →
  let n := Z.of_nat (length data) in
  compressed s' = <[i:=mkSlot (Some data) sum b]> (compressed s) →
  resident_pages s' = (if b then wrap64 (resident_pages s + 1) else wrap64 (resident_pages s - 1)) →
  resident_bytes s' = (if b then wrap64 (resident_bytes s + n) else wrap64 (resident_bytes s - n)) →
  compressed_bytes s' = compressed_bytes s → compressed_pages s' = compressed_pages s →
  same_fill_pages s' = same_fill_pages s → external_pages s' = external_pages s → external_ops s' = external_ops s →
  maximum_compressed_bytes s' = maximum_compressed_bytes s → swap_counts live s'.
Proof.
  intros Hh Hc Hslot n Htable Hr Hrb Hcb Hcp Hf He Ho Hm. pose proof (counts_small _ _ Hh Hc) as [_ Hcr].
  pose proof (countb_pos slot_resident _ _ _ Hslot) as Hpos. assert (0 ≤ n) as Hn by (unfold n; lia).
  pose proof (sumz_lookup resident_slot_bytes _ _ _ (λ x _, proj1 (resident_le x)) Hslot) as Hrbytes.
  pose proof (sumz_le resident_slot_bytes slot_bytes (<[i:=mkSlot (Some data) sum b]> (compressed s)) (λ x _, proj2 (resident_le x))) as Hle.
  pose proof (sumz_nonneg resident_slot_bytes (compressed s) (λ x _, proj1 (resident_le x))) as Hnn.
  rewrite !(sumz_insert _ _ _ _ _ Hslot) in Hle. change (slot_bytes (mkSlot (Some data) _ _)) with n in Hle.
  destruct Hc. destruct cnt_limit0 as [Hlim Hu]. unfold is_u64 in Hu.
  split; rewrite ?Htable, ?Hm, ?Hf, ?He, ?Ho, ?Hcb, ?Hcp; try done.
  - rewrite (sumz_insert _ _ _ _ _ Hslot). change (slot_bytes (mkSlot (Some data) _ _)) with n. lia.
  - rewrite (countb_insert _ _ _ _ _ Hslot). cbn [slot_full slot_data Z.b2z]. lia.
  - rewrite Hr, (countb_insert _ _ _ _ _ Hslot). destruct b; cbn [slot_resident Z.b2z negb] in *; [|specialize (Hpos eq_refl)];
      (rewrite wrap64_small; [lia|unfold is_u64; lia]).
  - rewrite Hrb, (sumz_insert _ _ _ _ _ Hslot). unfold resident_slot_bytes in *.
    destruct b; cbn [slot_resident negb] in *; change (slot_bytes (mkSlot (Some data) _ _)) with n in *; (rewrite wrap64_small; [lia|unfold is_u64; lia]).
Qed.
Lemma set_resident_spec live s h page b o : swap_inv live s → (h, page) ∈ live →
  wp (set_resident h b) (λ _ s' o', o' = o ∧ swap_inv live s') s o.
Proof.
  intros Hi Hin. pose proof Hi as [Hh Hc]. destruct h as [v|i|x]; unfold set_resident; [by wp_steps| |by wp_steps].
  destruct (held_pages _ _ Hh _ _ Hin) as [_ (data & r & Hslot & _)]. wp_steps. cbn [slot_resident slot_data slot_checksum].
  destruct (Bool.eqb r b) eqn:Er; [by wp_steps|].
  assert (r = negb b) as -> by (by destruct r, b). pose proof (set_resident_held _ _ _ _ _ _ b Hh Hin Hslot) as Hh'.
  destruct b; wp_steps; (split; [done|]); (split; [by destruct Hh'|]).
  - by eapply (set_resident_counts live s _ i data _ true).
  - by eapply (set_resident_counts live s _ i data _ false).
Qed.

Lemma register_backend_spec live s b o : swap_inv live s →
  wp (register_backend b) (λ r s' o', o' = o ∧ swap_inv live s' ∧
    match r with Ok _ => backend s = None ∧ backend s' = Some b | Err _ => s' = s ∧ is_Some (backend s) end) s o.
Proof.
  intros Hi. unfold register_backend. wp_steps. destruct (backend s) as [b0|] eqn:Eb; wp_steps; [by split_and!|].
  split_and!; try done. rewrite (cnt_ops _ _ (proj2 Hi)). apply inv_backend; [done|]. intros x p Hin.
  destruct (held_pages _ _ (proj1 Hi) _ _ Hin) as [_ (b' & ? & _)]. congruence.
Qed.
(** The external store is given back only when no page is in it. *)
Lemma unregister_backend_spec live s o : swap_inv live s → Z.of_nat (length live) < two64 →
  wp unregister_backend (λ r s' o', o' = o ∧ swap_inv live s' ∧
    match r with Ok b => b = backend s ∧ backend s' = None ∧ ∀ x p, ((External x, p) ∉ live) | Err _ => s' = s end) s o.
Proof.
  intros Hi Hlen. unfold unregister_backend. wp_steps. destruct (negb (external_pages s =? 0) || _) eqn:E; [by wp_steps|].
  apply orb_false_iff in E as [E _]. rewrite negb_false_iff, Z.eqb_eq, (cnt_externals _ _ (proj2 Hi)) in E.
  pose proof (countb_bound is_external live). rewrite wrap64_small in E by (unfold is_u64; lia).
  assert (∀ x p, (External x, p) ∉ live) as Hno.
  { intros x p [n Hn]%list_elem_of_lookup_1. pose proof (countb_pos is_external live n _ Hn eq_refl). lia. }
  destruct (backend s) as [b|] eqn:Eb; wp_steps; split_and!; try done. destruct Hi as [Hh Hc]. split; [|by destruct Hc].
  destruct Hh. split; cbn; try done. intros h p Hin. destruct (held_pages0 _ _ Hin) as [? Hb]. split; [done|].
  destruct h as [v|i|x]; cbn in *; [done|done|]. by destruct (Hno x p).
Qed.

(** ** Capacity *)

Definition swap_only (e : CompressedSlot) : bool := slot_full e && negb (slot_resident e).
Definition swap_only_bytes (e : CompressedSlot) : Z := if slot_resident e then 0 else slot_bytes e.

Lemma slot_cases live s i e : swap_held live s → compressed s !! i = Some e →
  (i ∈ free_slots s ∧ e = empty_slot) ∨ ((i ∉ free_slots s) ∧ slot_full e = true).
Proof.
  intros Hh He. pose proof (lookup_lt_Some _ _ _ He) as Hlt.
  assert (i ∈ omap live_slot live ++ free_slots s) as Hi by (rewrite (held_slots _ _ Hh); apply elem_of_seq; lia).
  apply elem_of_app in Hi as [Hi|Hi]; [right|left].
  - apply list_elem_of_omap in Hi as ([h p] & Hin & Hs). destruct h; try done. injection Hs as ->.
    split; [by eapply live_index|]. destruct (held_pages _ _ Hh _ _ Hin) as [_ (d & r & Hd & _)]. rewrite He in Hd. by injection Hd as ->.
  - split; [done|]. rewrite (held_free _ _ Hh _ Hi) in He. by injection He.
Qed.

Lemma full_slots live s : swap_held live s → countb slot_full (compressed s) = Z.of_nat (length (omap live_slot live)).
Proof.
  intros Hh. rewrite countb_seq. rewrite <- (countb_perm _ _ _ (held_slots _ _ Hh)), countb_app.
  rewrite (countb_zero _ (free_slots s)) by (intros i Hi; by rewrite (held_free _ _ Hh _ Hi)). rewrite Z.add_0_r.
  unfold countb. rewrite (List.filter_ext_in _ (λ _, true)), List.filter_true; [done|]. intros i Hi%list_elem_of_In.
  assert (i ∈ seq 0 (length (compressed s))) as Hs by (rewrite <- (held_slots _ _ Hh); set_solver).
  apply elem_of_seq in Hs. destruct (lookup_lt_is_Some_2 (compressed s) i) as [e He]; [lia|]. rewrite He.
  destruct (slot_cases _ _ _ _ Hh He) as [[Hf _]|[_ ?]]; [|done].
  pose proof (NoDup_seq 0 (length (compressed s))) as Hnd. rewrite <- (held_slots _ _ Hh), NoDup_app in Hnd. by destruct Hnd as (_ & Hnd & _); destruct (Hnd i).
Qed.
(** The payload bytes are those of the compressed pages the clients hold. *)
Definition payload (x : SwapHandle * list Z) : Z :=
  match x.1 with Compressed _ => match compress_into x.2 with Some d => Z.of_nat (length d) | None => 0 end | _ => 0 end.
Lemma payload_bytes live s : swap_held live s → sumz slot_bytes (compressed s) = sumz payload live.
Proof.
  intros Hh. rewrite sumz_seq, <- (sumz_perm _ _ _ (held_slots _ _ Hh)), sumz_app.
  assert (∀ l, (∀ i, i ∈ l → i ∈ free_slots s) → sumz (λ i, match compressed s !! i with Some e => slot_bytes e | None => 0 end) l = 0) as Hz.
  { induction l as [|i l IH]; intros Hl; [done|]. rewrite sumz_cons, IH by (intros j Hj; apply Hl; by right).
    rewrite (held_free _ _ Hh i) by (apply Hl; left). done. }
  rewrite (Hz (free_slots s)), Z.add_0_r by done. clear Hz.
  assert (∀ l, (∀ x, x ∈ l → x ∈ live) → sumz (λ i, match compressed s !! i with Some e => slot_bytes e | None => 0 end) (omap live_slot l) = sumz payload l) as Hl;
    [|by apply Hl].
  induction l as [|[h p] l IH]; intros Hl; [done|]. rewrite sumz_cons. specialize (IH (λ x Hx, Hl x (list_elem_of_further _ _ _ Hx))).
  destruct (held_pages _ _ Hh h p) as [_ Hb]; [apply Hl; left|].
  destruct h as [v|i|x]; cbn [omap list_omap live_slot fst]; rewrite ?sumz_cons, IH; try done.
  destruct Hb as (d & r & -> & Hd). unfold payload. cbn [fst snd]. by rewrite Hd.
Qed.
Lemma only_counts live s : swap_held live s → swap_counts live s →
  Z.of_nat (length (compressed s)) - Z.of_nat (length (free_slots s)) - resident_pages s = countb swap_only (compressed s) ∧
  compressed_bytes s - resident_bytes s = sumz swap_only_bytes (compressed s).
Proof.
  intros Hh Hc. rewrite (cnt_resident _ _ Hc), (cnt_bytes _ _ Hc), (cnt_resident_bytes _ _ Hc).
  pose proof (Permutation_length (held_slots _ _ Hh)) as Hl. rewrite length_app, length_seq in Hl. pose proof (full_slots _ _ Hh) as Hf.
  assert (∀ e, e ∈ compressed s → slot_resident e = true → slot_full e = true) as Hres.
  { intros e [i Hi]%list_elem_of_lookup_1. destruct (slot_cases _ _ _ _ Hh Hi) as [[_ ->]|[_ ->]]; done. }
  split.
  - rewrite !countb_sumz in *. rewrite (sumz_sub (λ e, Z.b2z (swap_only e)) (λ e, Z.b2z (slot_full e)) (λ e, Z.b2z (slot_resident e))); [lia|].
    intros e He. specialize (Hres e He). unfold swap_only. destruct (slot_full e), (slot_resident e); try done. by specialize (Hres eq_refl).
  - symmetry. apply sumz_sub. intros e _. unfold swap_only_bytes, resident_slot_bytes. destruct (slot_resident e); lia.
Qed.

(** [is_full] compares the pages held by swap alone, with a margin of one in a
    hundred; nothing wraps. *)
Lemma is_full_spec live s : swap_inv live s → backend s = None →
  is_full (Some s) = (Z.of_nat (maximum_slots s) <=? countb swap_only (compressed s) * 100 / 99)
    || (maximum_compressed_bytes s <=? Z.min u64_max (sumz swap_only_bytes (compressed s) * 100) / 99).
Proof.
  intros [Hh Hc] Hb. unfold is_full. rewrite Hb, bool_decide_false by (by intros [? ?]).
  destruct (only_counts _ _ Hh Hc) as [-> ->]. destruct (held_maximum _ _ Hh). destruct (cnt_limit _ _ Hc) as [? Hu]. unfold is_u64 in Hu.
  pose proof (countb_bound swap_only (compressed s)). destruct (only_counts _ _ Hh Hc) as [_ Hbytes].
  pose proof (sumz_nonneg resident_slot_bytes (compressed s) (λ x _, proj1 (resident_le x))). rewrite (cnt_resident_bytes _ _ Hc) in Hbytes.
  assert (∀ e, 0 ≤ swap_only_bytes e) as Hn by (intros e; unfold swap_only_bytes; pose proof (slot_bytes_nonneg e); destruct (slot_resident e); lia).
  pose proof (sumz_nonneg swap_only_bytes (compressed s) (λ x _, Hn x)).
  rewrite !wrap64_small by (unfold is_u64; lia). unfold u64_max. rewrite (Z.min_r _ (countb _ _ * 100)) by lia. done.
Qed.

Lemma swap_init_inv maximum slots : is_u64 maximum → swap_inv [] (swap_init maximum slots).
Proof.
  intros Hm. unfold is_u64 in Hm. split; split; cbn; try done; try lia.
  - intros h p []%elem_of_nil.
  - intros i []%elem_of_nil.
  - constructor.
  - split; [lia|]. unfold clamp. destruct (slots <? 64) eqn:?; [lia|]. destruct (_ <? slots) eqn:?; lia.
  - by split; [lia|].
Qed.
End spec.
