(* ===== verification/SwapTheorems.v ===== *)
(** * The swap storage: theorems

    Runs of the public operations from an empty store, with the handles the
    clients hold. *)
From stdpp Require Import base list.
From S2P Require Import Prelude.
From S2P Require Import Bytes.
From S2P Require Import Phys.
From S2P Require Import Swap.
From S2P Require Import SwapSpec.
Open Scope rust_scope.

Section theorems.
Context `{Lz4Laws} {B : Type} `{SwapBackendLaws B}.
Abbreviation held := (list (SwapHandle * list Z)).

(** One operation: a client stores a page and keeps the handle, loads or
    marks a handle it holds, or gives one up. *)
Inductive swap_step : held * Swap B → held * Swap B → Prop :=
| step_store live s page o h s' o' : page_ok page →
    store page s o = Some (Ok h, s', o') → swap_step (live, s) ((h, page) :: live, s')
| step_store_err live s page o e s' o' : page_ok page →
    store page s o = Some (Err e, s', o') → swap_step (live, s) (live, s')
| step_load live s h page out o r s' o' : (h, page) ∈ live → length out = PAGE_BYTES →
    load h out s o = Some (r, s', o') → swap_step (live, s) (live, s')
| step_free live live' s h page o s' o' : live ≡ₚ (h, page) :: live' →
    swap_free h s o = Some ((), s', o') → swap_step (live, s) (live', s')
| step_resident live s h page b o s' o' : (h, page) ∈ live →
    set_resident h b s o = Some ((), s', o') → swap_step (live, s) (live, s')
| step_register live s b o r s' o' :
    register_backend b s o = Some (r, s', o') → swap_step (live, s) (live, s')
| step_unregister live s o r s' o' : Z.of_nat (length live) < two64 →
    unregister_backend s o = Some (r, s', o') → swap_step (live, s) (live, s').

Inductive swap_reach (maximum slots : Z) : held → Swap B → Prop :=
| reach_init : swap_reach maximum slots [] (swap_init maximum slots)
| reach_step live s live' s' : swap_reach maximum slots live s → swap_step (live, s) (live', s') →
    swap_reach maximum slots live' s'.

Lemma swap_step_inv live s live' s' : swap_step (live, s) (live', s') → swap_inv live s → swap_inv live' s'.
Proof.
  intros Hstep Hi. inversion Hstep as [l1 s1 page o h s2 o' Hok Hr|l1 s1 page o e s2 o' Hok Hr|l1 s1 h page out o r s2 o' Hin Hout Hr
    |l1 l2 s1 h page o s2 o' Hp Hr|l1 s1 h page b o s2 o' Hin Hr|l1 s1 b o r s2 o' Hr|l1 s1 o r s2 o' Hlen Hr]; subst.
  - pose proof (swap_store_spec live s page o Hi Hok) as Hw. unfold wp in Hw. by rewrite Hr in Hw.
  - pose proof (swap_store_spec live' s page o Hi Hok) as Hw. unfold wp in Hw. by rewrite Hr in Hw.
  - pose proof (swap_load_spec live' s h page out o Hi Hin Hout) as Hw. unfold wp in Hw. rewrite Hr in Hw. apply Hw.
  - pose proof (swap_free_spec live' s h page o (swap_inv_perm _ _ _ Hp Hi)) as Hw. unfold wp in Hw. rewrite Hr in Hw. apply Hw.
  - pose proof (set_resident_spec live' s h page b o Hi Hin) as Hw. unfold wp in Hw. rewrite Hr in Hw. apply Hw.
  - pose proof (register_backend_spec live' s b o Hi) as Hw. unfold wp in Hw. rewrite Hr in Hw. apply Hw.
  - pose proof (unregister_backend_spec live' s o Hi Hlen) as Hw. unfold wp in Hw. rewrite Hr in Hw. apply Hw.
Qed.
Lemma swap_reach_inv maximum slots live s : is_u64 maximum → swap_reach maximum slots live s → swap_inv live s.
Proof. intros Hm. induction 1 as [|live s live' s' _ IH Hs]; [by apply swap_init_inv|]. by eapply swap_step_inv. Qed.


(** A page that was stored can be given up again: freeing its handle never
    panics, every other handle still stands for its page, and the bytes, the
    pages and the fills are again those before the store. *)
Theorem swap_store_free_roundtrip maximum slots live s page o h s1 o1
    (Hmax : is_u64 maximum) (Hr : swap_reach maximum slots live s) (Hpage : page_ok page)
    (Hst : store page s o = Some (Ok h, s1, o1)) :
  ∃ s2, swap_free h s1 o1 = Some ((), s2, o1) ∧ swap_inv live s2 ∧
    compressed_bytes s2 = compressed_bytes s ∧ compressed_pages s2 = compressed_pages s ∧
    same_fill_pages s2 = same_fill_pages s ∧ external_pages s2 = external_pages s.
Proof.
  pose proof (swap_reach_inv _ _ _ _ Hmax Hr) as Hi.
  assert (swap_inv ((h, page) :: live) s1) as Hi1 by (eapply swap_step_inv; [by eapply step_store|done]).
  destruct (wp_elim _ _ _ _ (swap_free_spec live s1 h page o1 Hi1)) as ([] & s2 & o2 & He & -> & Hi2). exists s2. split_and!; try done.
  - rewrite (cnt_bytes _ _ (proj2 Hi2)), (cnt_bytes _ _ (proj2 Hi)), !(payload_bytes live) by (apply Hi || apply Hi2). done.
  - rewrite (cnt_pages _ _ (proj2 Hi2)), (cnt_pages _ _ (proj2 Hi)), !(full_slots live) by (apply Hi || apply Hi2). done.
  - by rewrite (cnt_fills _ _ (proj2 Hi2)), (cnt_fills _ _ (proj2 Hi)).
  - by rewrite (cnt_externals _ _ (proj2 Hi2)), (cnt_externals _ _ (proj2 Hi)).
Qed.
End theorems.

(** ** A concrete store *)

(** A compressor that keeps pages as they are apart from trailing zeros, and
    a store that is a list of pages. *)
Fixpoint strip_zeros (l : list Z) : list Z :=
  match l with
  | [] => []
  | x :: l => match strip_zeros l with [] => if x =? 0 then [] else [x] | k => x :: k end
  end.
Definition pad_zeros (n : nat) (l : list Z) : list Z := l ++ replicate (n - length l) 0.
#[local] Instance demo_lz4 : Lz4 := {|
  compress_into l := Some (strip_zeros l);
  decompress_into d out := (Some (length out), take (length out) (pad_zeros (length out) d));
|}.
Lemma strip_pad l : pad_zeros (length l) (strip_zeros l) = l ∧ (length (strip_zeros l) ≤ length l)%nat.
Proof.
  induction l as [|x l [IH Hle]]; [done|]. unfold pad_zeros in *. cbn [strip_zeros length].
  destruct (strip_zeros l) as [|y k] eqn:E.
  - cbn in IH. rewrite Nat.sub_0_r in IH. destruct (x =? 0) eqn:Ex; cbn; [|split; [by rewrite Nat.sub_0_r, IH|lia]].
    apply Z.eqb_eq in Ex as ->. split; [by rewrite IH|lia].
  - cbn in *. split; [by rewrite IH|lia].
Qed.
#[local] Instance demo_lz4_laws : Lz4Laws.
Proof.
  split.
  - intros page data out Hlen _ [= <-] Hout. cbn. rewrite Hout, <- Hlen. destruct (strip_pad page) as [-> _]. by rewrite take_ge.
  - intros data out. cbn. unfold pad_zeros. rewrite length_take, length_app, length_replicate. lia.
Qed.
Abbreviation demo_store := (list (option (list Z))).
#[local] Instance demo_backend : SwapBackend demo_store := {|
  be_store page b := (Ok (Z.of_nat (length b)), b ++ [Some page]);
  be_load x out b := match b !! Z.to_nat x with
    | Some (Some page) => if bool_decide (0 ≤ x ∧ length page = length out) then (Ok (), page, b) else (Err SwapIo, out, b)
    | _ => (Err SwapIo, out, b) end;
  be_free x b := if 0 <=? x then <[Z.to_nat x:=None]> b else b;
|}.
Definition demo_held (b : demo_store) (x : Z) : option (list Z) :=
  if 0 <=? x then match b !! Z.to_nat x with Some (Some p) => Some p | _ => None end else None.
#[local] Instance demo_backend_laws : SwapBackendLaws demo_store.
Proof.
  refine {| be_held := demo_held |}.
  - intros page b slot b' [= <- <-]. unfold demo_held. split.
    + destruct (0 <=? _) eqn:?; [|done]. rewrite lookup_ge_None_2 by lia. done.
    + intros x. case_bool_decide as Hx.
      * subst x. rewrite (proj2 (Z.leb_le _ _)) by lia. by rewrite Nat2Z.id, list_lookup_middle.
      * destruct (0 <=? x) eqn:Ex; [|done]. destruct (decide (Z.to_nat x < length b)%nat); [by rewrite lookup_app_l|].
        rewrite !lookup_ge_None_2; [done|lia|rewrite length_app; cbn; lia].
  - intros page b e b' [=].
  - intros slot out b r out' b'. cbn. unfold demo_held. destruct (b !! Z.to_nat slot) as [[page|]|]; [|by intros [= <- <- <-]..].
    case_bool_decide as Hd; [|by intros [= <- <- <-]]. intros [= <- <- <-]. destruct Hd as [H0 Hl]. apply Z.leb_le in H0. by rewrite H0.
  - intros slot b x. cbn. unfold demo_held. destruct (0 <=? slot) eqn:Es; case_bool_decide as Hx; subst; rewrite ?Es; try done.
    + destruct (decide (Z.to_nat slot < length b)%nat); [by rewrite list_lookup_insert_eq|]. rewrite list_insert_ge, lookup_ge_None_2 by lia. done.
    + destruct (0 <=? x) eqn:Ex; [|done]. rewrite list_lookup_insert_ne by lia. done.
Defined.

(** Two pages: a fill of ones and a page with one byte set. *)
Definition demo_page : list Z := 7 :: replicate 4095 0.
Definition demo_swap : Swap demo_store := swap_init 1048576 64.
Definition demo_stored : Swap demo_store :=
  match store demo_page demo_swap [] with Some (_, s, _) => s | None => demo_swap end.
Lemma demo_page_ok : page_ok demo_page.
Proof. split; [vm_compute; reflexivity|]. constructor; [unfold is_byte; lia|]. apply Forall_replicate. unfold is_byte. lia. Qed.
Lemma demo_store_run : store demo_page demo_swap [] = Some (Ok (Compressed 0), demo_stored, []).
Proof. vm_compute. reflexivity. Qed.

Lemma swap_store_free_roundtrip_witness :
  ∃ s2, swap_free (Compressed 0) demo_stored [] = Some ((), s2, []) ∧ compressed_bytes s2 = 0.
Proof.
  destruct (swap_store_free_roundtrip 1048576 64 [] demo_swap demo_page [] (Compressed 0) demo_stored []
    ltac:(unfold is_u64; lia) (reach_init _ _) demo_page_ok demo_store_run) as (s2 & Hf & _ & Hb & _).
  exists s2. split; [exact Hf|exact Hb].
Defined.
