(* ===== verification/Policy.v ===== *)
(** * Page replacement queues

    The active and inactive queues of [mem/policy.rs]. A change of queue is
    an intent recorded in the policy word of a frame; frames with an intent
    wait in an array of the processor until they are drained. Frames are their
    numbers, and a list of a queue also holds the markers of running scans. *)
From stdpp Require Import base list.
From S2P Require Import Prelude.
From S2P Require Import Phys.
Open Scope rust_scope.

Definition QUEUE_SIZE : nat := 128.
Definition MAX_TLB_CPUS : nat := 256.
Definition INTENT_MASK : Z := 3.
Definition ACTIVATE : Z := 0.
Definition DEACTIVATE : Z := 1.
Definition ENQUEUE : Z := 2.
Definition DEQUEUE : Z := 3.
Definition INTENT_SET : Z := 4.
Definition INTENT_QUEUED : Z := 8.
Definition INACTIVE : Z := 16.
Definition ACTIVE : Z := 32.
Definition IDLE_INTERVAL_NS : Z := 125000000.

(** An element of a queue: a frame, or the marker of a scan. *)
Inductive Link : Type := Frame (pfn : Z) | Mark (n : nat).
#[export] Instance Link_eq_dec : EqDecision Link.
Proof. solve_decision. Defined.

Record ClockState : Type := mkClock { active : list Link; inactive : list Link; nactive : Z; ninactive : Z }.
Definition clock_new : ClockState := mkClock [] [] 0 0.
Definition clock_list (is_active : bool) (c : ClockState) : list Link := if is_active then active c else inactive c.
Definition put_list (is_active : bool) (l : list Link) (c : ClockState) : ClockState :=
  if is_active then mkClock l (inactive c) (nactive c) (ninactive c) else mkClock (active c) l (nactive c) (ninactive c).
Definition add_count (is_active : bool) (d : Z) (c : ClockState) : ClockState :=
  if is_active then mkClock (active c) (inactive c) (wrap64 (nactive c + d)) (ninactive c)
  else mkClock (active c) (inactive c) (nactive c) (wrap64 (ninactive c + d)).

(** The frames of one processor waiting to be drained, from [head] on. *)
Record Pending : Type := mkPending { pages : list (option Z); head : nat; last_flush : Z }.
Definition pending_new : Pending := mkPending (replicate QUEUE_SIZE None) QUEUE_SIZE 0.

(** The frame database with the queues and the arrays of the processors. *)
Record Pol : Type := mkPol { phys : Phys; clock : ClockState; pending : list Pending }.
Definition with_phys (p : Phys) (s : Pol) : Pol := mkPol p (clock s) (pending s).
Definition with_clock (c : ClockState) (s : Pol) : Pol := mkPol (phys s) c (pending s).
Definition with_pending (p : list Pending) (s : Pol) : Pol := mkPol (phys s) (clock s) p.
Definition on_phys {A} (m : M Phys A) : M Pol A := zoom phys with_phys m.
Definition on_clock (f : ClockState → ClockState) : M Pol () := modify (λ s, with_clock (f (clock s)) s).
Definition policy_new (p : Phys) : Pol := mkPol p clock_new (replicate MAX_TLB_CPUS pending_new).

Definition policy_word (pfn : Z) : M Pol Z := let* p := on_phys (get_page pfn) in ret (policy_flags p).
Definition set_policy_word (pfn word : Z) : M Pol () := on_phys (update_page pfn (with_policy word)).

(** Unlinking a frame from a list it is not on is a panic of the model. *)
Definition unlink (is_active : bool) (x : Link) : M Pol () :=
  let* s := get in
  do massert (bool_decide (x ∈ clock_list is_active (clock s))) then
  on_clock (λ c, put_list is_active (filter (λ y, y ≠ x) (clock_list is_active c)) c).
Definition clock_remove (page word : Z) : M Pol () :=
  if has_flag word ACTIVE then do unlink true (Frame page) then on_clock (add_count true (-1))
  else if has_flag word INACTIVE then do unlink false (Frame page) then on_clock (add_count false (-1))
  else ret ().
Definition push_back (is_active : bool) (page : Z) : M Pol () :=
  do on_clock (λ c, put_list is_active (clock_list is_active c ++ [Frame page]) c) then on_clock (add_count is_active 1).
Definition realize (page : Z) : M Pol bool :=
  let* word := policy_word page in
  if negb (has_flag word INTENT_SET) then ret false
  else
    let intent := Z.land word INTENT_MASK in
    if (intent =? DEACTIVATE) && has_flag word INACTIVE then
      do set_policy_word page (Z.land word (u32_not INTENT_SET)) then ret true
    else
      do clock_remove page word then
      let word := Z.land word (u32_not (Z.lor (Z.lor ACTIVE INACTIVE) INTENT_SET)) in
      let* word :=
        (if negb (intent =? DEQUEUE) then
           if intent =? DEACTIVATE then do push_back false page then ret (Z.lor word INACTIVE)
           else do push_back true page then ret (Z.lor word ACTIVE)
         else ret word) in
      do set_policy_word page word then ret true.
Definition clock_target (free_target : Z) (c : ClockState) : Z :=
  Z.max (wrap64 (nactive c + ninactive c) * 33 / 100) (free_target + 1).

(** The queue a frame is on once its intent is realized. *)
Definition queue_of_word (word : Z) : PageQueue :=
  if has_flag word INTENT_SET then
    let intent := Z.land word INTENT_MASK in
    if intent =? DEQUEUE then QueueNone else if intent =? DEACTIVATE then QueueInactive else QueueActive
  else if has_flag word ACTIVE then QueueActive
  else if has_flag word INACTIVE then QueueInactive
  else QueueNone.
Definition queue (page : Z) : M Pol PageQueue := let* word := policy_word page in ret (queue_of_word word).

Definition set_intent (page intent : Z) : M Pol bool :=
  let* word := policy_word page in
  do set_policy_word page (Z.lor (Z.lor (Z.lor (Z.land word (u32_not INTENT_MASK)) intent) INTENT_SET) INTENT_QUEUED) then
  ret (negb (has_flag word INTENT_QUEUED)).

(** [drain] one array; [nonblocking] stops at a frame that is locked. *)
Definition get_pending (id : nat) : M Pol Pending := let* s := get in expect (pending s !! id).
Definition put_pending (id : nat) (p : Pending) : M Pol () := modify (λ s, with_pending (<[id:=p]> (pending s)) s).
Fixpoint drain_loop (fuel : nat) (id : nat) (nonblocking : bool) : M Pol () :=
  match fuel with
  | O => panic
  | S fuel =>
      let* p := get_pending id in
      if bool_decide (head p = QUEUE_SIZE) then ret ()
      else
        let* slot := expect (pages p !! head p) in
        let* page := expect slot in
        let* locked := (if nonblocking then ask_pool else ret true) in
        if negb locked then ret ()
        else
          do put_pending id (mkPending (<[head p:=None]> (pages p)) (head p + 1) (last_flush p)) then
          let* word := policy_word page in
          do set_policy_word page (Z.land word (u32_not INTENT_QUEUED)) then
          do realize page then
          drain_loop fuel id nonblocking
  end.
Definition drain (id : nat) (nonblocking : bool) : M Pol () := drain_loop (S QUEUE_SIZE) id nonblocking.

(** The processor at the call, and the one after the policy lock was taken. *)
Record Place : Type := mkPlace { here : nat; later : nat }.
Definition push_pending (id : nat) (page : Z) : M Pol () :=
  let* p := get_pending id in
  do massert (negb (head p =? 0)%nat) then
  put_pending id (mkPending (<[(head p - 1)%nat:=Some page]> (pages p)) (head p - 1) (last_flush p)).
Definition queue_pending (page : Z) (at_ : Place) : M Pol () :=
  let* p := get_pending (here at_) in
  if negb (head p =? 0)%nat then push_pending (here at_) page
  else do drain (later at_) false then push_pending (later at_) page.
Definition intend (page intent : Z) (at_ : Place) : M Pol () :=
  let* enqueue := set_intent page intent in
  if enqueue then queue_pending page at_ else ret ().
Definition activate (page : Z) (at_ : Place) : M Pol () := intend page ACTIVATE at_.
Definition deactivate (page : Z) (at_ : Place) : M Pol () := intend page DEACTIVATE at_.
Definition dequeue (page : Z) (at_ : Place) : M Pol () := intend page DEQUEUE at_.
Definition enqueue (page : Z) (at_ : Place) : M Pol () := intend page ENQUEUE at_.

Definition set_wires (n : Z) (p : Page) : Page := with_counts n (loan_count p) (map_count p) p.
Definition wire (page : Z) (at_ : Place) : M Pol () :=
  let* p := on_phys (get_page page) in
  let previous := wire_count p in
  do on_phys (update_page page (set_wires ((previous + 1) mod 4294967296))) then
  do massert (negb (previous =? 4294967295)) then
  let* enqueue := (if previous =? 0 then set_intent page DEQUEUE else ret false) in
  if enqueue then queue_pending page at_ else ret ().
Definition unwire (page : Z) (at_ : Place) : M Pol () :=
  let* p := on_phys (get_page page) in
  let previous := wire_count p in
  do on_phys (update_page page (set_wires ((previous - 1) mod 4294967296))) then
  do massert (negb (previous =? 0)) then
  let* enqueue := (if previous =? 1 then set_intent page ACTIVATE else ret false) in
  if enqueue then queue_pending page at_ else ret ().

(** The entry points of [mem/phys.rs]. *)
Definition activate_managed (page : Z) (at_ : Place) : M Pol () :=
  let* p := on_phys (get_page page) in
  if wire_count p =? 0 then activate page at_ else ret ().
Definition enqueue_managed (page : Z) (at_ : Place) : M Pol () := enqueue page at_.
Definition remove_managed (page : Z) (at_ : Place) : M Pol () := dequeue page at_.
Definition deactivate_managed (page : Z) (at_ : Place) : M Pol () :=
  do on_phys (update_page page (λ p, (take_referenced p).2)) then deactivate page at_.

Definition flush (id : nat) : M Pol () := drain id false.
(** [idle] at time [now]; it gives up when the policy is locked. *)
Definition idle (now : Z) (id : nat) : M Pol () :=
  let* locked := ask_pool in
  if negb locked then ret ()
  else
    let* p := get_pending id in
    if wrap64 (now - last_flush p) <? IDLE_INTERVAL_NS then ret ()
    else
      do drain id true then
      let* p := get_pending id in
      if bool_decide (head p = QUEUE_SIZE) then put_pending id (mkPending (pages p) (head p) now) else ret ().
Definition queues_empty (s : Pol) : bool := (nactive (clock s) =? 0) && (ninactive (clock s) =? 0).

(** ** Scan markers *)

Definition marker_new (n : nat) (is_active : bool) : M Pol () :=
  on_clock (λ c, put_list is_active (Mark n :: clock_list is_active c) c).
(** The marker moves behind its successor. *)
Fixpoint advance (n : nat) (l : list Link) : option (Link * list Link) :=
  match l with
  | [] => None
  | x :: l' =>
      if bool_decide (x = Mark n) then match l' with [] => None | y :: l'' => Some (y, y :: x :: l'') end
      else match advance n l' with Some (y, k) => Some (y, x :: k) | None => None end
  end.
Fixpoint marker_next (fuel : nat) (n : nat) (is_active : bool) : M Pol (option Z) :=
  match fuel with
  | O => panic
  | S fuel =>
      let* s := get in
      match advance n (clock_list is_active (clock s)) with
      | None => ret None
      | Some (next, l) =>
          do on_clock (put_list is_active l) then
          match next with Frame pfn => ret (Some pfn) | Mark _ => marker_next fuel n is_active end
      end
  end.
Definition marker_drop (n : nat) (is_active : bool) : M Pol () := unlink is_active (Mark n).
