(* ===== verification/PolicySpec.v ===== *)
(** * Replacement queues: what an intent means, and the operations

    The queue of a frame is decided by its policy word; realizing an intent,
    at whatever time a processor gets to it, does not change it. *)
From stdpp Require Import base list.
From S2P Require Import Prelude.
From S2P Require Import Phys.
From S2P Require Import PhysInv.
From S2P Require Import PhysOps.
From S2P Require Import Policy.
Open Scope rust_scope.

(** ** Entries whose accounting does not change *)

Record alike (p p' : Page) : Prop := {
  alike_number : frame_number p' = frame_number p;
  alike_status : status p' = status p;
  alike_exec : has_flag (flags p') EXECUTABLE = has_flag (flags p) EXECUTABLE;
}.
Lemma alike_state p p' : alike p p' → page_state p' = page_state p ∧ page_usage p' = page_usage p ∧ page_owner_kind p' = page_owner_kind p.
Proof. intros Ha. unfold page_state, page_usage, page_owner_kind, status_field. by rewrite (alike_status _ _ Ha). Qed.
Lemma alike_wf p p' : alike p p' → page_wf p → page_wf p'.
Proof. intros Ha (st & u & o & Hs & ? & ? & ? & He). exists st, u, o. rewrite (alike_status _ _ Ha), (alike_exec _ _ Ha). done. Qed.
Lemma phys_inv_alike s pfn p p' : phys_inv s → entry s pfn = Some p → alike p p' → phys_inv (set_entry pfn p' s).
Proof.
  intros [Hi Hc] Hp Ha. destruct (core_number _ _ Hi _ _ Hp) as (Hn & Hwf & _). destruct (alike_state _ _ Ha) as (Hst & _ & Ho). split.
  - eapply core_set_same; [done..| |by eapply alike_wf|done]. by rewrite (alike_number _ _ Ha).
  - destruct (set_entry_form s pfn p') as (db & E & Hl).
    assert (∀ f, f p' = f p → countb f (pagedb (set_entry pfn p' s)) = countb f (pagedb s)) as Hsame.
    { intros f Hf. rewrite (countb_set f s pfn p p' Hp), Hf. lia. }
    assert (in_state StAllocated p' = in_state StAllocated p ∧ in_state StFree p' = in_state StFree p ∧ in_state StZero p' = in_state StZero p)
      as (? & ? & ?) by (unfold in_state; by rewrite Hst).
    assert (is_owned p' = is_owned p ∧ is_anon p' = is_anon p) as (? & ?) by (unfold is_owned, is_anon; by rewrite Ho).
    assert (is_file p' = is_file p ∧ is_exec p' = is_exec p) as (? & ?) by (unfold is_file, is_exec; by rewrite Ho, (alike_exec _ _ Ha)).
    destruct Hc. split; rewrite ?Hsame by done; rewrite E; cbn; rewrite ?Hl; done.
Qed.

(** ** Policy words *)

(** A property of all words is checked on each. *)
Lemma word_cases (b : Z → bool) : forallb b (seqZ 0 64) = true → ∀ w, 0 ≤ w < 64 → b w = true.
Proof. intros Hb w Hw. rewrite forallb_forall in Hb. apply Hb, list_elem_of_In, elem_of_seqZ. lia. Qed.
Definition intends (i : Z) (w : Z) : Z := Z.lor (Z.lor (Z.lor (Z.land w (u32_not INTENT_MASK)) i) INTENT_SET) INTENT_QUEUED.
Definition unqueued (w : Z) : Z := Z.land w (u32_not INTENT_QUEUED).
Definition realized (w : Z) : Z :=
  if negb (has_flag w INTENT_SET) then w
  else
    let intent := Z.land w INTENT_MASK in
    if (intent =? DEACTIVATE) && has_flag w INACTIVE then Z.land w (u32_not INTENT_SET)
    else
      let w := Z.land w (u32_not (Z.lor (Z.lor ACTIVE INACTIVE) INTENT_SET)) in
      if intent =? DEQUEUE then w else if intent =? DEACTIVATE then Z.lor w INACTIVE else Z.lor w ACTIVE.
Definition intent_queue (i : Z) : PageQueue := if i =? DEQUEUE then QueueNone else if i =? DEACTIVATE then QueueInactive else QueueActive.
Definition word_ok (w : Z) : bool := (0 <=? w) && (w <? 64) && negb (has_flag w ACTIVE && has_flag w INACTIVE).

Lemma intends_spec i w : i ∈ [ACTIVATE; DEACTIVATE; ENQUEUE; DEQUEUE] → word_ok w = true →
  word_ok (intends i w) = true ∧ has_flag (intends i w) ACTIVE = has_flag w ACTIVE ∧ has_flag (intends i w) INACTIVE = has_flag w INACTIVE ∧
  has_flag (intends i w) INTENT_SET = true ∧ has_flag (intends i w) INTENT_QUEUED = true ∧ queue_of_word (intends i w) = intent_queue i.
Proof.
  intros Hi Hw. pose (b := λ i w, implb (word_ok w) (word_ok (intends i w) && Bool.eqb (has_flag (intends i w) ACTIVE) (has_flag w ACTIVE)
    && Bool.eqb (has_flag (intends i w) INACTIVE) (has_flag w INACTIVE) && has_flag (intends i w) INTENT_SET
    && has_flag (intends i w) INTENT_QUEUED && bool_decide (queue_of_word (intends i w) = intent_queue i))).
  assert (b i w = true) as Hb.
  { assert (0 ≤ w < 64) as Hr by (unfold word_ok in Hw; lia). revert w Hw Hr. 
    assert (∀ w, 0 ≤ w < 64 → b i w = true) as Hall; [|intros; by apply Hall]. apply word_cases.
    repeat (apply elem_of_cons in Hi as [->|Hi]; [vm_compute; reflexivity|]). by apply elem_of_nil in Hi. }
  unfold b in Hb. rewrite Hw in Hb. cbn [implb] in Hb. rewrite !andb_true_iff, !eqb_true_iff, bool_decide_eq_true in Hb. tauto.
Qed.
Lemma unqueued_spec w : word_ok w = true →
  word_ok (unqueued w) = true ∧ has_flag (unqueued w) ACTIVE = has_flag w ACTIVE ∧ has_flag (unqueued w) INACTIVE = has_flag w INACTIVE ∧
  has_flag (unqueued w) INTENT_SET = has_flag w INTENT_SET ∧ has_flag (unqueued w) INTENT_QUEUED = false ∧ queue_of_word (unqueued w) = queue_of_word w.
Proof.
  intros Hw. pose (b := λ w, implb (word_ok w) (word_ok (unqueued w) && Bool.eqb (has_flag (unqueued w) ACTIVE) (has_flag w ACTIVE)
    && Bool.eqb (has_flag (unqueued w) INACTIVE) (has_flag w INACTIVE) && Bool.eqb (has_flag (unqueued w) INTENT_SET) (has_flag w INTENT_SET)
    && negb (has_flag (unqueued w) INTENT_QUEUED) && bool_decide (queue_of_word (unqueued w) = queue_of_word w))).
  assert (b w = true) as Hb by (apply word_cases; [vm_compute; reflexivity|unfold word_ok in Hw; lia]).
  unfold b in Hb. rewrite Hw in Hb. cbn [implb] in Hb. rewrite !andb_true_iff, !eqb_true_iff, bool_decide_eq_true, negb_true_iff in Hb. tauto.
Qed.
(** Realizing keeps the queue and records it. *)
Lemma realized_spec w : word_ok w = true →
  word_ok (realized w) = true ∧ queue_of_word (realized w) = queue_of_word w ∧ has_flag (realized w) INTENT_SET = false ∧
  has_flag (realized w) INTENT_QUEUED = has_flag w INTENT_QUEUED ∧
  has_flag (realized w) ACTIVE = bool_decide (queue_of_word w = QueueActive) ∧
  has_flag (realized w) INACTIVE = bool_decide (queue_of_word w = QueueInactive).
Proof.
  intros Hw. pose (b := λ w, implb (word_ok w) (word_ok (realized w) && bool_decide (queue_of_word (realized w) = queue_of_word w)
    && negb (has_flag (realized w) INTENT_SET) && Bool.eqb (has_flag (realized w) INTENT_QUEUED) (has_flag w INTENT_QUEUED)
    && Bool.eqb (has_flag (realized w) ACTIVE) (bool_decide (queue_of_word w = QueueActive))
    && Bool.eqb (has_flag (realized w) INACTIVE) (bool_decide (queue_of_word w = QueueInactive)))).
  assert (b w = true) as Hb by (apply word_cases; [vm_compute; reflexivity|unfold word_ok in Hw; lia]).
  unfold b in Hb. rewrite Hw in Hb. cbn [implb] in Hb. rewrite !andb_true_iff, !eqb_true_iff, !bool_decide_eq_true, negb_true_iff in Hb. tauto.
Qed.

(** ** The invariant *)

Definition frames (l : list Link) : list Z := omap (λ x, match x with Frame pfn => Some pfn | Mark _ => None end) l.
Definition waiting (p : Pending) : list Z := omap id (drop (head p) (pages p)).
Definition all_waiting (s : Pol) : list Z := concat (waiting <$> pending s).
Definition word (s : Pol) (pfn : Z) : option Z := policy_flags <$> entry (phys s) pfn.
Definition queue_at (s : Pol) (pfn : Z) : option PageQueue := queue_of_word <$> word s pfn.
Definition flagged (f : Z) (s : Pol) (pfn : Z) : Prop := ∃ w, word s pfn = Some w ∧ has_flag w f = true.
Definition list_flag (is_active : bool) : Z := if is_active then ACTIVE else INACTIVE.

Record pending_ok (p : Pending) : Prop := {
  pending_length : length (pages p) = QUEUE_SIZE;
  pending_head : (head p ≤ QUEUE_SIZE)%nat;
  pending_filled : ∀ i, (head p ≤ i < QUEUE_SIZE)%nat → ∃ pfn, pages p !! i = Some (Some pfn);
}.
(** [x] are the frames marked as waiting that are in no array yet. *)
Record pol_core (x : list Z) (s : Pol) : Prop := {
  pol_phys : phys_inv (phys s);
  pol_words : ∀ pfn w, word s pfn = Some w → word_ok w = true;
  pol_lists : ∀ a pfn, pfn ∈ frames (clock_list a (clock s)) ↔ flagged (list_flag a) s pfn;
  pol_nodup : ∀ a, NoDup (clock_list a (clock s));
  pol_count : nactive (clock s) = Z.of_nat (length (frames (active (clock s)))) ∧
              ninactive (clock s) = Z.of_nat (length (frames (inactive (clock s))));
  pol_pending : length (pending s) = MAX_TLB_CPUS ∧ Forall pending_ok (pending s);
  pol_waiting : ∀ pfn, pfn ∈ all_waiting s ++ x ↔ flagged INTENT_QUEUED s pfn;
  pol_waiting_nodup : NoDup (all_waiting s ++ x);
}.
(** An intent to realize is on its way. *)
Definition intents_wait (s : Pol) : Prop := ∀ pfn w, word s pfn = Some w → has_flag w INTENT_SET = true → has_flag w INTENT_QUEUED = true.
Definition pol_inv (s : Pol) : Prop := pol_core [] s ∧ intents_wait s.

(** Only the policy words of the database differ. *)
Definition policy_only (P P' : Phys) : Prop :=
  (∃ db, P' = with_pagedb db P ∧ length db = length (pagedb P)) ∧ ∀ pfn, with_policy 0 <$> entry P' pfn = with_policy 0 <$> entry P pfn.
Lemma policy_only_refl P : policy_only P P.
Proof. split; [|done]. exists (pagedb P). by destruct P. Qed.
Lemma policy_only_trans P Q R : policy_only P Q → policy_only Q R → policy_only P R.
Proof. intros [(db & -> & Hl) He] [(db' & -> & Hl') He']. split; [exists db'; split; [done|cbn in *; lia]|]. intros pfn. by rewrite He', He. Qed.

(** ** Steps on words and lists *)

Section steps.
Context (x : list Z).
Implicit Types s : Pol.

Definition put_word (page w : Z) (p : Page) s : Pol := with_phys (set_entry page (with_policy w p) (phys s)) s.
Lemma wp_policy_word page p s o Q : entry (phys s) page = Some p → Q (policy_flags p) s o → wp (policy_word page) Q s o.
Proof. intros Hp HQ. unfold policy_word, on_phys. apply wp_bind, wp_zoom. eapply wp_get_page; [done|]. wp_steps. by destruct s. Qed.
Lemma wp_set_word page w p s o Q : entry (phys s) page = Some p → Q () (put_word page w p s) o → wp (set_policy_word page w) Q s o.
Proof. intros Hp HQ. unfold set_policy_word, on_phys. apply wp_zoom. by eapply update_page_spec. Qed.
Lemma word_put page w p s q : phys_inv (phys s) → entry (phys s) page = Some p →
  word (put_word page w p s) q = if decide (q = page) then Some w else word s q.
Proof. intros [Hi _] Hp. unfold word, put_word. cbn. rewrite (entry_set _ _ _ _ _ _ Hi Hp). by case_decide. Qed.
Lemma put_word_phys page w p s : phys_inv (phys s) → entry (phys s) page = Some p → phys_inv (phys (put_word page w p s)).
Proof. intros Hi Hp. by eapply phys_inv_alike. Qed.
Lemma put_word_only page w p s : phys_inv (phys s) → entry (phys s) page = Some p → policy_only (phys s) (phys (put_word page w p s)).
Proof.
  intros Hi Hp. unfold put_word. cbn. split; [by apply set_entry_form|]. intros q. rewrite (entry_set _ _ _ _ _ _ (proj1 Hi) Hp).
  case_decide; [subst q; by rewrite Hp|done].
Qed.
Lemma word_entry s pfn w : word s pfn = Some w → ∃ p, entry (phys s) pfn = Some p ∧ policy_flags p = w.
Proof. unfold word. intros (p & Hp & Hw)%fmap_Some. by exists p. Qed.

Definition counted (c : ClockState) : Prop :=
  nactive c = Z.of_nat (length (frames (active c))) ∧ ninactive c = Z.of_nat (length (frames (inactive c))).

Lemma elem_frames l pfn : pfn ∈ frames l ↔ Frame pfn ∈ l.
Proof.
  unfold frames. rewrite list_elem_of_omap. split; [|by exists (Frame pfn)]. intros ([q|n] & Hq & E); [by injection E as ->|done].
Qed.
Lemma nodup_frames l : NoDup l → NoDup (frames l).
Proof.
  unfold frames. induction 1 as [|y l Hy _ IH]; cbn; [constructor|]. destruct y as [pfn|n]; [|done]. constructor; [|done]. by rewrite elem_frames.
Qed.
Lemma filter_absent (l : list Link) y : y ∉ l → filter (λ z, z ≠ y) l = l.
Proof.
  induction l as [|z l IH]; intros Hy; [done|]. apply not_elem_of_cons in Hy as [Hne Hy]. rewrite filter_cons_True by congruence. by rewrite IH.
Qed.
Lemma frames_filter l page : NoDup l → Frame page ∈ l → S (length (frames (filter (λ y, y ≠ Frame page) l))) = length (frames l).
Proof.
  induction 1 as [|y l Hy Hnd IH]; [by intros ?%elem_of_nil|]. intros Hin. rewrite filter_cons. case_decide as Hd.
  - apply elem_of_cons in Hin as [E|Hin]; [by destruct Hd|]. destruct y; cbn; [f_equal|]; by apply IH.
  - subst y. by rewrite filter_absent.
Qed.

Lemma list_bound a s : pol_core x s → Z.of_nat (length (frames (clock_list a (clock s)))) ≤ 4294967295.
Proof.
  intros Hi. destruct (pol_phys _ _ Hi) as [Hp _]. pose proof (core_max _ _ Hp). pose proof (core_size _ _ Hp).
  assert (length (frames (clock_list a (clock s))) ≤ length (pagedb (phys s)))%nat; [|lia].
  eapply frames_bound; [done|apply nodup_frames, (pol_nodup _ _ Hi)|]. intros q Hq. apply (pol_lists _ _ Hi) in Hq as (w & Hw & _).
  apply word_entry in Hw as (p & -> & _). done.
Qed.
Lemma on_list s a page w : pol_core x s → word s page = Some w → Frame page ∈ clock_list a (clock s) ↔ has_flag w (list_flag a) = true.
Proof. intros Hi Hw. rewrite <- elem_frames, (pol_lists _ _ Hi). unfold flagged. rewrite Hw. split; [by intros (? & [= <-] & ?)|by exists w]. Qed.

(** The lists without the frame. *)
Definition detached (page : Z) (c c' : ClockState) : Prop :=
  counted c' ∧ ∀ a, clock_list a c' = filter (λ y, y ≠ Frame page) (clock_list a c).
Lemma unlink_detached s page a : pol_core x s → Frame page ∈ clock_list a (clock s) → (Frame page ∉ clock_list (negb a) (clock s)) →
  let l := filter (λ y, y ≠ Frame page) (clock_list a (clock s)) in
  detached page (clock s) (add_count a (-1) (put_list a l (clock s))).
Proof.
  intros Hi Hin Hout l. pose proof (frames_filter _ page (pol_nodup _ _ Hi a) Hin) as Hl. pose proof (list_bound a s Hi) as Hb. fold l in Hl.
  pose proof (pol_count _ _ Hi) as [Ha Hn]. split.
  - unfold counted, add_count, put_list, clock_list in *. destruct a; cbn [active inactive nactive ninactive] in *; first [split; [|done]|split; [done|]];
      (rewrite wrap64_count; lia).
  - intros b. unfold add_count, put_list, clock_list in *. destruct a, b; cbn in *; try done; by rewrite filter_absent.
Qed.
Lemma clock_remove_spec s page w o : pol_core x s → word s page = Some w →
  wp (clock_remove page w) (λ _ s' o', o' = o ∧ ∃ c, s' = with_clock c s ∧ detached page (clock s) c) s o.
Proof.
  intros Hi Hw. pose proof (on_list s true page w Hi Hw) as Ha. pose proof (on_list s false page w Hi Hw) as Hn. cbn [list_flag] in *.
  pose proof (pol_words _ _ Hi _ _ Hw) as Hok. unfold word_ok in Hok. rewrite !andb_true_iff, negb_true_iff, andb_false_iff in Hok.
  unfold clock_remove, unlink, on_clock. destruct (has_flag w ACTIVE) eqn:Ea; [|destruct (has_flag w INACTIVE) eqn:En].
  - wp_steps. rewrite bool_decide_true by (by apply Ha). wp_steps. split; [done|]. eexists. split; [done|]. cbn [clock with_clock].
    apply unlink_detached; [done|by apply Ha|]. cbn [negb]. rewrite Hn. destruct Hok as [_ [?|?]]; congruence.
  - wp_steps. rewrite bool_decide_true by (by apply Hn). wp_steps. split; [done|]. eexists. split; [done|]. cbn [clock with_clock].
    apply unlink_detached; [done|by apply Hn|]. cbn [negb]. rewrite Ha. done.
  - wp_steps. split; [done|]. exists (clock s). split; [by destruct s|]. split; [apply (pol_count _ _ Hi)|]. intros a. rewrite filter_absent; [done|].
    destruct a; rewrite ?Ha, ?Hn; done.
Qed.
Lemma push_back_spec s page a o : counted (clock s) → Z.of_nat (length (frames (clock_list a (clock s)))) ≤ 4294967295 →
  wp (push_back a page) (λ _ s' o', o' = o ∧ ∃ c, s' = with_clock c s ∧ counted c ∧
    clock_list a c = clock_list a (clock s) ++ [Frame page] ∧ clock_list (negb a) c = clock_list (negb a) (clock s)) s o.
Proof.
  intros [Ha Hn] Hb. unfold push_back, on_clock. wp_steps. split; [done|]. eexists. split; [done|]. unfold frames in *.
  unfold counted, add_count, put_list, clock_list, wrap64, frames in *. destruct a; cbn in *; rewrite omap_app, length_app; cbn; (split_and!; try done); rewrite Z.mod_small; lia.
Qed.

(** A frame with a new word and its place in the lists. *)
Lemma core_relist s page p w' c : pol_core x s → entry (phys s) page = Some p → word_ok w' = true →
  has_flag w' INTENT_QUEUED = has_flag (policy_flags p) INTENT_QUEUED → counted c → (∀ a, NoDup (clock_list a c)) →
  (∀ a q, Frame q ∈ clock_list a c ↔ if decide (q = page) then has_flag w' (list_flag a) = true else Frame q ∈ clock_list a (clock s)) →
  pol_core x (put_word page w' p (with_clock c s)).
Proof.
  intros Hi Hp Hok Hq Hc Hnd Hl. pose proof (word_put page w' p (with_clock c s)) as Hword. pose proof Hi as [].
  assert (∀ q, word (put_word page w' p (with_clock c s)) q = if decide (q = page) then Some w' else word s q) as Hw by (intros q; by rewrite Hword).
  clear Hword. split; try done.
  - by apply (put_word_phys page w' p (with_clock c s)).
  - intros q w. rewrite Hw. case_decide; [by intros [= <-]|apply pol_words0].
  - intros a q. rewrite elem_frames. transitivity (Frame q ∈ clock_list a c); [done|]. rewrite Hl. unfold flagged. rewrite Hw. case_decide.
    + split; [by exists w'|by intros (? & [= <-] & ?)].
    + rewrite <- elem_frames. apply pol_lists0.
  - intros q. transitivity (q ∈ all_waiting s ++ x); [done|]. rewrite pol_waiting0. unfold flagged. rewrite Hw. case_decide; [|done]. subst q.
    unfold word. rewrite Hp. cbn. split; [intros (? & [= <-] & ?); exists w'|intros (? & [= <-] & ?); eexists]; split; try done; congruence.
Qed.

Definition list_queue (a : bool) : PageQueue := if a then QueueActive else QueueInactive.
(** Linking the frame where its intent says. *)
Definition relink (page intent w : Z) : M Pol Z :=
  if negb (intent =? DEQUEUE) then
    if intent =? DEACTIVATE then do push_back false page then ret (Z.lor w INACTIVE)
    else do push_back true page then ret (Z.lor w ACTIVE)
  else ret w.
Lemma relink_spec page intent w s o : counted (clock s) → (∀ a, Z.of_nat (length (frames (clock_list a (clock s)))) ≤ 4294967295) →
  wp (relink page intent w) (λ w' s' o', o' = o ∧
    w' = (if intent =? DEQUEUE then w else if intent =? DEACTIVATE then Z.lor w INACTIVE else Z.lor w ACTIVE) ∧
    ∃ c, s' = with_clock c s ∧ counted c ∧
      ∀ a, clock_list a c = clock_list a (clock s) ++ (if bool_decide (intent_queue intent = list_queue a) then [Frame page] else [])) s o.
Proof.
  intros Hc Hb. unfold relink, intent_queue. destruct (intent =? DEQUEUE); [|destruct (intent =? DEACTIVATE)]; cbn [negb]; cbn match.
  - wp_steps. split_and!; try done. exists (clock s). split; [by destruct s|]. split; [done|]. intros a. by destruct a; rewrite app_nil_r.
  - apply wp_bind. eapply wp_mono; [by apply push_back_spec|]. intros ? s' o' (-> & c & -> & Hc' & Hl & Hl'). wp_steps. split_and!; try done.
    exists c. split_and!; try done. by intros []; rewrite ?Hl, ?Hl', ?app_nil_r.
  - apply wp_bind. eapply wp_mono; [by apply push_back_spec|]. intros ? s' o' (-> & c & -> & Hc' & Hl & Hl'). wp_steps. split_and!; try done.
    exists c. split_and!; try done. by intros []; rewrite ?Hl, ?Hl', ?app_nil_r.
Qed.

(** The lists after the frame was unlinked and linked again. *)
Lemma relisted page c c1 c2 (q0 : PageQueue) : (∀ a, NoDup (clock_list a c)) → detached page c c1 →
  (∀ a, clock_list a c2 = clock_list a c1 ++ (if bool_decide (q0 = list_queue a) then [Frame page] else [])) →
  (∀ a, NoDup (clock_list a c2)) ∧
  ∀ a q, Frame q ∈ clock_list a c2 ↔ if decide (q = page) then q0 = list_queue a else Frame q ∈ clock_list a c.
Proof.
  intros Hnd [_ H1] H2. split.
  - intros a. rewrite H2, H1. case_bool_decide; [|rewrite app_nil_r; by apply NoDup_filter]. apply NoDup_app. split_and!; [by apply NoDup_filter| |apply NoDup_singleton].
    intros y [Hy _]%list_elem_of_filter. by rewrite list_elem_of_singleton.
  - intros a q. rewrite H2, H1, elem_of_app, list_elem_of_filter. case_decide as Hq.
    + subst q. case_bool_decide as Hb; rewrite ?list_elem_of_singleton, ?elem_of_nil; tauto.
    + case_bool_decide; rewrite ?list_elem_of_singleton, ?elem_of_nil; split; try tauto; [|left; split; [congruence|done]..].
      intros [[_ ?]|[= ->]]; done.
Qed.

Lemma realize_spec s page p w o : pol_core x s → entry (phys s) page = Some p → policy_flags p = w →
  wp (realize page) (λ r s' o', o' = o ∧ r = has_flag w INTENT_SET ∧ pol_core x s' ∧ pending s' = pending s ∧ policy_only (phys s) (phys s') ∧
    ∀ q, word s' q = if decide (q = page) then Some (realized w) else word s q) s o.
Proof.
  intros Hi Hp Hpw. assert (word s page = Some w) as Hw by (unfold word; rewrite Hp; cbn; congruence). pose proof (pol_words _ _ Hi _ _ Hw) as Hok.
  pose proof (realized_spec w Hok) as (Hok' & _ & _ & Hqueued & Hact & Hina). pose proof (pol_phys _ _ Hi) as Hphys.
  unfold realize. apply wp_bind, (wp_policy_word page p); [done|]. rewrite Hpw.
  destruct (has_flag w INTENT_SET) eqn:Es; cbn [negb]; cbn match.
  2:{ wp_steps. split_and!; try done; [by apply policy_only_refl|]. intros q. unfold realized. rewrite Es. cbn [negb]. by destruct (decide (q = page)) as [->|]. }
  assert (queue_of_word w = intent_queue (Z.land w INTENT_MASK)) as Hqw by (unfold queue_of_word; by rewrite Es).
  destruct ((Z.land w INTENT_MASK =? DEACTIVATE) && has_flag w INACTIVE) eqn:Ed.
  - assert (realized w = Z.land w (u32_not INTENT_SET)) as Hr by (unfold realized; by rewrite Es, Ed).
    apply wp_bind, (wp_set_word page _ p); [done|]. wp_steps. rewrite <- Hr. split_and!; try done.
    + replace s with (with_clock (clock s) s) at 1 by (by destruct s). apply andb_true_iff in Ed as [Ei%Z.eqb_eq En].
      apply core_relist; try done; [congruence|apply (pol_count _ _ Hi)|apply (pol_nodup _ _ Hi)|]. intros a q. destruct (decide (q = page)) as [->|]; [|done].
      rewrite (on_list s a page w Hi Hw). rewrite Hqw, Ei in Hact, Hina. unfold word_ok in Hok. rewrite En, andb_true_r, andb_true_iff, negb_true_iff in Hok.
      destruct a; cbn [list_flag]; rewrite ?Hact, ?Hina, ?(proj2 Hok), ?En; done.
    + by apply put_word_only.
    + intros q. by apply word_put.
  - apply wp_bind. eapply wp_mono; [by apply clock_remove_spec|]. intros ? s1 o1 (-> & c1 & -> & Hdet). cbn beta zeta.
    apply wp_bind. eapply wp_mono; [apply (relink_spec page (Z.land w INTENT_MASK) (Z.land w (u32_not (Z.lor (Z.lor ACTIVE INACTIVE) INTENT_SET))))|].
    + apply Hdet.
    + intros b. cbn [clock with_clock]. rewrite (proj2 Hdet b). pose proof (list_bound b s Hi).
      assert (length (frames (filter (λ y, y ≠ Frame page) (clock_list b (clock s)))) ≤ length (frames (clock_list b (clock s))))%nat; [|lia].
      destruct (decide (Frame page ∈ clock_list b (clock s))) as [Hin|]; [|by rewrite filter_absent].
      pose proof (frames_filter _ page (pol_nodup _ _ Hi b) Hin). lia.
    + intros w' s2 o2 (-> & Hw' & c2 & -> & Hc2 & Hl2). apply wp_bind, (wp_set_word page _ p); [done|]. wp_steps.
      assert (w' = realized w) as -> by (unfold realized; by rewrite Es, Ed). cbn [clock with_clock] in Hl2.
      destruct (relisted page _ _ _ _ (pol_nodup _ _ Hi) Hdet Hl2) as [Hnd2 Hin2]. change (with_clock c2 (with_clock c1 s)) with (with_clock c2 s).
      split_and!; try done.
      * apply core_relist; try done; [congruence|]. intros b q. rewrite Hin2. destruct (decide (q = page)); [|done].
        rewrite <- Hqw. destruct b; cbn [list_flag list_queue]; by rewrite ?Hact, ?Hina, bool_decide_eq_true.
      * by apply (put_word_only page (realized w) p (with_clock c2 s)).
      * intros q. by apply (word_put page (realized w) p (with_clock c2 s)).
Qed.
End steps.

(** * Replacement queues: the operations

    Draining an array realizes its intents and changes no queue; an intent
    changes the queue of its frame and of no other. *)

(** ** The arrays of the processors *)

Lemma waiting_take p page : pending_ok p → pages p !! head p = Some (Some page) → head p ≠ QUEUE_SIZE →
  let p' := mkPending (<[head p:=None]> (pages p)) (head p + 1) (last_flush p) in
  pending_ok p' ∧ waiting p = page :: waiting p'.
Proof.
  intros [Hl Hh Hf] Hp Hne p'. assert (head p < QUEUE_SIZE)%nat as Hlt by lia. split.
  - split; cbn; [by rewrite length_insert|lia|]. intros i Hi. rewrite list_lookup_insert_ne by lia. apply Hf. lia.
  - unfold waiting, p'. cbn [head pages]. rewrite (drop_S _ _ _ Hp). cbn. f_equal. rewrite Nat.add_1_r, drop_insert_lt by lia. done.
Qed.
Lemma waiting_push p page : pending_ok p → head p ≠ 0%nat →
  let p' := mkPending (<[(head p - 1)%nat:=Some page]> (pages p)) (head p - 1) (last_flush p) in
  pending_ok p' ∧ waiting p' = page :: waiting p.
Proof.
  intros [Hl Hh Hf] Hne p'. split.
  - split; cbn; [by rewrite length_insert|lia|]. intros i Hi. destruct (decide (i = head p - 1)%nat) as [->|].
    + rewrite list_lookup_insert_eq by lia. by exists page.
    + rewrite list_lookup_insert_ne by lia. apply Hf. lia.
  - unfold waiting, p'. cbn [head pages]. rewrite (drop_S _ (Some page) (head p - 1)) by (apply list_lookup_insert_eq; lia).
    cbn. f_equal. replace (S (head p - 1)) with (head p) by lia. by rewrite drop_insert_lt by lia.
Qed.
Lemma waiting_insert ps id p p' : ps !! id = Some p →
  concat (waiting <$> ps) ≡ₚ waiting p ++ concat (waiting <$> delete id ps) ∧
  concat (waiting <$> <[id:=p']> ps) ≡ₚ waiting p' ++ concat (waiting <$> delete id ps).
Proof.
  intros Hp. assert (id < length ps)%nat by (by eapply lookup_lt_Some). split; [by rewrite (delete_Permutation ps id p Hp) at 1|].
  rewrite (delete_Permutation (<[id:=p']> ps) id p') by (by apply list_lookup_insert_eq). by rewrite list_delete_insert.
Qed.
Lemma pending_lookup x s id : pol_core x s → (id < MAX_TLB_CPUS)%nat → ∃ p, pending s !! id = Some p ∧ pending_ok p.
Proof.
  intros Hi Hid. destruct (pol_pending _ _ Hi) as [Hl Hf]. destruct (lookup_lt_is_Some_2 (pending s) id) as [p Hp]; [lia|].
  exists p. split; [done|]. by eapply Forall_lookup_1.
Qed.
(** Moving a frame between an array and the hands of an operation. *)
Lemma core_put_pending x x' s id p p' : pol_core x s → pending s !! id = Some p → pending_ok p' →
  waiting p' ++ x' ≡ₚ waiting p ++ x → pol_core x' (with_pending (<[id:=p']> (pending s)) s).
Proof.
  intros Hi Hp Hok Hperm. destruct (waiting_insert _ _ _ p' Hp) as [H1 H2].
  assert (all_waiting (with_pending (<[id:=p']> (pending s)) s) ++ x' ≡ₚ all_waiting s ++ x) as Hall.
  { unfold all_waiting. cbn. rewrite H1, H2. rewrite <- !app_assoc, !(Permutation_app_comm (concat _)), !app_assoc. by rewrite Hperm. }
  destruct Hi. split; try done.
  - destruct pol_pending0 as [Hl Hf]. cbn. rewrite length_insert. split; [done|]. by apply Forall_insert.
  - intros q. rewrite Hall. apply pol_waiting0.
  - by rewrite Hall.
Qed.

(** ** Words that keep their lists *)

Lemma core_reword x x' s page p w' : pol_core x s → entry (phys s) page = Some p → word_ok w' = true →
  (∀ a, has_flag w' (list_flag a) = has_flag (policy_flags p) (list_flag a)) →
  (∀ q, q ∈ all_waiting s ++ x' ↔ if decide (q = page) then has_flag w' INTENT_QUEUED = true else q ∈ all_waiting s ++ x) →
  NoDup (all_waiting s ++ x') → pol_core x' (put_word page w' p s).
Proof.
  intros Hi Hp Hok Hf Hq Hnd. pose proof (λ q, word_put page w' p s q (pol_phys _ _ Hi) Hp) as Hw.
  assert (word s page = Some (policy_flags p)) as Hpw by (unfold word; by rewrite Hp). pose proof Hi as []. split; try done.
  - by apply put_word_phys.
  - intros q w. rewrite Hw. case_decide; [by intros [= <-]|apply pol_words0].
  - intros a q. transitivity (q ∈ frames (clock_list a (clock s))); [done|]. rewrite pol_lists0. unfold flagged. rewrite Hw.
    case_decide; [subst q|done]. rewrite Hpw. split; intros (? & [= <-] & ?); eexists; (split; [done|]); by rewrite Hf || rewrite <- Hf.
  - intros q. transitivity (q ∈ all_waiting s ++ x'); [done|]. rewrite Hq. unfold flagged. rewrite Hw. case_decide.
    + split; [by exists w'|by intros (? & [= <-] & ?)].
    + apply pol_waiting0.
Qed.

(** ** Draining *)

(** What no drain changes. *)
Record kept (s s' : Pol) : Prop := {
  kept_queue : ∀ q, queue_at s' q = queue_at s q;
  kept_phys : policy_only (phys s) (phys s');
}.
Lemma kept_refl s : kept s s.
Proof. split; [done|apply policy_only_refl]. Qed.
Lemma kept_trans s1 s2 s3 : kept s1 s2 → kept s2 s3 → kept s1 s3.
Proof. intros [H1 H2] [H3 H4]. split; [intros q; by rewrite H3|by eapply policy_only_trans]. Qed.

Section drain.
Context (x : list Z).

Lemma drain_one s id p page o : pol_core x s → intents_wait s → pending s !! id = Some p → pending_ok p →
  pages p !! head p = Some (Some page) → head p ≠ QUEUE_SIZE →
  let p' := mkPending (<[head p:=None]> (pages p)) (head p + 1) (last_flush p) in
  wp (do put_pending id p' then
      let* word := policy_word page in
      do set_policy_word page (Z.land word (u32_not INTENT_QUEUED)) then
      realize page)
    (λ _ s' o', o' = o ∧ pol_core x s' ∧ intents_wait s' ∧ kept s s' ∧ pending s' = <[id:=p']> (pending s)) s o.
Proof.
  intros Hi Hset Hp Hok Hpage Hne p'. destruct (waiting_take p page Hok Hpage Hne) as [Hok' Hwait].
  assert (pol_core (page :: x) (with_pending (<[id:=p']> (pending s)) s)) as Hi1.
  { eapply core_put_pending; [done..|]. rewrite Hwait. symmetry. apply Permutation_middle. }
  set (s1 := with_pending (<[id:=p']> (pending s)) s) in *.
  destruct (proj1 (pol_waiting _ _ Hi1 page) ltac:(set_solver)) as (w & Hw & Hqd). destruct (word_entry _ _ _ Hw) as (e & He & Hew).
  pose proof (pol_words _ _ Hi1 _ _ Hw) as Hokw. pose proof (unqueued_spec w Hokw) as (Huok & Hua & Hui & Hus & Huq & Huqueue).
  pose proof (realized_spec _ Huok) as (_ & Hrq & Hrs & _).
  assert (pol_core x (put_word page (unqueued w) e s1)) as Hi2.
  { pose proof (pol_waiting_nodup _ _ Hi1) as Hnd. assert (all_waiting s1 ++ page :: x ≡ₚ page :: all_waiting s1 ++ x) as Hm by (symmetry; apply Permutation_middle).
    rewrite Hm in Hnd. apply NoDup_cons in Hnd as [Hnot Hnd]. eapply core_reword; [done..| | |done].
    - intros []; cbn [list_flag]; congruence.
    - intros q. case_decide; [subst q; by rewrite Huq|]. rewrite Hm. set_solver. }
  unfold put_pending. apply wp_bind, wp_modify. fold s1. apply wp_bind, (wp_policy_word page e); [done|]. rewrite Hew. apply wp_bind, (wp_set_word page _ e); [done|].
  change (Z.land w (u32_not INTENT_QUEUED)) with (unqueued w).
  assert (∀ q, word (put_word page (unqueued w) e s1) q = if decide (q = page) then Some (unqueued w) else word s1 q) as Hword2
    by (intros q; apply word_put; [apply (pol_phys _ _ Hi1)|done]).
  destruct (word_entry (put_word page (unqueued w) e s1) page (unqueued w)) as (e2 & He2 & Hew2); [rewrite Hword2; by rewrite decide_True|].
  eapply wp_mono; [by eapply realize_spec|]. intros r s3 o3 (-> & _ & Hi3 & Hpend & Hpol & Hword3). split_and!; try done.
  - intros q v. rewrite Hword3, Hword2. destruct (decide (q = page)) as [->|Hq]; [intros [= <-]; by rewrite Hrs|]. apply Hset.
  - split.
    + intros q. unfold queue_at. rewrite Hword3, Hword2. destruct (decide (q = page)) as [->|Hq]; [|done]. change (word s page) with (word s1 page). rewrite Hw. cbn. congruence.
    + eapply policy_only_trans; [|exact Hpol]. by apply (put_word_only page (unqueued w) e s1), He; apply (pol_phys _ _ Hi1).
Qed.

Lemma drain_loop_spec nonblocking id fuel : ∀ s o, pol_core x s → intents_wait s → (id < MAX_TLB_CPUS)%nat →
  (∀ p, pending s !! id = Some p → QUEUE_SIZE - head p < fuel)%nat →
  wp (drain_loop fuel id nonblocking) (λ _ s' o', (nonblocking = false → o' = o ∧ ∀ p, pending s' !! id = Some p → head p = QUEUE_SIZE) ∧
    pol_core x s' ∧ intents_wait s' ∧ kept s s' ∧ ∀ j, j ≠ id → pending s' !! j = pending s !! j) s o.
Proof.
  induction fuel as [|fuel IH]; intros s o Hi Hset Hid Hfuel; destruct (pending_lookup _ _ _ Hi Hid) as (p & Hp & Hok); [specialize (Hfuel p Hp); lia|].
  specialize (Hfuel p Hp). cbn [drain_loop]. unfold get_pending. wp_steps. case_bool_decide as Hh.
  { wp_steps. split_and!; try done; [|apply kept_refl]. intros _. split; [done|]. intros q Hq. congruence. }
  pose proof (pending_head _ Hok). destruct (pending_filled _ Hok (head p)) as [page Hpage]; [lia|]. wp_steps.
  assert (∀ o1, (nonblocking = false → o1 = o) → wp (do put_pending id (mkPending (<[head p:=None]> (pages p)) (head p + 1) (last_flush p)) then
          let* word := policy_word page in do set_policy_word page (Z.land word (u32_not INTENT_QUEUED)) then
          do realize page then drain_loop fuel id nonblocking)
     (λ _ s' o', (nonblocking = false → o' = o ∧ ∀ p, pending s' !! id = Some p → head p = QUEUE_SIZE) ∧ pol_core x s' ∧ intents_wait s' ∧ kept s s' ∧ ∀ j, j ≠ id → pending s' !! j = pending s !! j) s o1) as Hgo.
  { intros o1 Ho1. pose proof (drain_one s id p page o1 Hi Hset Hp Hok Hpage Hh) as Hone. cbn zeta in Hone.
    apply wp_bind. apply wp_bind_inv in Hone. eapply wp_mono; [exact Hone|]. intros [] s1 o2 H1. apply wp_bind. apply wp_bind_inv in H1.
    eapply wp_mono; [exact H1|]. intros w s2 o3 H2. apply wp_bind. apply wp_bind_inv in H2. eapply wp_mono; [exact H2|]. intros [] s3 o4 H3.
    apply wp_bind. eapply wp_mono; [exact H3|]. intros r s4 o5 (-> & Hi4 & Hset4 & Hkept & Hpend).
    eapply wp_mono; [apply IH; [done..|]|].
    - intros q. rewrite Hpend, list_lookup_insert_eq by (by eapply lookup_lt_Some). intros [= <-]. cbn [head]. lia.
    - intros r' s5 o6 (Ho & Hi5 & Hset5 & Hkept5 & Hother). split_and!; try done; [|by eapply kept_trans|].
      + intros Hn. destruct (Ho Hn) as [-> ?]. by rewrite Ho1.
      + intros j Hj. rewrite Hother, Hpend by done. by apply list_lookup_insert_ne. }
  destruct nonblocking; [apply wp_ask; intros b o1 _ _; destruct b|]; cbn [negb]; cbn match.
  - by apply Hgo.
  - wp_steps. split_and!; try done. apply kept_refl.
  - wp_steps. by apply Hgo.
Qed.
Lemma drain_spec nonblocking id s o : pol_core x s → intents_wait s → (id < MAX_TLB_CPUS)%nat →
  wp (drain id nonblocking) (λ _ s' o', (nonblocking = false → o' = o ∧ ∀ p, pending s' !! id = Some p → head p = QUEUE_SIZE) ∧
    pol_core x s' ∧ intents_wait s' ∧ kept s s' ∧ ∀ j, j ≠ id → pending s' !! j = pending s !! j) s o.
Proof. intros Hi Hset Hid. apply drain_loop_spec; [done..|]. intros p Hp. lia. Qed.
End drain.

(** ** Intents *)

Definition placed (at_ : Place) : Prop := (here at_ < MAX_TLB_CPUS ∧ later at_ < MAX_TLB_CPUS)%nat.
Definition is_intent (i : Z) : Prop := i ∈ [ACTIVATE; DEACTIVATE; ENQUEUE; DEQUEUE].

Lemma set_intent_spec i s page p o : pol_inv s → entry (phys s) page = Some p → is_intent i →
  wp (set_intent page i) (λ r s' o', o' = o ∧ pol_core (if r then [page] else []) s' ∧ intents_wait s' ∧ policy_only (phys s) (phys s') ∧
    ∀ q, queue_at s' q = if decide (q = page) then Some (intent_queue i) else queue_at s q) s o.
Proof.
  intros [Hi Hset] Hp Hint. assert (word s page = Some (policy_flags p)) as Hw by (unfold word; by rewrite Hp).
  pose proof (pol_words _ _ Hi _ _ Hw) as Hok. destruct (intends_spec i _ Hint Hok) as (Hok' & Ha & Hn & _ & Hq & Hqueue).
  unfold set_intent. apply wp_bind, (wp_policy_word page p); [done|]. apply wp_bind, (wp_set_word page _ p); [done|]. fold (intends i (policy_flags p)).
  pose proof (λ q, word_put page (intends i (policy_flags p)) p s q (pol_phys _ _ Hi) Hp) as Hword. apply wp_ret. split_and!; try done.
  - assert (page ∈ all_waiting s ++ [] ↔ has_flag (policy_flags p) INTENT_QUEUED = true) as Hwait.
    { rewrite (pol_waiting _ _ Hi). unfold flagged. rewrite Hw. split; [by intros (? & [= <-] & ?)|by eexists]. }
    pose proof (pol_waiting_nodup _ _ Hi) as Hnd. rewrite app_nil_r in Hwait, Hnd.
    eapply core_reword; [done..| | |].
    + intros []; cbn [list_flag]; done.
    + intros q. destruct (has_flag (policy_flags p) INTENT_QUEUED); cbn [negb]; case_decide; rewrite ?app_nil_r, ?elem_of_app, ?list_elem_of_singleton; subst; tauto.
    + destruct (has_flag (policy_flags p) INTENT_QUEUED); cbn [negb]; [by rewrite app_nil_r|]. apply NoDup_app. split_and!; [done| |apply NoDup_singleton].
      intros q Hin ->%list_elem_of_singleton. by apply Hwait in Hin.
  - intros q v. rewrite Hword. case_decide; [|apply Hset]. by intros [= <-].
  - apply put_word_only; [apply (pol_phys _ _ Hi)|done].
  - intros q. unfold queue_at. rewrite Hword. case_decide; [|done]. cbn. by rewrite Hqueue.
Qed.
Lemma push_pending_spec id s page p o : pol_core [page] s → intents_wait s → pending s !! id = Some p → pending_ok p → head p ≠ 0%nat →
  wp (push_pending id page) (λ _ s' o', o' = o ∧ pol_inv s' ∧ kept s s') s o.
Proof.
  intros Hi Hset Hp Hok Hh. destruct (waiting_push p page Hok Hh) as [Hok' Hwait]. unfold push_pending, get_pending, put_pending.
  apply Nat.eqb_neq in Hh as Hh'. wp_steps. rewrite Hh'. wp_steps. split_and!; [done| |by split; [|apply policy_only_refl]]. split; [|done].
  eapply core_put_pending; [done..|]. rewrite Hwait, app_nil_r. apply (Permutation_app_comm [page]).
Qed.
Lemma queue_pending_spec s page at_ o : pol_core [page] s → intents_wait s → placed at_ →
  wp (queue_pending page at_) (λ _ s' o', o' = o ∧ pol_inv s' ∧ kept s s') s o.
Proof.
  intros Hi Hset [Hhere Hlater]. destruct (pending_lookup _ _ _ Hi Hhere) as (p & Hp & Hok). unfold queue_pending. apply wp_bind. unfold get_pending at 1. wp_steps.
  destruct (Nat.eqb_spec (head p) 0) as [Hz|Hz]; cbn [negb]; cbn match; [|by eapply push_pending_spec].
  apply wp_bind. eapply wp_mono; [by apply drain_spec|]. intros [] s1 o1 (Ho & Hi1 & Hset1 & Hkept & _). destruct (Ho eq_refl) as [-> Hfull].
  destruct (pending_lookup _ _ _ Hi1 Hlater) as (p1 & Hp1 & Hok1). eapply wp_mono; [eapply push_pending_spec; [done..|]|].
  - by rewrite (Hfull _ Hp1).
  - intros [] s2 o2 (-> & ? & ?). split_and!; try done. by eapply kept_trans.
Qed.
Lemma intend_spec i s page p at_ o : pol_inv s → entry (phys s) page = Some p → is_intent i → placed at_ →
  wp (intend page i at_) (λ _ s' o', o' = o ∧ pol_inv s' ∧ policy_only (phys s) (phys s') ∧
    ∀ q, queue_at s' q = if decide (q = page) then Some (intent_queue i) else queue_at s q) s o.
Proof.
  intros Hi Hp Hint Hat. unfold intend. apply wp_bind. eapply wp_mono; [by eapply set_intent_spec|]. intros r s1 o1 (-> & Hi1 & Hset1 & Hpol & Hq).
  destruct r; [|by wp_steps]. eapply wp_mono; [by apply queue_pending_spec|]. intros [] s2 o2 (-> & Hi2 & [Hk1 Hk2]). split_and!; try done.
  - by eapply policy_only_trans.
  - intros q. by rewrite Hk1.
Qed.

(** ** Entries that change beside their word *)

Definition set_page (page : Z) (p' : Page) (s : Pol) : Pol := with_phys (set_entry page p' (phys s)) s.
Lemma word_set_page s page p p' q : phys_inv (phys s) → entry (phys s) page = Some p → policy_flags p' = policy_flags p →
  word (set_page page p' s) q = word s q.
Proof. intros [Hi _] Hp Hw. unfold word, set_page. cbn. rewrite (entry_set _ _ _ _ _ _ Hi Hp). case_decide; [subst; by rewrite Hp; cbn; rewrite Hw|done]. Qed.
Lemma core_set_page x s page p p' : pol_core x s → entry (phys s) page = Some p → alike p p' → policy_flags p' = policy_flags p →
  pol_core x (set_page page p' s).
Proof.
  intros Hi Hp Ha Hw. pose proof (λ q, word_set_page s page p p' q (pol_phys _ _ Hi) Hp Hw) as Hword. destruct Hi. split; try done.
  - by eapply phys_inv_alike.
  - intros q w. rewrite Hword. apply pol_words0.
  - intros a q. unfold flagged. rewrite Hword. apply pol_lists0.
  - intros q. unfold flagged. rewrite Hword. apply pol_waiting0.
Qed.
Lemma inv_set_page s page p p' : pol_inv s → entry (phys s) page = Some p → alike p p' → policy_flags p' = policy_flags p →
  pol_inv (set_page page p' s) ∧ ∀ q, queue_at (set_page page p' s) q = queue_at s q.
Proof.
  intros [Hi Hset] Hp Ha Hw. pose proof (λ q, word_set_page s page p p' q (pol_phys _ _ Hi) Hp Hw) as Hword. split.
  - split; [by eapply core_set_page|]. intros q w. rewrite Hword. apply Hset.
  - intros q. unfold queue_at. by rewrite Hword.
Qed.
Lemma wp_update_page page p f s o Q : entry (phys s) page = Some p → Q () (set_page page (f p) s) o → wp (on_phys (update_page page f)) Q s o.
Proof. intros Hp HQ. unfold on_phys. apply wp_zoom. by eapply update_page_spec. Qed.
Lemma wp_entry page p s o Q : entry (phys s) page = Some p → Q p s o → wp (on_phys (get_page page)) Q s o.
Proof. intros Hp HQ. unfold on_phys. apply wp_zoom. eapply wp_get_page; [done|]. by destruct s. Qed.

(** ** Wires *)

Lemma wired_alike n p : alike p (set_wires n p).
Proof. by split. Qed.
(** The common part: a new count, and an intent on the first or last wire. *)
Lemma rewire_spec (first : bool) i n s page p at_ o : pol_inv s → entry (phys s) page = Some p → is_intent i → placed at_ →
  wp (let* enqueue := (if first then set_intent page i else ret false) in if enqueue then queue_pending page at_ else ret ())
    (λ _ s' o', o' = o ∧ pol_inv s' ∧ policy_only (set_entry page (set_wires n p) (phys s)) (phys s') ∧
      ∀ q, queue_at s' q = if decide (q = page) then (if first then Some (intent_queue i) else queue_at s q) else queue_at s q)
    (set_page page (set_wires n p) s) o.
Proof.
  intros Hi Hp Hint Hat. destruct (inv_set_page s page p (set_wires n p) Hi Hp (wired_alike n p) eq_refl) as [Hi1 Hq1].
  destruct first.
  - assert (entry (phys (set_page page (set_wires n p) s)) page = Some (set_wires n p)) as Hp1.
    { unfold set_page. cbn. rewrite (entry_set _ _ _ _ _ _ (proj1 (pol_phys _ _ (proj1 Hi))) Hp). by rewrite decide_True. }
    pose proof (intend_spec i _ page _ at_ o Hi1 Hp1 Hint Hat) as Hw. eapply wp_mono; [exact Hw|]. intros [] s' o' (-> & ? & ? & Hq).
    split_and!; try done. intros q. rewrite Hq. case_decide; [done|apply Hq1].
  - wp_steps. split_and!; try done; [apply policy_only_refl|]. intros q. rewrite Hq1. by case_decide.
Qed.
Lemma wire_spec s page p at_ o : pol_inv s → entry (phys s) page = Some p → 0 ≤ wire_count p < 4294967295 → placed at_ →
  wp (wire page at_) (λ _ s' o', o' = o ∧ pol_inv s' ∧
    policy_only (set_entry page (set_wires (wire_count p + 1) p) (phys s)) (phys s') ∧
    ∀ q, queue_at s' q = if decide (q = page) then (if wire_count p =? 0 then Some QueueNone else queue_at s q) else queue_at s q) s o.
Proof.
  intros Hi Hp Hc Hat. unfold wire. apply wp_bind, (wp_entry page p); [done|]. apply wp_bind, (wp_update_page page p); [done|].
  rewrite Z.mod_small by lia. apply wp_bind, wp_massert; [lia|]. apply (rewire_spec _ DEQUEUE); try done. unfold is_intent. set_solver.
Qed.
Lemma unwire_spec s page p at_ o : pol_inv s → entry (phys s) page = Some p → 0 < wire_count p ≤ 4294967295 → placed at_ →
  wp (unwire page at_) (λ _ s' o', o' = o ∧ pol_inv s' ∧
    policy_only (set_entry page (set_wires (wire_count p - 1) p) (phys s)) (phys s') ∧
    ∀ q, queue_at s' q = if decide (q = page) then (if wire_count p =? 1 then Some QueueActive else queue_at s q) else queue_at s q) s o.
Proof.
  intros Hi Hp Hc Hat. unfold unwire. apply wp_bind, (wp_entry page p); [done|]. apply wp_bind, (wp_update_page page p); [done|].
  rewrite Z.mod_small by lia. apply wp_bind, wp_massert; [lia|]. apply (rewire_spec _ ACTIVATE); try done. unfold is_intent. set_solver.
Qed.
