(* ===== verification/PolicyTheorems.v ===== *)
(** * Replacement queues: theorems

    The deferred queues refine queues that change at once. *)
From stdpp Require Import base list.
From S2P Require Import Prelude.
From S2P Require Import Phys.
From S2P Require Import PhysInv.
From S2P Require Import PhysOps.
From S2P Require Import PhysInit.
From S2P Require Import PhysTheorems.
From S2P Require Import Policy.
From S2P Require Import PolicySpec.
Open Scope rust_scope.

Lemma policy_only_entry P P' pfn p' : policy_only P P' → entry P' pfn = Some p' → ∃ p, entry P pfn = Some p ∧ with_policy 0 p' = with_policy 0 p.
Proof.
  intros [_ He] Hp. specialize (He pfn). rewrite Hp in He. cbn in He. symmetry in He. apply fmap_Some in He as (p & -> & ?). by exists p.
Qed.
Lemma policy_only_entry_rev P P' pfn p : policy_only P P' → entry P pfn = Some p → ∃ p', entry P' pfn = Some p' ∧ with_policy 0 p' = with_policy 0 p.
Proof.
  intros [_ He] Hp. specialize (He pfn). rewrite Hp in He. cbn in He. apply fmap_Some in He as (p' & -> & ?). by exists p'.
Qed.

Inductive PolOp : Type :=
| OpActivate (page : Z) (at_ : Place)
| OpEnqueue (page : Z) (at_ : Place)
| OpRemove (page : Z) (at_ : Place)
| OpDeactivate (page : Z) (at_ : Place)
| OpWire (page : Z) (at_ : Place)
| OpUnwire (page : Z) (at_ : Place)
| OpFlush (id : nat)
| OpIdle (now : Z) (id : nat).
Definition run_pol (op : PolOp) : M Pol () :=
  match op with
  | OpActivate page at_ => activate_managed page at_
  | OpEnqueue page at_ => enqueue_managed page at_
  | OpRemove page at_ => remove_managed page at_
  | OpDeactivate page at_ => deactivate_managed page at_
  | OpWire page at_ => wire page at_
  | OpUnwire page at_ => unwire page at_
  | OpFlush id => flush id
  | OpIdle now id => idle now id
  end.
(** What the callers guarantee: a frame of the database, a processor, a wire
    to give back or room for one more; a page is queued again or deactivated
    only when it is not wired. *)
Definition pol_allowed (op : PolOp) (s : Pol) : Prop :=
  match op with
  | OpActivate page at_ | OpRemove page at_ => is_Some (entry (phys s) page) ∧ placed at_
  | OpEnqueue page at_ | OpDeactivate page at_ => (∃ p, entry (phys s) page = Some p ∧ wire_count p = 0) ∧ placed at_
  | OpWire page at_ => (∃ p, entry (phys s) page = Some p ∧ 0 ≤ wire_count p < 4294967295) ∧ placed at_
  | OpUnwire page at_ => (∃ p, entry (phys s) page = Some p ∧ 0 < wire_count p ≤ 4294967295) ∧ placed at_
  | OpFlush id | OpIdle _ id => (id < MAX_TLB_CPUS)%nat
  end.
Definition wires (s : Pol) (page : Z) : Z := match entry (phys s) page with Some p => wire_count p | None => 0 end.
(** The queues if every change happened at once. *)
Definition eager (op : PolOp) (s : Pol) (q : Z → PageQueue) : Z → PageQueue :=
  let put page v := λ x, if decide (x = page) then v else q x in
  match op with
  | OpActivate page _ => if wires s page =? 0 then put page QueueActive else q
  | OpEnqueue page _ => put page QueueActive
  | OpRemove page _ => put page QueueNone
  | OpDeactivate page _ => put page QueueInactive
  | OpWire page _ => if wires s page =? 0 then put page QueueNone else q
  | OpUnwire page _ => if wires s page =? 1 then put page QueueActive else q
  | OpFlush _ | OpIdle _ _ => q
  end.

(** The queues [q] are those of [s], and wired frames are on none. *)
Definition shows (q : Z → PageQueue) (s : Pol) : Prop :=
  ∀ pfn p, entry (phys s) pfn = Some p → queue_of_word (policy_flags p) = q pfn ∧ (wire_count p ≠ 0 → q pfn = QueueNone).

(** The step of the queues after [page] got the queue [v] and a new count. *)
Lemma shows_step q q' s s' page p n (v : option PageQueue) : shows q s → phys_inv (phys s) → entry (phys s) page = Some p →
  policy_only (set_entry page (set_wires n p) (phys s)) (phys s') →
  (∀ x, queue_at s' x = if decide (x = page) then match v with Some v => Some v | None => queue_at s x end else queue_at s x) →
  (∀ x, q' x = if decide (x = page) then match v with Some v => v | None => q x end else q x) →
  (n ≠ 0 → q' page = QueueNone) → shows q' s'.
Proof.
  intros Hs [Hi _] Hp Hpol Hq Hq' Hn x px Hx. destruct (policy_only_entry _ _ _ _ Hpol Hx) as (p0 & Hp0 & E).
  rewrite (entry_set _ _ _ _ _ _ Hi Hp) in Hp0. assert (wire_count px = wire_count p0) as Hw by (by injection E).
  specialize (Hq x). unfold queue_at, word in Hq. rewrite Hx in Hq. cbn in Hq. rewrite Hw, Hq'. case_decide as Hc.
  - subst x. injection Hp0 as <-. rewrite Hp in Hq. cbn in Hq. destruct (Hs _ _ Hp) as [H1 H2]. split; [|intros Hne; rewrite <- (Hn Hne), Hq'; by rewrite decide_True].
    destruct v; injection Hq as ->; [done|]. done.
  - destruct (Hs _ _ Hp0) as [H1 H2]. rewrite Hp0 in Hq. cbn in Hq. injection Hq as ->. done.
Qed.
Lemma set_wires_same p : set_wires (wire_count p) p = p.
Proof. by destruct p. Qed.
Lemma set_entry_same P pfn p : entry P pfn = Some p → set_entry pfn p P = P.
Proof.
  unfold entry, set_entry. destruct (seg_lookup _ _) as [i|]; [|done]. intros Hp. rewrite list_insert_id by done. by destruct P.
Qed.
(** The step when only a queue changes. *)
Lemma shows_intent q s s' page p i : shows q s → phys_inv (phys s) → entry (phys s) page = Some p → wire_count p = 0 ∨ intent_queue i = QueueNone →
  policy_only (phys s) (phys s') →
  (∀ x, queue_at s' x = if decide (x = page) then Some (intent_queue i) else queue_at s x) →
  shows (λ x, if decide (x = page) then intent_queue i else q x) s'.
Proof.
  intros Hs Hi Hp Hw Hpol Hq. eapply (shows_step q _ s s' page p (wire_count p) (Some (intent_queue i))); try done.
  - by rewrite set_wires_same, set_entry_same.
  - intros Hne. rewrite decide_True by done. tauto.
Qed.
Lemma queue_shows_kept q s s' : shows q s → kept s s' → shows q s'.
Proof.
  intros Hs [Hq Hpol] x p Hx. destruct (policy_only_entry _ _ _ _ Hpol Hx) as (p0 & Hp0 & E). destruct (Hs _ _ Hp0) as [H1 H2].
  specialize (Hq x). unfold queue_at, word in Hq. rewrite Hx, Hp0 in Hq. injection Hq as ->. split; [done|]. assert (wire_count p = wire_count p0) as -> by (by injection E). done.
Qed.

Lemma flush_idle_spec op s o : pol_inv s → (∃ id, (id < MAX_TLB_CPUS)%nat ∧ (op = OpFlush id ∨ ∃ now, op = OpIdle now id)) →
  wp (run_pol op) (λ _ s' _, pol_inv s' ∧ kept s s') s o.
Proof.
  intros [Hi Hset] (id & Hid & [->|(now & ->)]); cbn [run_pol].
  - eapply wp_mono; [by apply drain_spec|]. intros [] s' o' (_ & ? & ? & ? & _). done.
  - unfold idle. apply wp_bind, wp_ask. intros b o1 _ _. destruct b; cbn [negb]; cbn match; [|wp_steps; split; [done|apply kept_refl]].
    destruct (pending_lookup _ _ _ Hi Hid) as (p & Hp & _). unfold get_pending at 1. wp_steps.
    destruct (_ <? _); [wp_steps; split; [done|apply kept_refl]|]. apply wp_bind.
    eapply wp_mono; [by apply drain_spec|]. intros [] s1 o2 (_ & Hi1 & Hset1 & Hk & _). destruct (pending_lookup _ _ _ Hi1 Hid) as (p1 & Hp1 & Hok1).
    unfold get_pending, put_pending. wp_steps. case_bool_decide; wp_steps; [|done]. split; [|by destruct Hk]. split; [|done].
    eapply core_put_pending; [done..| |done]. by destruct Hok1.
Qed.

Lemma has_flag_mask f m g : Z.land m g = g → has_flag (Z.land f m) g = has_flag f g.
Proof. intros Hm. unfold has_flag. by rewrite <- Z.land_assoc, Hm. Qed.
Lemma unreferenced_alike p : alike p (take_referenced p).2.
Proof. split; try done. cbn. by apply has_flag_mask. Qed.
Lemma shows_set_page q s page p p' : shows q s → phys_inv (phys s) → entry (phys s) page = Some p → wire_count p' = wire_count p → policy_flags p' = policy_flags p →
  shows q (set_page page p' s).
Proof.
  intros Hs [Hi _] Hp Hw Hf x px Hx. unfold set_page in Hx. cbn in Hx. rewrite (entry_set _ _ _ _ _ _ Hi Hp) in Hx. case_decide; [|by apply Hs].
  injection Hx as <-. subst x. rewrite Hw, Hf. by apply Hs.
Qed.
Lemma is_intent_all : is_intent ACTIVATE ∧ is_intent DEACTIVATE ∧ is_intent ENQUEUE ∧ is_intent DEQUEUE.
Proof. unfold is_intent. set_solver. Qed.

Section steps.
Context (q : Z → PageQueue) (s : Pol) (Hi : pol_inv s) (Hs : shows q s).

Lemma intend_shows i page p at_ o : entry (phys s) page = Some p → wire_count p = 0 ∨ intent_queue i = QueueNone → is_intent i → placed at_ →
  wp (intend page i at_) (λ _ s' _, pol_inv s' ∧ shows (λ x, if decide (x = page) then intent_queue i else q x) s') s o.
Proof.
  intros Hp Hw Hint Hat. eapply wp_mono; [by eapply intend_spec|]. intros [] s' o' (_ & ? & Hpol & Hq). split; [done|].
  eapply shows_intent; try done. apply (pol_phys _ _ (proj1 Hi)).
Qed.
Lemma wire_shows page p at_ o : entry (phys s) page = Some p → 0 ≤ wire_count p < 4294967295 → placed at_ →
  wp (wire page at_) (λ _ s' _, pol_inv s' ∧ shows (eager (OpWire page at_) s q) s') s o.
Proof.
  intros Hp Hw Hat. eapply wp_mono; [by eapply wire_spec|]. intros [] s' o' (_ & ? & Hpol & Hq). split; [done|].
  destruct (Hs _ _ Hp) as [_ Hz]. cbn [eager]. unfold wires. rewrite Hp.
  eapply (shows_step q _ s s' page p (wire_count p + 1) (if wire_count p =? 0 then Some QueueNone else None)); try done.
  - apply (pol_phys _ _ (proj1 Hi)).
  - intros x. rewrite Hq. by destruct (wire_count p =? 0).
  - intros x. destruct (wire_count p =? 0); by case_decide.
  - intros _. destruct (Z.eqb_spec (wire_count p) 0); [by rewrite decide_True|by apply Hz].
Qed.
Lemma unwire_shows page p at_ o : entry (phys s) page = Some p → 0 < wire_count p ≤ 4294967295 → placed at_ →
  wp (unwire page at_) (λ _ s' _, pol_inv s' ∧ shows (eager (OpUnwire page at_) s q) s') s o.
Proof.
  intros Hp Hw Hat. eapply wp_mono; [by eapply unwire_spec|]. intros [] s' o' (_ & ? & Hpol & Hq). split; [done|].
  destruct (Hs _ _ Hp) as [_ Hz]. cbn [eager]. unfold wires. rewrite Hp.
  eapply (shows_step q _ s s' page p (wire_count p - 1) (if wire_count p =? 1 then Some QueueActive else None)); try done.
  - apply (pol_phys _ _ (proj1 Hi)).
  - intros x. rewrite Hq. by destruct (wire_count p =? 1).
  - intros x. destruct (wire_count p =? 1); by case_decide.
  - intros Hne. destruct (Z.eqb_spec (wire_count p) 1); [lia|]. apply Hz. lia.
Qed.

Lemma run_pol_spec op o : pol_allowed op s → wp (run_pol op) (λ _ s' _, pol_inv s' ∧ shows (eager op s q) s') s o.
Proof.
  pose proof is_intent_all as (Ia & Id & Ie & Iq). pose proof (pol_phys _ _ (proj1 Hi)) as Hp0.
  destruct op as [page at_|page at_|page at_|page at_|page at_|page at_|id|now id]; cbn [pol_allowed run_pol].
  - intros [[p Hp] Hat]. cbn [eager]. unfold activate_managed, wires. rewrite Hp. apply wp_bind, (wp_entry page p); [done|].
    destruct (Z.eqb_spec (wire_count p) 0); [|by wp_steps]. eapply intend_shows; try done. by left.
  - intros [(p & Hp & Hw) Hat]. eapply (intend_shows ENQUEUE); try done. by left.
  - intros [[p Hp] Hat]. eapply (intend_shows DEQUEUE); try done. by right.
  - intros [(p & Hp & Hw) Hat]. unfold deactivate_managed. apply wp_bind, (wp_update_page page p); [done|].
    assert (entry (phys (set_page page (take_referenced p).2 s)) page = Some (take_referenced p).2) as Hp1.
    { unfold set_page. cbn. rewrite (entry_set _ _ _ _ _ _ (proj1 Hp0) Hp). by rewrite decide_True. }
    destruct (inv_set_page s page p _ Hi Hp (unreferenced_alike p) eq_refl) as [Hi1 _].
    pose proof (shows_set_page q s page p (take_referenced p).2 Hs Hp0 Hp eq_refl eq_refl) as Hs1.
    eapply wp_mono; [by eapply (intend_spec DEACTIVATE)|]. intros [] s' o' (_ & ? & Hpol & Hq). split; [done|].
    cbn [eager]. eapply (shows_intent q _ s' page _ DEACTIVATE Hs1); try done; [apply (pol_phys _ _ (proj1 Hi1))|by left].
  - intros [(p & Hp & Hw) Hat]. by eapply wire_shows.
  - intros [(p & Hp & Hw) Hat]. by eapply unwire_shows.
  - intros Hid. eapply wp_mono; [apply (flush_idle_spec (OpFlush id)); [done|exists id; by split; [|left]]|]. intros [] s' o' [? ?]. split; [done|]. by eapply queue_shows_kept.
  - intros Hid. eapply wp_mono; [apply (flush_idle_spec (OpIdle now id)); [done|exists id; by split; [|right; exists now]]|]. intros [] s' o' [? ?]. split; [done|]. by eapply queue_shows_kept.
Qed.
End steps.

(** ** Runs *)

Inductive pol_reach (P : Phys) : (Z → PageQueue) → Pol → Prop :=
| pol_start : pol_reach P (λ _, QueueNone) (policy_new P)
| pol_step q s op o s' o' : pol_reach P q s → pol_allowed op s → run_pol op s o = Some ((), s', o') → pol_reach P (eager op s q) s'.

Definition fresh_words (P : Phys) : Prop := ∀ pfn p, entry P pfn = Some p → policy_flags p = 0.
Lemma policy_new_inv P : phys_inv P → fresh_words P → pol_inv (policy_new P) ∧ shows (λ _, QueueNone) (policy_new P).
Proof.
  intros Hp Hw. assert (∀ pfn w, word (policy_new P) pfn = Some w → w = 0) as Hz.
  { intros pfn w (p & He & <-)%word_entry. by apply (Hw pfn). }
  assert (∀ f pfn, ¬ flagged f (policy_new P) pfn) as Hnf by (intros f pfn (w & ->%Hz & Hf); done).
  assert (all_waiting (policy_new P) = []) as Hwait.
  { unfold all_waiting. cbn [pending policy_new]. generalize MAX_TLB_CPUS. intros n. induction n as [|n IH]; [done|]. rewrite replicate_S. cbn [fmap list_fmap concat].
    rewrite IH. unfold waiting, pending_new. cbn [head pages]. rewrite drop_ge; [done|]. by rewrite length_replicate. }
  split; [split; [split|]|].
  - done.
  - intros pfn w ->%Hz. done.
  - intros a pfn. split; [|by intros ?%Hnf]. destruct a; cbn; by intros ?%elem_of_nil.
  - intros []; constructor.
  - done.
  - cbn [pending policy_new]. rewrite length_replicate. split; [done|]. apply Forall_replicate. split; cbn [pages head pending_new]; [by rewrite length_replicate|done|]. intros i ?. lia.
  - intros pfn. rewrite Hwait. split; [by intros ?%elem_of_nil|by intros ?%Hnf].
  - rewrite Hwait. constructor.
  - intros pfn w ->%Hz. done.
  - intros pfn p He. by rewrite (Hw _ _ He).
Qed.
Lemma pol_reach_inv P q s : phys_inv P → fresh_words P → pol_reach P q s → pol_inv s ∧ shows q s.
Proof.
  intros Hp Hw. induction 1 as [|q s op o s' o' _ [Hi Hs] Ha Hr]; [by apply policy_new_inv|].
  pose proof (run_pol_spec q s Hi Hs op o Ha) as H. unfold wp in H. by rewrite Hr in H.
Qed.

(** Draining the arrays of all processors. *)
Fixpoint flush_each (ids : list nat) : M Pol () :=
  match ids with [] => ret () | id :: ids => do flush id then flush_each ids end.

Lemma flush_each_spec ids : ∀ s o, pol_inv s → Forall (λ id, (id < MAX_TLB_CPUS)%nat) ids →
  wp (flush_each ids) (λ _ s' o', o' = o ∧ pol_inv s' ∧ kept s s' ∧
    ∀ id p, pending s' !! id = Some p → id ∈ ids ∨ (∃ p0, pending s !! id = Some p0 ∧ head p0 = QUEUE_SIZE) → head p = QUEUE_SIZE) s o.
Proof.
  induction ids as [|id ids IH]; intros s o Hi Hids; cbn [flush_each].
  - wp_steps. split_and!; [done..|apply kept_refl|]. intros id p Hp [?%elem_of_nil|(p0 & Hp0 & ?)]; [done|congruence].
  - inversion_clear Hids as [|? ? Hid Hids']. apply wp_bind. destruct Hi as [Hi Hset]. eapply wp_mono; [by apply drain_spec|].
    intros [] s1 o1 (Ho & Hi1 & Hset1 & Hk & Hother). destruct (Ho eq_refl) as [-> Hfull]. eapply wp_mono; [by apply IH|].
    intros [] s2 o2 (-> & Hi2 & Hk2 & Hdone). split_and!; try done; [by eapply kept_trans|]. intros j p Hp Hj. apply (Hdone j p Hp).
    destruct (pending_lookup [] s1 id Hi1 Hid) as (p1 & Hp1 & _). destruct (decide (j = id)) as [->|Hne]; [right; exists p1; split; [done|by apply Hfull]|].
    destruct Hj as [[->|Hj]%elem_of_cons|(p0 & Hp0 & Hh)]; [done|by left|]. right. exists p0. by rewrite Hother.
Qed.
(** When nothing waits every frame is on the list of its queue. *)
Lemma settled s : pol_inv s → (∀ id p, pending s !! id = Some p → head p = QUEUE_SIZE) →
  ∀ a pfn p, entry (phys s) pfn = Some p → Frame pfn ∈ clock_list a (clock s) ↔ queue_of_word (policy_flags p) = list_queue a.
Proof.
  intros [Hi Hset] Hempty a pfn p Hp. assert (word s pfn = Some (policy_flags p)) as Hw by (unfold word; by rewrite Hp).
  assert (all_waiting s = []) as Hwait.
  { unfold all_waiting. destruct (pol_pending _ _ Hi) as [_ Hok]. revert Hempty Hok. generalize (pending s). intros l. induction l as [|p0 l IH]; [done|].
    intros He Hok. inversion_clear Hok as [|? ? [Hl _ _] Hok']. cbn. rewrite IH; [|intros id p1; apply (He (S id))|done].
    unfold waiting. rewrite drop_ge; [done|]. rewrite Hl, (He 0%nat p0 eq_refl). done. }
  assert (has_flag (policy_flags p) INTENT_QUEUED = false) as Hnq.
  { apply not_true_iff_false. intros Hq. assert (pfn ∈ all_waiting s ++ []) as Hin by (apply (pol_waiting _ _ Hi); by exists (policy_flags p)).
    rewrite Hwait in Hin. by apply elem_of_nil in Hin. }
  rewrite (on_list [] s a pfn _ Hi Hw). unfold queue_of_word. destruct (has_flag (policy_flags p) INTENT_SET) eqn:Es; [by rewrite (Hset _ _ Hw Es) in Hnq|].
  pose proof (pol_words _ _ Hi _ _ Hw) as Hok. unfold word_ok in Hok. destruct (has_flag _ ACTIVE) eqn:Ea, (has_flag _ INACTIVE) eqn:En, a; cbn [list_flag list_queue];
    rewrite ?Ea, ?En; try done. by rewrite andb_false_r in Hok.
Qed.

(** C12: The deferred replacement queues behave as queues that change at once.
    After any sequence of activations, deactivations, removals, wires and
    drains on any processors, the queue reported for a frame is the one the
    sequence asked for, a wired frame is on none, the lists hold every frame
    once and the counters are their lengths. No permitted operation panics.
    Draining every processor puts each frame on exactly the list of its
    queue. *)
Theorem policy_refines_eager P q s (HP : phys_inv P) (Hw : fresh_words P) (Hr : pol_reach P q s) :
  (∀ pfn p, entry (phys s) pfn = Some p → queue_of_word (policy_flags p) = q pfn ∧ (wire_count p ≠ 0 → q pfn = QueueNone)) ∧
  (∀ a, NoDup (clock_list a (clock s))) ∧
  nactive (clock s) = Z.of_nat (length (frames (active (clock s)))) ∧ ninactive (clock s) = Z.of_nat (length (frames (inactive (clock s)))) ∧
  (∀ op o, pol_allowed op s → is_Some (run_pol op s o)) ∧
  ∃ s', flush_each (seq 0 MAX_TLB_CPUS) s [] = Some ((), s', []) ∧
    ∀ a pfn p, entry (phys s') pfn = Some p → Frame pfn ∈ clock_list a (clock s') ↔ q pfn = list_queue a.
Proof.
  destruct (pol_reach_inv _ _ _ HP Hw Hr) as [Hi Hs]. split_and!; [done|apply (pol_nodup _ _ (proj1 Hi))|apply (pol_count _ _ (proj1 Hi))..| |].
  - intros op o Ha. destruct (wp_elim _ _ _ _ (run_pol_spec q s Hi Hs op o Ha)) as ([] & s' & o' & -> & _). done.
  - assert (Forall (λ id, (id < MAX_TLB_CPUS)%nat) (seq 0 MAX_TLB_CPUS)) as Hids by (apply Forall_forall; intros id Hid; apply elem_of_seq in Hid; lia).
    destruct (wp_elim _ _ _ _ (flush_each_spec (seq 0 MAX_TLB_CPUS) s [] Hi Hids)) as ([] & s' & o' & He & -> & Hi' & Hk & Hdone).
    exists s'. split; [done|]. intros a pfn p Hp. destruct (queue_shows_kept q s s' Hs Hk pfn p Hp) as [<- _]. apply settled; [done| |done].
    intros id p1 Hp1. apply (Hdone id p1 Hp1). left. apply elem_of_seq. destruct (pol_pending _ _ (proj1 Hi')) as [Hl _]. apply lookup_lt_Some in Hp1. lia.
Qed.

(** ** A run on a small machine *)

Definition demo_place : Place := mkPlace 0 1.
Definition demo_pol : Pol :=
  match run_pol (OpActivate 20 demo_place) (policy_new demo_phys) [] with Some (_, s, _) => s | None => policy_new demo_phys end.
Lemma demo_fresh_words : fresh_words demo_phys.
Proof.
  intros pfn p Hp. unfold entry in Hp. destruct (seg_lookup (segments demo_phys) pfn) as [i|]; [|done]. apply list_elem_of_lookup_2 in Hp.
  assert (forallb (λ p, policy_flags p =? 0) (pagedb demo_phys) = true) as Hall by (vm_compute; reflexivity).
  rewrite forallb_forall in Hall. apply Z.eqb_eq, Hall. exact (proj1 (list_elem_of_In _ _) Hp).
Qed.
Lemma demo_pol_run : run_pol (OpActivate 20 demo_place) (policy_new demo_phys) [] = Some ((), demo_pol, []).
Proof. vm_compute. reflexivity. Qed.
Lemma demo_pol_reach : pol_reach demo_phys (eager (OpActivate 20 demo_place) (policy_new demo_phys) (λ _, QueueNone)) demo_pol.
Proof.
  eapply pol_step; [apply pol_start| |exact demo_pol_run]. split; [|split; apply Nat.ltb_lt; vm_compute; reflexivity].
  assert (bool_decide (is_Some (entry demo_phys 20)) = true) as H by (vm_compute; reflexivity). by apply bool_decide_eq_true in H.
Qed.
Lemma policy_refines_eager_witness :
  eager (OpActivate 20 demo_place) (policy_new demo_phys) (λ _, QueueNone) 20 = QueueActive ∧
  (Frame 20 ∉ active (clock demo_pol)) ∧
  ∃ s', flush_each (seq 0 MAX_TLB_CPUS) demo_pol [] = Some ((), s', []) ∧
    ∀ a pfn p, entry (phys s') pfn = Some p → Frame pfn ∈ clock_list a (clock s') ↔
      eager (OpActivate 20 demo_place) (policy_new demo_phys) (λ _, QueueNone) pfn = list_queue a.
Proof.
  destruct (policy_refines_eager demo_phys _ demo_pol phys_demo_inv demo_fresh_words demo_pol_reach) as (_ & _ & _ & _ & _ & Hflush).
  split; [vm_compute; reflexivity|]. split; [|exact Hflush].
  assert (bool_decide (Frame 20 ∈ active (clock demo_pol)) = false) as H by (vm_compute; reflexivity). exact (proj1 (bool_decide_eq_false _) H).
Defined.
