(* ===== verification/VmFrames.v ===== *)
(** * Frames as pages see them, and the markers of a scan

    Logical pages use the frame allocator and the replacement queues through
    one view: the entry of a frame without its policy word, and the queue the
    frame is on or on its way to. Each operation changes the view of one
    frame; realizing intents changes none. *)
From stdpp Require Import base list.
From S2P Require Import Prelude.
From S2P Require Import Phys.
From S2P Require Import PhysInv.
From S2P Require Import PhysOps.
From S2P Require Import PhysRuns.
From S2P Require Import Policy.
From S2P Require Import PolicySpec.
Open Scope rust_scope.

(** ** The view *)

Definition look (s : Pol) (f : Z) : option (Page * PageQueue) := (λ p, (with_policy 0 p, queue_of_word (policy_flags p))) <$> entry (phys s) f.
Definition put_look (f : Z) (x : Page * PageQueue) (s s' : Pol) : Prop := ∀ q, look s' q = if decide (q = f) then Some x else look s q.
Definition bytes_of (s : Pol) (f : Z) : list Z := memory (phys s) f.
Definition same_bytes (s s' : Pol) : Prop := ∀ q, bytes_of s' q = bytes_of s q.

Lemma look_entry s f p u : look s f = Some (p, u) → ∃ e, entry (phys s) f = Some e ∧ p = with_policy 0 e ∧ u = queue_of_word (policy_flags e).
Proof. unfold look. intros (e & He & [= -> ->])%fmap_Some. by exists e. Qed.
Lemma look_parts s f : look s f = match with_policy 0 <$> entry (phys s) f, queue_at s f with Some p, Some u => Some (p, u) | _, _ => None end.
Proof. unfold look, queue_at, word. by destruct (entry (phys s) f). Qed.
Lemma look_kept s s' : policy_only (phys s) (phys s') → (∀ q, queue_at s' q = queue_at s q) → ∀ q, look s' q = look s q.
Proof. intros [_ He] Hq q. by rewrite !look_parts, He, Hq. Qed.
Lemma put_look_of f p u s s' : (∀ q, with_policy 0 <$> entry (phys s') q = if decide (q = f) then Some p else with_policy 0 <$> entry (phys s) q) →
  (∀ q, queue_at s' q = if decide (q = f) then Some u else queue_at s q) → put_look f (p, u) s s'.
Proof. intros He Hq q. rewrite !look_parts, He, Hq. by case_decide. Qed.
Lemma policy_only_bytes P P' : policy_only P P' → memory P' = memory P.
Proof. by intros [(db & -> & _) _]. Qed.

(** ** Intents *)

Section intents.
Context (at_ : Place) (Hat : placed at_).
Implicit Types s : Pol.

Lemma intend_look i f p u s o : pol_inv s → look s f = Some (p, u) → is_intent i →
  wp (intend f i at_) (λ _ s' o', o' = o ∧ pol_inv s' ∧ put_look f (p, intent_queue i) s s' ∧ same_bytes s s') s o.
Proof using Hat.
  intros Hi (e & He & -> & ->)%look_entry Hint. eapply wp_mono; [by eapply intend_spec|]. intros [] s' o' (-> & Hi' & Hpol & Hq). split_and!; try done.
  - apply put_look_of; [|done]. intros q. rewrite (proj2 Hpol). case_decide; [subst; by rewrite He|done].
  - intros q. unfold bytes_of. by rewrite (policy_only_bytes _ _ Hpol).
Qed.
Lemma intents_listed : is_intent ACTIVATE ∧ is_intent DEACTIVATE ∧ is_intent ENQUEUE ∧ is_intent DEQUEUE.
Proof. unfold is_intent. set_solver. Qed.

Lemma activate_look f p u s o : pol_inv s → look s f = Some (p, u) →
  wp (activate f at_) (λ _ s' o', o' = o ∧ pol_inv s' ∧ put_look f (p, QueueActive) s s' ∧ same_bytes s s') s o.
Proof using Hat. intros. eapply (intend_look ACTIVATE); [done..|]. apply intents_listed. Qed.
Lemma activate_managed_look f p u s o : pol_inv s → look s f = Some (p, u) →
  wp (activate_managed f at_) (λ _ s' o', o' = o ∧ pol_inv s' ∧ put_look f (p, if wire_count p =? 0 then QueueActive else u) s s' ∧ same_bytes s s') s o.
Proof using Hat.
  intros Hi Hl. destruct (look_entry _ _ _ _ Hl) as (e & He & -> & ->). unfold activate_managed. apply wp_bind, (wp_entry f e); [done|].
  change (wire_count (with_policy 0 e)) with (wire_count e). destruct (wire_count e =? 0); [by eapply activate_look|]. wp_steps. split_and!; try done.
  intros q. case_decide; [by subst|done].
Qed.
Lemma remove_managed_look f p u s o : pol_inv s → look s f = Some (p, u) →
  wp (remove_managed f at_) (λ _ s' o', o' = o ∧ pol_inv s' ∧ put_look f (p, QueueNone) s s' ∧ same_bytes s s') s o.
Proof using Hat. intros. eapply (intend_look DEQUEUE); [done..|]. apply intents_listed. Qed.
Lemma enqueue_managed_look f p u s o : pol_inv s → look s f = Some (p, u) →
  wp (enqueue_managed f at_) (λ _ s' o', o' = o ∧ pol_inv s' ∧ put_look f (p, QueueActive) s s' ∧ same_bytes s s') s o.
Proof using Hat. intros. eapply (intend_look ENQUEUE); [done..|]. apply intents_listed. Qed.

(** Updates of an entry that keep its accounting and its policy word. *)
Record entry_update (g : Page → Page) : Prop := {
  upd_alike : ∀ p, alike p (g p);
  upd_policy : ∀ p, policy_flags (g p) = policy_flags p;
  upd_bare : ∀ p, with_policy 0 (g p) = g (with_policy 0 p);
}.
Lemma set_page_look f e g s : pol_inv s → entry (phys s) f = Some e → alike e g → policy_flags g = policy_flags e →
  pol_inv (set_page f g s) ∧ put_look f (with_policy 0 g, queue_of_word (policy_flags e)) s (set_page f g s) ∧ same_bytes s (set_page f g s).
Proof.
  intros Hi He Ha Hw. destruct (inv_set_page s f e g Hi He Ha Hw) as [Hi' Hq]. split_and!; [done| |].
  - apply put_look_of.
    + intros q. unfold set_page. cbn. rewrite (entry_set _ _ _ _ _ _ (proj1 (pol_phys _ _ (proj1 Hi))) He). by case_decide.
    + intros q. rewrite Hq. case_decide; [subst|done]. unfold queue_at, word. by rewrite He.
  - intros q. unfold set_page, bytes_of. cbn. by destruct (set_entry_form (phys s) f g) as (db & -> & _).
Qed.
Lemma update_look f g p u s o : entry_update g → pol_inv s → look s f = Some (p, u) →
  wp (on_phys (update_page f g)) (λ _ s' o', o' = o ∧ pol_inv s' ∧ put_look f (g p, u) s s' ∧ same_bytes s s') s o.
Proof.
  intros Hg Hi (e & He & -> & ->)%look_entry. apply (wp_update_page f e); [done|].
  destruct (set_page_look f e (g e) s Hi He (upd_alike _ Hg e) (upd_policy _ Hg e)) as (? & ? & ?). rewrite <- (upd_bare _ Hg). by split_and!.
Qed.
Lemma deactivate_managed_look f p u s o : pol_inv s → look s f = Some (p, u) → entry_update (λ p, (take_referenced p).2) →
  wp (deactivate_managed f at_) (λ _ s' o', o' = o ∧ pol_inv s' ∧ put_look f ((take_referenced p).2, QueueInactive) s s' ∧ same_bytes s s') s o.
Proof using Hat.
  intros Hi Hl Hg. unfold deactivate_managed. apply wp_bind. eapply wp_mono; [by eapply update_look|]. intros [] s1 o1 (-> & Hi1 & Hl1 & Hb1).
  assert (look s1 f = Some ((take_referenced p).2, u)) as Hf by (by rewrite Hl1, decide_True).
  eapply wp_mono; [eapply (intend_look DEACTIVATE); [done..|]; apply intents_listed|]. intros [] s2 o2 (-> & Hi2 & Hl2 & Hb2). split_and!; try done.
  - intros q. rewrite Hl2. case_decide; [done|]. rewrite Hl1. by rewrite decide_False.
  - intros q. by rewrite Hb2, Hb1.
Qed.

(** Wires. *)
Lemma wire_look f p u s o : pol_inv s → look s f = Some (p, u) → 0 ≤ wire_count p < 4294967295 →
  wp (wire f at_) (λ _ s' o', o' = o ∧ pol_inv s' ∧
    put_look f (set_wires (wire_count p + 1) p, if wire_count p =? 0 then QueueNone else u) s s' ∧ same_bytes s s') s o.
Proof using Hat.
  intros Hi (e & He & -> & ->)%look_entry Hc. eapply wp_mono; [by eapply wire_spec|]. intros [] s' o' (-> & Hi' & Hpol & Hq). split_and!; try done.
  - apply put_look_of.
    + intros q. rewrite (proj2 Hpol), (entry_set _ _ _ _ _ _ (proj1 (pol_phys _ _ (proj1 Hi))) He). by case_decide.
    + intros q. rewrite Hq. case_decide; [subst|done]. cbn. destruct (wire_count e =? 0); [done|]. unfold queue_at, word. by rewrite He.
  - intros q. unfold bytes_of. rewrite (policy_only_bytes _ _ Hpol). by destruct (set_entry_form (phys s) f (set_wires (wire_count e + 1) e)) as (db & -> & _).
Qed.
Lemma unwire_look f p u s o : pol_inv s → look s f = Some (p, u) → 0 < wire_count p ≤ 4294967295 →
  wp (unwire f at_) (λ _ s' o', o' = o ∧ pol_inv s' ∧
    put_look f (set_wires (wire_count p - 1) p, if wire_count p =? 1 then QueueActive else u) s s' ∧ same_bytes s s') s o.
Proof using Hat.
  intros Hi (e & He & -> & ->)%look_entry Hc. eapply wp_mono; [by eapply unwire_spec|]. intros [] s' o' (-> & Hi' & Hpol & Hq). split_and!; try done.
  - apply put_look_of.
    + intros q. rewrite (proj2 Hpol), (entry_set _ _ _ _ _ _ (proj1 (pol_phys _ _ (proj1 Hi))) He). by case_decide.
    + intros q. rewrite Hq. case_decide; [subst|done]. cbn. destruct (wire_count e =? 1); [done|]. unfold queue_at, word. by rewrite He.
  - intros q. unfold bytes_of. rewrite (policy_only_bytes _ _ Hpol). by destruct (set_entry_form (phys s) f (set_wires (wire_count e - 1) e)) as (db & -> & _).
Qed.
End intents.

(** ** Flags and counts *)

Lemma has_flag_keeps f m g : Z.land m g = g → has_flag (Z.land f m) g = has_flag f g.
Proof. intros Hm. unfold has_flag. by rewrite <- Z.land_assoc, Hm. Qed.
Lemma has_flag_drops f m g : Z.land m g = 0 → has_flag (Z.land f m) g = false.
Proof. intros Hm. unfold has_flag. by rewrite <- Z.land_assoc, Hm, Z.land_0_r. Qed.
Lemma has_flag_or f m g : has_flag m g = false → has_flag (Z.lor f m) g = has_flag f g.
Proof. intros Hm. by rewrite has_flag_lor, Hm, orb_false_r. Qed.
Lemma has_flag_set f m g : has_flag m g = true → has_flag (Z.lor f m) g = true.
Proof. intros Hm. by rewrite has_flag_lor, Hm, orb_true_r. Qed.

(** An update of the flags that leaves the executable mark alone. *)
Lemma flags_update (k : Z → Z) : (∀ f, has_flag (k f) EXECUTABLE = has_flag f EXECUTABLE) → entry_update (λ p, with_flags (k (flags p)) p).
Proof. intros Hk. split; [|done..]. intros p. split; [done..|]. cbn. apply Hk. Qed.
Lemma counts_update (k : Page → Z * Z * Z) : (∀ p, k (with_policy 0 p) = k p) →
  entry_update (λ p, with_counts (k p).1.1 (k p).1.2 (k p).2 p).
Proof. intros Hk. split; [by split|done|]. intros p. cbn. by rewrite Hk. Qed.
Lemma mark_referenced_update : entry_update mark_referenced.
Proof. apply (flags_update (λ f, Z.lor f REFERENCED)). intros f. by apply has_flag_or. Qed.
Lemma mark_dirty_update : entry_update mark_dirty.
Proof. apply (flags_update (λ f, Z.land (Z.lor f DIRTY) (u32_not DIRTY_UNKNOWN))). intros f. rewrite has_flag_keeps by done. by apply has_flag_or. Qed.
Lemma mark_clean_update : entry_update mark_clean.
Proof. apply (flags_update (λ f, Z.land f (u32_not (Z.lor DIRTY DIRTY_UNKNOWN)))). intros f. by apply has_flag_keeps. Qed.
Lemma mark_unknown_update : entry_update mark_unknown.
Proof.
  apply (flags_update (λ f, if Z.land f DIRTY =? 0 then Z.lor f DIRTY_UNKNOWN else f)). intros f. destruct (_ =? _); [by apply has_flag_or|done].
Qed.
Lemma resolve_unknown_update : entry_update resolve_unknown.
Proof. apply (flags_update (λ f, Z.land f (u32_not DIRTY_UNKNOWN))). intros f. by apply has_flag_keeps. Qed.
Lemma take_referenced_update : entry_update (λ p, (take_referenced p).2).
Proof. apply (flags_update (λ f, Z.land f (u32_not REFERENCED))). intros f. by apply has_flag_keeps. Qed.
Lemma unbusy_update : entry_update (λ p, (unbusy p).2).
Proof. apply (flags_update (λ f, Z.land f (u32_not (Z.lor BUSY WANTED)))). intros f. by apply has_flag_keeps. Qed.
Lemma try_busy_update : entry_update (λ p, (try_busy p).2).
Proof.
  unfold try_busy. split; intros p; [|by destruct (has_flag (flags p) BUSY)|cbn; by destruct (has_flag (flags p) BUSY)].
  split; cbn; destruct (has_flag (flags p) BUSY); try done; by apply has_flag_or.
Qed.
Lemma add_mapping_update : entry_update (λ p, with_counts (wire_count p) (loan_count p) (map_count p + 1) p).
Proof. apply (counts_update (λ p, (wire_count p, loan_count p, map_count p + 1))). done. Qed.
Lemma remove_mapping_update : entry_update (λ p, with_counts (wire_count p) (loan_count p) (map_count p - 1) p).
Proof. apply (counts_update (λ p, (wire_count p, loan_count p, map_count p - 1))). done. Qed.

(** ** The allocator *)

(** An operation of the allocator that keeps every policy word. *)
Lemma pol_inv_phys s P : pol_inv s → phys_inv P → (∀ f, policy_flags <$> entry P f = policy_flags <$> entry (phys s) f) → pol_inv (with_phys P s).
Proof.
  intros [Hi Hset] HP Hw. assert (∀ f, word (with_phys P s) f = word s f) as Hword by exact Hw. split.
  - destruct Hi. split; try done.
    + intros f w. rewrite Hword. apply pol_words.
    + intros a f. unfold flagged. rewrite Hword. apply pol_lists.
    + intros f. unfold flagged. rewrite Hword. apply pol_waiting.
  - intros f w. rewrite Hword. apply Hset.
Qed.
Lemma put_entry_look f e e' s P : pol_inv s → phys_inv P → entry (phys s) f = Some e → policy_flags e' = policy_flags e →
  (∀ q, entry P q = if decide (q = f) then Some e' else entry (phys s) q) →
  pol_inv (with_phys P s) ∧ put_look f (with_policy 0 e', queue_of_word (policy_flags e)) s (with_phys P s).
Proof.
  intros Hi HP He Hw Hq. split.
  - apply pol_inv_phys; [done..|]. intros q. rewrite Hq. case_decide; [subst; rewrite He; cbn; by rewrite Hw|done].
  - intros q. unfold look. cbn. rewrite Hq. case_decide; [cbn; by rewrite Hw|done].
Qed.
Lemma claimed_bare usage e : with_policy 0 (claimed usage e) = claimed usage (with_policy 0 e).
Proof. done. Qed.
Lemma alloc_managed_look c s o : pol_inv s → (cpu c < MAX_PAGE_CPUS)%nat →
  wp (on_phys (alloc_zeroed_page UseManaged c)) (λ r s' o', o' = o ∧ pol_inv s' ∧
    match r with
    | Some f => ∃ p u, look s f = Some (p, u) ∧ (page_state p = Some StFree ∨ page_state p = Some StZero) ∧
        put_look f (claimed UseManaged p, u) s s' ∧ bytes_of s' f = zero_frame ∧ ∀ q, q ≠ f → bytes_of s' q = bytes_of s q
    | None => s' = s
    end) s o.
Proof.
  intros Hi Hc. unfold on_phys, alloc_zeroed_page. apply wp_zoom. eapply wp_mono; [apply alloc_page_spec; [apply (pol_phys _ _ (proj1 Hi))|done..]|].
  intros [f|] P o' (-> & HP & _ & Hr); [|destruct Hr as [-> _]; split_and!; [done|by destruct s|by destruct s]].
  destruct Hr as [[(e & He & Hst & He') Hne] Hz].
  assert (∀ q, entry P q = if decide (q = f) then Some (claimed UseManaged e) else entry (phys s) q) as Hq.
  { intros q. destruct (decide (q = f)) as [->|]; [exact He'|]. by destruct (Hne q). }
  destruct (put_entry_look f e (claimed UseManaged e) s P Hi HP He eq_refl Hq) as [Hi' Hl]. split_and!; try done.
  exists (with_policy 0 e), (queue_of_word (policy_flags e)). split_and!; [by unfold look; rewrite He|done|done|exact (Hz eq_refl)|]. intros q Hqf. by apply Hne.
Qed.
Lemma free_look f p u c s o : pol_inv s → (cpu c < MAX_PAGE_CPUS)%nat → look s f = Some (p, u) → releasable p →
  wp (on_phys (free_page f c)) (λ _ s' o', o' = o ∧ pol_inv s' ∧ put_look f (released false p, u) s s' ∧ same_bytes s s') s o.
Proof.
  intros Hi Hc (e & He & -> & ->)%look_entry Hr. unfold on_phys, free_page. apply wp_zoom.
  eapply wp_mono; [apply (free_page_inner_spec f e false); [apply (pol_phys _ _ (proj1 Hi))|done..]|]. intros [] P o' (-> & HP & _ & Hm & Hq).
  destruct (put_entry_look f e (released false e) s P Hi HP He eq_refl Hq) as [Hi' Hl]. split_and!; try done. intros q. unfold bytes_of. cbn. by rewrite Hm.
Qed.
Lemma bind_owner_look f p u id is_executable kind s o : pol_inv s → look s f = Some (p, u) → page_state p = Some StAllocated →
  page_usage p = Some UseManaged → page_owner_kind p = Some OwnNone → kind ≠ OwnNone →
  wp (on_phys (bind_owner f id is_executable kind)) (λ _ s' o', o' = o ∧ pol_inv s' ∧
    put_look f (bound id kind (bool_decide (kind = OwnFile) && is_executable) p, u) s s' ∧ same_bytes s s') s o.
Proof.
  intros Hi (e & He & -> & ->)%look_entry Hst Hu Hk Hkind. unfold on_phys. apply wp_zoom.
  eapply wp_mono; [apply (bind_owner_spec f e); [apply (pol_phys _ _ (proj1 Hi))|done..]|]. intros [] P o' (-> & HP & _ & Hm & Hq).
  destruct (put_entry_look f e (bound id kind (bool_decide (kind = OwnFile) && is_executable) e) s P Hi HP He eq_refl Hq) as [Hi' Hl]. split_and!; try done. intros q. unfold bytes_of. cbn. by rewrite Hm.
Qed.
Lemma clear_owner_look f p u s o : pol_inv s → look s f = Some (p, u) →
  wp (on_phys (clear_owner f)) (λ _ s' o', o' = o ∧ pol_inv s' ∧ put_look f (unbound p, u) s s' ∧ same_bytes s s') s o.
Proof.
  intros Hi (e & He & -> & ->)%look_entry. unfold on_phys. apply wp_zoom.
  eapply wp_mono; [apply (clear_owner_spec f e); [apply (pol_phys _ _ (proj1 Hi))|done..]|]. intros [] P o' (-> & HP & _ & Hm & Hq).
  destruct (put_entry_look f e (unbound e) s P Hi HP He eq_refl Hq) as [Hi' Hl]. split_and!; try done. intros q. unfold bytes_of. cbn. by rewrite Hm.
Qed.

(** Marking a frame of a file executable moves it between the counters. *)
Definition noted (p : Page) : Page := if bool_decide (page_owner_kind p = Some OwnFile) then with_flags (Z.lor (flags p) EXECUTABLE) p else p.
Lemma noted_spec p : page_wf p → page_owner_kind p = Some OwnFile → page_wf (noted p) ∧ is_owned (noted p) = is_owned p ∧ is_anon (noted p) = is_anon p ∧
  is_file (noted p) = false ∧ is_exec (noted p) = true.
Proof.
  intros (st & u & k & Hs & Hr & Ho & Hm & Hx) Hk. unfold noted. rewrite bool_decide_true by done. unfold is_owned, is_anon, is_file, is_exec.
  change (page_owner_kind (with_flags (Z.lor (flags p) EXECUTABLE) p)) with (page_owner_kind p). rewrite Hk. cbn. rewrite has_flag_set by done.
  split_and!; try done. exists st, u, k. split_and!; try done. intros _. destruct (status_packed _ _ _ _ _ Hs) as (_ & _ & E). congruence.
Qed.
Lemma note_executable_spec f p s o : phys_inv s → entry s f = Some p →
  wp (note_executable f) (λ _ s' o', o' = o ∧ phys_inv s' ∧ memory s' = memory s ∧
    ∀ q, entry s' q = if decide (q = f) then Some (noted p) else entry s q) s o.
Proof.
  intros [Hi Hc] Hp. destruct (core_number _ _ Hi _ _ Hp) as (Hn & Hwf & _). pose proof Hwf as (st & u & k & Hs & _).
  destruct (status_packed _ _ _ _ _ Hs) as (_ & _ & Hk). unfold note_executable. apply wp_bind. eapply wp_get_page; [done|].
  apply wp_bind. eapply wp_expect; [done|]. case_bool_decide as Hf.
  2:{ wp_steps. split_and!; try done. intros q. unfold noted. rewrite bool_decide_false by congruence. by destruct (decide (q = f)) as [->|]. }
  subst k. destruct (noted_spec p Hwf Hk) as (Hwf' & E1 & E2 & E3 & E4).
  assert (with_flags (Z.lor (flags p) EXECUTABLE) p = noted p) as Hnoted by (unfold noted; by rewrite bool_decide_true).
  apply wp_bind. eapply update_page_spec; [done|]. rewrite Hnoted. set (s2 := set_entry f (noted p) s).
  assert (phys_core nobody s2) as Hi2.
  { eapply core_set_same; [done..| |done|]; rewrite <- Hnoted; done. }
  assert (is_file p = negb (has_flag (flags p) EXECUTABLE) ∧ is_exec p = has_flag (flags p) EXECUTABLE) as [F3 F4].
  { unfold is_file, is_exec. by rewrite Hk. }
  assert (managed_pages s2 = managed_pages s ∧ anon_pages s2 = anon_pages s ∧ file_pages s2 = file_pages s ∧ exec_pages s2 = exec_pages s) as (K1 & K2 & K3 & K4).
  { unfold s2. destruct (set_entry_form s f (noted p)) as (db & -> & _). done. }
  assert (memory s2 = memory s) as Hm by (unfold s2; destruct (set_entry_form s f (noted p)) as (db & -> & _); done).
  pose proof (λ q, entry_set _ s f p (noted p) q Hi Hp) as Hq. fold s2 in Hq.
  assert (∀ fi e, fi = file_pages s - Z.b2z (is_file p) → e = exec_pages s - Z.b2z (is_exec p) + 1 →
    phys_inv (with_owned (managed_pages s) (anon_pages s) fi e s2)) as Hinv.
  { intros fi e Hfi He. split; [by apply core_with_owned|]. apply counts_owner with p; [done..|by rewrite <- Hnoted| | | |]; rewrite ?E1, ?E2, ?E3, ?E4; cbn; lia. }
  pose proof (counts_bound _ _ is_file Hi). pose proof (counts_bound _ _ is_exec Hi). pose proof (counts_positive s f p is_file Hp) as P3. destruct Hc as [_ _ _ _ _ _ C3 C4].
  unfold has_flag in F3, F4. destruct (Z.land (flags p) EXECUTABLE =? 0); cbn [negb] in F3, F4; rewrite F3, F4 in Hinv; cbn [Z.b2z] in Hinv.
  - specialize (P3 F3). wp_steps. unfold account. rewrite bool_decide_true by done. cbn [andb]. cbn match.
    cbn [with_owned managed_pages anon_pages file_pages exec_pages]. rewrite K1, K2, K3, K4.
    split_and!; [done| |done|done]. apply Hinv; rewrite wrap64_count; lia.
  - wp_steps. split_and!; [done| |done|done]. specialize (Hinv (file_pages s) (exec_pages s) ltac:(lia) ltac:(lia)). rewrite <- K1, <- K2, <- K3, <- K4 in Hinv. by destruct s2.
Qed.
Lemma noted_bare p : with_policy 0 (noted p) = noted (with_policy 0 p) ∧ policy_flags (noted p) = policy_flags p.
Proof. unfold noted. change (page_owner_kind (with_policy 0 p)) with (page_owner_kind p). by case_bool_decide. Qed.
Lemma note_executable_look f p u s o : pol_inv s → look s f = Some (p, u) →
  wp (on_phys (note_executable f)) (λ _ s' o', o' = o ∧ pol_inv s' ∧ put_look f (noted p, u) s s' ∧ same_bytes s s') s o.
Proof.
  intros Hi (e & He & -> & ->)%look_entry. unfold on_phys. apply wp_zoom. destruct (noted_bare e) as [Hb Hw].
  eapply wp_mono; [apply (note_executable_spec f e); [apply (pol_phys _ _ (proj1 Hi))|done..]|]. intros [] P o' (-> & HP & Hm & Hq).
  destruct (put_entry_look f e (noted e) s P Hi HP He Hw Hq) as [Hi' Hl]. rewrite <- Hb. split_and!; try done. intros q. unfold bytes_of. cbn. by rewrite Hm.
Qed.

(** ** Bytes *)

Lemma write_look f p u bytes s o : pol_inv s → look s f = Some (p, u) → page_state p = Some StAllocated →
  wp (on_phys (modify (write_frame f bytes))) (λ _ s' o', o' = o ∧ pol_inv s' ∧ (∀ q, look s' q = look s q) ∧
    ∀ q, bytes_of s' q = if decide (q = f) then bytes else bytes_of s q) s o.
Proof.
  intros Hi (e & He & -> & ->)%look_entry Hst. unfold on_phys. apply wp_zoom, wp_modify. split_and!; try done.
  - apply pol_inv_phys; [done| |done]. destruct (pol_phys _ _ (proj1 Hi)) as [Hc Hn]. split; [|by destruct Hn]. apply core_write; [done|].
    intros e' He' E. rewrite He in He'. injection He' as <-. change (page_state (with_policy 0 e)) with (page_state e) in Hst. congruence.
  - intros q. unfold bytes_of. cbn. destruct (decide (q = f)) as [->|Hne]; [by rewrite Z.eqb_refl|]. by apply Z.eqb_neq in Hne as ->.
Qed.

(** ** Realizing *)

Lemma realize_look f p u s o : pol_inv s → look s f = Some (p, u) →
  wp (realize f) (λ _ s' o', o' = o ∧ pol_inv s' ∧ (∀ q, look s' q = look s q) ∧ same_bytes s s') s o.
Proof.
  intros [Hi Hset] Hl. destruct (look_entry _ _ _ _ Hl) as (e & He & -> & ->).
  assert (word s f = Some (policy_flags e)) as Hw by (unfold word; by rewrite He). destruct (realized_spec _ (pol_words _ _ Hi _ _ Hw)) as (_ & Hq & Hs & _).
  eapply wp_mono; [by eapply realize_spec|]. intros r s' o' (-> & _ & Hi' & _ & Hpol & Hword). split_and!; [done| | |].
  - split; [done|]. intros q w. rewrite Hword. case_decide; [|apply Hset]. intros [= <-]. congruence.
  - apply look_kept; [done|]. intros q. unfold queue_at. rewrite Hword. destruct (decide (q = f)) as [->|]; [|done]. rewrite Hw. cbn. by rewrite Hq.
  - intros q. unfold bytes_of. by rewrite (policy_only_bytes _ _ Hpol).
Qed.
Lemma flush_look id s o : pol_inv s → (id < MAX_TLB_CPUS)%nat →
  wp (flush id) (λ _ s' o', o' = o ∧ pol_inv s' ∧ (∀ q, look s' q = look s q) ∧ same_bytes s s') s o.
Proof.
  intros [Hi Hset] Hid. unfold flush. eapply wp_mono; [by apply (drain_spec [])|]. intros [] s' o' (Ho & Hi' & Hset' & [Hq Hpol] & _).
  split_and!; [by apply Ho|done|by apply look_kept|]. intros q. unfold bytes_of. by rewrite (policy_only_bytes _ _ Hpol).
Qed.

(** An intent that is realized without waiting. *)
Definition now_word (i w : Z) : Z := Z.lor (Z.lor (Z.land w (u32_not INTENT_MASK)) i) INTENT_SET.
Lemma now_word_spec i w : is_intent i → word_ok w = true →
  word_ok (now_word i w) = true ∧ has_flag (now_word i w) ACTIVE = has_flag w ACTIVE ∧ has_flag (now_word i w) INACTIVE = has_flag w INACTIVE ∧
  has_flag (now_word i w) INTENT_QUEUED = has_flag w INTENT_QUEUED ∧ queue_of_word (now_word i w) = intent_queue i.
Proof.
  intros Hi Hw. pose (b := λ i w, implb (word_ok w) (word_ok (now_word i w) && Bool.eqb (has_flag (now_word i w) ACTIVE) (has_flag w ACTIVE)
    && Bool.eqb (has_flag (now_word i w) INACTIVE) (has_flag w INACTIVE) && Bool.eqb (has_flag (now_word i w) INTENT_QUEUED) (has_flag w INTENT_QUEUED)
    && bool_decide (queue_of_word (now_word i w) = intent_queue i))).
  assert (b i w = true) as Hb.
  { assert (0 ≤ w < 64) as Hr by (unfold word_ok in Hw; lia). revert w Hw Hr. assert (∀ w, 0 ≤ w < 64 → b i w = true) as Hall; [|intros; by apply Hall].
    apply word_cases. unfold is_intent in Hi. repeat (apply elem_of_cons in Hi as [->|Hi]; [vm_compute; reflexivity|]). by apply elem_of_nil in Hi. }
  unfold b in Hb. rewrite Hw in Hb. cbn [implb] in Hb. rewrite !andb_true_iff, !eqb_true_iff, bool_decide_eq_true in Hb. tauto.
Qed.
Lemma now_look i f p u s o : pol_inv s → look s f = Some (p, u) → is_intent i →
  wp (let* word := policy_word f in do set_policy_word f (now_word i word) then let* _ := realize f in ret ())
    (λ _ s' o', o' = o ∧ pol_inv s' ∧ put_look f (p, intent_queue i) s s' ∧ same_bytes s s') s o.
Proof.
  intros [Hi Hset] Hl Hint. destruct (look_entry _ _ _ _ Hl) as (e & He & -> & ->).
  assert (word s f = Some (policy_flags e)) as Hw by (unfold word; by rewrite He).
  destruct (now_word_spec i _ Hint (pol_words _ _ Hi _ _ Hw)) as (Hok & Ha & Hn & Hqueued & Hq). set (w := now_word i (policy_flags e)) in *.
  apply wp_bind, (wp_policy_word f e); [done|]. fold w. apply wp_bind, (wp_set_word f w e); [done|].
  pose proof (pol_phys _ _ Hi) as Hphys. pose proof (λ q, word_put f w e s q Hphys He) as Hword. pose proof (put_word_only f w e s Hphys He) as Honly.
  assert (pol_core [] (put_word f w e s)) as Hi1.
  { eapply core_reword; [done..| | |apply (pol_waiting_nodup _ _ Hi)]; [by intros []; cbn [list_flag]|]. intros q. case_decide; [subst q|done].
    rewrite (pol_waiting _ _ Hi), Hqueued. unfold flagged. rewrite Hw. split; [by intros (? & [= <-] & ?)|by eexists]. }
  assert (entry (phys (put_word f w e s)) f = Some (with_policy w e)) as He1.
  { unfold put_word. cbn. by rewrite (entry_set _ _ _ _ _ _ (proj1 Hphys) He), decide_True. }
  apply wp_bind. eapply wp_mono; [by eapply (realize_spec [] _ f (with_policy w e) w)|]. intros r s' o' (-> & _ & Hi' & _ & Hpol & Hword').
  destruct (realized_spec w Hok) as (_ & Hqr & Hs & _). assert (policy_only (phys s) (phys s')) as Hpol' by (by eapply policy_only_trans).
  apply wp_ret. split_and!; [done| | |].
  - split; [done|]. intros q v. rewrite Hword'. case_decide; [intros [= <-]; congruence|]. rewrite Hword, decide_False by done. apply Hset.
  - apply put_look_of.
    + intros q. rewrite (proj2 Hpol'). destruct (decide (q = f)) as [->|]; [by rewrite He|done].
    + intros q. unfold queue_at. rewrite Hword', Hword. case_decide; [|done]. cbn. by rewrite Hqr, Hq.
  - intros q. unfold bytes_of. by rewrite (policy_only_bytes _ _ Hpol').
Qed.

(** * Scan markers

    A scan keeps its place in a queue with a marker. No operation but the
    scan's own touches it: this is a relation between the states before and
    after a run, closed under composition. *)

(** ** Relations that every run keeps *)

Section keeps.
Context {St : Type} (R : St → St → Prop) `{!PreOrder R}.
Definition keeps {A} (m : M St A) : Prop := ∀ s o a s' o', m s o = Some (a, s', o') → R s s'.
Lemma keeps_ret {A} (a : A) : keeps (ret a).
Proof. by intros s o ? ? ? [= <- <- <-]. Qed.
Lemma keeps_panic {A} : keeps (A := A) panic.
Proof. by intros s o ? ? ?. Qed.
Lemma keeps_get : keeps get.
Proof. by intros s o ? ? ? [= <- <- <-]. Qed.
Lemma keeps_ask : keeps ask_pool.
Proof. intros s o ? ? ?. unfold ask_pool. destruct (ask o). by intros [= <- <- <-]. Qed.
Lemma keeps_expect {A} (x : option A) : keeps (expect x).
Proof. destruct x; [apply keeps_ret|apply keeps_panic]. Qed.
Lemma keeps_massert b : keeps (massert b).
Proof. destruct b; [apply keeps_ret|apply keeps_panic]. Qed.
Lemma keeps_modify f : (∀ s, R s (f s)) → keeps (modify f).
Proof. intros Hf s o ? ? ? [= <- <- <-]. apply Hf. Qed.
Lemma keeps_bind {A B} (m : M St A) (k : A → M St B) : keeps m → (∀ a, keeps (k a)) → keeps (bind m k).
Proof.
  intros Hm Hk s o b s' o'. unfold bind. destruct (m s o) as [[[a s1] o1]|] eqn:E; [|done]. intros E2. etrans; [by eapply Hm|by eapply Hk].
Qed.
Lemma keeps_bind_res {E A B} (m : M St (result E A)) (k : A → M St (result E B)) : keeps m → (∀ a, keeps (k a)) → keeps (bind_res m k).
Proof. intros Hm Hk. apply keeps_bind; [done|]. intros [a|e]; [done|apply keeps_ret]. Qed.
Lemma keeps_wp {A} (m : M St A) Q s o : keeps m → wp m Q s o → wp m (λ a s' o', Q a s' o' ∧ R s s') s o.
Proof. intros Hm. unfold wp. destruct (m s o) as [[[a s'] o']|] eqn:E; [|done]. intros. split; [done|by eapply Hm]. Qed.
End keeps.
Lemma keeps_zoom {St T A} (R : St → St → Prop) (P : T → T → Prop) (v : St → T) (put : T → St → St) (m : M T A) :
  keeps P m → (∀ s t, P (v s) t → R s (put t s)) → keeps R (zoom v put m).
Proof.
  intros Hm HR s o a s' o'. unfold zoom. destruct (m (v s) o) as [[[b t] o1]|] eqn:E; [|done]. intros [= <- <- <-]. by eapply HR, Hm.
Qed.
Lemma keeps_any {T A} (m : M T A) : keeps (λ _ _, True) m.
Proof. by intros ?. Qed.
Create HintDb keeps.
#[export] Hint Resolve keeps_ret keeps_panic keeps_get keeps_ask keeps_expect keeps_massert : keeps.
#[export] Hint Extern 0 (PreOrder _) => apply _ : keeps.
Ltac keeps_steps :=
  repeat first
    [ solve [eauto with keeps]
    | apply keeps_bind; [apply _| |intros ?]
    | apply keeps_bind_res; [apply _| |intros ?]
    | match goal with |- keeps _ (match ?x with _ => _ end) => destruct x end ].

(** ** Markers *)

Definition marks_same (s s' : Pol) : Prop := ∀ a n, Mark n ∈ clock_list a (clock s') ↔ Mark n ∈ clock_list a (clock s).
#[export] Instance marks_same_preorder : PreOrder marks_same.
Proof. split; [done|]. intros s1 s2 s3 H1 H2 a n. etrans; [apply H2|apply H1]. Qed.
Lemma marks_clock s s' : clock s' = clock s → marks_same s s'.
Proof. intros E a n. by rewrite E. Qed.
Lemma marks_phys {A} (m : M Phys A) : keeps marks_same (on_phys m).
Proof. eapply keeps_zoom; [apply keeps_any|]. intros s t _. by apply marks_clock. Qed.
#[export] Hint Resolve marks_phys : keeps.
Lemma marks_word f : keeps marks_same (policy_word f).
Proof. unfold policy_word. keeps_steps. Qed.
Lemma marks_set_word f w : keeps marks_same (set_policy_word f w).
Proof. unfold set_policy_word. keeps_steps. Qed.
Lemma marks_put_pending id p : keeps marks_same (put_pending id p).
Proof. apply keeps_modify. intros s. by apply marks_clock. Qed.
Lemma marks_get_pending id : keeps marks_same (get_pending id).
Proof. unfold get_pending. keeps_steps. Qed.
#[export] Hint Resolve marks_word marks_set_word marks_put_pending marks_get_pending : keeps.
Lemma clock_list_put a b l c : clock_list a (put_list b l c) = if Bool.eqb a b then l else clock_list a c.
Proof. by destruct a, b. Qed.
Lemma clock_list_count a b d c : clock_list a (add_count b d c) = clock_list a c.
Proof. by destruct a, b. Qed.
Lemma marks_unlink a f : keeps marks_same (unlink a (Frame f)).
Proof.
  unfold unlink. keeps_steps. apply keeps_modify. intros s b n. cbn [clock with_clock]. rewrite clock_list_put.
  destruct (Bool.eqb b a) eqn:E; [|done]. apply eqb_prop in E as ->. rewrite list_elem_of_filter. split; [by intros []|by split].
Qed.
Lemma marks_count a d : keeps marks_same (on_clock (add_count a d)).
Proof. apply keeps_modify. intros s b n. cbn [clock with_clock]. by rewrite clock_list_count. Qed.
#[export] Hint Resolve marks_unlink marks_count : keeps.
Lemma marks_remove f w : keeps marks_same (clock_remove f w).
Proof. unfold clock_remove. keeps_steps. Qed.
Lemma marks_push a f : keeps marks_same (push_back a f).
Proof.
  unfold push_back. keeps_steps. apply keeps_modify. intros s b n. cbn [clock with_clock]. rewrite clock_list_put.
  destruct (Bool.eqb b a) eqn:E; [|done]. apply eqb_prop in E as ->. rewrite elem_of_app, list_elem_of_singleton. split; [by intros [|]|by left].
Qed.
#[export] Hint Resolve marks_remove marks_push : keeps.
Lemma marks_realize f : keeps marks_same (realize f).
Proof. unfold realize. keeps_steps. Qed.
#[export] Hint Resolve marks_realize : keeps.
Lemma marks_drain id b : keeps marks_same (drain id b).
Proof. unfold drain. generalize (S QUEUE_SIZE). induction n as [|n IH]; cbn [drain_loop]; keeps_steps. Qed.
#[export] Hint Resolve marks_drain : keeps.
Lemma marks_intend f i at_ : keeps marks_same (intend f i at_).
Proof. unfold intend, set_intent, queue_pending, push_pending. keeps_steps. Qed.
#[export] Hint Resolve marks_intend : keeps.
Lemma marks_managed f at_ : keeps marks_same (activate f at_) ∧ keeps marks_same (activate_managed f at_) ∧ keeps marks_same (enqueue_managed f at_) ∧
  keeps marks_same (remove_managed f at_) ∧ keeps marks_same (deactivate_managed f at_).
Proof.
  unfold activate_managed, enqueue_managed, remove_managed, deactivate_managed, activate, enqueue, dequeue, deactivate. split_and!; keeps_steps.
Qed.
Lemma marks_wire f at_ : keeps marks_same (wire f at_) ∧ keeps marks_same (unwire f at_).
Proof. unfold wire, unwire, set_intent, queue_pending, push_pending. split; keeps_steps. Qed.
Lemma marks_flush id : keeps marks_same (flush id).
Proof. unfold flush. keeps_steps. Qed.

(** ** The marker's own steps *)

(** A permutation of the lists that adds or removes markers only. *)
Lemma pol_inv_relist s c : pol_inv s → (∀ a, frames (clock_list a c) ≡ₚ frames (clock_list a (clock s))) → (∀ a, NoDup (clock_list a c)) →
  nactive c = nactive (clock s) → ninactive c = ninactive (clock s) → pol_inv (with_clock c s).
Proof.
  intros [Hi Hset] Hp Hnd Ha Hn. split; [|done]. destruct Hi. split; try done.
  - intros a f. cbn [clock with_clock]. rewrite (Hp a). apply pol_lists.
  - cbn [clock with_clock]. rewrite Ha, Hn. destruct pol_count as [-> ->]. pose proof (Permutation_length (Hp true)). pose proof (Permutation_length (Hp false)).
    cbn [clock_list] in *. lia.
Qed.
Lemma put_list_counts a l c : nactive (put_list a l c) = nactive c ∧ ninactive (put_list a l c) = ninactive c.
Proof. by destruct a. Qed.
Lemma pol_inv_put_list s a l : pol_inv s → frames l ≡ₚ frames (clock_list a (clock s)) → NoDup l → pol_inv (with_clock (put_list a l (clock s)) s).
Proof.
  intros Hi Hp Hnd. destruct (put_list_counts a l (clock s)) as [Ha Hn]. apply pol_inv_relist; [done| | |done|done].
  - intros b. rewrite clock_list_put. destruct (Bool.eqb b a) eqn:E; [|done]. by apply eqb_prop in E as ->.
  - intros b. rewrite clock_list_put. destruct (Bool.eqb b a); [done|apply (pol_nodup _ _ (proj1 Hi))].
Qed.
Lemma marker_new_look n a s o : pol_inv s → Mark n ∉ clock_list a (clock s) →
  wp (marker_new n a) (λ _ s' o', o' = o ∧ pol_inv s' ∧ phys s' = phys s ∧ Mark n ∈ clock_list a (clock s') ∧ ∀ b, b ≠ a → clock_list b (clock s') = clock_list b (clock s)) s o.
Proof.
  intros Hi Hn. unfold marker_new, on_clock. wp_steps. split_and!; try done.
  - apply pol_inv_put_list; [done..|]. apply NoDup_cons. split; [done|apply (pol_nodup _ _ (proj1 Hi))].
  - cbn [clock with_clock]. rewrite clock_list_put, eqb_reflx. by left.
  - intros b Hne. cbn [clock with_clock]. rewrite clock_list_put. by destruct (Bool.eqb_spec b a).
Qed.
Lemma marker_drop_look n a s o : pol_inv s → Mark n ∈ clock_list a (clock s) →
  wp (marker_drop n a) (λ _ s' o', o' = o ∧ pol_inv s' ∧ phys s' = phys s ∧ ∀ b, Mark n ∈ clock_list b (clock s') → b ≠ a ∧ Mark n ∈ clock_list b (clock s)) s o.
Proof.
  intros Hi Hn. unfold marker_drop, unlink, on_clock. wp_steps. rewrite bool_decide_true by done. wp_steps. split_and!; try done.
  - apply pol_inv_put_list; [done| |apply NoDup_filter, (pol_nodup _ _ (proj1 Hi))].
    clear. induction (clock_list a (clock s)) as [|x l IH]; [done|]. rewrite filter_cons. case_decide as Hx.
    + destruct x; cbn; [by apply Permutation_skip|done].
    + destruct x; [discriminate|exact IH].
  - intros b. cbn [clock with_clock]. rewrite clock_list_put. destruct (Bool.eqb b a) eqn:E.
    + rewrite list_elem_of_filter. by intros [? _].
    + intros Hin. split; [|done]. intros ->. by rewrite eqb_reflx in E.
Qed.

(** Moving behind the successor: the part of the list after the marker
    shrinks. *)
Lemma advance_split n l : Mark n ∈ l → NoDup l → ∃ pre post, l = pre ++ Mark n :: post ∧
  advance n l = match post with [] => None | y :: post' => Some (y, pre ++ y :: Mark n :: post') end.
Proof.
  induction l as [|x l IH]; [by intros ?%elem_of_nil|]. intros Hin [Hx Hnd]%NoDup_cons. cbn [advance]. case_bool_decide as E.
  - subst x. exists [], l. by destruct l.
  - apply elem_of_cons in Hin as [E2|Hin]; [congruence|]. destruct (IH Hin Hnd) as (pre & post & -> & Ha). exists (x :: pre), post. split; [done|]. rewrite Ha.
    by destruct post.
Qed.
Lemma nodup_split {A} (x : A) p1 q1 : ∀ p2 q2, NoDup (p1 ++ x :: q1) → p1 ++ x :: q1 = p2 ++ x :: q2 → p2 = p1 ∧ q2 = q1.
Proof.
  induction p1 as [|y p1 IH]; intros [|z p2] q2 Hnd; cbn; intros E.
  - by injection E as ->.
  - injection E as <- E. cbn in Hnd. apply NoDup_cons in Hnd as [[] _]. rewrite E. set_solver.
  - injection E as -> E. cbn in Hnd. apply NoDup_cons in Hnd as [[] _]. set_solver.
  - injection E as <- E. cbn in Hnd. apply NoDup_cons in Hnd as [_ Hnd]. by destruct (IH _ _ Hnd E) as [-> ->].
Qed.
Lemma marker_next_look n a fuel : ∀ s o, pol_inv s → Mark n ∈ clock_list a (clock s) →
  (∀ pre post, clock_list a (clock s) = pre ++ Mark n :: post → (length post < fuel)%nat) →
  wp (marker_next fuel n a) (λ r s' o', o' = o ∧ pol_inv s' ∧ phys s' = phys s ∧ marks_same s s' ∧
    match r with Some f => f ∈ frames (clock_list a (clock s')) | None => True end) s o.
Proof.
  induction fuel as [|fuel IH]; intros s o Hi Hin Hfuel.
  { apply list_elem_of_split in Hin as (pre & post & E). specialize (Hfuel _ _ E). lia. }
  pose proof (pol_nodup _ _ (proj1 Hi) a) as Hnd. destruct (advance_split n _ Hin Hnd) as (pre & post & El & Ha).
  cbn [marker_next]. unfold on_clock. wp_steps. rewrite Ha. destruct post as [|y post]; [by wp_steps|].
  assert (pre ++ y :: Mark n :: post ≡ₚ clock_list a (clock s)) as Hperm by (rewrite El; apply Permutation_app_head, perm_swap).
  set (s1 := with_clock (put_list a (pre ++ y :: Mark n :: post) (clock s)) s).
  assert (pol_inv s1) as Hi1.
  { apply pol_inv_put_list; [done| |by rewrite Hperm]. unfold frames. by rewrite Hperm. }
  assert (clock_list a (clock s1) = pre ++ y :: Mark n :: post) as El1 by (unfold s1; cbn [clock with_clock]; by rewrite clock_list_put, eqb_reflx).
  assert (marks_same s s1) as Hm1.
  { intros b m. unfold s1. cbn [clock with_clock]. rewrite clock_list_put. destruct (Bool.eqb b a) eqn:E; [|done]. apply eqb_prop in E as ->. by rewrite Hperm. }
  wp_steps. fold s1. destruct y as [f|m].
  - wp_steps. split_and!; try done. rewrite elem_frames, El1. set_solver.
  - eapply wp_mono; [apply (IH s1); [done|by apply Hm1|]|].
    + intros pre' post' E. rewrite El1 in E. assert (pre' = pre ++ [Mark m] ∧ post' = post) as [_ ->].
      { pose proof (pol_nodup _ _ (proj1 Hi1) a) as Hnd1. rewrite El1 in Hnd1. 
        change (pre ++ Mark m :: Mark n :: post) with (pre ++ [Mark m] ++ Mark n :: post) in E, Hnd1. rewrite app_assoc in E, Hnd1.
        by eapply nodup_split. }
      specialize (Hfuel _ _ El). cbn in Hfuel. lia.
    + intros r s' o' (-> & Hi' & Hp' & Hm' & Hr). split_and!; try done. by etrans.
Qed.

(** ** Frames on a list *)

Lemma listed_frame a f s : pol_inv s → f ∈ frames (clock_list a (clock s)) → ∃ e, entry (phys s) f = Some e ∧ has_flag (policy_flags e) (list_flag a) = true.
Proof. intros Hi Hf. apply (pol_lists _ _ (proj1 Hi)) in Hf as (w & Hw & Hflag). apply word_entry in Hw as (e & He & <-). by exists e. Qed.
Lemma listed_look a f s : pol_inv s → f ∈ frames (clock_list a (clock s)) → ∃ p u, look s f = Some (p, u).
Proof. intros Hi (e & He & _)%listed_frame; [|done]. unfold look. rewrite He. by eexists _, _. Qed.
(** A listed frame without an intent is on the queue of the list. *)
Lemma realize_listed a f s o : pol_inv s → f ∈ frames (clock_list a (clock s)) →
  wp (realize f) (λ r s' o', o' = o ∧ pol_inv s' ∧ (∀ q, look s' q = look s q) ∧ same_bytes s s' ∧
    (r = false → ∃ p, look s f = Some (p, if a then QueueActive else QueueInactive))) s o.
Proof.
  intros Hi Hf. destruct (listed_frame a f s Hi Hf) as (e & He & Hflag). destruct (listed_look a f s Hi Hf) as (p & u & Hl). pose proof (realize_look f p u s o Hi Hl) as Hlook.
  pose proof (realize_spec [] s f e _ o (proj1 Hi) He eq_refl) as Hspec. unfold wp in *. destruct (realize f s o) as [[[r s'] o']|]; [|done].
  destruct Hlook as (-> & Hi' & Hq & Hb), Hspec as (_ & -> & _). split_and!; try done. intros Hs. exists (with_policy 0 e). unfold look. rewrite He. cbn. do 2 f_equal.
  assert (word_ok (policy_flags e) = true) as Hok by (apply (pol_words _ _ (proj1 Hi) f); unfold word; by rewrite He). unfold queue_of_word. rewrite Hs.
  unfold word_ok in Hok. destruct a; cbn [list_flag] in Hflag; rewrite Hflag in *; [done|]. by destruct (has_flag (policy_flags e) ACTIVE); [rewrite andb_false_r in Hok|].
Qed.
Lemma advance_perm n l x l' : advance n l = Some (x, l') → l' ≡ₚ l.
Proof.
  revert l'. induction l as [|y l IH]; [done|]. intros l'. cbn [advance]. case_bool_decide as E.
  - destruct l; [done|]. intros [= <- <-]. subst. apply perm_swap.
  - destruct (advance n l) as [[x1 l1]|] eqn:Ea; [|done]. intros [= <- <-]. by apply Permutation_skip, IH.
Qed.
Lemma marks_next fuel n a : keeps marks_same (marker_next fuel n a).
Proof.
  induction fuel as [|fuel IH]; [by intros ?|]. intros s o r s' o'. cbn [marker_next]. unfold bind, get. destruct (advance n (clock_list a (clock s))) as [[x l]|] eqn:Ea; [|by intros [= <- <- <-]].
  unfold on_clock, modify. set (s1 := with_clock _ s). assert (marks_same s s1) as Hm.
  { intros b m. unfold s1. cbn [clock with_clock]. rewrite clock_list_put. destruct (Bool.eqb b a) eqn:E; [|done]. apply eqb_prop in E as ->. by rewrite (advance_perm _ _ _ _ Ea). }
  destruct x; [by intros [= <- <- <-]|]. intros Hr. etrans; [exact Hm|by eapply IH].
Qed.
