(* ===== verification/VmPage.v ===== *)
(** * Logical pages and their mappings

    The pages of [mem/page.rs] over the frame allocator, the replacement
    queues and swap, and the hardware mappings of [mem/pmap.rs]. A page is its
    number. The leaf entries of all page tables are one map: a leaf holds the
    page recorded for it by the pmap, the frame and the permissions in the
    page-table entry, and the accessed and dirty bits the processor sets.
    Locks that are dropped in the source end a definition: what runs under one
    lock is one definition, and the operations are composed of them. *)
From stdpp Require Import base list gmap sorting.
From S2P Require Import Prelude.
From S2P Require Import Bytes.
From S2P Require Import Index.
From S2P Require Import Phys.
From S2P Require Import Swap.
From S2P Require Import Policy.
Open Scope rust_scope.

(** ** State *)

Inductive PageLocation : Type := LocFile | LocZero | LocResident | LocSwapped.
Inductive PageBacking : Type :=
| BZero
| BFile
| BResident (frame : Z)
| BSwapped (handle : SwapHandle)
| BBusy (location : PageLocation) (wanted : bool).
#[export] Instance PageLocation_eq_dec : EqDecision PageLocation.
Proof. solve_decision. Defined.
#[export] Instance PageBacking_eq_dec : EqDecision PageBacking.
Proof. solve_decision. Defined.
#[export] Instance PageOwnerKind_eq_dec : EqDecision PageOwnerKind.
Proof. solve_decision. Defined.

(** A hardware mapping: the pmap and the address in it. *)
Abbreviation Key := (nat * Z)%type.
Record VmPage : Type := mkVmPage {
  vp_index : Z;
  owner_kind : PageOwnerKind;
  backing : PageBacking;
  resident : option Z;
  executable : bool;
  resident_swap : option SwapHandle;
  mappings : list Key;
  swap_reject_generation : Z;
  write_windows : Z;
  pager : option nat;
  pager_owner : option nat;
}.
#[export] Instance VmPage_eq_dec : EqDecision VmPage.
Proof. solve_decision. Defined.
Definition with_backing (b : PageBacking) (v : VmPage) : VmPage :=
  mkVmPage (vp_index v) (owner_kind v) b (resident v) (executable v) (resident_swap v) (mappings v) (swap_reject_generation v)
    (write_windows v) (pager v) (pager_owner v).
Definition with_resident_frame (r : option Z) (v : VmPage) : VmPage :=
  mkVmPage (vp_index v) (owner_kind v) (backing v) r (executable v) (resident_swap v) (mappings v) (swap_reject_generation v)
    (write_windows v) (pager v) (pager_owner v).
Definition with_executable (e : bool) (v : VmPage) : VmPage :=
  mkVmPage (vp_index v) (owner_kind v) (backing v) (resident v) e (resident_swap v) (mappings v) (swap_reject_generation v)
    (write_windows v) (pager v) (pager_owner v).
Definition with_resident_swap (h : option SwapHandle) (v : VmPage) : VmPage :=
  mkVmPage (vp_index v) (owner_kind v) (backing v) (resident v) (executable v) h (mappings v) (swap_reject_generation v)
    (write_windows v) (pager v) (pager_owner v).
Definition with_mappings (l : list Key) (v : VmPage) : VmPage :=
  mkVmPage (vp_index v) (owner_kind v) (backing v) (resident v) (executable v) (resident_swap v) l (swap_reject_generation v)
    (write_windows v) (pager v) (pager_owner v).
Definition with_reject (g : Z) (v : VmPage) : VmPage :=
  mkVmPage (vp_index v) (owner_kind v) (backing v) (resident v) (executable v) (resident_swap v) (mappings v) g
    (write_windows v) (pager v) (pager_owner v).

Definition with_windows (n : Z) (v : VmPage) : VmPage :=
  mkVmPage (vp_index v) (owner_kind v) (backing v) (resident v) (executable v) (resident_swap v) (mappings v) (swap_reject_generation v)
    n (pager v) (pager_owner v).

Definition READ : Z := 1.
Definition WRITE : Z := 2.
Definition EXECUTE : Z := 4.
Record Leaf : Type := mkLeaf { lf_page : nat; lf_protection : Z; lf_frame : Z; lf_accessed : bool; lf_dirty : bool }.
#[export] Instance Leaf_eq_dec : EqDecision Leaf.
Proof. solve_decision. Defined.

(** The paging state: frames and queues, swap, pages, leaves, the page index
    of every live object with a pager, and the counter of reclaimed pages. *)
Record Vm (B : Type) : Type := mkVm {
  pol : Pol;
  swap : Swap B;
  vpages : gmap nat VmPage;
  leaves : gmap Key Leaf;
  objects : gmap nat (gmap Z nat);
  reclaimed_pages : Z;
}.
Arguments mkVm {B}. Arguments pol {B}. Arguments swap {B}. Arguments vpages {B}. Arguments leaves {B}. Arguments objects {B}.
Arguments reclaimed_pages {B}.

(** The caller of the allocator and its processors. *)
Record Who : Type := mkWho { caller : Caller; place : Place }.

(** Pagers: reading at an offset into a buffer. *)
Class VmPager : Type := pager_read : nat → Z → list Z → result Error () * list Z.

Section vm.
Context `{Lz4} {B : Type} `{SwapBackend B} `{VmPager} (who : Who).
Abbreviation VmM := (M (Vm B)).

Definition with_pol (p : Pol) (w : Vm B) : Vm B := mkVm p (swap w) (vpages w) (leaves w) (objects w) (reclaimed_pages w).
Definition with_swap (p : Swap B) (w : Vm B) : Vm B := mkVm (pol w) p (vpages w) (leaves w) (objects w) (reclaimed_pages w).
Definition with_vpages (p : gmap nat VmPage) (w : Vm B) : Vm B := mkVm (pol w) (swap w) p (leaves w) (objects w) (reclaimed_pages w).
Definition with_leaves (l : gmap Key Leaf) (w : Vm B) : Vm B := mkVm (pol w) (swap w) (vpages w) l (objects w) (reclaimed_pages w).
Definition with_objects (m : gmap nat (gmap Z nat)) (w : Vm B) : Vm B := mkVm (pol w) (swap w) (vpages w) (leaves w) m (reclaimed_pages w).
Definition with_reclaimed (n : Z) (w : Vm B) : Vm B := mkVm (pol w) (swap w) (vpages w) (leaves w) (objects w) n.
Definition on_pol {A} (m : M Pol A) : VmM A := zoom pol with_pol m.
Definition on_swap {A} (m : M (Swap B) A) : VmM A := zoom swap with_swap m.
Definition on_frames {A} (m : M Phys A) : VmM A := on_pol (on_phys m).
Definition get_vp (id : nat) : VmM VmPage := let* w := get in expect (vpages w !! id).
Definition update_vp (id : nat) (f : VmPage → VmPage) : VmM () :=
  let* v := get_vp id in modify (λ w, with_vpages (<[id:=f v]> (vpages w)) w).
Definition update_frame (frame : Z) (f : Page → Page) : VmM () := on_frames (update_page frame f).
Definition frame_entry (frame : Z) : VmM Page := on_frames (get_page frame).
Definition frame_bytes (frame : Z) : VmM (list Z) := let* w := get in ret (memory (phys (pol w)) frame).
Definition set_bytes (frame : Z) (bytes : list Z) : VmM () := on_frames (modify (write_frame frame bytes)).
Definition activate_frame (frame : Z) : VmM () := on_pol (activate_managed frame (place who)).

(** ** Hardware mappings *)

(** [unmap_page] and [remap_page] fold the bits of the old entry. *)
Definition record_hardware_state (l : Leaf) : VmM () :=
  do (if lf_accessed l then update_frame (lf_frame l) mark_referenced else ret ()) then
  (if lf_dirty l then update_frame (lf_frame l) mark_dirty else ret ()).
Definition put_leaf (k : Key) (l : Leaf) : VmM () := modify (λ w, with_leaves (<[k:=l]> (leaves w)) w).
Definition unmap_page (k : Key) : VmM () :=
  let* w := get in
  let* l := expect (leaves w !! k) in
  do modify (λ w, with_leaves (delete k (leaves w)) w) then
  record_hardware_state l.
Definition take_accessed_dirty (k : Key) : VmM (bool * bool) :=
  let* w := get in
  let* l := expect (leaves w !! k) in
  do put_leaf k (mkLeaf (lf_page l) (lf_protection l) (lf_frame l) false false) then
  ret (lf_accessed l, lf_dirty l).

(** [ReverseMappings::push], [remove] and [after]. *)
Fixpoint remove_key (k : Key) (l : list Key) : list Key :=
  match l with [] => [] | k' :: l => if bool_decide (k' = k) then l else k' :: remove_key k l end.
Fixpoint find_after (k : Key) (l : list Key) : option (option Key) :=
  match l with [] => None | k' :: l => if bool_decide (k' = k) then Some (hd_error l) else find_after k l end.
Definition after (cursor : option Key) (l : list Key) : option Key :=
  match cursor with
  | None => hd_error l
  | Some k => match find_after k l with Some next => next | None => hd_error l end
  end.
Definition add_reverse_mapping (id : nat) (k : Key) : VmM (result Error ()) :=
  let* ok := ask_pool in
  if negb ok then ret (Err OutOfMemory)
  else do update_vp id (λ v, with_mappings (k :: mappings v) v) then ret (Ok ()).
Definition remove_reverse_mapping (id : nat) (k : Key) : VmM () := update_vp id (λ v, with_mappings (remove_key k (mappings v)) v).
Definition release_mapping (id : nat) : VmM () :=
  let* v := get_vp id in
  let* frame := expect (resident v) in
  on_frames (remove_mapping frame).

(** [visit_reverse_mappings], with the accumulator of the closure. *)
Fixpoint visit_mappings {A} (fuel : nat) (id : nat) (visit : Key → A → VmM (bool * A)) (cursor : option Key) (acc : A) : VmM A :=
  match fuel with
  | O => panic
  | S fuel =>
      let* v := get_vp id in
      match after cursor (mappings v) with
      | None => ret acc
      | Some k =>
          let* w := get in
          match leaves w !! k with
          | Some l =>
              if bool_decide (lf_page l = id) then
                let* '(go, acc) := visit k acc in
                visit_mappings fuel id visit (if (go : bool) then Some k else None) acc
              else do remove_reverse_mapping id k then visit_mappings fuel id visit None acc
          | None => do remove_reverse_mapping id k then visit_mappings fuel id visit None acc
          end
      end
  end.
Definition visit_reverse_mappings {A} (id : nat) (visit : Key → A → VmM (bool * A)) (acc : A) : VmM A :=
  let* v := get_vp id in
  visit_mappings (S (length (mappings v)) * S (length (mappings v))) id visit None acc.
Definition remove_all_mappings (id : nat) : VmM () :=
  let* v := get_vp id in
  if bool_decide (mappings v = []) then ret ()
  else
    visit_reverse_mappings id (λ k _,
      do unmap_page k then
      do remove_reverse_mapping id k then
      do release_mapping id then
      ret (false, ())) ().

(** [mark_modified], [record_hardware_state_locked] and
    [harvest_page_state_locked]. *)
Definition mark_modified (id : nat) (frame : Z) : VmM () :=
  do update_vp id (with_reject 0) then activate_frame frame.
Definition record_hardware_state_locked (id : nat) (referenced dirty : bool) : VmM () :=
  let* v := get_vp id in
  match backing v with
  | BResident frame =>
      do (if referenced then update_frame frame mark_referenced else ret ()) then
      (if dirty then do update_frame frame mark_dirty then mark_modified id frame else ret ())
  | _ => ret ()
  end.
Definition harvest_page_state_locked (id : nat) : VmM () :=
  let* '(referenced, dirty) := visit_reverse_mappings id (λ k acc,
    let* '(was_referenced, was_dirty) := take_accessed_dirty k in
    ret (true, (acc.1 || was_referenced, acc.2 || was_dirty))) (false, false) in
  record_hardware_state_locked id referenced dirty.

(** ** Entering and removing mappings *)

Definition align_page (a : Z) : Z := Z.land a (u64_not 4095).
Definition has_prot (p f : Z) : bool := Z.land p f =? f.
Definition note_executable_page (id : nat) (frame : Z) : VmM () :=
  do update_vp id (with_executable true) then on_frames (note_executable frame).
(** [PagePin::acquire_mapping] *)
Definition acquire_mapping (frame : Z) : VmM () :=
  do on_frames (add_mapping frame) then update_frame frame mark_referenced.
(** [Pmap::enter] of the page [id], pinned at [frame]. The oracle answers
    whether the index node, the reverse mapping and the page tables could be
    allocated. *)
Definition enter (pmap : nat) (address : Z) (id : nat) (frame protection : Z) : VmM (result Error ()) :=
  let k := (pmap, align_page address) in
  do (if has_prot protection EXECUTE then note_executable_page id frame else ret ()) then
  let* w := get in
  let current := leaves w !! k in
  let same_page := match current with Some l => bool_decide (lf_page l = id) | None => false end in
  let same_protection := match current with Some l => lf_protection l =? protection | None => false end in
  if same_page && same_protection then ret (Ok ())
  else
    let* reserved := (match current with None => ask_pool | Some _ => ret true end) in
    if negb reserved then ret (Err OutOfMemory)
    else
      let! _ := (if negb same_page then add_reverse_mapping id k else ret (Ok ())) in
      do acquire_mapping frame then
      do (if has_prot protection WRITE then update_frame frame mark_unknown else ret ()) then
      let* mapped := (match current with None => ask_pool | Some _ => ret true end) in
      if negb mapped then
        do (if negb same_page then remove_reverse_mapping id k else ret ()) then
        do release_mapping id then
        ret (Err OutOfMemory)
      else
        do put_leaf k (mkLeaf id protection frame false false) then
        match current with
        | None => ret (Ok ())
        | Some old =>
            do record_hardware_state old then
            do (if negb same_page then remove_reverse_mapping (lf_page old) k else ret ()) then
            do release_mapping (if same_page then id else lf_page old) then
            ret (Ok ())
        end.

(** The mappings of a pmap in a range, by address. *)
Definition range_keys (m : nat) (start end_ : Z) (ls : gmap Key Leaf) : list Key :=
  (λ a, (m, a)) <$> merge_sort Z.le ((λ kl : Key * Leaf, kl.1.2) <$>
     filter (λ kl : Key * Leaf, kl.1.1 = m ∧ start ≤ kl.1.2 < end_) (map_to_list ls)).
(** One batch of [Pmap::remove]: the pages of the removed leaves. *)
Fixpoint unmap_batch (ks : list Key) : VmM (list nat) :=
  match ks with
  | [] => ret []
  | k :: ks =>
      let* w := get in
      let* l := expect (leaves w !! k) in
      do unmap_page k then
      do remove_reverse_mapping (lf_page l) k then
      let* rest := unmap_batch ks in
      ret (lf_page l :: rest)
  end.
Fixpoint release_each (ids : list nat) : VmM () :=
  match ids with [] => ret () | id :: ids => do release_mapping id then release_each ids end.
Definition INLINE : nat := 64.
Fixpoint pmap_remove_loop (fuel : nat) (m : nat) (start end_ : Z) : VmM () :=
  match fuel with
  | O => panic
  | S fuel =>
      let* w := get in
      let ks := take INLINE (range_keys m start end_ (leaves w)) in
      let* retired := unmap_batch ks in
      do release_each retired then
      if (length retired <? INLINE)%nat then ret () else pmap_remove_loop fuel m start end_
  end.
Definition checked_page_end (start length_ : Z) : result Error Z :=
  match checked_add length_ 4095 with
  | Some x => ok_or (checked_add start (align_page x)) InvalidAddress
  | None => Err InvalidAddress
  end.
Definition pmap_remove (m : nat) (start length_ : Z) : VmM (result Error ()) :=
  match checked_page_end (align_page start) length_ with
  | Err e => ret (Err e)
  | Ok end_ => let* w := get in do pmap_remove_loop (S (size (leaves w))) m (align_page start) end_ then ret (Ok ())
  end.
(** [protect_page] keeps the accessed and dirty bits. *)
Definition protect_leaf (k : Key) (protection : Z) : VmM () :=
  let* w := get in
  let* l := expect (leaves w !! k) in
  put_leaf k (mkLeaf (lf_page l) protection (lf_frame l) (lf_accessed l) (lf_dirty l)).
Fixpoint write_protect_each (ks : list Key) : VmM () :=
  match ks with
  | [] => ret ()
  | k :: ks =>
      let* w := get in
      let* l := expect (leaves w !! k) in
      let* v := get_vp (lf_page l) in
      do (if negb (has_prot (lf_protection l) WRITE) || negb (write_windows v =? 0) then ret ()
          else protect_leaf k (Z.land (lf_protection l) (u64_not WRITE))) then
      write_protect_each ks
  end.
Definition write_protect_all (m : nat) : VmM () :=
  let* w := get in write_protect_each (range_keys m 0 two64 (leaves w)).

(** [Pmap::restrict]: a mapping that would not be readable is removed. *)
Fixpoint restrict_each (ks : list Key) (protection : Z) : VmM () :=
  match ks with
  | [] => ret ()
  | k :: ks =>
      let* w := get in
      let* l := expect (leaves w !! k) in
      let restricted := Z.land (lf_protection l) protection in
      do (if restricted =? lf_protection l then ret () else protect_leaf k restricted) then
      restrict_each ks protection
  end.
Definition unreadable (protection : Z) (l : Leaf) : bool := negb (has_prot (Z.land (lf_protection l) protection) READ).
Definition restrict (m : nat) (start length_ protection : Z) : VmM (result Error ()) :=
  match checked_page_end start length_ with
  | Err e => ret (Err e)
  | Ok end_ =>
      let* w := get in
      let ks := range_keys m start end_ (leaves w) in
      if existsb (λ k, match leaves w !! k with Some l => unreadable protection l | None => false end) ks then pmap_remove m start length_
      else do restrict_each ks protection then ret (Ok ())
  end.
(** The mappings of a pmap that is dropped. *)
Definition pmap_drop (m : nat) : VmM () :=
  let* w := get in
  let* retired := unmap_batch (range_keys m 0 two64 (leaves w)) in
  release_each retired.

(** The processor uses a leaf: a store sets the dirty bit. *)
Definition user_store (k : Key) (offset : nat) (bytes : list Z) : VmM () :=
  let* w := get in
  let* l := expect (leaves w !! k) in
  do massert (has_prot (lf_protection l) WRITE) then
  do put_leaf k (mkLeaf (lf_page l) (lf_protection l) (lf_frame l) true true) then
  let* old := frame_bytes (lf_frame l) in
  set_bytes (lf_frame l) (copy_into old offset bytes).
Definition user_load (k : Key) (offset length_ : nat) : VmM (list Z) :=
  let* w := get in
  let* l := expect (leaves w !! k) in
  do put_leaf k (mkLeaf (lf_page l) (lf_protection l) (lf_frame l) true (lf_dirty l)) then
  let* old := frame_bytes (lf_frame l) in
  ret (slice old offset (offset + length_)).

(** ** Page-in *)

Definition location_of (b : PageBacking) : PageLocation :=
  match b with BZero => LocZero | BFile => LocFile | BResident _ => LocResident | BSwapped _ => LocSwapped | BBusy l _ => l end.
Inductive Claim : Type :=
| Ready (frame : Z)
| Waiting
| Claimed (previous : PageBacking).
(** The first section of [resident_backing]: a resident page is ready; a busy
    one is marked wanted and the caller waits; any other becomes busy. *)
Definition claim (id : nat) : VmM Claim :=
  let* v := get_vp id in
  match backing v with
  | BResident frame => ret (Ready frame)
  | BBusy location _ => do update_vp id (with_backing (BBusy location true)) then ret Waiting
  | previous => do update_vp id (with_backing (BBusy (location_of previous) false)) then ret (Claimed previous)
  end.
(** Filling the new frame from the previous backing. *)
Definition read_previous (id : nat) (previous : PageBacking) (frame : Z) : VmM (result Error ()) :=
  let* v := get_vp id in
  let* output := frame_bytes frame in
  match previous with
  | BZero => ret (Ok ())
  | BFile =>
      match pager v with
      | None => ret (Err Io)
      | Some pg =>
          let '(r, output) := pager_read pg (u64_mul (vp_index v) 4096) output in
          do set_bytes frame output then ret r
      end
  | BSwapped handle =>
      let* '(r, output) := on_swap (load handle output) in
      do set_bytes frame output then
      ret (match r with Ok _ => Ok () | Err Corrupt => Err CorruptSwap | Err _ => Err SwapUnavailable end)
  | _ => panic
  end.
Definition fill_frame (id : nat) (previous : PageBacking) (frame : Z) : VmM (result Error Z) :=
  let* r := read_previous id previous frame in
  match r with
  | Err e => do on_frames (free_page frame (caller who)) then ret (Err e)
  | Ok _ =>
      do (if bool_decide (previous = BZero) then update_frame frame mark_dirty
          else
            do update_frame frame mark_clean then
            match previous with BSwapped _ => update_frame frame mark_unknown | _ => ret () end) then
      ret (Ok frame)
  end.
(** The last section of [resident_backing], and whether a waiter is notified. *)
Definition publish_page (id : nat) (previous : PageBacking) (loaded : result Error Z) : VmM (result Error Z * bool) :=
  let* v := get_vp id in
  match backing v with
  | BBusy _ wanted =>
      match loaded with
      | Ok frame =>
          do match previous with
             | BSwapped handle =>
                 do on_swap (set_resident handle true) then update_vp id (with_resident_swap (Some handle))
             | _ => ret ()
             end then
          do update_vp id (with_reject 0) then
          do on_frames (bind_owner frame id (executable v) (owner_kind v)) then
          do update_frame frame mark_referenced then
          do update_vp id (λ v, with_resident_frame (Some frame) (with_backing (BResident frame) v)) then
          do activate_frame frame then
          ret (Ok frame, wanted)
      | Err e => do update_vp id (with_backing previous) then ret (Err e, wanted)
      end
  | _ => panic
  end.

(** ** Reclaim *)

Definition swap_rejected (v : VmPage) (w : Vm B) : bool :=
  negb (swap_reject_generation v =? 0) && (swap_reject_generation v =? configuration_generation (swap w)).
(** [ObjectPages::retire] of the object, when it is still alive. *)
Definition retire (id : nat) (v : VmPage) : VmM () :=
  match pager_owner v with
  | None => ret ()
  | Some object =>
      modify (λ w, match objects w !! object with
        | Some index => if bool_decide (index !! vp_index v = Some id) then with_objects (<[object:=delete (vp_index v) index]> (objects w)) w else w
        | None => w end)
  end.
(** The frame of a page whose contents are stored elsewhere is freed. *)
Definition release_frame (frame : Z) : VmM () :=
  do on_frames (clear_owner frame) then
  do modify (λ w, with_reclaimed (wrap64 (reclaimed_pages w + 1)) w) then
  on_frames (free_page frame (caller who)).
Definition unbusy_frame (frame : Z) : VmM () := update_frame frame (λ p, (unbusy p).2).
Inductive Reclaim : Type :=
| Finished (reclaimed : bool)
| Storing (frame : Z).
(** [reclaim_owned] once the unmapped frame is busy: a clean page gives up its
    frame, any other is to be written to swap. *)
Definition reclaim_seized (id : nat) (frame : Z) : VmM Reclaim :=
  let* p := frame_entry frame in
  let* v := get_vp id in
  if bool_decide (is_Some (pager v)) && negb (has_flag (flags p) DIRTY) then
    do update_vp id (with_backing BFile) then
    do retire id v then
    do unbusy_frame frame then
    do release_frame frame then
    ret (Finished true)
  else
    do update_vp id (with_resident_swap None) then
    match resident_swap v with
    | Some handle =>
        if negb (has_flag (flags p) DIRTY) then
          do on_swap (set_resident handle false) then
          do update_vp id (with_backing (BSwapped handle)) then
          do unbusy_frame frame then
          do release_frame frame then
          ret (Finished true)
        else
          do on_swap (swap_free handle) then
          do update_vp id (with_backing (BBusy LocResident false)) then
          ret (Storing frame)
    | None =>
        do update_vp id (with_backing (BBusy LocResident false)) then
        ret (Storing frame)
    end.
(** [reclaim_owned] up to the point where the lock is dropped for the write
    to swap. *)
Definition reclaim_begin (id : nat) : VmM Reclaim :=
  let* v := get_vp id in
  match backing v with
  | BResident frame =>
      let* w := get in
      let* p := frame_entry frame in
      if swap_rejected v w then do activate_frame frame then ret (Finished false)
      else if negb (wire_count p =? 0) || negb (loan_count p =? 0) then do activate_frame frame then ret (Finished false)
      else
        do (if negb (map_count p =? 0) then remove_all_mappings id else ret ()) then
        let* p := frame_entry frame in
        let '(claimed, p') := try_busy p in
        let* ok := (if reclaimable p then do update_frame frame (λ _, p') then ret claimed else ret false) in
        if negb ok then do activate_frame frame then ret (Finished false)
        else
          do update_frame frame resolve_unknown then
          do on_pol (remove_managed frame (place who)) then
          do update_vp id (with_resident_frame None) then
          reclaim_seized id frame
  | _ => ret (Finished false)
  end.
(** The write to swap, without the lock. *)
Definition store_frame (frame : Z) : VmM (result SwapError SwapHandle) :=
  let* bytes := frame_bytes frame in on_swap (store bytes).
(** The rest of [reclaim_owned], and whether a waiter is notified. *)
Definition reclaim_finish (id : nat) (frame : Z) (stored : result SwapError SwapHandle) : VmM (bool * bool) :=
  let* v := get_vp id in
  match backing v with
  | BBusy _ wanted =>
      match stored with
      | Err e =>
          do update_vp id (λ v, with_resident_frame (Some frame) (with_backing (BResident frame) v)) then
          do unbusy_frame frame then
          do (if bool_decide (e = Incompressible) then
                let* w := get in update_vp id (with_reject (configuration_generation (swap w)))
              else ret ()) then
          do activate_frame frame then
          ret (false, wanted)
      | Ok handle =>
          do update_vp id (λ v, with_backing (BSwapped handle) (with_reject 0 v)) then
          do unbusy_frame frame then
          do update_frame frame mark_clean then
          do release_frame frame then
          ret (true, wanted)
      end
  | _ => panic
  end.
Definition reclaim_owned (id : nat) : VmM bool :=
  let* r := reclaim_begin id in
  match r with
  | Finished b => ret b
  | Storing frame => let* stored := store_frame frame in let* '(b, _) := reclaim_finish id frame stored in ret b
  end.

(** ** Under the owner lock *)

Definition frame_locked (v : VmPage) : option Z := match backing v with BResident frame => Some frame | _ => None end.
Definition drop_swap_locked (id : nat) : VmM bool :=
  let* v := get_vp id in
  match frame_locked v, resident_swap v with
  | Some frame, Some handle =>
      do update_vp id (with_resident_swap None) then
      do on_swap (swap_free handle) then
      do update_frame frame mark_dirty then
      ret true
  | _, _ => ret false
  end.
(** The store into a resident frame shared by [write_raw], [zero] and
    [zero_locked]. *)
Definition write_resident (id : nat) (frame : Z) (offset : nat) (bytes : list Z) : VmM () :=
  do update_frame frame mark_referenced then
  do update_frame frame mark_dirty then
  let* old := frame_bytes frame in
  do set_bytes frame (copy_into old offset bytes) then
  mark_modified id frame.
Definition validate_range (offset length_ : Z) : result Error () :=
  match checked_add offset length_ with Some e => if 4096 <? e then Err InvalidAddress else Ok () | None => Err InvalidAddress end.
Definition zero_locked (id : nat) (offset length_ : Z) : VmM (result Error ()) :=
  match validate_range offset length_ with
  | Err e => ret (Err e)
  | Ok _ =>
      let* v := get_vp id in
      match backing v with
      | BZero => ret (Ok ())
      | BResident frame => do write_resident id frame (Z.to_nat offset) (replicate (Z.to_nat length_) 0) then ret (Ok ())
      | _ => ret (Err OutOfMemory)
      end
  end.
Definition deactivate_locked (id : nat) : VmM () :=
  do harvest_page_state_locked id then
  let* v := get_vp id in
  match frame_locked v with
  | Some frame =>
      let* p := frame_entry frame in
      if (wire_count p =? 0) && (loan_count p =? 0) then on_pol (deactivate_managed frame (place who)) else ret ()
  | None => ret ()
  end.

(** [pin_user_page] for writing, once the page is wired: the frame counts as
    dirty before the window is used. Dropping it ends the window. *)
Definition open_window (id : nat) : VmM () :=
  do record_hardware_state_locked id false true then
  update_vp id (λ v, with_windows (write_windows v + 1) v).
Definition close_window (id : nat) : VmM () := update_vp id (λ v, with_windows (write_windows v - 1) v).
Definition window_store (frame : Z) (offset : nat) (bytes : list Z) : VmM () :=
  let* old := frame_bytes frame in set_bytes frame (copy_into old offset bytes).
(** [pin_neighbor_locked]: the frame of a resident page, put on a queue if it
    is on none. *)
Definition pin_neighbor_locked (id : nat) : VmM (option Z) :=
  let* v := get_vp id in
  match backing v with
  | BResident frame =>
      let* p := frame_entry frame in
      if negb (loan_count p =? 0) then ret None
      else
        let* q := on_pol (queue frame) in
        do (if bool_decide (q = QueueNone) && (wire_count p =? 0) then on_pol (enqueue_managed frame (place who)) else ret ()) then
        ret (Some frame)
  | _ => ret None
  end.

(** ** Creation and destruction *)

Definition new_zero (index : Z) (kind : PageOwnerKind) : VmPage := mkVmPage index kind BZero None false None [] 0 0 None None.
Definition new_file (index : Z) (pg : nat) (object : option nat) : VmPage :=
  mkVmPage index OwnFile BFile None false None [] 0 0 (Some pg) object.
(** The record of a page created as [id], which no page has. *)
Definition create_page (id : nat) (v : VmPage) : VmM () := modify (λ w, with_vpages (<[id:=v]> (vpages w)) w).
Definition drop_page (id : nat) : VmM () :=
  let* v := get_vp id in
  do (match resident_swap v with Some handle => on_swap (swap_free handle) | None => ret () end) then
  do match backing v with
     | BZero | BFile => ret ()
     | BResident frame =>
         do on_pol (remove_managed frame (place who)) then
         do on_frames (clear_owner frame) then
         let* p := frame_entry frame in
         do massert (map_count p =? 0) then
         do massert (wire_count p =? 0) then
         on_frames (free_page frame (caller who))
     | BSwapped handle => on_swap (swap_free handle)
     | BBusy _ _ => panic
     end then
  modify (λ w, with_vpages (delete id (vpages w)) w).
End vm.
