(* ===== verification/VmScan.v ===== *)
(** * Scanning the replacement queues

    [balance] and [scan] of [mem/policy.rs], the reclaim passes of
    [mem/mod.rs] and the allocation of frames for pages. A loop bounded by a
    machine integer counts in binary, so that it runs as often as the source
    allows and still computes. *)
From stdpp Require Import base list gmap.
From S2P Require Import Prelude.
From S2P Require Import Bytes.
From S2P Require Import Index.
From S2P Require Import Phys.
From S2P Require Import Swap.
From S2P Require Import Policy.
From S2P Require Import VmPage.
Open Scope rust_scope.

(** [for _ in 0..n] with an accumulator: the body says whether to break. *)
Section loops.
Context {St A : Type} (body : A → M St (bool * A)).
Fixpoint repeat_pos (n : positive) (acc : A) : M St (bool * A) :=
  match n with
  | xH => body acc
  | xO n => let* '(stop, acc) := repeat_pos n acc in if (stop : bool) then ret (true, acc) else repeat_pos n acc
  | xI n =>
      let* '(stop, acc) := body acc in
      if (stop : bool) then ret (true, acc)
      else let* '(stop, acc) := repeat_pos n acc in if (stop : bool) then ret (true, acc) else repeat_pos n acc
  end.
Definition repeat_up_to (n : Z) (acc : A) : M St A :=
  match n with Zpos p => let* '(_, acc) := repeat_pos p acc in ret acc | _ => ret acc end.
End loops.

Section scan.
Context `{Lz4} {B : Type} `{SwapBackend B} `{VmPager} (who : Who).
Abbreviation VmM := (M (Vm B)).

(** [free_minimum] and [free_target]. *)
Definition total_of (w : Vm B) : Z := match stats (phys (pol w)) with Some s => st_total s | None => 0 end.
Definition free_of (w : Vm B) : Z := match stats (phys (pol w)) with Some s => st_free s | None => 0 end.
Definition free_minimum (w : Vm B) : Z := (watermarks (total_of w) (cpus (caller who))).1.
Definition free_target (w : Vm B) : Z := (watermarks (total_of w) (cpus (caller who))).2.
Definition target_of (w : Vm B) : Z := clock_target (free_target w) (clock (pol w)).

(** The logical page of a frame, when its owner still exists. *)
Definition upgrade (page : Z) : VmM (option nat) :=
  let* p := frame_entry page in
  let* w := get in
  ret (match owner p with Some id => if bool_decide (is_Some (vpages w !! id)) then Some id else None | None => None end).
(** The checks after the owner was locked: the intent realized in the
    meantime, the queue, the wires, and the identity of page and frame. *)
Definition revalidate (page : Z) (id : nat) (flag : Z) : VmM bool :=
  let* realized := on_pol (realize page) in
  if (realized : bool) then ret false
  else
    let* p := frame_entry page in
    let* v := get_vp id in
    ret (has_flag (policy_flags p) flag && (wire_count p =? 0) && bool_decide (owner p = Some id) && bool_decide (frame_locked v = Some page)).
(** An intent that is realized at once. *)
Definition realize_now (page intent : Z) : VmM () :=
  on_pol (
    let* word := policy_word page in
    do set_policy_word page (Z.lor (Z.lor (Z.land word (u32_not INTENT_MASK)) intent) INTENT_SET) then
    let* _ := realize page in
    ret ()).

(** One round of [balance]; the accumulator is the shortage of swap. *)
Definition balance_step (mark : nat) (shortage : Z) : VmM (bool * Z) :=
  let* w := get in
  if (target_of w <=? ninactive (clock (pol w))) && (shortage =? 0) then ret (true, shortage)
  else
    let* next := on_pol (marker_next (S (length (active (clock (pol w))))) mark true) in
    match next with
    | None => ret (true, shortage)
    | Some page =>
        let* realized := on_pol (realize page) in
        if (realized : bool) then ret (false, shortage)
        else
          let* id := upgrade page in
          match id with
          | None => ret (false, shortage)
          | Some id =>
              let* locked := ask_pool in
              if negb locked then ret (false, shortage)
              else
                let* valid := revalidate page id ACTIVE in
                if negb valid then ret (false, shortage)
                else
                  let* w := get in
                  let deactivate := ninactive (clock (pol w)) <? target_of w in
                  let* dropped := (if negb (shortage =? 0) then drop_swap_locked id else ret false) in
                  let shortage := if (dropped : bool) then shortage - 1 else shortage in
                  do (if deactivate then
                        do harvest_page_state_locked who id then
                        do update_frame page (λ p, (take_referenced p).2) then
                        realize_now page DEACTIVATE
                      else ret ()) then
                  ret (false, shortage)
          end
    end.
Definition balance (mark : nat) (maximum shortage : Z) : VmM () :=
  do on_pol (flush (later (place who))) then
  do on_pol (marker_new mark true) then
  do repeat_up_to (balance_step mark) maximum shortage then
  do on_pol (marker_drop mark true) then
  ret ().

(** The classes [scan] protects: anonymous, file and executable pages. *)
Definition protected_classes (w : Vm B) : bool * bool * bool :=
  let s := phys (pol w) in
  let anon := anon_pages s in
  let file := file_pages s in
  let exec := exec_pages s in
  let total := nactive (clock (pol w)) + ninactive (clock (pol w)) + free_of w in
  let part n := total * n / 100 in
  let anonreact := (anon <=? part 10) || (anon <=? part 80) && ((part 50 <? file) || (part 30 <? exec)) in
  let filereact := (file <=? part 10) || (file <=? part 50) && ((part 80 <? anon) || (part 30 <? exec)) in
  let execreact := (exec <=? part 5) || (exec <=? part 30) && ((part 80 <? anon) || (part 50 <? file)) in
  if filereact && execreact && (anonreact || is_full (Some (swap w))) then (false, false, false) else (anonreact, filereact, execreact).
(** One round of [scan]; the accumulator counts the frames freed and the
    dirty pages that stayed. *)
Definition scan_step (mark : nat) (classes : bool * bool * bool) (target : Z) (acc : Z * Z) : VmM (bool * (Z * Z)) :=
  let '(freed, dirty) := acc in
  let '(anonreact, filereact, execreact) := classes in
  if target <=? freed then ret (true, acc)
  else
    let* w := get in
    let* next := on_pol (marker_next (S (length (inactive (clock (pol w))))) mark false) in
    match next with
    | None => ret (true, acc)
    | Some page =>
        let* realized := on_pol (realize page) in
        if (realized : bool) then ret (false, acc)
        else
          let* p := frame_entry page in
          let* kind := expect (page_owner_kind p) in
          let protect :=
            if bool_decide (kind = OwnFile) && has_flag (flags p) EXECUTABLE then execreact
            else if bool_decide (kind = OwnFile) then filereact
            else anonreact in
          if protect then do realize_now page ACTIVATE then ret (false, acc)
          else
            let* id := upgrade page in
            match id with
            | None => ret (false, acc)
            | Some id =>
                let* locked := ask_pool in
                if negb locked then ret (false, acc)
                else
                  let* valid := revalidate page id INACTIVE in
                  if negb valid then ret (false, acc)
                  else
                    do harvest_page_state_locked who id then
                    let* p := frame_entry page in
                    let '(referenced, p') := take_referenced p in
                    do update_frame page (λ _, p') then
                    if (referenced : bool) then do on_pol (activate page (place who)) then ret (false, acc)
                    else
                      let* reclaimed := reclaim_owned who id in
                      if (reclaimed : bool) then ret (false, (freed + 1, dirty))
                      else
                        let* p := frame_entry page in
                        if has_flag (flags p) DIRTY then ret (dirty + 1 =? 16, (freed, dirty + 1)) else ret (false, acc)
            end
    end.
Definition scan (mark : nat) (maximum target : Z) : VmM Z :=
  do on_pol (flush (later (place who))) then
  let* w := get in
  let classes := protected_classes w in
  do on_pol (marker_new mark false) then
  let* acc := repeat_up_to (scan_step mark classes target) maximum (0, 0) in
  do on_pol (marker_drop mark false) then
  ret acc.1.

(** [reclaim_pages]: at most two passes. *)
Fixpoint reclaim_passes (n : nat) (mark : nat) (target reclaimed : Z) : VmM Z :=
  match n with
  | O => ret reclaimed
  | S n =>
      if target <=? reclaimed then ret reclaimed
      else
        let* progress := scan mark u64_max (target - reclaimed) in
        let reclaimed := reclaimed + progress in
        let* w := get in
        let shortage :=
          if (progress =? 0) && negb (has_capacity (Some (swap w))) && negb (is_full (Some (swap w)))
          then saturating_sub (free_target w) (free_of w) else 0 in
        do balance mark u64_max shortage then
        let* w := get in
        if (progress =? 0) && queues_empty (pol w) then ret reclaimed
        else reclaim_passes n mark target reclaimed
  end.
Definition reclaim_pages (mark : nat) (target : Z) : VmM Z := reclaim_passes 2 mark target 0.
(** [reclaim_now] gives up when another pass is running. *)
Definition reclaim_now (mark : nat) (target : Z) : VmM Z :=
  let* locked := ask_pool in
  if negb locked then ret 0 else reclaim_pages mark target.

(** ** Frames for pages *)

Definition PAGE_SCAN_BATCH : Z := 128.
Definition replenish_reserve (mark : nat) : VmM () :=
  let* w := get in
  if bool_decide (is_Some (stats (phys (pol w)))) && (free_of w <=? free_minimum w) then
    let* w := get in
    let free := free_of w in
    if free <=? free_minimum w then
      let target := saturating_sub (free_target w) free in
      let* _ := reclaim_pages mark (Z.max target 1) in ret ()
    else ret ()
  else ret ().
Definition alloc_managed : VmM (option Z) := on_frames (alloc_zeroed_page UseManaged (caller who)).
Definition allocate_after_reclaim (mark : nat) (target : Z) : VmM (result Error Z) :=
  let* page := alloc_managed in
  match page with
  | Some page => ret (Ok page)
  | None =>
      let* _ := reclaim_pages mark target in
      let* page := alloc_managed in
      ret (ok_or page OutOfMemory)
  end.
Definition allocate_physical_page (mark : nat) : VmM (result Error Z) :=
  do replenish_reserve mark then
  let* page := alloc_managed in
  match page with Some page => ret (Ok page) | None => allocate_after_reclaim mark PAGE_SCAN_BATCH end.
Definition allocate_pagein_physical_page (mark : nat) : VmM (result Error Z) :=
  let* page := alloc_managed in
  match page with Some page => ret (Ok page) | None => allocate_after_reclaim mark 1 end.

(** ** Residency *)

(** The middle of [resident_backing], without the lock. *)
Definition load_previous (mark : nat) (id : nat) (previous : PageBacking) : VmM (result Error Z) :=
  let! frame := (if bool_decide (previous = BZero) then allocate_physical_page mark else allocate_pagein_physical_page mark) in
  fill_frame who id previous frame.
(** [resident_backing] of a page that no other thread keeps busy. *)
Definition resident_backing (mark : nat) (id : nat) : VmM (result Error Z) :=
  let* c := claim id in
  match c with
  | Ready frame => ret (Ok frame)
  | Waiting => panic
  | Claimed previous =>
      let* loaded := load_previous mark id previous in
      let* '(r, _) := publish_page who id previous loaded in
      ret r
  end.
Definition read_raw (mark : nat) (id : nat) (offset length_ : Z) : VmM (result Error (list Z)) :=
  match validate_range offset length_ with
  | Err e => ret (Err e)
  | Ok _ =>
      let n := Z.to_nat length_ in
      if length_ =? 0 then ret (Ok [])
      else
        let* v := get_vp id in
        match backing v with
        | BZero => ret (Ok (replicate n 0))
        | _ =>
            let! frame := resident_backing mark id in
            do update_frame frame mark_referenced then
            let* bytes := frame_bytes frame in
            ret (Ok (slice bytes (Z.to_nat offset) (Z.to_nat offset + n)))
        end
  end.
Definition write_raw (mark : nat) (id : nat) (offset : Z) (input : list Z) : VmM (result Error ()) :=
  match validate_range offset (Z.of_nat (length input)) with
  | Err e => ret (Err e)
  | Ok _ =>
      if bool_decide (input = []) then ret (Ok ())
      else
        let! frame := resident_backing mark id in
        do write_resident who id frame (Z.to_nat offset) input then
        ret (Ok ())
  end.
Definition zero (mark : nat) (id : nat) (offset length_ : Z) : VmM (result Error ()) :=
  match validate_range offset length_ with
  | Err e => ret (Err e)
  | Ok _ =>
      if length_ =? 0 then ret (Ok ())
      else
        let* v := get_vp id in
        match backing v with
        | BZero => ret (Ok ())
        | _ =>
            let! frame := resident_backing mark id in
            do write_resident who id frame (Z.to_nat offset) (replicate (Z.to_nat length_) 0) then
            ret (Ok ())
        end
  end.
(** [pin_resident] wires the frame; dropping the pin unwires it. *)
Definition pin_resident (mark : nat) (id : nat) : VmM (result Error Z) :=
  let! frame := resident_backing mark id in
  do on_pol (wire frame (place who)) then
  ret (Ok frame).
Definition unpin (frame : Z) : VmM () := on_pol (unwire frame (place who)).
End scan.
