(* ===== verification/VmPageInv.v ===== *)
(** * Logical pages: the invariant, and running on one page

    Every page has contents. They are in the frame of a resident page, and
    elsewhere as the backing says: nowhere for zeros, in the pager for a page
    of a file, in swap under the handle. A resident page that is clean, in its
    frame's flags and in every leaf that maps it, has its contents there too.
    What a thread holds while a page is busy is part of the ghost state. *)
From stdpp Require Import base list gmap.
From S2P Require Import Prelude.
From S2P Require Import Bytes.
From S2P Require Import Index.
From S2P Require Import Phys.
From S2P Require Import PhysInv.
From S2P Require Import PhysOps.
From S2P Require Import PhysRuns.
From S2P Require Import Swap.
From S2P Require Import SwapSpec.
From S2P Require Import Policy.
From S2P Require Import PolicySpec.
From S2P Require Import VmFrames.
From S2P Require Import VmPage.
Open Scope rust_scope.

(** What the trait asks of a pager: a read that succeeds fills the whole
    output with the page at the offset, always the same. *)
Class VmPagerLaws `{VmPager} : Type := {
  pager_page : nat → Z → list Z;
  pager_page_ok pg offset : page_ok (pager_page pg offset);
  pager_read_ok pg offset output output' : length output = PAGE_BYTES → pager_read pg offset output = (Ok (), output') → output' = pager_page pg offset;
}.

(** ** Ghost state *)

(** What the thread that made a page busy is doing with it. *)
Inductive Job : Type :=
| Loading (previous : PageBacking)
| Filling (previous : PageBacking) (frame : Z)
| Filled (previous : PageBacking) (frame : Z)
| Failed (previous : PageBacking) (e : Error)
| Writing (frame : Z)
| Written (frame : Z) (stored : result SwapError SwapHandle).
(** The jobs of busy pages, the swap slots that are held with the page in
    each, the wires, the contents, and the leaves that were removed but whose
    references to the frame are not released yet. *)
Record Ghost : Type := mkGhost {
  jobs : gmap nat Job;
  slots : gmap nat (SwapHandle * list Z);
  pins : nat → Z;
  contents : nat → list Z;
  unmapping : nat → Z;
}.
Definition ghost_same (id : nat) (g g' : Ghost) : Prop :=
  jobs g' !! id = jobs g !! id ∧ slots g' !! id = slots g !! id ∧ pins g' id = pins g id ∧ contents g' id = contents g id ∧ unmapping g' id = unmapping g id.
Definition set_job (id : nat) (j : option Job) (g : Ghost) : Ghost := mkGhost (partial_alter (λ _, j) id (jobs g)) (slots g) (pins g) (contents g) (unmapping g).
Definition set_slot_of (id : nat) (x : option (SwapHandle * list Z)) (g : Ghost) : Ghost :=
  mkGhost (jobs g) (partial_alter (λ _, x) id (slots g)) (pins g) (contents g) (unmapping g).
Definition set_pins (id : nat) (n : Z) (g : Ghost) : Ghost := mkGhost (jobs g) (slots g) (λ i, if decide (i = id) then n else pins g i) (contents g) (unmapping g).
Definition set_contents (id : nat) (c : list Z) (g : Ghost) : Ghost :=
  mkGhost (jobs g) (slots g) (pins g) (λ i, if decide (i = id) then c else contents g i) (unmapping g).
Definition set_unmapping (id : nat) (n : Z) (g : Ghost) : Ghost :=
  mkGhost (jobs g) (slots g) (pins g) (contents g) (λ i, if decide (i = id) then n else unmapping g i).

Definition job_frame (j : Job) : option Z :=
  match j with Loading _ | Failed _ _ => None | Filling _ f | Filled _ f | Writing f | Written f _ => Some f end.
(** The frame of a page, or of the thread that made it busy. *)
Definition frame_held (g : Ghost) (id : nat) (v : VmPage) : option Z :=
  match backing v with
  | BResident f => Some f
  | BBusy _ _ => match jobs g !! id with Some j => job_frame j | None => None end
  | _ => None
  end.

Section inv.
Context `{Lz4Laws} {B : Type} `{SwapBackendLaws B} `{VmPagerLaws}.
Implicit Types (w : Vm B) (g : Ghost) (v : VmPage) (id : nat) (p : Page) (u : PageQueue) (f : Z) (bytes : list Z) (l : Leaf) (k : Key).

(** ** One page *)

(** The contents are where [b] says. *)
Definition stored_as g (id : nat) v (b : PageBacking) : Prop :=
  match b with
  | BZero => contents g id = zero_frame ∧ slots g !! id = None ∧ pager v = None
  | BFile => slots g !! id = None ∧ ∃ pg, pager v = Some pg ∧ contents g id = pager_page pg (u64_mul (vp_index v) 4096)
  | BSwapped h => slots g !! id = Some (h, contents g id) ∧ pager v = None
  | _ => False
  end.
(** Nothing refers to a frame of the page. *)
Definition away g (id : nat) v : Prop :=
  resident v = None ∧ resident_swap v = None ∧ mappings v = [] ∧ pins g id = 0 ∧ write_windows v = 0 ∧ unmapping g id = 0.
(** The entry of a frame with an owner, and of one without. *)
Record owned_frame (id : nat) v (p : Page) : Prop := {
  own_state : page_state p = Some StAllocated;
  own_usage : page_usage p = Some UseManaged;
  own_kind : page_owner_kind p = Some (owner_kind v);
  own_owner : owner p = Some id;
  own_loans : loan_count p = 0;
}.
Record loose_frame (p : Page) : Prop := {
  loose_state : page_state p = Some StAllocated;
  loose_usage : page_usage p = Some UseManaged;
  loose_kind : page_owner_kind p = Some OwnNone;
  loose_counts : wire_count p = 0 ∧ loan_count p = 0 ∧ map_count p = 0;
}.
Definition dirty (p : Page) : bool := has_flag (flags p) DIRTY.
(** Neither the frame nor a leaf that maps it says that it was modified. *)
Definition clean (ls : gmap Key Leaf) v (p : Page) : Prop := dirty p = false ∧ ∀ k l, k ∈ mappings v → ls !! k = Some l → lf_dirty l = false.
Definition backed g (id : nat) (ls : gmap Key Leaf) v (p : Page) : Prop :=
  match pager v with
  | Some pg => contents g id = pager_page pg (u64_mul (vp_index v) 4096) ∧ resident_swap v = None ∧ slots g !! id = None ∧ clean ls v p ∧
      write_windows v = 0 ∧ ∀ k l, k ∈ mappings v → ls !! k = Some l → has_prot (lf_protection l) WRITE = false
  | None =>
      match resident_swap v with
      | Some h => ∃ page, slots g !! id = Some (h, page) ∧ (clean ls v p → page = contents g id)
      | None => slots g !! id = None
      end
  end.
Definition mapped (id : nat) (f : Z) (ls : gmap Key Leaf) v : Prop :=
  NoDup (mappings v) ∧ ∀ k, k ∈ mappings v → ∃ l, ls !! k = Some l ∧ lf_page l = id ∧ lf_frame l = f.
(** A resident page with the entry [p] and the queue [u] of its frame: the
    frame is on a queue exactly when it is not wired. *)
Record resident_ok g (id : nat) (ls : gmap Key Leaf) v (f : Z) (p : Page) (u : PageQueue) (bytes : list Z) : Prop := {
  res_owned : owned_frame id v p;
  res_idle : has_flag (flags p) BUSY = false;
  res_maps : map_count p = Z.of_nat (length (mappings v)) + unmapping g id ∧ 0 ≤ unmapping g id;
  res_pins : wire_count p = pins g id ∧ 0 ≤ pins g id ≤ 4294967295;
  res_queue : u = QueueNone ↔ wire_count p ≠ 0;
  res_bytes : bytes = contents g id;
  res_pointer : resident v = Some f;
  res_mapped : mapped id f ls v;
  res_backed : backed g id ls v p;
  res_windows : 0 ≤ write_windows v ≤ pins g id ∧ (0 < write_windows v → dirty p = true);
}.
Definition job_ok g (id : nat) v (loc : PageLocation) (j : Job) (look_ : Z → option (Page * PageQueue)) (bytes : Z → list Z) : Prop :=
  match j with
  | Loading b | Failed b _ => stored_as g id v b ∧ loc = location_of b
  | Filling b f => stored_as g id v b ∧ loc = location_of b ∧ bytes f = zero_frame ∧
      ∃ p, look_ f = Some (p, QueueNone) ∧ loose_frame p ∧ has_flag (flags p) BUSY = false
  | Filled b f => stored_as g id v b ∧ loc = location_of b ∧ bytes f = contents g id ∧
      ∃ p, look_ f = Some (p, QueueNone) ∧ loose_frame p ∧ has_flag (flags p) BUSY = false ∧ (is_Some (pager v) → dirty p = false)
  | Writing f => slots g !! id = None ∧ pager v = None ∧ loc = LocResident ∧ bytes f = contents g id ∧
      ∃ p, look_ f = Some (p, QueueNone) ∧ owned_frame id v p ∧ wire_count p = 0 ∧ map_count p = 0
  | Written f r => pager v = None ∧ loc = LocResident ∧ bytes f = contents g id ∧
      slots g !! id = match r with Ok h => Some (h, contents g id) | Err _ => None end ∧
      ∃ p, look_ f = Some (p, QueueNone) ∧ owned_frame id v p ∧ wire_count p = 0 ∧ map_count p = 0
  end.
Definition page_holds g w (id : nat) v : Prop :=
  page_ok (contents g id) ∧ owner_kind v ≠ OwnNone ∧
  match backing v with
  | BResident f => jobs g !! id = None ∧ ∃ p u, look (pol w) f = Some (p, u) ∧ resident_ok g id (leaves w) v f p u (bytes_of (pol w) f)
  | BBusy loc _ => away g id v ∧ ∃ j, jobs g !! id = Some j ∧ job_ok g id v loc j (look (pol w)) (bytes_of (pol w))
  | b => away g id v ∧ jobs g !! id = None ∧ stored_as g id v b
  end.

(** ** All pages *)

Definition gone g (id : nat) : Prop := jobs g !! id = None ∧ slots g !! id = None ∧ pins g id = 0 ∧ unmapping g id = 0.
Definition is_resident w (id : nat) (f : Z) : Prop := ∃ v, vpages w !! id = Some v ∧ backing v = BResident f.
Record vm_inv g w : Prop := {
  vm_pol : pol_inv (pol w);
  vm_swap : swap_inv (map_to_list (slots g)).*2 (swap w);
  vm_pages : ∀ id v, vpages w !! id = Some v → page_holds g w id v;
  vm_gone : ∀ id, vpages w !! id = None → gone g id;
  vm_leaves : ∀ k l, leaves w !! k = Some l → ∃ v, vpages w !! lf_page l = Some v ∧ k ∈ mappings v;
  vm_frames : ∀ id1 id2 v1 v2 f, vpages w !! id1 = Some v1 → vpages w !! id2 = Some v2 → frame_held g id1 v1 = Some f → frame_held g id2 v2 = Some f → id1 = id2;
  vm_queues : ∀ f p u, look (pol w) f = Some (p, u) → u ≠ QueueNone → ∃ id, is_resident w id f;
}.

(** ** What a page does not depend on *)

Lemma stored_as_same g g' id v b : ghost_same id g g' → stored_as g id v b → stored_as g' id v b.
Proof. intros (_ & Es & _ & Ec & _). unfold stored_as. by rewrite Es, Ec. Qed.
Lemma away_same g g' id v : ghost_same id g g' → away g id v → away g' id v.
Proof. intros (_ & _ & Ep & _ & Eu). unfold away. by rewrite Ep, Eu. Qed.
Lemma clean_same (ls ls' : gmap Key Leaf) v p : (∀ k, k ∈ mappings v → ls' !! k = ls !! k) → clean ls' v p ↔ clean ls v p.
Proof. intros E. unfold clean. split; intros [? Hl]; (split; [done|]); intros k l Hk Hkl; apply (Hl k l Hk); by rewrite ?E in * by done. Qed.
Lemma backed_same g g' id (ls ls' : gmap Key Leaf) v p : ghost_same id g g' → (∀ k, k ∈ mappings v → ls' !! k = ls !! k) → backed g id ls v p → backed g' id ls' v p.
Proof.
  intros (_ & Es & _ & Ec & _) Hl. pose proof (clean_same ls ls' v p Hl) as Hc. unfold backed. rewrite Es, Ec. destruct (pager v).
  - rewrite Hc. intros (? & ? & ? & ? & ? & Hw). split_and!; try done. intros k l Hk. rewrite Hl by done. by apply Hw.
  - destruct (resident_swap v); [|done]. intros (page & ? & ?). exists page. by rewrite Hc.
Qed.
Lemma mapped_same id f (ls ls' : gmap Key Leaf) v : (∀ k, k ∈ mappings v → ls' !! k = ls !! k) → mapped id f ls v → mapped id f ls' v.
Proof. intros E [Hnd Hm]. split; [done|]. intros k Hk. rewrite E by done. by apply Hm. Qed.
Lemma resident_ok_same g g' id (ls ls' : gmap Key Leaf) v f p u bytes : ghost_same id g g' → (∀ k, k ∈ mappings v → ls' !! k = ls !! k) →
  resident_ok g id ls v f p u bytes → resident_ok g' id ls' v f p u bytes.
Proof.
  intros Hg Hl []. pose proof Hg as (_ & _ & Ep & Ec & Eu). split; rewrite ?Ep, ?Ec, ?Eu; try done; [by eapply mapped_same|by eapply backed_same].
Qed.
Lemma job_ok_same g g' id v loc j lk lk' by_ by_' : ghost_same id g g' → (∀ f, job_frame j = Some f → lk' f = lk f ∧ by_' f = by_ f) →
  job_ok g id v loc j lk by_ → job_ok g' id v loc j lk' by_'.
Proof.
  intros Hg Hf. pose proof Hg as (_ & Es & _ & Ec & _). destruct j as [b|b f|b f|b e|f|f r]; cbn [job_ok job_frame] in *; try specialize (Hf f eq_refl) as [-> ->];
    rewrite ?Es, ?Ec; intros Hj; try done; destruct Hj as [Hst Hj]; (split; [by eapply stored_as_same|done]).
Qed.
Lemma page_holds_same g g' w w' id v : ghost_same id g g' →
  (∀ f, frame_held g id v = Some f → look (pol w') f = look (pol w) f ∧ bytes_of (pol w') f = bytes_of (pol w) f) →
  (∀ k, k ∈ mappings v → leaves w' !! k = leaves w !! k) → page_holds g w id v → page_holds g' w' id v.
Proof.
  intros Hg Hf Hl (Hok & Hk & Hb). pose proof Hg as (Ej & _ & _ & Ec & _). unfold page_holds, frame_held in *. rewrite Ec, Ej. split; [done|]. split; [done|].
  destruct (backing v) as [| |f|h|loc wt].
  - destruct Hb as (Ha & Hj & Hs). split_and!; [by eapply away_same|done|by eapply stored_as_same].
  - destruct Hb as (Ha & Hj & Hs). split_and!; [by eapply away_same|done|by eapply stored_as_same].
  - destruct Hb as (Hj & p & u & Hlook & Hr). destruct (Hf f eq_refl) as [E1 E2]. split; [done|]. exists p, u. rewrite E1, E2. split; [done|]. by eapply resident_ok_same.
  - destruct Hb as (Ha & Hj & Hs). split_and!; [by eapply away_same|done|by eapply stored_as_same].
  - destruct Hb as (Ha & j & Hj & Hs). split; [by eapply away_same|]. exists j. split; [done|]. rewrite Hj in Hf. by eapply job_ok_same.
Qed.
Lemma frame_held_same g g' id v : ghost_same id g g' → frame_held g' id v = frame_held g id v.
Proof. intros (Ej & _). unfold frame_held. by rewrite Ej. Qed.

(** A change that touches the pages [X] only. *)
Lemma vm_inv_change (X : nat → Prop) `{!∀ id, Decision (X id)} g g' w w' : vm_inv g w → pol_inv (pol w') → swap_inv (map_to_list (slots g')).*2 (swap w') →
  (∀ id, ¬ X id → vpages w' !! id = vpages w !! id ∧ ghost_same id g g') →
  (∀ id, X id → match vpages w' !! id with Some v => page_holds g' w' id v | None => gone g' id end) →
  (∀ id v f, ¬ X id → vpages w !! id = Some v → frame_held g id v = Some f → look (pol w') f = look (pol w) f ∧ bytes_of (pol w') f = bytes_of (pol w) f) →
  (∀ k l, ¬ X (lf_page l) → leaves w' !! k = Some l ↔ leaves w !! k = Some l) →
  (∀ k l, X (lf_page l) → leaves w' !! k = Some l → ∃ v, vpages w' !! lf_page l = Some v ∧ k ∈ mappings v) →
  (∀ id1 id2 v1 v2 f, X id1 → vpages w' !! id1 = Some v1 → vpages w' !! id2 = Some v2 → frame_held g' id1 v1 = Some f → frame_held g' id2 v2 = Some f → id1 = id2) →
  (∀ f p u, look (pol w') f = Some (p, u) → u ≠ QueueNone → ∃ id, is_resident w' id f) → vm_inv g' w'.
Proof.
  intros Hi Hpol Hswap Hout Hin Hframe Hleaf Hleaf' Hfr Hq. split; try done.
  - intros id v Hv. destruct (decide (X id)) as [HX|HX]; [specialize (Hin id HX); by rewrite Hv in Hin|]. destruct (Hout id HX) as [E Hg]. rewrite E in Hv.
    pose proof (vm_pages _ _ Hi _ _ Hv) as Hp. eapply page_holds_same; [done|by intros f; apply (Hframe id)| |done].
    intros k Hk. assert (∃ l, leaves w !! k = Some l ∧ lf_page l = id) as (l & Hl & Hid).
    { destruct Hp as (_ & _ & Hb). destruct (backing v) as [| |f|h|loc wt]; [| |destruct Hb as (_ & p & u & _ & Hr)| |];
        try (destruct Hb as ((_ & _ & Hm & _) & _); rewrite Hm in Hk; by apply elem_of_nil in Hk).
      destruct (proj2 (res_mapped _ _ _ _ _ _ _ _ Hr) k Hk) as (l & ? & ? & _). by exists l. }
    rewrite Hl. apply Hleaf; [by rewrite Hid|done].
  - intros id Hn. destruct (decide (X id)) as [HX|HX]; [specialize (Hin id HX); by rewrite Hn in Hin|]. destruct (Hout id HX) as [E (Ej & Es & Ep & _ & Eu)]. rewrite E in Hn.
    unfold gone. rewrite Ej, Es, Ep, Eu. by apply (vm_gone _ _ Hi).
  - intros k l Hl. destruct (decide (X (lf_page l))) as [HX|HX]; [by apply Hleaf'|]. apply Hleaf in Hl; [|done]. destruct (Hout _ HX) as [-> _]. by apply (vm_leaves _ _ Hi).
  - intros id1 id2 v1 v2 f K1 K2 F1 F2. destruct (decide (X id1)) as [X1|X1]; [by eapply Hfr|]. destruct (decide (X id2)) as [X2|X2]; [symmetry; by eapply (Hfr id2 id1)|].
    destruct (Hout _ X1) as [E1 G1], (Hout _ X2) as [E2 G2]. rewrite E1 in K1. rewrite E2 in K2. rewrite (frame_held_same _ _ _ _ G1) in F1.
    rewrite (frame_held_same _ _ _ _ G2) in F2. by eapply (vm_frames _ _ Hi).
Qed.
End inv.

(** * Logical pages: running on one page

    An operation under the owner lock of a page changes that page, its frame
    and the leaves. The state is described by these parts, and a rule for each
    primitive says how they change. *)

(** The callers the operations accept. *)
Record who_ok (who : Who) : Prop := { who_cpu : (cpu (caller who) < MAX_PAGE_CPUS)%nat; who_place : placed (place who) }.

Section local.
Context `{Lz4Laws} {B : Type} `{SwapBackendLaws B} `{VmPagerLaws}.
Implicit Types (w : Vm B) (g : Ghost) (v : VmPage) (id : nat) (p : Page) (u : PageQueue) (f : Z) (bytes : list Z) (l : Leaf) (k : Key) (ls : gmap Key Leaf) (sw : Swap B).

Record at_page w id f v p u bytes ls sw w' : Prop := {
  at_pol : pol_inv (pol w');
  at_look : put_look f (p, u) (pol w) (pol w');
  at_bytes : ∀ q, bytes_of (pol w') q = if decide (q = f) then bytes else bytes_of (pol w) q;
  at_vpages : vpages w' = <[id:=v]> (vpages w);
  at_leaves : leaves w' = ls;
  at_swap : swap w' = sw;
}.
Lemma at_start w id f v p u : pol_inv (pol w) → look (pol w) f = Some (p, u) → vpages w !! id = Some v →
  at_page w id f v p u (bytes_of (pol w) f) (leaves w) (swap w) w.
Proof.
  intros Hi Hl Hv. split; try done.
  - intros q. by destruct (decide (q = f)) as [->|].
  - intros q. by destruct (decide (q = f)) as [->|].
  - by rewrite insert_id.
Qed.

Lemma wp_find_vp w id v Q (o : oracle) : vpages w !! id = Some v → Q v w o → wp (get_vp id) Q w o.
Proof. intros Hv HQ. unfold get_vp. by wp_steps. Qed.

Section rules.
Context {w : Vm B} {id : nat} {f : Z} {v : VmPage} {p : Page} {u : PageQueue} {bytes : list Z} {ls : gmap Key Leaf} {sw : Swap B} {w1 : Vm B} (Hw1 : at_page w id f v p u bytes ls sw w1).
Implicit Types o : oracle.

Lemma at_entry : look (pol w1) f = Some (p, u).
Proof using Hw1. by rewrite (at_look _ _ _ _ _ _ _ _ _ _ Hw1), decide_True. Qed.
Lemma at_page_lookup : vpages w1 !! id = Some v.
Proof using Hw1. rewrite (at_vpages _ _ _ _ _ _ _ _ _ _ Hw1). apply lookup_insert_eq. Qed.
Lemma at_frame_bytes : bytes_of (pol w1) f = bytes.
Proof using Hw1. by rewrite (at_bytes _ _ _ _ _ _ _ _ _ _ Hw1), decide_True. Qed.

Lemma wp_get_vp Q o : Q v w1 o → wp (get_vp id) Q w1 o.
Proof using Hw1. intros HQ. unfold get_vp. wp_steps. eapply wp_expect; [apply at_page_lookup|done]. Qed.
Lemma wp_update_vp h Q o : (∀ w2, at_page w id f (h v) p u bytes ls sw w2 → Q () w2 o) → wp (update_vp id h) Q w1 o.
Proof using Hw1.
  intros HQ. unfold update_vp. apply wp_bind, wp_get_vp. wp_steps. apply HQ. destruct Hw1. split; try done. cbn. by rewrite at_vpages0, insert_insert_eq.
Qed.
Lemma wp_frame_entry Q o : (∀ e, entry (phys (pol w1)) f = Some e → p = with_policy 0 e → Q e w1 o) → wp (frame_entry f) Q w1 o.
Proof using Hw1.
  intros HQ. unfold frame_entry, on_frames, on_pol. apply wp_zoom. destruct (look_entry _ _ _ _ at_entry) as (e & He & E & _).
  apply (wp_entry f e); [done|]. replace (with_pol (pol w1) w1) with w1 by (by destruct w1). by apply HQ.
Qed.
Lemma wp_frame_bytes Q o : Q bytes w1 o → wp (frame_bytes f) Q w1 o.
Proof using Hw1. intros HQ. unfold frame_bytes. wp_steps. change (memory (phys (pol w1)) f) with (bytes_of (pol w1) f). by rewrite at_frame_bytes. Qed.

Lemma wp_at_pol {A} (m : M Pol A) p' u' Q o :
  wp m (λ a s' o', o' = o ∧ pol_inv s' ∧ put_look f (p', u') (pol w1) s' ∧ same_bytes (pol w1) s') (pol w1) o →
  (∀ a w2, at_page w id f v p' u' bytes ls sw w2 → Q a w2 o) → wp (on_pol m) Q w1 o.
Proof using Hw1.
  intros Hm HQ. unfold on_pol. apply wp_zoom. eapply wp_mono; [done|]. intros a s' o' (-> & Hi & Hl & Hb). apply HQ. destruct Hw1. split; try done.
  - intros q. cbn. rewrite Hl. case_decide; [done|]. by rewrite at_look0, decide_False.
  - intros q. cbn. by rewrite Hb, at_bytes0.
Qed.
Lemma wp_update_frame h Q o : entry_update h → (∀ w2, at_page w id f v (h p) u bytes ls sw w2 → Q () w2 o) → wp (update_frame f h) Q w1 o.
Proof using Hw1.
  intros Hh HQ. unfold update_frame, on_frames. eapply wp_at_pol; [|by intros [] ?; apply HQ]. apply update_look; [done|by destruct Hw1|apply at_entry].
Qed.
(** A new entry computed from the old one. *)
Lemma wp_replace_frame h e Q o : entry_update h → entry (phys (pol w1)) f = Some e → p = with_policy 0 e →
  (∀ w2, at_page w id f v (h p) u bytes ls sw w2 → Q () w2 o) → wp (update_frame f (λ _, h e)) Q w1 o.
Proof using Hw1.
  intros Hh He' Ep HQ.
  unfold update_frame, on_frames. eapply (wp_at_pol _ (h p) u); [|by intros [] ?; apply HQ]. rewrite Ep. apply (wp_update_page f e); [done|].
  destruct (set_page_look f e (h e) (pol w1) (at_pol _ _ _ _ _ _ _ _ _ _ Hw1) He' (upd_alike _ Hh e) (upd_policy _ Hh e)) as (? & Hl & ?).
  rewrite <- (upd_bare _ Hh). destruct (look_entry _ _ _ _ at_entry) as (e2 & He2 & _ & ->). rewrite He' in He2. injection He2 as <-. done.
Qed.
Lemma wp_set_bytes b Q o : page_state p = Some StAllocated → (∀ w2, at_page w id f v p u b ls sw w2 → Q () w2 o) → wp (set_bytes f b) Q w1 o.
Proof using Hw1.
  intros Hst HQ. unfold set_bytes, on_frames, on_pol. apply wp_zoom. eapply wp_mono; [eapply (write_look f p u b); [by destruct Hw1|apply at_entry|done]|].
  intros [] s' o' (-> & Hi & Hl & Hb). apply HQ. destruct Hw1. split; try done.
  - intros q. cbn. by rewrite Hl, at_look0.
  - intros q. cbn. rewrite Hb. case_decide; [done|]. by rewrite at_bytes0, decide_False.
Qed.
Lemma wp_put_leaf k l Q o : (∀ w2, at_page w id f v p u bytes (<[k:=l]> ls) sw w2 → Q () w2 o) → wp (put_leaf k l) Q w1 o.
Proof using Hw1. intros HQ. unfold put_leaf. wp_steps. apply HQ. destruct Hw1. split; try done. cbn. by rewrite at_leaves0. Qed.
Lemma wp_drop_leaf k Q o : (∀ w2, at_page w id f v p u bytes (delete k ls) sw w2 → Q () w2 o) → wp (modify (λ w, with_leaves (delete k (leaves w)) w)) Q w1 o.
Proof using Hw1. intros HQ. wp_steps. apply HQ. destruct Hw1. split; try done. cbn. by rewrite at_leaves0. Qed.
Lemma wp_on_swap {A} (m : M (Swap B) A) Q o : wp m (λ a sw' o', ∀ w2, at_page w id f v p u bytes ls sw' w2 → Q a w2 o') sw o → wp (on_swap m) Q w1 o.
Proof using Hw1.
  intros Hm. unfold on_swap. apply wp_zoom. rewrite (at_swap _ _ _ _ _ _ _ _ _ _ Hw1). eapply wp_mono; [done|]. intros a sw' o' HQ. apply HQ. destruct Hw1. by split.
Qed.

(** Queues and wires. *)
Lemma wp_activate_frame who Q o : who_ok who → (∀ w2, at_page w id f v p (if wire_count p =? 0 then QueueActive else u) bytes ls sw w2 → Q () w2 o) →
  wp (activate_frame who f) Q w1 o.
Proof using Hw1.
  intros Hwho HQ. unfold activate_frame. eapply wp_at_pol; [|by intros [] ?; apply HQ]. apply activate_managed_look; [apply Hwho|by destruct Hw1|apply at_entry].
Qed.
Lemma wp_activate who Q o : who_ok who → (∀ w2, at_page w id f v p QueueActive bytes ls sw w2 → Q () w2 o) → wp (on_pol (activate f (place who))) Q w1 o.
Proof using Hw1. intros Hwho HQ. eapply wp_at_pol; [|by intros [] ?; apply HQ]. eapply activate_look; [apply Hwho|by destruct Hw1|apply at_entry]. Qed.
Lemma wp_remove_managed who Q o : who_ok who → (∀ w2, at_page w id f v p QueueNone bytes ls sw w2 → Q () w2 o) → wp (on_pol (remove_managed f (place who))) Q w1 o.
Proof using Hw1. intros Hwho HQ. eapply wp_at_pol; [|by intros [] ?; apply HQ]. eapply remove_managed_look; [apply Hwho|by destruct Hw1|apply at_entry]. Qed.
Lemma wp_enqueue_managed who Q o : who_ok who → (∀ w2, at_page w id f v p QueueActive bytes ls sw w2 → Q () w2 o) → wp (on_pol (enqueue_managed f (place who))) Q w1 o.
Proof using Hw1. intros Hwho HQ. eapply wp_at_pol; [|by intros [] ?; apply HQ]. eapply enqueue_managed_look; [apply Hwho|by destruct Hw1|apply at_entry]. Qed.
Lemma wp_deactivate_managed who Q o : who_ok who → (∀ w2, at_page w id f v (take_referenced p).2 QueueInactive bytes ls sw w2 → Q () w2 o) →
  wp (on_pol (deactivate_managed f (place who))) Q w1 o.
Proof using Hw1.
  intros Hwho HQ. eapply wp_at_pol; [|by intros [] ?; apply HQ]. eapply deactivate_managed_look; [apply Hwho|by destruct Hw1|apply at_entry|apply take_referenced_update].
Qed.
Lemma wp_wire who Q o : who_ok who → 0 ≤ wire_count p < 4294967295 →
  (∀ w2, at_page w id f v (set_wires (wire_count p + 1) p) (if wire_count p =? 0 then QueueNone else u) bytes ls sw w2 → Q () w2 o) →
  wp (on_pol (wire f (place who))) Q w1 o.
Proof using Hw1. intros Hwho Hc HQ. eapply wp_at_pol; [|by intros [] ?; apply HQ]. eapply wire_look; [apply Hwho|by destruct Hw1|apply at_entry|done]. Qed.
Lemma wp_unwire who Q o : who_ok who → 0 < wire_count p ≤ 4294967295 →
  (∀ w2, at_page w id f v (set_wires (wire_count p - 1) p) (if wire_count p =? 1 then QueueActive else u) bytes ls sw w2 → Q () w2 o) →
  wp (on_pol (unwire f (place who))) Q w1 o.
Proof using Hw1. intros Hwho Hc HQ. eapply wp_at_pol; [|by intros [] ?; apply HQ]. eapply unwire_look; [apply Hwho|by destruct Hw1|apply at_entry|done]. Qed.
Lemma wp_queue Q o : Q u w1 o → wp (on_pol (queue f)) Q w1 o.
Proof using Hw1.
  intros HQ. unfold on_pol, queue. apply wp_zoom. destruct (look_entry _ _ _ _ at_entry) as (e & He & _ & ->). apply wp_bind, (wp_policy_word f e); [done|].
  apply wp_ret. by replace (with_pol (pol w1) w1) with w1 by (by destruct w1).
Qed.

(** Owners and frames. *)
Lemma wp_bind_owner ex kind Q o : page_state p = Some StAllocated → page_usage p = Some UseManaged → page_owner_kind p = Some OwnNone → kind ≠ OwnNone →
  (∀ w2, at_page w id f v (bound id kind (bool_decide (kind = OwnFile) && ex) p) u bytes ls sw w2 → Q () w2 o) →
  wp (on_frames (bind_owner f id ex kind)) Q w1 o.
Proof using Hw1.
  intros Hst Hu Hk Hkind HQ. unfold on_frames. eapply wp_at_pol; [|by intros [] ?; apply HQ]. eapply bind_owner_look; try done; [by destruct Hw1|apply at_entry].
Qed.
Lemma wp_clear_owner Q o : (∀ w2, at_page w id f v (unbound p) u bytes ls sw w2 → Q () w2 o) → wp (on_frames (clear_owner f)) Q w1 o.
Proof using Hw1. intros HQ. unfold on_frames. eapply wp_at_pol; [|by intros [] ?; apply HQ]. eapply clear_owner_look; [by destruct Hw1|apply at_entry]. Qed.
Lemma wp_free_frame who Q o : who_ok who → releasable p → (∀ w2, at_page w id f v (released false p) u bytes ls sw w2 → Q () w2 o) →
  wp (on_frames (free_page f (caller who))) Q w1 o.
Proof using Hw1. intros Hwho Hr HQ. unfold on_frames. eapply wp_at_pol; [|by intros [] ?; apply HQ]. eapply free_look; [by destruct Hw1|apply Hwho|apply at_entry|done]. Qed.
Lemma wp_note_executable Q o : (∀ w2, at_page w id f v (noted p) u bytes ls sw w2 → Q () w2 o) → wp (on_frames (note_executable f)) Q w1 o.
Proof using Hw1. intros HQ. unfold on_frames. eapply wp_at_pol; [|by intros [] ?; apply HQ]. eapply note_executable_look; [by destruct Hw1|apply at_entry]. Qed.
Lemma wp_add_mapping Q o : (∀ w2, at_page w id f v (with_counts (wire_count p) (loan_count p) (map_count p + 1) p) u bytes ls sw w2 → Q () w2 o) →
  wp (on_frames (add_mapping f)) Q w1 o.
Proof using Hw1.
  intros HQ. unfold on_frames, add_mapping. eapply wp_at_pol; [|by intros [] ?; apply HQ]. exact (update_look f _ p u _ o add_mapping_update (at_pol _ _ _ _ _ _ _ _ _ _ Hw1) at_entry).
Qed.
Lemma wp_remove_mapping Q o : map_count p ≠ 0 → (∀ w2, at_page w id f v (with_counts (wire_count p) (loan_count p) (map_count p - 1) p) u bytes ls sw w2 → Q () w2 o) →
  wp (on_frames (remove_mapping f)) Q w1 o.
Proof using Hw1.
  intros Hm HQ. unfold on_frames, remove_mapping. destruct (look_entry _ _ _ _ at_entry) as (e & He & E & _). rewrite E in Hm.
  eapply wp_at_pol; [|by intros [] ?; apply HQ]. unfold on_phys. apply wp_zoom. apply wp_bind. eapply wp_get_page; [done|].
  apply wp_bind. pose proof (update_look f _ p u _ o remove_mapping_update (at_pol _ _ _ _ _ _ _ _ _ _ Hw1) at_entry) as Hupd.
  unfold on_phys, wp, zoom in Hupd. unfold wp at 1. destruct (update_page _ _ _ _) as [[[[] P] o']|]; [|done]. destruct Hupd as (-> & ? & ? & ?).
  apply wp_massert; [|done]. apply negb_true_iff, Z.eqb_neq. exact Hm.
Qed.
Lemma wp_release_mapping Q o : resident v = Some f → map_count p ≠ 0 →
  (∀ w2, at_page w id f v (with_counts (wire_count p) (loan_count p) (map_count p - 1) p) u bytes ls sw w2 → Q () w2 o) → wp (release_mapping id) Q w1 o.
Proof using Hw1. intros Hr Hm HQ. unfold release_mapping. apply wp_bind, wp_get_vp. apply wp_bind. eapply wp_expect; [done|]. by apply wp_remove_mapping. Qed.

(** The contents of a page under its owner lock. *)
Definition recorded l p : Page :=
  let p := if lf_accessed l then mark_referenced p else p in if lf_dirty l then mark_dirty p else p.
End rules.

Section leaves.
Context {w : Vm B} {id : nat} {f : Z}.
Lemma wp_record_hardware v p u bytes ls sw w1 l Q o : at_page w id f v p u bytes ls sw w1 → lf_frame l = f →
  (∀ w2, at_page w id f v (recorded l p) u bytes ls sw w2 → Q () w2 o) → wp (record_hardware_state l) Q w1 o.
Proof.
  intros Hw1 Hf HQ. unfold record_hardware_state, recorded in *. rewrite Hf. apply wp_bind.
  assert (∀ p1 w2, at_page w id f v p1 u bytes ls sw w2 → (∀ w3, at_page w id f v (if lf_dirty l then mark_dirty p1 else p1) u bytes ls sw w3 → Q () w3 o) →
    wp (if lf_dirty l then update_frame f mark_dirty else ret ()) Q w2 o) as Hd.
  { intros p1 w2 Hw2 HQ2. destruct (lf_dirty l); [|apply wp_ret; by apply HQ2]. apply (wp_update_frame Hw2); [apply mark_dirty_update|]. done. }
  destruct (lf_accessed l); [|apply wp_ret; by eapply Hd]. apply (wp_update_frame Hw1); [apply mark_referenced_update|]. intros w2 Hw2. by eapply Hd.
Qed.
Lemma wp_unmap_page v p u bytes ls sw w1 k l Q o : at_page w id f v p u bytes ls sw w1 → ls !! k = Some l → lf_frame l = f →
  (∀ w2, at_page w id f v (recorded l p) u bytes (delete k ls) sw w2 → Q () w2 o) → wp (unmap_page k) Q w1 o.
Proof.
  intros Hw1 Hk Hf HQ. unfold unmap_page. wp_steps. eapply wp_expect; [by rewrite (at_leaves _ _ _ _ _ _ _ _ _ _ Hw1)|].
  apply wp_bind, (wp_drop_leaf Hw1). intros w2 Hw2. by eapply wp_record_hardware.
Qed.
Lemma wp_take_accessed v p u bytes ls sw w1 k l Q o : at_page w id f v p u bytes ls sw w1 → ls !! k = Some l →
  (∀ w2, at_page w id f v p u bytes (<[k:=mkLeaf (lf_page l) (lf_protection l) (lf_frame l) false false]> ls) sw w2 → Q (lf_accessed l, lf_dirty l) w2 o) →
  wp (take_accessed_dirty k) Q w1 o.
Proof.
  intros Hw1 Hk HQ. unfold take_accessed_dirty. wp_steps. eapply wp_expect; [by rewrite (at_leaves _ _ _ _ _ _ _ _ _ _ Hw1)|].
  apply wp_bind, (wp_put_leaf Hw1). intros w2 Hw2. apply wp_ret. by apply HQ.
Qed.
End leaves.

(** ** Back to the invariant *)

(** The leaves of other pages are as before, those of [id] are its mappings. *)
Definition leaves_local id (ls ls' : gmap Key Leaf) v' : Prop :=
  (∀ k l, lf_page l ≠ id → ls' !! k = Some l ↔ ls !! k = Some l) ∧ (∀ k l, lf_page l = id → ls' !! k = Some l → k ∈ mappings v').
Lemma leaves_local_same g w id v v' : vm_inv g w → vpages w !! id = Some v → mappings v' = mappings v → leaves_local id (leaves w) (leaves w) v'.
Proof.
  intros Hi Hv Hm. split; [done|]. intros k l Hid Hl. destruct (vm_leaves _ _ Hi _ _ Hl) as (v1 & Hv1 & Hk). rewrite Hid, Hv in Hv1. injection Hv1 as <-. by rewrite Hm.
Qed.

(** Nobody holds [f] but [id]. *)
Definition frame_free g w id v f : Prop :=
  frame_held g id v = Some f ∨ frame_held g id v = None ∧ ∀ i v1, vpages w !! i = Some v1 → frame_held g i v1 ≠ Some f.
Lemma frame_free_other g w id v f i v1 : vm_inv g w → vpages w !! id = Some v → frame_free g w id v f → i ≠ id → vpages w !! i = Some v1 → frame_held g i v1 ≠ Some f.
Proof. intros Hi Hv [Hf|[_ Hf]] Hne Hv1; [|by apply Hf]. intros E. apply Hne. by eapply (vm_frames _ _ Hi). Qed.

Lemma vm_inv_local g g' w w' id f v v' p' u' bytes' ls sw : vm_inv g w → vpages w !! id = Some v → at_page w id f v' p' u' bytes' ls sw w' →
  swap_inv (map_to_list (slots g')).*2 sw → (∀ i, i ≠ id → ghost_same i g g') → page_holds g' w' id v' → frame_free g w id v f →
  (∀ q, frame_held g' id v' = Some q → q = f) → (u' ≠ QueueNone → backing v' = BResident f) → leaves_local id (leaves w) ls v' → vm_inv g' w'.
Proof.
  intros Hi Hv Hat Hsw Hg Hp Hfree Hheld Hq [Hl1 Hl2]. pose proof (λ i v1, frame_free_other g w id v f i v1 Hi Hv Hfree) as Hother.
  pose proof Hat as [Hpol Hlook Hbytes Hpages Hleaves Hswap].
  assert (∀ i, i ≠ id → vpages w' !! i = vpages w !! i) as Hout by (intros i Hne; rewrite Hpages; by apply lookup_insert_ne).
  assert (vpages w' !! id = Some v') as Hid by (rewrite Hpages; apply lookup_insert_eq).
  eapply (vm_inv_change (λ i, i = id)); [done..|by rewrite Hswap|by intros i Hne; split; [apply Hout|apply Hg]| | | | | |].
  - intros i ->. by rewrite Hid.
  - intros i v1 q Hne Hv1 Hh. assert (q ≠ f) as Hqf by (intros ->; by eapply Hother). by rewrite Hlook, Hbytes, !decide_False.
  - intros k l Hne. rewrite Hleaves. by apply Hl1.
  - intros k l E Hl. exists v'. rewrite E. split; [done|]. rewrite Hleaves in Hl. exact (Hl2 k l E Hl).
  - intros i1 i2 v1 v2 q -> Hv1 Hv2 Hh1 Hh2. rewrite Hid in Hv1. injection Hv1 as <-. apply Hheld in Hh1 as ->.
    destruct (decide (i2 = id)) as [|Hne]; [done|]. rewrite Hout in Hv2 by done. rewrite (frame_held_same g g') in Hh2 by (by apply Hg). by destruct (Hother i2 v2 Hne Hv2).
  - intros q p u. rewrite Hlook. destruct (decide (q = f)) as [->|Hne].
    + intros [= <- <-] Hu. exists id, v'. split; [done|]. by apply Hq.
    + intros Hl Hu. destruct (vm_queues _ _ Hi _ _ _ Hl Hu) as (i & v1 & Hv1 & Hb). destruct (decide (i = id)) as [->|Hi'].
      * assert (frame_held g id v = Some q) as Hh by (unfold frame_held; rewrite Hv in Hv1; injection Hv1 as <-; by rewrite Hb).
        destruct Hfree as [E|[E _]]; congruence.
      * exists i, v1. by rewrite Hout.
Qed.

(** Opening a resident page. *)
Lemma resident_open g w id v f : vm_inv g w → vpages w !! id = Some v → backing v = BResident f → ∃ p u,
  at_page w id f v p u (contents g id) (leaves w) (swap w) w ∧ resident_ok g id (leaves w) v f p u (contents g id) ∧
  jobs g !! id = None ∧ page_ok (contents g id) ∧ owner_kind v ≠ OwnNone ∧ frame_free g w id v f.
Proof.
  intros Hi Hv Hb. destruct (vm_pages _ _ Hi _ _ Hv) as (Hok & Hk & Hr). rewrite Hb in Hr. destruct Hr as (Hj & p & u & Hl & Hr). exists p, u.
  pose proof (res_bytes _ _ _ _ _ _ _ _ Hr) as Hby. rewrite Hby in Hr. split_and!; try done.
  - rewrite <- Hby. apply at_start; [apply (vm_pol _ _ Hi)|done..].
  - left. unfold frame_held. by rewrite Hb.
Qed.
(** A resident page stays resident. *)
Lemma resident_close g g' w w' id f v v' p' u' bytes' ls : vm_inv g w → vpages w !! id = Some v → backing v = BResident f →
  at_page w id f v' p' u' bytes' ls (swap w) w' → backing v' = BResident f → slots g' = slots g → (∀ i, i ≠ id → ghost_same i g g') → jobs g' !! id = None →
  page_ok (contents g' id) → owner_kind v' = owner_kind v → resident_ok g' id ls v' f p' u' bytes' → leaves_local id (leaves w) ls v' → vm_inv g' w'.
Proof.
  intros Hi Hv Hb Hat Hb' Hs Hg Hj Hok Hk Hr Hl. destruct (resident_open g w id v f Hi Hv Hb) as (p & u & _ & _ & _ & _ & Hkind & Hfree).
  eapply vm_inv_local; [done..| | | | | | |done].
  - rewrite Hs. apply (vm_swap _ _ Hi).
  - done.
  - unfold page_holds. rewrite Hb', Hk. split_and!; try done. exists p', u'. rewrite (at_frame_bytes Hat), (at_leaves _ _ _ _ _ _ _ _ _ _ Hat). split; [apply (at_entry Hat)|done].
  - done.
  - intros q. unfold frame_held. rewrite Hb'. by intros [= ->].
  - done.
Qed.
End local.

(** * Logical pages: their mappings

    Visiting the reverse mappings of a page: removing them all, and taking the
    accessed and dirty bits. Nothing that says a page was modified is lost. *)

(** ** Updates that leave the identity of a frame alone *)

Record touched (p p' : Page) : Prop := {
  touch_status : status p' = status p;
  touch_owner : owner p' = owner p;
  touch_wires : wire_count p' = wire_count p;
  touch_loans : loan_count p' = loan_count p;
  touch_busy : has_flag (flags p') BUSY = has_flag (flags p) BUSY;
}.
#[export] Instance touched_preorder : PreOrder touched.
Proof. split; [done|]. intros p1 p2 p3 [] []. split; congruence. Qed.
Lemma touched_maps n p : touched p (with_counts (wire_count p) (loan_count p) n p).
Proof. done. Qed.
Lemma touched_flags k p : has_flag (k (flags p)) BUSY = has_flag (flags p) BUSY → touched p (with_flags (k (flags p)) p).
Proof. done. Qed.
Lemma touched_referenced p : touched p (mark_referenced p).
Proof. apply (touched_flags (λ f, Z.lor f REFERENCED)). by apply has_flag_or. Qed.
Lemma touched_dirty p : touched p (mark_dirty p).
Proof. apply (touched_flags (λ f, Z.land (Z.lor f DIRTY) (u32_not DIRTY_UNKNOWN))). rewrite has_flag_keeps by done. by apply has_flag_or. Qed.
Lemma touched_unknown p : touched p (mark_unknown p).
Proof. apply (touched_flags (λ f, if Z.land f DIRTY =? 0 then Z.lor f DIRTY_UNKNOWN else f)). destruct (_ =? _); [by apply has_flag_or|done]. Qed.
Lemma touched_resolved p : touched p (resolve_unknown p).
Proof. apply (touched_flags (λ f, Z.land f (u32_not DIRTY_UNKNOWN))). by apply has_flag_keeps. Qed.
Lemma touched_clean p : touched p (mark_clean p).
Proof. apply (touched_flags (λ f, Z.land f (u32_not (Z.lor DIRTY DIRTY_UNKNOWN)))). by apply has_flag_keeps. Qed.
Lemma touched_unreferenced p : touched p (take_referenced p).2.
Proof. apply (touched_flags (λ f, Z.land f (u32_not REFERENCED))). by apply has_flag_keeps. Qed.
Lemma touched_noted p : touched p (noted p).
Proof. unfold noted. case_bool_decide; [|done]. apply (touched_flags (λ f, Z.lor f EXECUTABLE)). by apply has_flag_or. Qed.
Lemma touched_recorded l p : touched p (recorded l p).
Proof.
  unfold recorded. destruct (lf_accessed l), (lf_dirty l); [etrans; [apply touched_referenced|apply touched_dirty]|apply touched_referenced|apply touched_dirty|done].
Qed.
Create HintDb touched.
#[export] Hint Resolve touched_maps touched_referenced touched_dirty touched_unknown touched_resolved touched_clean touched_unreferenced touched_noted touched_recorded : touched.

Lemma dirty_referenced p : dirty (mark_referenced p) = dirty p.
Proof. by apply has_flag_or. Qed.
Lemma dirty_dirty p : dirty (mark_dirty p) = true.
Proof. unfold dirty, mark_dirty. cbn [flags with_flags]. rewrite has_flag_keeps by done. by apply has_flag_set. Qed.
Lemma dirty_unknown p : dirty (mark_unknown p) = dirty p.
Proof. unfold dirty, mark_unknown. cbn [flags with_flags]. destruct (_ =? _); [by apply has_flag_or|done]. Qed.
Lemma dirty_resolved p : dirty (resolve_unknown p) = dirty p.
Proof. by apply has_flag_keeps. Qed.
Lemma dirty_clean p : dirty (mark_clean p) = false.
Proof. by apply has_flag_drops. Qed.
Lemma dirty_unreferenced p : dirty (take_referenced p).2 = dirty p.
Proof. by apply has_flag_keeps. Qed.
Lemma dirty_noted p : dirty (noted p) = dirty p.
Proof. unfold noted. case_bool_decide; [|done]. by apply has_flag_or. Qed.
Lemma dirty_recorded l p : dirty (recorded l p) = dirty p || lf_dirty l.
Proof. unfold recorded. destruct (lf_accessed l), (lf_dirty l); rewrite ?dirty_dirty, ?dirty_referenced, ?orb_true_r, ?orb_false_r; done. Qed.
Lemma maps_recorded l p : map_count (recorded l p) = map_count p.
Proof. unfold recorded. by destruct (lf_accessed l), (lf_dirty l). Qed.
Lemma owned_touched id v v' p p' : touched p p' → owner_kind v' = owner_kind v → owned_frame id v p → owned_frame id v' p'.
Proof.
  intros [] Hk []. split; try congruence; unfold page_state, page_usage, page_owner_kind, status_field in *; rewrite touch_status0; congruence.
Qed.

(** ** Visiting *)

Lemma find_after_app k l1 l2 : k ∉ l1 → find_after k (l1 ++ k :: l2) = Some (hd_error l2).
Proof.
  induction l1 as [|x l1 IH]; intros Hk; cbn; [by rewrite bool_decide_true|]. apply not_elem_of_cons in Hk as [Hne Hk]. rewrite bool_decide_false by congruence. by apply IH.
Qed.
Lemma remove_key_spec k l : NoDup l → ∀ x, x ∈ remove_key k l ↔ x ≠ k ∧ x ∈ l.
Proof.
  induction 1 as [|y l Hy Hnd IH]; intros x; cbn; [set_solver|]. case_bool_decide as E; [subst y|].
  - rewrite elem_of_cons. split; [|tauto]. intros Hx. split; [by intros ->|by right].
  - rewrite !elem_of_cons, IH. split; [|tauto]. intros [->|[? ?]]; [by split; [|left]|tauto].
Qed.
Lemma remove_key_nodup k l : NoDup l → NoDup (remove_key k l).
Proof.
  induction 1 as [|y l Hy Hnd IH]; cbn; [constructor|]. case_bool_decide; [done|]. apply NoDup_cons. split; [|done]. rewrite remove_key_spec by done. tauto.
Qed.
Lemma remove_key_length k l : k ∈ l → S (length (remove_key k l)) = length l.
Proof.
  induction l as [|y l IH]; [by intros ?%elem_of_nil|]. intros Hk. cbn. case_bool_decide; [done|]. cbn. f_equal. apply IH. by apply elem_of_cons in Hk as [->|].
Qed.

Section visit.
Context `{Lz4Laws} {B : Type} `{SwapBackendLaws B} `{VmPagerLaws} {w : Vm B} {id : nat} {f : Z} {u : PageQueue} {bytes : list Z} {sw : Swap B}.
Implicit Types (v : VmPage) (p : Page) (l : Leaf) (k : Key) (ls : gmap Key Leaf) (o : oracle).

(** The page [id] without mappings, its modifications folded into the frame. *)
Record unmapped v p ls p' ls' : Prop := {
  un_touched : touched p p';
  un_maps : map_count p' = map_count p - Z.of_nat (length (mappings v));
  un_dirty : dirty p' = false → clean ls v p;
  un_clean : clean ls v p → dirty p' = false;
  un_leaves : ∀ k, ls' !! k = if decide (k ∈ mappings v) then None else ls !! k;
}.
Lemma visit_unmap n : ∀ fuel v p ls w1 Q o, (n < fuel)%nat → length (mappings v) = n → at_page w id f v p u bytes ls sw w1 → resident v = Some f →
  Z.of_nat n ≤ map_count p → mapped id f ls v →
  (∀ w2 p' ls', at_page w id f (with_mappings [] v) p' u bytes ls' sw w2 → unmapped v p ls p' ls' → Q () w2 o) →
  wp (visit_mappings fuel id (λ k _, do unmap_page k then do remove_reverse_mapping id k then do release_mapping id then ret (false, ())) None ()) Q w1 o.
Proof.
  induction n as [|n IH]; intros [|fuel] v p ls w1 Q o Hfuel Hn Hat Hres Hmaps [Hnd Hm] HQ; [lia| |lia|]; cbn [visit_mappings].
  - apply length_zero_iff_nil in Hn. apply wp_bind, (wp_get_vp Hat). rewrite Hn. cbn [after hd_error]. apply wp_ret. apply (HQ w1 p ls).
    + replace (with_mappings [] v) with v; [done|]. destruct v; cbn in *; by subst.
    + split; try done; [rewrite Hn; cbn; lia| |by intros []|by intros k; rewrite Hn, decide_False by apply not_elem_of_nil]. intros Hd. split; [done|]. rewrite Hn. by intros k l ?%elem_of_nil.
  - destruct (mappings v) as [|k ks] eqn:Ems; [done|]. apply wp_bind, (wp_get_vp Hat). rewrite Ems. cbn [after hd_error]. wp_steps.
    rewrite (at_leaves _ _ _ _ _ _ _ _ _ _ Hat). destruct (Hm k) as (l & Hl & Hid & Hf); [by left|]. rewrite Hl, bool_decide_true by done.
    apply wp_bind, wp_bind. eapply wp_unmap_page; [done..|]. intros w2 Hw2. unfold remove_reverse_mapping. apply wp_bind, (wp_update_vp Hw2). intros w3 Hw3. rewrite Ems in Hw3.
    cbn [remove_key] in Hw3. rewrite bool_decide_true in Hw3 by done. apply wp_bind, (wp_release_mapping Hw3); [done|rewrite maps_recorded; lia|]. intros w4 Hw4. apply wp_ret.
    apply NoDup_cons in Hnd as [Hk Hnd].
    eapply (IH fuel (with_mappings ks v)); [lia|by cbn in *; lia|exact Hw4|done|cbn; rewrite maps_recorded; lia| |].
    + split; [done|]. intros k' Hk'. cbn in Hk'. destruct (Hm k') as (l' & ? & ? & ?); [by right|]. exists l'. rewrite lookup_delete_ne by (intros ->; done). done.
    + intros w5 p' ls' Hw5 [Ht Hmc Hd Hc Hls]. apply (HQ w5 p' ls'); [done|].
      assert (clean (delete k ls) (with_mappings ks v) (with_counts (wire_count (recorded l p)) (loan_count (recorded l p)) (map_count (recorded l p) - 1) (recorded l p)) ↔ clean ls v p) as Hiff.
      { unfold clean. change (dirty (with_counts _ _ _ _)) with (dirty (recorded l p)). rewrite dirty_recorded, orb_false_iff, Ems. cbn [mappings with_mappings]. split.
        - intros [[Hp Hdl] Hks]. split; [done|]. intros k' l' [->|Hk']%elem_of_cons Hl'; [congruence|]. apply (Hks k'); [done|]. by rewrite lookup_delete_ne by (intros ->; done).
        - intros [Hp Hks]. split; [split; [done|]; apply (Hks k l); [by left|done]|]. intros k' l' Hk' Hl'. rewrite lookup_delete_ne in Hl' by (intros ->; done). apply (Hks k' l'); [by right|done]. }
      split; [| | by intros ?%Hd%Hiff | by intros ?%Hiff%Hc |].
      * etrans; [apply (touched_recorded l)|]. etrans; [apply touched_maps|done].
      * rewrite Hmc, Ems. cbn. rewrite maps_recorded. lia.
      * intros k'. rewrite Hls, Ems. cbn [mappings with_mappings]. destruct (decide (k' = k)) as [->|Hne].
        -- rewrite lookup_delete_eq. rewrite (decide_True (P := k ∈ k :: ks)) by (by left). by case_decide.
        -- rewrite lookup_delete_ne by done. by rewrite (decide_ext (k' ∈ ks) (k' ∈ k :: ks)) by (rewrite elem_of_cons; tauto).
Qed.
Lemma remove_all_spec v p ls w1 Q o : at_page w id f v p u bytes ls sw w1 → resident v = Some f → Z.of_nat (length (mappings v)) ≤ map_count p → mapped id f ls v →
  (∀ w2 p' ls', at_page w id f (with_mappings [] v) p' u bytes ls' sw w2 → unmapped v p ls p' ls' → Q () w2 o) → wp (remove_all_mappings id) Q w1 o.
Proof.
  intros Hat Hres Hmaps Hm HQ. unfold remove_all_mappings, visit_reverse_mappings. apply wp_bind, (wp_get_vp Hat). case_bool_decide as E.
  - apply wp_ret. apply (HQ w1 p ls).
    + replace (with_mappings [] v) with v; [done|]. destruct v; cbn in *; by subst.
    + split; try done; [rewrite E; cbn; lia| |by intros []|by intros k; rewrite E, decide_False by apply not_elem_of_nil].
      intros Hd. split; [done|]. rewrite E. by intros k l ?%elem_of_nil.
  - apply wp_bind, (wp_get_vp Hat). eapply visit_unmap; [|done..]. lia.
Qed.

(** ** Harvesting *)

Definition cleared l : Leaf := mkLeaf (lf_page l) (lf_protection l) (lf_frame l) false false.
Definition swept (ks : list Key) ls (ls' : gmap Key Leaf) : Prop := ∀ k, ls' !! k = if decide (k ∈ ks) then cleared <$> ls !! k else ls !! k.
Definition any_dirty (ks : list Key) ls : Prop := ∃ k l, k ∈ ks ∧ ls !! k = Some l ∧ lf_dirty l = true.
Lemma after_last pre post : NoDup (pre ++ post) → after (last pre) (pre ++ post) = hd_error post.
Proof.
  intros Hnd. destruct pre as [|x pre _] using rev_ind; [done|]. rewrite last_snoc. cbn [after]. rewrite <- app_assoc in *. cbn [app] in *.
  rewrite find_after_app; [done|]. apply NoDup_app in Hnd as (_ & Hx & _). intros Hin. apply (Hx x Hin). by left.
Qed.
Lemma visit_harvest post : ∀ pre fuel v p ls w1 acc Q o, mappings v = pre ++ post → (length post < fuel)%nat → at_page w id f v p u bytes ls sw w1 →
  NoDup (mappings v) → (∀ k, k ∈ post → ∃ l, ls !! k = Some l ∧ lf_page l = id) →
  (∀ w2 ls' (acc' : bool * bool), at_page w id f v p u bytes ls' sw w2 → swept post ls ls' → (acc'.2 = true ↔ acc.2 = true ∨ any_dirty post ls) → Q acc' w2 o) →
  wp (visit_mappings fuel id (λ k acc, let* '(was_referenced, was_dirty) := take_accessed_dirty k in
        ret (true, (acc.1 || was_referenced, acc.2 || was_dirty))) (last pre) acc) Q w1 o.
Proof.
  induction post as [|k post IH]; intros pre [|fuel] v p ls w1 acc Q o Hms Hfuel Hat Hnd Hl HQ; [cbn in Hfuel; lia| |cbn in Hfuel; lia|]; cbn [visit_mappings];
    apply wp_bind, (wp_get_vp Hat); pose proof Hnd as Hnd'; rewrite Hms in Hnd'; rewrite Hms, after_last by done; cbn [hd_error].
  - apply wp_ret. apply (HQ w1 ls acc Hat).
    + intros k. by rewrite decide_False by apply not_elem_of_nil.
    + split; [by left|]. intros [?|(k & l & ?%elem_of_nil & _)]; done.
  - wp_steps. rewrite (at_leaves _ _ _ _ _ _ _ _ _ _ Hat). destruct (Hl k) as (l & Hk & Hid); [by left|]. rewrite Hk, bool_decide_true by done.
    apply wp_bind, wp_bind. eapply wp_take_accessed; [done..|]. intros w2 Hw2. apply wp_ret. cbn iota.
    apply NoDup_app in Hnd' as (_ & _ & [Hkp Hndp]%NoDup_cons).
    assert (∀ k', k' ∈ post → <[k:=cleared l]> ls !! k' = ls !! k') as Hne by (intros k' Hk'; apply lookup_insert_ne; by intros ->).
    replace (Some k) with (last (pre ++ [k])) by apply last_snoc.
    eapply (IH (pre ++ [k]) fuel v); [by rewrite <- app_assoc|cbn in Hfuel; lia|exact Hw2|done| |].
    + intros k' Hk'. rewrite Hne by done. apply Hl. by right.
    + intros w3 ls' acc' Hw3 Hsw Hacc. apply (HQ w3 ls' acc' Hw3).
      * intros k'. rewrite Hsw. destruct (decide (k' = k)) as [->|Hkk].
        -- rewrite (decide_False (P := k ∈ post)), (decide_True (P := k ∈ k :: post)) by (done || by left). by rewrite lookup_insert_eq, Hk.
        -- rewrite lookup_insert_ne by done. by rewrite (decide_ext (k' ∈ post) (k' ∈ k :: post)) by (rewrite elem_of_cons; tauto).
      * rewrite Hacc. cbn [fst snd]. rewrite orb_true_iff. split.
        -- intros [[?|Hd]|(k' & l' & Hk' & Hl' & Hd)]; [by left|right; exists k, l; split_and!; [by left|done|done]|right; exists k', l']. rewrite Hne in Hl' by done.
           split_and!; [by right|done|done].
        -- intros [?|(k' & l' & [->|Hk']%elem_of_cons & Hl' & Hd)]; [by left; left|left; right; congruence|right; exists k', l']. by rewrite Hne.
Qed.

(** Harvested: the bits of the leaves are in the frame. *)
Record harvested v p (u0 : PageQueue) ls v' p' (u' : PageQueue) (ls' : gmap Key Leaf) : Prop := {
  hv_page : ∃ r, v' = with_reject r v;
  hv_touched : touched p p';
  hv_maps : map_count p' = map_count p;
  hv_queue : u' = u0 ∨ u' = (if wire_count p =? 0 then QueueActive else u0);
  hv_leaves : swept (mappings v) ls ls';
  hv_dirty : dirty p' = true ↔ dirty p = true ∨ any_dirty (mappings v) ls;
}.
Lemma harvest_spec who v p ls w1 Q o : who_ok who → at_page w id f v p u bytes ls sw w1 → backing v = BResident f → mapped id f ls v →
  (∀ w2 v' p' u' ls', at_page w id f v' p' u' bytes ls' sw w2 → harvested v p u ls v' p' u' ls' → Q () w2 o) → wp (harvest_page_state_locked who id) Q w1 o.
Proof.
  intros Hwho Hat Hb [Hnd Hm] HQ. unfold harvest_page_state_locked, visit_reverse_mappings. apply wp_bind, wp_bind, (wp_get_vp Hat).
  eapply (visit_harvest (mappings v) [] _ v); [done|lia|done|done|intros k Hk; destruct (Hm k Hk) as (l & ? & ? & _); by exists l|].
  intros w2 ls' [r d] Hw2 Hsw Hd. cbn [fst snd] in Hd. assert (d = true ↔ any_dirty (mappings v) ls) as Hd' by (rewrite Hd; split; [by intros [|]|by right]). clear Hd.
  unfold record_hardware_state_locked. apply wp_bind, (wp_get_vp Hw2). rewrite Hb.
  assert (∀ p1 w3, at_page w id f v p1 u bytes ls' sw w3 → touched p p1 → map_count p1 = map_count p → dirty p1 = dirty p →
    wp (if d then do update_frame f mark_dirty then mark_modified who id f else ret ()) Q w3 o) as Hrest.
  { intros p1 w3 Hw3 Ht Hmc Hdp. destruct d.
    - apply wp_bind, (wp_update_frame Hw3); [apply mark_dirty_update|]. intros w4 Hw4. unfold mark_modified. apply wp_bind, (wp_update_vp Hw4). intros w5 Hw5.
      apply (wp_activate_frame Hw5); [done|]. intros w6 Hw6. apply (HQ _ _ _ _ _ Hw6). split; [by exists 0|by etrans; [|apply touched_dirty]|done| |done|].
      + right. change (wire_count (mark_dirty p1)) with (wire_count p1). by rewrite (touch_wires _ _ Ht).
      + rewrite dirty_dirty. split; [|done]. intros _. right. by apply Hd'.
    - apply wp_ret. apply (HQ _ _ _ _ _ Hw3). split; try done; [|by left|].
      + exists (swap_reject_generation v). by destruct v.
      + rewrite Hdp. split; [by left|]. intros [?|?%Hd']; done. }
  apply wp_bind. destruct r; [|apply wp_ret; by eapply Hrest]. apply (wp_update_frame Hw2); [apply mark_referenced_update|]. intros w3 Hw3.
  eapply Hrest; [done|apply touched_referenced|done|apply dirty_referenced].
Qed.
End visit.
