(* ===== verification/VmPageOps.v ===== *)
(** * Logical pages: operations on resident pages *)
From stdpp Require Import base list gmap.
From S2P Require Import Prelude.
From S2P Require Import Bytes.
From S2P Require Import Index.
From S2P Require Import Phys.
From S2P Require Import PhysInv.
From S2P Require Import PhysOps.
From S2P Require Import PhysRuns.
From S2P Require Import Swap.
From S2P Require Import SwapSpec.
From S2P Require Import Policy.
From S2P Require Import PolicySpec.
From S2P Require Import VmFrames.
From S2P Require Import VmPage.
From S2P Require Import VmPageInv.
Open Scope rust_scope.

(** ** Steps that change no contents *)

Definition same_page (v v' : VmPage) : Prop := ∃ r e, v' = with_executable e (with_reject r v).
Lemma same_page_refl v : same_page v v.
Proof. exists (swap_reject_generation v), (executable v). by destruct v. Qed.
Lemma same_page_reject r v : same_page v (with_reject r v).
Proof. exists r, (executable v). by destruct v. Qed.

Record calm (v : VmPage) (p : Page) (u : PageQueue) (ls : gmap Key Leaf) (v' : VmPage) (p' : Page) (u' : PageQueue) (ls' : gmap Key Leaf) : Prop := {
  cm_page : same_page v v';
  cm_touched : touched p p';
  cm_maps : map_count p' = map_count p;
  cm_queue : u' = QueueNone ↔ u = QueueNone;
  cm_clean : clean ls' v' p' → clean ls v p;
  cm_pager : is_Some (pager v) → clean ls v p → clean ls' v' p';
  cm_dirty : dirty p = true → dirty p' = true;
  cm_leaves : ∀ k l, k ∈ mappings v → ls !! k = Some l → ∃ l', ls' !! k = Some l' ∧ lf_page l' = lf_page l ∧ lf_frame l' = lf_frame l ∧
    (has_prot (lf_protection l') WRITE = true → has_prot (lf_protection l) WRITE = true);
  cm_others : ∀ k, k ∉ mappings v → ls' !! k = ls !! k;
}.
(** Nothing but the frame and the record of the page changed. *)
Lemma calm_frame v p u ls v' p' u' : same_page v v' → touched p p' → map_count p' = map_count p → (u' = QueueNone ↔ u = QueueNone) →
  dirty p' = dirty p → calm v p u ls v' p' u' ls.
Proof.
  intros Hv Ht Hm Hu Hd. assert (clean ls v' p' ↔ clean ls v p) as Hc.
  { unfold clean. rewrite Hd. by destruct Hv as (r & e & ->). }
  split; try done; [by rewrite Hc|by intros _ ?%Hc|by rewrite Hd|]. intros k l Hk Hl. by exists l.
Qed.

Section ops.
Context `{Lz4Laws} {B : Type} `{SwapBackendLaws B} `{VmPagerLaws}.
Implicit Types (w : Vm B) (g : Ghost) (v : VmPage) (id : nat) (p : Page) (u : PageQueue) (f : Z) (bytes : list Z) (l : Leaf) (k : Key) (ls : gmap Key Leaf) (sw : Swap B) (o : oracle).

Lemma calm_resident g id ls ls' v v' f p p' u u' bytes : calm v p u ls v' p' u' ls' → resident_ok g id ls v f p u bytes → resident_ok g id ls' v' f p' u' bytes.
Proof.
  intros [] []. destruct cm_page0 as (r & e & ->). destruct res_mapped as [Hnd Hm]. split; cbn [mappings write_windows resident with_executable with_reject].
  - by apply (owned_touched id v _ p).
  - by rewrite (touch_busy _ _ cm_touched0).
  - by rewrite cm_maps0.
  - by rewrite (touch_wires _ _ cm_touched0).
  - by rewrite cm_queue0, (touch_wires _ _ cm_touched0).
  - done.
  - done.
  - split; [done|]. intros k Hk. destruct (Hm k Hk) as (l & Hl & E1 & E2). destruct (cm_leaves0 k l Hk Hl) as (l' & ? & ? & ? & _). exists l'. split_and!; congruence.
  - unfold backed in *. cbn [pager resident_swap mappings write_windows vp_index with_executable with_reject]. destruct (pager v) as [pg|].
    + destruct res_backed as (? & ? & ? & Hc & ? & Hw). split_and!; try done; [by apply cm_pager0|]. intros k l' Hk Hl'. destruct (Hm k Hk) as (l & Hl & _).
      destruct (cm_leaves0 k l Hk Hl) as (l2 & Hl2 & _ & _ & Hp). assert (l2 = l') as -> by congruence. specialize (Hw k l Hk Hl).
      destruct (has_prot (lf_protection l') WRITE); [|done]. by rewrite Hp in Hw.
    + destruct (resident_swap v) as [h|]; [|done]. destruct res_backed as (page & ? & Hc). exists page. split; [done|]. intros ?. by apply Hc, cm_clean0.
  - destruct res_windows as [? Hw]. split; [done|]. intros ?. by apply cm_dirty0, Hw.
Qed.
Lemma calm_leaves g w id v v' f p p' u u' ls' : vm_inv g w → vpages w !! id = Some v → mapped id f (leaves w) v → calm v p u (leaves w) v' p' u' ls' →
  leaves_local id (leaves w) ls' v'.
Proof.
  intros Hi Hv [_ Hm] []. assert (∀ k l, k ∈ mappings v → ls' !! k = Some l ∨ leaves w !! k = Some l → lf_page l = id) as Hin.
  { intros k l Hk Hl. destruct (Hm k Hk) as (l0 & Hl0 & E & _). destruct (cm_leaves0 k l0 Hk Hl0) as (l1 & Hl1 & E1 & _). destruct Hl; congruence. }
  split.
  - intros k l Hne. destruct (decide (k ∈ mappings v)) as [Hk|Hk]; [split; intros Hl; destruct Hne; apply (Hin k l Hk); auto|]. by rewrite cm_others0.
  - intros k l E Hl. destruct cm_page0 as (r & e & ->). cbn [mappings with_executable with_reject]. destruct (decide (k ∈ mappings v)) as [|Hk]; [done|].
    rewrite cm_others0 in Hl by done. destruct (vm_leaves _ _ Hi _ _ Hl) as (v1 & Hv1 & Hk1). rewrite E, Hv in Hv1. congruence.
Qed.
Lemma calm_close g w w' id v v' f p p' u u' ls' : vm_inv g w → vpages w !! id = Some v → backing v = BResident f → resident_ok g id (leaves w) v f p u (contents g id) →
  at_page w id f v' p' u' (contents g id) ls' (swap w) w' → calm v p u (leaves w) v' p' u' ls' → vm_inv g w'.
Proof.
  intros Hi Hv Hb Hr Hat Hc. destruct (resident_open g w id v f Hi Hv Hb) as (p0 & u0 & _ & _ & Hj & Hok & Hk & _). pose proof (cm_page _ _ _ _ _ _ _ _ Hc) as (r & e & E).
  eapply (resident_close g g); [done|done|done|done|by rewrite E|done|done|done|done|by rewrite E|by eapply calm_resident|].
  eapply calm_leaves; [done|done|by eapply res_mapped|done].
Qed.
(** No page but [id] changed, and no frame disappeared. *)
Definition only_page id w w' : Prop :=
  (∀ i, i ≠ id → vpages w' !! i = vpages w !! i) ∧ is_Some (vpages w' !! id) ∧ ∀ f, is_Some (look (pol w) f) → is_Some (look (pol w') f).
Lemma at_only_page w id f v p u bytes ls sw w' : at_page w id f v p u bytes ls sw w' → only_page id w w'.
Proof. intros Hat. unfold only_page. rewrite (at_vpages _ _ _ _ _ _ _ _ _ _ Hat). split_and!; [intros i ?; by apply lookup_insert_ne|by rewrite lookup_insert_eq|]. intros q. rewrite (at_look _ _ _ _ _ _ _ _ _ _ Hat). by case_decide. Qed.
(** The outcome of a calm step on the page [id]. *)
Definition calm_page g id v w' : Prop := vm_inv g w' ∧ ∃ v', vpages w' !! id = Some v' ∧ same_page v v'.
Lemma calm_done g w w' id v v' f p p' u u' ls' : vm_inv g w → vpages w !! id = Some v → backing v = BResident f → resident_ok g id (leaves w) v f p u (contents g id) →
  at_page w id f v' p' u' (contents g id) ls' (swap w) w' → calm v p u (leaves w) v' p' u' ls' → calm_page g id v w' ∧ only_page id w w'.
Proof.
  intros Hi Hv Hb Hr Hat Hc. split; [split; [by eapply calm_close|]|].
  - exists v'. split; [apply (at_page_lookup Hat)|by destruct Hc].
  - by eapply at_only_page.
Qed.

Lemma harvested_calm g id v p u ls v' p' u' ls' f bytes : resident_ok g id ls v f p u bytes → harvested v p u ls v' p' u' ls' → calm v p u ls v' p' u' ls'.
Proof.
  intros [] [(r & ->) Ht Hm Hu Hs Hd]. split; try done.
  - apply same_page_reject.
  - destruct Hu as [-> | ->]; [done|]. destruct (Z.eqb_spec (wire_count p) 0); [|done]. rewrite res_queue. by split.
  - intros [Hp _]. rewrite <- not_true_iff_false, Hd in Hp. split; [apply not_true_iff_false; tauto|]. intros k l Hk Hl. apply not_true_iff_false. intros E. apply Hp. right. by exists k, l.
  - intros _ [Hp Hl]. split.
    + apply not_true_iff_false. rewrite Hd. intros [?|(k & l & Hk & Hkl & E)]; [congruence|]. specialize (Hl k l Hk Hkl). congruence.
    + intros k l Hk. cbn in Hk. rewrite Hs, decide_True by done. intros (l0 & _ & ->)%fmap_Some. done.
  - intros ?. apply Hd. by left.
  - intros k l Hk Hl. exists (cleared l). rewrite Hs, decide_True, Hl by done. done.
  - intros k Hk. by rewrite Hs, decide_False.
Qed.
Lemma away_mappings g w id v : vm_inv g w → vpages w !! id = Some v → (∀ f, backing v ≠ BResident f) → mappings v = [].
Proof. intros Hi Hv Hb. destruct (vm_pages _ _ Hi _ _ Hv) as (_ & _ & Hr). destruct (backing v) as [| |f|h|loc wt]; try (by destruct Hr as ((_ & _ & ? & _) & _)). by destruct (Hb f). Qed.
Lemma harvest_page who g w id v o : who_ok who → vm_inv g w → vpages w !! id = Some v →
  wp (harvest_page_state_locked who id) (λ _ w' o', o' = o ∧ calm_page g id v w' ∧ only_page id w w') w o.
Proof.
  intros Hwho Hi Hv. destruct (backing v) as [| |f|h|loc wt] eqn:Hb.
  3:{ destruct (resident_open g w id v f Hi Hv Hb) as (p & u & Hat & Hr & _). eapply harvest_spec; [done|exact Hat|done|by eapply res_mapped|].
      intros w2 v' p' u' ls' Hw2 Hh. split; [done|]. eapply calm_done; [done..|]. by eapply harvested_calm. }
  all: assert (mappings v = []) as Hm by (eapply away_mappings; [done..|]; intros ?; congruence).
  all: unfold harvest_page_state_locked, visit_reverse_mappings; apply wp_bind, wp_bind, (wp_find_vp w id v _ _ Hv); rewrite Hm; cbn [length Nat.mul Nat.add visit_mappings].
  all: apply wp_bind, (wp_find_vp w id v _ _ Hv); rewrite Hm; cbn [after hd_error]; apply wp_ret.
  all: unfold record_hardware_state_locked; apply wp_bind, (wp_find_vp w id v _ _ Hv); rewrite Hb; apply wp_ret.
  all: split; [done|]; split; [|split_and!; [done|by eexists|done]]; split; [done|]; exists v; split; [done|apply same_page_refl].
Qed.

(** ** Steps that change the contents *)

Lemma set_contents_at id c g : contents (set_contents id c g) id = c.
Proof. cbn. by rewrite decide_True. Qed.
Lemma set_contents_other id i c g : i ≠ id → ghost_same i g (set_contents id c g).
Proof. intros Hne. unfold ghost_same. cbn. by rewrite decide_False. Qed.
Lemma page_ok_copy c off bytes : page_ok c → Forall is_byte bytes → (off + length bytes ≤ PAGE_BYTES)%nat → page_ok (copy_into c off bytes).
Proof.
  intros [Hl Hb] Hby Hoff. split; [rewrite length_copy_into; [done|lia]|]. unfold copy_into. rewrite !Forall_app. split_and!; [by apply Forall_take|done|by apply Forall_drop].
Qed.
(** The leaves of the page after one of them changed its bits. *)
Definition leaves_alike v ls (ls' : gmap Key Leaf) : Prop :=
  (∀ k l, k ∈ mappings v → ls !! k = Some l → ∃ l', ls' !! k = Some l' ∧ lf_page l' = lf_page l ∧ lf_frame l' = lf_frame l) ∧ (∀ k, k ∉ mappings v → ls' !! k = ls !! k).
Lemma modified_close g w w' id v v' f p p' u u' ls' c : vm_inv g w → vpages w !! id = Some v → backing v = BResident f →
  resident_ok g id (leaves w) v f p u (contents g id) → pager v = None → at_page w id f v' p' u' c ls' (swap w) w' → same_page v v' → touched p p' →
  map_count p' = map_count p → (u' = QueueNone ↔ u = QueueNone) → ¬ clean ls' v' p' → (dirty p = true → dirty p' = true) → leaves_alike v (leaves w) ls' →
  page_ok c → vm_inv (set_contents id c g) w'.
Proof.
  intros Hi Hv Hb Hr Hpg Hat (r & e & ->) Ht Hm Hu Hd Hdd [Hl1 Hl2] Hok. destruct (resident_open g w id v f Hi Hv Hb) as (p0 & u0 & _ & _ & Hj & _ & Hk & _).
  pose proof (res_mapped _ _ _ _ _ _ _ _ Hr) as [Hnd Hm0].
  eapply (resident_close g (set_contents id c g)); [done|done|done|done|done|done|intros i ?; by apply set_contents_other|done|by rewrite set_contents_at|done| |].
  - destruct Hr. split; rewrite ?set_contents_at; try done; cbn [mappings write_windows resident with_executable with_reject pins set_contents].
    + by apply (owned_touched id v _ p).
    + by rewrite (touch_busy _ _ Ht).
    + by rewrite Hm.
    + by rewrite (touch_wires _ _ Ht).
    + by rewrite Hu, (touch_wires _ _ Ht).
    + split; [done|]. intros k Hk'. destruct (Hm0 k Hk') as (l & Hl & E1 & E2). destruct (Hl1 k l Hk' Hl) as (l' & ? & ? & ?). exists l'. split_and!; congruence.
    + unfold backed in *. cbn [pager resident_swap with_executable with_reject slots set_contents]. rewrite Hpg in *.
      destruct (resident_swap v); [|done]. destruct res_backed as (page & Hs & _). exists page. done.
    + destruct res_windows as [? Hw]. split; [done|]. intros ?. by apply Hdd, Hw.
  - split.
    + intros k l Hne. destruct (decide (k ∈ mappings v)) as [Hk'|Hk']; [|by rewrite Hl2]. destruct (Hm0 k Hk') as (l0 & Hl0 & E & _). destruct (Hl1 k l0 Hk' Hl0) as (l1 & Hl1' & E1 & _).
      split; intros; destruct Hne; congruence.
    + intros k l E Hl. cbn [mappings with_executable with_reject]. destruct (decide (k ∈ mappings v)) as [|Hk']; [done|].
      rewrite Hl2 in Hl by done. destruct (vm_leaves _ _ Hi _ _ Hl) as (v1 & Hv1 & Hk1). rewrite E, Hv in Hv1. congruence.
Qed.

(** The leaf of a mapping belongs to a resident page. *)
Lemma leaf_open g w k l : vm_inv g w → leaves w !! k = Some l → ∃ v p u, vpages w !! lf_page l = Some v ∧ backing v = BResident (lf_frame l) ∧ k ∈ mappings v ∧
  at_page w (lf_page l) (lf_frame l) v p u (contents g (lf_page l)) (leaves w) (swap w) w ∧
  resident_ok g (lf_page l) (leaves w) v (lf_frame l) p u (contents g (lf_page l)) ∧ page_ok (contents g (lf_page l)).
Proof.
  intros Hi Hl. destruct (vm_leaves _ _ Hi _ _ Hl) as (v & Hv & Hk). destruct (backing v) as [| |f|h|loc wt] eqn:Hb.
  3:{ destruct (resident_open g w _ v f Hi Hv Hb) as (p & u & Hat & Hr & _ & Hok & _). destruct (proj2 (res_mapped _ _ _ _ _ _ _ _ Hr) k Hk) as (l' & Hl' & _ & Hf).
      rewrite Hl in Hl'. injection Hl' as <-. subst f. by exists v, p, u. }
  all: rewrite (away_mappings g w _ v Hi Hv) in Hk by (intros ?; congruence); by apply elem_of_nil in Hk.
Qed.
Lemma user_store_spec g w k l off bytes o : vm_inv g w → leaves w !! k = Some l → has_prot (lf_protection l) WRITE = true →
  Forall is_byte bytes → (off + length bytes ≤ PAGE_BYTES)%nat →
  wp (user_store k off bytes) (λ _ w' o', o' = o ∧ vm_inv (set_contents (lf_page l) (copy_into (contents g (lf_page l)) off bytes) g) w') w o.
Proof.
  intros Hi Hl Hp Hby Hoff. destruct (leaf_open g w k l Hi Hl) as (v & p & u & Hv & Hb & Hk & Hat & Hr & Hok). unfold user_store. wp_steps. rewrite Hp. wp_steps.
  apply (wp_put_leaf Hat). intros w2 Hw2. apply wp_bind, (wp_frame_bytes Hw2). apply (wp_set_bytes Hw2); [apply (own_state _ _ _ (res_owned _ _ _ _ _ _ _ _ Hr))|].
  intros w3 Hw3. split; [done|]. eapply (modified_close g w w3 (lf_page l) v v (lf_frame l) p p u u); try done.
  - pose proof (res_backed _ _ _ _ _ _ _ _ Hr) as Hbk. unfold backed in Hbk. destruct (pager v); [|done]. destruct Hbk as (_ & _ & _ & _ & _ & Hw). specialize (Hw k l Hk Hl). congruence.
  - apply same_page_refl.
  - intros [_ Hc]. specialize (Hc k _ Hk (lookup_insert_eq _ _ _)). done.
  - split.
    + intros k' l' Hk' Hl'. destruct (decide (k' = k)) as [->|Hne]; [|exists l'; by rewrite lookup_insert_ne]. rewrite lookup_insert_eq. eexists. split; [done|]. cbn. split; congruence.
    + intros k' Hk'. apply lookup_insert_ne. by intros ->.
  - by apply page_ok_copy.
Qed.
Lemma user_load_spec g w k l off n o : vm_inv g w → leaves w !! k = Some l →
  wp (user_load k off n) (λ r w' o', o' = o ∧ vm_inv g w' ∧ r = slice (contents g (lf_page l)) off (off + n)) w o.
Proof.
  intros Hi Hl. destruct (leaf_open g w k l Hi Hl) as (v & p & u & Hv & Hb & Hk & Hat & Hr & Hok). unfold user_load. wp_steps.
  apply (wp_put_leaf Hat). intros w2 Hw2. apply wp_bind, (wp_frame_bytes Hw2), wp_ret. split_and!; [done| |done].
  eapply (calm_close g w w2 (lf_page l) v v (lf_frame l)); try done. 
  assert (∀ k' l', <[k:=mkLeaf (lf_page l) (lf_protection l) (lf_frame l) true (lf_dirty l)]> (leaves w) !! k' = Some l' → ∃ l0, leaves w !! k' = Some l0 ∧ lf_dirty l0 = lf_dirty l') as Hd.
  { intros k' l'. destruct (decide (k' = k)) as [->|Hne]; [rewrite lookup_insert_eq; intros [= <-]; by exists l|rewrite lookup_insert_ne by done; by exists l']. }
  split; try done.
  - apply same_page_refl.
  - intros [Hdp Hc]. split; [done|]. intros k' l' Hk' Hl'. destruct (decide (k' = k)) as [->|Hne].
    + specialize (Hc k _ Hk (lookup_insert_eq _ _ _)). cbn in Hc. congruence.
    + apply (Hc k'); [done|]. by rewrite lookup_insert_ne.
  - intros _ [Hdp Hc]. split; [done|]. intros k' l' Hk' Hl'. destruct (Hd k' l' Hl') as (l0 & Hl0 & <-). by apply (Hc k').
  - intros k' l' Hk' Hl'. destruct (decide (k' = k)) as [->|Hne]; [|exists l'; by rewrite lookup_insert_ne]. rewrite lookup_insert_eq. eexists. split; [done|]. cbn. split_and!; congruence.
  - intros k' Hk'. apply lookup_insert_ne. by intros ->.
Qed.

(** ** Writes of the kernel *)

Lemma queue_after g id ls v f p u bytes : resident_ok g id ls v f p u bytes → (if wire_count p =? 0 then QueueActive else u) = QueueNone ↔ u = QueueNone.
Proof. intros Hr. rewrite (res_queue _ _ _ _ _ _ _ _ Hr). destruct (Z.eqb_spec (wire_count p) 0) as [E|E]; [by split|]. by rewrite (res_queue _ _ _ _ _ _ _ _ Hr). Qed.
Lemma leaves_alike_refl v ls : leaves_alike v ls ls.
Proof. split; [|done]. intros k l _ Hl. by exists l. Qed.
Lemma dirty_not_clean ls v p : dirty p = true → ¬ clean ls v p.
Proof. intros Hd [Hc _]. congruence. Qed.
Lemma write_resident_spec who g w id v f off bytes o : who_ok who → vm_inv g w → vpages w !! id = Some v → backing v = BResident f → pager v = None →
  Forall is_byte bytes → (off + length bytes ≤ PAGE_BYTES)%nat →
  wp (write_resident who id f off bytes) (λ _ w' o', o' = o ∧ vm_inv (set_contents id (copy_into (contents g id) off bytes) g) w' ∧
    (∃ v', vpages w' !! id = Some v' ∧ same_page v v') ∧ ∀ i, i ≠ id → vpages w' !! i = vpages w !! i) w o.
Proof.
  intros Hwho Hi Hv Hb Hpg Hby Hoff. destruct (resident_open g w id v f Hi Hv Hb) as (p & u & Hat & Hr & _ & Hok & _). unfold write_resident, mark_modified.
  apply wp_bind, (wp_update_frame Hat); [apply mark_referenced_update|]. intros w1 Hw1. apply wp_bind, (wp_update_frame Hw1); [apply mark_dirty_update|]. intros w2 Hw2.
  apply wp_bind, (wp_frame_bytes Hw2). apply wp_bind, (wp_set_bytes Hw2); [apply (own_state _ _ _ (res_owned _ _ _ _ _ _ _ _ Hr))|]. intros w3 Hw3.
  apply wp_bind, (wp_update_vp Hw3). intros w4 Hw4. apply (wp_activate_frame Hw4); [done|]. intros w5 Hw5. split_and!; [done| | |].
  - eapply (modified_close g w w5 id v _ f p); [done..|exact Hw5|apply same_page_reject| |done|exact (queue_after _ _ _ _ _ _ _ _ Hr)|by apply dirty_not_clean, dirty_dirty|by intros; apply dirty_dirty| |].
    + etrans; [apply touched_referenced|apply touched_dirty].
    + apply leaves_alike_refl.
    + by apply page_ok_copy.
  - eexists. split; [apply (at_page_lookup Hw5)|apply same_page_reject].
  - intros i Hne. rewrite (at_vpages _ _ _ _ _ _ _ _ _ _ Hw5). by apply lookup_insert_ne.
Qed.
Lemma validate_range_ok offset n : is_u64 offset → is_u64 n → validate_range offset n = Ok () → (Z.to_nat offset + Z.to_nat n ≤ PAGE_BYTES)%nat.
Proof.
  unfold validate_range, checked_add, is_u64. intros [? ?] [? ?]. destruct (decide _); [|done]. destruct (4096 <? offset + n) eqn:E2; [done|]. intros _. unfold PAGE_BYTES. lia.
Qed.
(** [zero_locked] on a page of zeros or a resident one. *)
Lemma zero_locked_spec who g w id v offset n o : who_ok who → vm_inv g w → vpages w !! id = Some v → pager v = None → is_u64 offset → is_u64 n →
  wp (zero_locked who id offset n) (λ r w' o', o' = o ∧
    match r with
    | Ok _ => vm_inv (set_contents id (copy_into (contents g id) (Z.to_nat offset) (replicate (Z.to_nat n) 0)) g) w'
    | Err _ => w' = w
    end) w o.
Proof.
  intros Hwho Hi Hv Hpg Ho Hn. unfold zero_locked. destruct (validate_range offset n) as [[]|e] eqn:Er; [|by wp_steps]. apply validate_range_ok in Er; [|done..].
  apply wp_bind, (wp_find_vp w id v _ _ Hv). destruct (backing v) as [| |f|h|loc wt] eqn:Hb; try by wp_steps.
  - apply wp_ret. split; [done|]. destruct (vm_pages _ _ Hi _ _ Hv) as (_ & _ & Hz). rewrite Hb in Hz. destruct Hz as (_ & _ & Hc & _).
    replace (set_contents id (copy_into (contents g id) (Z.to_nat offset) (replicate (Z.to_nat n) 0)) g) with (set_contents id (contents g id) g).
    + eapply (vm_inv_change (λ _, False)); [done|apply (vm_pol _ _ Hi)|apply (vm_swap _ _ Hi)| |done|done|done|done|done|apply (vm_queues _ _ Hi)].
      intros i _. split; [done|]. unfold ghost_same. cbn. by destruct (decide (i = id)) as [->|].
    + f_equal. rewrite Hc. unfold copy_into, zero_frame. rewrite length_replicate, take_replicate, drop_replicate, <- !replicate_add. f_equal. unfold PAGE_BYTES in *. lia.
  - apply wp_bind. eapply wp_mono; [by eapply write_resident_spec; [..|apply Forall_replicate; unfold is_byte; lia|by rewrite length_replicate]|].
    intros [] w' o' (-> & ? & _). by wp_steps.
Qed.

(** ** Handles *)

Lemma live_take g id x : slots g !! id = Some x → (map_to_list (slots g)).*2 ≡ₚ x :: (map_to_list (slots (set_slot_of id None g))).*2.
Proof. intros Hx. change (slots (set_slot_of id None g)) with (delete id (slots g)). by rewrite <- (map_to_list_delete _ _ _ Hx). Qed.
Lemma live_add g id x : slots g !! id = None → (map_to_list (slots (set_slot_of id (Some x) g))).*2 ≡ₚ x :: (map_to_list (slots g)).*2.
Proof. intros Hx. change (slots (set_slot_of id (Some x) g)) with (<[id:=x]> (slots g)). by rewrite map_to_list_insert. Qed.
Lemma live_in g id x : slots g !! id = Some x → x ∈ (map_to_list (slots g)).*2.
Proof. intros Hx. apply list_elem_of_fmap. exists (id, x). split; [done|]. by apply elem_of_map_to_list. Qed.
Lemma set_slot_at id x g : slots (set_slot_of id x g) !! id = x.
Proof. apply lookup_partial_alter_eq. Qed.
Lemma set_slot_other id i x g : i ≠ id → ghost_same i g (set_slot_of id x g).
Proof. intros Hne. unfold ghost_same. cbn. by rewrite lookup_partial_alter_ne. Qed.
(** The handle of a page of [g] is freed. *)
Lemma free_handle g id h page sw o : swap_inv (map_to_list (slots g)).*2 sw → slots g !! id = Some (h, page) →
  wp (swap_free h) (λ _ sw' o', o' = o ∧ swap_inv (map_to_list (slots (set_slot_of id None g))).*2 sw') sw o.
Proof. intros Hi Hs. eapply swap_free_spec. eapply swap_inv_perm; [by apply live_take|done]. Qed.

Lemma drop_swap_spec g w id v o : vm_inv g w → vpages w !! id = Some v →
  wp (drop_swap_locked id) (λ r w' o', o' = o ∧
    match r with
    | true => vm_inv (set_slot_of id None g) w' ∧ is_Some (resident_swap v) ∧ vpages w' = <[id:=with_resident_swap None v]> (vpages w) ∧ only_page id w w'
    | false => w' = w
    end) w o.
Proof.
  intros Hi Hv. unfold drop_swap_locked. apply wp_bind, (wp_find_vp w id v _ _ Hv). unfold frame_locked. destruct (backing v) as [| |f|h|loc wt] eqn:Hb; try by wp_steps.
  destruct (resident_swap v) as [h|] eqn:Eh; [|by wp_steps]. destruct (resident_open g w id v f Hi Hv Hb) as (p & u & Hat & Hr & Hj & Hok & Hk & Hfree).
  pose proof (res_backed _ _ _ _ _ _ _ _ Hr) as Hbk. unfold backed in Hbk. destruct (pager v) eqn:Hpg; [by destruct Hbk as (_ & ? & _); congruence|]. rewrite Eh in Hbk.
  destruct Hbk as (page & Hs & _).
  apply wp_bind, (wp_update_vp Hat). intros w1 Hw1. apply wp_bind, (wp_on_swap Hw1). eapply wp_mono; [apply (free_handle g id h page); [apply (vm_swap _ _ Hi)|done]|].
  intros [] sw' o' [-> Hsw]. intros w2 Hw2. apply wp_bind, (wp_update_frame Hw2); [apply mark_dirty_update|]. intros w3 Hw3. apply wp_ret. split; [done|].
  split; [|split_and!; [done|apply (at_vpages _ _ _ _ _ _ _ _ _ _ Hw3)|by eapply at_only_page]].
  eapply (vm_inv_local g (set_slot_of id None g) w w3 id f v); [done|done|exact Hw3|done|intros i ?; by apply set_slot_other| |done| | |].
  - unfold page_holds. cbn [backing with_resident_swap owner_kind contents set_slot_of jobs]. rewrite Hb. split_and!; try done. eexists _, u. split; [apply (at_entry Hw3)|].
    rewrite (at_frame_bytes Hw3), (at_leaves _ _ _ _ _ _ _ _ _ _ Hw3). destruct Hr. split; try done; cbn [mappings with_resident_swap write_windows pins set_slot_of].
    + by apply (owned_touched id v _ p), res_owned; [apply touched_dirty|].
    + by rewrite (touch_busy _ _ (touched_dirty p)).
    + unfold backed. cbn [pager resident_swap with_resident_swap]. rewrite Hpg. apply set_slot_at.
    + split; [by destruct res_windows|]. intros _. apply dirty_dirty.
  - intros q. unfold frame_held. cbn [backing with_resident_swap]. rewrite Hb. by intros [= ->].
  - done.
  - by eapply leaves_local_same.
Qed.

(** ** Wires and windows *)

Lemma set_pins_at id n g : pins (set_pins id n g) id = n.
Proof. cbn. by rewrite decide_True. Qed.
Lemma set_pins_other id i n g : i ≠ id → ghost_same i g (set_pins id n g).
Proof. intros Hne. unfold ghost_same. cbn. by rewrite decide_False. Qed.
(** A new number of pins, with the wires and the queue that go with it. *)
Lemma repin_close g w w' id v f p u n u' : vm_inv g w → vpages w !! id = Some v → backing v = BResident f → resident_ok g id (leaves w) v f p u (contents g id) →
  at_page w id f v (set_wires n p) u' (contents g id) (leaves w) (swap w) w' → 0 ≤ write_windows v ≤ n → n ≤ 4294967295 → (u' = QueueNone ↔ n ≠ 0) →
  vm_inv (set_pins id n g) w'.
Proof.
  intros Hi Hv Hb Hr Hat Hn Hmax Hu. destruct (resident_open g w id v f Hi Hv Hb) as (p0 & u0 & _ & _ & Hj & Hok & Hk & _).
  eapply (resident_close g (set_pins id n g)); [done|done|done|exact Hat|done|done|intros i ?; by apply set_pins_other|done|done|done| |by eapply leaves_local_same].
  destruct Hr. split; rewrite ?set_pins_at; try done.
  - by destruct res_owned.
  - split; [done|lia].
  - split; [lia|]. by destruct res_windows.
Qed.
Lemma wire_page who g w id v f o : who_ok who → vm_inv g w → vpages w !! id = Some v → backing v = BResident f → pins g id < 4294967295 →
  wp (on_pol (wire f (place who))) (λ _ w' o', o' = o ∧ vm_inv (set_pins id (pins g id + 1) g) w' ∧ vpages w' = vpages w) w o.
Proof.
  intros Hwho Hi Hv Hb Hn. destruct (resident_open g w id v f Hi Hv Hb) as (p & u & Hat & Hr & _). destruct (res_pins _ _ _ _ _ _ _ _ Hr) as [Hw Hp].
  pose proof (res_windows _ _ _ _ _ _ _ _ Hr) as [Hwin _].
  apply (wp_wire Hat); [done|lia|]. intros w' Hw'. split; [done|]. split.
  - rewrite Hw in Hw'. eapply repin_close; [done..|exact Hw'|lia|lia|]. split; [lia|]. intros _. destruct (Z.eqb_spec (pins g id) 0) as [E|E]; [done|]. apply (res_queue _ _ _ _ _ _ _ _ Hr). lia.
  - rewrite (at_vpages _ _ _ _ _ _ _ _ _ _ Hw'). by rewrite insert_id.
Qed.
Lemma unwire_page who g w id v f o : who_ok who → vm_inv g w → vpages w !! id = Some v → backing v = BResident f → write_windows v < pins g id →
  wp (on_pol (unwire f (place who))) (λ _ w' o', o' = o ∧ vm_inv (set_pins id (pins g id - 1) g) w' ∧ vpages w' = vpages w) w o.
Proof.
  intros Hwho Hi Hv Hb Hn. destruct (resident_open g w id v f Hi Hv Hb) as (p & u & Hat & Hr & _). destruct (res_pins _ _ _ _ _ _ _ _ Hr) as [Hw Hp].
  pose proof (res_windows _ _ _ _ _ _ _ _ Hr) as [Hwin _].
  apply (wp_unwire Hat); [done|lia|]. intros w' Hw'. split; [done|]. split.
  - rewrite Hw in Hw'. eapply repin_close; [done..|exact Hw'|lia|lia|]. destruct (Z.eqb_spec (pins g id) 1) as [E|E]; [split; [done|lia]|]. rewrite (res_queue _ _ _ _ _ _ _ _ Hr). lia.
  - rewrite (at_vpages _ _ _ _ _ _ _ _ _ _ Hw'). by rewrite insert_id.
Qed.

(** A new number of windows. *)
Lemma rewindow_close g w w' id v f p u p' u' n r : vm_inv g w → vpages w !! id = Some v → backing v = BResident f → resident_ok g id (leaves w) v f p u (contents g id) →
  pager v = None → at_page w id f (with_windows n (with_reject r v)) p' u' (contents g id) (leaves w) (swap w) w' → touched p p' → map_count p' = map_count p →
  (u' = QueueNone ↔ u = QueueNone) → 0 ≤ n ≤ pins g id → (0 < n → dirty p' = true) → (dirty p = true → dirty p' = true) → vm_inv g w'.
Proof.
  intros Hi Hv Hb Hr Hpg Hat Ht Hm Hu Hn Hd Hdd. destruct (resident_open g w id v f Hi Hv Hb) as (p0 & u0 & _ & _ & Hj & Hok & Hk & _).
  eapply (resident_close g g); [done|done|done|exact Hat|done|done|done|done|done|done| |by eapply leaves_local_same].
  destruct Hr. split; try done; cbn [mappings with_windows with_reject write_windows].
  - by apply (owned_touched id v _ p).
  - by rewrite (touch_busy _ _ Ht).
  - by rewrite Hm.
  - by rewrite (touch_wires _ _ Ht).
  - by rewrite Hu, (touch_wires _ _ Ht).
  - unfold backed in *. cbn [pager resident_swap with_windows with_reject]. rewrite Hpg in *. destruct (resident_swap v); [|done]. destruct res_backed as (page & Hs & Hc).
    exists page. split; [done|]. intros [Hdp Hl]. apply Hc. split; [|done]. destruct (dirty p); [|done]. by rewrite Hdd in Hdp.
Qed.
Lemma open_window_spec who g w id v f o : who_ok who → vm_inv g w → vpages w !! id = Some v → backing v = BResident f → pager v = None → write_windows v < pins g id →
  wp (open_window who id) (λ _ w' o', o' = o ∧ vm_inv g w') w o.
Proof.
  intros Hwho Hi Hv Hb Hpg Hn. destruct (resident_open g w id v f Hi Hv Hb) as (p & u & Hat & Hr & _). pose proof (res_windows _ _ _ _ _ _ _ _ Hr) as [Hwin _].
  unfold open_window, record_hardware_state_locked. apply wp_bind, wp_bind, (wp_get_vp Hat). rewrite Hb. wp_steps. apply (wp_update_frame Hat); [apply mark_dirty_update|]. intros w1 Hw1.
  unfold mark_modified. apply wp_bind, (wp_update_vp Hw1). intros w2 Hw2. apply (wp_activate_frame Hw2); [done|]. intros w3 Hw3. apply (wp_update_vp Hw3). intros w4 Hw4.
  split; [done|]. eapply (rewindow_close g w w4 id v f p u); [done..|exact Hw4|apply touched_dirty|done|exact (queue_after _ _ _ _ _ _ _ _ Hr)| |by intros; apply dirty_dirty|by intros; apply dirty_dirty].
  cbn [write_windows with_reject]. lia.
Qed.
Lemma close_window_spec g w id v f o : vm_inv g w → vpages w !! id = Some v → backing v = BResident f → 0 < write_windows v →
  wp (close_window id) (λ _ w' o', o' = o ∧ vm_inv g w') w o.
Proof.
  intros Hi Hv Hb Hn. destruct (resident_open g w id v f Hi Hv Hb) as (p & u & Hat & Hr & _). pose proof (res_windows _ _ _ _ _ _ _ _ Hr) as [Hwin Hd].
  unfold close_window. apply (wp_update_vp Hat). intros w1 Hw1. split; [done|].
  eapply (rewindow_close g w w1 id v f p u p u (write_windows v - 1) (swap_reject_generation v)); try done; [|lia|intros _; by apply Hd].
  pose proof (res_backed _ _ _ _ _ _ _ _ Hr) as Hbk. unfold backed in Hbk. destruct (pager v); [|done]. destruct Hbk as (_ & _ & _ & _ & ? & _). lia.
Qed.
Lemma window_store_spec g w id v f off bytes o : vm_inv g w → vpages w !! id = Some v → backing v = BResident f → 0 < write_windows v →
  Forall is_byte bytes → (off + length bytes ≤ PAGE_BYTES)%nat →
  wp (window_store f off bytes) (λ _ w' o', o' = o ∧ vm_inv (set_contents id (copy_into (contents g id) off bytes) g) w') w o.
Proof.
  intros Hi Hv Hb Hn Hby Hoff. destruct (resident_open g w id v f Hi Hv Hb) as (p & u & Hat & Hr & _ & Hok & _). pose proof (res_windows _ _ _ _ _ _ _ _ Hr) as [Hwin Hd].
  unfold window_store. apply wp_bind, (wp_frame_bytes Hat). apply (wp_set_bytes Hat); [apply (own_state _ _ _ (res_owned _ _ _ _ _ _ _ _ Hr))|]. intros w1 Hw1. split; [done|].
  eapply (modified_close g w w1 id v v f p p u u); try done.
  - pose proof (res_backed _ _ _ _ _ _ _ _ Hr) as Hbk. unfold backed in Hbk. destruct (pager v); [|done]. destruct Hbk as (_ & _ & _ & _ & ? & _). lia.
  - apply same_page_refl.
  - by apply dirty_not_clean, Hd.
  - apply leaves_alike_refl.
  - by apply page_ok_copy.
Qed.

(** ** Queues *)

(** A resident page without wires is always on a queue already. *)
Lemma pin_neighbor_spec who g w id v o : vm_inv g w → vpages w !! id = Some v →
  wp (pin_neighbor_locked who id) (λ r w' o', o' = o ∧ w' = w ∧ r = frame_locked v) w o.
Proof.
  intros Hi Hv. unfold pin_neighbor_locked, frame_locked. apply wp_bind, (wp_find_vp w id v _ _ Hv). destruct (backing v) as [| |f|h|loc wt] eqn:Hb; try by wp_steps.
  destruct (resident_open g w id v f Hi Hv Hb) as (p & u & Hat & Hr & _). apply wp_bind, (wp_frame_entry Hat). intros e _ ->.
  change (loan_count e) with (loan_count (with_policy 0 e)). rewrite (own_loans _ _ _ (res_owned _ _ _ _ _ _ _ _ Hr)). cbn [Z.eqb negb].
  apply wp_bind, (wp_queue Hat). apply wp_bind.
  assert (bool_decide (u = QueueNone) && (wire_count e =? 0) = false) as ->.
  { case_bool_decide as Hu; [|done]. apply (res_queue _ _ _ _ _ _ _ _ Hr) in Hu. by apply Z.eqb_neq. }
  by wp_steps.
Qed.
Lemma deactivate_locked_spec who g w id v o : who_ok who → vm_inv g w → vpages w !! id = Some v →
  wp (deactivate_locked who id) (λ _ w' o', o' = o ∧ calm_page g id v w') w o.
Proof.
  intros Hwho Hi Hv. unfold deactivate_locked. apply wp_bind. eapply wp_mono; [by eapply harvest_page|]. intros [] w1 o1 (-> & (Hi1 & v1 & Hv1 & Hs1) & _).
  apply wp_bind, (wp_find_vp w1 id v1 _ _ Hv1). unfold frame_locked. destruct (backing v1) as [| |f|h|loc wt] eqn:Hb; try (apply wp_ret; split; [done|]; split; [done|by exists v1]).
  destruct (resident_open g w1 id v1 f Hi1 Hv1 Hb) as (p & u & Hat & Hr & _). apply wp_bind, (wp_frame_entry Hat). intros e _ Ee.
  destruct ((wire_count e =? 0) && (loan_count e =? 0)) eqn:Ec; [|apply wp_ret; split; [done|]; split; [done|by exists v1]].
  apply andb_true_iff in Ec as [Ew%Z.eqb_eq _]. apply (wp_deactivate_managed Hat); [done|]. intros w2 Hw2. split; [done|]. split.
  - eapply (calm_close g w1 w2 id v1 v1 f p _ u); [done..|exact Hw2|]. apply calm_frame; [apply same_page_refl|apply touched_unreferenced|done| |apply dirty_unreferenced].
    rewrite (res_queue _ _ _ _ _ _ _ _ Hr), Ee. cbn. split; [done|lia].
  - exists v1. split; [apply (at_page_lookup Hw2)|done].
Qed.
End ops.
