(* ===== verification/VmPageEnter.v ===== *)
(** * Logical pages: removing and entering mappings

    A leaf is removed in two steps: the entry goes first, and the reference to
    the frame after the processors have dropped their translations. In between
    the frame cannot be reclaimed. *)
From stdpp Require Import base list gmap sorting.
From S2P Require Import Prelude.
From S2P Require Import Bytes.
From S2P Require Import Index.
From S2P Require Import Phys.
From S2P Require Import PhysInv.
From S2P Require Import PhysOps.
From S2P Require Import PhysRuns.
From S2P Require Import Swap.
From S2P Require Import SwapSpec.
From S2P Require Import Policy.
From S2P Require Import PolicySpec.
From S2P Require Import VmFrames.
From S2P Require Import VmPage.
From S2P Require Import VmPageInv.
From S2P Require Import VmPageOps.
Open Scope rust_scope.

Section unmap.
Context `{Lz4Laws} {B : Type} `{SwapBackendLaws B} `{VmPagerLaws}.
Implicit Types (w : Vm B) (g : Ghost) (v : VmPage) (id : nat) (p : Page) (u : PageQueue) (f : Z) (k : Key) (l : Leaf) (ls : gmap Key Leaf) (o : oracle).

(** Ghosts that agree. *)
Lemma vm_inv_ext g g' w : slots g' = slots g → (∀ id, ghost_same id g g') → vm_inv g w → vm_inv g' w.
Proof.
  intros Hs Hg Hi. eapply (vm_inv_change (λ _, False)); [done|apply (vm_pol _ _ Hi)|rewrite Hs; apply (vm_swap _ _ Hi)|done|done|done|done|done|done|apply (vm_queues _ _ Hi)].
Qed.
Lemma set_unmapping_at id n g : unmapping (set_unmapping id n g) id = n.
Proof. cbn. by rewrite decide_True. Qed.
Lemma set_unmapping_other id i n g : i ≠ id → ghost_same i g (set_unmapping id n g).
Proof. intros Hne. unfold ghost_same. cbn. by rewrite decide_False. Qed.

(** ** One leaf *)

(** The page without the mapping [k], whose bits are in the frame. *)
Definition unmapped_at k v : VmPage := with_mappings (remove_key k (mappings v)) v.
Lemma unmapped_at_resident g id ls ls' v f p u bytes k l n : resident_ok g id ls v f p u bytes → k ∈ mappings v → ls !! k = Some l →
  (∀ k', k' ≠ k → ls' !! k' = ls !! k') → 0 ≤ n → 
  resident_ok (set_unmapping id n g) id ls' (unmapped_at k v) f
    (with_counts (wire_count (recorded l p)) (loan_count (recorded l p)) (Z.of_nat (length (mappings v)) - 1 + n) (recorded l p)) u bytes.
Proof.
  intros Hr Hk Hl Hls Hn. pose proof (touched_recorded l p) as Ht. set (p1 := with_counts _ _ _ (recorded l p)). destruct Hr. destruct res_mapped as [Hnd Hm].
  assert (touched p p1) as Ht1 by (etrans; [exact Ht|apply touched_maps]). assert (dirty p1 = dirty p || lf_dirty l) as Hd by exact (dirty_recorded l p).
  assert (∀ k', k' ∈ remove_key k (mappings v) ↔ k' ≠ k ∧ k' ∈ mappings v) as Hrk by (by apply remove_key_spec).
  assert (clean ls' (unmapped_at k v) p1 ↔ clean ls v p) as Hc.
  { unfold clean. rewrite Hd, orb_false_iff. cbn [mappings unmapped_at with_mappings]. split.
    - intros [[Hp Hdl] Hks]. split; [done|]. intros k' l' Hk' Hl'. destruct (decide (k' = k)) as [->|Hne]; [congruence|]. apply (Hks k'); [by apply Hrk|]. by rewrite Hls.
    - intros [Hp Hks]. split; [split; [done|by apply (Hks k l)]|]. intros k' l' [Hne Hk']%Hrk Hl'. rewrite Hls in Hl' by done. by apply (Hks k'). }
  split; try done; cbn [mappings unmapped_at with_mappings set_unmapping pins contents].
  - by apply (owned_touched id v _ p).
  - by rewrite (touch_busy _ _ Ht1).
  - rewrite set_unmapping_at. split; [|done]. pose proof (remove_key_length k (mappings v) Hk). cbn. lia.
  - by rewrite (touch_wires _ _ Ht1).
  - by rewrite res_queue, (touch_wires _ _ Ht1).
  - split; [by apply remove_key_nodup|]. intros k' [Hne Hk']%Hrk. rewrite Hls by done. by apply Hm.
  - unfold backed in *. cbn [pager unmapped_at with_mappings resident_swap mappings write_windows vp_index contents slots set_unmapping]. destruct (pager v); rewrite ?Hc.
    + destruct res_backed as (? & ? & ? & ? & ? & Hw). split_and!; try done. intros k' l' [Hne Hk']%Hrk Hl'. rewrite Hls in Hl' by done. by apply (Hw k').
    + destruct (resident_swap v); [|done]. destruct res_backed as (page & ? & ?). exists page. by rewrite Hc.
  - destruct res_windows as [? Hw]. split; [done|]. intros Hpos. rewrite Hd, (Hw Hpos). done.
Qed.
Lemma leaves_local_delete g w id v k l : vm_inv g w → vpages w !! id = Some v → leaves w !! k = Some l → lf_page l = id → leaves_local id (leaves w) (delete k (leaves w)) (unmapped_at k v).
Proof.
  intros Hi Hv Hl Hid. split.
  - intros k' l' Hne. destruct (decide (k' = k)) as [->|Hk]; [|by rewrite lookup_delete_ne]. rewrite lookup_delete_eq, Hl. split; [done|]. intros [= <-]. done.
  - intros k' l' E. destruct (decide (k' = k)) as [->|Hk]; [by rewrite lookup_delete_eq|]. rewrite lookup_delete_ne by done. intros Hl'.
    destruct (vm_leaves _ _ Hi _ _ Hl') as (v1 & Hv1 & Hk1). rewrite E, Hv in Hv1. injection Hv1 as <-. cbn [mappings unmapped_at with_mappings]. apply remove_key_spec; [|done].
    destruct (leaf_open g w k l Hi Hl) as (v2 & p & u & Hv2 & _ & _ & _ & Hr & _). rewrite Hid, Hv in Hv2. injection Hv2 as <-. apply (res_mapped _ _ _ _ _ _ _ _ Hr).
Qed.
Lemma unmap_one g w k l Q o : vm_inv g w → leaves w !! k = Some l →
  (∀ w', vm_inv (set_unmapping (lf_page l) (unmapping g (lf_page l) + 1) g) w' → leaves w' = delete k (leaves w) → Q () w' o) →
  wp (unmap_page k) (λ _ w1 o1, wp (remove_reverse_mapping (lf_page l) k) Q w1 o1) w o.
Proof.
  intros Hi Hl HQ. destruct (leaf_open g w k l Hi Hl) as (v & p & u & Hv & Hb & Hk & Hat & Hr & Hok). destruct (resident_open g w _ v _ Hi Hv Hb) as (_ & _ & _ & _ & Hj & _).
  eapply wp_unmap_page; [exact Hat|done|done|]. intros w1 Hw1. unfold remove_reverse_mapping. apply (wp_update_vp Hw1). intros w2 Hw2. fold (unmapped_at k v) in Hw2.
  apply HQ; [|apply (at_leaves _ _ _ _ _ _ _ _ _ _ Hw2)]. destruct (res_maps _ _ _ _ _ _ _ _ Hr) as [Hm Hun].
  eapply (resident_close g); [done|done|done|exact Hw2|done|done|intros i ?; by apply set_unmapping_other|done|done|done| |by eapply leaves_local_delete].
  pose proof (unmapped_at_resident g (lf_page l) (leaves w) (delete k (leaves w)) v (lf_frame l) p u _ k l (unmapping g (lf_page l) + 1) Hr Hk Hl) as Hr'.
  replace (recorded l p) with (with_counts (wire_count (recorded l p)) (loan_count (recorded l p)) (Z.of_nat (length (mappings v)) - 1 + (unmapping g (lf_page l) + 1)) (recorded l p)).
  - apply Hr'; [intros k' ?; by rewrite lookup_delete_ne|lia].
  - replace (Z.of_nat (length (mappings v)) - 1 + (unmapping g (lf_page l) + 1)) with (map_count (recorded l p)); [by destruct (recorded l p)|]. rewrite maps_recorded. lia.
Qed.
Lemma release_one g w id Q o : vm_inv g w → 0 < unmapping g id → (∀ w', vm_inv (set_unmapping id (unmapping g id - 1) g) w' → leaves w' = leaves w → Q () w' o) → wp (release_mapping id) Q w o.
Proof.
  intros Hi Hun HQ. destruct (vpages w !! id) as [v|] eqn:Hv; [|destruct (vm_gone _ _ Hi _ Hv) as (_ & _ & _ & ?); lia].
  destruct (backing v) as [| |f|h|loc wt] eqn:Hb; try (destruct (vm_pages _ _ Hi _ _ Hv) as (_ & _ & Hh); rewrite Hb in Hh; destruct Hh as ((_ & _ & _ & _ & _ & ?) & _); lia).
  destruct (resident_open g w id v f Hi Hv Hb) as (p & u & Hat & Hr & Hj & Hok & Hk & _). destruct (res_maps _ _ _ _ _ _ _ _ Hr) as [Hm _].
  apply (wp_release_mapping Hat); [by eapply res_pointer|lia|]. intros w' Hw'. apply HQ; [|apply (at_leaves _ _ _ _ _ _ _ _ _ _ Hw')].
  eapply (resident_close g); [done|done|done|exact Hw'|done|done|intros i ?; by apply set_unmapping_other|done|done|done| |by eapply leaves_local_same].
  destruct Hr. split; try done.
  - by apply (owned_touched id v _ p).
  - rewrite set_unmapping_at. cbn. lia.
Qed.

(** ** Ranges *)

Lemma unmapping_nonneg g w id : vm_inv g w → 0 ≤ unmapping g id.
Proof.
  intros Hi. destruct (vpages w !! id) as [v|] eqn:Hv; [|by destruct (vm_gone _ _ Hi _ Hv) as (_ & _ & _ & ->)]. destruct (vm_pages _ _ Hi _ _ Hv) as (_ & _ & Hb).
  destruct (backing v) as [| |f|h|loc wt]; try (by destruct Hb as ((_ & _ & _ & _ & _ & ->) & _)). destruct Hb as (_ & p & u & _ & Hr). by destruct (res_maps _ _ _ _ _ _ _ _ Hr).
Qed.
Definition add_unmapping (ids : list nat) g : Ghost :=
  mkGhost (jobs g) (slots g) (pins g) (contents g) (λ i, unmapping g i + Z.of_nat (count_occ Nat.eq_dec ids i)).
Lemma unmap_batch_spec ks : ∀ g w o, vm_inv g w → NoDup ks → (∀ k, k ∈ ks → is_Some (leaves w !! k)) →
  wp (unmap_batch ks) (λ ids w' o', o' = o ∧ length ids = length ks ∧ (∀ k, leaves w' !! k = if decide (k ∈ ks) then None else leaves w !! k) ∧ vm_inv (add_unmapping ids g) w') w o.
Proof.
  induction ks as [|k ks IH]; intros g w o Hi Hnd Hks; cbn [unmap_batch].
  - apply wp_ret. split_and!; try done. eapply (vm_inv_ext g); [done| |done]. intros i. split_and!; try done. cbn. lia.
  - apply NoDup_cons in Hnd as [Hk Hnd]. destruct (Hks k) as [l Hl]; [by left|]. wp_steps.
    eapply wp_mono; [apply (unmap_one g w k l (λ _ w' o', o' = o ∧ vm_inv (set_unmapping (lf_page l) (unmapping g (lf_page l) + 1) g) w' ∧ leaves w' = delete k (leaves w))); [done..|]; done|].
    intros [] w1 o1 Hrest. apply wp_bind. eapply wp_mono; [exact Hrest|]. intros [] w2 o2 (-> & Hi2 & Hls2). apply wp_bind.
    eapply wp_mono; [apply IH; [exact Hi2|done|]|].
    + intros k' Hk'. rewrite Hls2, lookup_delete_ne by (intros ->; done). apply Hks. by right.
    + intros ids w3 o3 (-> & Hlen & Hls3 & Hi3). apply wp_ret. split_and!; [done|cbn; lia| |].
      * intros k'. rewrite Hls3, Hls2. destruct (decide (k' = k)) as [->|Hne].
        -- rewrite lookup_delete_eq. rewrite (decide_True (P := k ∈ k :: ks)) by (by left). by case_decide.
        -- rewrite lookup_delete_ne by done. by rewrite (decide_ext (k' ∈ ks) (k' ∈ k :: ks)) by (rewrite elem_of_cons; tauto).
      * eapply vm_inv_ext; [| |exact Hi3]; [done|]. intros i. split_and!; try done. cbn [unmapping add_unmapping set_unmapping count_occ]. destruct (Nat.eq_dec (lf_page l) i) as [->|Hne].
        -- rewrite decide_True by done. lia.
        -- rewrite decide_False by congruence. done.
Qed.
Lemma release_each_spec ids : ∀ g w o, vm_inv (add_unmapping ids g) w → (∀ i, 0 ≤ unmapping g i) → wp (release_each ids) (λ _ w' o', o' = o ∧ vm_inv g w' ∧ leaves w' = leaves w) w o.
Proof.
  induction ids as [|id ids IH]; intros g w o Hi Hn; cbn [release_each].
  - apply wp_ret. split_and!; try done. eapply vm_inv_ext; [| |exact Hi]; [done|]. intros i. split_and!; try done. cbn. lia.
  - apply wp_bind. eapply release_one; [exact Hi|cbn [unmapping add_unmapping count_occ]; specialize (Hn id); destruct (Nat.eq_dec id id); [lia|done]|]. intros w1 Hi1 Hls1.
    rewrite <- Hls1. apply IH; [|done]. eapply vm_inv_ext; [| |exact Hi1]; [done|]. intros i. split_and!; try done. cbn [unmapping add_unmapping set_unmapping count_occ].
    destruct (decide (i = id)) as [->|Hne]; [destruct (Nat.eq_dec id id); [lia|done]|]. destruct (Nat.eq_dec id i); [congruence|done].
Qed.
Lemma nodup_filter_fst {A C} (P : A * C → Prop) `{!∀ x, Decision (P x)} (xs : list (A * C)) : NoDup xs.*1 → NoDup (filter P xs).*1.
Proof.
  induction xs as [|x xs IH]; [done|]. rewrite fmap_cons. intros [Hx Hnd]%NoDup_cons. rewrite filter_cons. case_decide; [|by apply IH]. rewrite fmap_cons. apply NoDup_cons. split; [|by apply IH].
  intros (y & E & [_ Hy]%list_elem_of_filter)%list_elem_of_fmap. apply Hx. rewrite E. by apply list_elem_of_fmap_2.
Qed.
Lemma range_keys_spec m start end_ ls : NoDup (range_keys m start end_ ls) ∧ ∀ k, k ∈ range_keys m start end_ ls ↔ k.1 = m ∧ start ≤ k.2 < end_ ∧ is_Some (ls !! k).
Proof.
  unfold range_keys. set (xs := filter _ (map_to_list ls)). assert (∀ k l, (k, l) ∈ xs ↔ (k.1 = m ∧ start ≤ k.2 < end_) ∧ ls !! k = Some l) as Hxs.
  { intros k l. unfold xs. by rewrite list_elem_of_filter, elem_of_map_to_list. }
  assert (NoDup xs.*1) as Hnd1.
  { unfold xs. apply nodup_filter_fst, NoDup_fst_map_to_list. }
  assert (NoDup ((λ kl : Key * Leaf, kl.1.2) <$> xs)) as Hnd2.
  { assert ((λ kl : Key * Leaf, kl.1.2) <$> xs = snd <$> xs.*1) as -> by (by rewrite <- list_fmap_compose).
    apply NoDup_fmap_2_strong; [|done]. intros [m1 a1] [m2 a2] H1' H2' E. cbn in E. subst a2. f_equal.
    apply list_elem_of_fmap in H1' as ([k1 l1] & E1 & K1). apply list_elem_of_fmap in H2' as ([k2 l2] & E2 & K2). cbn in E1, E2. subst. apply Hxs in K1 as [[E1 _] _]. apply Hxs in K2 as [[E2 _] _]. cbn in *. congruence. }
  split.
  - apply NoDup_fmap_2; [by intros a b [= ->]|]. by rewrite merge_sort_Permutation.
  - intros [m' a]. rewrite list_elem_of_fmap. setoid_rewrite merge_sort_Permutation. setoid_rewrite list_elem_of_fmap. split.
    + intros (a' & [= -> ->] & ([[m1 a1] l] & -> & Hin)). apply Hxs in Hin as [[? ?] Hl]. cbn in *. subst. split_and!; [done|lia|lia|by eexists].
    + cbn. intros (-> & Hr & [l Hl]). exists a. split; [done|]. exists ((m, a), l). split; [done|]. by apply Hxs.
Qed.

Definition in_range (m : nat) (start end_ : Z) k : Prop := k.1 = m ∧ start ≤ k.2 < end_.
#[export] Instance in_range_dec m start end_ k : Decision (in_range m start end_ k).
Proof. unfold in_range. apply _. Defined.
Lemma pmap_remove_loop_spec m start end_ fuel : ∀ g w o, vm_inv g w → (length (range_keys m start end_ (leaves w)) < INLINE * fuel)%nat →
  wp (pmap_remove_loop fuel m start end_) (λ _ w' o', o' = o ∧ vm_inv g w' ∧ ∀ k, leaves w' !! k = if decide (in_range m start end_ k) then None else leaves w !! k) w o.
Proof.
  induction fuel as [|fuel IH]; intros g w o Hi Hf; [lia|]. cbn [pmap_remove_loop]. wp_steps. set (keys := range_keys m start end_ (leaves w)) in *.
  destruct (range_keys_spec m start end_ (leaves w)) as [Hnd Hin]. fold keys in Hnd, Hin. set (ks := take INLINE keys).
  assert (∀ k, k ∈ ks → k ∈ keys) as Hsub by (intros k Hk; eapply subseteq_take; exact Hk).
  eapply wp_mono; [apply (unmap_batch_spec ks g); [done|eapply sublist_NoDup; [exact Hnd|apply sublist_take]|by intros k [_ [_ ?]]%Hsub%Hin]|].
  intros ids w1 o1 (-> & Hlen & Hls1 & Hi1). apply wp_bind.
  eapply wp_mono; [apply release_each_spec; [exact Hi1|intros i; by eapply unmapping_nonneg]|]. intros [] w2 o2 (-> & Hi2 & Hls2).
  assert (∀ k, leaves w2 !! k = if decide (k ∈ ks) then None else leaves w !! k) as Hls by (intros k; by rewrite Hls2). clear Hls1 Hls2 Hi1.
  destruct (Nat.ltb_spec (length ids) INLINE) as [Hlt|Hge].
  - apply wp_ret. split_and!; try done. intros k. rewrite Hls. assert (ks = keys) as -> by (unfold ks; apply take_ge; rewrite Hlen in Hlt; unfold ks in Hlt; rewrite length_take in Hlt; lia).
    destruct (decide (k ∈ keys)) as [Hk|Hk]; [by rewrite decide_True by (by apply Hin in Hk as (? & ? & _))|]. destruct (decide (in_range m start end_ k)) as [[? ?]|]; [|done].
    apply eq_None_not_Some. intros Hs. apply Hk, Hin. done.
  - eapply wp_mono; [apply (IH g); [done|]|].
    + destruct (range_keys_spec m start end_ (leaves w2)) as [Hnd2 Hin2]. assert (length (range_keys m start end_ (leaves w2)) ≤ length (drop INLINE keys))%nat as Hle.
      { apply submseteq_length, NoDup_submseteq; [done|]. intros k (? & ? & Hs)%Hin2. rewrite Hls in Hs. destruct (decide (k ∈ ks)) as [|Hk]; [by destruct Hs|].
        assert (k ∈ keys) as Hk2 by (by apply Hin). rewrite <- (take_drop INLINE keys), elem_of_app in Hk2. by destruct Hk2. }
      rewrite length_drop in Hle. unfold ks in Hlen. rewrite length_take in Hlen. unfold INLINE in *. lia.
    + intros [] w3 o3 (-> & Hi3 & Hls3). split_and!; try done. intros k. rewrite Hls3. destruct (decide (in_range m start end_ k)) as [|Hr]; [done|]. rewrite Hls.
      rewrite decide_False; [done|]. intros Hk. apply Hr. by apply Hsub, Hin in Hk as (? & ? & _).
Qed.
Lemma pmap_remove_spec m start n g w o : vm_inv g w →
  wp (pmap_remove m start n) (λ r w' o', o' = o ∧
    match checked_page_end (align_page start) n with
    | Ok end_ => r = Ok () ∧ vm_inv g w' ∧ ∀ k, leaves w' !! k = if decide (in_range m (align_page start) end_ k) then None else leaves w !! k
    | Err e => r = Err e ∧ w' = w
    end) w o.
Proof.
  intros Hi. unfold pmap_remove. destruct (checked_page_end (align_page start) n) as [end_|e]; [|by wp_steps]. wp_steps.
  eapply wp_mono; [apply (pmap_remove_loop_spec m (align_page start) end_ _ g); [done|]|intros [] w' o' (-> & ? & ?); by wp_steps].
  destruct (range_keys_spec m (align_page start) end_ (leaves w)) as [Hnd Hin]. assert (length (range_keys m (align_page start) end_ (leaves w)) ≤ size (leaves w))%nat.
  { rewrite <- length_map_to_list, <- (length_fmap fst (map_to_list (leaves w))). apply submseteq_length, NoDup_submseteq; [done|]. intros k (_ & _ & l & Hl)%Hin.
    apply list_elem_of_fmap. exists (k, l). split; [done|]. by apply elem_of_map_to_list. }
  unfold INLINE. lia.
Qed.
(** The mappings of a pmap that goes away. *)
Lemma pmap_drop_spec m g w o : vm_inv g w →
  wp (pmap_drop m) (λ _ w' o', o' = o ∧ vm_inv g w' ∧ ∀ k, leaves w' !! k = if decide (in_range m 0 two64 k) then None else leaves w !! k) w o.
Proof.
  intros Hi. unfold pmap_drop. wp_steps. destruct (range_keys_spec m 0 two64 (leaves w)) as [Hnd Hin].
  eapply wp_mono; [apply (unmap_batch_spec _ g); [done|done|by intros k (_ & _ & ?)%Hin]|]. intros ids w1 o1 (-> & _ & Hls & Hi1).
  eapply wp_mono; [apply release_each_spec; [exact Hi1|intros i; by eapply unmapping_nonneg]|]. intros [] w2 o2 (-> & Hi2 & Hls2). split_and!; try done.
  intros k. rewrite Hls2, Hls. destruct (decide (k ∈ range_keys m 0 two64 (leaves w))) as [Hk|Hk]; [by rewrite decide_True by (by apply Hin in Hk as (? & ? & _))|].
  destruct (decide (in_range m 0 two64 k)) as [[? ?]|]; [|done]. apply eq_None_not_Some. intros Hs. apply Hk, Hin. done.
Qed.

(** ** Protections *)

Lemma protect_one k prot g w o l : vm_inv g w → leaves w !! k = Some l → (has_prot prot WRITE = true → has_prot (lf_protection l) WRITE = true) →
  wp (protect_leaf k prot) (λ _ w' o', o' = o ∧ vm_inv g w' ∧ vpages w' = vpages w ∧ leaves w' = <[k:=mkLeaf (lf_page l) prot (lf_frame l) (lf_accessed l) (lf_dirty l)]> (leaves w)) w o.
Proof.
  intros Hi Hl Hp. destruct (leaf_open g w k l Hi Hl) as (v & p & u & Hv & Hb & Hk & Hat & Hr & _). unfold protect_leaf. wp_steps. apply (wp_put_leaf Hat). intros w' Hw'.
  split_and!; [done| | |apply Hw'].
  - eapply calm_close; [done|done|done|done|exact Hw'|]. split; try done; [apply same_page_refl| | | |].
    + intros [Hd Hc]. split; [done|]. intros k' l' Hk' Hl'. destruct (decide (k' = k)) as [->|Hne]; [|apply (Hc k' l' Hk'); by rewrite lookup_insert_ne].
      rewrite Hl in Hl'. injection Hl' as <-. exact (Hc k _ Hk' (lookup_insert_eq _ _ _)).
    + intros _ [Hd Hc]. split; [done|]. intros k' l' Hk' Hl'. destruct (decide (k' = k)) as [->|Hne]; [|apply (Hc k' l' Hk'); by rewrite lookup_insert_ne in Hl'].
      rewrite lookup_insert_eq in Hl'. injection Hl' as <-. by apply (Hc k l).
    + intros k' l' Hk' Hl'. destruct (decide (k' = k)) as [->|Hne]; [|exists l'; by rewrite lookup_insert_ne].
      rewrite Hl in Hl'. injection Hl' as <-. eexists. split; [apply lookup_insert_eq|]. done.
    + intros k' Hk'. rewrite lookup_insert_ne; [done|]. by intros ->.
  - rewrite (at_vpages _ _ _ _ _ _ _ _ _ _ Hw'). by apply insert_id.
Qed.
Lemma land_keeps_bit (q m b : Z) : has_prot (Z.land q m) b = true → has_prot q b = true.
Proof.
  unfold has_prot. rewrite !Z.eqb_eq. intros E. apply Z.bits_inj'. intros n Hn. apply (f_equal (λ x, Z.testbit x n)) in E. rewrite !Z.land_spec in *.
  destruct (Z.testbit q n), (Z.testbit m n), (Z.testbit b n); done.
Qed.
Lemma no_write_bit (q : Z) : has_prot (Z.land q (u64_not WRITE)) WRITE = false.
Proof. unfold has_prot. rewrite <- Z.land_assoc. replace (Z.land (u64_not WRITE) WRITE) with 0 by done. by rewrite Z.land_0_r. Qed.
(** A leaf that lost permissions at most. *)
Definition weaker l l' : Prop := lf_page l' = lf_page l ∧ (has_prot (lf_protection l') WRITE = true → lf_protection l' = lf_protection l).
Definition leaves_weaker ls (ls' : gmap Key Leaf) : Prop := ∀ k l', ls' !! k = Some l' → ∃ l, ls !! k = Some l ∧ weaker l l'.
Lemma leaves_weaker_trans ls1 ls2 ls3 : leaves_weaker ls1 ls2 → leaves_weaker ls2 ls3 → leaves_weaker ls1 ls3.
Proof.
  intros H12 H23 k l3 Hl3. destruct (H23 k l3 Hl3) as (l2 & Hl2 & E & Hw). destruct (H12 k l2 Hl2) as (l1 & Hl1 & E1 & Hw1). exists l1. split; [done|]. split; [congruence|].
  intros Hp. rewrite Hw by done. apply Hw1. by rewrite <- Hw.
Qed.
Lemma leaves_weaker_insert ls k l l' : ls !! k = Some l → weaker l l' → leaves_weaker ls (<[k:=l']> ls).
Proof. intros Hl Hw k2 l2. destruct (decide (k2 = k)) as [->|Hne]; [rewrite lookup_insert_eq; intros [= <-]; by exists l|]. rewrite lookup_insert_ne by done. by exists l2. Qed.
Lemma leaves_weaker_refl ls : leaves_weaker ls ls.
Proof. intros k l Hl. by exists l. Qed.
(** The page of a writable leaf has an open write window. *)
Definition write_windowed (pages : gmap nat VmPage) l : Prop := has_prot (lf_protection l) WRITE = true → ∃ v, pages !! lf_page l = Some v ∧ write_windows v ≠ 0.
Lemma windowed_weaker pages l l' : weaker l l' → write_windowed pages l → write_windowed pages l'.
Proof. intros [E Hw] Hl Hp. rewrite E. apply Hl. by rewrite <- Hw. Qed.
Lemma write_protect_step g w k l o : vm_inv g w → leaves w !! k = Some l →
  wp (let* v := get_vp (lf_page l) in
      if negb (has_prot (lf_protection l) WRITE) || negb (write_windows v =? 0) then ret ()
      else protect_leaf k (Z.land (lf_protection l) (u64_not WRITE)))
    (λ _ w' o', o' = o ∧ vm_inv g w' ∧ vpages w' = vpages w ∧ (∀ k', is_Some (leaves w !! k') → is_Some (leaves w' !! k')) ∧
       leaves_weaker (leaves w) (leaves w') ∧ ∀ l', leaves w' !! k = Some l' → write_windowed (vpages w) l') w o.
Proof.
  intros Hi Hl. destruct (vm_leaves _ _ Hi _ _ Hl) as (v & Hv & _). apply wp_bind, (wp_find_vp w _ v _ _ Hv).
  destruct (has_prot (lf_protection l) WRITE) eqn:Hp; cbn [negb orb].
  2:{ apply wp_ret. split_and!; try done; [apply leaves_weaker_refl|]. intros l' Hl'. rewrite Hl in Hl'. injection Hl' as <-. intros ?. congruence. }
  destruct (Z.eqb_spec (write_windows v) 0) as [E|Hne]; cbn [negb].
  2:{ apply wp_ret. split_and!; try done; [apply leaves_weaker_refl|]. intros l' Hl'. rewrite Hl in Hl'. injection Hl' as <-. intros _. by exists v. }
  eapply wp_mono; [apply (protect_one k _ g w o l); [done|done|by rewrite no_write_bit]|]. intros [] w' o' (-> & Hi' & Hp' & ->). split_and!; try done.
  - intros k' Hk'. destruct (decide (k' = k)) as [->|]; [rewrite lookup_insert_eq; by eexists|by rewrite lookup_insert_ne].
  - eapply leaves_weaker_insert; [done|]. split; [done|]. cbn. by rewrite no_write_bit.
  - intros l'. rewrite lookup_insert_eq. intros [= <-]. unfold write_windowed. cbn. by rewrite no_write_bit.
Qed.
Lemma write_protect_each_spec ks : ∀ g w o, vm_inv g w → (∀ k, k ∈ ks → is_Some (leaves w !! k)) →
  wp (write_protect_each ks) (λ _ w' o', o' = o ∧ vm_inv g w' ∧ vpages w' = vpages w ∧ leaves_weaker (leaves w) (leaves w') ∧
    ∀ k l, k ∈ ks → leaves w' !! k = Some l → write_windowed (vpages w) l) w o.
Proof.
  induction ks as [|k ks IH]; intros g w o Hi Hks; cbn [write_protect_each].
  - apply wp_ret. split_and!; try done; [apply leaves_weaker_refl|]. by intros k l ?%elem_of_nil.
  - destruct (Hks k) as [l Hl]; [by left|]. wp_steps. pose proof (write_protect_step g w k l o Hi Hl) as Hstep. apply wp_bind_inv in Hstep.
    eapply wp_mono; [exact Hstep|]. intros v w1 o1 Hw1. apply wp_bind. eapply wp_mono; [exact Hw1|]. intros [] w2 o2 (-> & Hi2 & Hp2 & Hs2 & Hls2 & Hk2).
    eapply wp_mono; [apply (IH g); [done|intros k' ?; apply Hs2, Hks; by right]|]. intros [] w3 o3 (-> & Hi3 & Hp3 & Hls3 & Hk3). rewrite Hp2 in *.
    split_and!; [done|done|congruence|by eapply leaves_weaker_trans|]. intros k' l' Hk' Hl'. apply elem_of_cons in Hk' as [->|?]; [|by eapply Hk3].
    destruct (Hls3 k l' Hl') as (l2 & Hl2 & Hwk). eapply windowed_weaker; [exact Hwk|]. by apply Hk2.
Qed.
Lemma write_protect_all_spec m g w o : vm_inv g w →
  wp (write_protect_all m) (λ _ w' o', o' = o ∧ vm_inv g w' ∧ vpages w' = vpages w ∧ leaves_weaker (leaves w) (leaves w') ∧
    ∀ k l, in_range m 0 two64 k → leaves w' !! k = Some l → write_windowed (vpages w) l) w o.
Proof.
  intros Hi. unfold write_protect_all. wp_steps. destruct (range_keys_spec m 0 two64 (leaves w)) as [_ Hin].
  eapply wp_mono; [apply (write_protect_each_spec _ g); [done|by intros k (_ & _ & ?)%Hin]|]. intros [] w' o' (-> & ? & ? & Hls & Hk). split_and!; try done.
  intros k l [? ?] Hl. apply (Hk k); [|done]. apply Hin. split_and!; try done; try lia. destruct (Hls k l Hl) as (l0 & Hl0 & _). by eexists.
Qed.

Definition restricted protection l : Leaf := mkLeaf (lf_page l) (Z.land (lf_protection l) protection) (lf_frame l) (lf_accessed l) (lf_dirty l).
Lemma restrict_each_spec protection ks : ∀ g w o, vm_inv g w → NoDup ks → (∀ k, k ∈ ks → is_Some (leaves w !! k)) →
  wp (restrict_each ks protection) (λ _ w' o', o' = o ∧ vm_inv g w' ∧ vpages w' = vpages w ∧
    ∀ k, leaves w' !! k = if decide (k ∈ ks) then restricted protection <$> leaves w !! k else leaves w !! k) w o.
Proof.
  induction ks as [|k ks IH]; intros g w o Hi Hnd Hks; cbn [restrict_each].
  - by apply wp_ret.
  - apply NoDup_cons in Hnd as [Hk Hnd]. destruct (Hks k) as [l Hl]; [by left|]. wp_steps.
    assert (wp (if Z.land (lf_protection l) protection =? lf_protection l then ret () else protect_leaf k (Z.land (lf_protection l) protection))
      (λ _ w' o', o' = o ∧ vm_inv g w' ∧ vpages w' = vpages w ∧ leaves w' = <[k:=restricted protection l]> (leaves w)) w o) as Hstep.
    { destruct (Z.eqb_spec (Z.land (lf_protection l) protection) (lf_protection l)) as [E|Hne].
      - apply wp_ret. split_and!; try done. unfold restricted. rewrite E. symmetry. apply insert_id. rewrite Hl. by destruct l.
      - eapply wp_mono; [apply (protect_one k _ g w o l); [done|done|apply land_keeps_bit]|]. done. }
    eapply wp_mono; [exact Hstep|]. intros [] w1 o1 (-> & Hi1 & Hp1 & Hl1). eapply wp_mono; [apply (IH g); [done|done|]|].
    + intros k' Hk'. rewrite Hl1. rewrite lookup_insert_ne by (by intros ->). apply Hks. by right.
    + intros [] w2 o2 (-> & Hi2 & Hp2 & Hl2). split_and!; [done|done|congruence|]. intros k'. rewrite Hl2, Hl1. destruct (decide (k' = k)) as [->|Hne].
      * rewrite lookup_insert_eq, (decide_False (P := k ∈ ks)), (decide_True (P := k ∈ k :: ks)), Hl by (done || by left). done.
      * rewrite lookup_insert_ne by done. by rewrite (decide_ext (k' ∈ ks) (k' ∈ k :: ks)) by (rewrite elem_of_cons; tauto).
Qed.
Lemma restrict_spec m start n protection g w o : vm_inv g w →
  wp (restrict m start n protection) (λ r w' o', o' = o ∧
    match checked_page_end start n with
    | Err e => r = Err e ∧ w' = w
    | Ok _ => vm_inv g w'
    end) w o.
Proof.
  intros Hi. unfold restrict. destruct (checked_page_end start n) as [end_|e] eqn:E; [|by wp_steps]. wp_steps. case_match eqn:Hex.
  - eapply wp_mono; [by apply (pmap_remove_spec m start n g)|]. intros r w' o' (-> & Hr). split; [done|]. destruct (checked_page_end (align_page start) n); [apply Hr|]. by destruct Hr as [_ ->].
  - destruct (range_keys_spec m start end_ (leaves w)) as [Hnd Hin]. apply wp_bind.
    eapply wp_mono; [apply (restrict_each_spec protection _ g); [done|done|by intros k (_ & _ & ?)%Hin]|]. intros [] w' o' (-> & ? & _). by apply wp_ret.
Qed.
End unmap.

(** * Logical pages: entering mappings

    [Pmap::enter] puts a leaf for a resident page: a new one, a new protection
    for the same page, or a leaf that replaces that of another page. *)

Section enter.
Context `{Lz4Laws} {B : Type} `{SwapBackendLaws B} `{VmPagerLaws}.
Implicit Types (w : Vm B) (g : Ghost) (v : VmPage) (id : nat) (p : Page) (u : PageQueue) (f : Z) (k : Key) (l : Leaf) (ls : gmap Key Leaf) (o : oracle) (bytes : list Z).

(** ** The parts *)

(** The frame of the page was referenced once more. *)
Record referred p p' : Prop := {
  rf_touched : touched p p';
  rf_dirty : dirty p' = dirty p;
  rf_maps : map_count p' = map_count p + 1;
}.
Lemma refer_spec w id f v p u bytes ls sw w1 (b : bool) (Q : () → Vm B → oracle → Prop) o : at_page w id f v p u bytes ls sw w1 →
  (∀ w2 p', at_page w id f v p' u bytes ls sw w2 → referred p p' → Q () w2 o) →
  wp (acquire_mapping f) (λ _ w' o', wp (if b then update_frame f mark_unknown else ret ()) Q w' o') w1 o.
Proof.
  intros Hat HQ. unfold acquire_mapping. apply wp_bind, (wp_add_mapping Hat). intros w2 Hw2. apply (wp_update_frame Hw2); [apply mark_referenced_update|]. intros w3 Hw3.
  set (p1 := mark_referenced _) in Hw3. assert (referred p p1) as [Ht Hd Hm].
  { split; [etrans; [apply touched_maps|apply touched_referenced]|unfold p1; by rewrite dirty_referenced|done]. }
  destruct b; [|apply wp_ret; by eapply HQ]. apply (wp_update_frame Hw3); [apply mark_unknown_update|]. intros w4 Hw4. eapply HQ; [exact Hw4|].
  split; [etrans; [exact Ht|apply touched_unknown]|by rewrite dirty_unknown|done].
Qed.
Definition entered k v : VmPage := with_mappings (k :: mappings v) v.
Definition new_leaf id (protection f : Z) : Leaf := mkLeaf id protection f false false.
(** A new leaf. *)
Lemma entered_resident g id ls ls' v f p p' u bytes k protection : resident_ok g id ls v f p u bytes → k ∉ mappings v → (has_prot protection WRITE = true → pager v = None) →
  ls' !! k = Some (new_leaf id protection f) → (∀ k', k' ≠ k → ls' !! k' = ls !! k') → referred p p' → resident_ok g id ls' (entered k v) f p' u bytes.
Proof.
  intros [] Hk Hpg Hnew Hls [Ht Hd Hm]. destruct res_mapped as [Hnd Hmap].
  assert (∀ k' l', k' ∈ mappings v → ls' !! k' = Some l' ↔ ls !! k' = Some l') as Hold by (intros k' l' Hk'; rewrite Hls; [done|]; by intros ->).
  assert (clean ls' (entered k v) p' ↔ clean ls v p) as Hc.
  { unfold clean. rewrite Hd. cbn [mappings entered with_mappings]. split; intros [? Hks]; (split; [done|]).
    - intros k' l' Hk' Hl'. apply (Hks k'); [by right|]. by apply Hold.
    - intros k' l' Hk' Hl'. apply elem_of_cons in Hk' as [->|Hk']; [rewrite Hnew in Hl'; by injection Hl' as <-|]. apply (Hks k'); [done|]. by apply Hold. }
  split; try done; cbn [mappings entered with_mappings].
  - by apply (owned_touched id v _ p).
  - by rewrite (touch_busy _ _ Ht).
  - cbn. lia.
  - by rewrite (touch_wires _ _ Ht).
  - by rewrite res_queue, (touch_wires _ _ Ht).
  - split; [by apply NoDup_cons|]. intros k' Hk'. apply elem_of_cons in Hk' as [->|Hk']; [by exists (new_leaf id protection f)|]. rewrite Hls; [by apply Hmap|]. by intros ->.
  - unfold backed in *. cbn [pager entered with_mappings resident_swap mappings write_windows vp_index]. destruct (pager v) as [pg|]; rewrite ?Hc.
    + destruct res_backed as (? & ? & ? & ? & ? & Hw). split_and!; try done. intros k' l' Hk' Hl'. apply elem_of_cons in Hk' as [->|Hk']; [|apply (Hw k'); [done|]; by apply Hold].
      rewrite Hnew in Hl'. injection Hl' as <-. cbn. destruct (has_prot protection WRITE); [|done]. by specialize (Hpg eq_refl).
    + destruct (resident_swap v); [|done]. destruct res_backed as (page & ? & ?). exists page. by rewrite Hc.
  - destruct res_windows as [? Hw]. split; [done|]. intros Hpos. rewrite Hd. by apply Hw.
Qed.
(** A leaf of the same page: the bits of the old one are in the frame. *)
Lemma reentered_resident g id ls v f p p' u bytes k l protection : resident_ok g id ls v f p u bytes → k ∈ mappings v → (has_prot protection WRITE = true → pager v = None) →
  ls !! k = Some l → touched p p' → dirty p' = dirty p || lf_dirty l → map_count p' = map_count p → resident_ok g id (<[k:=new_leaf id protection f]> ls) v f p' u bytes.
Proof.
  intros [] Hk Hpg Hl Ht Hd Hm. destruct res_mapped as [Hnd Hmap]. set (ls' := <[k:=_]> ls).
  assert (∀ k', k' ≠ k → ls' !! k' = ls !! k') as Hls by (intros k' ?; unfold ls'; by rewrite lookup_insert_ne).
  assert (ls' !! k = Some (new_leaf id protection f)) as Hnew by (unfold ls'; by rewrite lookup_insert_eq).
  assert (clean ls' v p' ↔ clean ls v p) as Hc.
  { unfold clean. rewrite Hd, orb_false_iff. split.
    - intros [[? Hdl] Hks]. split; [done|]. intros k' l' Hk' Hl'. destruct (decide (k' = k)) as [->|Hne]; [congruence|]. apply (Hks k'); [done|]. by rewrite Hls.
    - intros [? Hks]. split; [split; [done|by apply (Hks k)]|]. intros k' l' Hk' Hl'. destruct (decide (k' = k)) as [->|Hne]; [rewrite Hnew in Hl'; by injection Hl' as <-|].
      apply (Hks k'); [done|]. by rewrite <- Hls. }
  split; try done.
  - by apply (owned_touched id v _ p).
  - by rewrite (touch_busy _ _ Ht).
  - lia.
  - by rewrite (touch_wires _ _ Ht).
  - by rewrite res_queue, (touch_wires _ _ Ht).
  - split; [done|]. intros k' Hk'. destruct (decide (k' = k)) as [->|Hne]; [by exists (new_leaf id protection f)|]. rewrite Hls by done. by apply Hmap.
  - unfold backed in *. destruct (pager v) as [pg|]; rewrite ?Hc.
    + destruct res_backed as (? & ? & ? & ? & ? & Hw). split_and!; try done. intros k' l' Hk' Hl'. destruct (decide (k' = k)) as [->|Hne].
      * rewrite Hnew in Hl'. injection Hl' as <-. cbn. destruct (has_prot protection WRITE); [|done]. by specialize (Hpg eq_refl).
      * apply (Hw k'); [done|]. by rewrite <- Hls.
    + destruct (resident_swap v); [|done]. destruct res_backed as (page & ? & ?). exists page. by rewrite Hc.
  - destruct res_windows as [? Hw]. split; [done|]. intros Hpos. by rewrite Hd, Hw.
Qed.

(** ** The operation *)

Definition enter_done g w k id (protection f : Z) (r : result Error ()) w' : Prop :=
  vm_inv g w' ∧
  match r with
  | Ok _ => (∀ k', k' ≠ k → leaves w' !! k' = leaves w !! k') ∧ ∃ l, leaves w' !! k = Some l ∧ lf_page l = id ∧ lf_protection l = protection ∧ lf_frame l = f
  | Err e => e = OutOfMemory ∧ leaves w' = leaves w
  end.
Lemma note_page_spec g w id v f (b : bool) o : vm_inv g w → vpages w !! id = Some v → backing v = BResident f →
  wp (if b then note_executable_page id f else ret ()) (λ _ w' o', o' = o ∧ vm_inv g w' ∧ leaves w' = leaves w ∧ ∃ v', vpages w' !! id = Some v' ∧ same_page v v') w o.
Proof.
  intros Hi Hv Hb. destruct b; [|apply wp_ret; split_and!; try done; exists v; split; [done|apply same_page_refl]].
  destruct (resident_open g w id v f Hi Hv Hb) as (p & u & Hat & Hr & _). unfold note_executable_page. apply wp_bind, (wp_update_vp Hat). intros w1 Hw1.
  apply (wp_note_executable Hw1). intros w2 Hw2. destruct (calm_done g w w2 id v _ f p _ u u (leaves w) Hi Hv Hb Hr Hw2) as [[Hi2 Hv2] _].
  - apply calm_frame; [exists (swap_reject_generation v), true; by destruct v|apply touched_noted|by unfold noted; case_match|done|apply dirty_noted].
  - split_and!; [done|done|apply Hw2|done].
Qed.
Lemma leaves_local_insert g w id v v' k l : vm_inv g w → vpages w !! id = Some v → (∀ k', k' ∈ mappings v → k' ∈ mappings v') → k ∈ mappings v' → lf_page l = id →
  (∀ l0, leaves w !! k = Some l0 → lf_page l0 = id) → leaves_local id (leaves w) (<[k:=l]> (leaves w)) v'.
Proof.
  intros Hi Hv Hsub Hk El Hold. split.
  - intros k' l' Hne. destruct (decide (k' = k)) as [->|Hk']; [|by rewrite lookup_insert_ne]. rewrite lookup_insert_eq. split; [intros [= <-]; done|]. intros Hl'. destruct Hne. by apply Hold.
  - intros k' l' E. destruct (decide (k' = k)) as [->|Hk']; [done|]. rewrite lookup_insert_ne by done. intros Hl'. apply Hsub.
    destruct (vm_leaves _ _ Hi _ _ Hl') as (v1 & Hv1 & Hk1). rewrite E, Hv in Hv1. by injection Hv1 as <-.
Qed.
Lemma unmapped_key g w id v f p u k : vm_inv g w → resident_ok g id (leaves w) v f p u (contents g id) → (∀ l, leaves w !! k = Some l → lf_page l ≠ id) → k ∉ mappings v.
Proof. intros Hi Hr Hk Hin. destruct (proj2 (res_mapped _ _ _ _ _ _ _ _ Hr) k Hin) as (l & Hl & E & _). by destruct (Hk l Hl). Qed.
(** The mapping is not entered after all. *)
Lemma enter_rollback g w w1 id v f p p' u k o : vm_inv g w → vpages w !! id = Some v → backing v = BResident f → resident_ok g id (leaves w) v f p u (contents g id) → referred p p' →
  at_page w id f (entered k v) p' u (contents g id) (leaves w) (swap w) w1 →
  wp (remove_reverse_mapping id k) (λ _ w' o', wp (release_mapping id) (λ _ w2 o2, o2 = o ∧ vm_inv g w2 ∧ leaves w2 = leaves w) w' o') w1 o.
Proof.
  intros Hi Hv Hb Hr [Ht Hd Hm] Hat. unfold remove_reverse_mapping. apply (wp_update_vp Hat). intros w2 Hw2.
  assert (with_mappings (remove_key k (mappings (entered k v))) (entered k v) = v) as Ev by (cbn; rewrite bool_decide_true by done; by destruct v). rewrite Ev in Hw2.
  destruct (res_maps _ _ _ _ _ _ _ _ Hr) as [Hmc Hun]. apply (wp_release_mapping Hw2); [by eapply res_pointer|lia|]. intros w3 Hw3. split; [done|]. split; [|apply Hw3].
  eapply calm_close; [done|done|done|done|exact Hw3|]. apply calm_frame; [apply same_page_refl|etrans; [exact Ht|apply touched_maps]|cbn; lia|done|exact Hd].
Qed.
Lemma enter_new g w id v f k protection o : vm_inv g w → vpages w !! id = Some v → backing v = BResident f → leaves w !! k = None → (has_prot protection WRITE = true → pager v = None) →
  wp (let! _ := add_reverse_mapping id k in
      do acquire_mapping f then
      do (if has_prot protection WRITE then update_frame f mark_unknown else ret ()) then
      let* mapped := ask_pool in
      if negb mapped then do remove_reverse_mapping id k then do release_mapping id then ret (Err OutOfMemory)
      else do put_leaf k (new_leaf id protection f) then ret (Ok ()))
    (λ r w' o', o' ⊆ o ∧ enter_done g w k id protection f r w' ∧ ((∃ e, r = Err e) → false ∈ o)) w o.
Proof.
  intros Hi Hv Hb Hk Hpg. destruct (resident_open g w id v f Hi Hv Hb) as (p & u & Hat & Hr & Hj & Hok & Hkind & _).
  assert (k ∉ mappings v) as Hfresh by (eapply unmapped_key; [done|done|]; intros l; by rewrite Hk).
  apply wp_bind. unfold add_reverse_mapping. apply wp_bind, wp_ask. intros b1 o1 Ho1 Hf1. destruct b1; cbn [negb].
  2:{ wp_steps. split_and!; try done. intros _. by apply Hf1. }
  apply wp_bind, (wp_update_vp Hat). intros w1 Hw1. fold (entered k v) in Hw1. apply wp_ret. cbn beta iota. apply wp_bind.
  eapply wp_mono; [eapply refer_spec; [exact Hw1|]|intros [] ? ? Hx; apply wp_bind; exact Hx].
  intros w2 p' Hw2 Href. cbn beta. apply wp_bind, wp_ask. intros b2 o2 Ho2 Hf2. destruct b2; cbn [negb].
  2:{ apply wp_bind. eapply wp_mono; [by eapply (enter_rollback g w w2)|]. intros [] ? ? Hx. apply wp_bind. eapply wp_mono; [exact Hx|]. intros [] w4 o4 (-> & Hi4 & Hl4). apply wp_ret.
      split_and!; try done; [set_solver|]. intros _. apply Ho1. by apply Hf2. }
  apply wp_bind, (wp_put_leaf Hw2). intros w3 Hw3. apply wp_ret. split_and!; [set_solver| |by intros [? ?]]. split.
  - eapply (resident_close g g); [done|done|done|exact Hw3|done|done|done|done|done|done| |].
    + eapply entered_resident; [exact Hr|done|exact Hpg|by rewrite lookup_insert_eq|intros k' ?; by rewrite lookup_insert_ne|done].
    + eapply leaves_local_insert; [done|done|intros k' ?; by right|by left|done|]. intros l0. by rewrite Hk.
  - rewrite (at_leaves _ _ _ _ _ _ _ _ _ _ Hw3). split; [intros k' ?; by rewrite lookup_insert_ne|]. exists (new_leaf id protection f). by rewrite lookup_insert_eq.
Qed.

Lemma enter_same g w id v f k l protection o : vm_inv g w → vpages w !! id = Some v → backing v = BResident f → leaves w !! k = Some l → lf_page l = id →
  (has_prot protection WRITE = true → pager v = None) →
  wp (do acquire_mapping f then
      do (if has_prot protection WRITE then update_frame f mark_unknown else ret ()) then
      do put_leaf k (new_leaf id protection f) then
      do record_hardware_state l then
      do release_mapping id then ret (Ok ()))
    (λ r w' o', o' = o ∧ enter_done g w k id protection f r w' ∧ r = Ok ()) w o.
Proof.
  intros Hi Hv Hb Hk El Hpg. destruct (resident_open g w id v f Hi Hv Hb) as (p & u & Hat & Hr & Hj & Hok & Hkind & _).
  destruct (leaf_open g w k l Hi Hk) as (v1 & p1 & u1 & Hv1 & Hb1 & Hin & _). rewrite El, Hv in Hv1. injection Hv1 as <-. rewrite Hb in Hb1. injection Hb1 as Ef.
  apply wp_bind. eapply wp_mono; [eapply refer_spec; [exact Hat|]|intros [] ? ? Hx; apply wp_bind; exact Hx]. intros w2 p' Hw2 [Ht Hd Hm]. cbn beta.
  apply wp_bind, (wp_put_leaf Hw2). intros w3 Hw3. apply wp_bind. eapply wp_record_hardware; [exact Hw3|done|]. intros w4 Hw4.
  destruct (res_maps _ _ _ _ _ _ _ _ Hr) as [Hmc Hun]. apply wp_bind, (wp_release_mapping Hw4); [by eapply res_pointer|rewrite maps_recorded; lia|]. intros w5 Hw5. apply wp_ret.
  split_and!; try done. split.
  - eapply (resident_close g g); [done|done|done|exact Hw5|done|done|done|done|done|done| |].
    + eapply reentered_resident; [exact Hr|done|exact Hpg|exact Hk| | |].
      * etrans; [exact Ht|]. etrans; [apply (touched_recorded l)|apply touched_maps].
      * rewrite <- Hd. exact (dirty_recorded l p').
      * cbn. rewrite maps_recorded. lia.
    + eapply leaves_local_insert; [done|done|done|done|done|]. intros l0. rewrite Hk. by intros [= <-].
  - rewrite (at_leaves _ _ _ _ _ _ _ _ _ _ Hw5). split; [intros k' ?; by rewrite lookup_insert_ne|]. exists (new_leaf id protection f). by rewrite lookup_insert_eq.
Qed.

(** Two resident pages change. *)
Lemma two_pages_close g w w1 w2 id1 id2 f1 f2 v1 v2 v1' v2' p1 u1 p2 u2 ls : vm_inv g w → id1 ≠ id2 → vpages w !! id1 = Some v1 → vpages w !! id2 = Some v2 →
  backing v1 = BResident f1 → backing v2 = BResident f2 → backing v1' = BResident f1 → backing v2' = BResident f2 → owner_kind v1' = owner_kind v1 → owner_kind v2' = owner_kind v2 →
  at_page w id1 f1 v1' p1 u1 (contents g id1) ls (swap w) w1 → at_page w1 id2 f2 v2' p2 u2 (contents g id2) ls (swap w) w2 →
  resident_ok g id1 ls v1' f1 p1 u1 (contents g id1) → resident_ok g id2 ls v2' f2 p2 u2 (contents g id2) →
  (∀ k l, lf_page l ≠ id1 → lf_page l ≠ id2 → ls !! k = Some l ↔ leaves w !! k = Some l) →
  (∀ k l, ls !! k = Some l → (lf_page l = id1 → k ∈ mappings v1') ∧ (lf_page l = id2 → k ∈ mappings v2')) → vm_inv g w2.
Proof.
  intros Hi Hne Hv1 Hv2 Hb1 Hb2 Hb1' Hb2' Ho1 Ho2 Hat1 Hat2 Hr1 Hr2 Hls Hown.
  destruct (resident_open g w id1 v1 f1 Hi Hv1 Hb1) as (_ & _ & _ & _ & Hj1 & Hok1 & Hk1 & _). destruct (resident_open g w id2 v2 f2 Hi Hv2 Hb2) as (_ & _ & _ & _ & Hj2 & Hok2 & Hk2 & _).
  assert (f1 ≠ f2) as Hf. { intros ->. apply Hne. apply (vm_frames _ _ Hi _ _ v1 v2 f2 Hv1 Hv2); unfold frame_held; by rewrite ?Hb1, ?Hb2. }
  pose proof Hat1 as [Hpol1 Hlook1 Hbytes1 Hpages1 Hl1 Hs1]. pose proof Hat2 as [Hpol2 Hlook2 Hbytes2 Hpages2 Hl2 Hs2].
  assert (vpages w2 !! id2 = Some v2') as Hid2 by (rewrite Hpages2; apply lookup_insert_eq).
  assert (vpages w2 !! id1 = Some v1') as Hid1 by (rewrite Hpages2, lookup_insert_ne, Hpages1 by done; apply lookup_insert_eq).
  assert (∀ i, i ≠ id1 → i ≠ id2 → vpages w2 !! i = vpages w !! i) as Hother by (intros i ? ?; rewrite Hpages2, lookup_insert_ne, Hpages1, lookup_insert_ne by done; done).
  assert (∀ q, q ≠ f1 → q ≠ f2 → look (pol w2) q = look (pol w) q ∧ bytes_of (pol w2) q = bytes_of (pol w) q) as Hframes.
  { intros q ? ?. by rewrite Hlook2, Hbytes2, Hlook1, Hbytes1, !decide_False. }
  assert (∀ i v', vpages w2 !! i = Some v' → ∃ v, vpages w !! i = Some v ∧ frame_held g i v' = frame_held g i v) as Hheld.
  { intros i v' Hv'. destruct (decide (i = id1)) as [->|N1]; [exists v1; unfold frame_held; rewrite Hb1; assert (v' = v1') as -> by congruence; by rewrite Hb1'|].
    destruct (decide (i = id2)) as [->|N2]; [exists v2; unfold frame_held; rewrite Hb2; assert (v' = v2') as -> by congruence; by rewrite Hb2'|]. exists v'. by rewrite <- Hother. }
  eapply (vm_inv_change (λ i, i = id1 ∨ i = id2)); [done|done|rewrite Hs2; apply (vm_swap _ _ Hi)| | | | | | |].
  - intros i Hx. split; [|done]. apply Hother; tauto.
  - intros i [-> | ->]; rewrite ?Hid1, ?Hid2; unfold page_holds; rewrite ?Hb1', ?Hb2', ?Ho1, ?Ho2; (split; [done|]; split; [done|]; split; [done|]).
    + exists p1, u1. rewrite Hlook2, Hlook1, Hbytes2, Hbytes1, Hl2, !(decide_False (P := f1 = f2)), !decide_True by done. done.
    + exists p2, u2. rewrite Hlook2, Hbytes2, Hl2, !decide_True by done. done.
  - intros i v' q Hx Hv' Hh. apply Hframes; intros ->; apply Hx; [left|right]; [apply (vm_frames _ _ Hi _ _ v' v1 f1 Hv' Hv1 Hh)|apply (vm_frames _ _ Hi _ _ v' v2 f2 Hv' Hv2 Hh)];
      unfold frame_held; by rewrite ?Hb1, ?Hb2.
  - intros k l Hx. rewrite Hl2. apply Hls; tauto.
  - intros k l Hx Hl. rewrite Hl2 in Hl. destruct (Hown k l Hl) as [Hm1 Hm2]. destruct Hx as [Hx|Hx]; [exists v1'|exists v2']; rewrite Hx; auto.
  - intros i1 i2 va vb q _ Ha Hb Fa Fb. destruct (Hheld _ _ Ha) as (va0 & Ha0 & Ea), (Hheld _ _ Hb) as (vb0 & Hb0 & Eb). rewrite Ea in Fa. rewrite Eb in Fb. by eapply (vm_frames _ _ Hi).
  - intros q p u Hl Hu. destruct (decide (q = f2)) as [->|Nf2]; [by exists id2, v2'|]. destruct (decide (q = f1)) as [->|Nf1]; [by exists id1, v1'|].
    destruct (Hframes q Nf1 Nf2) as [E _]. rewrite E in Hl. destruct (vm_queues _ _ Hi _ _ _ Hl Hu) as (i & vi & Hvi & Hbi). exists i, vi. split; [|done].
    rewrite Hother; [done| |]; intros ->; congruence.
Qed.
(** The old page, whose leaf was replaced, gives up its reference. *)
Lemma displace_spec g w w1 id v f k l id1 f1 v1' p1 u1 ls o : vm_inv g w → leaves w !! k = Some l → lf_page l = id → vpages w !! id = Some v → backing v = BResident f →
  id1 ≠ id → f1 ≠ f → (∀ k', k' ≠ k → ls !! k' = leaves w !! k') → at_page w id1 f1 v1' p1 u1 (contents g id1) ls (swap w) w1 →
  wp (record_hardware_state l) (λ _ w' o', wp (remove_reverse_mapping id k) (λ _ w'' o'', wp (release_mapping id) (λ _ w2 o2, o2 = o ∧
    ∃ p' u', at_page w1 id f (unmapped_at k v) p' u' (contents g id) ls (swap w) w2 ∧ resident_ok g id ls (unmapped_at k v) f p' u' (contents g id)) w'' o'') w' o') w1 o.
Proof.
  intros Hi Hk El Hv Hb Hne Hf Hls Hat1. destruct (leaf_open g w k l Hi Hk) as (v0 & p & u & Hv0 & Hb0 & Hin & Hat & Hr & Hok). rewrite El, Hv in Hv0. injection Hv0 as <-.
  rewrite Hb in Hb0. injection Hb0 as Ef. rewrite El, <- Ef in Hat, Hr. destruct (res_maps _ _ _ _ _ _ _ _ Hr) as [Hm Hun].
  assert (at_page w1 id f v p u (contents g id) ls (swap w) w1) as Hat2.
  { pose proof (at_entry Hat) as Hlook. pose proof (at_frame_bytes Hat) as Hbytes. rewrite <- Hbytes. destruct Hat1.
    rewrite <- at_leaves, <- at_swap. assert (bytes_of (pol w) f = bytes_of (pol w1) f) as -> by (by rewrite at_bytes, decide_False).
    apply at_start; [done| |]; [by rewrite at_look, decide_False|]. by rewrite at_vpages, lookup_insert_ne. }
  eapply wp_record_hardware; [exact Hat2|done|]. intros w2 Hw2. unfold remove_reverse_mapping. apply (wp_update_vp Hw2). intros w3 Hw3. fold (unmapped_at k v) in Hw3.
  apply (wp_release_mapping Hw3); [exact (res_pointer _ _ _ _ _ _ _ _ Hr)|rewrite maps_recorded; pose proof (remove_key_length k (mappings v) Hin); lia|]. intros w4 Hw4. split; [done|]. eexists _, _. split; [exact Hw4|].
  pose proof (unmapped_at_resident g id (leaves w) ls v f p u _ k l (unmapping g id) Hr Hin Hk Hls Hun) as Hr'.
  rewrite maps_recorded. replace (map_count p - 1) with (Z.of_nat (length (mappings v)) - 1 + unmapping g id) by lia.
  eapply (resident_ok_same (set_unmapping id (unmapping g id) g)); [|done|exact Hr']. unfold ghost_same. cbn. by case_decide as E; rewrite ?E.
Qed.
Lemma enter_replace g w id v f k l protection o : vm_inv g w → vpages w !! id = Some v → backing v = BResident f → leaves w !! k = Some l → lf_page l ≠ id →
  (has_prot protection WRITE = true → pager v = None) →
  wp (let! _ := add_reverse_mapping id k in
      do acquire_mapping f then
      do (if has_prot protection WRITE then update_frame f mark_unknown else ret ()) then
      do put_leaf k (new_leaf id protection f) then
      do record_hardware_state l then
      do remove_reverse_mapping (lf_page l) k then
      do release_mapping (lf_page l) then ret (Ok ()))
    (λ r w' o', o' ⊆ o ∧ enter_done g w k id protection f r w' ∧ ((∃ e, r = Err e) → false ∈ o)) w o.
Proof.
  intros Hi Hv Hb Hk El Hpg. destruct (resident_open g w id v f Hi Hv Hb) as (p & u & Hat & Hr & Hj & Hok & Hkind & _).
  destruct (leaf_open g w k l Hi Hk) as (v2 & p2 & u2 & Hv2 & Hb2 & Hin & _ & Hr2 & _).
  assert (f ≠ lf_frame l) as Hf. { intros E. apply El. apply (vm_frames _ _ Hi _ _ v2 v f Hv2 Hv); unfold frame_held; rewrite ?Hb, ?Hb2; congruence. }
  assert (k ∉ mappings v) as Hfresh by (eapply unmapped_key; [done|done|]; intros l0; rewrite Hk; by intros [= <-]).
  apply wp_bind. unfold add_reverse_mapping. apply wp_bind, wp_ask. intros b1 o1 Ho1 Hf1. destruct b1; cbn [negb].
  2:{ wp_steps. split_and!; try done. intros _. by apply Hf1. }
  apply wp_bind, (wp_update_vp Hat). intros w1 Hw1. fold (entered k v) in Hw1. apply wp_ret. cbn beta iota. apply wp_bind.
  eapply wp_mono; [eapply refer_spec; [exact Hw1|]|intros [] ? ? Hx; apply wp_bind; exact Hx]. intros w2 p' Hw2 Href. cbn beta.
  apply wp_bind, (wp_put_leaf Hw2). intros w3 Hw3. set (ls := <[k:=_]> (leaves w)) in Hw3.
  assert (∀ k', k' ≠ k → ls !! k' = leaves w !! k') as Hls by (intros k' ?; unfold ls; by rewrite lookup_insert_ne).
  apply wp_bind. eapply wp_mono; [eapply (displace_spec g w w3 (lf_page l) v2 (lf_frame l) k l id f); try done|].
  intros [] ? ? Hx. apply wp_bind. eapply wp_mono; [exact Hx|]. intros [] ? ? Hy. apply wp_bind. eapply wp_mono; [exact Hy|]. intros [] w6 o6 (-> & p6 & u6 & Hw6 & Hr6). apply wp_ret.
  split_and!; [done| |by intros [? ?]]. split.
  - eapply (two_pages_close g w w3 w6 id (lf_page l) f (lf_frame l) v v2 (entered k v) (unmapped_at k v2)); [exact Hi|done|exact Hv|exact Hv2|exact Hb|exact Hb2|exact Hb|exact Hb2|done|done|exact Hw3|exact Hw6| |exact Hr6| |].
    + eapply entered_resident; [exact Hr|done|exact Hpg|unfold ls; by rewrite lookup_insert_eq|done|done].
    + intros k' l' N1 N2. destruct (decide (k' = k)) as [->|Hne]; [|by rewrite Hls]. unfold ls. rewrite lookup_insert_eq, Hk. split; intros [= <-]; done.
    + intros k' l' Hl'. destruct (decide (k' = k)) as [->|Hne].
      * unfold ls in Hl'. rewrite lookup_insert_eq in Hl'. injection Hl' as <-. cbn. split; [by left|congruence].
      * rewrite Hls in Hl' by done. destruct (vm_leaves _ _ Hi _ _ Hl') as (v' & Hv' & Hk'). split; intros E; rewrite E in Hv'.
        -- right. congruence.
        -- cbn [mappings unmapped_at with_mappings]. apply remove_key_spec; [apply (res_mapped _ _ _ _ _ _ _ _ Hr2)|]. split; [done|congruence].
  - rewrite (at_leaves _ _ _ _ _ _ _ _ _ _ Hw6). split; [done|]. exists (new_leaf id protection f). unfold ls. by rewrite lookup_insert_eq.
Qed.
Lemma enter_spec m address g w id v f protection o : vm_inv g w → vpages w !! id = Some v → backing v = BResident f → (has_prot protection WRITE = true → pager v = None) →
  wp (enter m address id f protection) (λ r w' o', o' ⊆ o ∧ enter_done g w (m, align_page address) id protection f r w' ∧ ((∃ e, r = Err e) → false ∈ o)) w o.
Proof.
  intros Hi Hv Hb Hpg. unfold enter. set (k := (m, align_page address)). apply wp_bind. eapply wp_mono; [by apply (note_page_spec g w id v f)|].
  intros [] w1 o1 (-> & Hi1 & Hls1 & v1 & Hv1 & r1 & e1 & E1). assert (backing v1 = BResident f) as Hb1 by (by rewrite E1). assert (has_prot protection WRITE = true → pager v1 = None) as Hpg1 by (by rewrite E1).
  apply wp_bind, wp_get. rewrite Hls1. assert (∀ r w', enter_done g w1 k id protection f r w' → enter_done g w k id protection f r w') as Hdone by (unfold enter_done; by rewrite Hls1).
  destruct (leaves w !! k) as [l|] eqn:Hk.
  - destruct (leaf_open g w1 k l Hi1) as (v2 & p2 & u2 & Hv2 & Hb2 & _); [by rewrite Hls1|]. case_bool_decide as Eid; cbn [andb negb].
    + destruct (Z.eqb_spec (lf_protection l) protection) as [Ep|Ep].
      * apply wp_ret. split_and!; [done| |by intros [? ?]]. apply Hdone. split; [done|]. split; [done|]. exists l. rewrite Hls1. split_and!; try done. rewrite Eid, Hv1 in Hv2. congruence.
      * eapply wp_mono; [apply (enter_same g w1 id v1 f k l protection o Hi1 Hv1 Hb1); [by rewrite Hls1|done|done]|].
        intros r w' o' (-> & ? & ->). split_and!; [done|by apply Hdone|by intros [? ?]].
    + eapply wp_mono; [apply (enter_replace g w1 id v1 f k l protection o Hi1 Hv1 Hb1); [by rewrite Hls1|done|done]|]. intros r w' o' (? & ? & ?). auto.
  - cbn [andb negb]. apply wp_bind, wp_ask. intros b o1 Ho1 Hf1. destruct b; cbn [negb].
    + eapply wp_mono; [apply (enter_new g w1 id v1 f k protection o1 Hi1 Hv1 Hb1); [by rewrite Hls1|done]|]. intros r w' o' (? & ? & ?). split_and!; [set_solver|by apply Hdone|set_solver].
    + apply wp_ret. split_and!; [done|apply Hdone; done|]. intros _. by apply Hf1.
Qed.
End enter.
