(* ===== verification/VmPageIn.v ===== *)
(** * Logical pages: page-in, reclaim, creation and destruction

    A page that is not resident is claimed, filled without its lock, and
    published: its contents are the same throughout. *)
From stdpp Require Import base list gmap.
From stdpp Require Import base list gmap sorting.
From S2P Require Import Prelude.
From S2P Require Import Bytes.
From S2P Require Import Index.
From S2P Require Import Phys.
From S2P Require Import PhysInv.
From S2P Require Import PhysOps.
From S2P Require Import PhysRuns.
From S2P Require Import Swap.
From S2P Require Import SwapSpec.
From S2P Require Import Policy.
From S2P Require Import PolicySpec.
From S2P Require Import VmFrames.
From S2P Require Import VmPage.
From S2P Require Import VmPageInv.
From S2P Require Import VmPageOps.
Open Scope rust_scope.

Section pagein.
Context `{Lz4Laws} {B : Type} `{SwapBackendLaws B} `{VmPagerLaws}.
Implicit Types (w : Vm B) (g : Ghost) (v : VmPage) (id : nat) (p : Page) (u : PageQueue) (f : Z) (b : PageBacking) (o : oracle).

Lemma set_job_at id j g : jobs (set_job id j g) !! id = j.
Proof. apply lookup_partial_alter_eq. Qed.
Lemma set_job_other id i j g : i ≠ id → ghost_same i g (set_job id j g).
Proof. intros Hne. unfold ghost_same. cbn. by rewrite lookup_partial_alter_ne. Qed.

(** A page that is not resident changes its record only. *)
Lemma vm_inv_page g g' w id v v' : vm_inv g w → vpages w !! id = Some v → (∀ f, backing v ≠ BResident f) → slots g' = slots g → (∀ i, i ≠ id → ghost_same i g g') →
  page_holds g' (with_vpages (<[id:=v']> (vpages w)) w) id v' → mappings v' = [] → (∀ f, frame_held g' id v' = Some f → frame_held g id v = Some f) →
  vm_inv g' (with_vpages (<[id:=v']> (vpages w)) w).
Proof.
  intros Hi Hv Hb Hs Hg Hp Hm Hf. set (w' := with_vpages (<[id:=v']> (vpages w)) w).
  assert (∀ i, i ≠ id → vpages w' !! i = vpages w !! i) as Hout by (intros i Hne; by apply lookup_insert_ne).
  assert (vpages w' !! id = Some v') as Hid by apply lookup_insert_eq.
  assert (∀ k l, leaves w !! k = Some l → lf_page l ≠ id) as Hno.
  { intros k l Hl E. destruct (vm_leaves _ _ Hi _ _ Hl) as (v1 & Hv1 & Hk). rewrite E, Hv in Hv1. injection Hv1 as <-. rewrite (away_mappings g w id v Hi Hv Hb) in Hk. by apply elem_of_nil in Hk. }
  eapply (vm_inv_change (λ i, i = id)); [done|apply (vm_pol _ _ Hi)|rewrite Hs; apply (vm_swap _ _ Hi)|intros i Hne; split; [by apply Hout|by apply Hg]| | |done| | |].
  - intros i ->. by rewrite Hid.
  - done.
  - intros k l E Hl. by destruct (Hno k l Hl).
  - intros i1 i2 v1 v2 f -> Hv1 Hv2 F1 F2. rewrite Hid in Hv1. injection Hv1 as <-. destruct (decide (i2 = id)) as [|Hne]; [done|].
    rewrite Hout in Hv2 by done. rewrite (frame_held_same g g') in F2 by (by apply Hg). by eapply (vm_frames _ _ Hi); [| |apply Hf|].
  - intros f p u Hl Hu. destruct (vm_queues _ _ Hi _ _ _ Hl Hu) as (i & v1 & Hv1 & Hb1). exists i, v1. split; [|done]. rewrite Hout; [done|]. intros ->. rewrite Hv in Hv1. injection Hv1 as <-. by destruct (Hb f).
Qed.

(** What a job depends on of its page. *)
Lemma owned_page id v v' p : owner_kind v' = owner_kind v → owned_frame id v p → owned_frame id v' p.
Proof. intros Hk []. split; congruence. Qed.
Lemma stored_as_page g id v v' b : pager v' = pager v → vp_index v' = vp_index v → stored_as g id v b → stored_as g id v' b.
Proof. intros Hp Hx. unfold stored_as. by rewrite Hp, Hx. Qed.
Lemma job_ok_page g id v v' loc j lk by_ : pager v' = pager v → vp_index v' = vp_index v → owner_kind v' = owner_kind v → job_ok g id v loc j lk by_ → job_ok g id v' loc j lk by_.
Proof.
  intros Hp Hx Hk. pose proof (stored_as_page g id v v') as Hs. pose proof (owned_page id v v') as Ho. destruct j; cbn [job_ok]; rewrite ?Hp; intros Hj; destruct_and? Hj; split_and!; auto;
    match goal with H : ∃ _, _ |- _ => destruct H as (p & ? & ? & ?) end; exists p; auto.
Qed.

(** ** Claiming *)

Lemma claim_spec g w id v o : vm_inv g w → vpages w !! id = Some v →
  wp (claim id) (λ r w' o', o' = o ∧
    match r with
    | Ready f => w' = w ∧ backing v = BResident f
    | Waiting => vm_inv g w' ∧ is_Some (jobs g !! id)
    | Claimed b => backing v = b ∧ vm_inv (set_job id (Some (Loading b)) g) w' ∧ vpages w' = <[id:=with_backing (BBusy (location_of b) false) v]> (vpages w)
    end) w o.
Proof.
  intros Hi Hv. unfold claim. apply wp_bind, (wp_find_vp w id v _ _ Hv). pose proof (vm_pages _ _ Hi _ _ Hv) as (Hok & Hk & Hb).
  assert (∀ b, backing v = b → away g id v ∧ jobs g !! id = None ∧ stored_as g id v b →
    let v' := with_backing (BBusy (location_of b) false) v in vm_inv (set_job id (Some (Loading b)) g) (with_vpages (<[id:=v']> (vpages w)) w)) as Hclaim.
  { intros b Eb (Ha & Hj & Hs) v'. eapply (vm_inv_page g); [done|done| |done|intros i ?; by apply set_job_other| | |].
    - intros f. rewrite Eb. by intros ->.
    - unfold page_holds. cbn [backing v' with_backing owner_kind contents set_job]. split_and!; [done|done|by destruct Ha as (? & ? & ? & ? & ? & ?)|].
      exists (Loading b). split; [apply set_job_at|]. done.
    - apply Ha.
    - intros f. unfold frame_held. cbn [v' backing with_backing]. by rewrite set_job_at. }
  destruct (backing v) as [| |f|h|loc wt] eqn:Eb.
  - unfold update_vp. apply wp_bind, wp_bind, (wp_find_vp w id v _ _ Hv). wp_steps. split_and!; try done. by apply Hclaim.
  - unfold update_vp. apply wp_bind, wp_bind, (wp_find_vp w id v _ _ Hv). wp_steps. split_and!; try done. by apply Hclaim.
  - by wp_steps.
  - unfold update_vp. apply wp_bind, wp_bind, (wp_find_vp w id v _ _ Hv). wp_steps. split_and!; try done. by apply Hclaim.
  - destruct Hb as (Ha & j & Hj & Hjob). unfold update_vp. apply wp_bind, wp_bind, (wp_find_vp w id v _ _ Hv). wp_steps. split; [done|]. split; [|by rewrite Hj].
    eapply (vm_inv_page g g); [done|done|intros f; rewrite Eb; done|done|done| |apply Ha|].
    + unfold page_holds. cbn [backing with_backing owner_kind]. split_and!; [done|done|done|]. exists j. split; [done|]. by apply (job_ok_page g id v).
    + intros f. unfold frame_held. by rewrite Eb.
Qed.

(** ** A frame *)

(** The entry of a frame is well formed. *)
Lemma look_wf s f p u : pol_inv s → look s f = Some (p, u) → page_wf p.
Proof.
  intros Hi (e & He & -> & _)%look_entry. destruct (core_number _ _ (proj1 (pol_phys _ _ (proj1 Hi))) _ _ He) as (_ & Hwf & _). exact Hwf.
Qed.
(** Every frame that is held is allocated. *)
Lemma held_allocated g w id v f : vm_inv g w → vpages w !! id = Some v → frame_held g id v = Some f → ∃ p u, look (pol w) f = Some (p, u) ∧ page_state p = Some StAllocated.
Proof.
  intros Hi Hv. destruct (vm_pages _ _ Hi _ _ Hv) as (_ & _ & Hb). unfold frame_held. destruct (backing v) as [| |q|h|loc wt]; try done.
  - intros [= ->]. destruct Hb as (_ & p & u & Hl & Hr). exists p, u. split; [done|]. apply (own_state _ _ _ (res_owned _ _ _ _ _ _ _ _ Hr)).
  - destruct Hb as (_ & j & Hj & Hjob). rewrite Hj. destruct j; cbn [job_frame]; intros [= <-]; cbn [job_ok] in Hjob; destruct_and? Hjob;
      match goal with H : ∃ _, _ |- _ => destruct H as (p & Hl & Hf) end; exists p, QueueNone; (split; [done|]).
    + apply (loose_state _ (proj1 Hf)).
    + apply (loose_state _ (proj1 Hf)).
    + apply (own_state _ _ _ (proj1 Hf)).
    + apply (own_state _ _ _ (proj1 Hf)).
Qed.
Lemma job_open g w id v j : vm_inv g w → vpages w !! id = Some v → jobs g !! id = Some j → ∃ loc wt, backing v = BBusy loc wt ∧ away g id v ∧
  job_ok g id v loc j (look (pol w)) (bytes_of (pol w)) ∧ page_ok (contents g id) ∧ owner_kind v ≠ OwnNone ∧ frame_held g id v = job_frame j.
Proof.
  intros Hi Hv Hj. destruct (vm_pages _ _ Hi _ _ Hv) as (Hok & Hk & Hb). unfold frame_held. destruct (backing v) as [| |q|h|loc wt].
  5:{ destruct Hb as (Ha & j' & Hj' & Hjob). rewrite Hj in Hj'. injection Hj' as <-. exists loc, wt. by rewrite Hj. }
  all: destruct_and? Hb; congruence.
Qed.
Lemma claimed_loose p : loose_frame (claimed UseManaged p) ∧ has_flag (flags (claimed UseManaged p)) BUSY = false.
Proof. destruct (status_packed (claimed UseManaged p) StAllocated UseManaged QueueNone OwnNone eq_refl) as (? & ? & ?). by split. Qed.
Lemma alloc_for_page who g w id v b o : who_ok who → vm_inv g w → vpages w !! id = Some v → jobs g !! id = Some (Loading b) →
  wp (on_frames (alloc_zeroed_page UseManaged (caller who))) (λ r w' o', o' = o ∧
    match r with
    | Some f => vm_inv (set_job id (Some (Filling b f)) g) w' ∧ vpages w' = vpages w
    | None => w' = w
    end) w o.
Proof.
  intros Hwho Hi Hv Hj. destruct (job_open g w id v _ Hi Hv Hj) as (loc & wt & Hb & Ha & [Hs Hloc] & Hok & Hk & Hh). unfold on_frames, on_pol. apply wp_zoom.
  eapply wp_mono; [apply alloc_managed_look; [apply (vm_pol _ _ Hi)|apply Hwho]|]. intros [f|] s' o' (-> & Hi' & Hr); [|subst s'; split; [done|]; by destruct w].
  destruct Hr as (p & u & Hl & Hst & Hput & Hz & Hby). split; [done|]. split; [|done].
  assert (∀ i v1, vpages w !! i = Some v1 → frame_held g i v1 ≠ Some f) as Hfree.
  { intros i v1 Hv1 Hf. destruct (held_allocated g w i v1 f Hi Hv1 Hf) as (p1 & u1 & Hl1 & Hst1). rewrite Hl in Hl1. injection Hl1 as <- <-. destruct Hst; congruence. }
  assert (u = QueueNone) as ->.
  { destruct (decide (u = QueueNone)) as [|Hu]; [done|]. destruct (vm_queues _ _ Hi _ _ _ Hl Hu) as (i & v1 & Hv1 & Hb1). destruct (Hfree i v1 Hv1). unfold frame_held. by rewrite Hb1. }
  assert (at_page w id f v (claimed UseManaged p) QueueNone zero_frame (leaves w) (swap w) (with_pol s' w)) as Hat.
  { split; try done; [|cbn; by rewrite insert_id]. intros q. cbn. destruct (decide (q = f)) as [->|]; [done|by apply Hby]. }
  destruct (claimed_loose p) as [Hloose Hbusy].
  eapply (vm_inv_local g (set_job id (Some (Filling b f)) g) w _ id f v v); [done|done|exact Hat|apply (vm_swap _ _ Hi)|intros i ?; by apply set_job_other| |by right| | |by eapply leaves_local_same].
  - unfold page_holds. rewrite Hb. cbn [contents set_job]. split_and!; [done|done|done|]. exists (Filling b f). split; [apply set_job_at|]. cbn [job_ok]. split_and!; [done|done| |].
    + exact (at_frame_bytes Hat).
    + eexists. split; [apply (at_entry Hat)|done].
  - intros q. unfold frame_held. rewrite Hb, set_job_at. by intros [= ->].
  - done.
Qed.

(** ** Filling *)

Lemma zero_frame_length : length zero_frame = PAGE_BYTES.
Proof. unfold zero_frame. apply length_replicate. Qed.
Lemma read_previous_spec g w id v f p u ls sw w1 b o : at_page w id f v p u zero_frame ls sw w1 → page_state p = Some StAllocated → stored_as g id v b →
  swap_inv (map_to_list (slots g)).*2 sw →
  wp (read_previous id b f) (λ r w2 o', o' = o ∧ ∃ bytes sw', at_page w id f v p u bytes ls sw' w2 ∧ swap_inv (map_to_list (slots g)).*2 sw' ∧ (r = Ok () → bytes = contents g id)) w1 o.
Proof.
  intros Hat Hst Hs Hsw. unfold read_previous. apply wp_bind, (wp_get_vp Hat). apply wp_bind, (wp_frame_bytes Hat). destruct b as [| |q|h|loc wt]; try done.
  - apply wp_ret. split; [done|]. exists zero_frame, sw. split_and!; try done. intros _. by destruct Hs.
  - destruct Hs as (_ & pg & Hpg & Hc). rewrite Hpg. destruct (pager_read pg _ zero_frame) as [r out] eqn:Er. apply wp_bind, (wp_set_bytes Hat); [done|]. intros w2 Hw2.
    apply wp_ret. split; [done|]. exists out, sw. split_and!; try done. intros ->. rewrite Hc. eapply pager_read_ok; [apply zero_frame_length|done].
  - destruct Hs as [Hs _]. apply wp_bind, (wp_on_swap Hat). eapply wp_mono; [eapply swap_load_spec; [done|by eapply live_in|apply zero_frame_length]|].
    intros [r out] sw' o' (-> & Hsw' & _ & Hr). intros w2 Hw2. cbn [fst snd] in Hr. apply wp_bind, (wp_set_bytes Hw2); [done|]. intros w3 Hw3. apply wp_ret. split; [done|].
    exists out, sw'. split_and!; try done. destruct r as [[]|e]; [done|by destruct e].
Qed.
Lemma loose_touched p p' : touched p p' → map_count p' = map_count p → loose_frame p → loose_frame p'.
Proof.
  intros [] Hm [? ? ? (? & ? & ?)]. split; try (unfold page_state, page_usage, page_owner_kind, status_field in *; rewrite touch_status; done). split_and!; congruence.
Qed.
Lemma loose_releasable p : loose_frame p → releasable p.
Proof. intros [? ? ? (? & ? & ?)]. done. Qed.
(** A busy page whose job changes with its frame. *)
Lemma job_close g w w' id v f p u bytes sw j j' loc wt : vm_inv g w → vpages w !! id = Some v → jobs g !! id = Some j → job_frame j = Some f → backing v = BBusy loc wt →
  at_page w id f v p u bytes (leaves w) sw w' → swap_inv (map_to_list (slots g)).*2 sw → u = QueueNone → (∀ q, job_frame j' = Some q → q = f) →
  job_ok g id v loc j' (look (pol w')) (bytes_of (pol w')) → vm_inv (set_job id (Some j') g) w'.
Proof.
  intros Hi Hv Hj Hf Hb Hat Hsw -> Hf' Hok. destruct (job_open g w id v j Hi Hv Hj) as (loc' & wt' & Hb' & Ha & _ & Hpok & Hk & Hh). rewrite Hb in Hb'. injection Hb' as <- <-.
  eapply (vm_inv_local g (set_job id (Some j') g) w w' id f v v); [done|done|exact Hat|done|intros i ?; by apply set_job_other| |left; congruence| |done|by eapply leaves_local_same].
  - unfold page_holds. rewrite Hb. cbn [contents set_job]. split_and!; [done|done|done|]. exists j'. split; [apply set_job_at|]. done.
  - intros q. unfold frame_held. rewrite Hb, set_job_at. apply Hf'.
Qed.
Lemma fill_frame_spec who g w id v b f o : who_ok who → vm_inv g w → vpages w !! id = Some v → jobs g !! id = Some (Filling b f) →
  wp (fill_frame who id b f) (λ r w' o', o' = o ∧ vpages w' = vpages w ∧
    match r with
    | Ok f' => f' = f ∧ vm_inv (set_job id (Some (Filled b f)) g) w'
    | Err e => vm_inv (set_job id (Some (Failed b e)) g) w'
    end) w o.
Proof.
  intros Hwho Hi Hv Hj. destruct (job_open g w id v _ Hi Hv Hj) as (loc & wt & Hb & Ha & Hjob & Hok & Hk & Hh). cbn [job_ok] in Hjob. destruct Hjob as (Hs & Hloc & Hz & p & Hl & Hp & Hbusy).
  pose proof (at_start w id f v p QueueNone (vm_pol _ _ Hi) Hl Hv) as Hat. rewrite Hz in Hat. unfold fill_frame. apply wp_bind.
  eapply wp_mono; [eapply read_previous_spec; [exact Hat|apply Hp|done|apply (vm_swap _ _ Hi)]|]. intros r w1 o1 (-> & bytes & sw' & Hw1 & Hsw & Hr).
  assert (∀ p' u' by_ sw1 w2, at_page w id f v p' u' by_ (leaves w) sw1 w2 → vpages w2 = vpages w) as Hsame.
  { intros p' u' by_ sw1 w2 Hw2. rewrite (at_vpages _ _ _ _ _ _ _ _ _ _ Hw2). by apply insert_id. }
  destruct r as [[]|e].
  - specialize (Hr eq_refl). subst bytes.
    assert (∀ p2 w2, at_page w id f v p2 QueueNone (contents g id) (leaves w) sw' w2 → touched p p2 → map_count p2 = map_count p → (is_Some (pager v) → dirty p2 = false) →
      wp (ret (Ok f)) (λ r w' o', o' = o ∧ vpages w' = vpages w ∧ match r with Ok f' => f' = f ∧ vm_inv (set_job id (Some (Filled b f)) g) w' | Err e => vm_inv (set_job id (Some (Failed b e)) g) w' end) w2 o) as Hdone.
    { intros p2 w2 Hw2 Ht Hm Hd. apply wp_ret. split; [done|]. split; [by eapply Hsame|]. split; [done|].
      eapply (job_close g w w2 id v f); [done|done|done|done|done|exact Hw2|done|done|by intros q [= ->]|]. cbn [job_ok]. split_and!; [done|done|apply (at_frame_bytes Hw2)|].
      exists p2. split_and!; [apply (at_entry Hw2)|by eapply loose_touched|by rewrite (touch_busy _ _ Ht)|done]. }
    apply wp_bind. case_bool_decide as Eb.
    + subst b. destruct Hs as (_ & _ & Hpg). apply (wp_update_frame Hw1); [apply mark_dirty_update|]. intros w2 Hw2. eapply Hdone; [exact Hw2|apply touched_dirty|done|]. rewrite Hpg. by intros [].
    + apply wp_bind, (wp_update_frame Hw1); [apply mark_clean_update|]. intros w2 Hw2. assert (dirty (mark_clean p) = false) as Hc by apply dirty_clean.
      assert (touched p (mark_unknown (mark_clean p))) as Hu by (etrans; [apply touched_clean|apply touched_unknown]).
      destruct b as [| |q|h|l' wt']; try (apply wp_ret; by eapply Hdone; [exact Hw2|apply touched_clean|done|]).
      apply (wp_update_frame Hw2); [apply mark_unknown_update|]. intros w3 Hw3. eapply Hdone; [exact Hw3|done|done|]. by rewrite dirty_unknown.
  - apply wp_bind, (wp_free_frame Hw1); [done|by apply loose_releasable|]. intros w2 Hw2. apply wp_ret. split; [done|]. split; [by eapply Hsame|].
    eapply (job_close g w w2 id v f); [done|done|done|done|done|exact Hw2|done|done|done|]. done.
Qed.

(** ** Publishing *)

Lemma bound_owned id v ex p : page_wf p → loose_frame p → owner_kind v ≠ OwnNone →
  let p' := bound id (owner_kind v) (bool_decide (owner_kind v = OwnFile) && ex) p in
  owned_frame id v p' ∧ wire_count p' = 0 ∧ map_count p' = 0 ∧ has_flag (flags p') BUSY = has_flag (flags p) BUSY ∧ dirty p' = dirty p.
Proof.
  intros (st & us & k & Hs & _ & _ & _ & Hx) [Hst Hu Hk (Hw & Hl & Hm)] Hkind p'. destruct (status_packed _ _ _ _ _ Hs) as (E1 & E2 & E3). simplify_eq.
  assert (has_flag (flags p) EXECUTABLE = false) as Hex by (destruct (has_flag (flags p) EXECUTABLE); [by specialize (Hx eq_refl)|done]).
  set (e := bool_decide (owner_kind v = OwnFile) && ex) in *. destruct (bound_spec id (owner_kind v) e p UseManaged Hs eq_refl Hkind Hex) as (F1 & F2 & _ & _).
  { intros Ee. unfold e in Ee. apply andb_true_iff in Ee as [Ee _]. by apply bool_decide_eq_true in Ee. }
  pose proof (set_owner_packed (with_owner (Some id) p) _ _ _ _ (owner_kind v) Hs) as Hs'. destruct (status_packed p' _ _ _ _ Hs') as (_ & F3 & _).
  assert (∀ fl, has_flag (Z.lor TABLED (owner_flags (owner_kind v) e)) fl = false → has_flag (flags p') fl = has_flag (flags p) fl) as Hfl by (intros fl Hfl; by apply has_flag_or).
  split_and!; try done; apply Hfl; by destruct (owner_kind v), e.
Qed.
(** The page with its new frame. *)
Definition handle_of b : option SwapHandle := match b with BSwapped h => Some h | _ => None end.
Definition published f b v : VmPage := with_resident_frame (Some f) (with_backing (BResident f) (with_reject 0 (with_resident_swap (handle_of b) v))).
Lemma published_resident g id v b f p ls : away g id v → stored_as g id v b → loose_frame p → page_wf p → owner_kind v ≠ OwnNone → has_flag (flags p) BUSY = false →
  (is_Some (pager v) → dirty p = false) →
  resident_ok (set_job id None g) id ls (published f b v) f (mark_referenced (bound id (owner_kind v) (bool_decide (owner_kind v = OwnFile) && executable v) p)) QueueActive (contents g id).
Proof.
  intros (Hres & Hrs & Hms & Hpins & Hwin & Hun) Hs Hp Hwf Hk Hbusy Hd. destruct (bound_owned id v (executable v) p Hwf Hp Hk) as (Hown & Hwire & Hmaps & Hbusy' & Hdirty).
  set (p1 := bound id (owner_kind v) _ p) in *. assert (mappings (published f b v) = []) as Hms' by done.
  split; rewrite ?Hms'; cbn [published with_resident_frame with_backing with_reject with_resident_swap pins set_job write_windows resident unmapping]; try done.
  - apply (owned_touched id v _ p1); [apply touched_referenced|done|done].
  - rewrite (touch_busy _ _ (touched_referenced p1)). congruence.
  - rewrite Hun. split; [cbn; exact Hmaps|lia].
  - rewrite Hpins. split; [exact Hwire|lia].
  - split; rewrite Hms'; [constructor|by intros k ?%elem_of_nil].
  - unfold backed. rewrite Hms'. cbn [pager published with_resident_frame with_backing with_reject with_resident_swap resident_swap contents slots set_job write_windows vp_index].
    destruct b as [| |q|h'|l' wt']; cbn [stored_as handle_of] in *; try done.
    + by destruct Hs as (_ & ? & ->).
    + destruct Hs as (Hsl & pg & Hpg & Hc). rewrite Hpg. split_and!; try done; [|by intros k l ?%elem_of_nil]. split; [|rewrite Hms'; by intros k l ?%elem_of_nil].
      rewrite dirty_referenced, Hdirty. apply Hd. by rewrite Hpg.
    + destruct Hs as (? & ->). by exists (contents g id).
  - rewrite Hwin, Hpins. split; lia.
Qed.
(** The last part of the section. *)
Lemma publish_rest who g w id v b f p sw w1 wt loc o : who_ok who → vm_inv g w → vpages w !! id = Some v → jobs g !! id = Some (Filled b f) → backing v = BBusy loc wt →
  away g id v → stored_as g id v b → look (pol w) f = Some (p, QueueNone) → loose_frame p → has_flag (flags p) BUSY = false → (is_Some (pager v) → dirty p = false) →
  at_page w id f (with_resident_swap (handle_of b) v) p QueueNone (contents g id) (leaves w) sw w1 → swap_inv (map_to_list (slots g)).*2 sw →
  wp (do update_vp id (with_reject 0) then do on_frames (bind_owner f id (executable v) (owner_kind v)) then do update_frame f mark_referenced then
      do update_vp id (λ v, with_resident_frame (Some f) (with_backing (BResident f) v)) then do activate_frame who f then ret (Ok f : result Error Z, wt))
    (λ r w' o', o' = o ∧ r.1 = Ok f ∧ vm_inv (set_job id None g) w' ∧ vpages w' = <[id:=published f b v]> (vpages w)) w1 o.
Proof.
  intros Hwho Hi Hv Hj Hb Ha Hs Hl Hp Hbusy Hd Hw1 Hsw. destruct (job_open g w id v _ Hi Hv Hj) as (_ & _ & _ & _ & _ & Hok & Hk & Hh).
  pose proof (look_wf _ _ _ _ (vm_pol _ _ Hi) Hl) as Hwf. pose proof (published_resident g id v b f p (leaves w) Ha Hs Hp Hwf Hk Hbusy Hd) as Hr.
  destruct (bound_owned id v (executable v) p Hwf Hp Hk) as (_ & Hwire & _).
  apply wp_bind, (wp_update_vp Hw1). intros w2 Hw2. apply wp_bind, (wp_bind_owner Hw2); [apply Hp..|done|]. intros w3 Hw3.
  apply wp_bind, (wp_update_frame Hw3); [apply mark_referenced_update|]. intros w4 Hw4. apply wp_bind, (wp_update_vp Hw4). intros w5 Hw5.
  apply wp_bind, (wp_activate_frame Hw5); [done|]. intros w6 Hw6. apply wp_ret. split; [done|]. split; [done|]. set (p1 := bound id (owner_kind v) _ p) in *.
  change (wire_count (mark_referenced p1)) with (wire_count p1) in Hw6. rewrite Hwire in Hw6. cbn [Z.eqb] in Hw6. fold (published f b v) in Hw6.
  split; [|apply (at_vpages _ _ _ _ _ _ _ _ _ _ Hw6)].
  eapply (vm_inv_local g (set_job id None g) w w6 id f v (published f b v)); [done|done|exact Hw6|done|intros i ?; by apply set_job_other| |left; done| |done|by eapply leaves_local_same].
  - split_and!; [done|done|]. cbn [published backing with_resident_frame with_backing]. split; [apply set_job_at|].
    eexists _, QueueActive. rewrite (at_frame_bytes Hw6), (at_leaves _ _ _ _ _ _ _ _ _ _ Hw6). split; [apply (at_entry Hw6)|exact Hr].
  - intros q. unfold frame_held. cbn [published backing with_resident_frame with_backing]. by intros [= ->].
Qed.
Lemma publish_ok who g w id v b f o : who_ok who → vm_inv g w → vpages w !! id = Some v → jobs g !! id = Some (Filled b f) →
  wp (publish_page who id b (Ok f)) (λ r w' o', o' = o ∧ r.1 = Ok f ∧ vm_inv (set_job id None g) w' ∧ vpages w' = <[id:=published f b v]> (vpages w)) w o.
Proof.
  intros Hwho Hi Hv Hj. destruct (job_open g w id v _ Hi Hv Hj) as (loc & wt & Hb & Ha & Hjob & Hok & Hk & Hh). cbn [job_ok] in Hjob. destruct Hjob as (Hs & Hloc & Hby & p & Hl & Hp & Hbusy & Hd).
  pose proof (at_start w id f v p QueueNone (vm_pol _ _ Hi) Hl Hv) as Hat. rewrite Hby in Hat. unfold publish_page. apply wp_bind, (wp_get_vp Hat). rewrite Hb. apply wp_bind.
  assert (with_resident_swap None v = v) as Hno by (destruct Ha as (_ & Hrs & _); destruct v; cbn in *; by subst).
  destruct b as [| |q|h'|l' wt']; [| |done| |done].
  1,2: apply wp_ret; eapply publish_rest; try done; [|apply (vm_swap _ _ Hi)]; cbn [handle_of]; rewrite Hno; exact Hat.
  pose proof (proj1 Hs) as Hsl. apply wp_bind, (wp_on_swap Hat). eapply wp_mono; [eapply (set_resident_spec _ _ h' (contents g id) true); [apply (vm_swap _ _ Hi)|by eapply live_in]|].
  intros [] sw' o' [-> Hsw']. intros w1 Hw1. apply (wp_update_vp Hw1). intros w2 Hw2. eapply publish_rest; done.
Qed.
Lemma publish_err who g w id v b e o : vm_inv g w → vpages w !! id = Some v → jobs g !! id = Some (Loading b) ∨ jobs g !! id = Some (Failed b e) →
  wp (publish_page who id b (Err e)) (λ r w' o', o' = o ∧ r.1 = Err e ∧ vm_inv (set_job id None g) w' ∧ vpages w' = <[id:=with_backing b v]> (vpages w)) w o.
Proof.
  intros Hi Hv Hj. assert (∃ j, jobs g !! id = Some j ∧ job_frame j = None ∧ ∀ v loc lk by_, job_ok g id v loc j lk by_ → stored_as g id v b) as (j & Hj' & Hf & Hst).
  { destruct Hj as [Hj|Hj]; (eexists; split; [exact Hj|]; split; [done|]); by intros ? ? ? ? []. }
  destruct (job_open g w id v j Hi Hv Hj') as (loc & wt & Hb & Ha & Hjob%Hst & Hok & Hk & Hh).
  assert (∀ l' wt', b ≠ BBusy l' wt') as Hnb by (intros l' wt' ->; done). assert (∀ q, b ≠ BResident q) as Hnr by (intros q ->; done).
  unfold publish_page, update_vp. apply wp_bind, (wp_find_vp w id v _ _ Hv). rewrite Hb. apply wp_bind, wp_bind, (wp_find_vp w id v _ _ Hv). wp_steps. split_and!; try done.
  eapply (vm_inv_page g); [done|done|intros f; rewrite Hb; done|done|intros i ?; by apply set_job_other| |apply Ha|].
  - unfold page_holds. cbn [backing with_backing owner_kind contents set_job]. split_and!; [done|done|].
    destruct b as [| |q|h|l' wt']; try (by destruct (Hnr q)); try (by destruct (Hnb l' wt')); (split_and!; [by destruct Ha as (? & ? & ? & ? & ? & ?)|apply set_job_at|done]).
  - intros f. unfold frame_held. cbn [backing with_backing]. destruct b as [| |q|h|l' wt']; try done.
Qed.
End pagein.

(** * Logical pages: reclaim

    A resident page loses its frame when its contents are elsewhere: they are
    in the pager or in its swap slot when it is clean, and are written to swap
    otherwise. *)

Section pageout.
Context `{Lz4Laws} {B : Type} `{SwapBackendLaws B} `{VmPagerLaws}.
Implicit Types (w : Vm B) (g : Ghost) (v : VmPage) (id : nat) (p : Page) (u : PageQueue) (f : Z) (ls : gmap Key Leaf) (sw : Swap B) (bytes : list Z) (o : oracle).

Lemma owned_flags id v p fl : owned_frame id v p → owned_frame id v (with_flags fl p).
Proof. intros []. by split. Qed.
Lemma unbound_releasable id v p : page_wf p → owned_frame id v p → wire_count p = 0 → map_count p = 0 → releasable (unbound p).
Proof. intros Hwf [] Hw Hm. destruct (unbound_spec p Hwf) as (E1 & E2 & _). split_and!; try done. by rewrite E1. Qed.

(** ** Giving up the frame *)

Lemma wp_retire w id f v p u bytes ls sw w1 v0 Q o : at_page w id f v p u bytes ls sw w1 → (∀ w2, at_page w id f v p u bytes ls sw w2 → Q () w2 o) → wp (retire id v0) Q w1 o.
Proof.
  intros Hat HQ. unfold retire. destruct (pager_owner v0) as [ob|]; wp_steps; [|by apply HQ]. apply HQ. destruct (objects w1 !! ob); [|done]. case_bool_decide; [|done]. by destruct Hat.
Qed.
Lemma wp_release_frame who w id f v p u bytes ls sw w1 Q o : who_ok who → at_page w id f v p u bytes ls sw w1 → owned_frame id v p → wire_count p = 0 → map_count p = 0 →
  (∀ w2, at_page w id f v (released false (unbound p)) u bytes ls sw w2 → Q () w2 o) → wp (release_frame who f) Q w1 o.
Proof.
  intros Hwho Hat Hown Hw Hm HQ. pose proof (look_wf _ _ _ _ (at_pol _ _ _ _ _ _ _ _ _ _ Hat) (at_entry Hat)) as Hwf.
  unfold release_frame. apply wp_bind, (wp_clear_owner Hat). intros w2 Hw2. apply wp_bind, wp_modify.
  set (w3 := with_reclaimed _ w2). assert (at_page w id f v (unbound p) u bytes ls sw w3) as Hw3 by (by destruct Hw2).
  apply (wp_free_frame Hw3); [done|by eapply unbound_releasable|done].
Qed.
(** The page after its frame was freed: it is away and stored as [b]. *)
Definition evicted v b : VmPage := with_backing b (with_resident_swap None (with_resident_frame None (with_mappings [] v))).
Lemma evicted_close g g' w w' id v b f p bytes ls sw : vm_inv g w → vpages w !! id = Some v → backing v = BResident f ∨ frame_held g id v = Some f →
  at_page w id f (evicted v b) p QueueNone bytes ls sw w' → swap_inv (map_to_list (slots g')).*2 sw → (∀ i, i ≠ id → ghost_same i g g') → contents g' id = contents g id →
  pins g' id = 0 → unmapping g' id = 0 → write_windows v = 0 → jobs g' !! id = None → stored_as g' id v b → (∀ k, ls !! k = if decide (k ∈ mappings v) then None else leaves w !! k) → mapped id f (leaves w) v →
  vm_inv g' w'.
Proof.
  intros Hi Hv Hf Hat Hsw Hg Hc Hpins Hun Hwin Hj Hs Hls [_ Hm]. destruct (vm_pages _ _ Hi _ _ Hv) as (Hok & Hk & _).
  assert (∀ l' wt', b ≠ BBusy l' wt') as Hnb by (intros l' wt' ->; done). assert (∀ q, b ≠ BResident q) as Hnr by (intros q ->; done).
  eapply (vm_inv_local g g' w w' id f v (evicted v b)); [done|done|exact Hat|done|done| | | |done|].
  - unfold page_holds. cbn [evicted backing with_backing owner_kind]. rewrite Hc. split_and!; [done|done|].
    destruct b as [| |q|h|l' wt']; try (by destruct (Hnr q)); try (by destruct (Hnb l' wt')); by split_and!.
  - left. destruct Hf as [Hf|Hf]; [|done]. unfold frame_held. by rewrite Hf.
  - intros q. unfold frame_held. cbn [evicted backing with_backing]. destruct b as [| |q'|h|l' wt']; done.
  - split.
    + intros k l Hne. rewrite Hls. case_decide as Hk'; [|done]. split; [done|]. intros Hl. destruct (Hm k Hk') as (l0 & Hl0 & E & _). congruence.
    + intros k l E. rewrite Hls. case_decide as Hk'; [done|]. intros Hl. destruct (vm_leaves _ _ Hi _ _ Hl) as (v1 & Hv1 & Hk1). rewrite E, Hv in Hv1. congruence.
Qed.

(** ** The first section *)

Lemma unmap_if_spec g w id v f p u ls Q o : vm_inv g w → vpages w !! id = Some v → backing v = BResident f → ls = leaves w →
  at_page w id f v p u (contents g id) ls (swap w) w → resident_ok g id ls v f p u (contents g id) →
  (∀ w2 p' ls', at_page w id f (with_mappings [] v) p' u (contents g id) ls' (swap w) w2 → unmapped v p ls p' ls' → Q () w2 o) →
  wp (if negb (map_count p =? 0) then remove_all_mappings id else ret ()) Q w o.
Proof.
  intros Hi Hv Hb -> Hat Hr HQ. pose proof (res_maps _ _ _ _ _ _ _ _ Hr) as Hm. destruct (Z.eqb_spec (map_count p) 0) as [E|E]; cbn [negb].
  - assert (mappings v = []) as Hms by (apply length_zero_iff_nil; lia). apply wp_ret. apply (HQ w p (leaves w)).
    + replace (with_mappings [] v) with v; [done|]. destruct v; cbn in *; by subst.
    + split; try done; [rewrite Hms; cbn; lia| |by intros []|by intros k; rewrite Hms, decide_False by apply not_elem_of_nil]. intros Hd. split; [done|]. rewrite Hms. by intros k l ?%elem_of_nil.
  - eapply remove_all_spec; [exact Hat|by eapply res_pointer|lia|by eapply res_mapped|done].
Qed.
(** The frame of a reclaim candidate that is marked busy. *)
Definition seized p : Page := resolve_unknown (try_busy p).2.
Lemma seized_spec id v p p1 : touched p p1 → owned_frame id v p → has_flag (flags p) BUSY = false →
  owned_frame id v (seized p1) ∧ dirty (seized p1) = dirty p1 ∧ wire_count (seized p1) = wire_count p ∧ map_count (seized p1) = map_count p1.
Proof.
  intros Ht Ho Hb. assert (has_flag (flags p1) BUSY = false) as Hb1 by (by rewrite (touch_busy _ _ Ht)).
  assert (seized p1 = with_flags (Z.land (Z.lor (flags p1) BUSY) (u32_not DIRTY_UNKNOWN)) p1) as E by (unfold seized, try_busy; by rewrite Hb1).
  rewrite E. split_and!; [|unfold dirty; cbn [flags with_flags]; rewrite has_flag_keeps by done; by apply has_flag_or|by cbn; rewrite (touch_wires _ _ Ht)|done].
  by apply owned_flags, (owned_touched id v _ p).
Qed.

Definition begun g id w r w' : Prop :=
  only_page id w w' ∧
  match r with
  | Finished _ => vm_inv g w'
  | Storing f => vm_inv (set_job id (Some (Writing f)) (set_slot_of id None g)) w'
  end.
Lemma seize_close g g' w w' id v f p bytes ls sw : vm_inv g w → vpages w !! id = Some v → backing v = BResident f →
  at_page w id f (evicted v (BBusy LocResident false)) p QueueNone bytes ls sw w' → swap_inv (map_to_list (slots g')).*2 sw → (∀ i, i ≠ id → ghost_same i g g') →
  contents g' id = contents g id → pins g' id = 0 → unmapping g' id = 0 → write_windows v = 0 → jobs g' !! id = Some (Writing f) → slots g' !! id = None → pager v = None → bytes = contents g id →
  owned_frame id v p → wire_count p = 0 → map_count p = 0 → (∀ k, ls !! k = if decide (k ∈ mappings v) then None else leaves w !! k) → mapped id f (leaves w) v → vm_inv g' w'.
Proof.
  intros Hi Hv Hb Hat Hsw Hg Hc Hpins Hun Hwin Hj Hs Hpg -> Hown Hw Hmc Hls [_ Hm]. destruct (vm_pages _ _ Hi _ _ Hv) as (Hok & Hk & _).
  eapply (vm_inv_local g g' w w' id f v (evicted v (BBusy LocResident false))); [done|done|exact Hat|done|done| |left; unfold frame_held; by rewrite Hb| |done|].
  - unfold page_holds. cbn [evicted backing with_backing owner_kind]. rewrite Hc. split_and!; [done|done|by split_and!|]. exists (Writing f). split; [done|]. cbn [job_ok].
    split_and!; [done|done|done|by rewrite (at_frame_bytes Hat)|]. exists p. split_and!; [apply (at_entry Hat)|by apply (owned_page id v)|done|done].
  - intros q. unfold frame_held. cbn [evicted backing with_backing]. rewrite Hj. by intros [= ->].
  - split.
    + intros k l Hne. rewrite Hls. case_decide as Hk'; [|done]. split; [done|]. intros Hl. destruct (Hm k Hk') as (l0 & Hl0 & E & _). congruence.
    + intros k l E. rewrite Hls. case_decide as Hk'; [done|]. intros Hl. destruct (vm_leaves _ _ Hi _ _ Hl) as (v1 & Hv1 & Hk1). rewrite E, Hv in Hv1. congruence.
Qed.
Section seized.
Context (who : Who) (Hwho : who_ok who) (g : Ghost) (w : Vm B) (id : nat) (v : VmPage) (f : Z) (p : Page) (u : PageQueue) (p2 : Page) (ls : gmap Key Leaf) (w2 : Vm B).
Hypothesis Hi : vm_inv g w.
Hypothesis Hv : vpages w !! id = Some v.
Hypothesis Hb : backing v = BResident f.
Hypothesis Hr : resident_ok g id (leaves w) v f p u (contents g id).
Hypothesis Hat : at_page w id f (with_resident_frame None (with_mappings [] v)) p2 QueueNone (contents g id) ls (swap w) w2.
Hypothesis Hown : owned_frame id v p2.
Hypothesis Hun : unmapping g id = 0.
Hypothesis Hcounts : wire_count p = 0 ∧ wire_count p2 = 0 ∧ map_count p2 = 0.
Hypothesis Hdirty : dirty p2 = false ↔ clean (leaves w) v p.
Hypothesis Hls : ∀ k, ls !! k = if decide (k ∈ mappings v) then None else leaves w !! k.

Lemma seized_pins : pins g id = 0 ∧ write_windows v = 0.
Proof. destruct (res_pins _ _ _ _ _ _ _ _ Hr) as [E _]. destruct (res_windows _ _ _ _ _ _ _ _ Hr) as [? _]. destruct Hcounts as (? & _). lia. Qed.
(** The frame of a page that is stored as [b] is freed. *)
Lemma seized_release b sw w3 p3 Q o : at_page w id f (evicted v b) p3 QueueNone (contents g id) ls sw w3 → touched p2 p3 ∨ p3 = (unbusy p2).2 → map_count p3 = 0 → stored_as g id v b →
  swap_inv (map_to_list (slots g)).*2 sw → jobs g !! id = None → (∀ w', begun g id w (Finished true) w' → Q () w' o) → wp (release_frame who f) Q w3 o.
Proof.
  intros Hw3 Ht Hm Hs Hsw Hj HQ. destruct seized_pins as [Hpins Hwin]. destruct Hcounts as (_ & Hw & _).
  assert (owned_frame id v p3 ∧ wire_count p3 = 0) as [Hown3 Hw3'].
  { destruct Ht as [Ht| ->]; [split; [by apply (owned_touched id v _ p2)|by rewrite (touch_wires _ _ Ht)]|]. split; [by apply owned_flags|done]. }
  eapply wp_release_frame; [done|exact Hw3|by apply (owned_page id v)|done|done|]. intros w4 Hw4. apply HQ. split; [by eapply at_only_page|].
  eapply (evicted_close g g); [done|done|by left|exact Hw4|done..|by eapply res_mapped].
Qed.
Lemma reclaim_seized_spec o : wp (reclaim_seized who id f) (λ r w' o', o' = o ∧ begun g id w r w' ∧ (r = Finished true ∨ r = Storing f)) w2 o.
Proof.
  destruct (resident_open g w id v f Hi Hv Hb) as (_ & _ & _ & _ & Hj & _). destruct seized_pins as [Hpins Hwin]. pose proof Hcounts as (_ & Hw0 & Hm0).
  pose proof (res_backed _ _ _ _ _ _ _ _ Hr) as Hbk. unfold backed in Hbk. unfold reclaim_seized. apply wp_bind, (wp_frame_entry Hat). intros e _ Ee. apply wp_bind, (wp_get_vp Hat).
  assert (has_flag (flags e) DIRTY = dirty p2) as -> by (rewrite Ee; done). cbn [pager with_resident_frame with_mappings resident_swap].
  destruct (pager v) as [pg|] eqn:Hpg.
  - destruct Hbk as (Hc & Hrs & Hsl & Hclean & _). rewrite (proj2 Hdirty Hclean). rewrite bool_decide_true by done. cbn [andb negb].
    apply wp_bind, (wp_update_vp Hat). intros w3 Hw3. apply wp_bind. eapply wp_retire; [exact Hw3|]. intros w4 Hw4. unfold unbusy_frame.
    apply wp_bind, (wp_update_frame Hw4); [apply unbusy_update|]. intros w5 Hw5. apply wp_bind.
    eapply (seized_release BFile); [|by right|exact Hm0| |apply (vm_swap _ _ Hi)|done|intros w6 Hw6; apply wp_ret; by split_and!; [| |left]].
    + replace (evicted v BFile) with (with_backing BFile (with_resident_frame None (with_mappings [] v))); [exact Hw5|]. destruct v; cbn in *; by subst.
    + split; [done|]. by exists pg.
  - rewrite bool_decide_false by (by intros []). cbn [andb]. apply wp_bind, (wp_update_vp Hat). intros w3 Hw3.
    assert (∀ sw' w4, at_page w id f (with_resident_swap None (with_resident_frame None (with_mappings [] v))) p2 QueueNone (contents g id) ls sw' w4 →
      swap_inv (map_to_list (slots (set_slot_of id None g))).*2 sw' →
      wp (do update_vp id (with_backing (BBusy LocResident false)) then ret (Storing f)) (λ r w' o', o' = o ∧ begun g id w r w' ∧ (r = Finished true ∨ r = Storing f)) w4 o) as Hstore.
    { intros sw' w4 Hw4 Hsw'. apply wp_bind, (wp_update_vp Hw4). intros w5 Hw5. apply wp_ret. split; [done|]. split; [|by right]. split; [by eapply at_only_page|].
      eapply (seize_close g (set_job id (Some (Writing f)) (set_slot_of id None g))); [done|done|done|exact Hw5|done| |done|done|done|done|apply set_job_at|apply set_slot_at|done|done|done|done|done|done|by eapply res_mapped].
      intros i Hne. destruct (set_slot_other id i None g Hne) as (? & ? & ? & ? & ?), (set_job_other id i (Some (Writing f)) (set_slot_of id None g) Hne) as (? & ? & ? & ? & ?). split_and!; congruence. }
    destruct (resident_swap v) as [h|] eqn:Ehs.
    + destruct Hbk as (page & Hsl & Hcl). destruct (dirty p2) eqn:Ed; cbn [negb].
      * apply wp_bind, (wp_on_swap Hw3). eapply wp_mono; [apply (free_handle g id h page); [apply (vm_swap _ _ Hi)|done]|]. intros [] sw' o' [-> Hsw']. intros w4 Hw4. by eapply Hstore.
      * rewrite (Hcl (proj1 Hdirty eq_refl)) in Hsl. apply wp_bind, (wp_on_swap Hw3).
        eapply wp_mono; [eapply (set_resident_spec _ _ h (contents g id) false); [apply (vm_swap _ _ Hi)|by eapply live_in]|]. intros [] sw' o' [-> Hsw']. intros w4 Hw4.
        apply wp_bind, (wp_update_vp Hw4). intros w5 Hw5. unfold unbusy_frame. apply wp_bind, (wp_update_frame Hw5); [apply unbusy_update|]. intros w6 Hw6. apply wp_bind.
        eapply (seized_release (BSwapped h)); [exact Hw6|by right|exact Hm0|done|done|done|intros w7 Hw7; apply wp_ret; by split_and!; [| |left]].
    + eapply Hstore; [exact Hw3|]. replace (slots (set_slot_of id None g)) with (slots g); [apply (vm_swap _ _ Hi)|]. symmetry. by apply delete_id.
Qed.
End seized.

(** A page that was unmapped and keeps its frame. *)
Lemma unmapped_close g w w' id v f p u p' u' ls : vm_inv g w → vpages w !! id = Some v → backing v = BResident f → resident_ok g id (leaves w) v f p u (contents g id) →
  at_page w id f (with_mappings [] v) p' u' (contents g id) ls (swap w) w' → unmapped v p (leaves w) p' ls → (u' = QueueNone ↔ u = QueueNone) → vm_inv g w'.
Proof.
  intros Hi Hv Hb Hr Hat [Ht Hm Hd1 Hd2 Hls] Hu. destruct (resident_open g w id v f Hi Hv Hb) as (p0 & u0 & _ & _ & Hj & Hok & Hk & _). destruct (res_mapped _ _ _ _ _ _ _ _ Hr) as [_ Hm0].
  eapply (resident_close g g); [done|done|done|exact Hat|done|done|done|done|done|done| |].
  - destruct Hr. split; try done; cbn [mappings with_mappings].
    + by apply (owned_touched id v _ p).
    + by rewrite (touch_busy _ _ Ht).
    + rewrite Hm. cbn. lia.
    + by rewrite (touch_wires _ _ Ht).
    + by rewrite Hu, (touch_wires _ _ Ht).
    + split; [constructor|]. by intros k ?%elem_of_nil.
    + assert (clean ls (with_mappings [] v) p' ↔ clean (leaves w) v p) as Hc.
      { split; [by intros [? _]; apply Hd1|]. intros Hc. split; [by apply Hd2|]. by intros k l ?%elem_of_nil. }
      unfold backed in *. cbn [pager with_mappings resident_swap mappings write_windows vp_index]. destruct (pager v); rewrite ?Hc.
      * destruct res_backed as (? & ? & ? & ? & ? & _). split_and!; try done. by intros k l ?%elem_of_nil.
      * destruct (resident_swap v); [|done]. destruct res_backed as (page & ? & ?). exists page. by rewrite Hc.
    + destruct res_windows as [? Hw]. split; [done|]. intros Hpos. specialize (Hw Hpos). apply not_false_iff_true. intros [Hc _]%Hd1. congruence.
  - split.
    + intros k l Hne. rewrite Hls. case_decide as Hk'; [|done]. split; [done|]. intros Hl. destruct (Hm0 k Hk') as (l0 & Hl0 & E & _). congruence.
    + intros k l E. rewrite Hls. case_decide as Hk'; [done|]. intros Hl. destruct (vm_leaves _ _ Hi _ _ Hl) as (v1 & Hv1 & Hk1). rewrite E, Hv in Hv1. congruence.
Qed.
Lemma reclaim_begin_spec who g w id v o : who_ok who → vm_inv g w → vpages w !! id = Some v →
  wp (reclaim_begin who id) (λ r w' o', o' = o ∧ begun g id w r w') w o.
Proof.
  intros Hwho Hi Hv. unfold reclaim_begin. apply wp_bind, (wp_find_vp w id v _ _ Hv).
  destruct (backing v) as [| |f|h|loc wt] eqn:Hb; try (apply wp_ret; split; [done|]; split; [split; [done|by rewrite Hv]|done]).
  destruct (resident_open g w id v f Hi Hv Hb) as (p & u & Hat & Hr & Hj & _). pose proof (res_owned _ _ _ _ _ _ _ _ Hr) as Hown.
  assert (wp (do activate_frame who f then ret (Finished false)) (λ r w' o', o' = o ∧ begun g id w r w') w o) as Hstop.
  { apply wp_bind, (wp_activate_frame Hat); [done|]. intros w1 Hw1. apply wp_ret. split; [done|]. split; [by eapply at_only_page|].
    eapply (calm_close g w w1 id v v f p p u); [done..|exact Hw1|]. apply calm_frame; [apply same_page_refl|done|done|exact (queue_after _ _ _ _ _ _ _ _ Hr)|done]. }
  apply wp_bind, wp_get. apply wp_bind, (wp_frame_entry Hat). intros e _ Ee. destruct (swap_rejected v w); [done|].
  destruct (negb (wire_count e =? 0) || negb (loan_count e =? 0)) eqn:Ew; [done|]. apply orb_false_iff in Ew as [Ew%negb_false_iff%Z.eqb_eq _].
  assert (wire_count p = 0) as Hw by (rewrite Ee; done). apply wp_bind. change (map_count e) with (map_count (with_policy 0 e)). rewrite <- Ee.
  eapply (unmap_if_spec g); [done|done|done|reflexivity|exact Hat|done|]. intros w1 p1 ls Hw1 [Ht Hm1 Hd1 Hd2 Hls].
  apply wp_bind, (wp_frame_entry Hw1). intros e1 He1 Ee1. destruct (seized_spec id v p p1 Ht Hown (res_idle _ _ _ _ _ _ _ _ Hr)) as (Hown2 & Hd3 & Hw2 & Hm2).
  assert (has_flag (flags e1) BUSY = false) as Hb1.
  { change (flags e1) with (flags (with_policy 0 e1)). rewrite <- Ee1, (touch_busy _ _ Ht). by eapply res_idle. }
  destruct (res_maps _ _ _ _ _ _ _ _ Hr) as [Hmaps Hunm]. assert (map_count p1 = unmapping g id) as Hm3 by lia.
  assert (reclaimable e1 = (unmapping g id =? 0)) as Hrc.
  { unfold reclaimable. change (map_count e1) with (map_count (with_policy 0 e1)). rewrite <- Ee1, Hm3, Hb1. pose proof (touch_wires _ _ Ht) as T1. pose proof (touch_loans _ _ Ht) as T2.
    rewrite Ee1 in T1, T2. cbn in T1, T2. rewrite T1, T2, Hw, (own_loans _ _ _ Hown). cbn. by rewrite andb_true_r. }
  destruct (try_busy e1) as [claimed p'] eqn:Et. assert (claimed = true ∧ p' = (try_busy e1).2) as [-> ->].
  { rewrite Et. split; [|done]. unfold try_busy in Et. rewrite Hb1 in Et. by injection Et as <- _. }
  clear Et. rewrite Hrc. apply wp_bind. destruct (Z.eqb_spec (unmapping g id) 0) as [Hun|Hun].
  - apply wp_bind. eapply (wp_replace_frame Hw1 (λ p, (try_busy p).2) e1); [apply try_busy_update|done|done|]. intros w2 Hw2'. apply wp_ret. cbn [negb].
    apply wp_bind, (wp_update_frame Hw2'); [apply resolve_unknown_update|]. intros w3 Hw3. apply wp_bind, (wp_remove_managed Hw3); [done|]. intros w4 Hw4.
    apply wp_bind, (wp_update_vp Hw4). intros w5 Hw5. fold (seized p1) in Hw5.
    eapply wp_mono; [eapply (reclaim_seized_spec who Hwho g w id v f p u (seized p1) ls w5); try done|].
    + split_and!; congruence.
    + rewrite Hd3. split; done.
    + intros r w' o' (-> & Hbg & _). done.
  - apply wp_ret. cbn [negb]. apply wp_bind, (wp_activate_frame Hw1); [done|]. intros w2 Hw2'. apply wp_ret. split; [done|]. split; [by eapply at_only_page|].
    eapply (unmapped_close g w w2 id v f p u p1); [done..|exact Hw2'|by split|]. rewrite (touch_wires _ _ Ht). exact (queue_after _ _ _ _ _ _ _ _ Hr).
Qed.

(** ** The write *)

Definition stored_ghost g id (r : result SwapError SwapHandle) : Ghost := match r with Ok h => set_slot_of id (Some (h, contents g id)) g | Err _ => g end.
Lemma store_frame_spec g w id v f o : vm_inv g w → vpages w !! id = Some v → jobs g !! id = Some (Writing f) →
  wp (store_frame f) (λ r w' _, vm_inv (set_job id (Some (Written f r)) (stored_ghost g id r)) w' ∧ vpages w' = vpages w ∧ only_page id w w') w o.
Proof.
  intros Hi Hv Hj. destruct (job_open g w id v _ Hi Hv Hj) as (loc & wt & Hb & Ha & Hjob & Hok & Hk & Hh). cbn [job_ok] in Hjob. destruct Hjob as (Hs & Hpg & Hloc & Hby & p & Hl & Hp).
  pose proof (at_start w id f v p QueueNone (vm_pol _ _ Hi) Hl Hv) as Hat. rewrite Hby in Hat. unfold store_frame. apply wp_bind, (wp_frame_bytes Hat). apply (wp_on_swap Hat).
  eapply wp_mono; [apply swap_store_spec; [apply (vm_swap _ _ Hi)|done]|]. intros r sw' o' Hr w1 Hw1. split; [|split; [rewrite (at_vpages _ _ _ _ _ _ _ _ _ _ Hw1); by apply insert_id|by eapply at_only_page]].
  assert (swap_inv (map_to_list (slots (stored_ghost g id r))).*2 sw') as Hsw.
  { destruct r as [h|e]; [|done]. eapply swap_inv_perm; [symmetry; by apply live_add|done]. }
  assert (∀ i, i ≠ id → ghost_same i g (stored_ghost g id r)) as Hg by (intros i Hne; destruct r; [by apply set_slot_other|done]).
  assert (contents (stored_ghost g id r) id = contents g id ∧ pins (stored_ghost g id r) id = pins g id ∧ unmapping (stored_ghost g id r) id = unmapping g id) as (Hc & Hpn & Hun) by (by destruct r).
  eapply (vm_inv_local g _ w w1 id f v v); [done|done|exact Hw1|done| | |left; done| |done|by eapply leaves_local_same].
  - intros i Hne. destruct (Hg i Hne) as (? & ? & ? & ? & ?), (set_job_other id i (Some (Written f r)) (stored_ghost g id r) Hne) as (? & ? & ? & ? & ?). split_and!; congruence.
  - unfold page_holds. rewrite Hb. cbn [contents set_job]. rewrite Hc. split_and!; [done|done| |].
    + destruct Ha as (? & ? & ? & ? & ? & ?). split_and!; try done; cbn [pins set_job unmapping]; by rewrite ?Hpn, ?Hun.
    + exists (Written f r). split; [apply set_job_at|]. cbn [job_ok contents slots set_job]. rewrite Hc, (at_frame_bytes Hw1). split_and!; try done.
      * destruct r; [apply set_slot_at|done].
      * exists p. split; [apply (at_entry Hw1)|done].
  - intros q. unfold frame_held. rewrite Hb, set_job_at. by intros [= ->].
Qed.

(** ** The last section *)

Lemma reclaim_finish_spec who g w id v f r o : who_ok who → vm_inv g w → vpages w !! id = Some v → jobs g !! id = Some (Written f r) →
  wp (reclaim_finish who id f r) (λ b w' o', o' = o ∧ vm_inv (set_job id None g) w' ∧ only_page id w w') w o.
Proof.
  intros Hwho Hi Hv Hj. destruct (job_open g w id v _ Hi Hv Hj) as (loc & wt & Hb & Ha & Hjob & Hok & Hk & Hh). cbn [job_ok] in Hjob. destruct Hjob as (Hpg & Hloc & Hby & Hs & p & Hl & Hp & Hw & Hm).
  pose proof (at_start w id f v p QueueNone (vm_pol _ _ Hi) Hl Hv) as Hat. rewrite Hby in Hat. destruct Ha as (Hres & Hrs & Hms & Hpins & Hwin & Hun).
  unfold reclaim_finish, unbusy_frame. apply wp_bind, (wp_get_vp Hat). rewrite Hb. destruct r as [h|e].
  - apply wp_bind, (wp_update_vp Hat). intros w1 Hw1. apply wp_bind, (wp_update_frame Hw1); [apply unbusy_update|]. intros w2 Hw2.
    apply wp_bind, (wp_update_frame Hw2); [apply mark_clean_update|]. intros w3 Hw3. apply wp_bind.
    eapply wp_release_frame; [done|exact Hw3|by apply (owned_page id v), owned_flags, owned_flags|done|done|]. intros w4 Hw4. apply wp_ret. split; [done|]. split; [|by eapply at_only_page].
    eapply (vm_inv_local g _ w w4 id f v); [done|done|exact Hw4|apply (vm_swap _ _ Hi)|intros i ?; by apply set_job_other| |left; done|done|done|by eapply leaves_local_same].
    unfold page_holds. cbn [backing with_backing with_reject owner_kind contents set_job]. split_and!; try done. apply set_job_at.
  - assert (∀ v1 w1, at_page w id f v1 (unbusy p).2 QueueNone (contents g id) (leaves w) (swap w) w1 → (∃ r, v1 = with_reject r (with_resident_frame (Some f) (with_backing (BResident f) v))) →
      wp (do activate_frame who f then ret (false, wt)) (λ b w' o', o' = o ∧ vm_inv (set_job id None g) w' ∧ only_page id w w') w1 o) as Hrest.
    { intros v1 w1 Hw1 (r & ->). apply wp_bind, (wp_activate_frame Hw1); [done|]. intros w2 Hw2. change (wire_count (unbusy p).2) with (wire_count p) in Hw2. rewrite Hw in Hw2. cbn [Z.eqb] in Hw2.
      apply wp_ret. split; [done|]. split; [|by eapply at_only_page].
      eapply (vm_inv_local g _ w w2 id f v); [done|done|exact Hw2|apply (vm_swap _ _ Hi)|intros i ?; by apply set_job_other| |left; done| |done|by eapply leaves_local_same].
      - unfold page_holds. cbn [backing with_backing with_resident_frame with_reject owner_kind contents set_job]. split_and!; [done|done|apply set_job_at|]. eexists _, QueueActive.
        split; [apply (at_entry Hw2)|]. rewrite (at_frame_bytes Hw2), (at_leaves _ _ _ _ _ _ _ _ _ _ Hw2).
        split; cbn [mappings with_reject with_resident_frame with_backing pins set_job write_windows resident unmapping]; rewrite ?Hms, ?Hpins, ?Hwin, ?Hun; try done.
        + by apply (owned_page id v), owned_flags.
        + by apply has_flag_drops.
        + split; cbn [mappings with_reject with_resident_frame with_backing]; rewrite Hms; [constructor|by intros k ?%elem_of_nil].
        + unfold backed. cbn [pager with_reject with_resident_frame with_backing resident_swap slots set_job]. by rewrite Hpg, Hrs.
      - intros q. unfold frame_held. cbn [backing with_reject with_resident_frame with_backing]. by intros [= ->]. }
    apply wp_bind, (wp_update_vp Hat). intros w1 Hw1. apply wp_bind, (wp_update_frame Hw1); [apply unbusy_update|]. intros w2 Hw2. apply wp_bind. case_bool_decide.
    + apply wp_bind, wp_get, (wp_update_vp Hw2). intros w3 Hw3. eapply Hrest; [exact Hw3|by eexists].
    + apply wp_ret. eapply Hrest; [exact Hw2|]. exists (swap_reject_generation v). by destruct v.
Qed.
End pageout.

(** * Logical pages: creation and destruction *)

Section new.
Context `{Lz4Laws} {B : Type} `{SwapBackendLaws B} `{VmPagerLaws}.
Implicit Types (w : Vm B) (g : Ghost) (v : VmPage) (id : nat) (p : Page) (u : PageQueue) (f : Z) (k : Key) (l : Leaf) (ls : gmap Key Leaf) (o : oracle) (bytes : list Z).

Lemma unmapped_leaves g w id v k l : vm_inv g w → vpages w !! id = Some v → mappings v = [] → leaves w !! k = Some l → lf_page l ≠ id.
Proof. intros Hi Hv Hm Hl E. destruct (vm_leaves _ _ Hi _ _ Hl) as (v1 & Hv1 & Hk). rewrite E, Hv in Hv1. injection Hv1 as <-. rewrite Hm in Hk. by apply elem_of_nil in Hk. Qed.
Lemma create_spec g w id v b o : vm_inv g w → vpages w !! id = None → stored_as g id v b → page_ok (contents g id) →
  backing v = b → owner_kind v ≠ OwnNone → resident v = None → resident_swap v = None → mappings v = [] → write_windows v = 0 →
  wp (create_page id v) (λ _ w' o', o' = o ∧ vm_inv g w') w o.
Proof.
  intros Hi Hn Hst Hok Hb Hk Hr Hrs Hm Hw. destruct (vm_gone _ _ Hi _ Hn) as (Hj & Hsl & Hp & Hu). unfold create_page. wp_steps. split; [done|].
  set (w' := with_vpages _ w). assert (∀ i, i ≠ id → vpages w' !! i = vpages w !! i) as Hout by (intros i ?; by apply lookup_insert_ne).
  assert (vpages w' !! id = Some v) as Hid by apply lookup_insert_eq. assert (frame_held g id v = None) as Hfh by (unfold frame_held; rewrite Hb; by destruct b).
  eapply (vm_inv_change (λ i, i = id)); [done|apply (vm_pol _ _ Hi)|apply (vm_swap _ _ Hi)|intros i ?; split; [by apply Hout|done]| |done|done| | |].
  - intros i ->. rewrite Hid. unfold page_holds. rewrite Hb. split; [done|]. split; [done|]. destruct b; try done.
  - intros k l E Hl. destruct (vm_leaves _ _ Hi _ _ Hl) as (v1 & Hv1 & _). congruence.
  - intros i1 i2 v1 v2 f -> H1' _ F1 _. rewrite Hid in H1'. congruence.
  - intros f p u Hl Hu'. destruct (vm_queues _ _ Hi _ _ _ Hl Hu') as (i & v1 & Hv1 & Hb1). exists i, v1. split; [|done]. rewrite Hout; [done|]. intros ->. congruence.
Qed.
(** The contents of a page that does not exist yet are arbitrary. *)
Lemma vm_inv_foretell g w id c : vm_inv g w → vpages w !! id = None → vm_inv (set_contents id c g) w.
Proof.
  intros Hi Hn. eapply (vm_inv_change (λ i, i = id)); [done|apply (vm_pol _ _ Hi)|apply (vm_swap _ _ Hi)|intros i ?; split; [done|by apply set_contents_other]| |done|done| | |apply (vm_queues _ _ Hi)].
  - intros i ->. rewrite Hn. apply (vm_gone _ _ Hi _ Hn).
  - intros k l E Hl. destruct (vm_leaves _ _ Hi _ _ Hl) as (v1 & Hv1 & _). congruence.
  - intros i1 i2 v1 v2 f -> H1'. congruence.
Qed.
Lemma create_zero_spec g w id index kind o : vm_inv g w → vpages w !! id = None → kind ≠ OwnNone →
  wp (create_page id (new_zero index kind)) (λ _ w' o', o' = o ∧ vm_inv (set_contents id zero_frame g) w') w o.
Proof.
  intros Hi Hn Hk. destruct (vm_gone _ _ Hi _ Hn) as (_ & Hsl & _). eapply (create_spec _ _ _ _ BZero); try done; rewrite ?set_contents_at.
  - by apply vm_inv_foretell.
  - split_and!; [by rewrite set_contents_at|done|done].
  - split; [apply zero_frame_length|]. apply Forall_replicate. unfold is_byte. lia.
Qed.
Lemma create_file_spec g w id index pg object o : vm_inv g w → vpages w !! id = None →
  wp (create_page id (new_file index pg object)) (λ _ w' o', o' = o ∧ vm_inv (set_contents id (pager_page pg (u64_mul index 4096)) g) w') w o.
Proof.
  intros Hi Hn. destruct (vm_gone _ _ Hi _ Hn) as (_ & Hsl & _). eapply (create_spec _ _ _ _ BFile); try done; rewrite ?set_contents_at.
  - by apply vm_inv_foretell.
  - split; [done|]. exists pg. split; [done|]. by rewrite set_contents_at.
  - apply pager_page_ok.
Qed.

(** ** Destruction *)

(** Nothing refers to the page any more. *)
Definition unused g id v : Prop := mappings v = [] ∧ pins g id = 0 ∧ unmapping g id = 0 ∧ ∀ loc wt, backing v ≠ BBusy loc wt.
(** The record goes away with the slot of the page; its frame was freed. *)
Lemma forget_close g w w1 id v f p bytes sw : vm_inv g w → vpages w !! id = Some v → unused g id v → at_page w id f v p QueueNone bytes (leaves w) sw w1 → backing v = BResident f →
  swap_inv (map_to_list (slots (set_slot_of id None g))).*2 sw → vm_inv (set_slot_of id None g) (with_vpages (delete id (vpages w1)) w1).
Proof.
  intros Hi Hv (Hm & Hp & Hun & Hbz) Hat Hb Hsw. set (w' := with_vpages _ w1). destruct (resident_open g w id v f Hi Hv Hb) as (_ & _ & _ & _ & Hj & _). destruct Hat.
  assert (vpages w' !! id = None) as Hid by apply lookup_delete_eq.
  assert (∀ i, i ≠ id → vpages w' !! i = vpages w !! i) as Hout by (intros i ?; unfold w'; cbn; rewrite lookup_delete_ne, at_vpages by done; by apply lookup_insert_ne).
  eapply (vm_inv_change (λ i, i = id)); [done|done|unfold w'; cbn; by rewrite at_swap|intros i ?; split; [by apply Hout|by apply set_slot_other]| | | | | |].
  - intros i ->. rewrite Hid. split_and!; try done. apply set_slot_at.
  - intros i v1 q Hne Hv1 Hh. unfold w'. cbn. rewrite at_look, at_bytes, !decide_False; [done| |]; intros ->; apply Hne; apply (vm_frames _ _ Hi _ _ v1 v f Hv1 Hv Hh); unfold frame_held; by rewrite Hb.
  - intros k l _. unfold w'. cbn. by rewrite at_leaves.
  - intros k l E Hl. unfold w' in Hl. cbn in Hl. rewrite at_leaves in Hl. by destruct (unmapped_leaves g w id v k l Hi Hv Hm Hl).
  - intros i1 i2 v1 v2 q -> H1'. congruence.
  - intros q p' u' Hl Hu. unfold w' in Hl. cbn in Hl. rewrite at_look in Hl. case_decide as E; [injection Hl as <- <-; done|].
    destruct (vm_queues _ _ Hi _ _ _ Hl Hu) as (i & v1 & Hv1 & Hb1). exists i, v1. split; [|done]. rewrite Hout; [done|]. intros ->. congruence.
Qed.
(** A page without a frame goes away. *)
Lemma forget_away g w id v sw : vm_inv g w → vpages w !! id = Some v → unused g id v → (∀ f, backing v ≠ BResident f) →
  swap_inv (map_to_list (slots (set_slot_of id None g))).*2 sw → vm_inv (set_slot_of id None g) (with_vpages (delete id (vpages w)) (with_swap sw w)).
Proof.
  intros Hi Hv (Hm & Hp & Hun & Hbz) Hb Hsw. set (w' := with_vpages _ _). assert (vpages w' !! id = None) as Hid by apply lookup_delete_eq.
  assert (∀ i, i ≠ id → vpages w' !! i = vpages w !! i) as Hout by (intros i ?; unfold w'; cbn; by rewrite lookup_delete_ne).
  assert (jobs g !! id = None) as Hj. { destruct (vm_pages _ _ Hi _ _ Hv) as (_ & _ & Hh). destruct (backing v) as [| |f|h|loc wt] eqn:Eb; try apply Hh. by destruct (Hbz loc wt). }
  eapply (vm_inv_change (λ i, i = id)); [done|apply (vm_pol _ _ Hi)|done|intros i ?; split; [by apply Hout|by apply set_slot_other]| |done|done| | |].
  - intros i ->. rewrite Hid. split_and!; try done. apply set_slot_at.
  - intros k l E Hl. by destruct (unmapped_leaves g w id v k l Hi Hv Hm Hl).
  - intros i1 i2 v1 v2 q -> H1'. congruence.
  - intros q p' u' Hl Hu. destruct (vm_queues _ _ Hi _ _ _ Hl Hu) as (i & v1 & Hv1 & Hb1). exists i, v1. split; [|done]. rewrite Hout; [done|]. intros ->. assert (v1 = v) as -> by congruence. by destruct (Hb q).
Qed.

Lemma drop_resident who g w id v f p u sw w1 o : who_ok who → vm_inv g w → vpages w !! id = Some v → unused g id v → backing v = BResident f →
  resident_ok g id (leaves w) v f p u (contents g id) → at_page w id f v p u (contents g id) (leaves w) sw w1 → swap_inv (map_to_list (slots (set_slot_of id None g))).*2 sw →
  wp (do (do on_pol (remove_managed f (place who)) then
          do on_frames (clear_owner f) then
          let* p := frame_entry f in
          do massert (map_count p =? 0) then
          do massert (wire_count p =? 0) then
          on_frames (free_page f (caller who))) then
      modify (λ w, with_vpages (delete id (vpages w)) w))
    (λ _ w' o', o' = o ∧ vm_inv (set_slot_of id None g) w' ∧ vpages w' = delete id (vpages w)) w1 o.
Proof.
  intros Hwho Hi Hv Hun Hb Hr Hat Hsw. pose proof Hun as (Hm & Hpin & Hu & _). destruct (res_maps _ _ _ _ _ _ _ _ Hr) as [Hmc _]. destruct (res_pins _ _ _ _ _ _ _ _ Hr) as [Hwc _].
  rewrite Hm, Hu in Hmc. cbn in Hmc. rewrite Hpin in Hwc. pose proof (res_owned _ _ _ _ _ _ _ _ Hr) as Hown.
  apply wp_bind, wp_bind, (wp_remove_managed Hat); [done|]. intros w2 Hw2. pose proof (look_wf _ _ _ _ (at_pol _ _ _ _ _ _ _ _ _ _ Hw2) (at_entry Hw2)) as Hwf.
  apply wp_bind, (wp_clear_owner Hw2). intros w3 Hw3. apply wp_bind, (wp_frame_entry Hw3). intros e He Ee. pose proof (unbound_releasable id v p Hwf Hown Hwc Hmc) as Hrel.
  assert (map_count e = 0 ∧ wire_count e = 0) as [E1 E2]. { split; [change (map_count (with_policy 0 e) = 0)|change (wire_count (with_policy 0 e) = 0)]; rewrite <- Ee; [exact Hmc|exact Hwc]. }
  rewrite E1, E2. wp_steps. apply (wp_free_frame Hw3); [done|done|]. intros w4 Hw4. wp_steps. split_and!; [done| |].
  - eapply forget_close; [done|done|done|exact Hw4|done|done].
  - cbn. rewrite (at_vpages _ _ _ _ _ _ _ _ _ _ Hw4). by rewrite delete_insert_eq.
Qed.
Lemma drop_page_spec who g w id v o : who_ok who → vm_inv g w → vpages w !! id = Some v → unused g id v →
  wp (drop_page who id) (λ _ w' o', o' = o ∧ vm_inv (set_slot_of id None g) w' ∧ vpages w' = delete id (vpages w)) w o.
Proof.
  intros Hwho Hi Hv Hun. pose proof Hun as (_ & _ & _ & Hbz). unfold drop_page. apply wp_bind, (wp_find_vp w id v _ _ Hv). pose proof (vm_swap _ _ Hi) as Hsw.
  assert (slots g !! id = None → swap_inv (map_to_list (slots (set_slot_of id None g))).*2 (swap w)) as Hnone.
  { intros E. replace (slots (set_slot_of id None g)) with (slots g); [done|]. symmetry. by apply delete_id. }
  destruct (backing v) as [| |f|h|loc wt] eqn:Hb.
  3:{ destruct (resident_open g w id v f Hi Hv Hb) as (p & u & Hat & Hr & _). apply wp_bind. pose proof (res_backed _ _ _ _ _ _ _ _ Hr) as Hbk. unfold backed in Hbk.
      assert (∀ h, resident_swap v = Some h → ∃ page, slots g !! id = Some (h, page)) as Hslot.
      { intros h E. rewrite E in Hbk. destruct (pager v); [by destruct Hbk as (_ & ? & _)|]. destruct Hbk as (page & ? & _). by exists page. }
      assert (resident_swap v = None → slots g !! id = None) as Hno by (intros E; rewrite E in Hbk; destruct (pager v); [apply Hbk|done]).
      destruct (resident_swap v) as [h|].
      - destruct (Hslot h eq_refl) as [page Hs]. apply (wp_on_swap Hat). eapply wp_mono; [by apply (free_handle g id h page)|]. intros [] sw' o' [-> Hsw']. intros w1 Hw1.
        by eapply drop_resident.
      - apply wp_ret. eapply drop_resident; [done|done|done|done|done|exact Hr|exact Hat|by apply Hnone, Hno]. }
  4:{ by destruct (Hbz loc wt). }
  all: destruct (vm_pages _ _ Hi _ _ Hv) as (_ & _ & Hh); rewrite Hb in Hh; destruct Hh as ((_ & -> & _) & _ & Hst); apply wp_bind, wp_ret, wp_bind.
  3:{ destruct Hst as [Hs _]. unfold on_swap. apply wp_zoom. eapply wp_mono; [by apply (free_handle g id h (contents g id))|]. intros [] sw' o' [-> Hsw']. wp_steps. split_and!; try done.
      apply (forget_away g w id v sw'); [done..|by rewrite Hb|done]. }
  all: wp_steps; split_and!; try done.
  all: assert (slots g !! id = None) as Hs by apply Hst; pose proof (forget_away g w id v (swap w) Hi Hv Hun) as Hf; rewrite Hb in Hf; specialize (Hf ltac:(done) (Hnone Hs)).
  all: replace (with_swap (swap w) w) with w in Hf by (by destruct w); exact Hf.
Qed.
End new.
