(* ===== verification/VmScanSpec.v ===== *)
(** * Scanning, residency and raw access: what reclaim does to pages

    A scan changes where pages are, not what they contain. *)
From stdpp Require Import base list gmap sorting.
From S2P Require Import Prelude.
From S2P Require Import Bytes.
From S2P Require Import Index.
From S2P Require Import Phys.
From S2P Require Import PhysInv.
From S2P Require Import PhysOps.
From S2P Require Import PhysRuns.
From S2P Require Import Swap.
From S2P Require Import SwapSpec.
From S2P Require Import Policy.
From S2P Require Import PolicySpec.
From S2P Require Import VmFrames.
From S2P Require Import VmPage.
From S2P Require Import VmPageInv.
From S2P Require Import VmPageOps.
From S2P Require Import VmPageIn.
From S2P Require Import VmScan.
Open Scope rust_scope.

(** ** Markers *)

Section marks.
Context `{Lz4} {B : Type} `{SwapBackend B} `{VmPager} (who : Who).
(** The parts of a page that never change. *)
Definition static (v : VmPage) : Z * PageOwnerKind * option nat * option nat := (vp_index v, owner_kind v, pager v, pager_owner v).
Definition static_same (w w' : Vm B) : Prop := ∀ i, static <$> vpages w' !! i = static <$> vpages w !! i.
#[export] Instance static_same_preorder : PreOrder static_same.
Proof. split; [by intros w i|]. intros w1 w2 w3 H12 H23 i. by rewrite H23. Qed.
Definition marks_kept (w w' : Vm B) : Prop := marks_same (pol w) (pol w') ∧ static_same w w'.
#[export] Instance marks_kept_preorder : PreOrder marks_kept.
Proof. split; [by intros w|]. intros w1 w2 w3 [? ?] [? ?]. split; by etrans. Qed.
Lemma kept_pol {A} (m : M Pol A) : keeps marks_same m → keeps marks_kept (on_pol m).
Proof. intros Hm. eapply keeps_zoom; [exact Hm|]. by intros w s ?. Qed.
Lemma kept_frames {A} (m : M Phys A) : keeps marks_kept (on_frames m).
Proof. apply kept_pol, marks_phys. Qed.
Lemma kept_swap {A} (m : M (Swap B) A) : keeps marks_kept (on_swap m).
Proof. eapply keeps_zoom; [apply keeps_any|]. by intros w s _. Qed.
Lemma kept_modify (f : Vm B → Vm B) : (∀ w, pol (f w) = pol w ∧ vpages (f w) = vpages w) → keeps marks_kept (modify f).
Proof. intros Hf. apply keeps_modify. intros w. destruct (Hf w) as [E1 E2]. unfold marks_kept, static_same. by rewrite E1, E2. Qed.
Lemma kept_get_vp id : keeps marks_kept (get_vp id).
Proof. unfold get_vp. keeps_steps. Qed.
Lemma kept_bytes f : keeps marks_kept (frame_bytes f).
Proof. unfold frame_bytes. keeps_steps. Qed.
Lemma kept_leaf k l : keeps marks_kept (put_leaf k l).
Proof. by apply kept_modify. Qed.
Hint Resolve kept_frames kept_swap kept_get_vp kept_bytes kept_leaf : keeps.
Lemma kept_update_vp id f : (∀ v, static (f v) = static v) → keeps marks_kept (update_vp id f).
Proof.
  intros Hf w o [] w' o'. unfold update_vp, get_vp, bind, get, expect. destruct (vpages w !! id) as [v|] eqn:Hv; [|done]. intros [= <- <-]. split; [done|]. intros i. cbn.
  destruct (decide (i = id)) as [->|Hne]; [rewrite lookup_insert_eq, Hv; cbn; by rewrite Hf|by rewrite lookup_insert_ne].
Qed.
Lemma kept_update_frame f h : keeps marks_kept (update_frame f h).
Proof. apply kept_frames. Qed.
Lemma kept_entry f : keeps marks_kept (frame_entry f).
Proof. apply kept_frames. Qed.
Lemma kept_activate_frame f : keeps marks_kept (activate_frame who f).
Proof. apply kept_pol, marks_managed. Qed.
Hint Resolve kept_update_vp kept_update_frame kept_entry kept_activate_frame : keeps.
Lemma kept_unmap k : keeps marks_kept (unmap_page k).
Proof. unfold unmap_page, record_hardware_state. keeps_steps. by apply kept_modify. Qed.
Lemma kept_release id : keeps marks_kept (release_mapping id).
Proof. unfold release_mapping. keeps_steps. Qed.
Lemma kept_take k : keeps marks_kept (take_accessed_dirty k).
Proof. unfold take_accessed_dirty. keeps_steps. Qed.
Lemma kept_visit {A} id (visit : Key → A → M (Vm B) (bool * A)) acc : (∀ k acc, keeps marks_kept (visit k acc)) → keeps marks_kept (visit_reverse_mappings id visit acc).
Proof.
  intros Hv. unfold visit_reverse_mappings. apply keeps_bind; [apply _|apply kept_get_vp|]. intros v. generalize (None : option Key). generalize (S (length (mappings v)) * S (length (mappings v)))%nat.
  intros n. revert acc. induction n as [|n IH]; intros acc c; cbn [visit_mappings]; unfold remove_reverse_mapping; keeps_steps.
Qed.
Hint Resolve kept_unmap kept_release kept_take : keeps.
Lemma kept_remove_all id : keeps marks_kept (remove_all_mappings id).
Proof. unfold remove_all_mappings. apply keeps_bind; [apply _|apply kept_get_vp|]. intros v. case_match; [apply keeps_ret, _|]. apply kept_visit. intros k []. unfold remove_reverse_mapping. keeps_steps. Qed.
Lemma kept_harvest id : keeps marks_kept (harvest_page_state_locked who id).
Proof.
  unfold harvest_page_state_locked. apply keeps_bind; [apply _|apply kept_visit; intros; keeps_steps|]. intros [r d]. unfold record_hardware_state_locked, mark_modified. keeps_steps.
Qed.
Lemma kept_retire id v : keeps marks_kept (retire id v).
Proof. unfold retire. keeps_steps. apply kept_modify. intros w. by repeat case_match. Qed.
Lemma kept_release_frame f : keeps marks_kept (release_frame who f).
Proof. unfold release_frame. keeps_steps. by apply kept_modify. Qed.
Hint Resolve kept_remove_all kept_harvest kept_retire kept_release_frame : keeps.
Lemma kept_reclaim id : keeps marks_kept (reclaim_owned who id).
Proof.
  assert (∀ f, keeps marks_kept (on_pol (remove_managed f (place who)))) as Hrm by (intros; apply kept_pol, marks_managed).
  unfold reclaim_owned, reclaim_begin, reclaim_seized, store_frame, reclaim_finish, unbusy_frame. keeps_steps.
Qed.
Lemma kept_drop_swap id : keeps marks_kept (drop_swap_locked id).
Proof. unfold drop_swap_locked. keeps_steps. Qed.
Lemma kept_realize_now f i : keeps marks_kept (realize_now f i).
Proof. apply kept_pol. keeps_steps. Qed.
Hint Resolve kept_reclaim kept_drop_swap kept_realize_now : keeps.
Lemma kept_realize f : keeps marks_kept (on_pol (realize f)).
Proof. apply kept_pol, marks_realize. Qed.
Lemma kept_next fuel n a : keeps marks_kept (on_pol (marker_next fuel n a)).
Proof. apply kept_pol, marks_next. Qed.
Lemma kept_activate f : keeps marks_kept (on_pol (activate f (place who))).
Proof. apply kept_pol, marks_managed. Qed.
Hint Resolve kept_realize kept_next kept_activate : keeps.
Lemma kept_balance_step mark shortage : keeps marks_kept (balance_step who mark shortage).
Proof. unfold balance_step, upgrade, revalidate. keeps_steps. Qed.
Lemma kept_scan_step mark classes target acc : keeps marks_kept (scan_step who mark classes target acc).
Proof. unfold scan_step, upgrade, revalidate. keeps_steps. Qed.
End marks.
#[export] Hint Resolve kept_frames kept_swap kept_get_vp kept_bytes kept_leaf kept_update_vp kept_update_frame kept_entry kept_activate_frame : keeps.

Section spec.
Context `{Lz4Laws} {B : Type} `{SwapBackendLaws B} `{VmPagerLaws} (who : Who) (Hwho : who_ok who).
Implicit Types (w : Vm B) (g : Ghost) (v : VmPage) (id : nat) (p : Page) (u : PageQueue) (f : Z) (o : oracle) (mark : nat).

Lemma scan_intents : is_intent ACTIVATE ∧ is_intent DEACTIVATE.
Proof. unfold is_intent. set_solver. Qed.

(** ** What reclaim keeps *)

(** The ghosts differ in the swap slots at most. *)
Definition quiet g g' : Prop := jobs g' = jobs g ∧ pins g' = pins g ∧ contents g' = contents g ∧ unmapping g' = unmapping g.
#[export] Instance quiet_preorder : PreOrder quiet.
Proof. split; [done|]. intros g1 g2 g3 (? & ? & ? & ?) (? & ? & ? & ?). unfold quiet. split_and!; congruence. Qed.
(** The same pages and frames exist. *)
Definition same_ids w w' : Prop := (∀ i, is_Some (vpages w' !! i) ↔ is_Some (vpages w !! i)) ∧ ∀ f, is_Some (look (pol w) f) → is_Some (look (pol w') f).
#[export] Instance same_ids_preorder : PreOrder same_ids.
Proof. split; [done|]. intros w1 w2 w3 [H12 L12] [H23 L23]. split; [intros i; by rewrite H23|auto]. Qed.
(** The pages exist as before, with the contents they had. *)
Definition undisturbed g w w' : Prop := ∃ g', quiet g g' ∧ vm_inv g' w' ∧ same_ids w w'.
(** No page changed. *)
Definition still w w' : Prop := vpages w' = vpages w ∧ ∀ f, is_Some (look (pol w) f) → is_Some (look (pol w') f).
#[export] Instance still_preorder : PreOrder still.
Proof. split; [done|]. intros w1 w2 w3 [E1 L1] [E2 L2]. split; [congruence|auto]. Qed.
Lemma still_ids w w' : still w w' → same_ids w w'.
Proof. intros [E Hl]. split; [intros i; by rewrite E|done]. Qed.
Lemma still_static w w' : still w w' → static_same w w'.
Proof. intros [E _] i. by rewrite E. Qed.
Lemma undisturbed_still g w w' : vm_inv g w' → still w w' → undisturbed g w w'.
Proof. intros Hi Hs. exists g. split_and!; [done|done|by apply still_ids]. Qed.
Lemma undisturbed_same g w : vm_inv g w → undisturbed g w w.
Proof. intros Hi. by exists g. Qed.
Lemma undisturbed_trans g g1 w w1 w2 : quiet g g1 → same_ids w w1 → undisturbed g1 w1 w2 → undisturbed g w w2.
Proof. intros Hq Hs (g2 & Hq2 & Hi2 & Hs2). exists g2. split_and!; [by etrans|done|by etrans]. Qed.
Lemma only_page_ids id w w' : is_Some (vpages w !! id) → only_page id w w' → same_ids w w'.
Proof. intros Hs (Ho & Hs' & Hl). split; [|done]. intros i. destruct (decide (i = id)) as [->|Hne]; [done|]. by rewrite Ho. Qed.

Lemma reclaim_owned_spec g w id v o : vm_inv g w → vpages w !! id = Some v → wp (reclaim_owned who id) (λ _ w' _, undisturbed g w w') w o.
Proof.
  intros Hi Hv. unfold reclaim_owned. assert (is_Some (vpages w !! id)) as Hsome by (by eexists). destruct (backing v) as [| |f|h|loc wt] eqn:Hb.
  3:{ destruct (resident_open g w id v f Hi Hv Hb) as (_ & _ & _ & _ & Hj & _). apply wp_bind. eapply wp_mono; [by eapply reclaim_begin_spec|].
      intros [b|f1] w1 o1 (-> & Ho1 & Hi1); [apply wp_ret; exists g; split_and!; [done|done|by eapply only_page_ids]|]. pose proof Ho1 as (_ & [v1 Hv1] & _).
      apply wp_bind. eapply wp_mono; [eapply (store_frame_spec _ w1 id v1 f1); [exact Hi1|done|apply set_job_at]|]. intros r w2 o2 (Hi2 & Hp2 & Ho2). assert (same_ids w1 w2) as Hs2 by (eapply only_page_ids; [by eexists|done]). rewrite <- Hp2 in Hv1.
      apply wp_bind. eapply wp_mono; [eapply (reclaim_finish_spec who _ w2 id v1 f1 r); [done|exact Hi2|done|apply set_job_at]|]. intros [b wt] w3 o3 (_ & Hi3 & Ho3). apply wp_ret.
      eexists. split_and!; [|exact Hi3|].
      - destruct r; (split_and!; try done); cbn; apply map_eq; intros i; (destruct (decide (i = id)) as [->|Hne]; [rewrite lookup_partial_alter_eq; done|by rewrite !lookup_partial_alter_ne]).
      - etrans; [by eapply only_page_ids|]. etrans; [exact Hs2|]. eapply only_page_ids; [by eexists|done]. }
  all: unfold reclaim_begin; apply wp_bind, wp_bind, (wp_find_vp w id v _ _ Hv); rewrite Hb; apply wp_ret, wp_ret; by apply undisturbed_same.
Qed.

(** ** Steps of the clock *)

Lemma vm_inv_look g w s : vm_inv g w → pol_inv s → (∀ q, look s q = look (pol w) q) → same_bytes (pol w) s → vm_inv g (with_pol s w).
Proof.
  intros Hi Hp Hl Hb. eapply (vm_inv_change (λ _, False)); [done|done|apply (vm_swap _ _ Hi)|done|done|by intros; cbn; rewrite Hl, Hb|done|done|done|].
  intros f p u. cbn. rewrite Hl. apply (vm_queues _ _ Hi).
Qed.
Lemma look_phys s s' : phys s' = phys s → (∀ q, look s' q = look s q) ∧ same_bytes s s'.
Proof. intros E. unfold same_bytes, look, bytes_of. by rewrite E. Qed.
Lemma wp_clock {A} (m : M Pol A) (R : A → Pol → Prop) g w o : vm_inv g w →
  wp m (λ a s' o', o' = o ∧ pol_inv s' ∧ (∀ q, look s' q = look (pol w) q) ∧ same_bytes (pol w) s' ∧ R a s') (pol w) o →
  wp (on_pol m) (λ a w' o', o' = o ∧ vm_inv g w' ∧ still w w' ∧ (∀ q, look (pol w') q = look (pol w) q) ∧ R a (pol w')) w o.
Proof.
  intros Hi Hm. unfold on_pol. apply wp_zoom. eapply wp_mono; [exact Hm|]. intros a s' o' (-> & Hp & Hl & Hb & HR). split_and!; try done; [by apply vm_inv_look|]. split; [done|]. intros f. cbn. by rewrite Hl.
Qed.
Lemma realize_vm a g w f o : vm_inv g w → f ∈ frames (clock_list a (clock (pol w))) →
  wp (on_pol (realize f)) (λ r w' o', o' = o ∧ vm_inv g w' ∧ still w w' ∧ (∀ q, look (pol w') q = look (pol w) q) ∧
    (r = false → ∃ p, look (pol w') f = Some (p, if a then QueueActive else QueueInactive))) w o.
Proof.
  intros Hi Hf. eapply wp_mono; [apply (wp_clock _ (λ r _, r = false → ∃ p, look (pol w) f = Some (p, if a then QueueActive else QueueInactive))); [done|]; by apply realize_listed; [apply (vm_pol _ _ Hi)|]|].
  intros r w' o' (-> & ? & ? & Hl & Hr). split_and!; try done. by rewrite Hl.
Qed.
(** The frame of a page that is not wired moves to another queue. *)
Lemma realize_now_vm g w id v f i o : vm_inv g w → vpages w !! id = Some v → backing v = BResident f → pins g id = 0 → is_intent i → intent_queue i ≠ QueueNone →
  wp (realize_now f i) (λ _ w' o', o' = o ∧ vm_inv g w' ∧ still w w') w o.
Proof.
  intros Hi Hv Hb Hp Hint Hq. destruct (resident_open g w id v f Hi Hv Hb) as (p & u & Hat & Hr & _). unfold realize_now.
  eapply (wp_at_pol Hat); [by eapply now_look; [apply (vm_pol _ _ Hi)|apply (at_entry Hat)|]|]. intros [] w' Hw'. split_and!; [done| |].
  - eapply calm_close; [done|done|done|done|exact Hw'|]. apply calm_frame; try done; [apply same_page_refl|]. rewrite (res_queue _ _ _ _ _ _ _ _ Hr).
    destruct (res_pins _ _ _ _ _ _ _ _ Hr) as [-> _]. rewrite Hp. split; [done|congruence].
  - split; [rewrite (at_vpages _ _ _ _ _ _ _ _ _ _ Hw'); by apply insert_id|]. by apply (at_only_page _ _ _ _ _ _ _ _ _ _ Hw').
Qed.
Lemma upgrade_spec g w f p u o : vm_inv g w → look (pol w) f = Some (p, u) → wp (upgrade f) (λ r w' o', o' = o ∧ w' = w ∧ ∀ id, r = Some id → is_Some (vpages w !! id)) w o.
Proof.
  intros Hi Hl. destruct (look_entry _ _ _ _ Hl) as (e & He & _). unfold upgrade, frame_entry, on_frames, on_pol, on_phys. apply wp_bind, wp_zoom, wp_zoom, (wp_get_page f e); [done|].
  wp_steps. split_and!; [done|by destruct w as [[] ? ? ? ? ?]|]. intros id. destruct (owner e) as [i|]; [|done]. case_bool_decide; [|done]. intros [= ->]. by destruct w as [[] ? ? ? ? ?].
Qed.
Lemma next_vm a mark g w o : vm_inv g w → Mark mark ∈ clock_list a (clock (pol w)) →
  wp (on_pol (marker_next (S (length (clock_list a (clock (pol w))))) mark a)) (λ r w' o', o' = o ∧ vm_inv g w' ∧ still w w' ∧
    match r with Some f => f ∈ frames (clock_list a (clock (pol w'))) | None => True end) w o.
Proof.
  intros Hi Hm. eapply wp_mono; [apply (wp_clock _ (λ r s', match r with Some f => f ∈ frames (clock_list a (clock s')) | None => True end) g); [done|]|].
  - eapply wp_mono; [apply marker_next_look; [apply (vm_pol _ _ Hi)|done|]|].
    + intros pre post E. rewrite E, length_app. cbn. lia.
    + intros r s' o' (-> & ? & Hp & _ & ?). destruct (look_phys (pol w) s' Hp). done.
  - intros r w' o' (-> & ? & ? & _ & ?). done.
Qed.
Lemma revalidate_spec g w f p u id flag o : vm_inv g w → look (pol w) f = Some (p, u) → is_Some (vpages w !! id) →
  wp (revalidate f id flag) (λ b w' o', o' = o ∧ vm_inv g w' ∧ still w w' ∧
    (b = true → ∃ v, vpages w' !! id = Some v ∧ backing v = BResident f ∧ pins g id = 0)) w o.
Proof.
  intros Hi Hl [v Hv]. unfold revalidate. apply wp_bind. eapply wp_mono; [apply (wp_clock _ (λ _ _, True) g); [done|]|].
  { eapply wp_mono; [by eapply realize_look; [apply (vm_pol _ _ Hi)|]|]. intros r s' o' (-> & ? & ? & ?). done. }
  intros r w1 o1 (-> & Hi1 & Hp1 & Hl1 & _). rewrite <- (proj1 Hp1) in Hv. destruct r; [by apply wp_ret|]. rewrite <- Hl1 in Hl. destruct (look_entry _ _ _ _ Hl) as (e & He & Ee & _).
  unfold frame_entry, on_frames, on_pol, on_phys. apply wp_bind, wp_zoom, wp_zoom, (wp_get_page f e); [done|]. assert (with_pol (with_phys (phys (pol w1)) (pol w1)) w1 = w1) as -> by (by destruct w1 as [[] ? ? ? ? ?]).
  apply wp_bind, (wp_find_vp w1 id v _ _ Hv), wp_ret. split_and!; try done. rewrite !andb_true_iff, !bool_decide_eq_true. intros (((_ & Hw) & _) & Hf). exists v. split; [done|].
  unfold frame_locked in Hf. destruct (backing v) as [| |f1|h|loc wt] eqn:Hb; try done. injection Hf as ->. split; [done|].
  destruct (resident_open g w1 id v f Hi1 Hv Hb) as (p1 & u1 & Hat & Hr & _). rewrite (at_entry Hat) in Hl. injection Hl as -> ->. destruct (res_pins _ _ _ _ _ _ _ _ Hr) as [Hpin _].
  rewrite <- Hpin, Ee. cbn. lia.
Qed.
(** The part of a round that moves an unused page to the inactive queue. *)
Lemma deactivate_round g w id v f o : vm_inv g w → vpages w !! id = Some v → backing v = BResident f → pins g id = 0 →
  wp (do harvest_page_state_locked who id then do update_frame f (λ p, (take_referenced p).2) then realize_now f DEACTIVATE) (λ _ w' _, undisturbed g w w') w o.
Proof.
  intros Hi Hv Hb Hp. apply wp_bind. eapply wp_mono; [by eapply harvest_page|]. intros [] w1 o1 (-> & (Hi1 & v1 & Hv1 & r & e & ->) & Ho1).
  destruct (resident_open g w1 id _ f Hi1 Hv1 Hb) as (p & u & Hat & Hr & _). apply wp_bind, (wp_update_frame Hat); [apply take_referenced_update|]. intros w2 Hw2.
  assert (vm_inv g w2) as Hi2. { eapply calm_close; [exact Hi1|exact Hv1|done|exact Hr|exact Hw2|]. apply calm_frame; [apply same_page_refl|apply touched_unreferenced|by unfold take_referenced|done|apply dirty_unreferenced]. }
  pose proof (at_page_lookup Hw2) as Hv2. eapply wp_mono; [eapply (realize_now_vm g w2 id _ f); [done|exact Hv2|done|done| |done]; apply scan_intents|]. intros [] w3 o3 (_ & Hi3 & Hp3).
  exists g. split_and!; [done|done|]. etrans; [by eapply only_page_ids; [eexists|exact Ho1]|]. etrans; [eapply only_page_ids; [by eexists|by eapply at_only_page]|by apply still_ids].
Qed.
Lemma balance_step_spec mark shortage g w o : vm_inv g w → Mark mark ∈ clock_list true (clock (pol w)) → wp (balance_step who mark shortage) (λ _ w' _, undisturbed g w w') w o.
Proof.
  intros Hi Hm. unfold balance_step. apply wp_bind, wp_get. case_match; [apply wp_ret; by apply undisturbed_same|]. apply wp_bind.
  eapply wp_mono; [by apply (next_vm true mark g)|]. intros [f|] w1 o1 (-> & Hi1 & Hp1 & Hf); [|apply wp_ret; by apply undisturbed_still].
  apply wp_bind. eapply wp_mono; [by apply (realize_vm true g)|]. intros r w2 o2 (-> & Hi2 & Hp2 & Hl2 & Hr). assert (still w w2) as Hs2 by (by etrans).
  destruct r; [apply wp_ret; by apply undisturbed_still|]. destruct (Hr eq_refl) as [p Hlook]. apply wp_bind. eapply wp_mono; [by eapply (upgrade_spec g)|].
  intros [id|] w3 o3 (-> & -> & Hid); [|apply wp_ret; by apply undisturbed_still]. specialize (Hid id eq_refl). apply wp_bind, wp_ask. intros b o4 _ _.
  destruct b; cbn [negb]; [|apply wp_ret; by apply undisturbed_still]. apply wp_bind. eapply wp_mono; [by eapply (revalidate_spec g)|]. intros b w5 o5 (-> & Hi5 & Hp5 & Hok).
  assert (still w w5) as Hs5 by (by etrans). destruct b; cbn [negb]; [|apply wp_ret; by apply undisturbed_still]. destruct (Hok eq_refl) as (v & Hv & Hb & Hpin). apply wp_bind, wp_get.
  assert (∀ (x : Z) g6 w6 o6 v6, quiet g g6 → vm_inv g6 w6 → same_ids w5 w6 → vpages w6 !! id = Some v6 → backing v6 = BResident f →
    wp (do (if ninactive (clock (pol w5)) <? target_of who w5 then do harvest_page_state_locked who id then do update_frame f (λ p, (take_referenced p).2) then realize_now f DEACTIVATE else ret ()) then
        ret (false, x)) (λ _ w' _, undisturbed g w w') w6 o6) as Hrest.
  { intros x g6 w6 o6 v6 Hq6 Hi6 Hs6 Hv6 Hb6. assert (same_ids w w6) as Hsw6 by (etrans; [by apply still_ids|done]). apply wp_bind. case_match; [|apply wp_ret, wp_ret; by exists g6].
    eapply wp_mono; [eapply (deactivate_round g6 w6 id v6 f); [done|done|done|destruct Hq6 as (_ & E & _); congruence]|]. intros [] w7 o7 Hset. apply wp_ret. by eapply undisturbed_trans. }
  apply wp_bind. destruct (shortage =? 0); cbn [negb].
  - apply wp_ret. by eapply Hrest.
  - eapply wp_mono; [by eapply (drop_swap_spec g)|]. intros [] w6 o6 (-> & H6); [|subst w6; by eapply Hrest].
    destruct H6 as (Hi6 & _ & Hp6 & Ho6). eapply (Hrest _ (set_slot_of id None g)); [done|exact Hi6|eapply only_page_ids; [by eexists|done]|rewrite Hp6; apply lookup_insert_eq|exact Hb].
Qed.

(** ** One round of the scan *)

Lemma wp_entry_at w f p u (Q : Page → Vm B → oracle → Prop) o : look (pol w) f = Some (p, u) → (∀ e, p = with_policy 0 e → Q e w o) → wp (frame_entry f) Q w o.
Proof.
  intros Hl HQ. destruct (look_entry _ _ _ _ Hl) as (e & He & Ee & _). unfold frame_entry, on_frames, on_pol, on_phys. apply wp_zoom, wp_zoom, (wp_get_page f e); [done|].
  replace (with_pol (with_phys (phys (pol w)) (pol w)) w) with w by (by destruct w as [[] ? ? ? ? ?]). by apply HQ.
Qed.
(** A frame on a queue belongs to a page that is not wired. *)
Lemma queued_page g w f p u : vm_inv g w → look (pol w) f = Some (p, u) → u ≠ QueueNone → ∃ id v, vpages w !! id = Some v ∧ backing v = BResident f ∧ pins g id = 0 ∧ owned_frame id v p.
Proof.
  intros Hi Hl Hu. destruct (vm_queues _ _ Hi _ _ _ Hl Hu) as (id & v & Hv & Hb). exists id, v. destruct (resident_open g w id v f Hi Hv Hb) as (p1 & u1 & Hat & Hr & _).
  rewrite (at_entry Hat) in Hl. injection Hl as -> ->. split_and!; [done|done| |by eapply res_owned]. destruct (res_pins _ _ _ _ _ _ _ _ Hr) as [<- _].
  destruct (decide (wire_count p = 0)) as [|Hw]; [done|]. by apply (res_queue _ _ _ _ _ _ _ _ Hr) in Hw.
Qed.
(** The part of a round that reclaims an inactive page. *)
Lemma reclaim_round g w id v f (acc : Z * Z) o : vm_inv g w → vpages w !! id = Some v → backing v = BResident f → pins g id = 0 →
  wp (do harvest_page_state_locked who id then
      let* p := frame_entry f in
      let '(referenced, p') := take_referenced p in
      do update_frame f (λ _, p') then
      if (referenced : bool) then do on_pol (activate f (place who)) then ret (false, acc)
      else
        let* reclaimed := reclaim_owned who id in
        if (reclaimed : bool) then ret (false, (acc.1 + 1, acc.2))
        else
          let* p := frame_entry f in
          if has_flag (flags p) DIRTY then ret (acc.2 + 1 =? 16, (acc.1, acc.2 + 1)) else ret (false, acc)) (λ _ w' _, undisturbed g w w') w o.
Proof.
  intros Hi Hv Hb Hp. apply wp_bind. eapply wp_mono; [by eapply harvest_page|]. intros [] w1 o1 (-> & (Hi1 & v1 & Hv1 & r & e & ->) & Ho1).
  assert (same_ids w w1) as Hs1 by (eapply only_page_ids; [by eexists|done]).
  destruct (resident_open g w1 id _ f Hi1 Hv1 Hb) as (p & u & Hat & Hr & _). apply wp_bind, (wp_frame_entry Hat). intros e1 He1 Ee1.
  destruct (take_referenced e1) as [referenced p'] eqn:Et. apply wp_bind. replace p' with ((λ q, (take_referenced q).2) e1) by (by rewrite Et).
  apply (wp_replace_frame Hat (λ q, (take_referenced q).2) e1); [apply take_referenced_update|done|done|]. intros w2 Hw2. assert (vm_inv g w2) as Hi2.
  { eapply calm_close; [exact Hi1|exact Hv1|done|exact Hr|exact Hw2|]. apply calm_frame; [apply same_page_refl|apply touched_unreferenced|by unfold take_referenced|done|apply dirty_unreferenced]. }
  assert (same_ids w w2) as Hs2 by (etrans; [exact Hs1|]; eapply only_page_ids; [by eexists|by eapply at_only_page]). pose proof (at_page_lookup Hw2) as Hv2.
  destruct referenced.
  - destruct (resident_open g w2 id _ f Hi2 Hv2 Hb) as (p2 & u2 & Hat2 & Hr2 & _). apply wp_bind, (wp_activate Hat2); [done|]. intros w3 Hw3. apply wp_ret. exists g. split_and!; [done| |].
    + eapply calm_close; [exact Hi2|exact Hv2|done|exact Hr2|exact Hw3|]. apply calm_frame; try done; [apply same_page_refl|]. rewrite (res_queue _ _ _ _ _ _ _ _ Hr2).
      destruct (res_pins _ _ _ _ _ _ _ _ Hr2) as [-> _]. rewrite Hp. split; [done|congruence].
    + etrans; [exact Hs2|]. eapply only_page_ids; [by eexists|by eapply at_only_page].
  - apply wp_bind. eapply wp_mono; [by eapply (reclaim_owned_spec g)|]. intros b w3 o3 Hset. assert (undisturbed g w w3) as Hset3 by (by eapply undisturbed_trans).
    destruct b; [by apply wp_ret|]. destruct Hset as (g3 & _ & _ & _ & Hl3). destruct (Hl3 f) as [[p3 u3] Hlook3]; [rewrite (at_entry Hw2); by eexists|].
    apply wp_bind. eapply wp_entry_at; [exact Hlook3|]. intros e3 _. by case_match; apply wp_ret.
Qed.
Lemma scan_step_spec mark classes target acc g w o : vm_inv g w → Mark mark ∈ clock_list false (clock (pol w)) → wp (scan_step who mark classes target acc) (λ _ w' _, undisturbed g w w') w o.
Proof.
  intros Hi Hm. unfold scan_step. destruct acc as [freed dirty_], classes as [[anonreact filereact] execreact]. case_match; [apply wp_ret; by apply undisturbed_same|]. apply wp_bind, wp_get, wp_bind.
  eapply wp_mono; [by apply (next_vm false mark g)|]. intros [f|] w1 o1 (-> & Hi1 & Hp1 & Hf); [|apply wp_ret; by apply undisturbed_still].
  apply wp_bind. eapply wp_mono; [by apply (realize_vm false g)|]. intros r w2 o2 (-> & Hi2 & Hp2 & Hl2 & Hr). assert (still w w2) as Hs2 by (by etrans).
  destruct r; [apply wp_ret; by apply undisturbed_still|]. destruct (Hr eq_refl) as [p Hlook]. destruct (queued_page g w2 f p _ Hi2 Hlook) as (id0 & v0 & Hv0 & Hb0 & Hpin0 & Hown); [done|].
  apply wp_bind. eapply wp_entry_at; [exact Hlook|]. intros e Ee. apply wp_bind. eapply wp_expect.
  { change (page_owner_kind e) with (page_owner_kind (with_policy 0 e)). rewrite <- Ee. exact (own_kind _ _ _ Hown). }
  set (protect := if _ && _ then _ else _). destruct protect.
  { apply wp_bind. eapply wp_mono; [eapply (realize_now_vm g w2 id0 v0 f); [done..| |done]; apply scan_intents|]. intros [] w3 o3 (-> & Hi3 & Hs3). apply wp_ret. apply undisturbed_still; [done|by etrans]. }
  apply wp_bind. eapply wp_mono; [by eapply (upgrade_spec g)|].
  intros [id|] w3 o3 (-> & -> & Hid); [|apply wp_ret; by apply undisturbed_still]. specialize (Hid id eq_refl). apply wp_bind, wp_ask. intros b o4 _ _.
  destruct b; cbn [negb]; [|apply wp_ret; by apply undisturbed_still]. apply wp_bind. eapply wp_mono; [by eapply (revalidate_spec g)|]. intros b w5 o5 (-> & Hi5 & Hp5 & Hok).
  assert (still w w5) as Hs5 by (by etrans). destruct b; cbn [negb]; [|apply wp_ret; by apply undisturbed_still]. destruct (Hok eq_refl) as (v & Hv & Hb & Hpin).
  eapply wp_mono; [apply (reclaim_round g w5 id v f (freed, dirty_)); done|]. intros r w6 o6 Hset. eapply undisturbed_trans; [done|by apply still_ids|done].
Qed.

(** ** Loops *)

Lemma repeat_pos_rule {A} (body : A → M (Vm B) (bool * A)) (I : Vm B → Prop) : (∀ acc w o, I w → wp (body acc) (λ _ w' _, I w') w o) →
  ∀ n acc w o, I w → wp (repeat_pos body n acc) (λ _ w' _, I w') w o.
Proof.
  intros Hb n. induction n as [n IH|n IH|]; intros acc w o Hi; cbn [repeat_pos].
  - apply wp_bind. eapply wp_mono; [by apply Hb|]. intros [[] acc1] w1 o1 Hi1; [by apply wp_ret|]. apply wp_bind. eapply wp_mono; [by apply IH|].
    intros [[] acc2] w2 o2 Hi2; [by apply wp_ret|by apply IH].
  - apply wp_bind. eapply wp_mono; [by apply IH|]. intros [[] acc2] w2 o2 Hi2; [by apply wp_ret|by apply IH].
  - by apply Hb.
Qed.
Lemma repeat_up_to_rule {A} (body : A → M (Vm B) (bool * A)) (I : Vm B → Prop) n acc w o : (∀ acc w o, I w → wp (body acc) (λ _ w' _, I w') w o) → I w →
  wp (repeat_up_to body n acc) (λ _ w' _, I w') w o.
Proof.
  intros Hb Hi. unfold repeat_up_to. destruct n as [|n|n]; [by apply wp_ret| |by apply wp_ret]. apply wp_bind. eapply wp_mono; [by apply (repeat_pos_rule body I)|]. intros [b acc'] w' o' Hi'. by apply wp_ret.
Qed.
(** A loop of rounds under a marker. *)
Lemma rounds_spec {A} a mark (body : A → M (Vm B) (bool * A)) n acc g w o :
  (∀ acc g w o, vm_inv g w → Mark mark ∈ clock_list a (clock (pol w)) → wp (body acc) (λ _ w' _, undisturbed g w w') w o) → (∀ acc, keeps marks_kept (body acc)) →
  vm_inv g w → Mark mark ∈ clock_list a (clock (pol w)) → wp (repeat_up_to body n acc) (λ _ w' _, undisturbed g w w' ∧ Mark mark ∈ clock_list a (clock (pol w'))) w o.
Proof.
  intros Hb Hk Hi Hm. apply (repeat_up_to_rule body (λ w', undisturbed g w w' ∧ Mark mark ∈ clock_list a (clock (pol w')))); [|split; [by apply undisturbed_same|done]].
  intros acc1 w1 o1 [(g1 & Hq1 & Hi1 & Hs1) Hm1]. eapply wp_mono; [apply (keeps_wp marks_kept); [apply Hk|by apply (Hb acc1 g1)]|]. intros r w2 o2 [Hset [Hmk _]]. split; [by eapply undisturbed_trans|]. by apply Hmk.
Qed.
(** The outcome of a pass. *)
Definition passed mark g w w' : Prop := undisturbed g w w' ∧ (∀ a, Mark mark ∉ clock_list a (clock (pol w'))) ∧ static_same w w'.
Definition no_mark mark w : Prop := ∀ a, Mark mark ∉ clock_list a (clock (pol w)).
Lemma keeps_repeat {A} (body : A → M (Vm B) (bool * A)) n acc : (∀ acc, keeps marks_kept (body acc)) → keeps marks_kept (repeat_up_to body n acc).
Proof.
  intros Hb. unfold repeat_up_to. destruct n as [|n|n]; [keeps_steps| |keeps_steps]. apply keeps_bind; [apply _| |intros []; keeps_steps].
  revert acc. induction n as [n IH|n IH|]; intros acc; cbn [repeat_pos]; keeps_steps.
Qed.
Lemma flush_vm mark g w o : vm_inv g w → no_mark mark w → wp (on_pol (flush (later (place who)))) (λ _ w' o', vm_inv g w' ∧ still w w' ∧ no_mark mark w') w o.
Proof.
  intros Hi Hn. eapply wp_mono; [apply (keeps_wp marks_kept); [apply kept_pol, marks_flush|apply (wp_clock _ (λ _ _, True) g); [done|]]|].
  - eapply wp_mono; [apply flush_look; [apply (vm_pol _ _ Hi)|apply Hwho]|]. intros [] s' o' (-> & ? & ? & ?). done.
  - intros [] w1 o1 [(-> & Hi1 & Hs1 & _) Hm1]. split_and!; [done|done|]. intros b Hb. by apply Hm1, Hn in Hb.
Qed.
(** The rounds run between the creation of the marker and its removal. *)
Lemma pass_spec {A C} a mark (rounds : M (Vm B) A) (f : A → C) g w o : vm_inv g w → no_mark mark w →
  (∀ g w o, vm_inv g w → Mark mark ∈ clock_list a (clock (pol w)) → wp rounds (λ _ w' _, undisturbed g w w' ∧ Mark mark ∈ clock_list a (clock (pol w'))) w o) → keeps marks_kept rounds →
  wp (do on_pol (marker_new mark a) then let* acc := rounds in do on_pol (marker_drop mark a) then ret (f acc)) (λ _ w' _, passed mark g w w') w o.
Proof.
  intros Hi Hn Hr Hk. apply wp_bind.
  eapply wp_mono; [apply (wp_clock _ (λ _ s', Mark mark ∈ clock_list a (clock s') ∧ ∀ b, b ≠ a → clock_list b (clock s') = clock_list b (clock (pol w))) g); [done|]|].
  { eapply wp_mono; [apply marker_new_look; [apply (vm_pol _ _ Hi)|apply Hn]|]. intros [] s' o' (-> & ? & Hp & ? & ?). by destruct (look_phys (pol w) s' Hp). }
  intros [] w2 o2 (-> & Hi2 & Hs2 & _ & Hm2 & Ho2). apply wp_bind. eapply wp_mono; [apply (keeps_wp marks_kept); [apply Hk|by apply (Hr g)]|].
  intros acc w3 o3 [[(g3 & Hq3 & Hi3 & Hs3) Hm3] Hk3]. apply wp_bind.
  eapply wp_mono; [apply (wp_clock _ (λ _ s', ∀ b, Mark mark ∈ clock_list b (clock s') → b ≠ a ∧ Mark mark ∈ clock_list b (clock (pol w3))) g3); [done|]|].
  { eapply wp_mono; [apply marker_drop_look; [apply (vm_pol _ _ Hi3)|done]|]. intros [] s' o' (-> & ? & Hp & ?). by destruct (look_phys (pol w3) s' Hp). }
  intros [] w4 o4 (-> & Hi4 & Hs4 & _ & Hm4). apply wp_ret. split.
  - exists g3. split_and!; [done|done|]. etrans; [by apply still_ids|]. etrans; [done|by apply still_ids].
  - split; [|etrans; [by apply still_static|]; etrans; [apply Hk3|by apply still_static]]. intros b [Hne Hb]%Hm4. apply Hk3 in Hb. rewrite Ho2 in Hb by done. by apply (Hn b).
Qed.
Lemma balance_spec mark maximum shortage g w o : vm_inv g w → no_mark mark w → wp (balance who mark maximum shortage) (λ _ w' _, passed mark g w w') w o.
Proof.
  intros Hi Hn. unfold balance. apply wp_bind. eapply wp_mono; [by apply (flush_vm mark g)|]. intros [] w1 o1 (Hi1 & Hs1 & Hn1).
  eapply wp_mono; [apply (pass_spec true mark (repeat_up_to (balance_step who mark) maximum shortage) (λ _, ()) g); [done|done| |]|].
  - intros g2 w2 o2 Hi2 Hm2. apply rounds_spec; [intros; by apply balance_step_spec|intros; apply kept_balance_step|done|done].
  - apply keeps_repeat. intros. apply kept_balance_step.
  - intros [] w2 o2 (Hset & Hn2 & Hst). split; [by eapply undisturbed_trans; [|apply still_ids|]|]. split; [done|]. etrans; [by apply still_static|done].
Qed.
Lemma scan_spec mark maximum target g w o : vm_inv g w → no_mark mark w → wp (scan who mark maximum target) (λ _ w' _, passed mark g w w') w o.
Proof.
  intros Hi Hn. unfold scan. apply wp_bind. eapply wp_mono; [by apply (flush_vm mark g)|]. intros [] w1 o1 (Hi1 & Hs1 & Hn1). apply wp_bind, wp_get.
  eapply wp_mono; [apply (pass_spec false mark (repeat_up_to (scan_step who mark (protected_classes w1) target) maximum (0, 0)) fst g); [done|done| |]|].
  - intros g2 w2 o2 Hi2 Hm2. apply rounds_spec; [intros; by apply scan_step_spec|intros; apply kept_scan_step|done|done].
  - apply keeps_repeat. intros. apply kept_scan_step.
  - intros r w2 o2 (Hset & Hn2 & Hst). split; [by eapply undisturbed_trans; [|apply still_ids|]|]. split; [done|]. etrans; [by apply still_static|done].
Qed.
Lemma passed_same mark g w : vm_inv g w → no_mark mark w → passed mark g w w.
Proof. intros Hi Hn. split; [by apply undisturbed_same|done]. Qed.
Lemma passed_trans mark g g1 w w1 w2 : quiet g g1 → same_ids w w1 → static_same w w1 → passed mark g1 w1 w2 → passed mark g w w2.
Proof. intros Hq Hs Hst (Hset & Hn & Hst2). split; [by eapply undisturbed_trans|]. split; [done|by etrans]. Qed.
Lemma reclaim_passes_spec n mark target : ∀ reclaimed g w o, vm_inv g w → no_mark mark w → wp (reclaim_passes who n mark target reclaimed) (λ _ w' _, passed mark g w w') w o.
Proof.
  induction n as [|n IH]; intros reclaimed g w o Hi Hn; cbn [reclaim_passes]; [apply wp_ret; by apply passed_same|]. case_match; [apply wp_ret; by apply passed_same|].
  apply wp_bind. eapply wp_mono; [by apply (scan_spec mark _ _ g)|]. intros progress w1 o1 ((g1 & Hq1 & Hi1 & Hs1) & Hn1 & Hst1). apply wp_bind, wp_get, wp_bind.
  eapply wp_mono; [by apply (balance_spec mark _ _ g1)|]. intros [] w2 o2 ((g2 & Hq2 & Hi2 & Hs2) & Hn2 & Hst2). apply wp_bind, wp_get.
  assert (quiet g g2 ∧ same_ids w w2 ∧ static_same w w2) as (Hq & Hs & Hst) by (split_and!; by etrans).
  case_match; [apply wp_ret; eapply passed_trans; [done..|by apply passed_same]|]. eapply wp_mono; [by apply (IH _ g2)|]. intros r w3 o3 Hp. by eapply passed_trans.
Qed.
Lemma reclaim_pages_spec mark target g w o : vm_inv g w → no_mark mark w → wp (reclaim_pages who mark target) (λ _ w' _, passed mark g w w') w o.
Proof. apply reclaim_passes_spec. Qed.
End spec.

(** * Logical pages: residency and raw access

    [resident_backing] makes a page resident, reclaiming others when frames
    are short; [read_raw], [write_raw], [zero] and the pins are built on it. *)

Section run.
Context `{Lz4Laws} {B : Type} `{SwapBackendLaws B} `{VmPagerLaws} (who : Who) (Hwho : who_ok who).
Implicit Types (w : Vm B) (g : Ghost) (v : VmPage) (id : nat) (p : Page) (u : PageQueue) (f : Z) (b : PageBacking) (o : oracle) (mark : nat).

Lemma static_some w w' id v : static_same w w' → vpages w !! id = Some v → ∃ v', vpages w' !! id = Some v' ∧ static v' = static v.
Proof. intros Hs Hv. specialize (Hs id). rewrite Hv in Hs. cbn in Hs. apply fmap_Some in Hs as (v' & ? & ?). by exists v'. Qed.
Lemma static_insert w w' id v v' : vpages w !! id = Some v → vpages w' = <[id:=v']> (vpages w) → static v' = static v → static_same w w'.
Proof. intros Hv E Hs i. rewrite E. destruct (decide (i = id)) as [->|Hne]; [rewrite lookup_insert_eq, Hv; cbn; by rewrite Hs|by rewrite lookup_insert_ne]. Qed.
Lemma set_job_twice id x y g : set_job id x (set_job id y g) = set_job id x g.
Proof. unfold set_job. cbn. f_equal. apply map_eq. intros i. destruct (decide (i = id)) as [->|]; [by rewrite !lookup_partial_alter_eq|by rewrite !lookup_partial_alter_ne]. Qed.
Lemma quiet_unset id j g g1 : jobs g !! id = None → quiet (set_job id (Some j) g) g1 → quiet g (set_job id None g1).
Proof.
  intros Hj (E & ? & ? & ?). split_and!; try done. cbn. rewrite E. cbn. apply map_eq. intros i.
  destruct (decide (i = id)) as [->|]; [by rewrite lookup_partial_alter_eq|by rewrite !lookup_partial_alter_ne].
Qed.
Lemma set_job_keep id j g : jobs g !! id = Some j → set_job id (Some j) g = g.
Proof. intros Hj. unfold set_job. rewrite <- Hj, partial_alter_self. by destruct g. Qed.

(** ** Frames *)

(** A frame for the busy page [id], or none. *)
Definition provided mark g w id b (r : result Error Z) w' : Prop := ∃ g', quiet g g' ∧ static_same w w' ∧ no_mark mark w' ∧
  vm_inv (match r with Ok f => set_job id (Some (Filling b f)) g' | Err _ => g' end) w'.
Lemma alloc_spec mark g w id v b o : vm_inv g w → no_mark mark w → vpages w !! id = Some v → jobs g !! id = Some (Loading b) →
  wp (alloc_managed who) (λ r w' _, match r with Some f => provided mark g w id b (Ok f) w' | None => w' = w end) w o.
Proof.
  intros Hi Hn Hv Hj. unfold alloc_managed. eapply wp_mono; [apply (keeps_wp marks_kept); [apply kept_frames|by eapply (alloc_for_page who g w id v b)]|].
  intros [f|] w' o' [[-> Hr] [Hm Hs]]; [|done]. destruct Hr as [Hi' _]. exists g. split_and!; try done. intros a Ha. by apply Hm, Hn in Ha.
Qed.
Lemma provided_trans mark g g1 w w1 id b r w2 : quiet g g1 → static_same w w1 → provided mark g1 w1 id b r w2 → provided mark g w id b r w2.
Proof. intros Hq Hs (g2 & Hq2 & Hs2 & Hn2 & Hi2). exists g2. split_and!; try done; by etrans. Qed.
Lemma quiet_job g g1 id j : quiet g g1 → jobs g !! id = j → jobs g1 !! id = j.
Proof. intros (E & _). by rewrite E. Qed.
Lemma allocate_after_reclaim_spec mark target g w id v b o : vm_inv g w → no_mark mark w → vpages w !! id = Some v → jobs g !! id = Some (Loading b) →
  wp (allocate_after_reclaim who mark target) (λ r w' _, provided mark g w id b r w') w o.
Proof.
  intros Hi Hn Hv Hj. unfold allocate_after_reclaim. apply wp_bind. eapply wp_mono; [by eapply (alloc_spec mark g)|]. intros [f|] w1 o1 H1'; [by apply wp_ret|]. subst w1.
  apply wp_bind. eapply wp_mono; [by eapply (reclaim_pages_spec who Hwho mark _ g)|]. intros n w2 o2 ((g2 & Hq2 & Hi2 & _) & Hn2 & Hs2). destruct (static_some _ _ _ _ Hs2 Hv) as (v2 & Hv2 & _).
  apply wp_bind. eapply wp_mono; [eapply (alloc_spec mark g2); [done|done|done|by eapply quiet_job]|]. intros [f|] w3 o3 H3'; apply wp_ret; [by eapply provided_trans|].
  subst w3. exists g2. done.
Qed.
Lemma replenish_spec mark g w o : vm_inv g w → no_mark mark w → wp (replenish_reserve who mark) (λ _ w' _, passed mark g w w') w o.
Proof.
  intros Hi Hn. unfold replenish_reserve. apply wp_bind, wp_get. case_match; [|apply wp_ret; by apply passed_same]. apply wp_bind, wp_get. case_match; [|apply wp_ret; by apply passed_same].
  apply wp_bind. eapply wp_mono; [by eapply (reclaim_pages_spec who Hwho mark _ g)|]. intros n w2 o2 Hp. by apply wp_ret.
Qed.
Lemma allocate_pagein_spec mark g w id v b o : vm_inv g w → no_mark mark w → vpages w !! id = Some v → jobs g !! id = Some (Loading b) →
  wp (allocate_pagein_physical_page who mark) (λ r w' _, provided mark g w id b r w') w o.
Proof.
  intros Hi Hn Hv Hj. unfold allocate_pagein_physical_page. apply wp_bind. eapply wp_mono; [by eapply (alloc_spec mark g)|]. intros [f|] w1 o1 H1'; [by apply wp_ret|]. subst w1.
  by eapply allocate_after_reclaim_spec.
Qed.
Lemma allocate_physical_spec mark g w id v b o : vm_inv g w → no_mark mark w → vpages w !! id = Some v → jobs g !! id = Some (Loading b) →
  wp (allocate_physical_page who mark) (λ r w' _, provided mark g w id b r w') w o.
Proof.
  intros Hi Hn Hv Hj. unfold allocate_physical_page. apply wp_bind. eapply wp_mono; [by eapply (replenish_spec mark g)|]. intros [] w1 o1 ((g1 & Hq1 & Hi1 & _) & Hn1 & Hs1).
  destruct (static_some _ _ _ _ Hs1 Hv) as (v1 & Hv1 & _). pose proof (quiet_job _ _ _ _ Hq1 Hj) as Hj1.
  apply wp_bind. eapply wp_mono; [by eapply (alloc_spec mark g1)|]. intros [f|] w2 o2 H2'; [apply wp_ret; by eapply provided_trans|]. subst w2.
  eapply wp_mono; [by eapply (allocate_after_reclaim_spec mark _ g1)|]. intros r w3 o3 Hp. by eapply provided_trans.
Qed.

(** ** Residency *)

Definition ran mark g w w' g' : Prop := quiet g g' ∧ vm_inv g' w' ∧ static_same w w' ∧ no_mark mark w'.
Lemma vm_keep_mark {A} (m : M (Vm B) A) mark Q w o : keeps marks_kept m → no_mark mark w → wp m Q w o → wp m (λ a w' o', Q a w' o' ∧ no_mark mark w') w o.
Proof. intros Hk Hn Hm. eapply wp_mono; [by apply (keeps_wp marks_kept)|]. intros a w' o' [HQ [Hmk _]]. split; [done|]. intros b Hb. by apply Hmk, Hn in Hb. Qed.
Lemma kept_fill id b f : keeps marks_kept (fill_frame who id b f).
Proof.
  unfold fill_frame, read_previous. keeps_steps.
Qed.
Lemma load_previous_spec mark g w id v b o : vm_inv g w → no_mark mark w → vpages w !! id = Some v → jobs g !! id = Some (Loading b) →
  wp (load_previous who mark id b) (λ r w' _, ∃ g', quiet g g' ∧ static_same w w' ∧ no_mark mark w' ∧
    match r with
    | Ok f => vm_inv (set_job id (Some (Filled b f)) g') w'
    | Err e => ∃ j, (j = Loading b ∨ j = Failed b e) ∧ vm_inv (set_job id (Some j) g') w'
    end) w o.
Proof.
  intros Hi Hn Hv Hj. unfold load_previous. apply wp_bind.
  assert (wp (if bool_decide (b = BZero) then allocate_physical_page who mark else allocate_pagein_physical_page who mark) (λ r w' _, provided mark g w id b r w') w o) as Halloc.
  { case_match; [by eapply allocate_physical_spec|by eapply allocate_pagein_spec]. }
  eapply wp_mono; [exact Halloc|]. intros [f|e] w1 o1 (g1 & Hq1 & Hs1 & Hn1 & Hi1).
  2:{ apply wp_ret. exists g1. split_and!; try done. exists (Loading b). split; [by left|]. rewrite set_job_keep; [done|]. by eapply quiet_job. }
  destruct (static_some _ _ _ _ Hs1 Hv) as (v1 & Hv1 & _).
  eapply wp_mono; [apply vm_keep_mark; [apply kept_fill|exact Hn1|eapply (fill_frame_spec who _ w1 id v1 b f); [done|exact Hi1|done|apply set_job_at]]|].
  intros r w2 o2 [(-> & Hp2 & Hr) Hn2]. exists g1. split_and!; [done|intros i; rewrite Hp2; apply Hs1|done|].
  destruct r as [f'|e]; rewrite !set_job_twice in Hr; [by destruct Hr as [-> ?]|]. exists (Failed b e). split; [by right|done].
Qed.
Lemma kept_claim id : keeps (marks_kept (B := B)) (claim id).
Proof. unfold claim. keeps_steps. Qed.
Lemma kept_publish id b r : keeps (marks_kept (B := B)) (publish_page who id b r).
Proof.
  unfold publish_page. keeps_steps.
Qed.
Lemma resident_backing_spec mark g w id v o : vm_inv g w → no_mark mark w → vpages w !! id = Some v → jobs g !! id = None →
  wp (resident_backing who mark id) (λ r w' _, ∃ g', ran mark g w w' g' ∧
    match r with Ok f => ∃ v', vpages w' !! id = Some v' ∧ backing v' = BResident f | Err _ => True end) w o.
Proof.
  intros Hi Hn Hv Hj. unfold resident_backing. apply wp_bind. eapply wp_mono; [apply vm_keep_mark; [apply kept_claim|exact Hn|by eapply (claim_spec g)]|].
  intros [f| |b] w1 o1 [[-> Hc] Hn1].
  - apply wp_ret. destruct Hc as [-> Hb]. exists g. split; [done|]. by exists v.
  - destruct Hc as [_ Hs]. rewrite Hj in Hs. by destruct Hs.
  - destruct Hc as (Hb & Hi1 & Hp1). assert (static_same w w1) as Hs1 by (by eapply static_insert).
    pose proof (lookup_insert_eq (vpages w) id (with_backing (BBusy (location_of b) false) v)) as Hv1. rewrite <- Hp1 in Hv1.
    apply wp_bind. eapply wp_mono; [eapply (load_previous_spec mark _ w1 id _ b); [exact Hi1|done|exact Hv1|apply set_job_at]|].
    intros r w2 o2 (g2 & Hq2 & Hs2 & Hn2 & Hr). destruct (static_some _ _ _ _ Hs2 Hv1) as (v2 & Hv2 & Est2). apply wp_bind.
    assert (quiet g (set_job id None g2)) as Hq by (by eapply quiet_unset). assert (static_same w w2) as Hs by (by etrans).
    destruct r as [f|e].
    + eapply wp_mono; [apply vm_keep_mark; [apply kept_publish|exact Hn2|eapply (publish_ok who _ w2 id v2 b f); [done|exact Hr|done|apply set_job_at]]|].
      intros [r wt] w3 o3 [(-> & Er & Hi3 & Hp3) Hn3]. cbn in Er. subst r. apply wp_ret. rewrite set_job_twice in Hi3. exists (set_job id None g2). split.
      * split_and!; try done. etrans; [exact Hs|]. by eapply static_insert.
      * eexists. split; [rewrite Hp3; apply lookup_insert_eq|]. done.
    + destruct Hr as (j & Hjj & Hi2). eapply wp_mono; [apply vm_keep_mark; [apply kept_publish|exact Hn2|eapply (publish_err who _ w2 id v2 b e); [exact Hi2|done|]]|].
      { rewrite set_job_at. destruct Hjj as [-> | ->]; [by left|by right]. }
      intros [r wt] w3 o3 [(-> & Er & Hi3 & Hp3) Hn3]. cbn in Er. subst r. apply wp_ret. rewrite set_job_twice in Hi3. exists (set_job id None g2). split; [|done].
      split_and!; try done. etrans; [exact Hs|]. by eapply static_insert.
Qed.

(** ** Raw access *)

(** The same but for the contents of [id]. *)
Definition rewritten mark g w id c w' : Prop := ∃ g', jobs g' = jobs g ∧ pins g' = pins g ∧ unmapping g' = unmapping g ∧ contents g' id = c ∧
  (∀ i, i ≠ id → contents g' i = contents g i) ∧ vm_inv g' w' ∧ static_same w w' ∧ no_mark mark w'.
Lemma ran_static mark g w w' g' id v : ran mark g w w' g' → vpages w !! id = Some v → ∃ v', vpages w' !! id = Some v' ∧ pager v' = pager v.
Proof. intros (_ & _ & Hs & _) Hv. destruct (static_some _ _ _ _ Hs Hv) as (v' & Hv' & E). exists v'. split; [done|]. by injection E. Qed.
Lemma slice_replicate n off len : (off + len ≤ n)%nat → slice (replicate n 0) off (off + len) = replicate len 0.
Proof. intros Hle. unfold slice. rewrite drop_replicate, take_replicate. f_equal. lia. Qed.
Lemma page_zeros off len : (off + len ≤ PAGE_BYTES)%nat → slice zero_frame off (off + len) = replicate len 0.
Proof. apply slice_replicate. Qed.
Lemma referenced_vm g w id v f o : vm_inv g w → vpages w !! id = Some v → backing v = BResident f →
  wp (update_frame f mark_referenced) (λ _ w' o', o' = o ∧ vm_inv g w' ∧ vpages w' = vpages w ∧ bytes_of (pol w') f = contents g id) w o.
Proof.
  intros Hi Hv Hb. destruct (resident_open g w id v f Hi Hv Hb) as (p & u & Hat & Hr & _). apply (wp_update_frame Hat); [apply mark_referenced_update|]. intros w' Hw'. split_and!; [done| | |by apply (at_frame_bytes Hw')].
  - eapply calm_close; [done|done|done|done|exact Hw'|]. apply calm_frame; [apply same_page_refl|apply touched_referenced|done|done|apply dirty_referenced].
  - rewrite (at_vpages _ _ _ _ _ _ _ _ _ _ Hw'). by apply insert_id.
Qed.
Lemma read_raw_spec mark g w id v offset n o : vm_inv g w → no_mark mark w → vpages w !! id = Some v → jobs g !! id = None → is_u64 offset → is_u64 n →
  wp (read_raw who mark id offset n) (λ r w' _, ∃ g', ran mark g w w' g' ∧
    match r with Ok bytes => bytes = slice (contents g id) (Z.to_nat offset) (Z.to_nat offset + Z.to_nat n) | Err _ => True end) w o.
Proof.
  intros Hi Hn Hv Hj Hoff Hlen. assert (ran mark g w w g) as Hsame by (split_and!; try done). unfold read_raw. destruct (validate_range offset n) as [[]|e] eqn:Ev; [|apply wp_ret; by exists g].
  pose proof (validate_range_ok offset n Hoff Hlen Ev) as Hle. destruct (Z.eqb_spec n 0) as [->|Hn0].
  { apply wp_ret. exists g. split; [done|]. unfold slice. by rewrite Nat.add_0_r, Nat.sub_diag. }
  apply wp_bind, (wp_find_vp w id v _ _ Hv).
  assert (wp (let! frame := resident_backing who mark id in do update_frame frame mark_referenced then let* bytes := frame_bytes frame in
      ret (Ok (slice bytes (Z.to_nat offset) (Z.to_nat offset + Z.to_nat n)))) (λ r w' _, ∃ g', ran mark g w w' g' ∧
    match r with Ok bytes => bytes = slice (contents g id) (Z.to_nat offset) (Z.to_nat offset + Z.to_nat n) | Err _ => True end) w o) as Hload.
  { apply wp_bind. eapply wp_mono; [by eapply (resident_backing_spec mark g)|]. intros [f|e] w1 o1 (g1 & Hran & Hr); [|apply wp_ret; by exists g1].
    destruct Hr as (v1 & Hv1 & Hb1). pose proof Hran as (Hq & Hi1 & Hs1 & Hn1). apply wp_bind.
    eapply wp_mono; [apply vm_keep_mark; [apply kept_update_frame|exact Hn1|by eapply (referenced_vm g1)]|]. intros [] w2 o2 [(-> & Hi2 & Hp2 & Hby) Hn2].
    unfold frame_bytes. wp_steps. exists g1. split; [split_and!; try done; intros i; by rewrite Hp2|]. change (memory (phys (pol w2)) f) with (bytes_of (pol w2) f). rewrite Hby. by destruct Hq as (_ & _ & -> & _). }
  destruct (backing v) eqn:Hb; try exact Hload. apply wp_ret. exists g. split; [done|]. destruct (vm_pages _ _ Hi _ _ Hv) as (_ & _ & Hh). rewrite Hb in Hh.
  destruct Hh as (_ & _ & -> & _). symmetry. by apply page_zeros.
Qed.
(** The write of [bytes] into the frame of a page that was made resident. *)
Lemma store_raw_spec mark g w id v off bytes o : vm_inv g w → no_mark mark w → vpages w !! id = Some v → jobs g !! id = None → pager v = None →
  Forall is_byte bytes → (off + length bytes ≤ PAGE_BYTES)%nat →
  wp (let! frame := resident_backing who mark id in do write_resident who id frame off bytes then ret (Ok ())) (λ r w' _,
    match r with Ok _ => rewritten mark g w id (copy_into (contents g id) off bytes) w' | Err _ => rewritten mark g w id (contents g id) w' end) w o.
Proof.
  intros Hi Hn Hv Hj Hpg Hby Hoff. apply wp_bind. eapply wp_mono; [by eapply (resident_backing_spec mark g)|]. intros [f|e] w1 o1 (g1 & Hran & Hr).
  2:{ apply wp_ret. destruct Hran as ((? & ? & Hc & ?) & ? & ? & ?). exists g1. split_and!; try done; intros; by rewrite Hc. }
  destruct Hr as (v1 & Hv1 & Hb1). destruct (ran_static _ _ _ _ _ _ _ Hran Hv) as (v1' & Hv1' & Hpg1). rewrite Hv1 in Hv1'. injection Hv1' as <-. rewrite Hpg in Hpg1.
  pose proof Hran as (Hq & Hi1 & Hs1 & Hn1). apply wp_bind.
  assert (keeps (marks_kept (B := B)) (write_resident who id f off bytes)) as Hk by (unfold write_resident, mark_modified, set_bytes; keeps_steps).
  eapply wp_mono; [apply vm_keep_mark; [exact Hk|exact Hn1|apply (keeps_wp marks_kept); [exact Hk|by eapply (write_resident_spec who g1)]]|].
  intros [] w2 o2 [[(-> & Hi2 & _) [_ Hs2]] Hn2]. apply wp_ret. destruct Hq as (E1 & E2 & E3 & E4).
  exists (set_contents id (copy_into (contents g1 id) off bytes) g1). split_and!; try done; [by rewrite set_contents_at, E3| |by etrans].
  intros i Hne. destruct (set_contents_other id i (copy_into (contents g1 id) off bytes) g1 Hne) as (_ & _ & _ & -> & _). by rewrite E3.
Qed.
Lemma ran_rewritten mark g w id : vm_inv g w → no_mark mark w → rewritten mark g w id (contents g id) w.
Proof. intros Hi Hn. by exists g. Qed.
Lemma copy_nothing {A} (l : list A) off : copy_into l off [] = l.
Proof. unfold copy_into. cbn. rewrite Nat.add_0_r. apply take_drop. Qed.
Lemma write_raw_spec mark g w id v offset input o : vm_inv g w → no_mark mark w → vpages w !! id = Some v → jobs g !! id = None → pager v = None →
  is_u64 offset → is_u64 (Z.of_nat (length input)) → Forall is_byte input →
  wp (write_raw who mark id offset input) (λ r w' _,
    match r with Ok _ => rewritten mark g w id (copy_into (contents g id) (Z.to_nat offset) input) w' | Err _ => rewritten mark g w id (contents g id) w' end) w o.
Proof.
  intros Hi Hn Hv Hj Hpg Hoff Hlen Hby. unfold write_raw. destruct (validate_range offset (Z.of_nat (length input))) as [[]|e] eqn:Ev; [|apply wp_ret; by apply ran_rewritten].
  pose proof (validate_range_ok _ _ Hoff Hlen Ev) as Hle. rewrite Nat2Z.id in Hle. case_bool_decide as E; [apply wp_ret; subst; rewrite copy_nothing; by apply ran_rewritten|].
  by eapply store_raw_spec.
Qed.
Lemma copy_zeros off n : (off + n ≤ PAGE_BYTES)%nat → copy_into zero_frame off (replicate n 0) = zero_frame.
Proof.
  intros Hle. unfold copy_into, zero_frame. rewrite length_replicate, take_replicate, drop_replicate, <- !replicate_add. f_equal. unfold PAGE_BYTES in *. lia.
Qed.
Lemma zero_spec mark g w id v offset n o : vm_inv g w → no_mark mark w → vpages w !! id = Some v → jobs g !! id = None → pager v = None → is_u64 offset → is_u64 n →
  wp (zero who mark id offset n) (λ r w' _,
    match r with Ok _ => rewritten mark g w id (copy_into (contents g id) (Z.to_nat offset) (replicate (Z.to_nat n) 0)) w' | Err _ => rewritten mark g w id (contents g id) w' end) w o.
Proof.
  intros Hi Hn Hv Hj Hpg Hoff Hlen. unfold zero. destruct (validate_range offset n) as [[]|e] eqn:Ev; [|apply wp_ret; by apply ran_rewritten].
  pose proof (validate_range_ok offset n Hoff Hlen Ev) as Hle. destruct (Z.eqb_spec n 0) as [->|Hn0]; [apply wp_ret; change (replicate (Z.to_nat 0) 0) with (@nil Z); rewrite copy_nothing; by apply ran_rewritten|].
  apply wp_bind, (wp_find_vp w id v _ _ Hv).
  assert (wp (let! frame := resident_backing who mark id in do write_resident who id frame (Z.to_nat offset) (replicate (Z.to_nat n) 0) then ret (Ok ())) (λ r w' _,
    match r with Ok _ => rewritten mark g w id (copy_into (contents g id) (Z.to_nat offset) (replicate (Z.to_nat n) 0)) w' | Err _ => rewritten mark g w id (contents g id) w' end) w o) as Hst.
  { eapply store_raw_spec; try done; [|by rewrite length_replicate]. apply Forall_replicate. unfold is_byte. lia. }
  destruct (backing v) eqn:Hb; try exact Hst. apply wp_ret. destruct (vm_pages _ _ Hi _ _ Hv) as (_ & _ & Hh). rewrite Hb in Hh. destruct Hh as (_ & _ & Hz & _).
  rewrite Hz, copy_zeros by done. rewrite <- Hz. by apply ran_rewritten.
Qed.
(** ** Pins *)

Lemma pin_resident_spec mark g w id v o : vm_inv g w → no_mark mark w → vpages w !! id = Some v → jobs g !! id = None → pins g id < 4294967295 →
  wp (pin_resident who mark id) (λ r w' _, ∃ g', quiet g g' ∧ static_same w w' ∧ no_mark mark w' ∧
    match r with
    | Ok f => vm_inv (set_pins id (pins g id + 1) g') w' ∧ ∃ v', vpages w' !! id = Some v' ∧ backing v' = BResident f
    | Err _ => vm_inv g' w'
    end) w o.
Proof.
  intros Hi Hn Hv Hj Hp. unfold pin_resident. apply wp_bind. eapply wp_mono; [by eapply (resident_backing_spec mark g)|]. intros [f|e] w1 o1 (g1 & (Hq & Hi1 & Hs1 & Hn1) & Hr).
  2:{ apply wp_ret. by exists g1. }
  destruct Hr as (v1 & Hv1 & Hb1). pose proof Hq as (_ & Ep & _). apply wp_bind.
  eapply wp_mono; [apply vm_keep_mark; [apply kept_pol, marks_wire|exact Hn1|eapply (wire_page who g1); [done..|by rewrite Ep]]|]. intros [] w2 o2 [(-> & Hi2 & Hp2) Hn2]. apply wp_ret.
  exists g1. rewrite Ep in Hi2. split_and!; try done; [intros i; by rewrite Hp2|]. exists v1. by rewrite Hp2.
Qed.
End run.
