(* ===== verification/VmPageTheorems.v ===== *)
(** * Demand paging keeps the contents of every page

    Threads use pages through the sections that hold the lock of a page, in
    any order: page-in and page-out drop the lock in the middle, and other
    sections run in between. Every run behaves like a memory of pages that
    never leave: each load returns what was stored last. *)
From stdpp Require Import base list gmap sorting.
From S2P Require Import Prelude.
From S2P Require Import Bytes.
From S2P Require Import Index.
From S2P Require Import Phys.
From S2P Require Import PhysInv.
From S2P Require Import PhysOps.
From S2P Require Import PhysRuns.
From S2P Require Import Swap.
From S2P Require Import SwapSpec.
From S2P Require Import Policy.
From S2P Require Import PolicySpec.
From S2P Require Import VmFrames.
From S2P Require Import VmPage.
From S2P Require Import VmPageInv.
From S2P Require Import VmPageOps.
From S2P Require Import VmPageEnter.
From S2P Require Import VmPageIn.
From S2P Require Import VmScan.
From S2P Require Import VmScanSpec.
From S2P Require Import PhysTheorems.
From S2P Require Import PolicyTheorems.
From S2P Require Import SwapTheorems.

Open Scope rust_scope.

(** ** Events and the flat memory *)

Inductive Event : Type :=
| Created (id : nat) (c : list Z)
| Stored (id : nat) (offset : nat) (bytes : list Z)
| Loaded (id : nat) (offset length_ : nat) (bytes : list Z)
| Silent.
Definition memory_after (e : Event) (m : nat → list Z) : nat → list Z :=
  match e with
  | Created id c => λ i, if decide (i = id) then c else m i
  | Stored id offset bytes => λ i, if decide (i = id) then copy_into (m id) offset bytes else m i
  | _ => m
  end.
(** The memory after a run, the last event first, and what its loads returned. *)
Fixpoint flat (tr : list Event) : nat → list Z := match tr with [] => λ _, zero_frame | e :: tr => memory_after e (flat tr) end.
Definition observed (e : Event) (m : nat → list Z) : Prop :=
  match e with Loaded id offset n bytes => bytes = slice (m id) offset (offset + n) | _ => True end.
Fixpoint coherent (tr : list Event) : Prop := match tr with [] => True | e :: tr => observed e (flat tr) ∧ coherent tr end.

(** ** Threads *)

(** What the threads hold: pages they made busy, pins, and leaves whose
    references to a frame they have yet to release. *)
Record Threads : Type := mkThreads { t_jobs : gmap nat Job; t_pins : nat → Z; t_unmapping : nat → Z }.
Definition no_threads : Threads := mkThreads ∅ (λ _, 0) (λ _, 0).
Definition t_job (id : nat) (j : option Job) (t : Threads) : Threads := mkThreads (partial_alter (λ _, j) id (t_jobs t)) (t_pins t) (t_unmapping t).
Definition t_pin (id : nat) (d : Z) (t : Threads) : Threads := mkThreads (t_jobs t) (λ i, if decide (i = id) then t_pins t id + d else t_pins t i) (t_unmapping t).
Definition t_unmap (id : nat) (d : Z) (t : Threads) : Threads := mkThreads (t_jobs t) (t_pins t) (λ i, if decide (i = id) then t_unmapping t id + d else t_unmapping t i).

Inductive Action : Type :=
| CreateZero (id : nat) (index : Z) (kind : PageOwnerKind)
| CreateFile (id : nat) (index : Z) (pg : nat) (object : option nat)
| DropPage (id : nat)
| ClaimPage (id : nat)
| AllocFrame (id : nat)
| FillFrame (id : nat)
| PublishPage (id : nat)
| ReclaimBegin (id : nat)
| StoreFrame (id : nat)
| ReclaimFinish (id : nat)
| EnterPage (m : nat) (address : Z) (id : nat) (protection : Z)
| UnmapLeaf (k : Key)
| ReleaseLeaf (id : nat)
| PmapRemove (m : nat) (start length_ : Z)
| PmapDrop (m : nat)
| WriteProtectAll (m : nat)
| Restrict (m : nat) (start length_ protection : Z)
| UserStore (k : Key) (offset : nat) (bytes : list Z)
| UserLoad (k : Key) (offset length_ : nat)
| KernelStore (id : nat) (offset : nat) (bytes : list Z)
| Harvest (id : nat)
| DropSwap (id : nat)
| Deactivate (id : nat)
| WirePage (id : nat)
| UnwirePage (id : nat)
| OpenWindow (id : nat)
| CloseWindow (id : nat)
| WindowStore (id : nat) (offset : nat) (bytes : list Z)
| Reclaim_ (mark : nat) (target : Z).

Section paging.
Context `{Lz4Laws} {B : Type} `{SwapBackendLaws B} `{VmPagerLaws} (who : Who).
Implicit Types (w : Vm B) (t : Threads) (v : VmPage) (id : nat) (f : Z) (o : oracle) (tr : list Event) (m : nat → list Z).

Definition frame_of (id : nat) : M (Vm B) Z := let* v := get_vp id in expect (frame_locked v).
Definition job_of (t : Threads) (id : nat) : M (Vm B) Job := expect (t_jobs t !! id).
Definition act (a : Action) (t : Threads) : M (Vm B) (Threads * Event) :=
  match a with
  | CreateZero id index kind => do create_page id (new_zero index kind) then ret (t, Created id zero_frame)
  | CreateFile id index pg object => do create_page id (new_file index pg object) then ret (t, Created id (pager_page pg (u64_mul index 4096)))
  | DropPage id => do drop_page who id then ret (t, Silent)
  | ClaimPage id => let* c := claim id in ret (match c with Claimed b => t_job id (Some (Loading b)) t | _ => t end, Silent)
  | AllocFrame id =>
      let* j := job_of t id in
      match j with
      | Loading b => let* r := alloc_managed who in ret (match r with Some f => t_job id (Some (Filling b f)) t | None => t end, Silent)
      | _ => panic
      end
  | FillFrame id =>
      let* j := job_of t id in
      match j with
      | Filling b f =>
          let* r := fill_frame who id b f in
          ret (t_job id (Some (match r with Ok _ => Filled b f | Err e => Failed b e end)) t, Silent)
      | _ => panic
      end
  | PublishPage id =>
      let* j := job_of t id in
      let* _ := (match j with
                 | Filled b f => publish_page who id b (Ok f)
                 | Failed b e => publish_page who id b (Err e)
                 | Loading b => publish_page who id b (Err OutOfMemory)
                 | _ => panic
                 end) in
      ret (t_job id None t, Silent)
  | ReclaimBegin id =>
      let* r := reclaim_begin who id in
      ret (match r with Storing f => t_job id (Some (Writing f)) t | Finished _ => t end, Silent)
  | StoreFrame id =>
      let* j := job_of t id in
      match j with Writing f => let* r := store_frame f in ret (t_job id (Some (Written f r)) t, Silent) | _ => panic end
  | ReclaimFinish id =>
      let* j := job_of t id in
      match j with Written f r => let* _ := reclaim_finish who id f r in ret (t_job id None t, Silent) | _ => panic end
  | EnterPage m address id protection => let* f := frame_of id in let* _ := enter m address id f protection in ret (t, Silent)
  | UnmapLeaf k =>
      let* w := get in
      let* l := expect (leaves w !! k) in
      do unmap_page k then
      do remove_reverse_mapping (lf_page l) k then
      ret (t_unmap (lf_page l) 1 t, Silent)
  | ReleaseLeaf id => do release_mapping id then ret (t_unmap id (-1) t, Silent)
  | PmapRemove m start n => let* _ := pmap_remove m start n in ret (t, Silent)
  | PmapDrop m => do pmap_drop m then ret (t, Silent)
  | WriteProtectAll m => do write_protect_all m then ret (t, Silent)
  | Restrict m start n protection => let* _ := restrict m start n protection in ret (t, Silent)
  | UserStore k offset bytes =>
      let* w := get in
      let* l := expect (leaves w !! k) in
      do user_store k offset bytes then ret (t, Stored (lf_page l) offset bytes)
  | UserLoad k offset n =>
      let* w := get in
      let* l := expect (leaves w !! k) in
      let* bytes := user_load k offset n in ret (t, Loaded (lf_page l) offset n bytes)
  | KernelStore id offset bytes => let* f := frame_of id in do write_resident who id f offset bytes then ret (t, Stored id offset bytes)
  | Harvest id => do harvest_page_state_locked who id then ret (t, Silent)
  | DropSwap id => let* _ := drop_swap_locked id in ret (t, Silent)
  | Deactivate id => do deactivate_locked who id then ret (t, Silent)
  | WirePage id => let* f := frame_of id in do on_pol (wire f (place who)) then ret (t_pin id 1 t, Silent)
  | UnwirePage id => let* f := frame_of id in do unpin who f then ret (t_pin id (-1) t, Silent)
  | OpenWindow id => do open_window who id then ret (t, Silent)
  | CloseWindow id => do close_window id then ret (t, Silent)
  | WindowStore id offset bytes => let* f := frame_of id in do window_store f offset bytes then ret (t, Stored id offset bytes)
  | Reclaim_ mark target => let* _ := reclaim_pages who mark target in ret (t, Silent)
  end.

Definition in_page (offset : nat) (bytes : list Z) : Prop := Forall is_byte bytes ∧ (offset + length bytes ≤ PAGE_BYTES)%nat.
(** When a thread may take an action: it holds what the action needs. A page
    that a pager fills is never written. *)
Definition permitted (t : Threads) (w : Vm B) (a : Action) : Prop :=
  match a with
  | CreateZero id _ kind => vpages w !! id = None ∧ kind ≠ OwnNone
  | CreateFile id _ _ _ => vpages w !! id = None
  | DropPage id => t_jobs t !! id = None ∧ t_pins t id = 0 ∧ t_unmapping t id = 0 ∧ ∃ v, vpages w !! id = Some v ∧ mappings v = []
  | ClaimPage id | ReclaimBegin id | Harvest id | DropSwap id | Deactivate id => is_Some (vpages w !! id)
  | AllocFrame id => ∃ b, t_jobs t !! id = Some (Loading b)
  | FillFrame id => ∃ b f, t_jobs t !! id = Some (Filling b f)
  | PublishPage id => ∃ b, t_jobs t !! id = Some (Loading b) ∨ (∃ f, t_jobs t !! id = Some (Filled b f)) ∨ (∃ e, t_jobs t !! id = Some (Failed b e))
  | StoreFrame id => ∃ f, t_jobs t !! id = Some (Writing f)
  | ReclaimFinish id => ∃ f r, t_jobs t !! id = Some (Written f r)
  | EnterPage _ _ id protection => 0 < t_pins t id ∧ ∀ v, vpages w !! id = Some v → has_prot protection WRITE = true → pager v = None
  | UnmapLeaf k => is_Some (leaves w !! k)
  | ReleaseLeaf id => 0 < t_unmapping t id
  | PmapRemove _ _ _ | PmapDrop _ | WriteProtectAll _ | Restrict _ _ _ _ => True
  | UserStore k offset bytes => in_page offset bytes ∧ ∃ l, leaves w !! k = Some l ∧ has_prot (lf_protection l) WRITE = true
  | UserLoad k _ _ => is_Some (leaves w !! k)
  | KernelStore id offset bytes => in_page offset bytes ∧ ∃ v f, vpages w !! id = Some v ∧ backing v = BResident f ∧ pager v = None
  | WirePage id => t_pins t id < 4294967295 ∧ ∃ v f, vpages w !! id = Some v ∧ backing v = BResident f
  | UnwirePage id => 0 < t_pins t id ∧ ∀ v, vpages w !! id = Some v → write_windows v < t_pins t id
  | OpenWindow id => 0 < t_pins t id ∧ ∀ v, vpages w !! id = Some v → pager v = None ∧ write_windows v < t_pins t id
  | CloseWindow id => ∃ v, vpages w !! id = Some v ∧ 0 < write_windows v
  | WindowStore id offset bytes => in_page offset bytes ∧ ∃ v, vpages w !! id = Some v ∧ 0 < write_windows v
  | Reclaim_ mark _ => no_mark mark w
  end.

(** ** Every permitted action *)

Definition ghost t (sl : gmap nat (SwapHandle * list Z)) m : Ghost := mkGhost (t_jobs t) sl (t_pins t) m (t_unmapping t).
(** The state of the pages is that of the flat memory [m]. *)
Definition paged t m w : Prop := ∃ sl, vm_inv (ghost t sl m) w.
Definition acted m (r : Threads * Event) w' : Prop := paged r.1 (memory_after r.2 m) w' ∧ observed r.2 m.
Lemma acted_silent t m w' sl : vm_inv (ghost t sl m) w' → acted m (t, Silent) w'.
Proof. intros Hi. split; [by exists sl|done]. Qed.
(** A page that somebody holds is resident. *)
Lemma pinned_resident g w id : vm_inv g w → 0 < pins g id ∨ 0 < unmapping g id → ∃ v f, vpages w !! id = Some v ∧ backing v = BResident f.
Proof.
  intros Hi Hp. destruct (vpages w !! id) as [v|] eqn:Hv; [|destruct (vm_gone _ _ Hi _ Hv) as (_ & _ & ? & ?); lia].
  destruct (vm_pages _ _ Hi _ _ Hv) as (_ & _ & Hb). destruct (backing v) as [| |f|h|loc wt] eqn:Eb; try (destruct Hb as ((_ & _ & _ & ? & _ & ?) & _); lia). by exists v, f.
Qed.
Lemma window_resident g w id v : vm_inv g w → vpages w !! id = Some v → 0 < write_windows v → ∃ f, backing v = BResident f.
Proof.
  intros Hi Hv Hp. destruct (vm_pages _ _ Hi _ _ Hv) as (_ & _ & Hb). destruct (backing v) as [| |f|h|loc wt] eqn:Eb; try (destruct Hb as ((_ & _ & _ & _ & ? & _) & _); lia). by exists f.
Qed.
Lemma busy_page g w id j : vm_inv g w → jobs g !! id = Some j → ∃ v, vpages w !! id = Some v.
Proof. intros Hi Hj. destruct (vpages w !! id) as [v|] eqn:Hv; [by exists v|]. destruct (vm_gone _ _ Hi _ Hv) as (? & _). congruence. Qed.
Lemma wp_frame_of w id v f (Q : Z → Vm B → oracle → Prop) o : vpages w !! id = Some v → backing v = BResident f → Q f w o → wp (frame_of id) Q w o.
Proof. intros Hv Hb HQ. unfold frame_of. apply wp_bind, (wp_find_vp w id v _ _ Hv). unfold frame_locked. rewrite Hb. by wp_steps. Qed.
Lemma wp_job_of w t id j (Q : Job → Vm B → oracle → Prop) o : t_jobs t !! id = Some j → Q j w o → wp (job_of t id) Q w o.
Proof. intros Hj HQ. unfold job_of. rewrite Hj. by wp_steps. Qed.

Section actions.
Context (Hwho : who_ok who) (t : Threads) (sl : gmap nat (SwapHandle * list Z)) (m : nat → list Z) (w : Vm B) (Hi : vm_inv (ghost t sl m) w).
Abbreviation ok a := (∀ o, permitted t w a → wp (act a t) (λ r w' _, acted m r w') w o).

(** A section without events that leaves the threads as they are. *)
Lemma act_quietly {A} (op : M (Vm B) A) (Q : A → Vm B → oracle → Prop) o : wp op Q w o → (∀ x w' o', Q x w' o' → ∃ sl', vm_inv (ghost t sl' m) w') →
  wp (let* _ := op in ret (t, Silent)) (λ r w' _, acted m r w') w o.
Proof. intros Hop HQ. apply wp_bind. eapply wp_mono; [exact Hop|]. intros x w' o' Hx. apply wp_ret. destruct (HQ _ _ _ Hx) as [sl' Hi']. by eapply acted_silent. Qed.

Lemma act_create id index kind pg object : ok (CreateZero id index kind) ∧ ok (CreateFile id index pg object).
Proof.
  split; cbn [permitted act]; intros o Hp; apply wp_bind.
  - destruct Hp as [Hn Hk]. eapply wp_mono; [by apply (create_zero_spec (ghost t sl m))|]. intros [] w' o' [-> Hi']. apply wp_ret. split; [by exists sl|done].
  - eapply wp_mono; [by apply (create_file_spec (ghost t sl m))|]. intros [] w' o' [-> Hi']. apply wp_ret. split; [by exists sl|done].
Qed.
Lemma act_drop id : ok (DropPage id).
Proof.
  cbn [permitted act]. intros o (Hj & Hp & Hu & v & Hv & Hm). eapply act_quietly; [eapply (drop_page_spec who (ghost t sl m)); [done|done|exact Hv|]|].
  - split_and!; try done. intros loc wt E. destruct (vm_pages _ _ Hi _ _ Hv) as (_ & _ & Hb). rewrite E in Hb. destruct Hb as (_ & j & ? & _). cbn in *. congruence.
  - intros [] w' o' (_ & Hi' & _). by eexists.
Qed.
Lemma act_claim id : ok (ClaimPage id).
Proof.
  cbn [permitted act]. intros o [v Hv]. apply wp_bind. eapply wp_mono; [by apply (claim_spec (ghost t sl m) w id v)|]. intros [f| |b] w' o' [-> Hc]; apply wp_ret.
  - destruct Hc as [-> _]. by eapply acted_silent.
  - destruct Hc as [Hi' _]. by eapply acted_silent.
  - destruct Hc as (_ & Hi' & _). by eapply acted_silent.
Qed.
Lemma act_alloc id : ok (AllocFrame id).
Proof.
  cbn [permitted act]. intros o [b Hj]. destruct (busy_page _ _ _ _ Hi Hj) as [v Hv]. apply wp_bind. eapply wp_job_of; [exact Hj|]. apply wp_bind. unfold alloc_managed.
  eapply wp_mono; [by eapply (alloc_for_page who (ghost t sl m) w id v b)|]. intros [f|] w' o' [-> Hr]; apply wp_ret; [destruct Hr as [Hi' _]|subst w']; by eapply acted_silent.
Qed.
Lemma act_fill id : ok (FillFrame id).
Proof.
  cbn [permitted act]. intros o (b & f & Hj). destruct (busy_page _ _ _ _ Hi Hj) as [v Hv]. apply wp_bind. eapply wp_job_of; [exact Hj|]. apply wp_bind.
  eapply wp_mono; [by eapply (fill_frame_spec who (ghost t sl m) w id v b f)|]. intros [f'|e] w' o' (-> & _ & Hr); apply wp_ret; [destruct Hr as [_ Hr]|]; by eapply acted_silent.
Qed.
Lemma act_publish id : ok (PublishPage id).
Proof.
  cbn [permitted act]. intros o (b & Hj). assert (∃ j, t_jobs t !! id = Some j) as [j Hj'] by (destruct Hj as [?|[[f ?]|[e ?]]]; by eexists). destruct (busy_page _ _ _ _ Hi Hj') as [v Hv].
  apply wp_bind. destruct Hj as [Hj|[[f Hj]|[e Hj]]]; (eapply wp_job_of; [exact Hj|]; apply wp_bind).
  - eapply wp_mono; [eapply (publish_err who (ghost t sl m) w id v b OutOfMemory); [done|done|by left]|]. intros r w' o' (-> & _ & Hi' & _). apply wp_ret. by eapply acted_silent.
  - eapply wp_mono; [by eapply (publish_ok who (ghost t sl m) w id v b f)|]. intros r w' o' (-> & _ & Hi' & _). apply wp_ret. by eapply acted_silent.
  - eapply wp_mono; [eapply (publish_err who (ghost t sl m) w id v b e); [done|done|by right]|]. intros r w' o' (-> & _ & Hi' & _). apply wp_ret. by eapply acted_silent.
Qed.
Lemma act_reclaim_begin id : ok (ReclaimBegin id).
Proof.
  cbn [permitted act]. intros o [v Hv]. apply wp_bind. eapply wp_mono; [by eapply (reclaim_begin_spec who (ghost t sl m))|].
  intros [b|f] w' o' (-> & _ & Hi'); apply wp_ret; by eapply acted_silent.
Qed.
Lemma act_store id : ok (StoreFrame id).
Proof.
  cbn [permitted act]. intros o [f Hj]. destruct (busy_page _ _ _ _ Hi Hj) as [v Hv]. apply wp_bind. eapply wp_job_of; [exact Hj|]. apply wp_bind.
  eapply wp_mono; [by eapply (store_frame_spec (ghost t sl m) w id v f)|]. intros r w' o' (Hi' & _). apply wp_ret. destruct r; by eapply acted_silent.
Qed.
Lemma act_reclaim_finish id : ok (ReclaimFinish id).
Proof.
  cbn [permitted act]. intros o (f & r & Hj). destruct (busy_page _ _ _ _ Hi Hj) as [v Hv]. apply wp_bind. eapply wp_job_of; [exact Hj|]. apply wp_bind.
  eapply wp_mono; [by eapply (reclaim_finish_spec who (ghost t sl m) w id v f r)|]. intros b w' o' (-> & Hi' & _). apply wp_ret. by eapply acted_silent.
Qed.

(** Mappings. *)
Lemma act_enter pm address id protection : ok (EnterPage pm address id protection).
Proof.
  cbn [permitted act]. intros o [Hp Hpg]. destruct (pinned_resident _ _ id Hi (or_introl Hp)) as (v & f & Hv & Hb). apply wp_bind. eapply wp_frame_of; [done|done|].
  eapply act_quietly; [eapply (enter_spec pm address (ghost t sl m) w id v f protection); [done|done|done|by apply Hpg]|]. intros r w' o' (_ & [Hi' _] & _). by exists sl.
Qed.
Lemma act_unmap k : ok (UnmapLeaf k).
Proof.
  cbn [permitted act]. intros o [l Hl]. wp_steps.
  eapply wp_mono; [eapply (unmap_one (ghost t sl m) w k l (λ _ w' o', vm_inv (set_unmapping (lf_page l) (t_unmapping t (lf_page l) + 1) (ghost t sl m)) w')); [done|done|by intros]|].
  intros [] w1 o1 Hr. apply wp_bind. eapply wp_mono; [exact Hr|]. intros [] w2 o2 Hi2. apply wp_ret. by eapply (acted_silent (t_unmap (lf_page l) 1 t)).
Qed.
Lemma act_release id : ok (ReleaseLeaf id).
Proof.
  cbn [permitted act]. intros o Hp. apply wp_bind. eapply (release_one (ghost t sl m)); [done|exact Hp|]. intros w' Hi' _. apply wp_ret. by eapply (acted_silent (t_unmap id (-1) t)).
Qed.
Lemma act_ranges pm start n protection : ok (PmapRemove pm start n) ∧ ok (PmapDrop pm) ∧ ok (WriteProtectAll pm) ∧ ok (Restrict pm start n protection).
Proof.
  split_and!; cbn [permitted act]; intros o _.
  - eapply act_quietly; [by apply (pmap_remove_spec pm start n (ghost t sl m))|]. intros r w' o' [_ Hr]. exists sl. case_match; [apply Hr|]. by destruct Hr as [_ ->].
  - eapply act_quietly; [by apply (pmap_drop_spec pm (ghost t sl m))|]. intros r w' o' (_ & ? & _). by exists sl.
  - eapply act_quietly; [by apply (write_protect_all_spec pm (ghost t sl m))|]. intros r w' o' (_ & ? & _). by exists sl.
  - eapply act_quietly; [by apply (restrict_spec pm start n protection (ghost t sl m))|]. intros r w' o' [_ Hr]. exists sl. case_match; [done|]. by destruct Hr as [_ ->].
Qed.
(** Accesses. *)
Lemma act_user k offset bytes n : ok (UserStore k offset bytes) ∧ ok (UserLoad k offset n).
Proof.
  split; cbn [permitted act]; intros o Hp.
  - destruct Hp as ([Hby Hoff] & l & Hl & Hw). wp_steps. eapply wp_mono; [by eapply (user_store_spec (ghost t sl m))|]. intros [] w' o' [-> Hi']. apply wp_ret. split; [by exists sl|done].
  - destruct Hp as [l Hl]. wp_steps. eapply wp_mono; [by eapply (user_load_spec (ghost t sl m))|]. intros bytes' w' o' (-> & Hi' & Hb). apply wp_ret. split; [by exists sl|exact Hb].
Qed.
Lemma act_kernel_store id offset bytes : ok (KernelStore id offset bytes).
Proof.
  cbn [permitted act]. intros o ([Hby Hoff] & v & f & Hv & Hb & Hpg). apply wp_bind. eapply wp_frame_of; [done|done|]. apply wp_bind.
  eapply wp_mono; [by eapply (write_resident_spec who (ghost t sl m))|]. intros [] w' o' (-> & Hi' & _). apply wp_ret. split; [by exists sl|done].
Qed.
Lemma act_windows id offset bytes : ok (OpenWindow id) ∧ ok (CloseWindow id) ∧ ok (WindowStore id offset bytes).
Proof.
  split_and!; cbn [permitted act]; intros o Hp.
  - destruct Hp as [Hp Hw]. destruct (pinned_resident _ _ id Hi (or_introl Hp)) as (v & f & Hv & Hb). destruct (Hw v Hv) as [Hpg Hn].
    eapply act_quietly; [by eapply (open_window_spec who (ghost t sl m))|]. intros [] w' o' [_ Hi']. by exists sl.
  - destruct Hp as (v & Hv & Hn). destruct (window_resident _ _ _ _ Hi Hv Hn) as [f Hb]. eapply act_quietly; [by eapply (close_window_spec (ghost t sl m))|]. intros [] w' o' [_ Hi']. by exists sl.
  - destruct Hp as ([Hby Hoff] & v & Hv & Hn). destruct (window_resident _ _ _ _ Hi Hv Hn) as [f Hb]. apply wp_bind. eapply wp_frame_of; [done|done|]. apply wp_bind.
    eapply wp_mono; [by eapply (window_store_spec (ghost t sl m) w id v f)|]. intros [] w' o' [-> Hi']. apply wp_ret. split; [by exists sl|done].
Qed.
(** Pins, harvesting and scans. *)
Lemma act_wires id : ok (WirePage id) ∧ ok (UnwirePage id).
Proof.
  split; cbn [permitted act]; intros o Hp.
  - destruct Hp as (Hn & v & f & Hv & Hb). apply wp_bind. eapply wp_frame_of; [done|done|]. apply wp_bind. eapply wp_mono; [by eapply (wire_page who (ghost t sl m))|].
    intros [] w' o' (-> & Hi' & _). apply wp_ret. by eapply (acted_silent (t_pin id 1 t)).
  - destruct Hp as [Hp Hw]. destruct (pinned_resident _ _ id Hi (or_introl Hp)) as (v & f & Hv & Hb). apply wp_bind. eapply wp_frame_of; [done|done|]. apply wp_bind. unfold unpin.
    eapply wp_mono; [eapply (unwire_page who (ghost t sl m)); [done|done|done|done|by apply Hw]|]. intros [] w' o' (-> & Hi' & _). apply wp_ret. by eapply (acted_silent (t_pin id (-1) t)).
Qed.
Lemma act_harvest id : ok (Harvest id) ∧ ok (DropSwap id) ∧ ok (Deactivate id).
Proof.
  split_and!; cbn [permitted act]; intros o [v Hv].
  - eapply act_quietly; [by eapply (harvest_page who (ghost t sl m))|]. intros [] w' o' (_ & [Hi' _] & _). by exists sl.
  - eapply act_quietly; [by eapply (drop_swap_spec (ghost t sl m))|]. intros [] w' o' [_ Hr]; [destruct Hr as [Hi' _]; by eexists|]. subst w'. by exists sl.
  - eapply act_quietly; [by eapply (deactivate_locked_spec who (ghost t sl m))|]. intros [] w' o' (_ & [Hi' _]). by exists sl.
Qed.
Lemma act_reclaim mark target : ok (Reclaim_ mark target).
Proof.
  cbn [permitted act]. intros o Hp. eapply act_quietly; [by eapply (reclaim_pages_spec who Hwho mark target (ghost t sl m))|]. intros n w' o' ((g' & (E1 & E2 & E3 & E4) & Hi' & _) & _).
  exists (slots g'). replace (ghost t (slots g') m) with g'; [done|]. destruct g'. cbn in *. by subst.
Qed.
Lemma act_spec a : ok a.
Proof.
  destruct a.
  - exact (proj1 (act_create id index kind 0%nat None)).
  - exact (proj2 (act_create id index OwnNone pg object)).
  - apply act_drop.
  - apply act_claim.
  - apply act_alloc.
  - apply act_fill.
  - apply act_publish.
  - apply act_reclaim_begin.
  - apply act_store.
  - apply act_reclaim_finish.
  - apply act_enter.
  - apply act_unmap.
  - apply act_release.
  - exact (proj1 (act_ranges m0 start length_ 0)).
  - exact (proj1 (proj2 (act_ranges m0 0 0 0))).
  - exact (proj1 (proj2 (proj2 (act_ranges m0 0 0 0)))).
  - exact (proj2 (proj2 (proj2 (act_ranges m0 start length_ protection)))).
  - exact (proj1 (act_user k offset bytes 0%nat)).
  - exact (proj2 (act_user k offset [] length_)).
  - apply act_kernel_store.
  - exact (proj1 (act_harvest id)).
  - exact (proj1 (proj2 (act_harvest id))).
  - exact (proj2 (proj2 (act_harvest id))).
  - exact (proj1 (act_wires id)).
  - exact (proj2 (act_wires id)).
  - exact (proj1 (act_windows id 0%nat [])).
  - exact (proj1 (proj2 (act_windows id 0%nat []))).
  - exact (proj2 (proj2 (act_windows id offset bytes))).
  - apply act_reclaim.
Qed.
End actions.
End paging.

(** ** Runs *)

Section runs.
Context `{Lz4Laws} {B : Type} `{SwapBackendLaws B} `{VmPagerLaws}.
Implicit Types (w : Vm B) (t : Threads) (v : VmPage) (id : nat) (f : Z) (o : oracle) (tr : list Event).

(** The paging state at boot: frames, an empty swap and no pages. *)
Definition vm_new (P : Phys) (maximum slots : Z) : Vm B := mkVm (policy_new P) (swap_init maximum slots) ∅ ∅ ∅ 0.
Inductive paging_reach (P : Phys) (maximum slots : Z) : Threads → Vm B → list Event → Prop :=
| paging_start : paging_reach P maximum slots no_threads (vm_new P maximum slots) []
| paging_step who t w tr a o t' e w' o' : paging_reach P maximum slots t w tr → who_ok who → permitted t w a →
    act who a t w o = Some ((t', e), w', o') → paging_reach P maximum slots t' w' (e :: tr).

Lemma vm_new_inv P maximum slots : phys_inv P → fresh_words P → is_u64 maximum → paged no_threads (λ _, zero_frame) (vm_new P maximum slots).
Proof.
  intros HP Hw Hm. destruct (policy_new_inv P HP Hw) as [Hi Hs]. exists ∅. split; cbn.
  - done.
  - by apply swap_init_inv.
  - done.
  - done.
  - done.
  - done.
  - intros f p u Hl Hu. destruct (look_entry _ _ _ _ Hl) as (e & He & _ & ->). destruct Hu. apply (Hs f e He).
Qed.
Lemma paging_reach_inv P maximum slots t w tr : phys_inv P → fresh_words P → is_u64 maximum → paging_reach P maximum slots t w tr → paged t (flat tr) w ∧ coherent tr.
Proof.
  intros HP Hw Hm. induction 1 as [|who t w tr a o t' e w' o' _ [[sl Hi] Hc] Hwho Ha Hrun]; [split; [by apply vm_new_inv|done]|].
  pose proof (act_spec who Hwho t sl (flat tr) w Hi a o Ha) as Hact. unfold wp in Hact. rewrite Hrun in Hact. destruct Hact as [Hp Ho]. done.
Qed.

(** C13: Demand paging refines a memory whose pages never leave: every load of a
    run returned what the stores before it had written, and at the end the
    frame of a resident page, the handle of a swapped one and the zeros of a
    fresh one all hold the page of the flat memory. *)
Theorem paging_refines_flat P maximum slots t w tr (HP : phys_inv P) (Hw : fresh_words P) (Hm : is_u64 maximum) (Hr : paging_reach P maximum slots t w tr) :
  coherent tr ∧
  ∀ id v, vpages w !! id = Some v →
    match backing v with
    | BResident f => bytes_of (pol w) f = flat tr id
    | BZero => flat tr id = zero_frame
    | BFile => ∃ pg, pager v = Some pg ∧ flat tr id = pager_page pg (u64_mul (vp_index v) 4096)
    | BSwapped h => ∀ out o, length out = PAGE_BYTES → ∃ r s', load h out (swap w) o = Some (r, s', o) ∧ match r.1 with Ok _ => r.2 = flat tr id | Err _ => ∃ x, h = External x end
    | BBusy _ _ => is_Some (t_jobs t !! id)
    end.
Proof.
  destruct (paging_reach_inv _ _ _ _ _ _ HP Hw Hm Hr) as [[sl Hi] Hc]. split; [done|]. intros id v Hv. destruct (vm_pages _ _ Hi _ _ Hv) as (_ & _ & Hb).
  destruct (backing v) as [| |f|h|loc wt].
  - apply Hb.
  - destruct Hb as (_ & _ & _ & Hst). exact Hst.
  - destruct Hb as (_ & p & u & _ & Hres). apply (res_bytes _ _ _ _ _ _ _ _ Hres).
  - destruct Hb as (_ & _ & Hsl & _). intros out o Hout. destruct (wp_elim _ _ _ _ (swap_load_spec _ _ h _ out o (vm_swap _ _ Hi) (live_in _ _ _ Hsl) Hout)) as (r & s' & o' & Hl & -> & _ & _ & Hpage).
    by exists r, s'.
  - destruct Hb as (_ & j & Hj & _). by exists j.
Qed.

(** C14: No assertion, [expect] or [unreachable!] of the paging code fails: in
    every reachable state every action that a thread may take returns,
    whatever the allocators and locks answer. *)
Theorem paging_never_panics P maximum slots who t w tr a o (HP : phys_inv P) (Hw : fresh_words P) (Hm : is_u64 maximum) (Hr : paging_reach P maximum slots t w tr)
  (Hwho : who_ok who) (Ha : permitted t w a) : ∃ t' e w' o', act who a t w o = Some ((t', e), w', o') ∧ paging_reach P maximum slots t' w' (e :: tr).
Proof.
  destruct (paging_reach_inv _ _ _ _ _ _ HP Hw Hm Hr) as [[sl Hi] _]. destruct (wp_elim _ _ _ _ (act_spec who Hwho t sl (flat tr) w Hi a o Ha)) as ([t' e] & w' & o' & Hrun & _).
  exists t', e, w', o'. split; [done|]. by eapply paging_step.
Qed.

(** C15: In every reachable state a leaf of the page tables maps the frame of a
    resident page that lists the leaf, no two pages share a frame, a pinned
    page is resident, and a resident page is on a replacement queue exactly
    when nobody pins it. *)
Theorem paging_frames_owned P maximum slots t w tr (HP : phys_inv P) (Hw : fresh_words P) (Hm : is_u64 maximum) (Hr : paging_reach P maximum slots t w tr) :
  (∀ k l, leaves w !! k = Some l → ∃ v, vpages w !! lf_page l = Some v ∧ backing v = BResident (lf_frame l) ∧ k ∈ mappings v) ∧
  (∀ id1 id2 f, is_resident w id1 f → is_resident w id2 f → id1 = id2) ∧
  (∀ id, 0 < t_pins t id → ∃ f, is_resident w id f) ∧
  (∀ id f, is_resident w id f → ∃ p u, look (pol w) f = Some (p, u) ∧ owner p = Some id ∧ (u = QueueNone ↔ t_pins t id ≠ 0)) ∧
  (∀ f p u, look (pol w) f = Some (p, u) → u ≠ QueueNone → ∃ id, is_resident w id f).
Proof.
  destruct (paging_reach_inv _ _ _ _ _ _ HP Hw Hm Hr) as [[sl Hi] _]. split_and!.
  - intros k l Hl. destruct (leaf_open _ w k l Hi Hl) as (v & p & u & ? & ? & ? & _). by exists v.
  - intros id1 id2 f (v1 & Hv1 & Hb1) (v2 & Hv2 & Hb2). eapply (vm_frames _ _ Hi _ _ v1 v2 f); [done|done| |]; unfold frame_held; by rewrite ?Hb1, ?Hb2.
  - intros id Hp. destruct (pinned_resident _ _ id Hi (or_introl Hp)) as (v & f & Hv & Hb). by exists f, v.
  - intros id f (v & Hv & Hb). destruct (resident_open _ w id v f Hi Hv Hb) as (p & u & Hat & Hres & _). exists p, u. split_and!; [apply (at_entry Hat)|apply (own_owner _ _ _ (res_owned _ _ _ _ _ _ _ _ Hres))|].
    rewrite (res_queue _ _ _ _ _ _ _ _ Hres). by destruct (res_pins _ _ _ _ _ _ _ _ Hres) as [-> _].
  - apply (vm_queues _ _ Hi).
Qed.


(** C17: [Pmap::remove] returns, whatever the number of leaves: afterwards the
    range has none, every other leaf is as before, and the pages still hold
    the flat memory. A range that overflows the address space is refused. *)
Theorem pmap_remove_correct P maximum slots t w tr m start n o (HP : phys_inv P) (Hw : fresh_words P) (Hm : is_u64 maximum) (Hr : paging_reach P maximum slots t w tr) :
  ∃ r w', pmap_remove m start n w o = Some (r, w', o) ∧ paged t (flat tr) w' ∧
    match checked_page_end (align_page start) n with
    | Ok end_ => r = Ok () ∧ ∀ k, leaves w' !! k = if decide (in_range m (align_page start) end_ k) then None else leaves w !! k
    | Err e => r = Err e ∧ w' = w
    end.
Proof.
  destruct (paging_reach_inv _ _ _ _ _ _ HP Hw Hm Hr) as [[sl Hi] _]. destruct (wp_elim _ _ _ _ (pmap_remove_spec m start n (ghost t sl (flat tr)) w o Hi)) as (r & w' & o' & Hrun & -> & Hres).
  exists r, w'. split; [done|]. destruct (checked_page_end (align_page start) n) as [end_|e]; [destruct Hres as (? & ? & ?); split; [by exists sl|done]|].
  destruct Hres as [-> ->]. split; [by exists sl|done].
Qed.

(** C18: [Pmap::enter] of a pinned page either installs exactly the leaf that was
    asked for, replacing any other one at the address, or reports that an
    allocation was refused and leaves the page tables alone; the pages still
    hold the flat memory, so the modified bit of a replaced leaf is not lost. *)
Theorem enter_correct P maximum slots t w tr m address id v f protection o (HP : phys_inv P) (Hw : fresh_words P) (Hm : is_u64 maximum) (Hr : paging_reach P maximum slots t w tr)
  (Hv : vpages w !! id = Some v) (Hb : backing v = BResident f) (Hpg : has_prot protection WRITE = true → pager v = None) :
  ∃ r w' o', enter m address id f protection w o = Some (r, w', o') ∧ paged t (flat tr) w' ∧
    match r with
    | Ok _ => (∀ k, k ≠ (m, align_page address) → leaves w' !! k = leaves w !! k) ∧
        ∃ l, leaves w' !! (m, align_page address) = Some l ∧ lf_page l = id ∧ lf_protection l = protection ∧ lf_frame l = f
    | Err e => e = OutOfMemory ∧ leaves w' = leaves w ∧ false ∈ o
    end.
Proof.
  destruct (paging_reach_inv _ _ _ _ _ _ HP Hw Hm Hr) as [[sl Hi] _].
  destruct (wp_elim _ _ _ _ (enter_spec m address (ghost t sl (flat tr)) w id v f protection o Hi Hv Hb Hpg)) as (r & w' & o' & Hrun & _ & [Hi' Hres] & Herr).
  exists r, w', o'. split; [done|]. split; [by exists sl|]. destruct r as [[]|e]; [done|]. destruct Hres as [-> ->]. split_and!; try done. apply Herr. by eexists.
Qed.
End runs.

(** ** A run on a small machine *)

Section checked.
Context `{Lz4Laws} {B : Type} `{SwapBackendLaws B} `{VmPagerLaws} (who : Who).
Implicit Types (w : Vm B) (t : Threads).
Definition in_pageb (offset : nat) (bytes : list Z) : bool := forallb (λ x, (0 <=? x) && (x <? 256)) bytes && (offset + length bytes <=? PAGE_BYTES)%nat.
(** Some of the permitted actions, decided. *)
Definition allowedb (t : Threads) (w : Vm B) (a : Action) : bool :=
  match a with
  | CreateZero id _ kind => bool_decide (vpages w !! id = None) && bool_decide (kind ≠ OwnNone)
  | ClaimPage id | ReclaimBegin id => bool_decide (is_Some (vpages w !! id))
  | AllocFrame id => match t_jobs t !! id with Some (Loading _) => true | _ => false end
  | FillFrame id => match t_jobs t !! id with Some (Filling _ _) => true | _ => false end
  | PublishPage id => match t_jobs t !! id with Some (Filled _ _) => true | _ => false end
  | StoreFrame id => match t_jobs t !! id with Some (Writing _) => true | _ => false end
  | ReclaimFinish id => match t_jobs t !! id with Some (Written _ _) => true | _ => false end
  | EnterPage _ _ id _ => (0 <? t_pins t id) && match vpages w !! id with Some v => bool_decide (pager v = None) | None => false end
  | UserStore k offset bytes => in_pageb offset bytes && match leaves w !! k with Some l => has_prot (lf_protection l) WRITE | None => false end
  | UserLoad k _ _ => bool_decide (is_Some (leaves w !! k))
  | WirePage id => (t_pins t id <? 4294967295) && match vpages w !! id with Some v => match backing v with BResident _ => true | _ => false end | None => false end
  | UnwirePage id => (0 <? t_pins t id) && match vpages w !! id with Some v => write_windows v <? t_pins t id | None => false end
  | _ => false
  end.
Lemma in_pageb_sound offset bytes : in_pageb offset bytes = true → in_page offset bytes.
Proof.
  unfold in_pageb. rewrite andb_true_iff, forallb_forall, Nat.leb_le. intros [Hb Hle]. split; [|done]. apply Forall_forall. intros x Hx. specialize (Hb x (proj1 (list_elem_of_In _ _) Hx)). unfold is_byte. lia.
Qed.
Lemma allowedb_sound t w a : allowedb t w a = true → permitted t w a.
Proof.
  destruct a; cbn [allowedb permitted]; try done; rewrite ?andb_true_iff, ?bool_decide_eq_true; try done.
  - destruct (t_jobs t !! id) as [[]|]; try done. by eexists.
  - destruct (t_jobs t !! id) as [[]|]; try done. by eexists _, _.
  - destruct (t_jobs t !! id) as [[]|]; try done. intros _. eexists. right. left. by eexists.
  - destruct (t_jobs t !! id) as [[]|]; try done. by eexists.
  - destruct (t_jobs t !! id) as [[]|]; try done. by eexists _, _.
  - intros [Hp Hv]. split; [lia|]. intros v E _. rewrite E in Hv. by apply bool_decide_eq_true in Hv.
  - intros [Hp%in_pageb_sound Hv]. split; [done|]. destruct (leaves w !! k) as [l|]; [|done]. by exists l.
  - intros [Hp Hv]. split; [lia|]. destruct (vpages w !! id) as [v|]; [|done]. destruct (backing v) as [| |f|h|loc wt] eqn:Eb; try done. by exists v, f.
  - intros [Hp Hv]. split; [lia|]. intros v E. rewrite E in Hv. lia.
Qed.
Fixpoint run_checked (as_ : list Action) (t : Threads) (w : Vm B) (tr : list Event) : option (Threads * Vm B * list Event) :=
  match as_ with
  | [] => Some (t, w, tr)
  | a :: as_ =>
      if allowedb t w a then match act who a t w [] with Some ((t, e), w, _) => run_checked as_ t w (e :: tr) | None => None end else None
  end.
Lemma run_checked_reach P maximum slots as_ : ∀ t w tr x, who_ok who → paging_reach P maximum slots t w tr → run_checked as_ t w tr = Some x → paging_reach P maximum slots x.1.1 x.1.2 x.2.
Proof.
  induction as_ as [|a as_ IH]; intros t w tr x Hwho Hr; cbn [run_checked]; [by intros [= <-]|]. destruct (allowedb t w a) eqn:Ea; [|done].
  destruct (act who a t w []) as [[[[t' e] w'] o']|] eqn:Erun; [|done]. apply IH; [done|]. eapply paging_step; [done|done|by apply allowedb_sound|done].
Qed.
End checked.

#[local] Existing Instance demo_lz4.
#[local] Existing Instance demo_lz4_laws.
#[local] Existing Instance demo_backend.
#[local] Existing Instance demo_backend_laws.
(** A pager whose pages are filled with ones. *)
#[local] Instance demo_pager : VmPager := λ _ _ out, (Ok (), replicate (length out) 1).
#[local] Instance demo_pager_laws : VmPagerLaws.
Proof.
  refine {| pager_page := λ _ _, replicate PAGE_BYTES 1 |}.
  - intros pg offset. split; [by rewrite length_replicate|]. apply Forall_replicate. unfold is_byte. lia.
  - intros pg offset out out' Hl [= <-]. by rewrite Hl.
Defined.
Definition demo_who : Who := mkWho phys_demo_caller (mkPlace 0 0).
Lemma demo_who_ok : who_ok demo_who.
Proof. split; [exact (Nat.lt_0_succ 255)|]. split; apply Nat.ltb_lt; vm_compute; reflexivity. Qed.
(** A page is created, faulted in, mapped and written, reclaimed, faulted in
    again and read through a new mapping. *)
Definition demo_fault : list Action := [ClaimPage 0; AllocFrame 0; FillFrame 0; PublishPage 0].
Definition demo_map : list Action := [WirePage 0; EnterPage 1 8192 0 3; UnwirePage 0].
Definition demo_evict : list Action := [ReclaimBegin 0; StoreFrame 0; ReclaimFinish 0].
Definition demo_actions : list Action :=
  CreateZero 0 3 OwnAnonymous :: demo_fault ++ demo_map ++ UserStore (1%nat, 8192) 5 [42] :: demo_evict ++ demo_fault ++ demo_map ++ [UserLoad (1%nat, 8192) 4 3].
Definition demo_end : option (Threads * Vm demo_store * list Event) := run_checked demo_who demo_actions no_threads (vm_new demo_phys 1048576 64) [].
Definition demo_final : Threads * Vm demo_store * list Event := default (no_threads, vm_new demo_phys 1048576 64, []) demo_end.
Lemma demo_final_run : demo_end = Some demo_final.
Proof. assert (bool_decide (is_Some demo_end) = true) as H by (vm_compute; reflexivity). unfold demo_final. by destruct demo_end. Qed.
Lemma demo_final_reach : paging_reach demo_phys 1048576 64 demo_final.1.1 demo_final.1.2 demo_final.2.
Proof. eapply run_checked_reach; [exact demo_who_ok|apply paging_start|exact demo_final_run]. Qed.
Lemma demo_final_page : backing <$> vpages demo_final.1.2 !! 0%nat = Some (BResident 7).
Proof. vm_compute. reflexivity. Qed.
Lemma demo_maximum : is_u64 1048576.
Proof. unfold is_u64. lia. Qed.

Lemma paging_refines_flat_witness : hd_error demo_final.2 = Some (Loaded 0 4 3 [0; 42; 0]) ∧ coherent demo_final.2 ∧ bytes_of (pol demo_final.1.2) 7 = flat demo_final.2 0.
Proof.
  destruct (paging_refines_flat demo_phys 1048576 64 _ _ _ phys_demo_inv demo_fresh_words demo_maximum demo_final_reach) as [Hc Hp].
  split; [vm_compute; reflexivity|]. split; [exact Hc|]. destruct (proj1 (fmap_Some _ _ _) demo_final_page) as (v & Hv & Hb). specialize (Hp 0%nat v Hv). rewrite <- Hb in Hp. exact Hp.
Defined.
Lemma paging_never_panics_witness : ∃ t' e w' o', act demo_who (ReclaimBegin 0) demo_final.1.1 demo_final.1.2 [] = Some ((t', e), w', o') ∧ paging_reach demo_phys 1048576 64 t' w' (e :: demo_final.2).
Proof.
  apply (paging_never_panics demo_phys 1048576 64 demo_who _ _ _ (ReclaimBegin 0) [] phys_demo_inv demo_fresh_words demo_maximum demo_final_reach demo_who_ok).
  apply allowedb_sound. vm_compute. reflexivity.
Defined.
Lemma paging_frames_owned_witness : ∃ l, leaves demo_final.1.2 !! (1%nat, 8192) = Some l ∧ is_resident demo_final.1.2 (lf_page l) (lf_frame l).
Proof.
  destruct (paging_frames_owned demo_phys 1048576 64 _ _ _ phys_demo_inv demo_fresh_words demo_maximum demo_final_reach) as (Hl & _).
  assert (bool_decide (is_Some (leaves demo_final.1.2 !! (1%nat, 8192))) = true) as H by (vm_compute; reflexivity). apply bool_decide_eq_true in H as [l E].
  exists l. split; [exact E|]. destruct (Hl _ _ E) as (v & Hv & Hb & _). exists v. split; [exact Hv|exact Hb].
Defined.
Lemma pmap_remove_correct_witness : ∃ w', pmap_remove 1 0 65536 demo_final.1.2 [] = Some (Ok (), w', []) ∧ leaves w' !! (1%nat, 8192) = None.
Proof.
  destruct (pmap_remove_correct demo_phys 1048576 64 _ _ _ 1 0 65536 [] phys_demo_inv demo_fresh_words demo_maximum demo_final_reach) as (r & w' & Hrun & _ & Hr).
  destruct (checked_page_end (align_page 0) 65536) as [end_|] eqn:E; [|vm_compute in E; discriminate E]. destruct Hr as [-> Hk]. exists w'. split; [exact Hrun|]. rewrite Hk.
  rewrite decide_True; [reflexivity|]. vm_compute in E. injection E as <-. split; [reflexivity|]. vm_compute. split; [discriminate|reflexivity].
Defined.
Lemma enter_correct_witness : ∃ r w' o', enter 2 4096 0 7 1 demo_final.1.2 [] = Some (r, w', o') ∧ r = Ok () ∧ is_Some (leaves w' !! (2%nat, 4096)).
Proof.
  destruct (proj1 (fmap_Some _ _ _) demo_final_page) as (v & Hv & Hb).
  destruct (enter_correct demo_phys 1048576 64 _ _ _ 2 4096 0 v 7 1 [] phys_demo_inv demo_fresh_words demo_maximum demo_final_reach Hv (eq_sym Hb)) as (r & w' & o' & Hrun & _ & Hr).
  - intros E. vm_compute in E. discriminate E.
  - exists r, w', o'. split; [exact Hrun|]. destruct r as [[]|e].
    + split; [reflexivity|]. destruct Hr as [_ (l & Hl & _)]. exists l. exact Hl.
    + destruct Hr as (_ & _ & Hin). apply elem_of_nil in Hin as [].
Defined.
