(* ===== verification/FsError.v ===== *)
(** The error values of the file systems ([fs/error.rs]). *)
From S2P Require Import Prelude.
From S2P Require Import Index.

Inductive Error : Type :=
| NotFound | AlreadyExists | NotDirectory | IllegalSeek | IsDirectory | NotTty | Interrupted | NotEmpty
| CrossDevice | SymlinkLoop | NameTooLong | InvalidArgument | Unsupported | Busy | WouldBlock | NoSpace
| FileTooLarge | PermissionDenied | ReadOnly | BadFileDescriptor | OutOfMemory | Io.

#[export] Instance Error_eq_dec : EqDecision Error.
Proof. solve_decision. Defined.

(** [From<crate::mem::Error> for Error] *)
Definition from_mem (e : Index.Error) : Error :=
  match e with
  | Index.OutOfMemory => OutOfMemory
  | Index.LimitExceeded | Index.SwapUnavailable => NoSpace
  | Index.InvalidAddress => FileTooLarge
  | Index.CorruptSwap | Index.Io | Index.Pmap => Io
  | Index.AlreadyMapped | Index.NotMapped | Index.Protection => InvalidArgument
  end.
