(* ===== verification/DriverError.v ===== *)
(** The driver framework's errors, their status codes on the module ABI, and
    the conversions to and from filesystem errors ([driver/error.rs]). *)
From S2P Require Import FsError.
From S2P Require Import Prelude.
Open Scope rust_scope.

Inductive Error : Type :=
| InvalidArgument | NotFound | AlreadyExists | WrongKind | PermissionDenied | Busy | Unsupported | NoSpace | OutOfMemory
| Io | WouldBlock | Interrupted | Deadlock | Deferred | NotInitialized | TimedOut | NoDevice | BufferTooSmall | NotTty
| IllegalSeek | Filesystem | NotDirectory | IsDirectory | NotEmpty | CrossDevice | SymlinkLoop | NameTooLong
| FileTooLarge | ReadOnly | BadFileDescriptor
| Callback (status : Z).
#[export] Instance error_eq_dec : EqDecision Error.
Proof. solve_decision. Defined.

Definition STATUS_OK : Z := 0.

(** The rows of [status_table!]. *)
Definition status_table : list (Error * Z) :=
  [(InvalidArgument, -1); (NotFound, -2); (AlreadyExists, -3); (WrongKind, -4); (PermissionDenied, -5); (Busy, -6);
   (Unsupported, -7); (NoSpace, -8); (OutOfMemory, -9); (Io, -10); (WouldBlock, -11); (Interrupted, -12);
   (Deadlock, -13); (Deferred, -14); (NotInitialized, -15); (TimedOut, -16); (NoDevice, -17); (BufferTooSmall, -18);
   (NotTty, -19); (IllegalSeek, -20); (Filesystem, -21); (NotDirectory, -22); (IsDirectory, -23); (NotEmpty, -24);
   (CrossDevice, -25); (SymlinkLoop, -26); (NameTooLong, -27); (FileTooLarge, -28); (ReadOnly, -29);
   (BadFileDescriptor, -30)].

(** [Error::to_status] and [Error::from_status]: the arms the macro makes of
    the rows, then the last arm. *)
Fixpoint status_of (rows : list (Error * Z)) (e : Error) : option Z :=
  match rows with
  | [] => None
  | (variant, value) :: rows => if decide (e = variant) then Some value else status_of rows e
  end.
Fixpoint error_of (rows : list (Error * Z)) (status : Z) : option Error :=
  match rows with
  | [] => None
  | (variant, value) :: rows => if status =? value then Some variant else error_of rows status
  end.
Definition error_to_status (e : Error) : Z :=
  match e with Callback status => status | _ => default 0 (status_of status_table e) end.
Definition error_from_status (status : Z) : Error := default (Callback status) (error_of status_table status).

Definition is_deferred (e : Error) : bool := match e with Deferred => true | _ => false end.

(** [From<fs::Error> for Error] *)
Definition from_fs (e : FsError.Error) : Error :=
  match e with
  | FsError.NotFound => NotFound
  | FsError.AlreadyExists => AlreadyExists
  | FsError.Busy => Busy
  | FsError.NotDirectory => NotDirectory
  | FsError.IsDirectory => IsDirectory
  | FsError.NotEmpty => NotEmpty
  | FsError.CrossDevice => CrossDevice
  | FsError.SymlinkLoop => SymlinkLoop
  | FsError.NameTooLong => NameTooLong
  | FsError.FileTooLarge => FileTooLarge
  | FsError.ReadOnly => ReadOnly
  | FsError.BadFileDescriptor => BadFileDescriptor
  | FsError.PermissionDenied => PermissionDenied
  | FsError.OutOfMemory => OutOfMemory
  | FsError.NoSpace => NoSpace
  | FsError.InvalidArgument => InvalidArgument
  | FsError.WouldBlock => WouldBlock
  | FsError.Interrupted => Interrupted
  | FsError.NotTty => NotTty
  | FsError.IllegalSeek => IllegalSeek
  | FsError.Unsupported => Unsupported
  | _ => Filesystem
  end.
(** [From<Error> for fs::Error] *)
Definition into_fs (e : Error) : FsError.Error :=
  match e with
  | InvalidArgument | BufferTooSmall => FsError.InvalidArgument
  | NotFound | NoDevice => FsError.NotFound
  | AlreadyExists => FsError.AlreadyExists
  | PermissionDenied => FsError.PermissionDenied
  | Busy | Deferred => FsError.Busy
  | Unsupported | WrongKind => FsError.Unsupported
  | NoSpace => FsError.NoSpace
  | OutOfMemory => FsError.OutOfMemory
  | WouldBlock => FsError.WouldBlock
  | Interrupted => FsError.Interrupted
  | NotTty => FsError.NotTty
  | IllegalSeek => FsError.IllegalSeek
  | NotDirectory => FsError.NotDirectory
  | IsDirectory => FsError.IsDirectory
  | NotEmpty => FsError.NotEmpty
  | CrossDevice => FsError.CrossDevice
  | SymlinkLoop => FsError.SymlinkLoop
  | NameTooLong => FsError.NameTooLong
  | FileTooLarge => FsError.FileTooLarge
  | ReadOnly => FsError.ReadOnly
  | BadFileDescriptor => FsError.BadFileDescriptor
  | _ => FsError.Io
  end.

Definition to_status (r : result Error ()) : Z :=
  match r with Ok _ => STATUS_OK | Err e => error_to_status e end.
Definition from_status (status : Z) : result Error () :=
  if 0 <=? status then Ok () else Err (error_from_status status).

(** ** Round trips *)

(** An error that a callback can hand over: the statuses of the table stand
    for its variants, so only the others are [Callback]. *)
Definition error_canonical (e : Error) : bool :=
  match e with Callback status => (status <? -30) || (0 <=? status) | _ => true end.

Lemma error_of_bound rows status e :
  Forall (λ row, row.2 = error_to_status row.1) rows → error_of rows status = Some e → error_to_status e = status.
Proof.
  induction 1 as [|[v x] rows Hx Hrows IH]; simpl; [done|]. destruct (Z.eqb_spec status x); [|done].
  intros [= <-]. by subst.
Qed.
Lemma status_table_sound : Forall (λ row, row.2 = error_to_status row.1) status_table.
Proof. repeat constructor. Qed.
Lemma outside_table status : (status <? -30) || (0 <=? status) = true → error_of status_table status = None.
Proof.
  intros Hs. assert (status < -30 ∨ 0 ≤ status) as Hb.
  { apply orb_true_iff in Hs as [Hs%Z.ltb_lt|Hs%Z.leb_le]; [by left|by right]. }
  unfold status_table. simpl. clear Hs. repeat match goal with |- context [status =? ?v] => destruct (Z.eqb_spec status v); [lia|] end. done.
Qed.

(** Every status a module returns keeps its value through the framework, and
    every error but a [Callback] that shadows a variant keeps its identity. *)
Theorem status_roundtrip :
  (∀ status, error_to_status (error_from_status status) = status) ∧
  (∀ e, error_canonical e = true → error_from_status (error_to_status e) = e) ∧
  (∀ r, to_status (from_status r) = Z.min r 0).
Proof.
  assert (∀ status, error_to_status (error_from_status status) = status) as Hst.
  { intros status. unfold error_from_status. destruct (error_of status_table status) as [e|] eqn:E; [|done].
    by apply (error_of_bound status_table status e status_table_sound). }
  split_and!; [exact Hst| |].
  - intros e He. destruct e; try reflexivity. unfold error_from_status. cbn [error_to_status]. by rewrite outside_table.
  - intros r. unfold from_status. destruct (Z.leb_spec 0 r); unfold to_status, STATUS_OK; [lia|]. rewrite Hst. lia.
Qed.
