(* ===== verification/Block.v ===== *)
(** The block layer ([dev/block.rs]): devices over a hardware driver or over a
    range of another device, transfers of whole blocks in bounded chunks, and
    transfers of bytes through bounce buffers.

    A driver module is the class [Driver]: the callbacks of its [BlockOps] table
    and the medium they act on. *)
From S2P Require Import FsError.
From S2P Require Import Prelude.
From S2P Require Import Bytes.
From S2P Require Import DriverError.
Open Scope rust_scope.

(** [module::pin_owner], then the callbacks of the table: each returns a
    status, and a read the bytes it left in the buffer. *)
Class Driver (D : Type) : Type := {
  pin : D → result Error ();
  cb_read : Z → Z → list Z → D → Z * list Z * D;
  cb_write : Z → Z → list Z → D → Z * D;
  cb_flush : D → Z * D;
  cb_discard : Z → Z → D → Z * D;
  medium : D → Z → Z;
}.

(** The table of a module; a callback may be absent. *)
Record BlockOps : Type := mkOps {
  ops_block_size : Z; ops_max_transfer : Z; ops_block_count : Z;
  has_read : bool; has_write : bool; has_flush : bool; has_discard : bool;
}.
Inductive BlockDevice : Type :=
| mkDevice (backend : BlockBackend) (logical_block_size max_transfer_blocks block_count : Z)
with BlockBackend : Type :=
| ModuleBackend (ops : BlockOps)
| PartitionBackend (parent : BlockDevice) (first blocks : Z).

Definition backend (d : BlockDevice) : BlockBackend := let '(mkDevice b _ _ _) := d in b.
Definition logical_block_size (d : BlockDevice) : Z := let '(mkDevice _ bs _ _) := d in bs.
Definition max_transfer_blocks (d : BlockDevice) : Z := let '(mkDevice _ _ m _) := d in m.
Definition block_count (d : BlockDevice) : Z := let '(mkDevice _ _ _ n) := d in n.
Definition size_bytes (d : BlockDevice) : Z := Z.min u64_max (block_count d * logical_block_size d).

Definition MAX_LOGICAL_BLOCK_SIZE : Z := 1048576.
Definition u32_max : Z := 4294967295.
(** [x as u32] *)
Definition as_u32 (x : Z) : Z := x mod 4294967296.

(** [register_module]: the checks on the table; and the device it publishes.
    [register_child] derives a device from its parent. *)
Definition register_module (ops : BlockOps) : result Error BlockDevice :=
  if negb (has_read ops) || (ops_block_size ops <? 512) || negb (is_power_of_two (ops_block_size ops))
     || (MAX_LOGICAL_BLOCK_SIZE <? ops_block_size ops) || (ops_block_count ops =? 0)
     || bool_decide (checked_mul (ops_block_count ops) (ops_block_size ops) = None)
  then Err InvalidArgument
  else Ok (mkDevice (ModuleBackend ops) (ops_block_size ops) (ops_max_transfer ops) (ops_block_count ops)).
Definition register_child (parent : BlockDevice) (backend : BlockBackend) (block_count : Z) : BlockDevice :=
  mkDevice backend (logical_block_size parent) (max_transfer_blocks parent) block_count.

(** [PartitionBackend::map] of [fs/partition.rs] *)
Definition partition_map (first total lba blocks : Z) : result Error Z :=
  let? end_ := ok_or (checked_add lba blocks) InvalidArgument in
  if total <? end_ then Err InvalidArgument
  else ok_or (checked_add first lba) InvalidArgument.

Definition check_transfer (d : BlockDevice) (lba blocks : Z) (length : Z) : result Error () :=
  if blocks =? 0 then (if length =? 0 then Ok () else Err InvalidArgument)
  else
    let? end_ := ok_or (checked_add lba blocks) InvalidArgument in
    let expected := u64_mul blocks (logical_block_size d) in
    if (block_count d <? end_) || negb (length =? expected) then Err InvalidArgument
    else Ok ().

(** The chunk size of a transfer. *)
Definition transfer_limit (d : BlockDevice) : Z :=
  if max_transfer_blocks d =? 0 then u32_max else max_transfer_blocks d.

Fixpoint writable (d : BlockDevice) : bool :=
  match d with
  | mkDevice (ModuleBackend ops) _ _ _ => has_write ops
  | mkDevice (PartitionBackend parent _ _) _ _ _ => writable parent
  end.

Section block.
Context {D : Type} `{!Driver D}.

(** A module callback under its pin. *)
Definition pinned {A} (a : A) (k : M D (A * result Error ())) : M D (A * result Error ()) :=
  let* s := get in
  match pin s with
  | Err e => ret (a, Err e)
  | Ok _ => k
  end.
(** [ModuleBackend::read_blocks], [write_blocks], [flush] and [discard] *)
Definition module_read (ops : BlockOps) (lba blocks : Z) (buffer : list Z) : M D (list Z * result Error ()) :=
  if has_read ops then
    pinned buffer (λ s o, let '(status, bytes, s') := cb_read lba blocks buffer s in Some ((bytes, from_status status), s', o))
  else ret (buffer, Err Unsupported).
Definition module_write (ops : BlockOps) (lba blocks : Z) (buffer : list Z) : M D (result Error ()) :=
  if has_write ops then
    let* '(_, r) := pinned () (λ s o, let '(status, s') := cb_write lba blocks buffer s in Some (((), from_status status), s', o)) in
    ret r
  else ret (Err ReadOnly).
Definition module_flush (ops : BlockOps) : M D (result Error ()) :=
  if has_flush ops then
    let* '(_, r) := pinned () (λ s o, let '(status, s') := cb_flush s in Some (((), from_status status), s', o)) in
    ret r
  else ret (Ok ()).
Definition module_discard (ops : BlockOps) (lba blocks : Z) : M D (result Error ()) :=
  if has_discard ops then
    let* '(_, r) := pinned () (λ s o, let '(status, s') := cb_discard lba blocks s in Some (((), from_status status), s', o)) in
    ret r
  else ret (Err Unsupported).

(** The loop of [transfer_chunks]; the slice of the buffer handed to the
    backend comes back with what it holds then. *)
Fixpoint transfer_chunks (fuel : nat) (block_size limit : Z) (transfer : Z → Z → list Z → M D (list Z * result Error ()))
    (lba blocks : Z) (buffer : list Z) (offset : nat) : M D (list Z * result Error ()) :=
  if blocks =? 0 then ret (buffer, Ok ())
  else
    match fuel with
    | O => panic
    | S fuel =>
        let count := Z.min blocks limit in
        let bytes := Z.to_nat (count * block_size) in
        do massert (offset + bytes <=? length buffer)%nat then
        let* '(part, r) := transfer lba count (slice buffer offset (offset + bytes)) in
        let buffer := copy_into buffer offset part in
        match r with
        | Err e => ret (buffer, Err e)
        | Ok _ => transfer_chunks fuel block_size limit transfer (u64_add lba count) (blocks - count) buffer (offset + bytes)
        end
    end.
(** The loops of [write_blocks] and [discard]. *)
Fixpoint write_chunks (fuel : nat) (block_size limit : Z) (transfer : Z → Z → list Z → M D (result Error ()))
    (lba blocks : Z) (buffer : list Z) (offset : nat) : M D (result Error ()) :=
  if blocks =? 0 then ret (Ok ())
  else
    match fuel with
    | O => panic
    | S fuel =>
        let count := Z.min blocks limit in
        let bytes := Z.to_nat (count * block_size) in
        do massert (offset + bytes <=? length buffer)%nat then
        let! _ := transfer lba count (slice buffer offset (offset + bytes)) in
        write_chunks fuel block_size limit transfer (u64_add lba count) (blocks - count) buffer (offset + bytes)
    end.
Fixpoint discard_chunks (fuel : nat) (limit : Z) (transfer : Z → Z → M D (result Error ())) (lba blocks : Z) :
    M D (result Error ()) :=
  if blocks =? 0 then ret (Ok ())
  else
    match fuel with
    | O => panic
    | S fuel =>
        let count := Z.min blocks limit in
        let! _ := transfer lba count in
        discard_chunks fuel limit transfer (u64_add lba count) (blocks - count)
    end.

(** [BlockDevice::read_blocks] and the backends' [read_blocks] *)
Fixpoint read_blocks (d : BlockDevice) (lba blocks : Z) (buffer : list Z) : M D (list Z * result Error ()) :=
  match check_transfer d lba blocks (Z.of_nat (length buffer)) with
  | Err e => ret (buffer, Err e)
  | Ok _ =>
      transfer_chunks (Z.to_nat blocks) (logical_block_size d) (transfer_limit d)
        (λ at_ count bytes,
          match d with
          | mkDevice (ModuleBackend ops) _ _ _ => module_read ops at_ count bytes
          | mkDevice (PartitionBackend parent first total) _ _ _ =>
              match partition_map first total at_ count with
              | Err e => ret (bytes, Err e)
              | Ok at_ => read_blocks parent at_ count bytes
              end
          end) lba blocks buffer 0
  end.
Fixpoint write_blocks (d : BlockDevice) (lba blocks : Z) (buffer : list Z) : M D (result Error ()) :=
  match check_transfer d lba blocks (Z.of_nat (length buffer)) with
  | Err e => ret (Err e)
  | Ok _ =>
      write_chunks (Z.to_nat blocks) (logical_block_size d) (transfer_limit d)
        (λ at_ count bytes,
          match d with
          | mkDevice (ModuleBackend ops) _ _ _ => module_write ops at_ count bytes
          | mkDevice (PartitionBackend parent first total) _ _ _ =>
              match partition_map first total at_ count with
              | Err e => ret (Err e)
              | Ok at_ => write_blocks parent at_ count bytes
              end
          end) lba blocks buffer 0
  end.
Fixpoint flush (d : BlockDevice) : M D (result Error ()) :=
  match d with
  | mkDevice (ModuleBackend ops) _ _ _ => module_flush ops
  | mkDevice (PartitionBackend parent _ _) _ _ _ => flush parent
  end.
Fixpoint discard (d : BlockDevice) (lba blocks : Z) : M D (result Error ()) :=
  match check_transfer d lba blocks (u64_mul blocks (logical_block_size d)) with
  | Err e => ret (Err e)
  | Ok _ =>
      discard_chunks (Z.to_nat blocks) (transfer_limit d)
        (λ at_ count,
          match d with
          | mkDevice (ModuleBackend ops) _ _ _ => module_discard ops at_ count
          | mkDevice (PartitionBackend parent first total) _ _ _ =>
              match partition_map first total at_ count with
              | Err e => ret (Err e)
              | Ok at_ => discard parent at_ count
              end
          end) lba blocks
  end.

(** [block_buffer] *)
Definition block_buffer (size : nat) : M D (result Error (list Z)) :=
  let* granted := ask_pool in
  ret (if (granted : bool) then Ok (replicate size 0) else Err OutOfMemory).

(** A read into [buffer[a..b]]. *)
Definition read_part (d : BlockDevice) (lba blocks : Z) (buffer : list Z) (a b : nat) : M D (list Z * result Error ()) :=
  do massert (b <=? length buffer)%nat then
  let* '(part, r) := read_blocks d lba blocks (slice buffer a b) in
  ret (copy_into buffer a part, r).

(** [BlockDevice::read_bytes], for a range that is not made of whole blocks:
    the end of its first block, the whole blocks, and the start of its last
    block. The state of the loop is the bytes done and the next block. *)
Definition read_leading (d : BlockDevice) (first : Z) (leading count : nat) (buffer bounce : list Z) :
    M D (list Z * list Z * result Error (nat * Z)) :=
  let bs := Z.to_nat (logical_block_size d) in
  if (leading =? 0)%nat then ret (buffer, bounce, Ok (0%nat, first))
  else
    let* '(bounce, r) := read_blocks d first 1 bounce in
    match r with
    | Err e => ret (buffer, bounce, Err e)
    | Ok _ =>
        let take := Nat.min count (bs - leading) in
        ret (copy_into buffer 0 (slice bounce leading (leading + take)), bounce, Ok (take, u64_add first 1))
    end.
Definition read_middle (d : BlockDevice) (count done : nat) (lba : Z) (buffer : list Z) :
    M D (list Z * result Error (nat * Z)) :=
  let bs := Z.to_nat (logical_block_size d) in
  let middle := ((count - done) / bs * bs)%nat in
  if (middle =? 0)%nat then ret (buffer, Ok (done, lba))
  else
    let* '(buffer, r) := read_part d lba (as_u32 (Z.of_nat (middle / bs))) buffer done (done + middle) in
    match r with
    | Err e => ret (buffer, Err e)
    | Ok _ => ret (buffer, Ok ((done + middle)%nat, u64_add lba (Z.of_nat (middle / bs))))
    end.
Definition read_trailing (d : BlockDevice) (count done : nat) (lba : Z) (buffer bounce : list Z) :
    M D (list Z * result Error nat) :=
  if (done =? count)%nat then ret (buffer, Ok count)
  else
    let* '(bounce, r) := read_blocks d lba 1 bounce in
    match r with
    | Err e => ret (buffer, Err e)
    | Ok _ => ret (copy_into buffer done (slice bounce 0 (count - done)), Ok count)
    end.
Definition read_bytes (d : BlockDevice) (offset : Z) (buffer : list Z) : M D (list Z * result Error nat) :=
  let count := Z.to_nat (Z.min (Z.of_nat (length buffer)) (saturating_sub (size_bytes d) offset)) in
  if (count =? 0)%nat then ret (buffer, Ok 0%nat)
  else
    let bs := Z.to_nat (logical_block_size d) in
    let first := offset / logical_block_size d in
    let leading := Z.to_nat (offset mod logical_block_size d) in
    if (leading =? 0)%nat && (count mod bs =? 0)%nat then
      let* '(buffer, r) := read_part d first (as_u32 (Z.of_nat (count / bs))) buffer 0 count in
      match r with
      | Err e => ret (buffer, Err e)
      | Ok _ => ret (buffer, Ok count)
      end
    else
      let* b := block_buffer bs in
      match b with
      | Err e => ret (buffer, Err e)
      | Ok bounce =>
          let* '(buffer, bounce, r) := read_leading d first leading count buffer bounce in
          match r with
          | Err e => ret (buffer, Err e)
          | Ok (done, lba) =>
              let* '(buffer, r) := read_middle d count done lba buffer in
              match r with
              | Err e => ret (buffer, Err e)
              | Ok (done, lba) => read_trailing d count done lba buffer bounce
              end
          end
      end.

(** [BlockDevice::write_bytes]: the first and the last block are read, changed
    and written back. *)
Definition rewrite_block (d : BlockDevice) (lba : Z) (bounce : list Z) (at_ : nat) (bytes : list Z) :
    M D (list Z * result Error ()) :=
  let* '(bounce, r) := read_blocks d lba 1 bounce in
  match r with
  | Err e => ret (bounce, Err e)
  | Ok _ =>
      let bounce := copy_into bounce at_ bytes in
      let* r := write_blocks d lba 1 bounce in
      ret (bounce, r)
  end.
Definition write_leading (d : BlockDevice) (first : Z) (leading : nat) (buffer bounce : list Z) :
    M D (list Z * result Error (nat * Z)) :=
  let bs := Z.to_nat (logical_block_size d) in
  if (leading =? 0)%nat then ret (bounce, Ok (0%nat, first))
  else
    let take := Nat.min (length buffer) (bs - leading) in
    let* '(bounce, r) := rewrite_block d first bounce leading (slice buffer 0 take) in
    match r with
    | Err e => ret (bounce, Err e)
    | Ok _ => ret (bounce, Ok (take, u64_add first 1))
    end.
Definition write_middle (d : BlockDevice) (done : nat) (lba : Z) (buffer : list Z) : M D (result Error (nat * Z)) :=
  let bs := Z.to_nat (logical_block_size d) in
  let middle := ((length buffer - done) / bs * bs)%nat in
  if (middle =? 0)%nat then ret (Ok (done, lba))
  else
    let! _ := write_blocks d lba (as_u32 (Z.of_nat (middle / bs))) (slice buffer done (done + middle)) in
    ret (Ok ((done + middle)%nat, u64_add lba (Z.of_nat (middle / bs)))).
Definition write_trailing (d : BlockDevice) (done : nat) (lba : Z) (buffer bounce : list Z) : M D (result Error nat) :=
  if (done =? length buffer)%nat then ret (Ok (length buffer))
  else
    let* '(_, r) := rewrite_block d lba bounce 0 (slice buffer done (length buffer)) in
    match r with
    | Err e => ret (Err e)
    | Ok _ => ret (Ok (length buffer))
    end.
Definition write_bytes (d : BlockDevice) (offset : Z) (buffer : list Z) : M D (result Error nat) :=
  let! end_ := ret (ok_or (checked_add offset (Z.of_nat (length buffer))) InvalidArgument) in
  if size_bytes d <? end_ then ret (Err NoSpace)
  else if (length buffer =? 0)%nat then ret (Ok 0%nat)
  else
    let bs := Z.to_nat (logical_block_size d) in
    let first := offset / logical_block_size d in
    let leading := Z.to_nat (offset mod logical_block_size d) in
    if (leading =? 0)%nat && (length buffer mod bs =? 0)%nat then
      let! _ := write_blocks d first (as_u32 (Z.of_nat (length buffer / bs))) buffer in
      ret (Ok (length buffer))
    else
      let! bounce := block_buffer bs in
      let* '(bounce, r) := write_leading d first leading buffer bounce in
      match r with
      | Err e => ret (Err e)
      | Ok (done, lba) =>
          let! middle := write_middle d done lba buffer in
          write_trailing d middle.1 middle.2 buffer bounce
      end.
End block.
