(* ===== verification/BlockSpec.v ===== *)
(** What the block layer promises of its transfers, for any driver that keeps
    its contract: reads return the medium and leave it alone, writes change the
    range they are given, and nothing else. *)
From S2P Require Import Prelude.
From S2P Require Import Bytes.
From S2P Require Import DriverError.
From S2P Require Import Block.
Open Scope rust_scope.

Section spec.
Context {D : Type} `{!Driver D}.
Implicit Types (s : D) (d : BlockDevice) (buffer : list Z).

(** [n] bytes of the medium. *)
Definition contents (s : D) (a : Z) (n : nat) : list Z := map (λ i, medium s (a + Z.of_nat i)) (seq 0 n).
Definition same (s s' : D) : Prop := ∀ v, medium s' v = medium s v.
(** Only [n] bytes from [a] may differ. *)
Definition confined (s s' : D) (a n : Z) : Prop := ∀ v, ¬ (a ≤ v < a + n) → medium s' v = medium s v.
Definition written (s s' : D) (a : Z) (bytes : list Z) : Prop :=
  contents s' a (length bytes) = bytes ∧ confined s s' a (Z.of_nat (length bytes)).

(** The contract of a driver for a disk of blocks of [bs] bytes: [healthy] is
    a state in which its callbacks succeed. *)
Class DriverLaws (bs : Z) : Type := {
  healthy : D → Prop;
  pin_healthy s : healthy s → pin s = Ok ();
  read_law lba blocks buffer s :
    let '(status, bytes, s') := cb_read lba blocks buffer s in
    length bytes = length buffer ∧ same s s' ∧ (healthy s → 0 ≤ status ∧ healthy s') ∧
    (0 ≤ status → Z.of_nat (length buffer) = blocks * bs → bytes = contents s (lba * bs) (length buffer));
  write_law lba blocks buffer s :
    let '(status, s') := cb_write lba blocks buffer s in
    (healthy s → 0 ≤ status ∧ healthy s') ∧ confined s s' (lba * bs) (blocks * bs) ∧
    (0 ≤ status → Z.of_nat (length buffer) = blocks * bs → contents s' (lba * bs) (length buffer) = buffer);
  flush_law s : let '(status, s') := cb_flush s in same s s' ∧ (healthy s → 0 ≤ status ∧ healthy s');
  discard_law lba blocks s :
    let '(status, s') := cb_discard lba blocks s in
    (healthy s → 0 ≤ status ∧ healthy s') ∧ confined s s' (lba * bs) (blocks * bs);
}.

(** ** Bytes of the medium *)

Lemma length_contents s a n : length (contents s a n) = n.
Proof. unfold contents. by rewrite length_map, length_seq. Qed.
Lemma contents_lookup s a n i : contents s a n !! i = if decide (i < n)%nat then Some (medium s (a + Z.of_nat i)) else None.
Proof.
  unfold contents. rewrite list_lookup_fmap. case_decide.
  - by rewrite lookup_seq_lt.
  - by rewrite lookup_seq_ge by lia.
Qed.
Lemma contents_ext s s' a a' n :
  (∀ i, (i < n)%nat → medium s (a + Z.of_nat i) = medium s' (a' + Z.of_nat i)) → contents s a n = contents s' a' n.
Proof. intros He. apply list_eq. intros i. rewrite !contents_lookup. case_decide; [|done]. by rewrite He. Qed.
Lemma contents_app s a n m : contents s a (n + m) = contents s a n ++ contents s (a + Z.of_nat n) m.
Proof.
  apply list_eq. intros i. rewrite contents_lookup. destruct (decide (i < n)%nat).
  - rewrite lookup_app_l, contents_lookup by (by rewrite length_contents). by rewrite !decide_True by lia.
  - rewrite lookup_app_r, length_contents, contents_lookup by (rewrite length_contents; lia).
    destruct (decide (i < n + m)%nat); [rewrite decide_True by lia|by rewrite decide_False by lia].
    do 2 f_equal. lia.
Qed.
Lemma contents_same s s' a n : same s s' → contents s' a n = contents s a n.
Proof. intros Hs. apply contents_ext. intros i _. apply Hs. Qed.
Lemma contents_confined s s' a n b m :
  confined s s' b m → a + Z.of_nat n ≤ b ∨ b + m ≤ a → contents s' a n = contents s a n.
Proof. intros Hc Hd. apply contents_ext. intros i Hi. apply Hc. lia. Qed.
Lemma contents_slice s a n x y : (y ≤ n)%nat → slice (contents s a n) x y = contents s (a + Z.of_nat x) (y - x).
Proof.
  intros Hy. apply list_eq. intros i. rewrite slice_lookup, !contents_lookup.
  destruct (decide (i < y - x)%nat); [rewrite decide_True by lia; do 2 f_equal; lia|done].
Qed.

Lemma same_refl s : same s s.
Proof. done. Qed.
Lemma same_trans s1 s2 s3 : same s1 s2 → same s2 s3 → same s1 s3.
Proof. intros H1 H2 v. by rewrite H2, H1. Qed.
Lemma same_confined s s' a n : same s s' → confined s s' a n.
Proof. intros Hs v _. apply Hs. Qed.
Lemma confined_trans s1 s2 s3 a n a1 n1 a2 n2 :
  confined s1 s2 a1 n1 → confined s2 s3 a2 n2 →
  a ≤ a1 ∧ a1 + n1 ≤ a + n → a ≤ a2 ∧ a2 + n2 ≤ a + n → confined s1 s3 a n.
Proof. intros H1 H2 ? ? v Hv. rewrite H2, H1 by lia. done. Qed.
Lemma confined_mono s s' a n b m : confined s s' b m → a ≤ b ∧ b + m ≤ a + n → confined s s' a n.
Proof. intros H ? v Hv. apply H. lia. Qed.

Lemma written_app s1 s2 s3 a b1 b2 :
  written s1 s2 a b1 → written s2 s3 (a + Z.of_nat (length b1)) b2 → written s1 s3 a (b1 ++ b2).
Proof.
  intros [W1 C1] [W2 C2]. split.
  - rewrite length_app, contents_app. f_equal; [|done]. rewrite <- W1 at 2. by apply (contents_confined s2 s3 _ _ _ _ C2); lia.
  - rewrite length_app. eapply confined_trans; [exact C1|exact C2|lia|lia].
Qed.
Lemma written_nil s a : written s s a [].
Proof. split; [done|]. by apply same_confined. Qed.

(** ** Devices *)

Section geometry.
Context (bs : Z).

(** A registered device, and the byte of the disk it starts at. *)
Fixpoint device_ok (d : BlockDevice) : Prop :=
  match d with
  | mkDevice b size limit count =>
      size = bs ∧ 0 ≤ limit ≤ u32_max ∧ 0 < count ∧ count * bs < two64 ∧
      match b with
      | ModuleBackend ops => has_read ops = true
      | PartitionBackend parent first total =>
          device_ok parent ∧ total = count ∧ 0 ≤ first ∧ first + total ≤ block_count parent
      end
  end.
Fixpoint base (d : BlockDevice) : Z :=
  match d with
  | mkDevice (ModuleBackend _) _ _ _ => 0
  | mkDevice (PartitionBackend parent first _) _ _ _ => base parent + first * bs
  end.
(** The disk at the bottom of the stack. *)
Fixpoint root (d : BlockDevice) : BlockOps :=
  match d with
  | mkDevice (ModuleBackend ops) _ _ _ => ops
  | mkDevice (PartitionBackend parent _ _) _ _ _ => root parent
  end.
End geometry.
End spec.

Arguments DriverLaws D {_} bs.

(** Induction along the stack of partitions. *)
Lemma device_stack (P : BlockDevice → Prop) :
  (∀ b size limit count,
    (∀ parent first total, b = PartitionBackend parent first total → P parent) → P (mkDevice b size limit count)) →
  ∀ d, P d.
Proof.
  intros Hstep. fix IH 1. intros [b size limit count]. apply Hstep. intros parent first total Hb. destruct b as [ops|p f t]; [discriminate Hb|].
  pose proof (IH p) as Hp. clear IH. by injection Hb as <- _ _.
Qed.

Section transfers.
Context {D : Type} `{!Driver D} (bs : Z) `{!DriverLaws D bs}.
Hypothesis Hbs : 512 ≤ bs ≤ MAX_LOGICAL_BLOCK_SIZE.
Implicit Types (s : D) (d : BlockDevice) (buffer : list Z).

(** The outcome of a read at byte [a] of the disk. *)
Definition read_post s a buffer (p : list Z * result Error ()) s' : Prop :=
  length p.1 = length buffer ∧ same s s' ∧ (healthy s → healthy s') ∧ (p.2 = Ok () → p.1 = contents s a (length buffer)).
(** The outcome of a write; [W] is when a healthy driver accepts it. *)
Definition write_post (W : Prop) s a buffer (r : result Error ()) s' : Prop :=
  (healthy s → healthy s' ∧ (W → r = Ok ())) ∧ confined s s' a (Z.of_nat (length buffer)) ∧ (r = Ok () → written s s' a buffer).

Lemma check_transfer_spec d lba blocks len :
  device_ok bs d → 0 ≤ lba → 0 ≤ blocks ≤ u32_max →
  check_transfer d lba blocks len =
    if decide (len = blocks * bs ∧ (blocks = 0 ∨ lba + blocks ≤ block_count d)) then Ok () else Err InvalidArgument.
Proof.
  intros Hd Hl Hb. destruct d as [b size limit count]. destruct Hd as (-> & _ & Hc & Hsz & _). unfold check_transfer. simpl.
  unfold u32_max, MAX_LOGICAL_BLOCK_SIZE in *.
  destruct (Z.eqb_spec blocks 0) as [->|Hne].
  - destruct (Z.eqb_spec len 0); case_decide; try done; lia.
  - unfold checked_add. case_decide as H64; simpl.
    + rewrite u64_mul_small by nia. destruct (Z.ltb_spec count (lba + blocks)), (Z.eqb_spec len (blocks * bs)); simpl;
        case_decide; try done; lia.
    + case_decide; [|done]. nia.
Qed.

Section chunks.
Context (A limit hi : Z).
Hypothesis Hlim : 0 < limit.
Hypothesis Hhi : hi < two64.

Lemma transfer_chunks_spec transfer :
  (∀ at_ count bytes s o,
    0 ≤ at_ → 0 < count ≤ limit → at_ + count ≤ hi → Z.of_nat (length bytes) = count * bs →
    wp (transfer at_ count bytes) (λ p s' o', read_post s (A + at_ * bs) bytes p s' ∧ (healthy s → p.2 = Ok ())) s o) →
  ∀ fuel lba blocks buffer offset s o,
  0 ≤ lba → 0 ≤ blocks ≤ Z.of_nat fuel → lba + blocks ≤ hi → Z.of_nat (length buffer) = Z.of_nat offset + blocks * bs →
  wp (transfer_chunks fuel bs limit transfer lba blocks buffer offset)
    (λ p s' o', length p.1 = length buffer ∧ same s s' ∧ (healthy s → healthy s' ∧ p.2 = Ok ()) ∧
      (p.2 = Ok () → p.1 = take offset buffer ++ contents s (A + lba * bs) (length buffer - offset))) s o.
Proof using Hbs Hhi Hlim.
  unfold MAX_LOGICAL_BLOCK_SIZE in Hbs. intros Ht fuel.
  induction fuel as [|fuel IH]; intros lba blocks buffer offset s o Hl Hb Hr Hlen; simpl;
    (destruct (Z.eqb_spec blocks 0) as [->|Hne];
      [wp_steps; simpl; split_and!; [done|done|done|]; intros _; rewrite (take_ge buffer) by lia;
       replace (length buffer - offset)%nat with 0%nat by lia; by rewrite app_nil_r|]); [lia|].
  set (count := Z.min blocks limit). assert (0 < count ≤ blocks) as Hc by lia. set (bytes := Z.to_nat (count * bs)).
  assert (Z.of_nat bytes = count * bs) as Eb by nia. assert (offset + bytes ≤ length buffer)%nat as Hin by nia.
  apply wp_bind, wp_massert; [by apply Nat.leb_le|]. apply wp_bind.
  assert (length (slice buffer offset (offset + bytes)) = bytes) as Hs by (rewrite length_slice; lia).
  eapply wp_mono; [apply Ht; [done|lia|lia|by rewrite Hs]|]. intros [part r] s1 o1 [(Hp & Hsame & Hh & Hok) Hgood].
  simpl in *. rewrite Hs in *. assert (length (copy_into buffer offset part) = length buffer) as Hcp by (apply length_copy_into; lia).
  destruct r as [[]|e].
  - rewrite u64_add_small by lia. eapply wp_mono; [apply IH; [lia|lia|lia|rewrite Hcp; nia]|].
    intros [b' r] s' o'. simpl. rewrite Hcp. intros (Hb' & Hs' & Hh' & Hok'). split_and!; [done|by eapply same_trans| |].
    + intros Hy. by apply Hh', Hh.
    + intros ->. rewrite Hok' by done. rewrite Hok by done. unfold copy_into. rewrite !length_contents.
      rewrite (assoc_L app), take_app_length' by (rewrite length_app, length_take, length_contents; lia).
      rewrite <- (assoc_L app). f_equal. rewrite (contents_same s s1) by done.
      replace (length buffer - offset)%nat with (bytes + (length buffer - (offset + bytes)))%nat by lia.
      rewrite contents_app. do 2 f_equal. lia.
  - wp_steps. simpl. split_and!; [done|done| |done]. intros Hy. by specialize (Hgood Hy).
Qed.

Lemma write_chunks_spec W transfer :
  (∀ at_ count bytes s o,
    0 ≤ at_ → 0 < count ≤ limit → at_ + count ≤ hi → Z.of_nat (length bytes) = count * bs →
    wp (transfer at_ count bytes) (λ r s' o', write_post W s (A + at_ * bs) bytes r s') s o) →
  ∀ fuel lba blocks buffer offset s o,
  0 ≤ lba → 0 ≤ blocks ≤ Z.of_nat fuel → lba + blocks ≤ hi → Z.of_nat (length buffer) = Z.of_nat offset + blocks * bs →
  wp (write_chunks fuel bs limit transfer lba blocks buffer offset)
    (λ r s' o', write_post W s (A + lba * bs) (drop offset buffer) r s') s o.
Proof using Hbs Hhi Hlim.
  unfold MAX_LOGICAL_BLOCK_SIZE in Hbs. intros Ht fuel.
  induction fuel as [|fuel IH]; intros lba blocks buffer offset s o Hl Hb Hr Hlen; simpl;
    (destruct (Z.eqb_spec blocks 0) as [->|Hne];
      [wp_steps; rewrite drop_ge by lia; split_and!; [done|by apply same_confined|intros _; apply written_nil]|]); [lia|].
  set (count := Z.min blocks limit). assert (0 < count ≤ blocks) as Hc by lia. set (bytes := Z.to_nat (count * bs)).
  assert (Z.of_nat bytes = count * bs) as Eb by nia. assert (offset + bytes ≤ length buffer)%nat as Hin by nia.
  apply wp_bind, wp_massert; [by apply Nat.leb_le|]. apply wp_bind_res.
  assert (length (slice buffer offset (offset + bytes)) = bytes) as Hs by (rewrite length_slice; lia).
  assert (drop offset buffer = slice buffer offset (offset + bytes) ++ drop (offset + bytes) buffer) as Hd.
  { unfold slice. replace (offset + bytes - offset)%nat with bytes by lia. rewrite <- drop_drop. by rewrite take_drop. }
  eapply wp_mono; [apply Ht; [done|lia|lia|by rewrite Hs]|]. intros r s1 o1 (Hh & Hconf & Hok). rewrite Hs in Hconf.
  destruct r as [[]|e].
  - rewrite u64_add_small by lia. eapply wp_mono; [apply IH; [lia|lia|lia|nia]|].
    intros r s' o' (Hh' & Hconf' & Hok'). rewrite Hd. split_and!; [intros Hy; by apply Hh', Hh| |].
    + rewrite length_app, Hs. rewrite length_drop in *. eapply confined_trans; [exact Hconf|exact Hconf'|lia|nia].
    + intros ->. eapply written_app; [by apply Hok|]. rewrite Hs.
      replace (A + lba * bs + Z.of_nat bytes) with (A + (lba + count) * bs) by lia. by apply Hok'.
  - split_and!; [|eapply confined_mono; [exact Hconf|rewrite length_drop; nia]|done].
    intros Hy. split; [by apply Hh|]. intros Hw. by destruct (Hh Hy) as [_ ->].
Qed.
End chunks.

Lemma transfer_limit_bound d : device_ok bs d → 0 < transfer_limit d ≤ u32_max.
Proof using.
  destruct d as [b size limit count]. intros (_ & Hl & _). unfold transfer_limit, u32_max in *. simpl.
  destruct (Z.eqb_spec limit 0); lia.
Qed.

Lemma partition_map_spec first total lba blocks :
  0 ≤ first → 0 ≤ lba → 0 ≤ blocks → lba + blocks ≤ total → first + total < two64 →
  partition_map first total lba blocks = Ok (first + lba).
Proof.
  intros. unfold partition_map, checked_add. rewrite decide_True by lia. simpl. destruct (Z.ltb_spec total (lba + blocks)); [lia|].
  by rewrite decide_True by lia.
Qed.

Lemma module_read_spec ops lba blocks buffer s o :
  has_read ops = true → Z.of_nat (length buffer) = blocks * bs →
  wp (module_read ops lba blocks buffer) (λ p s' o', read_post s (lba * bs) buffer p s' ∧ (healthy s → p.2 = Ok ())) s o.
Proof using.
  intros Hr Hl. unfold module_read, pinned. rewrite Hr. apply wp_bind, wp_get. destruct (pin s) as [[]|e] eqn:Hp.
  - pose proof (read_law lba blocks buffer s) as Hlaw. unfold wp. destruct (cb_read lba blocks buffer s) as [[status bytes] s'].
    destruct Hlaw as (Hlen & Hs & Hh & Hok). unfold read_post, from_status. simpl. split_and!.
    + done.
    + done.
    + intros Hy. by apply Hh.
    + destruct (Z.leb_spec 0 status); [|done]. intros _. by apply Hok.
    + intros Hy. destruct (Hh Hy). by destruct (Z.leb_spec 0 status); [|lia].
  - apply wp_ret. unfold read_post. simpl. split_and!; try done. intros Hy. by rewrite (pin_healthy s Hy) in Hp.
Qed.

Lemma module_write_spec ops lba blocks buffer s o :
  Z.of_nat (length buffer) = blocks * bs →
  wp (module_write ops lba blocks buffer) (λ r s' o', write_post (has_write ops = true) s (lba * bs) buffer r s') s o.
Proof using.
  intros Hl. unfold module_write, pinned. destruct (has_write ops).
  - apply wp_bind, wp_bind, wp_get. destruct (pin s) as [[]|e] eqn:Hp.
    + pose proof (write_law lba blocks buffer s) as Hlaw. unfold wp. destruct (cb_write lba blocks buffer s) as [status s'].
      destruct Hlaw as (Hh & Hc & Hok). unfold ret, write_post, from_status. rewrite Hl. split_and!.
      * intros Hy. destruct (Hh Hy). split; [done|]. intros _. by destruct (Z.leb_spec 0 status); [|lia].
      * done.
      * destruct (Z.leb_spec 0 status); [|done]. intros _. split; [by apply Hok|by rewrite Hl].
    + wp_steps. unfold write_post. split_and!; [|by apply same_confined|done].
      intros Hy. by rewrite (pin_healthy s Hy) in Hp.
  - wp_steps. unfold write_post. split_and!; [|by apply same_confined|done]. intros Hy. split; [done|]. done.
Qed.

(** The transfers of blocks: refused exactly when the range or the length of
    the buffer is wrong, and otherwise those of the bytes of the disk. *)
Lemma read_blocks_spec : ∀ d lba blocks buffer s o,
  device_ok bs d → 0 ≤ lba → 0 ≤ blocks ≤ u32_max →
  wp (read_blocks d lba blocks buffer)
    (λ p s' o', read_post s (base bs d + lba * bs) buffer p s' ∧
      (healthy s → p.2 = check_transfer d lba blocks (Z.of_nat (length buffer))) ∧
      (p.2 = Ok () → check_transfer d lba blocks (Z.of_nat (length buffer)) = Ok ())) s o.
Proof using Hbs.
  intros d. induction d as [b size limit count IH] using device_stack. intros lba blocks buffer s o Hd Hl Hb.
  pose proof (check_transfer_spec _ lba blocks (Z.of_nat (length buffer)) Hd Hl Hb) as Hc.
  pose proof (transfer_limit_bound _ Hd) as Hlim. cbn [read_blocks].
  rewrite Hc. case_decide as Hr; [|wp_steps; unfold read_post; simpl; split_and!; done].
  destruct Hr as [Hlen Hr]. destruct Hd as (-> & _ & Hcount & Hsz & Hback). simpl in Hr.
  unfold u32_max, MAX_LOGICAL_BLOCK_SIZE in *. destruct (decide (blocks = 0)) as [->|Hne].
  { change (Z.to_nat 0) with 0%nat. simpl. wp_steps. unfold read_post. simpl. split_and!; try done.
    intros _. destruct buffer; [done|simpl in Hlen; lia]. }
  eapply wp_mono; [eapply (transfer_chunks_spec (base bs (mkDevice b bs limit count)) (transfer_limit (mkDevice b bs limit count))
    (lba + blocks)); try lia; try nia|].
  - intros at_ n bytes s1 o1 Hat Hn Hin Hbytes. destruct b as [ops|parent first total]; cbn [base].
    + by apply module_read_spec.
    + destruct Hback as (Hparent & -> & Hf & Hfit). specialize (IH parent first count eq_refl). pose proof Hparent as Hp2. destruct parent as [pb ps pl pc]. simpl in Hfit.
      destruct Hp2 as (-> & _ & Hpc & Hpsz & _). rewrite partition_map_spec by nia.
      eapply wp_mono; [apply IH; [done|lia|unfold u32_max; lia]|]. intros p s' o' (Hpost & Hy & _).
      rewrite check_transfer_spec, decide_True in Hy by (try done; try (unfold u32_max; lia); simpl; lia).
      split; [|done]. by replace (base bs (mkDevice pb bs pl pc) + first * bs + at_ * bs)
        with (base bs (mkDevice pb bs pl pc) + (first + at_) * bs) by lia.
  - intros p s' o' (Hp1 & Hp2 & Hp3 & Hp4). unfold read_post. split_and!; try done; try naive_solver.
    intros Hok. rewrite Hp4, take_0, Nat.sub_0_r by done. done.
Qed.

Lemma write_blocks_spec : ∀ d lba blocks buffer s o,
  device_ok bs d → 0 ≤ lba → 0 ≤ blocks ≤ u32_max →
  wp (write_blocks d lba blocks buffer)
    (λ r s' o', write_post (writable d = true ∧ check_transfer d lba blocks (Z.of_nat (length buffer)) = Ok ()) s
        (base bs d + lba * bs) buffer r s' ∧
      (r = Ok () → check_transfer d lba blocks (Z.of_nat (length buffer)) = Ok ()) ∧
      (check_transfer d lba blocks (Z.of_nat (length buffer)) ≠ Ok () → same s s')) s o.
Proof using Hbs.
  intros d. induction d as [b size limit count IH] using device_stack. intros lba blocks buffer s o Hd Hl Hb.
  pose proof (check_transfer_spec _ lba blocks (Z.of_nat (length buffer)) Hd Hl Hb) as Hc.
  pose proof (transfer_limit_bound _ Hd) as Hlim. cbn [write_blocks].
  rewrite Hc. case_decide as Hr; [|wp_steps; unfold write_post; split_and!; try done; by intros Hy; split; [|intros [_ ?]]].
  destruct Hr as [Hlen Hr]. destruct Hd as (-> & _ & Hcount & Hsz & Hback). simpl in Hr.
  unfold u32_max, MAX_LOGICAL_BLOCK_SIZE in *. destruct (decide (blocks = 0)) as [->|Hne].
  { change (Z.to_nat 0) with 0%nat. simpl. wp_steps. unfold write_post. split_and!; try done.
    intros _. destruct buffer; [apply written_nil|simpl in Hlen; lia]. }
  eapply wp_mono; [apply (write_chunks_spec (base bs (mkDevice b bs limit count)) (transfer_limit (mkDevice b bs limit count))
    (lba + blocks)) with (W := writable (mkDevice b bs limit count) = true); try lia; try nia|].
  - intros at_ n bytes s1 o1 Hat Hn Hin Hbytes. destruct b as [ops|parent first total]; cbn [base writable].
    + by apply module_write_spec.
    + destruct Hback as (Hparent & -> & Hf & Hfit). specialize (IH parent first count eq_refl). pose proof Hparent as Hp2. destruct parent as [pb ps pl pc]. simpl in Hfit.
      destruct Hp2 as (-> & _ & Hpc & Hpsz & _). rewrite partition_map_spec by nia.
      eapply wp_mono; [apply IH; [done|lia|unfold u32_max; lia]|]. intros r s' o' (Hpost & _).
      replace (base bs (mkDevice pb bs pl pc) + first * bs + at_ * bs)
        with (base bs (mkDevice pb bs pl pc) + (first + at_) * bs) by lia.
      destruct Hpost as (Hh & Hconf & Hok). split_and!; [|done|done]. intros Hy. destruct (Hh Hy) as [Hy' Hgo]. split; [done|].
      intros Hw. apply Hgo. split; [done|].
      rewrite check_transfer_spec, decide_True by (try done; try (unfold u32_max; lia); simpl; lia). done.
  - intros r s' o' (Hh & Hconf & Hok). rewrite drop_0 in *. unfold write_post. split_and!; try done. naive_solver.
Qed.
End transfers.

(** ** Transfers of bytes of a block device ([BlockDevice::read_bytes] and
    [write_bytes]): the whole blocks in place, the first and the last block
    through a bounce buffer. *)

Section bytes.
Context {D : Type} `{!Driver D} (bs : Z) `{!DriverLaws D bs}.
Hypothesis Hbs : 512 ≤ bs ≤ MAX_LOGICAL_BLOCK_SIZE.
Implicit Types (s : D) (d : BlockDevice) (buffer : list Z).

Lemma device_facts d : device_ok bs d →
  logical_block_size d = bs ∧ 0 < block_count d ∧ block_count d * bs < two64 ∧ size_bytes d = block_count d * bs.
Proof using Hbs.
  destruct d as [b size limit count]. intros (-> & _ & Hc & Hsz & _). simpl. split_and!; try done.
  unfold size_bytes, u64_max. simpl. lia.
Qed.

(** [k] bytes of the medium at the start of the buffer. *)
Definition filled s (a : Z) (k : nat) buffer : list Z := contents s a k ++ drop k buffer.
Lemma length_filled s a k buffer : (k ≤ length buffer)%nat → length (filled s a k buffer) = length buffer.
Proof using. intros. unfold filled. rewrite length_app, length_contents, length_drop. lia. Qed.
Lemma filled_more s a k m buffer :
  (k + m ≤ length buffer)%nat →
  copy_into (filled s a k buffer) k (contents s (a + Z.of_nat k) m) = filled s a (k + m) buffer.
Proof using.
  intros. unfold copy_into, filled. rewrite take_app_length', length_contents by (by rewrite length_contents).
  rewrite contents_app, <- (assoc_L app). do 2 f_equal.
  rewrite drop_app_ge, length_contents, drop_drop by (rewrite length_contents; lia). f_equal. lia.
Qed.
Lemma filled_0 s a buffer : filled s a 0 buffer = buffer.
Proof using. done. Qed.

Lemma filled_same s s' a k buffer : same s s' → filled s' a k buffer = filled s a k buffer.
Proof using. intros Hs. unfold filled. by rewrite (contents_same s s'). Qed.

Lemma block_buffer_spec size s o :
  wp (block_buffer size) (λ r s' o', s' = s ∧ match r with
    | Ok b => length b = size
    | Err e => e = OutOfMemory ∧ false ∈ o
    end) s o.
Proof using.
  unfold block_buffer. apply wp_bind, wp_ask. intros b o' _ Hb. wp_steps. split; [done|].
  destruct b; [apply length_replicate|]. split; [done|by apply Hb].
Qed.

Section blocks.
Context (d : BlockDevice).
Hypothesis Hd : device_ok bs d.

Lemma block_ready lba blocks len : 0 ≤ lba → 0 < blocks ≤ u32_max → lba + blocks ≤ block_count d → len = blocks * bs →
  check_transfer d lba blocks len = Ok ().
Proof using Hbs Hd. intros. rewrite (check_transfer_spec bs Hbs) by (done || lia). by rewrite decide_True by lia. Qed.

Lemma read_part_spec lba blocks a b (buf : list Z) s o :
  0 ≤ lba → 0 < blocks ≤ u32_max → lba + blocks ≤ block_count d → (a ≤ b)%nat → (b ≤ length buf)%nat →
  Z.of_nat (b - a) = blocks * bs →
  wp (read_part d lba blocks buf a b)
    (λ p s' o', length p.1 = length buf ∧ same s s' ∧ (healthy s → healthy s' ∧ p.2 = Ok ()) ∧
      (p.2 = Ok () → p.1 = copy_into buf a (contents s (base bs d + lba * bs) (b - a)))) s o.
Proof using Hbs Hd.
  intros Hl Hb Hin Hab Hbl Hlen. unfold read_part. apply wp_bind, wp_massert; [by apply Nat.leb_le|]. apply wp_bind.
  assert (length (slice buf a b) = (b - a)%nat) as Hsl by (by apply length_slice).
  eapply wp_mono; [apply (read_blocks_spec bs Hbs); [done|done|lia]|].
  intros [part r] s' o' ((Hp & Hs & Hh & Hok) & Hgood & _). simpl in *. rewrite Hsl in *. rewrite block_ready in Hgood by done.
  wp_steps. simpl. split_and!; [apply length_copy_into; lia|done|by auto|]. intros ->. by rewrite Hok.
Qed.

(** One whole block into the bounce buffer. *)
Lemma bounce_spec lba (bounce : list Z) s o :
  0 ≤ lba < block_count d → Z.of_nat (length bounce) = bs →
  wp (read_blocks d lba 1 bounce)
    (λ p s' o', length p.1 = length bounce ∧ same s s' ∧ (healthy s → healthy s' ∧ p.2 = Ok ()) ∧
      (p.2 = Ok () → p.1 = contents s (base bs d + lba * bs) (length bounce))) s o.
Proof using Hbs Hd.
  intros Hl Hlen. eapply wp_mono; [apply (read_blocks_spec bs Hbs); [done|lia|unfold u32_max; lia]|].
  intros [part r] s' o' ((Hp & Hs & Hh & Hok) & Hgood & _). simpl in *.
  rewrite block_ready in Hgood by (unfold u32_max; lia). split_and!; by auto.
Qed.
End blocks.

(** The range and the buffer of one call. *)
Section read.
Context (d : BlockDevice) (offset : Z) (buffer : list Z) (count : nat).
Hypothesis Hd : device_ok bs d.
Hypothesis Hoff : 0 ≤ offset.
Hypothesis Hcount : (count ≤ length buffer)%nat.
Hypothesis Hsize : offset + Z.of_nat count ≤ block_count d * bs.
Hypothesis Hblocks : Z.of_nat count < 4294967296 * bs.

(** After [done] bytes the next block is [lba], unless nothing is left. *)
Definition at_block (done : nat) (lba : Z) : Prop :=
  (done ≤ count)%nat ∧ 0 ≤ lba ∧ (lba * bs = offset + Z.of_nat done ∨ done = count).

Lemma read_leading_spec leading first (bounce : list Z) s o :
  leading = Z.to_nat (offset mod bs) → first = offset / bs → Z.of_nat (length bounce) = bs → (0 < count)%nat →
  wp (read_leading d first leading count buffer bounce)
    (λ '(buf, bounce', r) s' o', length buf = length buffer ∧ length bounce' = length bounce ∧ same s s' ∧
      (healthy s → healthy s' ∧ ∃ x, r = Ok x) ∧
      (∀ done lba, r = Ok (done, lba) → at_block done lba ∧ buf = filled s (base bs d + offset) done buffer)) s o.
Proof using All.
  intros Hlead Hf Hlen Hc. destruct (device_facts d Hd) as (Ebs & Hn & Hn64 & _). unfold read_leading. rewrite Ebs.
  assert (0 ≤ first) as Hf0 by (subst; apply Z.div_pos; lia).
  pose proof (Z.div_mod offset bs ltac:(lia)) as Hdm. pose proof (Z.mod_pos_bound offset bs ltac:(lia)) as Hmb.
  rewrite <- Hf in Hdm. destruct (Nat.eqb_spec leading 0) as [E0|E0].
  - wp_steps. split_and!; try done; [by eauto|]. intros ? ? [= <- <-]. split; [|done]. split_and!; [lia|done|left; lia].
  - apply wp_bind. eapply wp_mono; [apply (bounce_spec d Hd); [nia|done]|]. intros [bounce' r] s' o' (Hl' & Hs & Hh & Hok).
    simpl in *. destruct r as [[]|e].
    + wp_steps. rewrite Hok by done. set (t := Nat.min count (Z.to_nat bs - leading)).
      rewrite contents_slice by (unfold t; lia). replace (leading + t - leading)%nat with t by lia.
      replace (base bs d + first * bs + Z.of_nat leading) with (base bs d + offset + Z.of_nat 0) by lia.
      rewrite <- (filled_0 s (base bs d + offset) buffer), filled_more by (unfold t; lia).
      rewrite length_filled, Nat.add_0_l by (unfold t; lia). split_and!; [done|by rewrite length_contents|done|naive_solver|].
      intros ? ? [= <- <-]. rewrite filled_0. split; [|done]. rewrite u64_add_small by nia. unfold at_block, t. split_and!; [lia|lia|].
      destruct (decide (count ≤ Z.to_nat bs - leading)%nat); [right; lia|left; nia].
    + wp_steps. split_and!; try done. intros Hy. by destruct (Hh Hy).
Qed.

Lemma read_middle_spec done lba s o :
  at_block done lba →
  wp (read_middle d count done lba (filled s (base bs d + offset) done buffer))
    (λ p s' o', length p.1 = length buffer ∧ same s s' ∧ (healthy s → healthy s' ∧ ∃ x, p.2 = Ok x) ∧
      (∀ done' lba', p.2 = Ok (done', lba') →
        at_block done' lba' ∧ Z.of_nat (count - done') < bs ∧ p.1 = filled s (base bs d + offset) done' buffer)) s o.
Proof using All.
  intros (Hdone & Hl & Hat). destruct (device_facts d Hd) as (Ebs & Hn & Hn64 & _). unfold read_middle. rewrite Ebs.
  set (q := ((count - done) / Z.to_nat bs)%nat). set (middle := (q * Z.to_nat bs)%nat).
  pose proof (Nat.div_mod_eq (count - done) (Z.to_nat bs)) as Hdm. fold q in Hdm.
  pose proof (Nat.mod_upper_bound (count - done) (Z.to_nat bs) ltac:(lia)) as Hmb.
  assert (Z.of_nat middle = Z.of_nat q * bs) as Em by (unfold middle; nia).
  destruct (Nat.eqb_spec middle 0) as [E0|E0].
  - wp_steps. simpl. rewrite length_filled by lia. split_and!; try done; [by eauto|]. intros ? ? [= <- <-]. split_and!; [done| |done].
    assert (q = 0)%nat by nia. nia.
  - assert (middle / Z.to_nat bs = q)%nat as Eq by (apply Nat.div_mul; lia). rewrite Eq.
    assert (0 < Z.of_nat q <= u32_max) as Hq by (unfold u32_max; nia).
    assert (lba * bs = offset + Z.of_nat done) as Hlba by (destruct Hat as [?|?]; [done|nia]).
    unfold as_u32. rewrite Z.mod_small by (unfold u32_max in Hq; lia). apply wp_bind.
    eapply wp_mono; [apply (read_part_spec d Hd); [done|done|nia|lia|rewrite length_filled; nia|lia]|].
    intros [buf r] s' o'. simpl. rewrite length_filled by lia. intros (Hlen & Hs & Hh & Hok). destruct r as [[]|e].
    + wp_steps. simpl. rewrite Hok by done. replace (done + middle - done)%nat with middle by lia.
      replace (base bs d + lba * bs) with (base bs d + offset + Z.of_nat done) by lia. rewrite filled_more by nia.
      rewrite length_filled by nia. split_and!; [done|done|naive_solver|]. intros ? ? [= <- <-]. split_and!; [|nia|done].
      rewrite u64_add_small by nia. split_and!; [nia|lia|left; lia].
    + wp_steps. simpl. split_and!; try done. intros Hy. by destruct (Hh Hy).
Qed.

Lemma read_trailing_spec done lba (bounce : list Z) s o :
  at_block done lba → Z.of_nat (count - done) < bs → Z.of_nat (length bounce) = bs →
  wp (read_trailing d count done lba (filled s (base bs d + offset) done buffer) bounce)
    (λ p s' o', length p.1 = length buffer ∧ same s s' ∧ (healthy s → healthy s' ∧ ∃ x, p.2 = Ok x) ∧
      (∀ n, p.2 = Ok n → n = count ∧ p.1 = filled s (base bs d + offset) count buffer)) s o.
Proof using All.
  intros (Hdone & Hl & Hat) Hrest Hlen. destruct (device_facts d Hd) as (Ebs & Hn & Hn64 & _). unfold read_trailing.
  destruct (Nat.eqb_spec done count) as [->|Hne].
  - wp_steps. simpl. rewrite length_filled by lia. split_and!; try done; [by eauto|]. by intros ? [= <-].
  - assert (lba * bs = offset + Z.of_nat done) as Hlba by (destruct Hat as [?|?]; [done|lia]).
    apply wp_bind. eapply wp_mono; [apply (bounce_spec d Hd); [nia|done]|]. intros [bounce' r] s' o' (Hl' & Hs & Hh & Hok).
    simpl in *. destruct r as [[]|e].
    + wp_steps. simpl. rewrite Hok by done. rewrite contents_slice, Nat.sub_0_r by lia.
      replace (base bs d + lba * bs + Z.of_nat 0) with (base bs d + offset + Z.of_nat done) by lia. rewrite filled_more by lia.
      replace (done + (count - done))%nat with count by lia. rewrite length_filled by lia.
      split_and!; [done|done|naive_solver|]. by intros ? [= <-].
    + wp_steps. simpl. rewrite length_filled by lia. split_and!; try done. intros Hy. by destruct (Hh Hy).
Qed.

(** The whole range, when it is not made of blocks. *)
Lemma read_unaligned_spec s o :
  (0 < count)%nat →
  wp (let* b := block_buffer (Z.to_nat bs) in
      match b with
      | Err e => ret (buffer, Err e)
      | Ok bounce =>
          let* '(buf, bounce, r) := read_leading d (offset / bs) (Z.to_nat (offset mod bs)) count buffer bounce in
          match r with
          | Err e => ret (buf, Err e)
          | Ok (done, lba) =>
              let* '(buf, r) := read_middle d count done lba buf in
              match r with
              | Err e => ret (buf, Err e)
              | Ok (done, lba) => read_trailing d count done lba buf bounce
              end
          end
      end)
    (λ p s' o', length p.1 = length buffer ∧ same s s' ∧ (healthy s → healthy s') ∧
      match p.2 with
      | Ok n => n = count ∧ p.1 = filled s (base bs d + offset) count buffer
      | Err e => healthy s → e = OutOfMemory ∧ false ∈ o
      end) s o.
Proof using All.
  intros Hc. apply wp_bind. eapply wp_mono; [apply block_buffer_spec|]. intros [bounce|e] s0 o0 [-> Hb];
    [|wp_steps; simpl; split_and!; try done].
  apply wp_bind. eapply wp_mono; [apply read_leading_spec; [done|done|lia|done]|].
  intros [[buf bounce1] r] s1 o1 (L1 & B1 & S1 & H1 & K1). destruct r as [[done lba]|e].
  2: { wp_steps. simpl. split_and!; try done; [naive_solver|]. intros Hy. destruct (H1 Hy) as [_ [x [=]]]. }
  destruct (K1 done lba eq_refl) as [A1 ->]. apply wp_bind. rewrite <- (filled_same s s1) by done.
  eapply wp_mono; [by apply read_middle_spec|]. intros [buf r] s2 o2 (L2 & S2 & H2 & K2). simpl in *. destruct r as [[done2 lba2]|e].
  2: { wp_steps. simpl. split_and!; [done|by eapply same_trans|naive_solver|]. intros Hy. destruct (H1 Hy) as [Hy1 _].
       destruct (H2 Hy1) as [_ [x [=]]]. }
  destruct (K2 done2 lba2 eq_refl) as (A2 & Hrest & ->). rewrite <- (filled_same s1 s2) by done.
  eapply wp_mono; [apply read_trailing_spec; [done|done|lia]|]. intros [buf r] s3 o3 (L3 & S3 & H3 & K3). simpl in *.
  assert (same s s2) as S02 by (by eapply same_trans). split_and!; [done|by eapply same_trans|naive_solver|].
  destruct r as [n|e]; [|intros Hy; destruct (H1 Hy) as [Hy1 _], (H2 Hy1) as [Hy2 _], (H3 Hy2) as [_ [x [=]]]].
  destruct (K3 n eq_refl) as [-> ->]. split; [done|]. by apply filled_same.
Qed.
End read.

(** The bytes a read at [offset] returns. *)
Definition read_count d (offset : Z) (len : nat) : nat := Z.to_nat (Z.min (Z.of_nat len) (saturating_sub (size_bytes d) offset)).

Lemma read_bytes_spec d offset buffer s o :
  device_ok bs d → 0 ≤ offset → Z.of_nat (length buffer) < 4294967296 * bs →
  wp (read_bytes d offset buffer)
    (λ p s' o', length p.1 = length buffer ∧ same s s' ∧ (healthy s → healthy s') ∧
      match p.2 with
      | Ok n => n = read_count d offset (length buffer) ∧ p.1 = contents s (base bs d + offset) n ++ drop n buffer
      | Err e => healthy s → e = OutOfMemory ∧ false ∈ o
      end) s o.
Proof using Hbs.
  intros Hd Hoff Hlen. destruct (device_facts d Hd) as (Ebs & Hn & Hn64 & Esz). unfold read_bytes.
  fold (read_count d offset (length buffer)). set (count := read_count d offset (length buffer)).
  assert ((count ≤ length buffer)%nat ∧ ((0 < count)%nat → offset + Z.of_nat count ≤ block_count d * bs)) as [Hcl Hcs].
  { unfold count, read_count, saturating_sub. lia. }
  destruct (Nat.eqb_spec count 0) as [E0|E0]; [wp_steps; simpl; by rewrite E0|]. rewrite Ebs.
  destruct (Nat.eqb_spec (Z.to_nat (offset mod bs)) 0) as [El|El], (Nat.eqb_spec (count mod Z.to_nat bs) 0) as [Em|Em]; cbn [andb];
    try (eapply wp_mono; [apply (read_unaligned_spec d offset buffer count); try done; lia|]; intros [buf r] s' o' (H1 & H2 & H3 & H4);
      simpl in *; destruct r as [n|e]; [destruct H4 as [-> ->]|]; done).
  pose proof (Z.div_mod offset bs ltac:(lia)) as Hdm. pose proof (Z.mod_pos_bound offset bs ltac:(lia)) as Hmb.
  pose proof (Nat.div_mod_eq count (Z.to_nat bs)) as Hcm. set (q := (count / Z.to_nat bs)%nat) in *.
  assert (Z.of_nat count = Z.of_nat q * bs) as Eq by nia. unfold as_u32. rewrite Z.mod_small by nia.
  apply wp_bind. eapply wp_mono; [apply (read_part_spec d Hd);
    [apply Z.div_pos; lia|unfold u32_max; nia|nia|lia|lia|lia]|].
  intros [buf r] s' o' (H1 & H2 & H3 & H4). simpl in *. destruct r as [[]|e]; wp_steps; simpl.
  - split_and!; [done|done|naive_solver|done|]. rewrite H4, Nat.sub_0_r by done.
    replace (offset / bs * bs) with (offset + Z.of_nat 0) by lia. rewrite Z.add_assoc.
    rewrite <- (filled_0 s (base bs d + offset) buffer) at 1. by rewrite filled_more by lia.
  - split_and!; [done|done|naive_solver|]. intros Hy. by destruct (H3 Hy).
Qed.

(** ** Writes *)

Lemma step_health {A} (P Q W W' : Prop) (r : result Error ()) (r' : result Error A) :
  (P → Q ∧ (W' → r = Ok ())) → (W → W') → (r = Ok () → ∃ x, r' = Ok x) → P → Q ∧ (W → ∃ x, r' = Ok x).
Proof using. intros H1 H2 H3 HP. destruct (H1 HP) as [HQ Hr]. split; [done|]. intros HW. by apply H3, Hr, H2. Qed.

Lemma written_narrow s s' a k bytes n :
  (k + length bytes ≤ n)%nat → written s s' a (copy_into (contents s a n) k bytes) →
  written s s' (a + Z.of_nat k) bytes.
Proof using.
  intros Hk [Hw Hc]. rewrite length_copy_into, length_contents in Hw, Hc by (by rewrite length_contents).
  assert (∀ i, (i < n)%nat → Some (medium s' (a + Z.of_nat i)) = copy_into (contents s a n) k bytes !! i) as Hb.
  { intros i Hi. rewrite <- Hw, contents_lookup. by rewrite decide_True. }
  unfold copy_into in Hb. split.
  - apply list_eq. intros i. rewrite contents_lookup. case_decide as Hi; [|by rewrite lookup_ge_None_2 by lia].
    replace (a + Z.of_nat k + Z.of_nat i) with (a + Z.of_nat (k + i)) by lia. rewrite Hb by lia.
    rewrite lookup_app_r by (rewrite length_take; lia). rewrite lookup_app_l by (rewrite length_take, length_contents; lia).
    f_equal. rewrite length_take, length_contents. lia.
  - intros v Hv. destruct (decide (a ≤ v < a + Z.of_nat n)) as [Hin|Hout]; [|by apply Hc].
    specialize (Hb (Z.to_nat (v - a)) ltac:(lia)). rewrite Z2Nat.id in Hb by lia. replace (a + (v - a)) with v in Hb by lia.
    assert (contents s a n !! Z.to_nat (v - a) = Some (medium s v)) as Hv0.
    { rewrite contents_lookup, decide_True by lia. do 2 f_equal. lia. }
    destruct (decide (Z.to_nat (v - a) < k)%nat).
    + rewrite lookup_app_l, lookup_take_lt, Hv0 in Hb by (rewrite ?length_take, ?length_contents; lia). by injection Hb.
    + rewrite lookup_app_r, lookup_app_r, lookup_drop in Hb by (rewrite ?length_take, ?length_contents; lia).
      rewrite length_take, length_contents in Hb.
      replace (k + length bytes + (Z.to_nat (v - a) - k `min` n - length bytes))%nat with (Z.to_nat (v - a)) in Hb by lia.
      rewrite Hv0 in Hb. by injection Hb.
Qed.

Section write.
Context (d : BlockDevice) (offset : Z) (buffer : list Z).
Hypothesis Hd : device_ok bs d.
Hypothesis Hoff : 0 ≤ offset.
Hypothesis Hsize : offset + Z.of_nat (length buffer) ≤ block_count d * bs.
Hypothesis Hblocks : Z.of_nat (length buffer) < 4294967296 * bs.
Hypothesis Hne : (0 < length buffer)%nat.

(** The blocks the range touches. *)
Definition cover_start : Z := base bs d + offset / bs * bs.
Definition cover_size : Z := ((offset + Z.of_nat (length buffer) - 1) / bs + 1 - offset / bs) * bs.

Lemma cover_block lba n :
  lba * bs + (n - 1) * bs < offset + Z.of_nat (length buffer) → offset / bs ≤ lba → 0 ≤ n →
  cover_start ≤ base bs d + lba * bs ∧ base bs d + lba * bs + n * bs ≤ cover_start + cover_size.
Proof using All.
  intros Hlt Hge Hn. unfold cover_start, cover_size. split; [nia|].
  assert (lba + n - 1 ≤ (offset + Z.of_nat (length buffer) - 1) / bs) as Hq by (apply Z.div_le_lower_bound; lia). nia.
Qed.
Lemma cover_range k n : (k + n ≤ length buffer)%nat → 
  cover_start ≤ base bs d + offset + Z.of_nat k ∧ base bs d + offset + Z.of_nat k + Z.of_nat n ≤ cover_start + cover_size.
Proof using All.
  intros Hk. unfold cover_start, cover_size.
  pose proof (Z.div_mod offset bs ltac:(lia)). pose proof (Z.mod_pos_bound offset bs ltac:(lia)).
  set (e := offset + Z.of_nat (length buffer) - 1). pose proof (Z.div_mod e bs ltac:(lia)). pose proof (Z.mod_pos_bound e bs ltac:(lia)). nia.
Qed.

Lemma rewrite_block_spec lba (bounce : list Z) at_ bytes s o :
  0 ≤ lba < block_count d → Z.of_nat (length bounce) = bs → Z.of_nat (at_ + length bytes) ≤ bs →
  wp (rewrite_block d lba bounce at_ bytes)
    (λ p s' o', length p.1 = length bounce ∧ (healthy s → healthy s' ∧ (writable d = true → p.2 = Ok ())) ∧
      confined s s' (base bs d + lba * bs) bs ∧
      (p.2 = Ok () → written s s' (base bs d + lba * bs + Z.of_nat at_) bytes)) s o.
Proof using All.
  intros Hl Hlen Hat. unfold rewrite_block. apply wp_bind.
  eapply wp_mono; [apply (bounce_spec d Hd); [done|done]|]. intros [b1 r] s1 o1 (L1 & S1 & H1 & K1). simpl in *.
  destruct r as [[]|e].
  - specialize (K1 eq_refl). subst b1. set (block := copy_into _ at_ bytes).
    assert (length block = length bounce) as Hbl by (unfold block; rewrite length_copy_into; rewrite length_contents; lia).
    apply wp_bind. eapply wp_mono; [apply (write_blocks_spec bs Hbs); [done|lia|unfold u32_max; lia]|].
    intros r s' o' ((H2 & C2 & W2) & _). rewrite Hbl in *.
    rewrite (block_ready d Hd) in H2 by (unfold u32_max; lia). rewrite Hlen in C2. wp_steps. simpl. split_and!.
    + done.
    + naive_solver.
    + intros v Hv. by rewrite C2, S1.
    + intros ->. specialize (W2 eq_refl). unfold block in W2. rewrite <- (contents_same s s1) in W2 by done.
      apply written_narrow in W2; [|lia]. destruct W2 as [W C]. split; [done|]. intros v Hv. by rewrite C, S1.
  - wp_steps. simpl. split_and!; [done| |by apply same_confined|done]. intros Hy. by destruct (H1 Hy).
Qed.

(** The state between the steps: [done] bytes are written. *)
Definition write_step s (r : result Error (nat * Z)) s' : Prop :=
  (healthy s → healthy s' ∧ (writable d = true → ∃ x, r = Ok x)) ∧ confined s s' cover_start cover_size ∧
  ∀ done lba, r = Ok (done, lba) →
    at_block offset (length buffer) done lba ∧ offset / bs ≤ lba ∧ written s s' (base bs d + offset) (take done buffer).

Lemma write_leading_spec (bounce : list Z) s o :
  Z.of_nat (length bounce) = bs →
  wp (write_leading d (offset / bs) (Z.to_nat (offset mod bs)) buffer bounce)
    (λ p s' o', length p.1 = length bounce ∧ write_step s p.2 s') s o.
Proof using All.
  intros Hlen. destruct (device_facts d Hd) as (Ebs & Hn & Hn64 & _). unfold write_leading. rewrite Ebs.
  assert (0 ≤ offset / bs) as Hf0 by (apply Z.div_pos; lia).
  pose proof (Z.div_mod offset bs ltac:(lia)) as Hdm. pose proof (Z.mod_pos_bound offset bs ltac:(lia)) as Hmb.
  set (leading := Z.to_nat (offset mod bs)) in *. destruct (Nat.eqb_spec leading 0) as [E0|E0].
  - wp_steps. simpl. split; [done|]. split_and!; [by eauto|by apply same_confined|]. intros ? ? [= <- <-].
    split_and!; [|done|apply written_nil]. split_and!; [lia|done|left; lia].
  - set (t := Nat.min (length buffer) (Z.to_nat bs - leading)).
    assert (length (slice buffer 0 t) = t) as Ht by (rewrite length_slice; lia).
    apply wp_bind. eapply wp_mono; [apply rewrite_block_spec; [nia|done|rewrite Ht; lia]|].
    intros [b1 r] s1 o1 (L1 & H1 & C1 & W1). simpl in *.
    assert (confined s s1 cover_start cover_size) as HC.
    { eapply confined_mono; [exact C1|]. pose proof (cover_block (offset / bs) 1). lia. }
    destruct r as [[]|e]; wp_steps; simpl; (split; [done|]); (split_and!; [by eapply step_health; [exact H1|done|eauto]|done|]); [|done].
    intros ? ? [= <- <-]. rewrite u64_add_small by nia. split_and!; [|lia|].
    + unfold at_block. split_and!; [lia|lia|]. destruct (decide (length buffer ≤ Z.to_nat bs - leading)%nat); [right; lia|left; nia].
    + replace (base bs d + offset) with (base bs d + offset / bs * bs + Z.of_nat leading) by lia.
      assert (take t buffer = slice buffer 0 t) as ->; [|by apply W1]. unfold slice. by rewrite drop_0, Nat.sub_0_r.
Qed.

Lemma take_slice k n : (k + n ≤ length buffer)%nat → take (k + n) buffer = take k buffer ++ slice buffer k (k + n).
Proof using All. intros. unfold slice. replace (k + n - k)%nat with n by lia. symmetry. apply take_take_drop. Qed.

Lemma write_middle_spec done lba s o :
  at_block offset (length buffer) done lba → offset / bs ≤ lba →
  wp (write_middle d done lba buffer)
    (λ r s' o', (healthy s → healthy s' ∧ (writable d = true → ∃ x, r = Ok x)) ∧ confined s s' cover_start cover_size ∧
      ∀ done' lba', r = Ok (done', lba') →
        at_block offset (length buffer) done' lba' ∧ offset / bs ≤ lba' ∧ Z.of_nat (length buffer - done') < bs ∧
        (done ≤ done' ≤ length buffer)%nat ∧ written s s' (base bs d + offset + Z.of_nat done) (slice buffer done done')) s o.
Proof using All.
  intros (Hdone & Hl & Hat) Hge. destruct (device_facts d Hd) as (Ebs & Hn & Hn64 & _). unfold write_middle. rewrite Ebs.
  set (q := ((length buffer - done) / Z.to_nat bs)%nat). set (middle := (q * Z.to_nat bs)%nat).
  pose proof (Nat.div_mod_eq (length buffer - done) (Z.to_nat bs)) as Hdm. fold q in Hdm.
  pose proof (Nat.mod_upper_bound (length buffer - done) (Z.to_nat bs) ltac:(lia)) as Hmb.
  assert (Z.of_nat middle = Z.of_nat q * bs) as Em by (unfold middle; nia).
  destruct (Nat.eqb_spec middle 0) as [E0|E0].
  - wp_steps. split_and!; [by eauto|by apply same_confined|]. intros ? ? [= <- <-]. assert (q = 0)%nat by nia.
    split_and!; [done|done|nia|lia|lia|]. unfold slice. rewrite Nat.sub_diag, take_0. apply written_nil.
  - assert (middle / Z.to_nat bs = q)%nat as Eq by (apply Nat.div_mul; lia). rewrite Eq.
    assert (0 < Z.of_nat q ≤ u32_max) as Hq by (unfold u32_max; nia).
    assert (lba * bs = offset + Z.of_nat done) as Hlba by (destruct Hat as [?|?]; [done|nia]).
    unfold as_u32. rewrite Z.mod_small by (unfold u32_max in Hq; lia).
    assert (length (slice buffer done (done + middle)) = middle) as Hs by (rewrite length_slice; nia).
    apply wp_bind_res. eapply wp_mono; [apply (write_blocks_spec bs Hbs); [done|done|lia]|].
    intros r s' o' ((H1 & C1 & W1) & _). rewrite Hs in *. rewrite (block_ready d Hd) in H1 by (done || nia).
    assert (confined s s' cover_start cover_size) as HC.
    { eapply confined_mono; [exact C1|]. pose proof (cover_block lba (Z.of_nat q)). nia. }
    destruct r as [[]|e]; wp_steps; (split_and!; [by eapply step_health; [exact H1|by auto|eauto]|done|]); [|done].
    intros ? ? [= <- <-]. rewrite u64_add_small by nia. split_and!; [split_and!; [nia|lia|left; lia]|lia|nia|lia|nia|].
    replace (base bs d + offset + Z.of_nat done) with (base bs d + lba * bs) by lia. by apply W1.
Qed.

Lemma write_trailing_spec done lba (bounce : list Z) s o :
  at_block offset (length buffer) done lba → offset / bs ≤ lba → Z.of_nat (length buffer - done) < bs →
  Z.of_nat (length bounce) = bs →
  wp (write_trailing d done lba buffer bounce)
    (λ r s' o', (healthy s → healthy s' ∧ (writable d = true → ∃ x, r = Ok x)) ∧ confined s s' cover_start cover_size ∧
      ∀ n, r = Ok n → n = length buffer ∧ written s s' (base bs d + offset + Z.of_nat done) (drop done buffer)) s o.
Proof using All.
  intros (Hdone & Hl & Hat) Hge Hrest Hlen. destruct (device_facts d Hd) as (Ebs & Hn & Hn64 & _). unfold write_trailing.
  destruct (Nat.eqb_spec done (length buffer)) as [->|Hne'].
  - wp_steps. split_and!; [by eauto|by apply same_confined|]. intros ? [= <-]. split; [done|]. rewrite drop_all. apply written_nil.
  - assert (lba * bs = offset + Z.of_nat done) as Hlba by (destruct Hat as [?|?]; [done|lia]).
    assert (slice buffer done (length buffer) = drop done buffer) as Hsl by (unfold slice; apply take_ge; rewrite length_drop; lia).
    apply wp_bind. rewrite Hsl. eapply wp_mono; [apply rewrite_block_spec; [nia|done|rewrite length_drop; lia]|].
    intros [b1 r] s1 o1 (L1 & H1 & C1 & W1). simpl in *.
    assert (confined s s1 cover_start cover_size) as HC.
    { eapply confined_mono; [exact C1|]. pose proof (cover_block lba 1). lia. }
    destruct r as [[]|e]; wp_steps; (split_and!; [by eapply step_health; [exact H1|by auto|eauto]|done|]); [|done].
    intros ? [= <-]. split; [done|]. replace (base bs d + offset + Z.of_nat done) with (base bs d + lba * bs + Z.of_nat 0) by lia.
    by apply W1.
Qed.

Definition write_done s (o : oracle) (r : result Error nat) s' : Prop :=
  (healthy s → healthy s') ∧ confined s s' cover_start cover_size ∧
  match r with
  | Ok n => n = length buffer ∧ written s s' (base bs d + offset) buffer
  | Err e => healthy s → writable d = true → e = OutOfMemory ∧ false ∈ o ∧ s' = s
  end.

Lemma write_unaligned_spec s o :
  wp (let! bounce := block_buffer (Z.to_nat bs) in
      let* '(bounce, r) := write_leading d (offset / bs) (Z.to_nat (offset mod bs)) buffer bounce in
      match r with
      | Err e => ret (Err e)
      | Ok (done, lba) =>
          let! middle := write_middle d done lba buffer in
          write_trailing d middle.1 middle.2 buffer bounce
      end) (λ r s' o', write_done s o r s') s o.
Proof using All.
  apply wp_bind_res. eapply wp_mono; [apply block_buffer_spec|]. intros [bounce|e] s0 o0 [-> Hb];
    [|split_and!; [done|by apply same_confined|by intros _ _; destruct Hb]].
  apply wp_bind. eapply wp_mono; [apply write_leading_spec; lia|]. intros [b1 r] s1 o1 [L1 (H1 & C1 & K1)]. simpl in *.
  assert (∀ s2 s3, confined s s2 cover_start cover_size → confined s2 s3 cover_start cover_size → confined s s3 cover_start cover_size) as Htr.
  { intros s2 s3 Ha Hb'. eapply confined_trans; [exact Ha|exact Hb'|lia|lia]. }
  destruct r as [[done lba]|e].
  2: { wp_steps. split_and!; [naive_solver|done|]. intros Hy Hw. destruct (H1 Hy) as [_ Hr]. by destruct (Hr Hw). }
  destruct (K1 done lba eq_refl) as (A1 & G1 & W1). apply wp_bind_res.
  eapply wp_mono; [by apply write_middle_spec|]. intros [[done2 lba2]|e] s2 o2 (H2 & C2 & K2).
  2: { split_and!; [naive_solver|by eapply Htr|]. intros Hy Hw. destruct (H1 Hy) as [Hy1 _], (H2 Hy1) as [_ Hr]. by destruct (Hr Hw). }
  destruct (K2 done2 lba2 eq_refl) as (A2 & G2 & R2 & Hd2 & W2). cbn [fst snd].
  eapply wp_mono; [apply write_trailing_spec; [done|done|done|lia]|]. intros r s3 o3 (H3 & C3 & K3).
  split_and!; [naive_solver|eapply Htr; [exact (Htr _ _ C1 C2)|exact C3]|]. destruct r as [n|e].
  - destruct (K3 n eq_refl) as [-> W3]. split; [done|]. destruct A1 as [Hle _].
    replace buffer with (take done buffer ++ slice buffer done done2 ++ drop done2 buffer) at 1.
    + eapply written_app; [exact W1|]. rewrite length_take_le by done.
      eapply written_app; [exact W2|]. rewrite length_slice by lia.
      by replace (base bs d + offset + Z.of_nat done + Z.of_nat (done2 - done)) with (base bs d + offset + Z.of_nat done2) by lia.
    + rewrite (assoc_L app). replace done2 with (done + (done2 - done))%nat by lia. rewrite <- take_slice by lia. apply take_drop.
  - intros Hy Hw. destruct (H1 Hy) as [Hy1 _], (H2 Hy1) as [Hy2 _], (H3 Hy2) as [_ Hr]. by destruct (Hr Hw).
Qed.
End write.

Lemma write_bytes_spec d offset buffer s o :
  device_ok bs d → 0 ≤ offset → Z.of_nat (length buffer) < 4294967296 * bs →
  wp (write_bytes d offset buffer)
    (λ r s' o',
      if decide (offset + Z.of_nat (length buffer) ≤ block_count d * bs) then write_done d offset buffer s o r s'
      else s' = s ∧ r = Err (if decide (offset + Z.of_nat (length buffer) < two64) then NoSpace else InvalidArgument)) s o.
Proof using Hbs.
  intros Hd Hoff Hlen. destruct (device_facts d Hd) as (Ebs & Hn & Hn64 & Esz). unfold write_bytes, checked_add, ok_or.
  apply wp_bind_res. destruct (decide (offset + Z.of_nat (length buffer) < two64)) as [H64|H64]; wp_steps.
  2: { rewrite decide_False by lia. done. }
  simpl. rewrite Esz. destruct (Z.ltb_spec (block_count d * bs) (offset + Z.of_nat (length buffer))); [wp_steps; by rewrite decide_False by lia|].
  destruct (decide (offset + Z.of_nat (length buffer) ≤ block_count d * bs)) as [_|?]; [|lia]. destruct (Nat.eqb_spec (length buffer) 0) as [E0|E0].
  { wp_steps. apply nil_length_inv in E0. subst. split_and!; [done|by apply same_confined|done|apply written_nil]. }
  rewrite Ebs. destruct (Nat.eqb_spec (Z.to_nat (offset mod bs)) 0) as [El|El],
    (Nat.eqb_spec (length buffer mod Z.to_nat bs) 0) as [Em|Em]; cbn [andb]; try (apply write_unaligned_spec; try done; lia).
  pose proof (Z.div_mod offset bs ltac:(lia)) as Hdm. pose proof (Z.mod_pos_bound offset bs ltac:(lia)) as Hmb.
  pose proof (Nat.div_mod_eq (length buffer) (Z.to_nat bs)) as Hcm. set (q := (length buffer / Z.to_nat bs)%nat) in *.
  assert (Z.of_nat (length buffer) = Z.of_nat q * bs) as Eq by nia. unfold as_u32. rewrite Z.mod_small by nia.
  assert (0 ≤ offset / bs) by (apply Z.div_pos; lia).
  apply wp_bind_res. eapply wp_mono; [apply (write_blocks_spec bs Hbs); [done|done|unfold u32_max; nia]|].
  intros r s' o' ((H1 & C1 & W1) & _). rewrite (block_ready d Hd) in H1 by (try unfold u32_max; nia).
  replace (base bs d + offset / bs * bs) with (base bs d + offset) in C1, W1 by lia.
  assert (confined s s' (cover_start d offset) (cover_size offset buffer)) as HC.
  { eapply confined_mono; [exact C1|]. pose proof (cover_range d offset buffer) as Hcr.
    specialize (Hcr ltac:(assumption) ltac:(lia) ltac:(lia) ltac:(lia) ltac:(lia) 0%nat (length buffer)). lia. }
  destruct r as [[]|e]; wp_steps; [split_and!; [naive_solver|done|done|by apply W1]|].
  split_and!; [naive_solver|done|]. intros Hy Hw. destruct (H1 Hy) as [_ Hr]. by specialize (Hr (conj Hw eq_refl)).
Qed.
End bytes.
