(* ===== verification/Partition.v ===== *)
(** Discovery of the partitions of a disk ([fs/partition.rs]): the GPT, the
    MBR and its chains of extended boot records. *)
From S2P Require Import Prelude.
From S2P Require Import Bytes.
From S2P Require Import DriverError.
From S2P Require Import Block.
Open Scope rust_scope.

Definition GPT_SIGNATURE : list Z := [69; 70; 73; 32; 80; 65; 82; 84].
Definition GPT_MIN_HEADER : Z := 92.
Definition GPT_MIN_ENTRY : Z := 128.
Definition MAX_GPT_ENTRIES : Z := 4096.
Definition MAX_GPT_BYTES : Z := 16777216.
Definition MAX_EBR_LINKS : nat := 128.

Record Partition : Type := mkPartition { number : Z; first : Z; blocks : Z }.
#[export] Instance partition_eq_dec : EqDecision Partition.
Proof. solve_decision. Defined.

(** [bytes.get(a..b)] *)
Definition get_range (bytes : list Z) (a b : nat) : option (list Z) :=
  if (b <=? length bytes)%nat then Some (slice bytes a b) else None.
Definition le32 (bytes : list Z) (offset : nat) : result Error Z :=
  let? value := ok_or (get_range bytes offset (offset + 4)) InvalidArgument in
  Ok (of_le value).
Definition le64 (bytes : list Z) (offset : nat) : result Error Z :=
  let? value := ok_or (get_range bytes offset (offset + 8)) InvalidArgument in
  Ok (of_le value).

(** [crc32], a bit at a time. *)
Definition CRC_POLYNOMIAL : Z := 0xedb88320.
Definition u32_not (x : Z) : Z := 4294967295 - x.
Definition crc_bit (crc : Z) : Z := Z.lxor (Z.shiftr crc 1) (Z.land CRC_POLYNOMIAL ((0 - Z.land crc 1) mod 4294967296)).
Definition crc_byte (crc byte : Z) : Z := Nat.iter 8 crc_bit (Z.lxor crc byte).
Definition crc32 (bytes : list Z) : Z := u32_not (foldl crc_byte (u32_not 0) bytes).

Definition is_extended (kind : Z) : bool := (kind =? 0x05) || (kind =? 0x0f) || (kind =? 0x85).

(** [validate_ranges]: the check of the ranges in the order of their start. *)
Fixpoint check_ranges (disk_blocks previous_end : Z) (l : list Partition) : result Error () :=
  match l with
  | [] => Ok ()
  | p :: l =>
      let? end_ := ok_or (checked_add (first p) (blocks p)) InvalidArgument in
      if (blocks p =? 0) || (first p =? 0) || (disk_blocks <=? first p) || (disk_blocks <? end_) || (first p <? previous_end)
      then Err InvalidArgument
      else check_ranges disk_blocks end_ l
  end.
(** [sort_unstable_by_key] *)
Definition key_le (key : Partition → Z) (p q : Partition) : Prop := key p ≤ key q.
#[export] Instance key_le_dec key : RelDecision (key_le key).
Proof. intros p q. unfold key_le. apply _. Defined.
Definition sort_by (key : Partition → Z) (l : list Partition) : list Partition := merge_sort (key_le key) l.
Definition validate_ranges (partitions : list Partition) (disk_blocks : Z) : result Error (list Partition) :=
  let partitions := sort_by first partitions in
  let? _ := check_ranges disk_blocks 0 partitions in
  Ok (sort_by number partitions).

(** One entry of the GPT: an unused one is skipped. *)
Definition gpt_entry (entry : list Z) (index : nat) (first_usable last_usable : Z) : result Error (option Partition) :=
  if forallb (λ b, b =? 0) (slice entry 0 16) then Ok None
  else
    let? first := le64 entry 32 in
    let? last := le64 entry 40 in
    if (first <? first_usable) || (last_usable <? last) || (last <? first) then Err InvalidArgument
    else Ok (Some (mkPartition (Z.of_nat index + 1) first (u64_add (u64_sub last first) 1))).
(** [for index in 0..entry_count], with [n] entries left. *)
Fixpoint gpt_entries (entries : list Z) (entry_size : nat) (first_usable last_usable : Z) (n index : nat) (output : list Partition) :
    result Error (list Partition) :=
  match n with
  | O => Ok output
  | S n =>
      let entry := slice entries (index * entry_size) ((index + 1) * entry_size) in
      let? found := gpt_entry entry index first_usable last_usable in
      gpt_entries entries entry_size first_usable last_usable n (index + 1)
        (match found with Some p => output ++ [p] | None => output end)
  end.

(** The fields of the GPT header after its checks. *)
Record GptHeader : Type := mkGpt {
  g_first_usable : Z; g_last_usable : Z; g_entries_lba : Z; g_entry_count : Z; g_entry_size : Z; g_entries_crc : Z;
}.
Definition parse_gpt (header : list Z) (block_size : nat) (block_count : Z) : result Error GptHeader :=
  if negb (bool_decide (get_range header 0 8 = Some GPT_SIGNATURE)) then Err InvalidArgument
  else
    let? header_size := le32 header 12 in
    if (header_size <? GPT_MIN_HEADER) || (Z.of_nat block_size <? header_size) then Err InvalidArgument
    else
      let? stored_header_crc := le32 header 16 in
      let checked_header := copy_into (slice header 0 (Z.to_nat header_size)) 16 (replicate 4 0) in
      if negb (crc32 checked_header =? stored_header_crc) then Err Io
      else
        let? my_lba := le64 header 24 in
        if negb (my_lba =? 1) then Err InvalidArgument
        else
          let? alternate := le64 header 32 in
          if block_count <=? alternate then Err InvalidArgument
          else
            let? first_usable := le64 header 40 in
            let? last_usable := le64 header 48 in
            if (last_usable <? first_usable) || (block_count <=? last_usable) then Err InvalidArgument
            else
              let? entries_lba := le64 header 72 in
              let? entry_count := le32 header 80 in
              let? entry_size := le32 header 84 in
              if (entry_count =? 0) || (MAX_GPT_ENTRIES <? entry_count) || (entry_size <? GPT_MIN_ENTRY)
                 || negb (is_multiple_of entry_size 8)
              then Err InvalidArgument
              else
                let? crc := le32 header 88 in
                Ok (mkGpt first_usable last_usable entries_lba entry_count entry_size crc).

Section discover.
Context {D : Type} `{!Driver D}.

(** [zeroed], and a read into it. *)
Definition zeroed (length : nat) : M D (result Error (list Z)) := block_buffer length.
Definition read_fresh (d : BlockDevice) (lba blocks : Z) (length : nat) : M D (result Error (list Z)) :=
  let! buffer := zeroed length in
  let* '(buffer, r) := read_blocks d lba blocks buffer in
  ret (match r with Ok _ => Ok buffer | Err e => Err e end).

Definition discover_gpt (d : BlockDevice) (block_size : nat) : M D (result Error (list Partition)) :=
  if block_count d <? 2 then ret (Err InvalidArgument)
  else
    let! header := read_fresh d 1 1 block_size in
    let! g := ret (parse_gpt header block_size (block_count d)) in
    let! bytes := ret (ok_or (checked_mul (g_entry_count g) (g_entry_size g)) InvalidArgument) in
    if MAX_GPT_BYTES <? bytes then ret (Err InvalidArgument)
    else
      let blocks := (bytes + Z.of_nat block_size - 1) / Z.of_nat block_size in
      let! end_ := ret (ok_or (checked_add (g_entries_lba g) blocks) InvalidArgument) in
      if (g_entries_lba g =? 0) || (block_count d <? end_) then ret (Err InvalidArgument)
      else
        let! entries := zeroed (Z.to_nat blocks * block_size) in
        if u32_max <? blocks then ret (Err InvalidArgument)
        else
          let* '(entries, r) := read_blocks d (g_entries_lba g) blocks entries in
          match r with
          | Err e => ret (Err e)
          | Ok _ =>
              if negb (crc32 (slice entries 0 (Z.to_nat bytes)) =? g_entries_crc g) then ret (Err Io)
              else
                let! output := ret (gpt_entries entries (Z.to_nat (g_entry_size g)) (g_first_usable g) (g_last_usable g)
                                      (Z.to_nat (g_entry_count g)) 0 []) in
                ret (validate_ranges output (block_count d))
          end.

(** The signature at the end of a boot record. *)
Definition boot_signature (sector : list Z) : bool := bool_decide (get_range sector 510 512 = Some [0x55; 0xaa]).

(** [for _ in 0..MAX_EBR_LINKS] *)
Fixpoint ebr_loop (links : nat) (d : BlockDevice) (block_size : nat) (base container_end relative : Z) (visited : list Z)
    (number : Z) (output : list Partition) : M D (result Error (Z * list Partition)) :=
  match links with
  | O => ret (Err InvalidArgument)
  | S links =>
      let! ebr_lba := ret (ok_or (checked_add base relative) InvalidArgument) in
      if (ebr_lba <? base) || (container_end <=? ebr_lba) || bool_decide (ebr_lba ∈ visited) then ret (Err InvalidArgument)
      else
        let! sector := read_fresh d ebr_lba 1 block_size in
        if negb (boot_signature sector) then ret (Err InvalidArgument)
        else
          let logical := slice sector 446 462 in
          let kind := nth 4 logical 0 in
          let! first_relative := ret (le32 logical 8) in
          let! blocks := ret (le32 logical 12) in
          let! found :=
            ret (if negb (kind =? 0) && negb (blocks =? 0) && negb (is_extended kind) then
                   let? first := ok_or (checked_add ebr_lba first_relative) InvalidArgument in
                   if (first <? base) || (match checked_add first blocks with
                                          | None => true
                                          | Some end_ => container_end <? end_
                                          end)
                   then Err InvalidArgument
                   else Ok (Some (mkPartition number first blocks))
                 else Ok None) in
          let output := match found with Some p => output ++ [p] | None => output end in
          let number := match found with Some _ => number + 1 | None => number end in
          let link := slice sector 462 478 in
          if negb (is_extended (nth 4 link 0)) then ret (Ok (number, output))
          else
            let! count := ret (le32 link 12) in
            if count =? 0 then ret (Ok (number, output))
            else
              let! relative := ret (le32 link 8) in
              ebr_loop links d block_size base container_end relative (visited ++ [ebr_lba]) number output
  end.
Definition discover_ebr (d : BlockDevice) (block_size : nat) (base container_blocks number : Z) (output : list Partition) :
    M D (result Error (Z * list Partition)) :=
  let! container_end :=
    ret (match checked_add base container_blocks with
         | Some end_ => if end_ <=? block_count d then Ok end_ else Err InvalidArgument
         | None => Err InvalidArgument
         end) in
  ebr_loop MAX_EBR_LINKS d block_size base container_end 0 [] number output.

(** [for index in 0..4], with [n] entries left. *)
Fixpoint mbr_loop (n index : nat) (d : BlockDevice) (block_size : nat) (sector : list Z) (logical_number : Z)
    (output : list Partition) : M D (result Error (list Partition)) :=
  match n with
  | O => ret (Ok output)
  | S n =>
      let entry := slice sector (446 + index * 16) (462 + index * 16) in
      let kind := nth 4 entry 0 in
      let! first := ret (le32 entry 8) in
      let! blocks := ret (le32 entry 12) in
      if (kind =? 0) || (blocks =? 0) then mbr_loop n (index + 1) d block_size sector logical_number output
      else if is_extended kind then
        let! found := discover_ebr d block_size first blocks logical_number output in
        mbr_loop n (index + 1) d block_size sector found.1 found.2
      else
        mbr_loop n (index + 1) d block_size sector logical_number
          (if negb (kind =? 0xee) then output ++ [mkPartition (Z.of_nat index + 1) first blocks] else output)
  end.
Definition discover_mbr (d : BlockDevice) (block_size : nat) (sector : list Z) : M D (result Error (list Partition)) :=
  let! output := mbr_loop 4 0 d block_size sector 5 [] in
  if bool_decide (output = []) then ret (Err NotFound)
  else ret (validate_ranges output (block_count d)).

Definition discover (d : BlockDevice) : M D (result Error (list Partition)) :=
  let block_size := Z.to_nat (logical_block_size d) in
  if (block_size <? 512)%nat then ret (Err InvalidArgument)
  else
    let! sector := read_fresh d 0 1 block_size in
    if negb (boot_signature sector) then ret (Err NotFound)
    else
      let protective := existsb (λ index, nth (446 + index * 16 + 4) sector 0 =? 0xee) (seq 0 4) in
      if protective then discover_gpt d block_size else discover_mbr d block_size sector.

(** [scan]: the device published for each partition. *)
Definition partition_device (d : BlockDevice) (p : Partition) : BlockDevice :=
  register_child d (PartitionBackend d (first p) (blocks p)) (blocks p).
(** [registers]: whether [register_child] accepts the partition's name. *)
Definition scan (registers : Partition → bool) (d : BlockDevice) : M D (list BlockDevice) :=
  let* r := discover d in
  ret (match r with Ok partitions => map (partition_device d) (List.filter registers partitions) | Err _ => [] end).
End discover.
