(* ===== verification/PartitionSpec.v ===== *)
(** What the discovery of partitions returns: distinct partitions inside the
    disk that do not overlap, whatever bytes the disk holds. *)
From S2P Require Import Prelude.
From S2P Require Import Bytes.
From S2P Require Import DriverError.
From S2P Require Import Block.
From S2P Require Import BlockSpec.
From S2P Require Import Partition.
Open Scope rust_scope.

(** ** The check of the ranges *)

Definition fields_ok (p : Partition) : Prop := 0 ≤ first p < two64 ∧ 0 ≤ blocks p < two64.
Definition in_disk (disk_blocks : Z) (p : Partition) : Prop :=
  0 < first p ∧ 0 < blocks p ∧ first p + blocks p ≤ disk_blocks.
Definition disjoint_parts (p q : Partition) : Prop := first p + blocks p ≤ first q ∨ first q + blocks q ≤ first p.
(** Ranges a disk can be cut into. *)
Record ranges_ok (disk_blocks : Z) (l : list Partition) : Prop := {
  rg_nodup : NoDup l;
  rg_in : Forall (in_disk disk_blocks) l;
  rg_disjoint p q : p ∈ l → q ∈ l → p ≠ q → disjoint_parts p q;
}.

#[export] Instance ranges_ok_proper n : Proper ((≡ₚ) ==> iff) (ranges_ok n).
Proof.
  assert (∀ l l', l ≡ₚ l' → ranges_ok n l → ranges_ok n l') as Hone.
  { intros l l' Hp [H1 H2 H3]. split; [by rewrite <- Hp|by rewrite <- Hp|].
    intros p q Hl Hq. rewrite <- Hp in Hl, Hq. by apply H3. }
  intros l l' Hp. split; apply Hone; [done|by symmetry].
Qed.

#[export] Instance key_le_total key : Total (key_le key).
Proof. intros p q. unfold key_le. lia. Qed.
#[export] Instance key_le_trans key : Transitive (key_le key).
Proof. intros p q r. unfold key_le. lia. Qed.
Lemma sort_by_perm key l : sort_by key l ≡ₚ l.
Proof. apply merge_sort_Permutation. Qed.
Lemma sort_by_sorted key l : StronglySorted (key_le key) (sort_by key l).
Proof. apply (StronglySorted_merge_sort _ _). Qed.

(** In the order of their start, ranges are apart exactly when each begins
    after the end of the one before. *)
Lemma check_ranges_sound disk_blocks l : ∀ previous_end,
  Forall fields_ok l → check_ranges disk_blocks previous_end l = Ok () →
  ranges_ok disk_blocks l ∧ Forall (λ p, previous_end ≤ first p) l.
Proof.
  induction l as [|p l IH]; intros e Hf; simpl; [split; [split; [constructor|done|]|done]; intros ? ? []%not_elem_of_nil|].
  inversion Hf as [|? ? [Hp1 Hp2] Hl]; subst. unfold checked_add, ok_or. case_decide as H64; [|done]. simpl.
  destruct (Z.eqb_spec (blocks p) 0); [done|]. destruct (Z.eqb_spec (first p) 0); [done|].
  destruct (Z.leb_spec disk_blocks (first p)); [done|]. destruct (Z.ltb_spec disk_blocks (first p + blocks p)); [done|].
  destruct (Z.ltb_spec (first p) e); [done|]. simpl. intros Hc. destruct (IH _ Hl Hc) as [[N1 N2 N3] Hge].
  rewrite Forall_forall in Hge. split.
  - split.
    + constructor; [|done]. intros Hin. specialize (Hge p Hin). simpl in Hge. lia.
    + constructor; [|done]. unfold in_disk. lia.
    + intros a b Ha Hb Hne. apply elem_of_cons in Ha as [->|Ha], Hb as [->|Hb]; [done| | |by apply N3].
      * left. by apply Hge.
      * right. by apply Hge.
  - constructor; [done|]. apply Forall_forall. intros q Hq. specialize (Hge q Hq). simpl in Hge. lia.
Qed.

Lemma check_ranges_complete disk_blocks l : ∀ previous_end,
  disk_blocks < two64 → ranges_ok disk_blocks l → StronglySorted (key_le first) l → Forall (λ p, previous_end ≤ first p) l →
  check_ranges disk_blocks previous_end l = Ok ().
Proof.
  induction l as [|p l IH]; intros e Hd [H1 H2 H3] Hs Hge; simpl; [done|].
  apply NoDup_cons in H1 as [Hni Hnd]. apply Forall_cons in H2 as [(Hp1 & Hp2 & Hp3) Hin].
  apply Forall_cons in Hge as [Hpe Hge]. inversion Hs as [|? ? Hs' Hall]; subst.
  unfold checked_add, ok_or. rewrite decide_True by lia. simpl.
  rewrite (proj2 (Z.eqb_neq (blocks p) 0)), (proj2 (Z.eqb_neq (first p) 0)) by lia.
  rewrite (proj2 (Z.leb_gt disk_blocks (first p))), (proj2 (Z.ltb_ge disk_blocks _)), (proj2 (Z.ltb_ge (first p) e)) by lia. simpl.
  apply IH; [done| |done|].
  - split; [done|done|]. intros a b Ha Hb. apply H3; by right.
  - rewrite Forall_forall in Hall |- *. intros q Hq. specialize (Hall q Hq). unfold key_le in Hall.
    assert (p ≠ q) as Hne by (by intros ->). rewrite Forall_forall in Hin. pose proof (Hin q Hq) as (? & ? & ?).
    destruct (H3 p q ltac:(left) ltac:(by right) Hne); lia.
Qed.

Lemma check_ranges_error disk_blocks l : ∀ e r, check_ranges disk_blocks e l = r → r = Ok () ∨ r = Err InvalidArgument.
Proof.
  induction l as [|p l IH]; intros e r; simpl; [by left|]. unfold checked_add, ok_or. case_decide; simpl; [|by right].
  destruct (_ || _); [by right|]. apply IH.
Qed.

Lemma validate_ranges_spec l disk_blocks :
  Forall fields_ok l → disk_blocks < two64 →
  (ranges_ok disk_blocks l ∧ validate_ranges l disk_blocks = Ok (sort_by number (sort_by first l))) ∨
  (¬ ranges_ok disk_blocks l ∧ validate_ranges l disk_blocks = Err InvalidArgument).
Proof.
  intros Hf Hd. unfold validate_ranges. pose proof (sort_by_perm first l) as Hp.
  destruct (check_ranges_error disk_blocks (sort_by first l) 0 _ eq_refl) as [E|E]; rewrite E; simpl.
  - left. split; [|done]. rewrite <- Hp. apply (check_ranges_sound _ _ 0); [|done]. by rewrite Hp.
  - right. split; [|done]. intros Hr. rewrite <- Hp in Hr.
    rewrite (check_ranges_complete disk_blocks (sort_by first l) 0) in E; [done|done|done|apply sort_by_sorted|].
    apply Forall_forall. intros p Hl. rewrite Hp in Hl. rewrite Forall_forall in Hf. apply Hf in Hl as [? _]. lia.
Qed.

(** ** Reading the tables *)

Lemma le32_spec bytes offset : (offset + 4 ≤ length bytes)%nat → le32 bytes offset = Ok (of_le (slice bytes offset (offset + 4))).
Proof. intros. unfold le32, get_range. by rewrite (proj2 (Nat.leb_le _ _)). Qed.
Lemma le64_spec bytes offset : (offset + 8 ≤ length bytes)%nat → le64 bytes offset = Ok (of_le (slice bytes offset (offset + 8))).
Proof. intros. unfold le64, get_range. by rewrite (proj2 (Nat.leb_le _ _)). Qed.
Lemma slice_bytes l a b : Forall is_byte l → Forall is_byte (slice l a b).
Proof. intros. unfold slice. by apply Forall_take, Forall_drop. Qed.
Lemma of_le_slice l a n : Forall is_byte l → 0 ≤ of_le (slice l a (a + n)) < 256 ^ Z.of_nat n.
Proof.
  intros Hl. pose proof (of_le_bound _ (slice_bytes l a (a + n) Hl)) as Hb.
  assert (length (slice l a (a + n)) ≤ n)%nat as Hle by (unfold slice; rewrite length_take; lia).
  assert (256 ^ Z.of_nat (length (slice l a (a + n))) ≤ 256 ^ Z.of_nat n) by (apply Z.pow_le_mono_r; lia). lia.
Qed.

(** The partition of a used GPT entry. *)
Definition entry_bytes (entries : list Z) (size i : nat) : list Z := slice entries (i * size) ((i + 1) * size).
Definition entry_partition (entries : list Z) (size i : nat) : option Partition :=
  let e := entry_bytes entries size i in
  if forallb (λ b, b =? 0) (slice e 0 16) then None
  else Some (mkPartition (Z.of_nat i + 1) (of_le (slice e 32 40)) (of_le (slice e 40 48) - of_le (slice e 32 40) + 1)).

Lemma gpt_entry_spec entries size i lo hi :
  Forall is_byte entries → (128 ≤ size)%nat → ((i + 1) * size ≤ length entries)%nat → hi < u64_max →
  (∃ e, gpt_entry (entry_bytes entries size i) i lo hi = Err e) ∨
  gpt_entry (entry_bytes entries size i) i lo hi = Ok (entry_partition entries size i) ∧
  ∀ p, entry_partition entries size i = Some p → fields_ok p ∧ lo ≤ first p ∧ first p + blocks p - 1 ≤ hi ∧ 0 < blocks p.
Proof.
  intros Hb Hs Hi Hh. unfold gpt_entry, entry_partition. set (e := entry_bytes entries size i).
  assert (length e = size) as Hl by (unfold e, entry_bytes; rewrite length_slice; lia).
  assert (Forall is_byte e) as Hbe by (by apply slice_bytes).
  destruct (forallb _ _); [by right|]. rewrite !le64_spec by lia. simpl.
  pose proof (of_le_slice e 32 8 Hbe) as H1. pose proof (of_le_slice e 40 8 Hbe) as H2. simpl Nat.add in *.
  change (256 ^ Z.of_nat 8) with two64 in *. set (f := of_le (slice e 32 40)) in *. set (l := of_le (slice e 40 48)) in *.
  unfold u64_max in Hh. destruct (Z.ltb_spec f lo); [left; by eexists|]. destruct (Z.ltb_spec hi l); [left; by eexists|].
  destruct (Z.ltb_spec l f); [left; by eexists|]. right. simpl.
  rewrite (u64_sub_small l f), u64_add_small by lia. split; [done|]. intros p [= <-]. unfold fields_ok. simpl. lia.
Qed.

Lemma gpt_entries_spec entries size lo hi : ∀ n i output out,
  Forall is_byte entries → (128 ≤ size)%nat → ((i + n) * size ≤ length entries)%nat → hi < u64_max →
  gpt_entries entries size lo hi n i output = Ok out →
  out = output ++ omap (entry_partition entries size) (seq i n) ∧
  Forall (λ p, fields_ok p ∧ lo ≤ first p ∧ first p + blocks p - 1 ≤ hi ∧ 0 < blocks p) (omap (entry_partition entries size) (seq i n)).
Proof.
  induction n as [|n IH]; intros i output out Hb Hs Hi Hh; cbn [gpt_entries]; [intros [= <-]; simpl; by rewrite app_nil_r|].
  fold (entry_bytes entries size i). destruct (gpt_entry_spec entries size i lo hi Hb Hs) as [[e ->]|[-> Hp]]; [lia|done|done|].
  cbn [result_bind]. intros Hout. apply IH in Hout as [-> Hall]; [|done|done|lia|done]. rewrite Nat.add_1_r in *. cbn [seq omap list_omap].
  destruct (entry_partition entries size i) as [p|]; [|done]. split; [by rewrite <- (assoc_L app)|].
  constructor; [by apply Hp|done].
Qed.

Lemma entry_numbers entries size : ∀ n i,
  NoDup (number <$> omap (entry_partition entries size) (seq i n)) ∧
  Forall (λ p, Z.of_nat i < number p) (omap (entry_partition entries size) (seq i n)).
Proof.
  induction n as [|n IH]; intros i; cbn [seq omap list_omap]; [split; constructor|]. destruct (IH (S i)) as [Hnd Hge].
  assert (Forall (λ p, Z.of_nat i < number p) (omap (entry_partition entries size) (seq (S i) n))) as Hge'.
  { eapply Forall_impl; [exact Hge|]. intros p. simpl. lia. }
  destruct (entry_partition entries size i) as [p|] eqn:E; [|done].
  assert (number p = Z.of_nat i + 1) as Ep.
  { unfold entry_partition in E. destruct (forallb _ _); [done|]. by injection E as <-. }
  split; [|constructor; [lia|done]]. cbn [fmap list_fmap]. constructor; [|done]. intros Hin.
  apply list_elem_of_fmap in Hin as (q & Hq & Hin). rewrite Forall_forall in Hge. specialize (Hge q Hin). simpl in Hge. lia.
Qed.

(** ** The discovery *)

Section discover.
Context {D : Type} `{!Driver D} (bs : Z) `{!DriverLaws D bs}.
Hypothesis Hbs : 512 ≤ bs ≤ MAX_LOGICAL_BLOCK_SIZE.
Context (d : BlockDevice).
Hypothesis Hd : device_ok bs d.
Implicit Types (s : D).

Definition bytes_ok s : Prop := ∀ v, is_byte (medium s v).
Definition clean s s' : Prop := same s s' ∧ (healthy s → healthy s').
Lemma clean_refl s : clean s s.
Proof using. done. Qed.
Lemma clean_trans s1 s2 s3 : clean s1 s2 → clean s2 s3 → clean s1 s3.
Proof using. intros [A1 B1] [A2 B2]. split; [by eapply same_trans|by auto]. Qed.
Lemma clean_bytes s s' : clean s s' → bytes_ok s → bytes_ok s'.
Proof using. intros [Hs _] Hb v. rewrite Hs. apply Hb. Qed.
Lemma contents_bytes s a n : bytes_ok s → Forall is_byte (contents s a n).
Proof using. intros Hb. unfold contents. apply Forall_fmap, Forall_true. intros i. apply Hb. Qed.

Lemma read_fresh_spec lba count len s o :
  0 ≤ lba → 0 < count ≤ u32_max →
  wp (read_fresh d lba count len)
    (λ r s' o', clean s s' ∧ match r with
      | Ok b => b = contents s (base bs d + lba * bs) len
      | Err e => healthy s → lba + count ≤ block_count d → Z.of_nat len = count * bs → e = OutOfMemory ∧ false ∈ o
      end) s o.
Proof using Hbs Hd.
  intros Hl Hc. unfold read_fresh, zeroed. apply wp_bind_res. eapply wp_mono; [apply block_buffer_spec|].
  intros [b|e] s1 o1 [-> Hb]; [|split; [done|by intros]]. apply wp_bind.
  eapply wp_mono; [apply (read_blocks_spec bs Hbs); [done|done|lia]|].
  intros [buf r] s' o' ((Hp & Hs & Hh & Hok) & Hgood & _). simpl in *. wp_steps. split; [done|]. rewrite Hb in *.
  destruct r as [[]|e]; [by apply Hok|]. intros Hy Hin Hlen. specialize (Hgood Hy).
  by rewrite (block_ready bs Hbs d Hd lba count (Z.of_nat len) Hl Hc Hin Hlen) in Hgood.
Qed.

Lemma parse_gpt_spec header n g :
  Forall is_byte header → Z.of_nat (length header) = bs → n < two64 → parse_gpt header (Z.to_nat bs) n = Ok g →
  0 ≤ g_first_usable g ≤ g_last_usable g ∧ g_last_usable g < n ∧ 0 ≤ g_entries_lba g < two64 ∧
  0 < g_entry_count g ≤ 4096 ∧ 128 ≤ g_entry_size g < 4294967296.
Proof using Hbs.
  intros Hb Hl Hn. unfold parse_gpt, MAX_GPT_ENTRIES, GPT_MIN_ENTRY, GPT_MIN_HEADER. rewrite !le32_spec, !le64_spec by lia. simpl.
  pose proof (of_le_slice header 40 8 Hb) as B40. pose proof (of_le_slice header 72 8 Hb) as B72.
  pose proof (of_le_slice header 80 4 Hb) as B80. pose proof (of_le_slice header 84 4 Hb) as B84. simpl Nat.add in *.
  change (256 ^ Z.of_nat 8) with two64 in *. change (256 ^ Z.of_nat 4) with 4294967296 in *.
  destruct (negb _); [done|]. destruct (_ || _); [done|]. destruct (negb _); [done|]. destruct (negb _); [done|].
  destruct (n <=? _); [done|].
  destruct (Z.ltb_spec (of_le (slice header 48 56)) (of_le (slice header 40 48))); [done|].
  destruct (Z.leb_spec n (of_le (slice header 48 56))); [done|]. simpl.
  destruct (Z.eqb_spec (of_le (slice header 80 84)) 0); [done|]. destruct (Z.ltb_spec 4096 (of_le (slice header 80 84))); [done|].
  destruct (Z.ltb_spec (of_le (slice header 84 88)) 128); [done|]. destruct (negb _); [done|]. simpl.
  intros [= <-]. simpl. lia.
Qed.

(** The partitions of a well-formed result. *)
Definition discovered (ps : list Partition) : Prop :=
  ranges_ok (block_count d) ps ∧ StronglySorted (key_le number) ps ∧ NoDup (number <$> ps).

Lemma validated_ok l ps :
  Forall fields_ok l → NoDup (number <$> l) → validate_ranges l (block_count d) = Ok ps → discovered ps ∧ ps ≡ₚ l.
Proof using Hbs Hd.
  intros Hf Hn Hv. destruct (device_facts bs Hbs d Hd) as (_ & Hc & H64 & _).
  destruct (validate_ranges_spec l (block_count d) Hf ltac:(nia)) as [[Hr E]|[_ E]]; [|by rewrite Hv in E].
  rewrite Hv in E. injection E as ->.
  assert (sort_by number (sort_by first l) ≡ₚ l) as Hp by (by rewrite !sort_by_perm). split; [|done].
  split_and!; [by rewrite Hp|apply sort_by_sorted|by rewrite Hp].
Qed.

(** The entry array that a header describes. *)
Definition gpt_array s (g : GptHeader) : list Z :=
  contents s (base bs d + g_entries_lba g * bs) (Z.to_nat (g_entry_count g * g_entry_size g)).
Definition gpt_listed s (ps : list Partition) : Prop :=
  ∃ g, parse_gpt (contents s (base bs d + bs) (Z.to_nat bs)) (Z.to_nat bs) (block_count d) = Ok g ∧
    crc32 (gpt_array s g) = g_entries_crc g ∧
    ps ≡ₚ omap (entry_partition (gpt_array s g) (Z.to_nat (g_entry_size g))) (seq 0 (Z.to_nat (g_entry_count g))).

Lemma entry_contents s a n m size k :
  (k * size ≤ n)%nat → (k * size ≤ m)%nat →
  omap (entry_partition (contents s a n) size) (seq 0 k) = omap (entry_partition (contents s a m) size) (seq 0 k).
Proof using.
  intros Hn Hm. assert (∀ i, (i < k)%nat → entry_partition (contents s a n) size i = entry_partition (contents s a m) size i) as He.
  { intros i Hi. assert (entry_bytes (contents s a n) size i = entry_bytes (contents s a m) size i) as Ee.
    { unfold entry_bytes. by rewrite (contents_slice s a n), (contents_slice s a m) by nia. }
    unfold entry_partition. by rewrite Ee. }
  assert (Forall (λ i, (i < k)%nat) (seq 0 k)) as Hall by (apply Forall_forall; intros i Hi%elem_of_seq; lia).
  clear Hn Hm. induction Hall as [|i l Hi Hl IH]; [done|]. cbn [omap list_omap]. rewrite He by done. by rewrite IH.
Qed.

Lemma discover_gpt_spec s o :
  bytes_ok s →
  wp (discover_gpt d (Z.to_nat bs))
    (λ r s' o', clean s s' ∧ ∀ ps, r = Ok ps → discovered ps ∧ gpt_listed s ps) s o.
Proof using Hbs Hd.
  intros Hb. destruct (device_facts bs Hbs d Hd) as (_ & Hc & H64 & _). unfold MAX_LOGICAL_BLOCK_SIZE in Hbs. unfold discover_gpt.
  destruct (Z.ltb_spec (block_count d) 2); [wp_steps; by split|]. apply wp_bind_res.
  eapply wp_mono; [apply read_fresh_spec; unfold u32_max; lia|]. intros [header|e] s1 o1 [Hcl Hh]; [|by split].
  subst header. rewrite Z.mul_1_l in *. set (header := contents s (base bs d + bs) (Z.to_nat bs)) in *.
  apply wp_bind_res, wp_ret. destruct (parse_gpt header _ _) as [g|e] eqn:Hg; [|by split].
  destruct (parse_gpt_spec header (block_count d) g) as (G1 & G2 & G3 & G4 & G5); [by apply contents_bytes|unfold header; rewrite length_contents; lia|nia|done|].
  apply wp_bind_res, wp_ret. unfold checked_mul, ok_or. rewrite decide_True by nia.
  set (bytes := g_entry_count g * g_entry_size g). destruct (Z.ltb_spec MAX_GPT_BYTES bytes) as [|Hmax]; [wp_steps; by split|].
  unfold MAX_GPT_BYTES in Hmax. rewrite Z2Nat.id by lia. set (n := (bytes + bs - 1) / bs).
  pose proof (Z.div_mod (bytes + bs - 1) bs ltac:(lia)) as Hdm. pose proof (Z.mod_pos_bound (bytes + bs - 1) bs ltac:(lia)) as Hmb. fold n in Hdm.
  assert (0 < n ≤ 32769) as Hn by nia. apply wp_bind_res, wp_ret. unfold checked_add.
  case_decide as Ha; [|by split]. destruct (Z.eqb_spec (g_entries_lba g) 0); [wp_steps; by split|].
  destruct (Z.ltb_spec (block_count d) (g_entries_lba g + n)); [wp_steps; by split|]. cbn [orb].
  apply wp_bind_res. unfold zeroed. eapply wp_mono; [apply block_buffer_spec|]. intros [buf|e] s2 o2 [-> Hbuf]; [|by split].
  destruct (Z.ltb_spec u32_max n) as [Hbig|_]; [unfold u32_max in Hbig; lia|]. apply wp_bind.
  eapply wp_mono; [apply (read_blocks_spec bs Hbs); [done|lia|unfold u32_max; lia]|].
  intros [entries r] s3 o3 ((Hp & Hs & Hhy & Hok) & _). simpl in *.
  assert (clean s s3) as Hcl3 by (eapply clean_trans; [exact Hcl|by split]). destruct r as [[]|e]; [|wp_steps; by split].
  specialize (Hok eq_refl). rewrite (contents_same s s1) in Hok by apply Hcl. rewrite Hbuf in Hok. subst entries.
  set (a := base bs d + g_entries_lba g * bs) in *.
  assert (slice (contents s a (Z.to_nat n * Z.to_nat bs)) 0 (Z.to_nat bytes) = gpt_array s g) as Harr.
  { rewrite contents_slice by nia. rewrite Nat.sub_0_r. unfold gpt_array. f_equal. unfold a. lia. }
  rewrite Harr. destruct (Z.eqb_spec (crc32 (gpt_array s g)) (g_entries_crc g)) as [Hcrc|]; [|wp_steps; by split]. simpl.
  apply wp_bind_res, wp_ret.
  destruct (gpt_entries _ _ _ _ _ _ _) as [output|e] eqn:Hout; [|by split]. wp_steps. split; [done|]. intros ps Hps.
  apply gpt_entries_spec in Hout as [-> Hall]; [|by apply contents_bytes|lia|rewrite length_contents; nia|unfold u64_max; nia].
  simpl in Hps. apply validated_ok in Hps as [Hdisc Hperm]; [|eapply Forall_impl; [exact Hall|by intros p (? & _)]|apply entry_numbers].
  split; [done|]. exists g. split_and!; [done|done|]. rewrite Hperm. unfold gpt_array. fold bytes a.
  rewrite (entry_contents s a _ (Z.to_nat bytes)) by (unfold bytes; nia). done.
Qed.

(** The logical partitions of a chain: numbered in order, inside the container. *)
Definition chained (base_ end_ number_ : Z) (output : list Partition) (r : Z * list Partition) : Prop :=
  ∃ new, r.2 = output ++ new ∧ r.1 = number_ + Z.of_nat (length new) ∧
    (number <$> new) = (λ i, number_ + Z.of_nat i) <$> seq 0 (length new) ∧
    Forall (λ p, fields_ok p ∧ base_ ≤ first p ∧ first p + blocks p ≤ end_) new.

Lemma chained_nil base_ end_ n output : chained base_ end_ n output (n, output).
Proof using. exists []. rewrite app_nil_r. simpl. split_and!; [done|lia|done|constructor]. Qed.
Lemma chained_cons base_ end_ n output p r :
  number p = n → fields_ok p → base_ ≤ first p → first p + blocks p ≤ end_ →
  chained base_ end_ (n + 1) (output ++ [p]) r → chained base_ end_ n output r.
Proof using.
  intros Hn Hf H1 H2 (new & E1 & E2 & E3 & E4). exists (p :: new). rewrite E1, E2, <- (assoc_L app). simpl.
  split_and!; [done|lia| |constructor; done]. rewrite Hn, Z.add_0_r. f_equal. etrans; [exact E3|].
  rewrite <- seq_shift. change (map S) with (fmap (M := list) S). rewrite <- list_fmap_compose. apply list_fmap_ext. intros _ i _. simpl. lia.
Qed.

Lemma ebr_loop_spec base_ end_ : 0 ≤ base_ → end_ ≤ block_count d → ∀ links relative visited n output s o,
  bytes_ok s → 0 ≤ relative →
  wp (ebr_loop links d (Z.to_nat bs) base_ end_ relative visited n output)
    (λ r s' o', clean s s' ∧ ∀ x, r = Ok x → chained base_ end_ n output x) s o.
Proof using Hbs Hd.
  intros Hb0 Hend. destruct (device_facts bs Hbs d Hd) as (_ & Hc & H64 & _). unfold MAX_LOGICAL_BLOCK_SIZE in Hbs.
  induction links as [|links IH]; intros relative visited n output s o Hbytes Hrel; cbn [ebr_loop]; [wp_steps; by split|].
  apply wp_bind_res, wp_ret. unfold checked_add, ok_or. case_decide as Ha; [|by split].
  set (lba := base_ + relative) in *. destruct (_ || _) eqn:Eg; [wp_steps; by split|].
  rewrite !orb_false_iff in Eg. destruct Eg as [[_ Hlt%Z.leb_gt] _].
  apply wp_bind_res. eapply wp_mono; [apply read_fresh_spec; unfold u32_max; lia|].
  intros [sector|e] s1 o1 [Hcl Hsec]; [|by split]. destruct (negb (boot_signature sector)); [wp_steps; by split|].
  assert (Forall is_byte sector ∧ length sector = Z.to_nat bs) as [Hsb Hsl].
  { subst sector. split; [by apply contents_bytes|apply length_contents]. }
  set (logical := slice sector 446 462). set (link := slice sector 462 478).
  assert (length logical = 16%nat ∧ length link = 16%nat) as [Hl1 Hl2] by (unfold logical, link; rewrite !length_slice by lia; lia).
  assert (Forall is_byte logical ∧ Forall is_byte link) as [Hlb1 Hlb2] by (split; by apply slice_bytes).
  rewrite !le32_spec by lia. pose proof (of_le_slice logical 8 4 Hlb1) as B1. pose proof (of_le_slice logical 12 4 Hlb1) as B2.
  pose proof (of_le_slice link 8 4 Hlb2) as B3. simpl Nat.add in *. change (256 ^ Z.of_nat 4) with 4294967296 in *.
  set (rel := of_le (slice logical 8 12)) in *. set (cnt := of_le (slice logical 12 16)) in *.
  apply wp_bind_res, wp_ret, wp_bind_res, wp_ret.
  (* the rest of the chain, from the output with this record's partition *)
  assert (∀ n' output', wp (if negb (is_extended (nth 4 link 0)) then ret (Ok (n', output'))
      else let! count := ret (Ok (of_le (slice link 12 16))) in
        if count =? 0 then ret (Ok (n', output'))
        else let! relative := ret (Ok (of_le (slice link 8 12))) in
          ebr_loop links d (Z.to_nat bs) base_ end_ relative (visited ++ [lba]) n' output')
      (λ r s' o', clean s s' ∧ ∀ x, r = Ok x → chained base_ end_ n' output' x) s1 o1) as Hrest.
  { intros n' output'. destruct (negb _); [wp_steps; split; [done|]; intros x [= <-]; apply chained_nil|].
    apply wp_bind_res, wp_ret. destruct (_ =? 0); [wp_steps; split; [done|]; intros x [= <-]; apply chained_nil|].
    apply wp_bind_res, wp_ret. eapply wp_mono; [apply IH; [by eapply clean_bytes|lia]|]. intros r s' o' [Hcl' Hr].
    split; [by eapply clean_trans|done]. }
  apply wp_bind_res, wp_ret. destruct (negb _ && negb _ && negb _); [|apply Hrest].
  case_decide as Hf64; cbn [result_bind]; [|by split].
  destruct (Z.ltb_spec (lba + rel) base_); [by split|]. cbn [orb]. case_decide as He64; [|by split].
  destruct (Z.ltb_spec end_ (lba + rel + cnt)); [by split|].
  eapply wp_mono; [apply Hrest|]. intros r s' o' [Hcl' Hr]. split; [done|]. intros x Hx.
  eapply chained_cons; [| | | |by apply Hr]; [done|unfold fields_ok; simpl; lia|simpl; lia|simpl; lia].
Qed.

(** The numbers of the MBR's partitions: the primary ones by their entry, the
    logical ones from 5. *)
Definition mbr_ok (index : nat) (logical : Z) (output : list Partition) : Prop :=
  NoDup (number <$> output) ∧ 5 ≤ logical ∧
  Forall (λ p, fields_ok p ∧ (1 ≤ number p ≤ Z.of_nat index ∨ 5 ≤ number p < logical)) output.

Lemma mbr_ok_primary index logical output p :
  (index < 4)%nat → mbr_ok index logical output → fields_ok p → number p = Z.of_nat index + 1 → mbr_ok (index + 1) logical (output ++ [p]).
Proof using.
  intros Hi (Hn & Hl & Ho) Hp Ep. split_and!; [|done|].
  - rewrite fmap_app. apply NoDup_app. split_and!; [done| |apply NoDup_singleton].
    intros x Hx Hin%list_elem_of_singleton. apply list_elem_of_fmap in Hx as (q & -> & Hq). rewrite Forall_forall in Ho.
    destruct (Ho q Hq) as [_ Hr]. lia.
  - apply Forall_app. split; [|constructor; [split; [done|lia]|constructor]]. eapply Forall_impl; [exact Ho|]. intros q [? ?]. split; [done|lia].
Qed.
Lemma mbr_ok_chained index logical output base_ end_ r :
  (index < 4)%nat → mbr_ok index logical output → chained base_ end_ logical output r → mbr_ok (index + 1) r.1 r.2.
Proof using.
  intros Hi (Hn & Hl & Ho) (new & -> & -> & Hnum & Hnew). rewrite Forall_forall in Ho, Hnew.
  assert (∀ q, q ∈ new → logical ≤ number q < logical + Z.of_nat (length new)) as Hrange.
  { intros q Hq. assert (number q ∈ number <$> new) as Hm by (apply list_elem_of_fmap; by exists q). rewrite Hnum in Hm.
    apply list_elem_of_fmap in Hm as (i & -> & Hi'%elem_of_seq). lia. }
  split_and!; [|lia|].
  - rewrite fmap_app. apply NoDup_app. split_and!; [done| |].
    + intros x Hx Hy. apply list_elem_of_fmap in Hx as (p & -> & Hp), Hy as (q & E & Hq).
      destruct (Ho p Hp) as [_ ?]. specialize (Hrange q Hq). lia.
    + rewrite Hnum. apply NoDup_fmap_2; [intros i j; lia|apply NoDup_seq].
  - apply Forall_app. split; apply Forall_forall; intros q Hq.
    + destruct (Ho q Hq). split; [done|lia].
    + destruct (Hnew q Hq) as [? _]. specialize (Hrange q Hq). split; [done|lia].
Qed.
Lemma mbr_ok_skip index logical output : mbr_ok index logical output → mbr_ok (index + 1) logical output.
Proof using. intros (? & ? & Ho). split_and!; [done|done|]. eapply Forall_impl; [exact Ho|]. intros p [? ?]. split; [done|lia]. Qed.

Lemma mbr_loop_spec sector : length sector = Z.to_nat bs → Forall is_byte sector → ∀ n index logical output s o,
  (index + n = 4)%nat → bytes_ok s → mbr_ok index logical output →
  wp (mbr_loop n index d (Z.to_nat bs) sector logical output)
    (λ r s' o', clean s s' ∧ ∀ out, r = Ok out → ∃ logical', mbr_ok 4 logical' out) s o.
Proof using Hbs Hd.
  intros Hsl Hsb. destruct (device_facts bs Hbs d Hd) as (_ & Hc & H64 & _). unfold MAX_LOGICAL_BLOCK_SIZE in Hbs.
  induction n as [|n IH]; intros index logical output s o Hi Hbytes Hok; cbn [mbr_loop].
  { wp_steps. split; [done|]. intros out [= <-]. exists logical. by replace 4%nat with index by lia. }
  set (entry := slice sector (446 + index * 16) (462 + index * 16)).
  assert (length entry = 16%nat) as Hle by (unfold entry; rewrite length_slice; lia).
  assert (Forall is_byte entry) as Hbe by (by apply slice_bytes). rewrite !le32_spec by lia.
  pose proof (of_le_slice entry 8 4 Hbe) as B1. pose proof (of_le_slice entry 12 4 Hbe) as B2. simpl Nat.add in *.
  change (256 ^ Z.of_nat 4) with 4294967296 in *. set (f := of_le (slice entry 8 12)) in *. set (c := of_le (slice entry 12 16)) in *.
  apply wp_bind_res, wp_ret, wp_bind_res, wp_ret. destruct (_ || _).
  { apply IH; [lia|done|by apply mbr_ok_skip]. }
  destruct (is_extended _).
  - apply wp_bind_res. unfold discover_ebr. apply wp_bind_res, wp_ret. unfold checked_add. case_decide; [|by split].
    destruct (Z.leb_spec (f + c) (block_count d)); [|by split].
    eapply wp_mono; [apply (ebr_loop_spec f (f + c)); [lia|lia|done|lia]|]. intros [[n' out']|e] s1 o1 [Hcl Hr]; [|by split].
    eapply wp_mono; [apply IH; [lia|by eapply clean_bytes|]|].
    + eapply mbr_ok_chained; [lia|exact Hok|by apply Hr].
    + intros r s' o' [Hcl' Hr']. split; [by eapply clean_trans|done].
  - apply IH; [lia|done|]. destruct (negb _); [|by apply mbr_ok_skip].
    apply mbr_ok_primary; [lia|done|unfold fields_ok; simpl; lia|done].
Qed.

Lemma discover_spec s o :
  bytes_ok s →
  wp (discover d) (λ r s' o', clean s s' ∧ ∀ ps, r = Ok ps → discovered ps) s o.
Proof using Hbs Hd.
  intros Hb. destruct (device_facts bs Hbs d Hd) as (Ebs & Hc & H64 & _). pose proof Hbs as Hbs'. unfold MAX_LOGICAL_BLOCK_SIZE in Hbs'.
  unfold discover. rewrite Ebs. destruct (_ <? 512)%nat; [wp_steps; by split|]. apply wp_bind_res.
  eapply wp_mono; [apply read_fresh_spec; unfold u32_max; lia|]. intros [sector|e] s1 o1 [Hcl Hsec]; [|by split].
  assert (bytes_ok s1) as Hb1 by (by eapply clean_bytes). destruct (negb (boot_signature sector)); [wp_steps; by split|].
  destruct (existsb _ _).
  - eapply wp_mono; [by apply discover_gpt_spec|]. intros r s' o' [Hcl' Hr]. split; [by eapply clean_trans|]. intros ps Hps. by apply Hr.
  - unfold discover_mbr. apply wp_bind_res. eapply wp_mono; [apply (mbr_loop_spec sector); try done|].
    + subst sector. apply length_contents.
    + subst sector. by apply contents_bytes.
    + split_and!; [constructor|lia|constructor].
    + intros [out|e] s' o' [Hcl' Hr]; [|split; [by eapply clean_trans|done]]. destruct (Hr out eq_refl) as (l' & Hn & _ & Hf).
      case_bool_decide; wp_steps; (split; [by eapply clean_trans|]); [done|]. intros ps Hps.
      apply (validated_ok out); [eapply Forall_impl; [exact Hf|by intros p [? _]]|done|done].
Qed.
End discover.

(** ** The CRC that guards the GPT ([crc32] of [fs/partition.rs]): linear over the
    bits, injective on every window of 32 bits, so that a change confined to
    four consecutive bytes never goes unnoticed. *)

Definition is_u32 (x : Z) : Prop := 0 ≤ x < 4294967296.

Lemma crc_bit_eq x : crc_bit x = Z.lxor (Z.shiftr x 1) (if Z.odd x then CRC_POLYNOMIAL else 0).
Proof.
  unfold crc_bit. f_equal. assert (Z.land x 1 = if Z.odd x then 1 else 0) as ->.
  { etrans; [apply (Z.land_ones x 1); lia|]. change (2 ^ 1) with 2. apply Zmod_odd. }
  by destruct (Z.odd x).
Qed.

Lemma crc_bit_lxor x y : crc_bit (Z.lxor x y) = Z.lxor (crc_bit x) (crc_bit y).
Proof.
  rewrite !crc_bit_eq. rewrite Z.shiftr_lxor. assert (Z.odd (Z.lxor x y) = xorb (Z.odd x) (Z.odd y)) as ->.
  { rewrite <- !Z.bit0_odd. apply Z.lxor_spec. }
  apply Z.bits_inj'. intros n Hn. rewrite !Z.lxor_spec.
  destruct (Z.odd x), (Z.odd y); cbn [xorb]; rewrite ?Z.bits_0; destruct (Z.testbit (Z.shiftr x 1) n), (Z.testbit (Z.shiftr y 1) n);
    destruct (Z.testbit CRC_POLYNOMIAL n); reflexivity.
Qed.
Lemma crc_bit_shift x : crc_bit (Z.shiftl x 1) = x.
Proof.
  rewrite crc_bit_eq. rewrite Z.shiftl_mul_pow2 by lia. change (2 ^ 1) with 2.
  rewrite Z.odd_mul, andb_false_r, Z.lxor_0_r. rewrite Z.shiftr_div_pow2 by lia. apply Z.div_mul. lia.
Qed.
Lemma crc_bits_lxor n x y : Nat.iter n crc_bit (Z.lxor x y) = Z.lxor (Nat.iter n crc_bit x) (Nat.iter n crc_bit y).
Proof. induction n as [|n IH]; [done|]. simpl. by rewrite IH, crc_bit_lxor. Qed.
Lemma crc_bits_shift n x : Nat.iter n crc_bit (Z.shiftl x (Z.of_nat n)) = x.
Proof.
  revert x. induction n as [|n IH]; intros x; [apply Z.shiftl_0_r|]. rewrite Nat.iter_succ_r, Nat2Z.inj_succ.
  replace (Z.shiftl x (Z.succ (Z.of_nat n))) with (Z.shiftl (Z.shiftl x (Z.of_nat n)) 1) by (rewrite Z.shiftl_shiftl by lia; f_equal; lia).
  by rewrite crc_bit_shift.
Qed.

Lemma u32_bits x : is_u32 x ↔ 0 ≤ x ∧ ∀ n, 32 ≤ n → Z.testbit x n = false.
Proof.
  unfold is_u32. split.
  - intros Hx. split; [lia|]. intros n Hn. destruct (decide (x = 0)) as [->|]; [apply Z.bits_0|].
    apply Z.bits_above_log2; [lia|]. apply Z.log2_lt_pow2; [lia|]. assert (2 ^ 32 ≤ 2 ^ n) by (apply Z.pow_le_mono_r; lia).
    change (2 ^ 32) with 4294967296 in *. lia.
  - intros [Hx Hn]. split; [done|]. assert (x = x mod 2 ^ 32) as ->; [|apply Z.mod_pos_bound; lia].
    rewrite <- Z.land_ones by lia. apply Z.bits_inj'. intros n Hn0. rewrite Z.land_spec, Z.testbit_ones_nonneg by lia.
    destruct (Z.ltb_spec n 32); [by rewrite andb_true_r|]. by rewrite Hn by lia.
Qed.
Lemma u32_lxor x y : is_u32 x → is_u32 y → is_u32 (Z.lxor x y).
Proof.
  rewrite !u32_bits. intros [? Hx] [? Hy]. split; [by apply Z.lxor_nonneg|]. intros n Hn. by rewrite Z.lxor_spec, Hx, Hy.
Qed.
Lemma crc_bit_u32 x : is_u32 x → is_u32 (crc_bit x).
Proof.
  intros Hx. rewrite crc_bit_eq. apply u32_lxor.
  - unfold is_u32 in *. rewrite Z.shiftr_div_pow2 by lia. change (2 ^ 1) with 2. split; [apply Z.div_pos; lia|]. apply Z.div_lt_upper_bound; lia.
  - destruct (Z.odd x); unfold is_u32, CRC_POLYNOMIAL; lia.
Qed.
Lemma crc_bits_u32 n x : is_u32 x → is_u32 (Nat.iter n crc_bit x).
Proof. intros Hx. induction n as [|n IH]; [done|]. simpl. by apply crc_bit_u32. Qed.

(** The top bit of the next state is the bit shifted out. *)
Lemma crc_bit_inj x y : is_u32 x → is_u32 y → crc_bit x = crc_bit y → x = y.
Proof.
  intros Hx Hy E. assert (∀ z, is_u32 z → Z.testbit (crc_bit z) 31 = Z.odd z) as Htop.
  { intros z [_ Hz]%u32_bits. rewrite crc_bit_eq, Z.lxor_spec, Z.shiftr_spec by lia. rewrite Hz by lia. by destruct (Z.odd z). }
  assert (Z.odd x = Z.odd y) as Ho by (rewrite <- !Htop by done; by rewrite E).
  rewrite !crc_bit_eq, Ho in E. set (k := if Z.odd y then CRC_POLYNOMIAL else 0) in *.
  assert (Z.shiftr x 1 = Z.shiftr y 1) as Es.
  { rewrite <- (Z.lxor_0_r (Z.shiftr x 1)), <- (Z.lxor_0_r (Z.shiftr y 1)), <- (Z.lxor_nilpotent k), <- !Z.lxor_assoc. by rewrite E. }
  rewrite !Z.shiftr_div_pow2 in Es by lia. change (2 ^ 1) with 2 in Es.
  rewrite (Z.div_mod x 2), (Z.div_mod y 2), Es, !Zmod_odd, Ho by lia. done.
Qed.
Lemma crc_bits_inj n x y : is_u32 x → is_u32 y → Nat.iter n crc_bit x = Nat.iter n crc_bit y → x = y.
Proof.
  intros Hx Hy. induction n as [|n IH]; [done|]. simpl. intros E. apply IH, crc_bit_inj; [by apply crc_bits_u32|by apply crc_bits_u32|done].
Qed.

Lemma byte_u32 b : is_byte b → is_u32 b.
Proof. unfold is_byte, is_u32. lia. Qed.
Lemma crc_byte_u32 c b : is_u32 c → is_byte b → is_u32 (crc_byte c b).
Proof. intros Hc Hb. apply crc_bits_u32, u32_lxor; [done|by apply byte_u32]. Qed.
Lemma crc_fold_u32 l c : is_u32 c → Forall is_byte l → is_u32 (foldl crc_byte c l).
Proof. revert c. induction l as [|b l IH]; intros c Hc Hl; [done|]. inversion Hl; subst. simpl. apply IH; [by apply crc_byte_u32|done]. Qed.
Lemma crc_fold_inj l c c' : is_u32 c → is_u32 c' → Forall is_byte l → foldl crc_byte c l = foldl crc_byte c' l → c = c'.
Proof.
  revert c c'. induction l as [|b l IH]; intros c c' Hc Hc' Hl E; [done|]. inversion Hl as [|? ? Hb Hl']; subst. simpl in E.
  apply IH in E; [|by apply crc_byte_u32|by apply crc_byte_u32|done].
  apply crc_bits_inj in E; [|apply u32_lxor; [done|by apply byte_u32]|apply u32_lxor; [done|by apply byte_u32]].
  rewrite <- (Z.lxor_0_r c), <- (Z.lxor_0_r c'), <- (Z.lxor_nilpotent b), <- !Z.lxor_assoc. by rewrite E.
Qed.

Lemma lxor_byte b x : is_byte b → b + 256 * x = Z.lxor b (Z.shiftl x 8).
Proof.
  intros Hb. rewrite Z.shiftl_mul_pow2 by lia. change (2 ^ 8) with 256. rewrite Z.mul_comm.
  rewrite <- Z.add_nocarry_lxor; [done|]. apply Z.bits_inj'. intros n Hn. rewrite Z.land_spec, Z.bits_0.
  change 256 with (2 ^ 8). destruct (decide (n < 8)).
  - rewrite (Z.mul_pow2_bits_low x 8 n) by done. apply andb_false_r.
  - rewrite (Z.bits_above_log2 b n); [done|unfold is_byte in Hb; lia|].
    destruct (decide (b = 0)) as [->|]; [simpl; lia|]. apply Z.log2_lt_pow2; [unfold is_byte in Hb; lia|].
    assert (2 ^ 8 ≤ 2 ^ n) by (apply Z.pow_le_mono_r; lia). change (2 ^ 8) with 256 in *. unfold is_byte in Hb. lia.
Qed.

(** Bytes one at a time are their little-endian word, bit by bit. *)
Lemma crc_word l : ∀ c, Forall is_byte l → foldl crc_byte c l = Nat.iter (8 * length l) crc_bit (Z.lxor c (of_le l)).
Proof.
  induction l as [|b l IH]; intros c Hl; [simpl; by rewrite Z.lxor_0_r|]. inversion Hl as [|? ? Hb Hl']; subst.
  cbn [foldl length]. rewrite IH by done. replace (8 * S (length l))%nat with (8 * length l + 8)%nat by lia.
  rewrite Nat.iter_add. f_equal. unfold crc_byte. cbn [of_le]. rewrite lxor_byte by done.
  rewrite <- Z.lxor_assoc, (crc_bits_lxor 8 (Z.lxor c b)). f_equal. symmetry. apply (crc_bits_shift 8).
Qed.

(** A change within four consecutive bytes changes the CRC. *)
Theorem crc32_detects_burst (pre post l l' : list Z)
    (Hpre : Forall is_byte pre) (Hpost : Forall is_byte post) (Hl : Forall is_byte l) (Hl' : Forall is_byte l')
    (Hlen : length l = length l') (Hburst : (length l ≤ 4)%nat) (Hne : l ≠ l') :
  crc32 (pre ++ l ++ post) ≠ crc32 (pre ++ l' ++ post).
Proof.
  intros E. unfold crc32, u32_not in E. rewrite !foldl_app in E. change (4294967295 - 0) with 4294967295 in E.
  set (c := foldl crc_byte 4294967295 pre) in E.
  assert (is_u32 c) as Hc by (apply crc_fold_u32; [unfold is_u32; lia|done]).
  assert (∀ w, Forall is_byte w → (length w ≤ 4)%nat → is_u32 (of_le w)) as Hw.
  { intros w Hb Hn. pose proof (of_le_bound w Hb). unfold is_u32.
    assert (256 ^ Z.of_nat (length w) ≤ 256 ^ 4) by (apply Z.pow_le_mono_r; lia). change (256 ^ 4) with 4294967296 in *. lia. }
  assert (foldl crc_byte c l = foldl crc_byte c l') as E1.
  { apply (crc_fold_inj post); [by apply crc_fold_u32|by apply crc_fold_u32|done|lia]. }
  rewrite !crc_word, Hlen in E1 by done.
  apply crc_bits_inj in E1; [|apply u32_lxor; [done|by apply Hw]|apply u32_lxor; [done|apply Hw; [done|lia]]].
  assert (of_le l = of_le l') as E2.
  { rewrite <- (Z.lxor_0_l (of_le l)), <- (Z.lxor_0_l (of_le l')), <- (Z.lxor_nilpotent c), !Z.lxor_assoc. by rewrite E1. }
  apply Hne. rewrite <- (to_of_le l), <- (to_of_le l') by done. by rewrite Hlen, E2.
Qed.
Lemma crc32_detects_burst_witness : crc32 ([1; 2] ++ [3; 4] ++ [5]) ≠ crc32 ([1; 2] ++ [3; 5] ++ [5]).
Proof. apply crc32_detects_burst; try done; repeat constructor; done. Defined.
(** The check value of the polynomial, and the CRC of nothing. *)
Lemma crc32_check : crc32 [49; 50; 51; 52; 53; 54; 55; 56; 57] = 0xcbf43926 ∧ crc32 [] = 0.
Proof. split; reflexivity. Qed.
