(* ===== verification/Path.v ===== *)
(** VFS paths ([fs/path.rs]): the component iterator, validation and the split
    into parent and final component.

    [components_of] is the reference definition: the maximal runs of bytes
    other than the separator, in order. *)
From S2P Require Import Prelude.
From S2P Require Import Bytes.
From S2P Require Import FsError.
Open Scope rust_scope.

Definition MAX_PATH_LEN : nat := 4096.
Definition MAX_NAME_LEN : nat := 255.
Definition slash : Z := 47.
Definition dot : Z := 46.

(** ** The code *)

Record Components : Type := mkComponents { path : list Z; position : nat }.
Definition components_new (p : list Z) : Components := mkComponents p 0.

(** [while position < path.len() && f(path[position]) { position += 1 }];
    the fuel is the number of bytes left. *)
Fixpoint advance (f : Z → bool) (fuel : nat) (p : list Z) (position : nat) : nat :=
  match fuel with
  | O => position
  | S fuel =>
      match p !! position with
      | Some b => if f b then advance f fuel p (S position) else position
      | None => position
      end
  end.

(** [Components::next] *)
Definition next (c : Components) : option (list Z) * Components :=
  let p := path c in
  let start := advance (Z.eqb slash) (length p - position c) p (position c) in
  if (start =? length p)%nat then (None, mkComponents p start)
  else
    let end_ := advance (λ b, negb (slash =? b)) (length p - start) p start in
    (Some (slice p start end_), mkComponents p end_).

(** [Components::peek] *)
Definition peek (c : Components) : option (list Z) := (next c).1.

Definition contains (b : Z) (l : list Z) : bool := existsb (Z.eqb b) l.

Definition validate_path (p : list Z) : result Error () :=
  if (MAX_PATH_LEN <? length p)%nat then Err NameTooLong
  else if bool_decide (p = []) || contains 0 p then Err InvalidArgument
  else Ok ().

Definition validate_name (name : list Z) : result Error () :=
  if (MAX_NAME_LEN <? length name)%nat then Err NameTooLong
  else if bool_decide (name = []) || contains 0 name || contains slash name then Err InvalidArgument
  else Ok ().

Definition validate_leaf_name (name : list Z) : result Error () :=
  let? _ := validate_name name in
  if bool_decide (name = [dot]) || bool_decide (name = [dot; dot]) then Err InvalidArgument
  else Ok ().

Definition validate_symlink_target (target : list Z) : result Error () :=
  if bool_decide (target = []) || contains 0 target then Err InvalidArgument
  else if (MAX_PATH_LEN <? length target)%nat then Err NameTooLong
  else Ok ().

(** [for component in Components::new(path) { validate_name(component)? }] *)
Fixpoint validate_components (fuel : nat) (c : Components) : result Error () :=
  match fuel with
  | O => Ok ()
  | S fuel =>
      match next c with
      | (None, _) => Ok ()
      | (Some component, c) =>
          let? _ := validate_name component in
          validate_components fuel c
      end
  end.

Record ParsedPath : Type := mkParsed {
  absolute : bool;
  trailing_slash : bool;
  components : Components;
}.

Definition parse (p : list Z) : result Error ParsedPath :=
  let? _ := validate_path p in
  let? _ := validate_components (S (length p)) (components_new p) in
  Ok (mkParsed (bool_decide (head p = Some slash)) (bool_decide (last p = Some slash)) (components_new p)).

Record ParentPath : Type := mkParent {
  parent : list Z;
  name : list Z;
  parent_trailing_slash : bool;
}.

(** [while end > 1 && path[end - 1] == b'/' { end -= 1 }] *)
Fixpoint trim (p : list Z) (end_ : nat) : nat :=
  match end_ with
  | S (S _ as e) => if bool_decide (p !! e = Some slash) then trim p e else end_
  | _ => end_
  end.

(** [Iterator::rposition] *)
Fixpoint rposition (f : Z → bool) (l : list Z) : option nat :=
  match l with
  | [] => None
  | b :: l =>
      match rposition f l with
      | Some i => Some (S i)
      | None => if f b then Some O else None
      end
  end.

Definition split_parent (p : list Z) : result Error ParentPath :=
  let? _ := validate_path p in
  let trailing := bool_decide (last p = Some slash) in
  let end_ := trim p (length p) in
  let p := take end_ p in
  let '(parent, name) :=
    match rposition (Z.eqb slash) p with
    | Some O => (take 1 p, drop 1 p)
    | Some index => (take index p, drop (index + 1) p)
    | None => ([dot], p)
    end in
  let? _ := validate_leaf_name name in
  Ok (mkParent parent name trailing).

(** ** The reference definition *)

Definition emit (cur : list Z) : list (list Z) := if decide (cur = []) then [] else [cur].
Fixpoint runs (cur l : list Z) : list (list Z) :=
  match l with
  | [] => emit cur
  | b :: l => if decide (b = slash) then emit cur ++ runs [] l else runs (cur ++ [b]) l
  end.
Definition components_of (p : list Z) : list (list Z) := runs [] p.

(** The components that iterating [next] yields. *)
Fixpoint collect (fuel : nat) (c : Components) : list (list Z) :=
  match fuel with
  | O => []
  | S fuel =>
      match next c with
      | (None, _) => []
      | (Some component, c) => component :: collect fuel c
      end
  end.

(** ** Lemmas *)

Lemma contains_In b l : contains b l = true ↔ b ∈ l.
Proof.
  unfold contains. rewrite existsb_exists. setoid_rewrite Z.eqb_eq. setoid_rewrite <- list_elem_of_In. naive_solver.
Qed.
Lemma contains_not_In b l : contains b l = false ↔ b ∉ l.
Proof. rewrite <- contains_In. by destruct (contains b l). Qed.

Lemma runs_run cur name l : slash ∉ name → runs cur (name ++ l) = runs (cur ++ name) l.
Proof.
  revert cur. induction name as [|b name IH]; intros cur Hn; simpl; [by rewrite app_nil_r|].
  apply not_elem_of_cons in Hn as [Hb Hn]. rewrite decide_False by done. rewrite IH by done.
  by rewrite <- (assoc_L app).
Qed.

(** What is left after a run: nothing, or a separator. *)
Definition at_boundary (l : list Z) : Prop := ∀ b, head l = Some b → b = slash.

Lemma components_run name l :
  name ≠ [] → slash ∉ name → at_boundary l → components_of (name ++ l) = name :: components_of l.
Proof.
  intros Hne Hn Hl. unfold components_of. rewrite runs_run by done. simpl.
  assert (emit name = [name]) as He by (unfold emit; by rewrite decide_False).
  destruct l as [|b l]; simpl; rewrite He; [done|]. by rewrite !decide_True by (by apply Hl).
Qed.

Lemma components_slashes pre l : Forall (λ b, b = slash) pre → components_of (pre ++ l) = components_of l.
Proof. induction 1 as [|b pre -> _ IH]; [done|]. apply IH. Qed.

Lemma components_app_slash l1 l2 : components_of (l1 ++ slash :: l2) = components_of l1 ++ components_of l2.
Proof.
  unfold components_of. generalize (@nil Z) at 1 2 as cur. induction l1 as [|b l1 IH]; intros cur; simpl.
  - done.
  - case_decide; [by rewrite IH, (assoc_L app)|apply IH].
Qed.

Lemma components_no_slash l : slash ∉ l → components_of l = emit l.
Proof. intros Hl. unfold components_of. rewrite <- (app_nil_r l), runs_run, app_nil_r by done. done. Qed.

Lemma emit_run cur : cur ≠ [] → emit cur = [cur].
Proof. intros. unfold emit. by rewrite decide_False. Qed.
Lemma runs_nonempty l : ∀ cur, cur ≠ [] → runs cur l ≠ [].
Proof.
  induction l as [|b l IH]; intros cur Hc; simpl; [by rewrite emit_run|].
  case_decide; [by rewrite emit_run|]. apply IH. by destruct cur.
Qed.
Lemma components_nil l : components_of l = [] → Forall (λ b, b = slash) l.
Proof.
  induction l as [|b l IH]; [done|]. unfold components_of. simpl. case_decide as Hb.
  - intros. constructor; [done|]. by apply IH.
  - intros Hr. exfalso. by eapply runs_nonempty; [|exact Hr].
Qed.

(** [advance] consumes the longest run accepted by [f]. *)
Lemma advance_spec f fuel p : ∀ position,
  (length p - position ≤ fuel)%nat → (position ≤ length p)%nat →
  ∃ pre rest, drop position p = pre ++ rest ∧ Forall (λ b, f b = true) pre ∧
    advance f fuel p position = (position + length pre)%nat ∧ (∀ b, head rest = Some b → f b = false).
Proof.
  induction fuel as [|fuel IH]; intros pos Hf Hp; simpl.
  - exists [], []. rewrite drop_ge by lia. split_and!; (done || (simpl; lia)).
  - destruct (p !! pos) as [b|] eqn:E.
    + rewrite (drop_S _ _ _ E). destruct (f b) eqn:Efb.
      * pose proof (lookup_lt_Some _ _ _ E). destruct (IH (S pos)) as (pre & rest & Hd & Hpre & Ha & Hr); [lia|lia|].
        exists (b :: pre), rest. rewrite Hd. split_and!; try done; [by constructor|]. rewrite Ha. simpl. lia.
      * exists [], (b :: drop (S pos) p). split_and!; try done. intros b' [= <-]. done.
    + apply lookup_ge_None in E. exists [], []. rewrite drop_ge by lia. split_and!; (done || (simpl; lia)).
Qed.

(** [next] takes the first component of what is left. *)
Lemma components_next_spec p pos : (pos ≤ length p)%nat →
  match next (mkComponents p pos) with
  | (None, _) => components_of (drop pos p) = []
  | (Some name, c) => path c = p ∧ (pos < position c ≤ length p)%nat ∧
      components_of (drop pos p) = name :: components_of (drop (position c) p)
  end.
Proof.
  intros Hp. unfold next. cbn [path position].
  destruct (advance_spec (Z.eqb slash) (length p - pos) p pos) as (sl & rest & Hd & Hsl & Ha & Hr); [lia|lia|].
  rewrite Ha. set (start := (pos + length sl)%nat).
  assert (length p = pos + length sl + length rest)%nat as Hlen.
  { rewrite <- (take_drop pos p) at 1. rewrite Hd, !length_app, length_take. lia. }
  assert (drop start p = rest) as Hd1.
  { unfold start. rewrite <- drop_drop, Hd. rewrite drop_app_length. done. }
  assert (components_of (drop pos p) = components_of rest) as Hc.
  { rewrite Hd. apply components_slashes. eapply Forall_impl; [exact Hsl|]. intros b ?%Z.eqb_eq. done. }
  destruct (Nat.eqb_spec start (length p)) as [E|E].
  - rewrite Hc. destruct rest; [done|]. exfalso. simpl in Hlen. unfold start in E. lia.
  - destruct (advance_spec (λ b, negb (slash =? b)) (length p - start) p start) as (nm & rest' & Hd' & Hnm & Ha' & Hr');
      [lia|unfold start; lia|]. rewrite Ha'. rewrite Hd1 in Hd'. cbn [path position].
    assert (nm ≠ []) as Hne.
    { intros ->. simpl in Hd'. subst rest'. destruct rest as [|b rest]; [simpl in Hlen; unfold start in E; lia|].
      specialize (Hr b eq_refl). specialize (Hr' b eq_refl). by rewrite Hr in Hr'. }
    assert (slice p start (start + length nm) = nm) as ->.
    { unfold slice. replace (start + length nm - start)%nat with (length nm) by lia. rewrite Hd1, Hd'. apply take_app_length. }
    assert (drop (start + length nm) p = rest') as ->.
    { rewrite <- drop_drop, Hd1, Hd'. apply drop_app_length. }
    split; [done|]. split.
    { rewrite Hd', length_app in Hlen. destruct nm; [done|]. simpl in *. unfold start. lia. }
    rewrite Hc, Hd'. apply components_run; [done| |].
    + intros Hin. rewrite Forall_forall in Hnm. specialize (Hnm _ Hin). by rewrite Z.eqb_refl in Hnm.
    + intros b Hb. specialize (Hr' b Hb). apply negb_false_iff, Z.eqb_eq in Hr'. done.
Qed.

Lemma collect_spec fuel p : ∀ pos, (pos ≤ length p)%nat → (length p - pos < fuel)%nat →
  collect fuel (mkComponents p pos) = components_of (drop pos p).
Proof.
  induction fuel as [|fuel IH]; intros pos Hp Hf; [lia|]. simpl. pose proof (components_next_spec p pos Hp) as Hn.
  destruct (next _) as [[nm|] [p' pos']]; simpl in *; [|done]. destruct Hn as (-> & Hpos & ->).
  rewrite IH; [done|lia|lia].
Qed.

(** The first name that is refused, if any. *)
Fixpoint validate_all (l : list (list Z)) : result Error () :=
  match l with
  | [] => Ok ()
  | n :: l => let? _ := validate_name n in validate_all l
  end.
Lemma validate_components_spec fuel p : ∀ pos, (pos ≤ length p)%nat → (length p - pos < fuel)%nat →
  validate_components fuel (mkComponents p pos) = validate_all (components_of (drop pos p)).
Proof.
  induction fuel as [|fuel IH]; intros pos Hp Hf; [lia|]. simpl. pose proof (components_next_spec p pos Hp) as Hn.
  destruct (next _) as [[nm|] [p' pos']]; simpl in *; [|by rewrite Hn]. destruct Hn as (-> & Hpos & ->). simpl.
  destruct (validate_name nm); simpl; [|done]. apply IH; lia.
Qed.

(** Components are not empty and hold bytes of the path, no separator. *)
Lemma components_wf p n : n ∈ components_of p → n ≠ [] ∧ (slash ∉ n) ∧ (∀ b, b ∈ n → b ∈ p).
Proof.
  assert (∀ l cur, slash ∉ cur → n ∈ runs cur l → n ≠ [] ∧ (slash ∉ n) ∧ (∀ b, b ∈ n → b ∈ cur ∨ b ∈ l)) as H.
  { assert (∀ cur, slash ∉ cur → n ∈ emit cur → n ≠ [] ∧ (slash ∉ n) ∧ (∀ b, b ∈ n → b ∈ cur)) as He.
    { intros cur Hc. unfold emit. case_decide; [by intros ?%not_elem_of_nil|]. by intros ->%list_elem_of_singleton. }
    induction l as [|b l IH]; intros cur Hc; simpl; [intros Hn; destruct (He cur Hc Hn) as (?&?&?); naive_solver|].
    case_decide as Hb.
    - rewrite elem_of_app. intros [Hn|Hn]; [destruct (He cur Hc Hn) as (?&?&?); naive_solver|].
      destruct (IH [] ltac:(apply not_elem_of_nil) Hn) as (? & ? & Hin). split_and!; try done. intros b' Hb'.
      destruct (Hin b' Hb') as [?%not_elem_of_nil|]; [done|]. right. by right.
    - intros Hn. destruct (IH (cur ++ [b])) as (? & ? & Hin); [|done|].
      { rewrite elem_of_app, list_elem_of_singleton. naive_solver. }
      split_and!; try done. intros b' Hb'. destruct (Hin b' Hb') as [Hc'|]; [|right; by right].
      apply elem_of_app in Hc' as [?|Hb1]; [by left|]. apply list_elem_of_singleton in Hb1 as ->. right; left. }
  intros Hn. destruct (H p [] ltac:(apply not_elem_of_nil) Hn) as (? & ? & Hin). split_and!; try done.
  intros b Hb. destruct (Hin b Hb) as [?%not_elem_of_nil|]; done.
Qed.

Definition plain (n : list Z) : Prop := n ≠ [] ∧ (0 ∉ n) ∧ (slash ∉ n).
Lemma validate_name_plain n :
  plain n → validate_name n = if (MAX_NAME_LEN <? length n)%nat then Err NameTooLong else Ok ().
Proof.
  intros (Hne & H0 & Hs). unfold validate_name. destruct (_ <? _)%nat; [done|].
  rewrite bool_decide_eq_false_2 by done. apply contains_not_In in H0, Hs. by rewrite H0, Hs.
Qed.
Lemma validate_all_spec l : Forall plain l →
  match validate_all l with
  | Ok _ => Forall (λ n, length n ≤ MAX_NAME_LEN)%nat l
  | Err e => e = NameTooLong ∧ Exists (λ n, MAX_NAME_LEN < length n)%nat l
  end.
Proof.
  induction 1 as [|n l Hn Hl IH]; simpl; [done|]. rewrite validate_name_plain by done.
  destruct (Nat.ltb_spec MAX_NAME_LEN (length n)); simpl; [by auto|].
  destruct (validate_all l); [by constructor|]. destruct IH as [-> ?]. auto.
Qed.
Lemma components_plain p : 0 ∉ p → Forall plain (components_of p).
Proof.
  intros H0. apply Forall_forall. intros n (? & ? & Hin)%components_wf. split_and!; try done. intros Hn. by apply H0, Hin.
Qed.

Lemma validate_path_spec p :
  match validate_path p with
  | Ok _ => (length p ≤ MAX_PATH_LEN)%nat ∧ p ≠ [] ∧ 0 ∉ p
  | Err e => (e = NameTooLong ∧ (MAX_PATH_LEN < length p)%nat) ∨ (e = InvalidArgument ∧ (p = [] ∨ 0 ∈ p))
  end.
Proof.
  unfold validate_path. destruct (Nat.ltb_spec MAX_PATH_LEN (length p)); [by left|].
  case_bool_decide; simpl; [by right; auto|]. destruct (contains 0 p) eqn:E.
  - right. rewrite contains_In in E. auto.
  - by rewrite contains_not_In in E.
Qed.

Lemma trim_spec p : ∀ e, (e ≤ length p)%nat →
  ∃ s, take e p = take (trim p e) p ++ s ∧ Forall (λ b, b = slash) s ∧ (trim p e ≤ e)%nat ∧ (0 < e → 0 < trim p e)%nat ∧
    ((1 < trim p e)%nat → last (take (trim p e) p) ≠ Some slash).
Proof.
  induction e as [|e IH]; intros He; simpl; [exists []; rewrite ?app_nil_r; split_and!; try done; lia|].
  destruct e as [|e]; [exists []; rewrite ?app_nil_r; split_and!; try done; lia|]. case_bool_decide as E.
  - destruct IH as (s & Hs & Hf & Hle & Hpos & Hl); [lia|]. exists (s ++ [slash]).
    rewrite (take_S_r _ _ _ E), Hs, <- (assoc_L app). split_and!; try done; [|lia|lia].
    apply Forall_app. split; [done|by repeat constructor].
  - exists []. rewrite app_nil_r. split_and!; try done. intros _.
    destruct (lookup_lt_is_Some_2 p (S e)) as [b Hb]; [lia|]. rewrite (take_S_r _ _ _ Hb), last_snoc. congruence.
Qed.

Lemma rposition_spec l :
  match rposition (Z.eqb slash) l with
  | Some i => l = take i l ++ slash :: drop (i + 1) l ∧ slash ∉ drop (i + 1) l
  | None => slash ∉ l
  end.
Proof.
  induction l as [|b l IH]; cbn [rposition]; [apply not_elem_of_nil|].
  destruct (rposition _ l) as [i|]; [cbn; destruct IH as [E ?]; split; [by rewrite E at 1|done]|].
  destruct (Z.eqb_spec slash b) as [<-|]; [cbn; by rewrite drop_0|]. by apply not_elem_of_cons.
Qed.

Lemma validate_leaf_spec n : 0 ∉ n → slash ∉ n →
  match validate_leaf_name n with
  | Ok _ => n ≠ [] ∧ (length n ≤ MAX_NAME_LEN)%nat ∧ n ≠ [dot] ∧ n ≠ [dot; dot]
  | Err e => (e = NameTooLong ∧ (MAX_NAME_LEN < length n)%nat) ∨
             (e = InvalidArgument ∧ (n = [] ∨ n = [dot] ∨ n = [dot; dot]))
  end.
Proof.
  intros H0 Hs. unfold validate_leaf_name. destruct (decide (n = [])) as [->|Hne]; [by right; auto|].
  rewrite validate_name_plain by done. destruct (Nat.ltb_spec MAX_NAME_LEN (length n)); simpl; [by left|].
  repeat case_bool_decide; simpl; naive_solver.
Qed.

(** ** Theorems *)

(** C36: iterating [Components::next] ends after at most one step per byte and
    yields the maximal separator-free runs of the path, in order. *)
Theorem components_iterate p :
  collect (S (length p)) (components_new p) = components_of p ∧
  ∀ n, n ∈ components_of p → n ≠ [] ∧ (slash ∉ n) ∧ (∀ b, b ∈ n → b ∈ p).
Proof.
  split; [|apply components_wf]. unfold components_new. rewrite collect_spec; [by rewrite drop_0|lia|lia].
Qed.

(** [parse] accepts exactly the non-empty paths without NUL, of at most
    4096 bytes, whose components have at most 255 bytes, and says which limit
    a refused path breaks. *)
Theorem parse_correct p :
  match parse p with
  | Ok r => (length p ≤ 4096)%nat ∧ p ≠ [] ∧ (0 ∉ p) ∧ Forall (λ n, length n ≤ 255)%nat (components_of p) ∧
      (absolute r = true ↔ head p = Some slash) ∧ (trailing_slash r = true ↔ last p = Some slash) ∧
      components r = components_new p
  | Err NameTooLong => (4096 < length p)%nat ∨ Exists (λ n, 255 < length n)%nat (components_of p)
  | Err InvalidArgument => p = [] ∨ 0 ∈ p
  | Err _ => False
  end.
Proof.
  unfold parse. pose proof (validate_path_spec p) as Hv. destruct (validate_path p) as [[]|e]; cbn [result_bind].
  - destruct Hv as (Hlen & Hne & H0). unfold components_new at 1. rewrite validate_components_spec, drop_0 by lia.
    pose proof (validate_all_spec _ (components_plain p H0)) as Ha.
    destruct (validate_all _) as [[]|e]; cbn; [|destruct Ha as [-> ?]; by right].
    rewrite !bool_decide_eq_true. split_and!; done.
  - destruct Hv as [[-> ?]|[-> ?]]; [by left|done].
Qed.

Lemma components_trim p :
  ∃ s, p = take (trim p (length p)) p ++ s ∧ Forall (λ b, b = slash) s ∧
    components_of p = components_of (take (trim p (length p)) p) ∧ (p ≠ [] → take (trim p (length p)) p ≠ []) ∧
    ((1 < length (take (trim p (length p)) p))%nat → last (take (trim p (length p)) p) ≠ Some slash).
Proof.
  destruct (trim_spec p (length p)) as (s & Hs & Hf & Hle & Hpos & Hlast); [done|].
  rewrite take_ge in Hs by done. exists s. split_and!; try done.
  - rewrite Hs at 1. destruct Hf as [|b s -> Hf]; [by rewrite app_nil_r|].
    rewrite components_app_slash. rewrite <- (app_nil_r s), components_slashes by done. by rewrite app_nil_r.
  - intros Hne. destruct p as [|b p']; [done|]. destruct (trim (b :: p') _) as [|e]; [simpl in Hpos; lia|done].
  - rewrite length_take. intros. apply Hlast. lia.
Qed.

(** Where the final component starts, and what precedes it. *)
Lemma split_at p : p ≠ [] →
  let q := take (trim p (length p)) p in
  let '(parent, name) :=
    match rposition (Z.eqb slash) q with
    | Some O => (take 1 q, drop 1 q)
    | Some index => (take index q, drop (index + 1) q)
    | None => ([dot], q)
    end in
  (slash ∉ name) ∧ (∀ b, b ∈ name → b ∈ p) ∧ (name = [] → components_of p = []) ∧
  ((parent = [dot] ∧ components_of p = emit name ∧ head p ≠ Some slash) ∨
   (components_of p = components_of parent ++ emit name ∧ head parent = head p)).
Proof.
  intros Hne q. destruct (components_trim p) as (s & Hp & _ & Hc & Hq & Hl). fold q in Hp, Hc, Hq, Hl. specialize (Hq Hne).
  assert (∀ b, b ∈ q → b ∈ p) as Hsub by (intros b Hb; rewrite Hp; apply elem_of_app; by left).
  assert (head q = head p) as Hh by (rewrite Hp; by destruct q).
  pose proof (rposition_spec q) as Hr. destruct (rposition _ q) as [[|i]|].
  - destruct Hr as [Eq Hn]. cbn [take Nat.add app] in Eq, Hn.
    assert (components_of q = components_of (drop 1 q)) as Hcq by (rewrite Eq at 1; apply (components_slashes [slash]); by repeat constructor).
    split; [done|]. split; [intros b Hb; apply Hsub; rewrite Eq; by right|]. split; [by intros Hnm; rewrite Hc, Hcq, Hnm|].
    right. rewrite Hc, Hcq, (components_no_slash (drop 1 q)) by done. rewrite <- Hh. split; [|by destruct q].
    by rewrite Eq.
  - destruct Hr as [Eq Hn]. split; [done|]. split.
    { intros b Hb. apply Hsub. rewrite Eq. apply elem_of_app. right. by right. }
    split; [|right; split].
    + intros Hnm. rewrite Hnm in Eq. exfalso. apply Hl; rewrite Eq; [|apply last_snoc].
      rewrite length_app, length_take. destruct (decide (q = [])); [done|]. destruct q as [|b [|b' q]]; simpl in *; [done| |lia].
      destruct i; simpl in Eq; congruence.
    + rewrite Hc. rewrite Eq at 1. by rewrite components_app_slash, (components_no_slash (drop _ q)).
    + rewrite <- Hh. by destruct q.
  - split; [done|]. split; [done|]. split; [done|]. left. split; [done|]. rewrite Hc. split; [by apply components_no_slash|].
    rewrite <- Hh. destruct q as [|b q']; [done|]. intros [= ->]. by apply Hr; left.
Qed.

(** [split_parent] separates the final component from the path of its
    directory: the components of the parent followed by the name are those of
    the path, an absolute path keeps an absolute parent, and a path with no
    usable final component is refused. *)
Theorem split_parent_correct p :
  match split_parent p with
  | Ok r => (parent_trailing_slash r = true ↔ last p = Some slash) ∧
      (length (name r) ≤ 255)%nat ∧ name r ≠ [dot] ∧ name r ≠ [dot; dot] ∧
      ((parent r = [dot] ∧ components_of p = [name r] ∧ head p ≠ Some slash) ∨
       (components_of p = components_of (parent r) ++ [name r] ∧ head (parent r) = head p))
  | Err NameTooLong => (4096 < length p)%nat ∨ ∃ n, last (components_of p) = Some n ∧ (255 < length n)%nat
  | Err InvalidArgument => p = [] ∨ 0 ∈ p ∨ Forall (λ b, b = slash) p ∨
      last (components_of p) = Some [dot] ∨ last (components_of p) = Some [dot; dot]
  | Err _ => False
  end.
Proof.
  unfold split_parent. pose proof (validate_path_spec p) as Hv.
  destruct (validate_path p) as [[]|e]; cbn [result_bind]; [|destruct Hv as [[-> ?]|[-> [?|?]]]; auto].
  destruct Hv as (_ & Hne & H0). pose proof (split_at p Hne) as Hs. cbv zeta in Hs |- *.
  destruct (match rposition _ _ with Some O => _ | Some _ => _ | None => _ end) as [par nm].
  destruct Hs as (Hn & Hin & Hemp & Hs). pose proof (validate_leaf_spec nm) as Hl.
  specialize (Hl ltac:(intros ?; by apply H0, Hin) Hn).
  assert (nm ≠ [] → last (components_of p) = Some nm) as Hlast.
  { intros Hnm. rewrite emit_run in Hs by done. destruct Hs as [(_ & -> & _)|[-> _]]; [done|apply last_snoc]. }
  destruct (validate_leaf_name nm) as [[]|e]; cbn.
  - destruct Hl as (Hnm & ? & ? & ?). rewrite emit_run in Hs by done. by rewrite bool_decide_eq_true.
  - destruct Hl as [[-> Hlen]|[-> [->|[->| ->]]]].
    + right. exists nm. split; [apply Hlast; intros ->; simpl in Hlen; lia|done].
    + right; right; left. by apply components_nil, Hemp.
    + do 3 right. left. by apply Hlast.
    + do 4 right. by apply Hlast.
Qed.
