(* ===== verification/Tags.v ===== *)
(** Boundary tags as a finite map: the abstract arena that [Vmem.v] implements.

    A tag is a maximal run of addresses in one state; [take_tags] carves an
    allocation out of a free tag and [absorb] merges a tag into the one before
    it.  Their effect on the allocations, on the free addresses and on the byte
    counters is stated here, without lists, bitmaps or nodes. *)
From S2P Require Import Prelude.

Record Tag : Type := mkTag { t_size : Z; t_span : Z; t_free : bool }.

(** The allocations of an arena: base and length. *)
Definition alloc_of (t : Tag) : option Z := if t_free t then None else Some (t_size t).
Definition allocs (A : gmap Z Tag) : gmap Z Z := omap alloc_of A.
Definition used_size (t : Tag) : Z := if t_free t then 0 else t_size t.

(** The addresses that are free, and those the arena manages. *)
Definition inside (b : Z) (t : Tag) (a : Z) : Prop := b ≤ a < b + t_size t.
Definition free_at (A : gmap Z Tag) (a : Z) : Prop :=
  ∃ b t, A !! b = Some t ∧ t_free t = true ∧ inside b t a.
Definition managed (A : gmap Z Tag) (a : Z) : Prop :=
  ∃ b t, A !! b = Some t ∧ inside b t a.

(** Well-formed tags: aligned, non-empty, below [u64::MAX], disjoint. *)
Record tags_wf (q : Z) (A : gmap Z Tag) : Prop := {
  wf_tag b t : A !! b = Some t →
    0 ≤ b ∧ 0 < t_size t ∧ b + t_size t < two64 ∧ b mod q = 0 ∧ t_size t mod q = 0;
  wf_disjoint b1 t1 b2 t2 :
    A !! b1 = Some t1 → A !! b2 = Some t2 → b1 < b2 → b1 + t_size t1 ≤ b2;
}.

(** No two neighbours of one span are both free. *)
Definition coalesced (A : gmap Z Tag) : Prop :=
  ∀ b1 t1 b2 t2, A !! b1 = Some t1 → A !! b2 = Some t2 →
    t_free t1 = true → t_free t2 = true → t_span t1 = t_span t2 → b1 + t_size t1 ≠ b2.

(** A span is named by its first address, which stays managed. *)
Definition spans_ok (A : gmap Z Tag) : Prop :=
  ∀ b t, A !! b = Some t → managed A (t_span t).

(** All tags belong to the span that starts at [sp]. *)
Definition one_span (sp : Z) (A : gmap Z Tag) : Prop :=
  ∀ b t, A !! b = Some t → t_span t = sp.

Definition take_tags (seg base size : Z) (A : gmap Z Tag) : gmap Z Tag :=
  match A !! seg with
  | None => A
  | Some t =>
      let end_ := seg + t_size t in
      let A1 :=
        if decide (seg < base)
        then <[base := mkTag size (t_span t) false]> (<[seg := mkTag (base - seg) (t_span t) true]> A)
        else <[seg := mkTag size (t_span t) false]> A in
      if decide (base + size < end_)
      then <[base + size := mkTag (end_ - base - size) (t_span t) true]> A1
      else A1
  end.

(** The tag at [b] grows over its right neighbour, which disappears. *)
Definition absorb (b : Z) (A : gmap Z Tag) : gmap Z Tag :=
  match A !! b with
  | None => A
  | Some t =>
      match A !! (b + t_size t) with
      | None => A
      | Some n =>
          delete (b + t_size t) (<[b := mkTag (t_size t + t_size n) (t_span t) (t_free t)]> A)
      end
  end.

(** Giving the allocation at [base] back: the right neighbour is merged when it
    is free and of the same span, then the left one ([prev]) if there is one. *)
Definition mergeable (t n : Tag) : bool := t_free n && (t_span n =? t_span t).
Definition absorb_next (base : Z) (A : gmap Z Tag) : gmap Z Tag :=
  match A !! base with
  | None => A
  | Some t =>
      match A !! (base + t_size t) with
      | Some n => if mergeable t n then absorb base A else A
      | None => A
      end
  end.
Definition release_tags (base : Z) (prev : option Z) (A : gmap Z Tag) : gmap Z Tag :=
  let A1 := absorb_next base A in
  match prev with
  | Some p => absorb p A1
  | None => alter (λ t, mkTag (t_size t) (t_span t) true) base A1
  end.
(** [prev] is the tag the code finds to the left of [base]. *)
Definition prev_of (A : gmap Z Tag) (base span : Z) (prev : option Z) : Prop :=
  match prev with
  | Some p => ∃ tp, A !! p = Some tp ∧ t_free tp = true ∧ t_span tp = span ∧ p + t_size tp = base
  | None => ∀ p tp, A !! p = Some tp → t_free tp = true → t_span tp = span → p + t_size tp ≠ base
  end.

(** [base, base + size) lies in the free tag [seg]. *)
Record fits (q : Z) (A : gmap Z Tag) (seg base size : Z) (t : Tag) : Prop := {
  fits_tag : A !! seg = Some t;
  fits_free : t_free t = true;
  fits_low : seg ≤ base;
  fits_pos : 0 < size;
  fits_high : base + size ≤ seg + t_size t;
  fits_base : base mod q = 0;
  fits_size : size mod q = 0;
}.

Section tags.
Context (q : Z) (Hq : 0 < q).
Implicit Types (A : gmap Z Tag) (t : Tag).

Lemma mod_sub_0 a b : a mod q = 0 → b mod q = 0 → (a - b) mod q = 0.
Proof. intros Ha Hb. by rewrite Zminus_mod, Ha, Hb. Qed.
Lemma mod_add_0 a b : a mod q = 0 → b mod q = 0 → (a + b) mod q = 0.
Proof. intros Ha Hb. by rewrite Zplus_mod, Ha, Hb. Qed.

(** No tag starts strictly inside another. *)
Lemma wf_inside A b t k :
  tags_wf q A → A !! b = Some t → b < k < b + t_size t → A !! k = None.
Proof.
  intros Hwf Hb Hk. destruct (A !! k) as [t'|] eqn:E; [|done].
  pose proof (wf_disjoint _ _ Hwf b t k t' Hb E). lia.
Qed.

Lemma wf_inside_unique A b1 t1 b2 t2 a :
  tags_wf q A → A !! b1 = Some t1 → A !! b2 = Some t2 → inside b1 t1 a → inside b2 t2 a →
  b1 = b2 ∧ t1 = t2.
Proof.
  unfold inside. intros Hwf H1 H2 Hi1 Hi2.
  destruct (Z.lt_trichotomy b1 b2) as [Hlt|[->|Hlt]].
  - pose proof (wf_disjoint _ _ Hwf _ _ _ _ H1 H2 Hlt). lia.
  - split; congruence.
  - pose proof (wf_disjoint _ _ Hwf _ _ _ _ H2 H1 Hlt). lia.
Qed.

(** The tags after [take_tags], case by case. *)
Lemma lookup_take A seg base size t k :
  tags_wf q A → fits q A seg base size t →
  take_tags seg base size A !! k =
    if decide (k = base) then Some (mkTag size (t_span t) false)
    else if decide (k = seg) then Some (mkTag (base - seg) (t_span t) true)
    else if decide (k = base + size ∧ base + size < seg + t_size t)
         then Some (mkTag (seg + t_size t - base - size) (t_span t) true)
    else A !! k.
Proof.
  intros Hwf [Hs Hf Hl Hp Hh _ _]. unfold take_tags. rewrite Hs.
  destruct (decide (base + size < seg + t_size t)) as [He|He];
    destruct (decide (seg < base)) as [Hsb|Hsb]; rewrite ?lookup_insert;
    repeat case_decide; subst; try lia; try done; f_equal; f_equal; lia.
Qed.

Lemma take_tags_fresh A seg base size t :
  tags_wf q A → fits q A seg base size t →
  (seg ≠ base → A !! base = None) ∧
  (base + size < seg + t_size t → A !! (base + size) = None).
Proof.
  intros Hwf [Hs Hf Hl Hp Hh _ _]. split; intros; eapply wf_inside; eauto; lia.
Qed.

Lemma take_tags_wf A seg base size t :
  tags_wf q A → fits q A seg base size t → tags_wf q (take_tags seg base size A).
Proof.
  intros Hwf Hfit. pose proof Hfit as [Hs Hf Hl Hp Hh Hb0 Hs0].
  pose proof (wf_tag _ _ Hwf _ _ Hs) as (H0 & H1 & H2 & H3 & H4). split.
  - intros k t'. rewrite (lookup_take _ _ _ _ t) by done.
    repeat case_decide; destruct_and?; intros; simplify_eq; simpl;
      [| | |by apply (wf_tag _ _ Hwf)].
    + split_and!; lia.
    + split_and!; try lia. by apply mod_sub_0.
    + split_and!; try lia; [by apply mod_add_0|].
      apply mod_sub_0; [|done]. apply mod_sub_0; [|done]. by apply mod_add_0.
  - assert (∀ k t', A !! k = Some t' → k ≠ seg →
              0 < t_size t' ∧ (k + t_size t' ≤ seg ∨ seg + t_size t ≤ k)) as Hout.
    { intros k t' Hk Hne. split; [by apply (wf_tag _ _ Hwf _ _ Hk)|]. destruct (decide (k < seg)).
      - left. by apply (wf_disjoint _ _ Hwf k t' seg t).
      - right. apply (wf_disjoint _ _ Hwf seg t k t'); [done..|lia]. }
    intros k1 t1 k2 t2. rewrite !(lookup_take _ _ _ _ t) by done. intros E1 E2 Hlt.
    repeat case_decide; destruct_and?; simplify_eq; simpl; try lia;
      repeat match goal with
      | H : A !! ?k = Some ?t', Hn : ?k ≠ seg |- _ =>
          lazymatch goal with
          | _ : 0 < t_size t' ∧ _ |- _ => fail
          | _ => pose proof (Hout _ _ H Hn)
          end
      end; try lia.
    by apply (wf_disjoint _ _ Hwf k1 t1 k2 t2).
Qed.

Lemma take_tags_coalesced A seg base size t :
  tags_wf q A → coalesced A → fits q A seg base size t →
  coalesced (take_tags seg base size A).
Proof.
  intros Hwf Hc Hfit. pose proof Hfit as [Hs Hf Hl Hp Hh _ _].
  pose proof (wf_tag _ _ Hwf _ _ Hs) as Htag.
  intros k1 t1 k2 t2. rewrite !(lookup_take _ _ _ _ t) by done. intros E1 E2 F1 F2 Hsp.
  repeat case_decide; destruct_and?; simplify_eq; simpl in *; intros Heq; try done; try lia.
  - by apply (Hc _ _ _ _ E1 Hs).
  - pose proof (wf_tag _ _ Hwf _ _ E1) as (?&?&_). destruct (decide (k1 < seg)).
    + pose proof (wf_disjoint _ _ Hwf k1 t1 seg t E1 Hs ltac:(lia)). lia.
    + pose proof (wf_disjoint _ _ Hwf seg t k1 t1 Hs E1 ltac:(lia)). lia.
  - apply (Hc _ _ _ _ Hs E2); try done. lia.
  - by apply (Hc _ _ _ _ E1 E2).
Qed.

(** ** What an allocation does *)

Lemma lookup_allocs A k : allocs A !! k = A !! k ≫= alloc_of.
Proof. apply lookup_omap. Qed.

Lemma take_tags_allocs A seg base size t :
  tags_wf q A → fits q A seg base size t →
  allocs (take_tags seg base size A) = <[base := size]> (allocs A).
Proof.
  intros Hwf Hfit. pose proof Hfit as [Hs Hf Hl Hp Hh _ _].
  destruct (take_tags_fresh _ _ _ _ _ Hwf Hfit) as [Hn1 Hn2].
  apply map_eq. intros k. rewrite lookup_allocs, (lookup_take _ _ _ _ t), lookup_insert by done.
  repeat case_decide; subst; try done; rewrite lookup_allocs; simpl; try lia.
  - rewrite Hs. simpl. unfold alloc_of. by rewrite Hf.
  - destruct_and!. subst. by rewrite Hn2.
  - done.
Qed.

Lemma take_tags_inside A seg base size t a :
  tags_wf q A → fits q A seg base size t → base ≤ a < base + size → free_at A a.
Proof. intros _ [] ?. exists seg, t. split_and!; [done..|]. unfold inside. lia. Qed.

Lemma take_tags_free_at A seg base size t a :
  tags_wf q A → fits q A seg base size t →
  free_at (take_tags seg base size A) a ↔ free_at A a ∧ ¬ (base ≤ a < base + size).
Proof.
  intros Hwf Hfit. pose proof Hfit as [Hs Hf Hl Hp Hh _ _]. split.
  - intros (b & t' & Hb & Hf' & Hi). pose proof (take_tags_wf _ _ _ _ _ Hwf Hfit) as Hwf'.
    assert (¬ (base ≤ a < base + size)) as Hout.
    { intros Ha. assert (take_tags seg base size A !! base = Some (mkTag size (t_span t) false))
        as Hbase by (rewrite (lookup_take _ _ _ _ t), decide_True; done).
      destruct (wf_inside_unique _ _ _ _ _ a Hwf' Hb Hbase); [done|done|]. by subst. }
    split; [|done]. rewrite (lookup_take _ _ _ _ t) in Hb by done. unfold inside in *.
    repeat case_decide; destruct_and?; simplify_eq; simpl in *.
    + exists seg, t. split_and!; [done..|]. unfold inside. lia.
    + exists seg, t. split_and!; [done..|]. unfold inside. lia.
    + by exists b, t'.
  - intros [(b & t' & Hb & Hf' & Hi) Hout]. unfold inside in *.
    destruct (decide (b = seg)) as [->|Hne].
    + assert (t' = t) as -> by congruence. destruct (decide (a < base)).
      * exists seg, (mkTag (base - seg) (t_span t) true).
        rewrite (lookup_take _ _ _ _ t), decide_False, decide_True by (done || lia).
        split_and!; [done..|]. unfold inside. simpl. lia.
      * exists (base + size), (mkTag (seg + t_size t - base - size) (t_span t) true).
        rewrite (lookup_take _ _ _ _ t), !decide_False, decide_True by (done || lia).
        split_and!; [done..|]. unfold inside. simpl. lia.
    + exists b, t'. destruct (take_tags_fresh _ _ _ _ _ Hwf Hfit) as [Hn1 Hn2].
      rewrite (lookup_take _ _ _ _ t), !decide_False; [by split_and!|..|done|done].
      * intros [-> ?]. rewrite Hn2 in Hb; [done|lia].
      * done.
      * intros ->. rewrite Hn1 in Hb; [done|lia].
Qed.

Lemma take_tags_sum A seg base size t :
  tags_wf q A → fits q A seg base size t →
  msum t_size (take_tags seg base size A) = msum t_size A ∧
  msum used_size (take_tags seg base size A) = msum used_size A + size.
Proof.
  intros Hwf Hfit. pose proof Hfit as [Hs Hf Hl Hp Hh _ _].
  destruct (take_tags_fresh _ _ _ _ _ Hwf Hfit) as [Hn1 Hn2].
  assert (used_size t = 0) as Hu by (unfold used_size; by rewrite Hf).
  assert (∀ n sp, used_size (mkTag n sp true) = 0) as U1 by done.
  assert (∀ n sp, used_size (mkTag n sp false) = n) as U2 by done.
  unfold take_tags. rewrite Hs. destruct (decide (seg < base)), (decide (base + size < seg + t_size t));
    rewrite ?(msum_insert_None _ _ (base + size)) by (rewrite ?lookup_insert_ne by lia; by apply Hn2);
    rewrite ?(msum_insert_None _ _ base) by (rewrite ?lookup_insert_ne by lia; apply Hn1; lia);
    rewrite !(msum_insert_Some _ _ seg t) by done; rewrite ?U1, ?U2; cbn [t_size]; lia.
Qed.

(** ** What giving an allocation back does *)

Lemma lookup_absorb A b t n k :
  A !! b = Some t → A !! (b + t_size t) = Some n → 0 < t_size t →
  absorb b A !! k =
    if decide (k = b) then Some (mkTag (t_size t + t_size n) (t_span t) (t_free t))
    else if decide (k = b + t_size t) then None else A !! k.
Proof.
  intros Hb Hn Hp. unfold absorb. rewrite Hb, Hn, lookup_delete, lookup_insert.
  repeat case_decide; subst; try lia; done.
Qed.

Lemma absorb_sum A b t n :
  A !! b = Some t → A !! (b + t_size t) = Some n → 0 < t_size t →
  msum t_size (absorb b A) = msum t_size A ∧
  msum used_size (absorb b A) =
    msum used_size A - used_size t - used_size n
    + (if t_free t then 0 else t_size t + t_size n).
Proof.
  intros Hb Hn Hp. unfold absorb. rewrite Hb, Hn.
  assert (<[b:=mkTag (t_size t + t_size n) (t_span t) (t_free t)]> A !! (b + t_size t) = Some n)
    as Hn' by (by rewrite lookup_insert_ne by lia).
  rewrite !(msum_delete _ _ _ n), !(msum_insert_Some _ _ _ t) by done.
  assert (∀ x y z, used_size (mkTag x y z) = if z then 0 else x) as -> by done.
  cbn [t_size]. split; [lia|]. destruct (t_free t); lia.
Qed.

(** The free block that [release_tags] leaves: from [lo] to [hi]. *)
Definition block_end (base : Z) (t : Tag) A : Z :=
  base + t_size t +
  match A !! (base + t_size t) with
  | Some n => if mergeable t n then t_size n else 0
  | None => 0
  end.

Lemma mergeable_spec t n : mergeable t n = true ↔ t_free n = true ∧ t_span n = t_span t.
Proof. unfold mergeable. rewrite andb_true_iff, Z.eqb_eq. done. Qed.

Lemma lookup_absorb_next A base t k :
  tags_wf q A → A !! base = Some t →
  absorb_next base A !! k =
    if decide (k = base) then Some (mkTag (block_end base t A - base) (t_span t) (t_free t))
    else if decide (base < k < block_end base t A) then None else A !! k.
Proof.
  intros Hwf Hb. pose proof (wf_tag _ _ Hwf _ _ Hb) as (_&Hp&_).
  assert (mkTag (t_size t) (t_span t) (t_free t) = t) as Ht by (by destruct t).
  assert (∀ k, A !! base = Some t → base < k < base + t_size t → A !! k = None) as Hin.
  { intros. by eapply wf_inside. }
  unfold absorb_next, block_end. rewrite Hb.
  destruct (A !! (base + t_size t)) as [n|] eqn:En; [destruct (mergeable t n)|].
  - rewrite (lookup_absorb _ _ t n) by done. repeat case_decide; subst; try lia; try done.
    + do 2 f_equal. lia.
    + pose proof (wf_tag _ _ Hwf _ _ En). lia.
    + destruct (decide (k < base + t_size t)); [apply Hin; [done|lia]|]. eapply wf_inside; [done..|lia].
  - replace (base + t_size t + 0 - base) with (t_size t) by lia.
    repeat case_decide; subst; [by rewrite Ht| |done]. apply Hin; [done|lia].
  - replace (base + t_size t + 0 - base) with (t_size t) by lia.
    repeat case_decide; subst; [by rewrite Ht| |done]. apply Hin; [done|lia].
Qed.

Record releases A (base : Z) (prev : option Z) (t : Tag) : Prop := {
  rel_wf : tags_wf q A;
  rel_tag : A !! base = Some t;
  rel_used : t_free t = false;
  rel_prev : prev_of A base (t_span t) prev;
}.

Lemma block_end_bounds A base t :
  tags_wf q A → A !! base = Some t → base + t_size t ≤ block_end base t A < two64.
Proof.
  intros Hwf Hb. pose proof (wf_tag _ _ Hwf _ _ Hb). unfold block_end.
  destruct (A !! (base + t_size t)) as [n|] eqn:En; [|lia].
  pose proof (wf_tag _ _ Hwf _ _ En). destruct (mergeable t n); lia.
Qed.

Lemma block_end_mod A base t :
  tags_wf q A → A !! base = Some t → block_end base t A mod q = 0.
Proof.
  intros Hwf Hb. pose proof (wf_tag _ _ Hwf _ _ Hb) as (_&_&_&?&?). unfold block_end.
  destruct (A !! (base + t_size t)) as [n|] eqn:En; [|rewrite Z.add_0_r; by apply mod_add_0].
  pose proof (wf_tag _ _ Hwf _ _ En) as (_&_&_&?&?).
  destruct (mergeable t n); [|rewrite Z.add_0_r]; auto using mod_add_0.
Qed.

Lemma absorb_next_wf A base t :
  tags_wf q A → A !! base = Some t → tags_wf q (absorb_next base A).
Proof.
  intros Hwf Hb. pose proof (block_end_bounds _ _ _ Hwf Hb) as [Hhi Hhi'].
  pose proof (block_end_mod _ _ _ Hwf Hb). pose proof (wf_tag _ _ Hwf _ _ Hb) as (?&?&?&?&?).
  split.
  - intros k t'. rewrite (lookup_absorb_next _ _ t) by done.
    repeat case_decide; intros; simplify_eq/=; [|by apply (wf_tag _ _ Hwf)].
    split_and!; try done; try lia. by apply mod_sub_0.
  - intros k1 t1 k2 t2. rewrite !(lookup_absorb_next _ _ t) by done.
    repeat case_decide; intros; simplify_eq/=; try lia.
    + by apply (wf_disjoint _ _ Hwf k1 t1 base t).
    + by apply (wf_disjoint _ _ Hwf k1 t1 k2 t2).
Qed.

Lemma prev_lt A base prev t : releases A base prev t → default base prev ≤ base.
Proof.
  intros [Hwf _ _ Hp]. destruct prev as [p|]; simpl in *; [|lia].
  destruct Hp as (tp & Hp & _ & _ & <-). pose proof (wf_tag _ _ Hwf _ _ Hp). lia.
Qed.

Lemma lookup_release A base prev t k :
  releases A base prev t →
  release_tags base prev A !! k =
    let lo := default base prev in
    let hi := block_end base t A in
    if decide (k = lo) then Some (mkTag (hi - lo) (t_span t) true)
    else if decide (lo < k < hi) then None else A !! k.
Proof.
  intros Hrel. pose proof (prev_lt _ _ _ _ Hrel) as Hlo. destruct Hrel as [Hwf Hb Hu Hp].
  pose proof (block_end_bounds _ _ _ Hwf Hb) as [Hhi _].
  pose proof (wf_tag _ _ Hwf _ _ Hb) as (_&Hpos&_).
  unfold release_tags. destruct prev as [p|]; simpl in *.
  - destruct Hp as (tp & Hp & Hf & Hs & Hend).
    pose proof (wf_tag _ _ Hwf _ _ Hp) as (_&Hpp&_).
    assert (absorb_next base A !! p = Some tp) as Hp'.
    { rewrite (lookup_absorb_next _ _ t), !decide_False by (done || lia). done. }
    rewrite (lookup_absorb _ p tp (mkTag (block_end base t A - base) (t_span t) (t_free t)));
      [|done| |done].
    + rewrite (lookup_absorb_next _ _ t) by done. cbn [t_size].
      repeat case_decide; subst; try lia; try done.
      * do 2 f_equal; [lia|done|done].
      * eapply (wf_inside _ p tp); [done..|lia].
    + rewrite Hend. rewrite (lookup_absorb_next _ _ t), decide_True by done. done.
  - rewrite lookup_alter, (lookup_absorb_next _ _ t), (lookup_absorb_next _ _ t) by done.
    repeat case_decide; subst; try lia; done.
Qed.

(** The other tags lie outside the block. *)
Lemma release_outside A base prev t k t' :
  releases A base prev t → A !! k = Some t' →
  let lo := default base prev in
  let hi := block_end base t A in
  k ≠ lo → ¬ (lo < k < hi) → 0 < t_size t' ∧ (k + t_size t' ≤ lo ∨ hi ≤ k).
Proof.
  intros [Hwf Hb Hu Hp] Hk lo hi Hne Hn. split; [by apply (wf_tag _ _ Hwf _ _ Hk)|].
  destruct (decide (k < lo)); [|lia]. left. subst lo. destruct prev as [p|]; simpl in *.
  - destruct Hp as (tp & Hp & _). by apply (wf_disjoint _ _ Hwf k t' p tp).
  - by apply (wf_disjoint _ _ Hwf k t' base t).
Qed.

Lemma block_mod A base prev t :
  releases A base prev t →
  0 ≤ default base prev ∧ default base prev mod q = 0 ∧
  (block_end base t A - default base prev) mod q = 0.
Proof.
  intros [Hwf Hb _ Hp]. pose proof (wf_tag _ _ Hwf _ _ Hb) as (?&_&_&?&?).
  assert (block_end base t A mod q = 0).
  { unfold block_end. apply mod_add_0; [by apply mod_add_0|].
    destruct (A !! (base + t_size t)) as [n|] eqn:En; [|apply Z.mod_0_l; lia].
    destruct (mergeable t n); [by apply (wf_tag _ _ Hwf _ _ En)|apply Z.mod_0_l; lia]. }
  destruct prev as [p|]; simpl in *.
  - destruct Hp as (tp & Hp & _). pose proof (wf_tag _ _ Hwf _ _ Hp) as (?&_&_&?&_).
    split_and!; [done..|by apply mod_sub_0].
  - split_and!; [done..|by apply mod_sub_0].
Qed.

Lemma release_tags_wf A base prev t :
  releases A base prev t → tags_wf q (release_tags base prev A).
Proof.
  intros Hrel. pose proof (prev_lt _ _ _ _ Hrel) as Hlo.
  pose proof (block_mod _ _ _ _ Hrel) as (Hlo0 & Hm1 & Hm2).
  pose proof Hrel as [Hwf Hb _ _]. pose proof (block_end_bounds _ _ _ Hwf Hb) as [Hhi Hhi'].
  pose proof (wf_tag _ _ Hwf _ _ Hb) as (_&Hpos&_). split.
  - intros k t'. rewrite (lookup_release _ _ _ t) by done. cbv zeta.
    repeat case_decide; intros; simplify_eq; cbn [t_size]; [|by apply (wf_tag _ _ Hwf)].
    split_and!; lia.
  - intros k1 t1 k2 t2. rewrite !(lookup_release _ _ _ t) by done. cbv zeta. intros E1 E2 Hlt.
    repeat case_decide; simplify_eq; cbn [t_size]; try lia.
    + destruct (release_outside _ _ _ _ _ _ Hrel E1); [done..|]. lia.
    + by apply (wf_disjoint _ _ Hwf k1 t1 k2 t2).
Qed.

Lemma release_tags_coalesced A base prev t :
  releases A base prev t → coalesced A → coalesced (release_tags base prev A).
Proof.
  intros Hrel Hc. pose proof Hrel as [Hwf Hb _ Hp].
  pose proof (wf_tag _ _ Hwf _ _ Hb) as (_&Hpos&_).
  pose proof (prev_lt _ _ _ _ Hrel) as Hlo.
  pose proof (block_end_bounds _ _ _ Hwf Hb) as [Hhi Hhi'].
  intros k1 t1 k2 t2. rewrite !(lookup_release _ _ _ t) by done. cbv zeta.
  intros E1 E2 F1 F2 Hsp. repeat case_decide; simplify_eq; cbn [t_size t_span] in *; intros Heq; try lia.
  - (* a free left neighbour would have been merged *)
    destruct prev as [p|]; simpl in *.
    + destruct Hp as (tp & Htp & ? & ? & ?). apply (Hc _ _ _ _ E1 Htp); [done..|congruence|done].
    + by apply (Hp _ _ E1).
  - (* and so would a free right neighbour *)
    assert (k2 = block_end base t A) as -> by lia. clear Heq.
    unfold block_end in E2 at 1. destruct (A !! (base + t_size t)) as [n|] eqn:En.
    + destruct (mergeable t n) eqn:Em.
      * apply mergeable_spec in Em as [??]. apply (Hc _ _ _ _ En E2); [done..|congruence|done].
      * rewrite Z.add_0_r, En in E2. simplify_eq.
        apply not_true_iff_false in Em. apply Em, mergeable_spec. done.
    + by rewrite Z.add_0_r, En in E2.
  - by apply (Hc _ _ _ _ E1 E2).
Qed.

(** The block consists of the left neighbour, the allocation and the right one. *)
Lemma block_cases A base prev t a :
  releases A base prev t →
  default base prev ≤ a < block_end base t A ↔
  inside base t a ∨
  (∃ tp, prev = Some (base - t_size tp) ∧ A !! (base - t_size tp) = Some tp ∧
         t_free tp = true ∧ inside (base - t_size tp) tp a) ∨
  (∃ n, A !! (base + t_size t) = Some n ∧ t_free n = true ∧ mergeable t n = true ∧
        inside (base + t_size t) n a).
Proof.
  intros Hrel. pose proof (prev_lt _ _ _ _ Hrel) as Hlo. destruct Hrel as [Hwf Hb _ Hp].
  pose proof (wf_tag _ _ Hwf _ _ Hb) as (_&Hpos&_). unfold inside, block_end in *. split.
  - intros Ha. destruct (decide (a < base)) as [Hlt|Hge].
    + right. left. destruct prev as [p|]; simpl in *; [|lia].
      destruct Hp as (tp & Htp & ? & ? & ?). exists tp.
      replace (base - t_size tp) with p by lia. split_and!; [done..|lia|lia].
    + destruct (decide (a < base + t_size t)) as [|Hge']; [left; lia|]. right. right.
      destruct (A !! (base + t_size t)) as [n|] eqn:En; [|lia].
      destruct (mergeable t n) eqn:Em; [|lia]. pose proof Em as [? _]%mergeable_spec.
      exists n. split_and!; [done..|lia|lia].
  - assert (0 ≤ match A !! (base + t_size t) with
                | Some n => if mergeable t n then t_size n else 0 | None => 0 end).
    { destruct (A !! (base + t_size t)) as [n|] eqn:En; [|lia].
      pose proof (wf_tag _ _ Hwf _ _ En). destruct (mergeable t n); lia. }
    intros [?|[(tp & Hpr & Htp & _ & ?)|(n & Hn & ? & Hm & ?)]].
    + lia.
    + rewrite Hpr in *. simpl in *. lia.
    + rewrite Hn, Hm in *. lia.
Qed.

Lemma release_inside A base prev t k t' :
  releases A base prev t → A !! k = Some t' → default base prev ≤ k < block_end base t A →
  (k = base ∧ t' = t) ∨ (prev = Some k ∧ t_free t' = true ∧ k + t_size t' = base) ∨
  (k = base + t_size t ∧ t_free t' = true ∧ block_end base t A = k + t_size t').
Proof.
  intros Hrel Hk Hin. pose proof Hrel as [Hwf Hb _ _].
  assert (inside k t' k) as Hkk.
  { pose proof (wf_tag _ _ Hwf _ _ Hk). unfold inside. lia. }
  apply (block_cases _ _ _ _ _ Hrel) in Hin as [Hi|[(tp & Hpr & Htp & Hf & Hi)|(n & Hn & Hf & Hm & Hi)]].
  - left. by eapply wf_inside_unique.
  - right. left. destruct (wf_inside_unique _ _ _ _ _ _ Hwf Hk Htp Hkk Hi) as [-> ->].
    split_and!; [done..|lia].
  - right. right. destruct (wf_inside_unique _ _ _ _ _ _ Hwf Hk Hn Hkk Hi) as [-> ->].
    split_and!; [done..|]. unfold block_end. by rewrite Hn, Hm.
Qed.

Lemma release_tags_free_at A base prev t a :
  releases A base prev t →
  free_at (release_tags base prev A) a ↔ free_at A a ∨ inside base t a.
Proof.
  intros Hrel. pose proof (block_cases _ _ _ _ a Hrel) as Hblk. pose proof Hrel as [Hwf Hb _ _].
  pose proof (block_end_bounds _ _ _ Hwf Hb) as [Hhi _].
  pose proof (λ k t', release_inside _ _ _ _ k t' Hrel) as Hins.
  pose proof (prev_lt _ _ _ _ Hrel) as Hlo.
  pose proof (wf_tag _ _ Hwf _ _ Hb) as (_&Hpos&_).
  assert (∀ k, release_tags base prev A !! k = _) as Hlk
    by (intros k; exact (lookup_release _ _ _ t k Hrel)). cbv zeta in Hlk.
  set (lo := default base prev) in *. set (hi := block_end base t A) in *. split.
  - intros (b & t' & Hb' & Hf & Hi). rewrite Hlk in Hb'. repeat case_decide; simplify_eq.
    + unfold inside in Hi. cbn [t_size] in Hi.
      destruct (proj1 Hblk) as [?|[(tp & _ & ? & ? & ?)|(n & ? & ? & _ & ?)]]; [lia|auto|..].
      * left. by exists (base - t_size tp), tp.
      * left. by exists (base + t_size t), n.
    + left. by exists b, t'.
  - assert (lo ≤ a < hi → free_at (release_tags base prev A) a) as Hin.
    { intros Ha. exists lo, (mkTag (hi - lo) (t_span t) true).
      rewrite Hlk, decide_True by done. split_and!; [done..|]. unfold inside. cbn. lia. }
    intros [(b & t' & Hb' & Hf & Hi)|Hi]; [|apply Hin, Hblk; by left].
    destruct (decide (lo ≤ b < hi)) as [Hbl|Hbl].
    + apply Hin. unfold inside in Hi.
      destruct (Hins _ _ Hb' Hbl) as [[-> ->]|[(_ & _ & ?)|(-> & _ & ?)]]; lia.
    + exists b, t'. rewrite Hlk, !decide_False by lia. by split_and!.
Qed.

Lemma release_tags_allocs A base prev t :
  releases A base prev t →
  allocs (release_tags base prev A) = delete base (allocs A).
Proof.
  intros Hrel. apply map_eq. intros k.
  rewrite lookup_delete, !lookup_allocs, (lookup_release _ _ _ t) by done. cbv zeta.
  pose proof Hrel as [Hwf Hb _ Hp]. pose proof (prev_lt _ _ _ _ Hrel) as Hlo.
  pose proof (block_end_bounds _ _ _ Hwf Hb) as [Hhi _].
  pose proof (wf_tag _ _ Hwf _ _ Hb) as (_&Hpos&_).
  pose proof (λ k t', release_inside _ _ _ _ k t' Hrel) as Hins.
  destruct (decide (k = default base prev)) as [->|Hne].
  - simpl. unfold alloc_of at 1. simpl. case_decide; [done|].
    destruct prev as [p|]; simpl in *; [|done]. destruct Hp as (tp & -> & Hf & _). simpl.
    unfold alloc_of. by rewrite Hf.
  - destruct (decide (default base prev < k < block_end base t A)) as [Hin|Hout]; simpl.
    + case_decide; [done|]. destruct (A !! k) as [t'|] eqn:Ek; [|done].
      simpl. unfold alloc_of.
      destruct (Hins _ _ Ek) as [[-> _]|[(_&->&_)|(_&->&_)]]; [lia|done..].
    + case_decide; [|done]. subst. lia.
Qed.

Lemma release_tags_sum A base prev t :
  releases A base prev t →
  msum t_size (release_tags base prev A) = msum t_size A ∧
  msum used_size (release_tags base prev A) = msum used_size A - t_size t.
Proof.
  intros Hrel. pose proof Hrel as [Hwf Hb Hu Hp].
  pose proof (wf_tag _ _ Hwf _ _ Hb) as (_&Hpos&_).
  pose proof (block_end_bounds _ _ _ Hwf Hb) as [Hhi _].
  set (t1 := mkTag (block_end base t A - base) (t_span t) (t_free t)).
  assert (absorb_next base A !! base = Some t1) as Hb1.
  { rewrite (lookup_absorb_next _ _ t), decide_True by done. done. }
  assert (used_size t1 = block_end base t A - base) as Hu1.
  { unfold used_size, t1. cbn. by rewrite Hu. }
  assert (msum t_size (absorb_next base A) = msum t_size A ∧
          msum used_size (absorb_next base A)
          = msum used_size A - t_size t + (block_end base t A - base)) as [S1 S2].
  { unfold absorb_next, block_end. rewrite Hb.
    destruct (A !! (base + t_size t)) as [n|] eqn:En; [|split; lia].
    destruct (mergeable t n) eqn:Em; [|split; lia]. apply mergeable_spec in Em as [Hf _].
    destruct (absorb_sum _ _ _ _ Hb En Hpos) as [-> ->]. unfold used_size.
    rewrite Hu, Hf. split; lia. }
  unfold release_tags. destruct prev as [p|]; simpl in *.
  - destruct Hp as (tp & Htp & Hf & Hs & Hend). pose proof (wf_tag _ _ Hwf _ _ Htp) as (_&Hpp&_).
    destruct (absorb_sum (absorb_next base A) p tp t1) as [-> ->].
    + rewrite (lookup_absorb_next _ _ t), !decide_False by (done || lia). done.
    + by rewrite Hend.
    + done.
    + assert (used_size tp = 0) as -> by (unfold used_size; by rewrite Hf).
      rewrite Hf, Hu1. lia.
  - assert (∀ f, msum f (alter (λ t, mkTag (t_size t) (t_span t) true) base (absorb_next base A))
                 = msum f (absorb_next base A) - f t1 + f (mkTag (t_size t1) (t_span t) true)) as Ha.
    { intros f. rewrite <- (msum_insert_Some f _ _ t1) by done. f_equal. apply map_eq.
      intros k. rewrite lookup_alter, lookup_insert. case_decide; [subst|done].
      by rewrite Hb1. }
    assert (∀ x y, used_size (mkTag x y true) = 0) as Hu0 by done.
    rewrite !Ha, Hu1, Hu0. cbn. lia.
Qed.

(** ** Managed addresses *)

Lemma managed_split A a :
  managed A a ↔ free_at A a ∨ ∃ b n, allocs A !! b = Some n ∧ b ≤ a < b + n.
Proof.
  unfold managed, free_at, inside. setoid_rewrite lookup_allocs. split.
  - intros (b & t & Hb & Hi). destruct (t_free t) eqn:Hf; [left; by exists b, t|right].
    exists b, (t_size t). rewrite Hb. simpl. unfold alloc_of. by rewrite Hf.
  - intros [(b & t & Hb & _ & Hi)|(b & n & Hb & Hi)]; [by exists b, t|].
    apply bind_Some in Hb as (t & Hb & Ha). unfold alloc_of in Ha.
    destruct (t_free t); simplify_eq. by exists b, t.
Qed.

Lemma take_tags_managed A seg base size t a :
  tags_wf q A → fits q A seg base size t → managed (take_tags seg base size A) a ↔ managed A a.
Proof.
  intros Hwf Hfit. rewrite !managed_split, take_tags_free_at, (take_tags_allocs _ _ _ _ t) by done.
  pose proof Hfit as [Hs Hf Hl Hp Hh _ _]. split.
  - intros [[? _]|(b & n & Hb & Hi)]; [by left|]. rewrite lookup_insert in Hb.
    case_decide; simplify_eq; [left; by eapply take_tags_inside|right; eauto].
  - intros [?|(b & n & Hb & Hi)].
    + destruct (decide (base ≤ a < base + size)); [|by left].
      right. exists base, size. by rewrite lookup_insert_eq.
    + right. exists b, n. split; [|done]. rewrite lookup_insert_ne; [done|]. intros <-.
      rewrite lookup_allocs in Hb. apply bind_Some in Hb as (t' & Hb & Ha).
      destruct (wf_inside_unique A seg t base t' base Hwf) as [-> ->]; try done.
      * unfold inside. lia.
      * pose proof (wf_tag _ _ Hwf _ _ Hb). unfold inside. lia.
      * unfold alloc_of in Ha. by rewrite Hf in Ha.
Qed.

Lemma take_tags_spans A seg base size t :
  tags_wf q A → fits q A seg base size t → spans_ok A → spans_ok (take_tags seg base size A).
Proof.
  intros Hwf Hfit Hsp k t' Hk. apply (take_tags_managed _ _ _ _ t); [done..|].
  rewrite (lookup_take _ _ _ _ t) in Hk by done. pose proof (Hsp _ _ (fits_tag _ _ _ _ _ _ Hfit)).
  repeat case_decide; simplify_eq/=; try done. by eapply Hsp.
Qed.

Lemma release_tags_managed A base prev t a :
  releases A base prev t → managed (release_tags base prev A) a ↔ managed A a.
Proof.
  intros Hrel. rewrite !managed_split, (release_tags_free_at _ _ _ t), (release_tags_allocs _ _ _ t) by done.
  pose proof Hrel as [Hwf Hb Hu _].
  assert (allocs A !! base = Some (t_size t)) as Hal.
  { rewrite lookup_allocs, Hb. simpl. unfold alloc_of. by rewrite Hu. }
  split.
  - intros [[?|Hi]|(b & n & Hb' & Hi)]; [by left|right; by eauto|].
    apply lookup_delete_Some in Hb' as [_ ?]. right; eauto.
  - intros [?|(b & n & Hb' & Hi)]; [by left; left|]. destruct (decide (b = base)) as [->|Hne].
    + rewrite Hal in Hb'. simplify_eq. by left; right.
    + right. exists b, n. by rewrite lookup_delete_ne.
Qed.

Lemma release_tags_spans A base prev t :
  releases A base prev t → spans_ok A → spans_ok (release_tags base prev A).
Proof.
  intros Hrel Hsp k t' Hk. apply (release_tags_managed _ _ _ t); [done..|].
  rewrite (lookup_release _ _ _ t) in Hk by done. cbv zeta in Hk.
  pose proof (Hsp _ _ (rel_tag _ _ _ _ Hrel)).
  repeat case_decide; simplify_eq/=; try done. by eapply Hsp.
Qed.

Lemma take_tags_one_span sp A seg base size t :
  tags_wf q A → fits q A seg base size t → one_span sp A → one_span sp (take_tags seg base size A).
Proof.
  intros Hwf Hfit Hsp k t' Hk. rewrite (lookup_take _ _ _ _ t) in Hk by done.
  pose proof (Hsp _ _ (fits_tag _ _ _ _ _ _ Hfit)).
  repeat case_decide; simplify_eq/=; try done. by eapply Hsp.
Qed.

Lemma release_tags_one_span sp A base prev t :
  releases A base prev t → one_span sp A → one_span sp (release_tags base prev A).
Proof.
  intros Hrel Hsp k t' Hk. rewrite (lookup_release _ _ _ t) in Hk by done. cbv zeta in Hk.
  pose proof (Hsp _ _ (rel_tag _ _ _ _ Hrel)).
  repeat case_decide; simplify_eq/=; try done. by eapply Hsp.
Qed.

(** With one span, coalescing makes every free run a part of one tag. *)
Lemma free_run sp A base size :
  tags_wf q A → coalesced A → one_span sp A → 0 < size →
  (∀ a, base ≤ a < base + size → free_at A a) →
  ∃ b t, A !! b = Some t ∧ t_free t = true ∧ b ≤ base ∧ base + size ≤ b + t_size t.
Proof.
  intros Hwf Hc Hsp Hpos Hfree. destruct (Hfree base) as (b & t & Hb & Hf & Hi); [lia|].
  exists b, t. unfold inside in *. split_and!; try done; try lia.
  destruct (decide (base + size ≤ b + t_size t)) as [|Hgt]; [done|exfalso].
  destruct (Hfree (b + t_size t)) as (b2 & t2 & Hb2 & Hf2 & Hi2); [lia|]. unfold inside in Hi2.
  assert (b + t_size t ≤ b2).
  { destruct (Z.lt_trichotomy b b2) as [?|[<-|Hlt]].
    - by apply (wf_disjoint _ _ Hwf b t b2 t2).
    - simplify_eq. lia.
    - pose proof (wf_disjoint _ _ Hwf b2 t2 b t Hb2 Hb Hlt). lia. }
  eapply (Hc b t b2 t2); try done; [|lia].
  by rewrite (Hsp _ _ Hb), (Hsp _ _ Hb2).
Qed.

(** ** A new span *)

Record new_span A (base size : Z) : Prop := {
  ns_wf : tags_wf q A;
  ns_low : 0 ≤ base;
  ns_pos : 0 < size;
  ns_high : base + size < two64;
  ns_base : base mod q = 0;
  ns_size : size mod q = 0;
  ns_clear b t : A !! b = Some t → b + t_size t ≤ base ∨ base + size ≤ b;
}.
Definition span_tag (base size : Z) : Tag := mkTag size base true.

Lemma span_unmanaged A base size a :
  new_span A base size → base ≤ a < base + size → ¬ managed A a.
Proof. intros [] Ha (b & t & Hb & Hi). unfold inside in Hi. apply ns_clear0 in Hb. lia. Qed.

Lemma span_fresh A base size : new_span A base size → A !! base = None.
Proof.
  intros []. destruct (A !! base) as [t|] eqn:E; [|done].
  pose proof (ns_clear0 _ _ E). pose proof (wf_tag _ _ ns_wf0 _ _ E). lia.
Qed.

Lemma span_tags_wf A base size :
  new_span A base size → tags_wf q (<[base := span_tag base size]> A).
Proof.
  intros []. split.
  - intros b t. rewrite lookup_insert. case_decide; intros; simplify_eq; [done|].
    by apply (wf_tag _ _ ns_wf0).
  - intros b1 t1 b2 t2. rewrite !lookup_insert.
    assert (∀ b t, A !! b = Some t → 0 < t_size t ∧ (b + t_size t ≤ base ∨ base + size ≤ b)) as Hcl.
    { intros b t Hb. split; [by apply (wf_tag _ _ ns_wf0 _ _ Hb)|by apply ns_clear0]. }
    repeat case_decide; intros H1 H2 Hlt; simplify_eq/=.
    + lia.
    + apply Hcl in H2. lia.
    + apply Hcl in H1. lia.
    + by apply (wf_disjoint _ _ ns_wf0 b1 t1 b2 t2).
Qed.

Lemma span_tags_coalesced A base size :
  new_span A base size → coalesced A → spans_ok A →
  coalesced (<[base := span_tag base size]> A).
Proof.
  intros Hn Hc Hsp b1 t1 b2 t2. rewrite !lookup_insert.
  assert (∀ b t, A !! b = Some t → t_span t ≠ base) as Hne.
  { intros b t Hb <-. eapply span_unmanaged; [done| |by eapply Hsp]. destruct Hn. lia. }
  repeat case_decide; intros H1 H2 F1 F2 Hs; simplify_eq/=.
  - destruct Hn; lia.
  - by eapply Hne in H2.
  - by eapply Hne in H1.
  - by eapply Hc.
Qed.

Lemma span_tags_spans A base size :
  new_span A base size → spans_ok A → spans_ok (<[base := span_tag base size]> A).
Proof.
  intros Hn Hsp b t. pose proof (span_fresh _ _ _ Hn).
  assert (∀ a, managed A a → managed (<[base := span_tag base size]> A) a) as Hm.
  { intros a (b' & t' & Hb' & Hi). exists b', t'. split; [|done].
    rewrite lookup_insert_ne; [done|]. intros ->. congruence. }
  rewrite lookup_insert. case_decide; intros Hb; [|by eapply Hm, Hsp]. injection Hb as <-. simpl.
  exists base, (span_tag base size). rewrite lookup_insert_eq. split; [done|].
  destruct Hn. unfold inside. simpl. lia.
Qed.

Lemma span_tags_allocs A base size :
  new_span A base size → allocs (<[base := span_tag base size]> A) = allocs A.
Proof.
  intros Hn. apply map_eq. intros k. rewrite !lookup_allocs, lookup_insert.
  case_decide; [subst|done]. by rewrite (span_fresh _ _ _ Hn).
Qed.

Lemma span_tags_free_at A base size a :
  new_span A base size →
  free_at (<[base := span_tag base size]> A) a ↔ free_at A a ∨ base ≤ a < base + size.
Proof.
  intros Hn. pose proof (span_fresh _ _ _ Hn) as Hfr. unfold free_at, inside. split.
  - intros (b & t & Hb & Hf & Hi). rewrite lookup_insert in Hb.
    case_decide; simplify_eq; [by right|left; eauto].
  - intros [(b & t & Hb & Hf & Hi)|Hi].
    + exists b, t. rewrite lookup_insert_ne; [done|]. intros ->. congruence.
    + exists base, (span_tag base size). by rewrite lookup_insert_eq.
Qed.
End tags.
