(* ===== verification/Vmem.v ===== *)
(** The virtual-address arena of [mem/vmem.rs]: boundary tags in an ordered
    index, segregated free lists threaded through the tags, and a bitmap of the
    non-empty lists.

    A free-list link ([NonNull<Segment>]) names a tag of the index by its base,
    which a tag keeps for life and which no other published tag has; following
    a link to a tag that is not published is a panic here.  The list walks are
    bounded by the number of published tags. *)
From S2P Require Import Prelude.
From S2P Require Import Index.
Open Scope rust_scope.

Definition FREELIST_COUNT : nat := 64.

Inductive VmemFit : Type := Instant | Best.
#[export] Instance VmemFit_eq_dec : EqDecision VmemFit.
Proof. solve_decision. Defined.

Inductive VmemError : Type := NoSpace | NoMemory | Invalid.
#[export] Instance VmemError_eq_dec : EqDecision VmemError.
Proof. solve_decision. Defined.

(** ** Tags, the arena and reservations *)

Record Segment : Type := mkSegment {
  seg_base : Z;
  seg_size : Z;
  seg_span : Z;
  seg_free : bool;
  seg_previous : option Z;
  seg_next : option Z;
}.

Definition segment_new (base size span : Z) (free : bool) : Segment :=
  mkSegment base size span free None None.

Definition seg_end (s : Segment) : Z := u64_add (seg_base s) (seg_size s).

(** The writes of the [Cell] fields. *)
Definition set_size (n : Z) (s : Segment) : Segment :=
  mkSegment (seg_base s) n (seg_span s) (seg_free s) (seg_previous s) (seg_next s).
Definition set_free (b : bool) (s : Segment) : Segment :=
  mkSegment (seg_base s) (seg_size s) (seg_span s) b (seg_previous s) (seg_next s).
Definition set_previous (p : option Z) (s : Segment) : Segment :=
  mkSegment (seg_base s) (seg_size s) (seg_span s) (seg_free s) p (seg_next s).
Definition set_next (p : option Z) (s : Segment) : Segment :=
  mkSegment (seg_base s) (seg_size s) (seg_span s) (seg_free s) (seg_previous s) p.

Record Reservation : Type := mkReservation {
  res_base : Z;
  res_size : Z;
  res_start : option Node;
  res_end : option Node;
}.

(** ** Pure helpers *)

Definition freelist_index (size : Z) : Z := 63 - leading_zeros (Z.max size 1).
Definition guaranteed_freelist (size : Z) : Z :=
  freelist_index size + (if is_power_of_two size then 0 else 1).

Definition placement (s : Segment) (size align min max : Z) : option Z :=
  match checked_add (Z.max (seg_base s) min) (align - 1) with
  | None => None
  | Some up =>
      let base := Z.land up (u64_not (align - 1)) in
      match checked_add base size with
      | None => None
      | Some end_ => if (end_ <=? seg_end s) && (end_ <=? max) then Some base else None
      end
  end.

Section vmem.
Context {tree : Type → Type} `{!RBTree tree}.

Record Vmem : Type := mkVmem {
  segments : Index tree Segment;
  freelists : list (option Z);
  freelist_map : Z;
  quantum : Z;
  total : Z;
  used : Z;
}.

Definition with_segments (f : Index tree Segment → Index tree Segment) (v : Vmem) : Vmem :=
  mkVmem (f (segments v)) (freelists v) (freelist_map v) (quantum v) (total v) (used v).
Definition with_freelists (f : list (option Z) → list (option Z)) (v : Vmem) : Vmem :=
  mkVmem (segments v) (f (freelists v)) (freelist_map v) (quantum v) (total v) (used v).
Definition with_map (f : Z → Z) (v : Vmem) : Vmem :=
  mkVmem (segments v) (freelists v) (f (freelist_map v)) (quantum v) (total v) (used v).
Definition with_total (n : Z) (v : Vmem) : Vmem :=
  mkVmem (segments v) (freelists v) (freelist_map v) (quantum v) n (used v).
Definition with_used (f : Z → Z) (v : Vmem) : Vmem :=
  mkVmem (segments v) (freelists v) (freelist_map v) (quantum v) (total v) (f (used v)).

Definition on_index {A} (m : M (Index tree Segment) A) : M Vmem A :=
  zoom segments (λ i, with_segments (λ _, i)) m.
(** A write to the tag with the given base. *)
Definition write_tag (b : Z) (f : Segment → Segment) : M Vmem () :=
  modify (with_segments (index_update b f)).

Definition vmem_new (q : Z) : option Vmem :=
  if is_power_of_two q
  then Some (mkVmem index_new (replicate FREELIST_COUNT None) 0 q 0 0)
  else None.

Definition available (v : Vmem) : Z := u64_sub (total v) (used v).

Definition tag (b : Z) : M Vmem Segment :=
  let* v := get in expect (index_get b (segments v)).
(** Following a free-list link. *)
Definition link (p : Z) : M Vmem Segment := tag p.

Definition reserve_tag (b : Z) : M Vmem (result VmemError Node) :=
  let* r := reserve_new b in ret (map_err (λ _, NoMemory) r).

Definition round_size (size : Z) (v : Vmem) : result VmemError Z :=
  if size =? 0 then Err Invalid
  else ok_or ((λ n, Z.land n (u64_not (quantum v - 1))) <$> checked_add size (quantum v - 1))
             Invalid.

Definition fixed_size (base size : Z) (v : Vmem) : result VmemError Z :=
  let? size := round_size size v in
  if negb (is_multiple_of base (quantum v)) || bool_decide (checked_add base size = None)
  then Err Invalid else Ok size.

Definition push_free (b : Z) : M Vmem () :=
  let* t := tag b in
  let list := Z.to_nat (freelist_index (seg_size t)) in
  let* lists := gets freelists in
  let* head := expect (lists !! list) in
  do write_tag b (set_previous None) then
  do write_tag b (set_next head) then
  do (match head with
      | Some h => write_tag h (set_previous (Some b))
      | None => ret ()
      end) then
  do modify (with_freelists (λ l, <[list := Some b]> l)) then
  modify (with_map (λ m, Z.lor m (u64_shl 1 (Z.of_nat list)))).

Definition pop_free (b : Z) : M Vmem () :=
  let* t := tag b in
  let list := Z.to_nat (freelist_index (seg_size t)) in
  let previous := seg_previous t in
  let next := seg_next t in
  do write_tag b (set_previous None) then
  do write_tag b (set_next None) then
  do (match previous with
      | Some p => write_tag p (set_next next)
      | None =>
          let* lists := gets freelists in
          do massert (bool_decide (list < length lists)%nat) then
          do modify (with_freelists (λ l, <[list := next]> l)) then
          match next with
          | None => modify (with_map (λ m, Z.land m (u64_not (u64_shl 1 (Z.of_nat list)))))
          | Some _ => ret ()
          end
      end) then
  match next with
  | Some n => write_tag n (set_previous previous)
  | None => ret ()
  end.

(** [range(..=address).next_back()], kept when it is free and contains
    the address. *)
Definition free_segment_containing (address : Z) (v : Vmem) : option Z :=
  match last (range Unbounded (Included address) (segments v)) with
  | Some (b, t) => if seg_free t && (address <? seg_end t) then Some b else None
  | None => None
  end.

Definition prepare_take (segment base size : Z) : M Vmem (result VmemError Reservation) :=
  let* t := tag segment in
  let! start := (if base =? segment then ret (Ok None)
                 else let! n := reserve_tag base in ret (Ok (Some n))) in
  let! end_ := (if u64_add base size =? seg_end t then ret (Ok None)
                else let! n := reserve_tag (u64_add base size) in ret (Ok (Some n))) in
  ret (Ok (mkReservation base size start end_)).

Definition take (segment : Z) (r : Reservation) : M Vmem () :=
  let base := res_base r in
  let size := res_size r in
  let* original := tag segment in
  let end_ := seg_end original in
  let span := seg_span original in
  do pop_free segment then
  do (if segment <? base then
        do write_tag segment (set_size (u64_sub base segment)) then
        do push_free segment then
        do on_index (index_insert base (segment_new base size span false) (res_start r)) then
        ret ()
      else
        do write_tag segment (set_size size) then
        write_tag segment (set_free false)) then
  do (if u64_add base size <? end_ then
        do on_index (index_insert (u64_add base size)
             (segment_new (u64_add base size) (u64_sub (u64_sub end_ base) size) span true)
             (res_end r)) then
        push_free (u64_add base size)
      else ret ()) then
  modify (with_used (λ u, u64_add u size)).

(** The list walk of [instant_fit]: the first tag that is large enough. *)
Fixpoint instant_walk (fuel : nat) (size : Z) (next : option Z) : M Vmem (option (Z * Z)) :=
  match next with
  | None => ret None
  | Some p =>
      match fuel with
      | O => panic
      | S fuel =>
          let* t := link p in
          if size <=? seg_size t then ret (Some (seg_base t, seg_base t))
          else instant_walk fuel size (seg_next t)
      end
  end.

Definition walk_bound (v : Vmem) : nat := Z.to_nat (len (segments v)).

Definition instant_fit (size : Z) : M Vmem (option (Z * Z)) :=
  let* v := get in
  let guaranteed := guaranteed_freelist size in
  let candidates :=
    if guaranteed <? Z.of_nat FREELIST_COUNT
    then Z.land (freelist_map v) (u64_shl (u64_not 0) guaranteed)
    else 0 in
  if negb (candidates =? 0) then
    let* head := expect (freelists v !! Z.to_nat (trailing_zeros candidates)) in
    let* p := expect head in
    let* t := link p in
    ret (Some (seg_base t, seg_base t))
  else
    let* head := expect (freelists v !! Z.to_nat (freelist_index size)) in
    instant_walk (walk_bound v) size head.

(** The walk of one list in [scan_fit]: [inl] is the early return of the
    first-fit search, [inr] the best candidate of the list. *)
Fixpoint scan_walk (fuel : nat) (size align min max : Z) (best : bool)
    (chosen : option (Z * Z * Z)) (next : option Z) :
    M Vmem (Z * Z + option (Z * Z * Z)) :=
  match next with
  | None => ret (inr chosen)
  | Some p =>
      match fuel with
      | O => panic
      | S fuel =>
          let* t := link p in
          match placement t size align min max with
          | Some base =>
              if negb best then ret (inl (seg_base t, base))
              else
                let better := match chosen with
                              | None => true
                              | Some (_, _, chosen_size) => seg_size t <? chosen_size
                              end in
                scan_walk fuel size align min max best
                  (if better then Some (seg_base t, base, seg_size t) else chosen)
                  (seg_next t)
          | None => scan_walk fuel size align min max best chosen (seg_next t)
          end
      end
  end.

Fixpoint scan_lists (lists : list nat) (size align min max : Z) (best : bool) :
    M Vmem (option (Z * Z)) :=
  match lists with
  | [] => ret None
  | list :: lists =>
      let* v := get in
      let* head := expect (freelists v !! list) in
      let* r := scan_walk (walk_bound v) size align min max best None head in
      match r with
      | inl found => ret (Some found)
      | inr (Some (segment, base, _)) => ret (Some (segment, base))
      | inr None => scan_lists lists size align min max best
      end
  end.

(** [freelist_index(size)..FREELIST_COUNT]. *)
Definition scan_order (size : Z) : list nat :=
  seq (Z.to_nat (freelist_index size)) (FREELIST_COUNT - Z.to_nat (freelist_index size)).

Definition scan_fit (size align min max : Z) (best : bool) : M Vmem (option (Z * Z)) :=
  scan_lists (scan_order size) size align min max best.

(** ** The operations of the arena *)

Definition add_span (base size : Z) : M Vmem (result VmemError ()) :=
  let* v := get in
  let! end_ := ret (ok_or (checked_add base size) Invalid) in
  let! total := ret (ok_or (checked_add (total v) size) Invalid) in
  if (size =? 0)
     || negb (is_multiple_of base (quantum v))
     || negb (is_multiple_of size (quantum v))
     || match last (range Unbounded (Excluded end_) (segments v)) with
        | Some (_, t) => base <? seg_end t
        | None => false
        end
  then ret (Err Invalid)
  else
    let! node := reserve_tag base in
    do on_index (index_insert base (segment_new base size base true) (Some node)) then
    do push_free base then
    do modify (with_total total) then
    ret (Ok ()).

Definition xalloc (size align min max : Z) (fit : VmemFit) : M Vmem (result VmemError Z) :=
  let* v := get in
  let! size := ret (round_size size v) in
  if (align =? 0) || negb (is_power_of_two align) || (max <=? min)
  then ret (Err Invalid)
  else
    let align := Z.max align (quantum v) in
    let* found :=
      (if (min =? 0) && (max =? u64_max) && (align =? quantum v) && bool_decide (fit = Instant)
       then instant_fit size
       else scan_fit size align min max (bool_decide (fit = Best))) in
    let! found := ret (ok_or found NoSpace) in
    let '(segment, base) := found in
    let! reservation := prepare_take segment base size in
    do take segment reservation then
    ret (Ok base).

Definition alloc (size align : Z) (fit : VmemFit) : M Vmem (result VmemError Z) :=
  xalloc size align 0 u64_max fit.

Definition alloc_random (size align entropy : Z) : M Vmem (result VmemError Z) :=
  let* v := get in
  let! size := ret (round_size size v) in
  if (align =? 0) || negb (is_power_of_two align)
  then ret (Err Invalid)
  else
    let align := Z.max align (quantum v) in
    let* found :=
      (if align =? quantum v then instant_fit size
       else scan_fit size align 0 u64_max false) in
    let! found := ret (ok_or found NoSpace) in
    let '(segment, start) := found in
    let* t := tag segment in
    let slack := u64_sub (u64_sub (seg_end t) start) size in
    let base := u64_add start (u64_mul (entropy mod (u64_add (slack / align) 1)) align) in
    let! reservation := prepare_take segment base size in
    do take segment reservation then
    ret (Ok base).

(** The free segment that holds all of [base, base + size). *)
Definition segment_for (base size : Z) : M Vmem (option Z) :=
  let* v := get in
  match free_segment_containing base v with
  | None => ret None
  | Some key =>
      let* t := tag key in
      ret (if u64_add base size <=? seg_end t then Some key else None)
  end.

Definition alloc_fixed (base size : Z) : M Vmem (result VmemError ()) :=
  let* v := get in
  let! size := ret (fixed_size base size v) in
  let* found := segment_for base size in
  let! segment := ret (ok_or found NoSpace) in
  let! reservation := prepare_take segment base size in
  do take segment reservation then
  ret (Ok ()).

Definition reserve_fixed (base size : Z) : M Vmem (result VmemError Reservation) :=
  let* v := get in
  let! size := ret (fixed_size base size v) in
  let! start := reserve_tag base in
  let! end_ := reserve_tag (u64_add base size) in
  ret (Ok (mkReservation base size (Some start) (Some end_))).

Definition alloc_reserved (r : Reservation) : M Vmem () :=
  let* found := segment_for (res_base r) (res_size r) in
  let* segment := expect found in
  take segment r.

Definition is_free (base size : Z) : M Vmem bool :=
  match checked_add base size with
  | None => ret false
  | Some end_ =>
      let* v := get in
      match free_segment_containing base v with
      | None => ret false
      | Some key => let* t := tag key in ret (end_ <=? seg_end t)
      end
  end.

Definition free (base : Z) : M Vmem Z :=
  let* t := tag base in
  do massert (negb (seg_free t)) then
  let size := seg_size t in
  let span := seg_span t in
  let* v := get in
  let next :=
    match head (range (Excluded base) Unbounded (segments v)) with
    | Some (k, n) =>
        if seg_free n && (seg_span n =? span) && (seg_base n =? seg_end t)
        then Some k else None
    | None => None
    end in
  do (match next with
      | Some next =>
          do pop_free next then
          let* b := tag base in
          let* n := tag next in
          do write_tag base (set_size (u64_add (seg_size b) (seg_size n))) then
          do on_index (index_remove next) then
          ret ()
      | None => ret ()
      end) then
  let* v := get in
  let previous :=
    match last (range Unbounded (Excluded base) (segments v)) with
    | Some (k, p) =>
        if seg_free p && (seg_span p =? span) && (seg_end p =? base)
        then Some k else None
    | None => None
    end in
  let* free :=
    (match previous with
     | Some previous =>
         do pop_free previous then
         let* p := tag previous in
         let* b := tag base in
         do write_tag previous (set_size (u64_add (seg_size p) (seg_size b))) then
         do on_index (index_remove base) then
         ret previous
     | None =>
         do write_tag base (set_free true) then
         ret base
     end) in
  do push_free free then
  do modify (with_used (λ u, u64_sub u size)) then
  ret size.
End vmem.
Arguments Vmem : clear implicits.

