(* ===== verification/VmemInv.v ===== *)
(** The representation invariant of the arena of [Vmem.v]: the doubly linked
    free lists and the bitmap describe, for every size class, the tags of that
    class, and each primitive ([push_free], [pop_free], the tag writes, the
    index updates) has a specification in terms of the finite map of tags. *)
From S2P Require Import Prelude.
From S2P Require Import Index.
From S2P Require Import Tags.
From S2P Require Import Vmem.
Open Scope rust_scope.

(** The part of a tag that its free-list links do not change. *)
Definition strip (s : Segment) : Tag := mkTag (seg_size s) (seg_span s) (seg_free s).
Definition class_of (size : Z) : nat := Z.to_nat (freelist_index size).

(** ** Doubly linked list segments *)

Fixpoint dseg (m : gmap Z Segment) (p : option Z) (l : list Z) (n : option Z) : Prop :=
  match l with
  | [] => True
  | b :: l' =>
      ∃ s, m !! b = Some s ∧ seg_previous s = p ∧
           seg_next s = match l' with [] => n | c :: _ => Some c end ∧
           dseg m (Some b) l' n
  end.

Definition first_or (l : list Z) (n : option Z) : option Z :=
  match l with [] => n | c :: _ => Some c end.
Definition last_or (p : option Z) (l : list Z) : option Z :=
  match last l with Some b => Some b | None => p end.

Lemma dseg_app m p l1 l2 n :
  dseg m p (l1 ++ l2) n ↔ dseg m p l1 (first_or l2 n) ∧ dseg m (last_or p l1) l2 n.
Proof.
  revert p. induction l1 as [|b l1 IH]; intros p; simpl; [unfold last_or; simpl; tauto|].
  unfold last_or. rewrite last_cons.
  assert (match l1 ++ l2 with [] => n | c :: _ => Some c end
          = match l1 with [] => first_or l2 n | c :: _ => Some c end) as Heq by (by destruct l1).
  assert (last_or (Some b) l1 = match (match last l1 with Some y => Some y | None => Some b end)
                                with Some b => Some b | None => p end) as Hl.
  { unfold last_or. by destruct (last l1). }
  rewrite <- Hl. rewrite Heq. split.
  - intros (s & ? & ? & ? & Hd). apply IH in Hd as [??]. split; [|done]. by exists s.
  - intros [(s & ? & ? & ? & ?) ?]. exists s. split_and!; [done..|]. by apply IH.
Qed.

Lemma dseg_frame m m' p l n :
  (∀ b, b ∈ l → m' !! b = m !! b) → dseg m p l n → dseg m' p l n.
Proof.
  revert p. induction l as [|b l IH]; intros p Hf; simpl; [done|].
  intros (s & ? & ? & ? & ?). exists s. rewrite Hf by left. split_and!; [done..|].
  apply IH; [|done]. intros b' Hb'. apply Hf. by right.
Qed.

Lemma dseg_set_previous m p p' c l n :
  c ∉ l → dseg m p (c :: l) n → dseg (alter (set_previous p') c m) p' (c :: l) n.
Proof.
  simpl. intros Hc (s & Hs & _ & ? & Hd). exists (set_previous p' s).
  rewrite lookup_alter, decide_True, Hs by done. split_and!; [done..|].
  eapply dseg_frame; [|done]. intros b' Hb'. rewrite lookup_alter_ne; [done|]. by intros ->.
Qed.

Lemma dseg_set_next m p c l n n' :
  c ∉ l → dseg m p (l ++ [c]) n → dseg (alter (set_next n') c m) p (l ++ [c]) n'.
Proof.
  intros Hc. rewrite !dseg_app. intros [H1 (s & Hs & ? & ? & _)]. split.
  - eapply dseg_frame; [|done]. intros b' Hb'. rewrite lookup_alter_ne; [done|]. by intros ->.
  - exists (set_next n' s). rewrite lookup_alter, decide_True, Hs by done. by split_and!.
Qed.

(** ** The lists of the arena *)

Section rep.
Context {tree : Type → Type} `{!RBTree tree, !RBTreeLaws tree}.
Implicit Types (v : Vmem tree) (A : gmap Z Tag) (FL : nat → list Z).

Definition smap v : gmap Z Segment := index_map (segments v).
Definition tags v : gmap Z Tag := strip <$> smap v.

(** [v] stores the tags [A], and its free lists are [FL]. *)
Record rep v A FL : Prop := {
  rep_index : index_ok (segments v);
  rep_base b s : smap v !! b = Some s → seg_base s = b;
  rep_tags : tags v = A;
  rep_len : length (freelists v) = FREELIST_COUNT;
  rep_head i : (i < FREELIST_COUNT)%nat → freelists v !! i = Some (head (FL i));
  rep_none i : (FREELIST_COUNT ≤ i)%nat → FL i = [];
  rep_dll i : dseg (smap v) None (FL i) None;
  rep_nodup i : NoDup (FL i);
  rep_class i b : b ∈ FL i → ∃ t, A !! b = Some t ∧ t_free t = true ∧ class_of (t_size t) = i;
  rep_bits : is_u64 (freelist_map v);
  rep_bit i : (i < FREELIST_COUNT)%nat →
    Z.testbit (freelist_map v) (Z.of_nat i) = negb (bool_decide (FL i = []));
}.

Definition unlisted FL (b : Z) : Prop := ∀ i, b ∉ FL i.
Definition fl_set (i : nat) (l : list Z) FL : nat → list Z :=
  λ j, if decide (j = i) then l else FL j.
(** The counters that the list operations leave alone. *)
Definition same_counters v v' : Prop :=
  quantum v' = quantum v ∧ total v' = total v ∧ used v' = used v.

#[export] Instance same_counters_preorder : PreOrder same_counters.
Proof. unfold same_counters. split; [done|]. intros x y z. intuition congruence. Qed.

Lemma tags_lookup v b : tags v !! b = strip <$> smap v !! b.
Proof. apply lookup_fmap. Qed.

Lemma rep_lookup v A FL b t :
  rep v A FL → A !! b = Some t →
  ∃ s, smap v !! b = Some s ∧ strip s = t ∧ seg_base s = b.
Proof.
  intros Hr HA. rewrite <- (rep_tags _ _ _ Hr), tags_lookup in HA.
  destruct (smap v !! b) as [s|] eqn:E; simplify_eq/=.
  exists s. split_and!; [done..|]. by eapply rep_base.
Qed.

Lemma wp_tag v A FL b t o (Q : Segment → Vmem tree → oracle → Prop) :
  rep v A FL → A !! b = Some t →
  (∀ s, smap v !! b = Some s → strip s = t → seg_base s = b → Q s v o) →
  wp (tag b) Q v o.
Proof.
  intros Hr HA HQ. destruct (rep_lookup _ _ _ _ _ Hr HA) as (s & Hs & Hst & Hb).
  unfold tag. wp_steps. eapply wp_expect; [|by apply HQ].
  rewrite index_get_imap by apply Hr. done.
Qed.

Lemma freelist_index_bound size : is_u64 size → 0 ≤ freelist_index size < 64.
Proof.
  unfold is_u64, freelist_index, leading_zeros. intros.
  destruct (Z.eqb_spec (Z.max size 1) 0); [lia|].
  assert (0 ≤ Z.log2 (Z.max size 1) < 64); [|lia]. split; [apply Z.log2_nonneg|].
  apply Z.log2_lt_pow2; [lia|]. change (2 ^ 64) with two64. lia.
Qed.
Lemma class_of_lt size : is_u64 size → (class_of size < FREELIST_COUNT)%nat.
Proof.
  intros H. apply freelist_index_bound in H. unfold class_of, FREELIST_COUNT. lia.
Qed.
End rep.
Section primitives.
Context {tree : Type → Type} `{!RBTree tree, !RBTreeLaws tree}.
Implicit Types (v : Vmem tree) (A : gmap Z Tag) (FL : nat → list Z).

Lemma smap_write v b f :
  index_ok (segments v) →
  index_ok (segments (with_segments (index_update b f) v)) ∧
  smap (with_segments (index_update b f) v) = alter f b (smap v).
Proof. intros Hok. by apply index_update_ok. Qed.

Lemma strip_alter (m : gmap Z Segment) b f :
  (∀ s, strip (f s) = strip s) → strip <$> alter f b m = strip <$> m.
Proof.
  intros Hf. apply map_eq. intros j. rewrite !lookup_fmap, lookup_alter.
  case_decide; [subst|done]. destruct (m !! j); simpl; [by rewrite Hf|done].
Qed.

(** The state between two link writes: the tags are [A], whatever the lists. *)
Definition stores v A : Prop :=
  index_ok (segments v) ∧ (∀ b s, smap v !! b = Some s → seg_base s = b) ∧ tags v = A.
Definition same_lists v v' : Prop :=
  freelists v' = freelists v ∧ freelist_map v' = freelist_map v ∧ same_counters v v'.

Lemma rep_stores v A FL : rep v A FL → stores v A.
Proof. intros []. done. Qed.
Lemma same_lists_trans v1 v2 v3 : same_lists v1 v2 → same_lists v2 v3 → same_lists v1 v3.
Proof.
  intros (? & ? & H1) (? & ? & H2). split_and!; [congruence..|]. by etrans.
Qed.

(** Writing the links of a tag changes neither its payload nor its base. *)
Lemma wp_write_links v b f A (Q : () → Vmem tree → oracle → Prop) o :
  stores v A → (∀ s, strip (f s) = strip s) → (∀ s, seg_base (f s) = seg_base s) →
  (∀ v', stores v' A → same_lists v v' → smap v' = alter f b (smap v) → Q () v' o) →
  wp (write_tag b f) Q v o.
Proof.
  intros (Hok & Hb & HA) Hs Hb' HQ. unfold write_tag. wp_step.
  destruct (smap_write v b f Hok) as [Hok' Hm']. apply HQ; [|by repeat split|done].
  split_and!; [done| |].
  - intros b' s. rewrite Hm', lookup_alter. case_decide; [subst|apply Hb].
    intros (s' & Hs' & ->)%fmap_Some. rewrite Hb'. by apply Hb.
  - unfold tags. rewrite Hm', strip_alter by done. done.
Qed.

Lemma rep_inj v A FL b i j : rep v A FL → b ∈ FL i → b ∈ FL j → i = j.
Proof.
  intros Hr (t & Ht & _ & <-)%(rep_class _ _ _ Hr) (t' & Ht' & _ & <-)%(rep_class _ _ _ Hr).
  by simplify_eq.
Qed.

Lemma class_bit (size : Z) :
  is_u64 size → 0 ≤ Z.of_nat (class_of size) < 64.
Proof. intros ?%class_of_lt. unfold FREELIST_COUNT in *. lia. Qed.

(** Replacing one list: the shared conclusion of [push_free] and [pop_free]. *)
Lemma rep_set_list v v' A FL i l :
  rep v A FL → (i < FREELIST_COUNT)%nat →
  stores v' A →
  freelists v' = <[i:=head l]> (freelists v) →
  is_u64 (freelist_map v') →
  (∀ j, (j < FREELIST_COUNT)%nat → Z.testbit (freelist_map v') (Z.of_nat j) =
     if decide (j = i) then negb (bool_decide (l = []))
     else Z.testbit (freelist_map v) (Z.of_nat j)) →
  dseg (smap v') None l None →
  (∀ j, j ≠ i → dseg (smap v') None (FL j) None) →
  NoDup l →
  (∀ b, b ∈ l → ∃ t, A !! b = Some t ∧ t_free t = true ∧ class_of (t_size t) = i) →
  rep v' A (fl_set i l FL).
Proof.
  intros Hr Hi (Hok & Hb & HA) Hfl Hu Hbit Hd Hd' Hnd Hcl. unfold fl_set. split; try done.
  - rewrite Hfl, length_insert. apply Hr.
  - intros j Hj. rewrite Hfl. case_decide as E; [subst|].
    + rewrite list_lookup_insert_eq; [done|]. by rewrite (rep_len _ _ _ Hr).
    + rewrite list_lookup_insert_ne by done. by apply Hr.
  - intros j Hj. case_decide; [subst; lia|]. by apply Hr.
  - intros j. case_decide; [by subst|auto].
  - intros j. case_decide; [by subst|apply Hr].
  - intros j b. case_decide; [subst; auto|apply Hr].
  - intros j Hj. rewrite Hbit by done. case_decide; [done|]. by apply Hr.
Qed.

Lemma push_free_spec v A FL b t o :
  rep v A FL → A !! b = Some t → t_free t = true → is_u64 (t_size t) → unlisted FL b →
  wp (push_free b) (λ _ v' o', o' = o ∧ same_counters v v' ∧
     rep v' A (fl_set (class_of (t_size t)) (b :: FL (class_of (t_size t))) FL)) v o.
Proof.
  intros Hr HA Hfree Hsz Hun. unfold push_free. wp_step. eapply wp_tag; [done..|].
  intros s Hs Hst Hbase. assert (seg_size s = t_size t) as -> by (by rewrite <- Hst).
  fold (class_of (t_size t)). set (i := class_of (t_size t)) in *.
  pose proof (class_of_lt _ Hsz) as Hi. fold i in Hi.
  wp_steps. eapply wp_expect; [by apply (rep_head _ _ _ Hr)|].
  wp_step. eapply wp_write_links; [by eapply rep_stores|done..|]. intros v1 Hst1 Hl1 Hm1.
  wp_step. eapply wp_write_links; [done..|]. intros v2 Hst2 Hl2 Hm2.
  pose proof (same_lists_trans _ _ _ Hl1 Hl2) as Hl. clear Hl1 Hl2.
  assert (∃ s2, smap v2 !! b = Some s2 ∧ seg_previous s2 = None ∧ seg_next s2 = head (FL i))
    as (s2 & Hs2 & Hp2 & Hn2).
  { eexists. rewrite Hm2, lookup_alter, decide_True, Hm1, lookup_alter, decide_True, Hs by done.
    by split_and!. }
  assert (∀ j, dseg (smap v2) None (FL j) None) as Hd2.
  { intros j. eapply dseg_frame; [|apply Hr]. intros b' Hb'.
    rewrite Hm2, Hm1, !lookup_alter_ne; [done|intros ->; by apply (Hun j)..]. }
  wp_step. apply wp_mono with (P := λ _ v3 o3, o3 = o ∧ stores v3 A ∧ same_lists v v3 ∧
    dseg (smap v3) None (b :: FL i) None ∧ ∀ j, j ≠ i → dseg (smap v3) None (FL j) None).
  - destruct (FL i) as [|h l] eqn:EFL; cbn [head] in *.
    + wp_step. split_and!; [done..| |auto]. by exists s2.
    + eapply wp_write_links; [done..|]. intros v3 Hst3 Hl3 Hm3.
      assert (h ∈ FL i) as Hh by (rewrite EFL; left).
      assert (h ≠ b) by (intros ->; by apply (Hun i)).
      pose proof (rep_nodup _ _ _ Hr i) as Hnd. rewrite EFL in Hnd.
      apply NoDup_cons in Hnd as [Hh' _]. rewrite Hm3.
      split_and!; [done|done|by eapply same_lists_trans| |].
      * exists s2. rewrite lookup_alter_ne by done. split_and!; [done..|].
        eapply dseg_set_previous; [done|]. specialize (Hd2 i). by rewrite EFL in Hd2.
      * intros j Hj. eapply dseg_frame; [|apply Hd2]. intros b' Hb'.
        rewrite lookup_alter_ne; [done|]. intros ->. apply Hj. by eapply rep_inj.
  - intros _ v3 o3 (-> & Hst3 & (Hfl & Hmap & Hsc) & Hd3 & Hd3'). wp_steps.
    split_and!; [done|apply Hsc|]. pose proof (class_bit _ Hsz) as Hib. fold i in Hib.
    apply (rep_set_list v); try done.
    + simpl. by rewrite Hfl.
    + simpl. rewrite Hmap, u64_shl_1 by done. apply lor_u64; [apply Hr|].
      split; [lia|]. change two64 with (2 ^ 64). apply Z.pow_lt_mono_r; lia.
    + intros j Hj. simpl. rewrite Hmap, u64_shl_1, Z.lor_spec, testbit_pow2 by lia.
      case_decide; [subst; by rewrite bool_decide_true, orb_true_r|].
      rewrite bool_decide_false by lia. by rewrite orb_false_r.
    + apply NoDup_cons. split; [apply Hun|apply Hr].
    + intros b'. rewrite elem_of_cons. intros [->|Hb']; [eauto|].
      by apply (rep_class _ _ _ Hr).
Qed.

Lemma first_or_head l : first_or l None = head l.
Proof. by destruct l. Qed.
Lemma last_or_last l : last_or None l = last l.
Proof. unfold last_or. by destruct (last l). Qed.

(** The links written by [pop_free] cut one element out of a list. *)
Lemma dseg_cut m l1 b l2 :
  NoDup (l1 ++ b :: l2) → dseg m None (l1 ++ b :: l2) None →
  let m1 := match last l1 with Some p => alter (set_next (head l2)) p m | None => m end in
  let m2 := match head l2 with Some n => alter (set_previous (last l1)) n m1 | None => m1 end in
  dseg m2 None (l1 ++ l2) None.
Proof.
  intros Hnd. rewrite dseg_app. intros [H1 H2]. simpl in H1, H2.
  destruct H2 as (s & Hs & Hp & Hn & H2). fold dseg in H2.
  apply NoDup_app in Hnd as (Hnd1 & Hdis & Hnd2).
  apply NoDup_cons in Hnd2 as [Hb2 Hnd2].
  assert (dseg (match last l1 with Some p => alter (set_next (head l2)) p m | None => m end)
            None l1 (head l2)) as H1'.
  { destruct l1 as [|p l1 _] using rev_ind; [done|]. rewrite last_snoc.
    eapply dseg_set_next; [|done]. apply NoDup_app in Hnd1 as (_ & Hd & _).
    intros Hp1. apply (Hd _ Hp1). left. }
  assert (dseg (match last l1 with Some p => alter (set_next (head l2)) p m | None => m end)
            (Some b) l2 None) as H2'.
  { destruct (last l1) as [p|] eqn:El; [|done]. eapply dseg_frame; [|done].
    intros b' Hb'. rewrite lookup_alter_ne; [done|]. intros ->.
    apply last_Some in El as [l' ->]. apply (Hdis b'); [set_solver|by right]. }
  apply dseg_app. rewrite first_or_head, last_or_last. destruct l2 as [|n l2]; [done|].
  cbn [head] in *. apply NoDup_cons in Hnd2 as [Hn2 _]. split.
  - eapply dseg_frame; [|done]. intros b' Hb'. rewrite lookup_alter_ne; [done|].
    intros ->. apply (Hdis b'); [done|]. right. left.
  - by eapply dseg_set_previous.
Qed.

(** The bitmap after a list was replaced by [l]. *)
Definition pop_map v' v i (l : list Z) : Prop :=
  is_u64 (freelist_map v') ∧
  ∀ j, (j < FREELIST_COUNT)%nat → Z.testbit (freelist_map v') (Z.of_nat j) =
    if decide (j = i) then negb (bool_decide (l = []))
    else Z.testbit (freelist_map v) (Z.of_nat j).

Lemma clear_bit bm i :
  is_u64 bm → (i < FREELIST_COUNT)%nat →
  is_u64 (Z.land bm (u64_not (u64_shl 1 (Z.of_nat i)))) ∧
  ∀ j, (j < FREELIST_COUNT)%nat →
    Z.testbit (Z.land bm (u64_not (u64_shl 1 (Z.of_nat i)))) (Z.of_nat j) =
    if decide (j = i) then false else Z.testbit bm (Z.of_nat j).
Proof.
  unfold FREELIST_COUNT. intros Hbm Hi. rewrite u64_shl_1 by lia.
  assert (is_u64 (2 ^ Z.of_nat i)) as Hp.
  { split; [lia|]. change two64 with (2 ^ 64). apply Z.pow_lt_mono_r; lia. }
  split.
  - apply land_u64; [done|]. unfold u64_not, u64_max. destruct Hp. lia.
  - intros j Hj. rewrite Z.land_spec, testbit_not, testbit_pow2 by (done || lia).
    case_decide; [subst; by rewrite bool_decide_true, andb_false_r|].
    rewrite bool_decide_false by lia. by rewrite andb_true_r.
Qed.

Definition unlisted_in (l1 l2 : list Z) (b : Z) : Prop := b ∉ l1 ++ l2.

Lemma pop_free_spec v A FL b t o :
  rep v A FL → A !! b = Some t → is_u64 (t_size t) → b ∈ FL (class_of (t_size t)) →
  ∃ l1 l2, FL (class_of (t_size t)) = l1 ++ b :: l2 ∧
  wp (pop_free b) (λ _ v' o', o' = o ∧ same_counters v v' ∧
     rep v' A (fl_set (class_of (t_size t)) (l1 ++ l2) FL)) v o.
Proof.
  intros Hr HA Hsz Hin. set (i := class_of (t_size t)) in *.
  pose proof (class_of_lt _ Hsz) as Hi. fold i in Hi.
  apply list_elem_of_split in Hin as (l1 & l2 & HFL). exists l1, l2. split; [done|].
  pose proof (rep_dll _ _ _ Hr i) as Hd. pose proof (rep_nodup _ _ _ Hr i) as Hnd.
  rewrite HFL in Hd, Hnd. pose proof Hd as (_ & s0 & Hs0 & Hprev & Hnext & _)%dseg_app.
  rewrite last_or_last in Hprev. fold (first_or l2 None) in Hnext. rewrite first_or_head in Hnext.
  unfold pop_free. wp_step. eapply wp_tag; [done..|]. intros s Hs Hst Hbase.
  assert (s0 = s) as -> by congruence. subst t. cbv zeta.
  change (Z.to_nat (freelist_index (seg_size s))) with i.
  rewrite Hprev, Hnext.
  wp_step. eapply wp_write_links; [by eapply rep_stores|done..|]. intros v1 Hst1 Hl1 Hm1.
  wp_step. eapply wp_write_links; [done..|]. intros v2 Hst2 Hl2 Hm2.
  pose proof (same_lists_trans _ _ _ Hl1 Hl2) as (Hfl2 & Hmap2 & Hsc2). clear Hl1 Hl2.
  assert (∀ b', b' ≠ b → smap v2 !! b' = smap v !! b') as Hfr2.
  { intros b' ?. by rewrite Hm2, lookup_alter_ne, Hm1, lookup_alter_ne by done. }
  pose proof (rep_head _ _ _ Hr i Hi) as Hhead. rewrite HFL in Hhead.
  pose proof (rep_bit _ _ _ Hr i Hi) as Hbit. rewrite HFL in Hbit.
  rewrite bool_decide_false in Hbit by (by destruct l1). simpl in Hbit.
  pose proof (rep_bits _ _ _ Hr) as Hu. pose proof (rep_len _ _ _ Hr) as Hlen.
  wp_step. apply wp_mono with (P := λ _ v3 o3, o3 = o ∧ stores v3 A ∧ same_counters v v3 ∧
    freelists v3 = <[i:=head (l1 ++ l2)]> (freelists v) ∧
    pop_map v3 v i (l1 ++ l2) ∧
    smap v3 = match last l1 with
              | Some p => alter (set_next (head l2)) p (smap v2) | None => smap v2 end).
  { destruct l1 as [|p' l1 _] using rev_ind.
    - cbn [last]. wp_steps. apply wp_massert.
      { apply bool_decide_eq_true. by rewrite Hfl2, Hlen. }
      wp_steps. rewrite (app_nil_l l2) in *. destruct l2 as [|n l2]; cbn [head].
      + wp_step. split_and!; [done|apply Hst2|apply Hsc2|simpl; by rewrite Hfl2| |done].
        unfold pop_map. simpl. rewrite Hmap2. by apply clear_bit.
      + wp_step. split_and!; [done|apply Hst2|apply Hsc2|simpl; by rewrite Hfl2| |done].
        unfold pop_map. simpl. rewrite Hmap2. split; [done|]. intros j Hj. case_decide; [by subst|done].
    - rewrite last_snoc. eapply wp_write_links; [done..|]. intros v3 Hst3 (Hfl3 & Hmap3 & Hsc3) Hm3.
      assert (head ((l1 ++ [p']) ++ l2) = head ((l1 ++ [p']) ++ b :: l2)) as -> by (by destruct l1).
      split_and!; [done|done|by etrans| | |done].
      + rewrite Hfl3, Hfl2. symmetry. by apply list_insert_id.
      + unfold pop_map. rewrite Hmap3, Hmap2. split; [done|]. intros j Hj. case_decide; [|done].
        subst. rewrite bool_decide_false; [done|]. by destruct l1. }
  intros _ v3 o3 (-> & Hst3 & Hsc3 & Hfl3 & [Hu3 Hbit3] & Hm3). cbv beta.
  apply wp_mono with (P := λ _ v4 o4, o4 = o ∧ stores v4 A ∧ same_lists v3 v4 ∧
    smap v4 = match head l2 with
              | Some n => alter (set_previous (last l1)) n (smap v3) | None => smap v3 end).
  { destruct (head l2) as [n|].
    - eapply wp_write_links; [done..|]. intros v4 Hst4 Hl4 Hm4. do 2 (split; [done|]). by split.
    - wp_step. do 2 (split; [done|]). split; [by repeat split|done]. }
  intros _ v4 o4 (-> & Hst4 & (Hfl4 & Hmap4 & Hsc4) & Hm4). cbv beta.
  split_and!; [done|by etrans|].
  assert (∀ b', b' ≠ b → unlisted_in l1 l2 b' → smap v4 !! b' = smap v !! b') as Hfr4.
  { intros b' Hb' Hul. rewrite Hm4, Hm3.
    assert (∀ p, last l1 = Some p → p ≠ b') as Hp1.
    { intros p [l' ->]%last_Some ->. apply Hul. set_solver. }
    assert (∀ n, head l2 = Some n → n ≠ b') as Hn2.
    { intros n Hn ->. apply Hul. destruct l2; simplify_eq/=. set_solver. }
    destruct (head l2), (last l1); rewrite ?lookup_alter_ne by auto; by apply Hfr2. }
  apply (rep_set_list v); try done.
  - by rewrite Hfl4.
  - by rewrite Hmap4.
  - intros j Hj. rewrite Hmap4. by apply Hbit3.
  - eapply dseg_frame; [|by apply (dseg_cut (smap v) l1 b l2)].
    intros b' Hb'. assert (b' ≠ b) as Hne.
    { intros ->. apply NoDup_app in Hnd as (_ & Hdis & Hnd).
      apply NoDup_cons in Hnd as [? _]. apply elem_of_app in Hb' as [Hb'|?]; [|done].
      apply (Hdis _ Hb'). left. }
    rewrite Hm4, Hm3. destruct (head l2), (last l1); rewrite ?lookup_alter, ?Hfr2 by done;
      repeat case_decide; subst; rewrite ?lookup_alter, ?Hfr2 by done; done.
  - intros j Hj. eapply dseg_frame; [|apply Hr]. intros b' Hb'.
    assert (b' ∉ FL i) as Hni by (intros ?; apply Hj; by eapply rep_inj).
    rewrite HFL in Hni. apply Hfr4; [set_solver|]. intros Hin. apply Hni. set_solver.
  - apply NoDup_app in Hnd as (?&Hdis&Hnd). apply NoDup_cons in Hnd as [? ?].
    apply NoDup_app. split_and!; [done| |done]. intros x Hx Hx2. apply (Hdis _ Hx). by right.
  - intros b' Hb'. apply (rep_class _ _ _ Hr). rewrite HFL. set_solver.
Qed.

(** The two list operations, up to the order of the lists. *)
Definition others_kept FL FL' (b : Z) : Prop :=
  ∀ j b', b' ≠ b → b' ∈ FL' j ↔ b' ∈ FL j.

Lemma pop_free_mem v A FL b t o :
  rep v A FL → A !! b = Some t → is_u64 (t_size t) → b ∈ FL (class_of (t_size t)) →
  wp (pop_free b) (λ _ v' o', o' = o ∧ same_counters v v' ∧
     ∃ FL', rep v' A FL' ∧ unlisted FL' b ∧ others_kept FL FL' b) v o.
Proof.
  intros Hr HA Hsz Hin. destruct (pop_free_spec v A FL b t o) as (l1 & l2 & HFL & Hwp); [done..|].
  eapply wp_mono; [done|]. intros _ v' o' (-> & Hsc & Hr'). split; [done|]. split; [done|].
  eexists. split; [done|]. pose proof (rep_nodup _ _ _ Hr (class_of (t_size t))) as Hnd.
  rewrite HFL in Hnd. apply NoDup_app in Hnd as (_ & Hd1 & Hnd).
  apply NoDup_cons in Hnd as [Hb2 _]. split.
  - intros j. unfold fl_set. case_decide as E.
    + rewrite elem_of_app. intros [Hb|?]; [|done]. apply (Hd1 _ Hb). left.
    + intros Hj. apply E. exact (rep_inj _ _ _ _ _ _ Hr Hj Hin).
  - intros j b' Hne. unfold fl_set. case_decide as E; [subst|done]. rewrite HFL.
    rewrite !elem_of_app, elem_of_cons. naive_solver.
Qed.

Lemma push_free_mem v A FL b t o :
  rep v A FL → A !! b = Some t → t_free t = true → is_u64 (t_size t) → unlisted FL b →
  wp (push_free b) (λ _ v' o', o' = o ∧ same_counters v v' ∧
     ∃ FL', rep v' A FL' ∧ b ∈ FL' (class_of (t_size t)) ∧ others_kept FL FL' b) v o.
Proof.
  intros Hr HA Hf Hsz Hun. eapply wp_mono; [by apply push_free_spec|].
  intros _ v' o' (-> & Hsc & Hr'). split; [done|]. split; [done|].
  eexists. split; [done|]. unfold fl_set. split.
  - rewrite decide_True by done. left.
  - intros j b' Hne. case_decide; [subst|done]. rewrite elem_of_cons. naive_solver.
Qed.

(** Changes of the tag map that leave the listed tags alone. *)
Lemma rep_frame v v' A A' FL :
  rep v A FL → stores v' A' → same_lists v v' →
  (∀ i b, b ∈ FL i → smap v' !! b = smap v !! b) → rep v' A' FL.
Proof.
  intros Hr (Hok & Hb & HA') (Hfl & Hmap & _) Hfr. destruct Hr. split; try done.
  - by rewrite Hfl.
  - intros i Hi. rewrite Hfl. auto.
  - intros i. eapply dseg_frame; [|done]. eauto.
  - intros i b Hin. destruct (rep_class0 i b Hin) as (t & Ht & ?). exists t. split; [|done].
    rewrite <- HA', tags_lookup, (Hfr _ _ Hin), <- tags_lookup, rep_tags0. done.
  - by rewrite Hmap.
  - intros i Hi. rewrite Hmap. auto.
Qed.

Lemma wp_write_payload v A FL b t t' f (Q : () → Vmem tree → oracle → Prop) o :
  rep v A FL → A !! b = Some t → unlisted FL b →
  (∀ s, seg_base (f s) = seg_base s) → (∀ s, strip s = t → strip (f s) = t') →
  (∀ v', rep v' (<[b:=t']> A) FL → same_counters v v' → Q () v' o) →
  wp (write_tag b f) Q v o.
Proof.
  intros Hr HA Hun Hb' Hs HQ. unfold write_tag. wp_step.
  destruct (smap_write v b f (rep_index _ _ _ Hr)) as [Hok' Hm'].
  destruct (rep_lookup _ _ _ _ _ Hr HA) as (s & Hsm & Hst & _).
  apply HQ; [|by repeat split]. eapply rep_frame; [done| |by repeat split|].
  - split_and!; [done| |].
    + intros b1 s1. rewrite Hm', lookup_alter. case_decide; [subst|apply Hr].
      intros (s' & Hs' & ->)%fmap_Some. rewrite Hb'. by apply Hr.
    + apply map_eq. intros k. rewrite tags_lookup, Hm', lookup_alter, lookup_insert.
      case_decide; [subst|].
      * rewrite Hsm. simpl. by rewrite (Hs s).
      * by rewrite <- (rep_tags _ _ _ Hr), tags_lookup.
  - intros i b1 Hb1. rewrite Hm', lookup_alter_ne; [done|]. intros ->. by apply (Hun i).
Qed.

Lemma rep_unlisted_fresh v A FL b : rep v A FL → A !! b = None → unlisted FL b.
Proof. intros Hr HA i Hin. destruct (rep_class _ _ _ Hr i b Hin) as (t & ? & _). congruence. Qed.

Lemma wp_insert_tag v A FL k s (Q : option Segment → Vmem tree → oracle → Prop) o :
  rep v A FL → A !! k = None → seg_base s = k →
  (∀ v' x, rep v' (<[k:=strip s]> A) FL → same_counters v v' → Q x v' o) →
  wp (on_index (index_insert k s (Some (mkNode k)))) Q v o.
Proof.
  intros Hr HA Hk HQ. unfold on_index. apply wp_zoom. apply wp_index_insert; [apply Hr|done|].
  intros i' Hok' Hm'. apply HQ; [|by repeat split].
  assert (smap (with_segments (λ _, i') v) = <[k:=s]> (smap v)) as Hsm by done.
  eapply rep_frame; [done| |by repeat split|].
  - split_and!; [done| |].
    + intros b1 s1. rewrite Hsm, lookup_insert. case_decide; [|apply Hr]. intros. by simplify_eq.
    + unfold tags. rewrite Hsm, fmap_insert. f_equal. apply Hr.
  - intros i b1 Hb1. rewrite Hsm, lookup_insert_ne; [done|]. intros ->.
    by eapply rep_unlisted_fresh.
Qed.

Lemma wp_remove_tag v A FL k t (Q : option Segment → Vmem tree → oracle → Prop) o :
  rep v A FL → A !! k = Some t → unlisted FL k →
  (∀ v' x, rep v' (delete k A) FL → same_counters v v' → Q x v' o) →
  wp (on_index (index_remove k)) Q v o.
Proof.
  intros Hr HA Hun HQ. destruct (rep_lookup _ _ _ _ _ Hr HA) as (s & Hs & Hst & _).
  unfold on_index. apply wp_zoom. eapply wp_index_remove; [apply Hr|done|].
  intros i' Hok' Hm'. apply HQ; [|by repeat split].
  assert (smap (with_segments (λ _, i') v) = delete k (smap v)) as Hsm by done.
  eapply rep_frame; [done| |by repeat split|].
  - split_and!; [done| |].
    + intros b1 s1. rewrite Hsm, lookup_delete. case_decide; [done|apply Hr].
    + unfold tags. rewrite Hsm, fmap_delete. f_equal. apply Hr.
  - intros i b1 Hb1. rewrite Hsm, lookup_delete_ne; [done|]. intros ->. by apply (Hun i).
Qed.

Lemma rep_with_used v A FL f : rep v A FL → rep (with_used f v) A FL.
Proof. intros []. by split. Qed.
Lemma rep_with_total v A FL n : rep v A FL → rep (with_total n v) A FL.
Proof. intros []. by split. Qed.
End primitives.
