(* ===== verification/VmemFit.v ===== *)
(** Correctness of the arena operations of [Vmem.v]: every operation keeps
    the invariant [vmem_inv], never panics on an arena that satisfies it, and
    changes the allocations and the free addresses as its contract says. *)
From S2P Require Import Prelude.
From S2P Require Import Index.
From S2P Require Import Tags.
From S2P Require Import Vmem.
From S2P Require Import VmemInv.
Open Scope rust_scope.

(** Chains of steps that keep the counters. *)
Ltac counters := unfold same_counters in *; destruct_and?; split_and!; congruence.

Section spec.
Context {tree : Type → Type} `{!RBTree tree, !RBTreeLaws tree}.
Implicit Types (v : Vmem tree) (A : gmap Z Tag) (FL : nat → list Z) (o : oracle).

(** Every free tag is on the list of its class. *)
Definition all_listed A FL : Prop :=
  ∀ b t, A !! b = Some t → t_free t = true → b ∈ FL (class_of (t_size t)).

(** The invariant between two operations. *)
Record inv_with v FL : Prop := {
  inv_rep : rep v (tags v) FL;
  inv_listed : all_listed (tags v) FL;
  inv_quantum : pow2 (quantum v);
  inv_wf : tags_wf (quantum v) (tags v);
  inv_coalesced : coalesced (tags v);
  inv_spans : spans_ok (tags v);
  inv_total : total v = msum t_size (tags v);
  inv_used : used v = msum used_size (tags v);
  inv_bound : total v < two64;
}.
Definition vmem_inv v : Prop := ∃ FL, inv_with v FL.

(** The allocations of the arena and its free addresses. *)
Definition allocated v : gmap Z Z := allocs (tags v).
Definition address_free v (a : Z) : Prop := free_at (tags v) a.

Lemma wf_size_u64 q A b t : tags_wf q A → A !! b = Some t → is_u64 (t_size t).
Proof. intros Hwf Hb. pose proof (wf_tag _ _ Hwf _ _ Hb). unfold is_u64. lia. Qed.

Lemma seg_end_exact q A b s :
  tags_wf q A → A !! b = Some (strip s) → seg_base s = b → seg_end s = b + seg_size s.
Proof.
  intros Hwf Hb <-. pose proof (wf_tag _ _ Hwf _ _ Hb). unfold seg_end. simpl in *.
  apply u64_add_small. lia.
Qed.

Lemma used_le_total q A : tags_wf q A → msum used_size A ≤ msum t_size A ∧ 0 ≤ msum used_size A.
Proof.
  intros Hwf. split.
  - apply (msum_le_Forall). intros b t Hb. pose proof (wf_tag _ _ Hwf _ _ Hb).
    unfold used_size. destruct (t_free t); lia.
  - apply msum_nonneg. intros b t Hb. pose proof (wf_tag _ _ Hwf _ _ Hb).
    unfold used_size. destruct (t_free t); lia.
Qed.

(** The nodes a reservation must hold to take a range of a free tag. *)
Definition nodes_for (seg : Z) (t : Tag) (r : Reservation) : Prop :=
  (seg < res_base r → res_start r = Some (mkNode (res_base r))) ∧
  (res_base r + res_size r < seg + t_size t →
   res_end r = Some (mkNode (res_base r + res_size r))).

Lemma take_spec v q A FL seg r t o :
  rep v A FL → all_listed A FL → 0 < q → tags_wf q A →
  fits q A seg (res_base r) (res_size r) t → nodes_for seg t r →
  0 ≤ used v → used v + res_size r < two64 →
  wp (take seg r) (λ _ v' o', o' = o ∧ quantum v' = quantum v ∧ total v' = total v ∧
     used v' = used v + res_size r ∧
     ∃ FL', rep v' (take_tags seg (res_base r) (res_size r) A) FL' ∧
            all_listed (take_tags seg (res_base r) (res_size r) A) FL') v o.
Proof.
  destruct r as [base size start end_]; simpl. intros Hr Hall Hq Hwf Hfit [Hn1 Hn2] Hu0 Hu1.
  simpl in *. pose proof Hfit as [Hs Hf Hl Hp Hh Hbq Hsq].
  pose proof (wf_tag _ _ Hwf _ _ Hs) as (H0 & H1 & H2 & _).
  destruct (take_tags_fresh q _ _ _ _ _ Hwf Hfit) as [Hfr1 Hfr2].
  pose proof (λ k, lookup_take q A seg base size t k Hwf Hfit) as Hlk.
  unfold take. cbn [res_base res_size res_start res_end].
  wp_step. eapply wp_tag; [done..|]. intros s Hsm Hst Hsb. cbv zeta.
  rewrite (seg_end_exact q A seg s) by (done || by rewrite Hst).
  assert (seg_size s = t_size t) as -> by (by rewrite <- Hst).
  assert (seg_span s = t_span t) as -> by (by rewrite <- Hst).
  wp_step. eapply wp_mono.
  { eapply pop_free_mem; [done..| |by apply Hall]. by eapply wf_size_u64. }
  intros _ v1 o1 (-> & Hsc1 & FL1 & Hr1 & Hun1 & Hk1). cbv beta.
  set (A1 := if decide (seg < base)
             then <[base := mkTag size (t_span t) false]>
                    (<[seg := mkTag (base - seg) (t_span t) true]> A)
             else <[seg := mkTag size (t_span t) false]> A).
  wp_step. apply wp_mono with (P := λ _ v2 o2, o2 = o ∧ same_counters v v2 ∧
    ∃ FL2, rep v2 A1 FL2 ∧ all_listed A1 FL2).
  { unfold A1. destruct (Z.ltb_spec seg base) as [Hlt|Hge].
    - rewrite (decide_True (P := seg < base)) by done. rewrite u64_sub_small by lia.
      wp_step. eapply (wp_write_payload _ _ _ _ t (mkTag (base - seg) (t_span t) true));
        [done..|intros s' <-; unfold strip; simpl in *; by rewrite Hf|].
      intros v2 Hr2 Hsc2. wp_step. eapply wp_mono.
      { eapply push_free_mem; [done|by apply lookup_insert_eq|done|unfold is_u64; simpl; lia|done]. }
      intros _ v3 o3 (-> & Hsc3 & FL3 & Hr3 & Hin3 & Hk3). wp_step. rewrite Hn1 by done.
      eapply wp_insert_tag; [done| |done|].
      { rewrite lookup_insert_ne by lia. apply Hfr1. lia. }
      intros v4 _ Hr4 Hsc4. wp_step.
      split; [done|]. split; [by counters|]. exists FL3.
      split; [done|]. intros b t' Hb Ht'. rewrite !lookup_insert in Hb.
      repeat case_decide; simplify_eq; try done.
      all: apply Hk3, Hk1; [done|done|by apply Hall].
    - assert (seg = base) as <- by lia. rewrite (decide_False (P := seg < seg)) by lia.
      wp_step. eapply (wp_write_payload _ _ _ _ t (mkTag size (t_span t) true));
        [done..|intros s' <-; unfold strip; simpl in *; by rewrite Hf|].
      intros v2 Hr2 Hsc2.
      eapply (wp_write_payload _ _ _ _ (mkTag size (t_span t) true) (mkTag size (t_span t) false));
        [done|by apply lookup_insert_eq|done|done| |].
      { intros s' Hs'. unfold strip in *. simpl in *. congruence. }
      intros v3 Hr3 Hsc3. rewrite insert_insert_eq in Hr3.
      split; [done|]. split; [by counters|]. exists FL1. split; [done|].
      intros b t' Hb Ht'. rewrite lookup_insert in Hb. case_decide; simplify_eq.
      apply Hk1; [done|]. by apply Hall. }
  intros _ v2 o2 (-> & Hsc2 & FL2 & Hr2 & Hall2). cbv beta.
  rewrite u64_add_small by lia. wp_step.
  apply wp_mono with (P := λ _ v3 o3, o3 = o ∧ same_counters v v3 ∧
    ∃ FL3, rep v3 (take_tags seg base size A) FL3 ∧ all_listed (take_tags seg base size A) FL3).
  { unfold take_tags. rewrite Hs. fold A1. destruct (Z.ltb_spec (base + size) (seg + t_size t)) as [Hlt|Hge].
    - rewrite (decide_True (P := base + size < seg + t_size t)) by done. rewrite Hn2 by done.
      assert (u64_sub (u64_sub (seg + t_size t) base) size = seg + t_size t - base - size) as ->.
      { rewrite (u64_sub_small (seg + t_size t)) by lia. apply u64_sub_small. lia. }
      assert (A1 !! (base + size) = None) as Hnone.
      { unfold A1. destruct (decide (seg < base)); rewrite !lookup_insert_ne by lia; auto. }
      wp_step. eapply wp_insert_tag; [done|done|done|]. intros v3 _ Hr3 Hsc3.
      eapply wp_mono.
      { eapply push_free_mem; [done|by apply lookup_insert_eq|done|unfold is_u64; simpl; lia|].
        by apply (rep_unlisted_fresh _ _ _ _ Hr2). }
      intros _ v4 o4 (-> & Hsc4 & FL4 & Hr4 & Hin4 & Hk4).
      split; [done|]. split; [by counters|]. exists FL4. split; [done|].
      intros b t' Hb Ht'. rewrite lookup_insert in Hb. case_decide; simplify_eq; [done|].
      apply Hk4; [done|]. by apply Hall2.
    - rewrite (decide_False (P := base + size < seg + t_size t)) by lia. wp_step.
      split; [done|]. split; [done|]. by exists FL2. }
  intros _ v3 o3 (-> & (Hq3 & Ht3 & Hu3) & FL3 & Hr3 & Hall3). wp_step. simpl.
  rewrite Hu3. split_and!; [done..|apply u64_add_small; lia|].
  exists FL3. split; [by apply rep_with_used|done].
Qed.

(** ** Rounding and reservations *)

Lemma round_size_spec v size :
  pow2 (quantum v) → is_u64 size →
  match round_size size v with
  | Ok n => 0 < size ≤ n ∧ n < size + quantum v ∧ n mod quantum v = 0 ∧ is_u64 n
  | Err e => e = Invalid ∧ (size = 0 ∨ two64 ≤ size + quantum v - 1)
  end.
Proof.
  intros Hq Hs. pose proof (pow2_pos _ Hq) as Hq0. pose proof (pow2_bound _ Hq).
  unfold is_u64 in Hs. unfold round_size. destruct (Z.eqb_spec size 0) as [|Hnz]; [by auto|].
  destruct (checked_add size (quantum v - 1)) as [n|] eqn:E; simpl.
  - apply checked_add_Some in E as [-> Hn].
    rewrite land_not_mask by (done || unfold is_u64; lia).
    set (n := size + (quantum v - 1)) in *.
    pose proof (Z.mod_pos_bound n (quantum v) Hq0).
    assert ((n - n mod quantum v) mod quantum v = 0).
    { rewrite Zminus_mod_idemp_r, Z.sub_diag. by apply Z.mod_0_l; lia. }
    unfold is_u64. split_and!; lia.
  - apply checked_add_None in E. split; [done|]. lia.
Qed.

Lemma fixed_size_spec v base size :
  pow2 (quantum v) → is_u64 size → is_u64 base →
  match fixed_size base size v with
  | Ok n => round_size size v = Ok n ∧ base mod quantum v = 0 ∧ base + n < two64
  | Err e => e = Invalid
  end.
Proof.
  intros Hq Hs Hb. pose proof (round_size_spec v size Hq Hs) as Hrs. unfold fixed_size.
  destruct (round_size size v) as [n|e]; simpl; [|tauto].
  destruct (is_multiple_of base (quantum v)) eqn:Em; simpl; [|done].
  apply is_multiple_of_mod in Em; [|by apply pow2_pos].
  case_bool_decide as Ec; [done|]. split_and!; [done..|].
  destruct (checked_add base n) eqn:E; [|done]. by apply checked_add_Some in E as [_ ?].
Qed.

Lemma wp_reserve_tag v b o (Q : result VmemError Node → Vmem tree → oracle → Prop) :
  (∀ o', o' ⊆ o → Q (Ok (mkNode b)) v o') →
  (∀ o', o' ⊆ o → false ∈ o → Q (Err NoMemory) v o') →
  wp (reserve_tag b) Q v o.
Proof.
  intros H1 H2. unfold reserve_tag. wp_step.
  apply wp_reserve_new; intros; wp_step; simpl; auto.
Qed.

Lemma prepare_take_spec v q A FL seg base size t o :
  rep v A FL → tags_wf q A → fits q A seg base size t →
  wp (prepare_take seg base size) (λ r v' o', v' = v ∧ o' ⊆ o ∧
     match r with
     | Ok r => res_base r = base ∧ res_size r = size ∧ nodes_for seg t r
     | Err e => e = NoMemory ∧ false ∈ o
     end) v o.
Proof.
  intros Hr Hwf Hfit. pose proof Hfit as [Hs Hf Hl Hp Hh _ _].
  pose proof (wf_tag _ _ Hwf _ _ Hs) as (H0 & H1 & H2 & _).
  unfold prepare_take. wp_step. eapply wp_tag; [done..|]. intros s Hsm Hst Hsb.
  rewrite (seg_end_exact q A seg s) by (done || by rewrite Hst).
  assert (seg_size s = t_size t) as -> by (by rewrite <- Hst).
  rewrite u64_add_small by lia.
  assert (∀ k (b : bool) o1, wp (if b then ret (Ok None)
      else let! n := reserve_tag k in ret (Ok (Some n)))
    (λ r v' o', v' = v ∧ o' ⊆ o1 ∧ match r with
      | Ok n => b = false → n = Some (mkNode k)
      | Err e => e = NoMemory ∧ false ∈ o1 end) v o1) as Hnode.
  { intros k [] o1; cbv iota; wp_step; [done|]. apply wp_reserve_tag; intros; cbv beta iota; [wp_step|]; done. }
  wp_step. eapply wp_mono; [apply Hnode|].
  intros [start|e] v' o1 (-> & Ho1 & Hst1); [|done]. wp_step. eapply wp_mono; [apply Hnode|].
  intros [end_|e] v' o2 (-> & Ho2 & Hst2).
  - wp_step. split; [done|]. split; [by etrans|]. do 2 (split; [done|]). split; simpl; intros.
    + apply Hst1, Z.eqb_neq. lia.
    + apply Hst2, Z.eqb_neq. lia.
  - split; [done|]. split; [by etrans|]. destruct Hst2 as [-> Hin]. split; [done|]. by apply Ho1.
Qed.
End spec.

(** ** The search of the free lists: [instant_fit] and [scan_fit] are sound and
    complete, and the best-fit scan returns a smallest suitable tag. *)

(** ** Size classes *)

Lemma freelist_index_log2 n : freelist_index n = Z.log2 (Z.max n 1).
Proof.
  unfold freelist_index, leading_zeros. destruct (Z.eqb_spec (Z.max n 1) 0); lia.
Qed.
Lemma class_of_mono n m : n ≤ m → (class_of n ≤ class_of m)%nat.
Proof.
  intros H. unfold class_of. rewrite !freelist_index_log2. apply Z2Nat.inj_le.
  - apply Z.log2_nonneg.
  - apply Z.log2_nonneg.
  - apply Z.log2_le_mono. lia.
Qed.
Lemma class_of_lt_size n m : 0 < n → 0 < m → (class_of n < class_of m)%nat → n < m.
Proof.
  intros Hn Hm Hc. destruct (decide (n < m)); [done|].
  pose proof (class_of_mono m n ltac:(lia)). lia.
Qed.

(** Every tag of a guaranteed class is large enough. *)
Lemma guaranteed_fits size n :
  0 < size → 0 < n → guaranteed_freelist size ≤ freelist_index n → size ≤ n.
Proof.
  intros Hs Hn. unfold guaranteed_freelist. rewrite !freelist_index_log2, !Z.max_l by lia.
  pose proof (Z.log2_spec n Hn) as [Hlo _]. unfold is_power_of_two.
  destruct (Z.eqb_spec size (2 ^ Z.log2 size)) as [He|He]; intros Hg.
  - rewrite He. etrans; [|exact Hlo]. apply Z.pow_le_mono_r; lia.
  - pose proof (Z.log2_spec size Hs) as [_ Hhi]. etrans; [apply Z.lt_le_incl, Hhi|].
    etrans; [|exact Hlo]. apply Z.pow_le_mono_r; lia.
Qed.

Lemma testbit_mask_from g i :
  0 ≤ g < 64 → 0 ≤ i < 64 → Z.testbit (u64_shl (u64_not 0) g) i = (g <=? i).
Proof.
  intros Hg Hi. unfold u64_shl, wrap64. change two64 with (2 ^ 64).
  rewrite Z.mod_pow2_bits_low by lia.
  rewrite Z.shiftl_spec by lia. change (u64_not 0) with (Z.ones 64).
  destruct (Z.leb_spec g i).
  - apply Z.ones_spec_low. lia.
  - apply Z.testbit_neg_r. lia.
Qed.

(** ** Placement inside one tag *)

(** [x] is an aligned base for [size] bytes inside the tag at [b] and inside
    the window [min, max]. *)
Definition fit_ok (b : Z) (t : Tag) (size align min max x : Z) : Prop :=
  b ≤ x ∧ min ≤ x ∧ x mod align = 0 ∧ x + size ≤ b + t_size t ∧ x + size ≤ max.

Lemma two64_mod align : pow2 align → two64 mod align = 0.
Proof.
  intros (k & Hk & ->). change two64 with (2 ^ 64).
  replace 64 with ((64 - k) + k) by lia. rewrite Z.pow_add_r by lia.
  apply Z.mod_mul. lia.
Qed.

Lemma aligned_up_least m align x :
  pow2 align → m ≤ x → x mod align = 0 →
  m + (align - 1) - (m + (align - 1)) mod align ≤ x.
Proof.
  intros Ha Hm Hx. pose proof (pow2_pos _ Ha).
  pose proof (Z.mod_pos_bound (m + (align - 1)) align ltac:(lia)).
  pose proof (Z.div_mod (m + (align - 1)) align ltac:(lia)).
  pose proof (Z.div_mod x align ltac:(lia)).
  assert ((m + (align - 1)) / align ≤ x / align); [|nia].
  apply Z.lt_succ_r. apply Z.div_lt_upper_bound; [lia|]. nia.
Qed.

Lemma placement_spec s b t size align min max :
  strip s = t → seg_base s = b → 0 ≤ b → 0 < t_size t → b + t_size t < two64 →
  pow2 align → 0 ≤ min → 0 < size →
  match placement s size align min max with
  | Some x => fit_ok b t size align min max x ∧
              ∀ y, fit_ok b t size align min max y → x ≤ y
  | None => ∀ y, ¬ fit_ok b t size align min max y
  end.
Proof.
  intros Hst <- H0 H1 H2 Ha Hmin Hsz. pose proof (pow2_pos _ Ha). pose proof (pow2_bound _ Ha).
  assert (seg_end s = seg_base s + t_size t) as Hend.
  { unfold seg_end. rewrite <- Hst. apply u64_add_small. rewrite <- Hst in *. simpl in *. lia. }
  unfold placement, fit_ok. set (m := Z.max (seg_base s) min).
  destruct (checked_add m (align - 1)) as [up|] eqn:E1.
  - apply checked_add_Some in E1 as [-> Hup]. rewrite land_not_mask by (done || unfold is_u64; lia).
    set (x := m + (align - 1) - (m + (align - 1)) mod align).
    pose proof (λ y, aligned_up_least m align y Ha) as Hleast. fold x in Hleast.
    pose proof (Z.mod_pos_bound (m + (align - 1)) align ltac:(lia)).
    assert (x mod align = 0).
    { unfold x. rewrite Zminus_mod_idemp_r, Z.sub_diag. apply Z.mod_0_l. lia. }
    assert (m ≤ x) by lia.
    destruct (checked_add x size) as [e|] eqn:E2.
    + apply checked_add_Some in E2 as [-> He]. rewrite Hend.
      destruct (Z.leb_spec (x + size) (seg_base s + t_size t)); simpl.
      * destruct (Z.leb_spec (x + size) max); simpl.
        -- split; [split_and!; lia|]. intros y (?&?&?&?&?). apply Hleast; [lia|done].
        -- intros y (?&?&?&?&?). assert (x ≤ y) by (apply Hleast; [lia|done]). lia.
      * intros y (?&?&?&?&?). assert (x ≤ y) by (apply Hleast; [lia|done]). lia.
    + apply checked_add_None in E2. intros y (?&?&?&?&?).
      assert (x ≤ y) by (apply Hleast; [lia|done]). lia.
  - apply checked_add_None in E1. intros y (?&?&?&?&?).
    assert (m + (align - 1) - (m + (align - 1)) mod align ≤ y)
      by (apply aligned_up_least; [done|lia|done]).
    pose proof (aligned_up_least (two64 - (align - 1)) align two64 Ha) as Hl.
    assert (two64 ≤ m + (align - 1) - (m + (align - 1)) mod align); [|lia].
    pose proof (Z.mod_pos_bound (m + (align - 1)) align ltac:(lia)).
    pose proof (two64_mod _ Ha) as Hd. apply Z.mod_divide in Hd as [d Hd]; [|lia].
    pose proof (Z.div_mod (m + (align - 1)) align ltac:(lia)).
    assert (d ≤ (m + (align - 1)) / align); [|nia].
    apply Z.div_le_lower_bound; [lia|]. lia.
Qed.

(** ** Walking one list *)

Section walks.
Context {tree : Type → Type} `{!RBTree tree, !RBTreeLaws tree}.
Implicit Types (v : Vmem tree) (A : gmap Z Tag) (FL : nat → list Z) (o : oracle).

Lemma list_within_index v A FL i :
  rep v A FL → (length (FL i) ≤ walk_bound v)%nat.
Proof.
  intros Hr. unfold walk_bound. rewrite index_ok_size by apply Hr. rewrite Nat2Z.id.
  rewrite <- size_dom, <- (size_list_to_set (C:=gset Z) (FL i)) by apply Hr.
  apply subseteq_size. intros b Hb. apply elem_of_list_to_set in Hb.
  destruct (rep_class _ _ _ Hr i b Hb) as (t & Ht & _).
  destruct (rep_lookup _ _ _ _ _ Hr Ht) as (s & Hs & _). apply elem_of_dom. by exists s.
Qed.

(** The tag of a list cell and the cell that follows. *)
Lemma wp_link v A FL i p b l (Q : Segment → Vmem tree → oracle → Prop) o :
  rep v A FL → dseg (smap v) p (b :: l) None → b ∈ FL i →
  (∀ s t, A !! b = Some t → strip s = t → seg_base s = b → t_free t = true →
     seg_next s = head l → class_of (t_size t) = i → Q s v o) →
  wp (link b) Q v o.
Proof.
  intros Hr (s0 & Hs0 & _ & Hn & _) Hin HQ.
  destruct (rep_class _ _ _ Hr i b Hin) as (t & Ht & Hf & Hc).
  unfold link. eapply wp_tag; [done..|]. intros s Hs Hst Hb.
  assert (s0 = s) as -> by congruence. by apply (HQ s t).
Qed.

Lemma instant_walk_spec v A FL i size o : ∀ l fuel p,
  rep v A FL → (∀ b, b ∈ l → b ∈ FL i) → dseg (smap v) p l None → (length l ≤ fuel)%nat →
  wp (instant_walk fuel size (head l)) (λ r v' o', v' = v ∧ o' = o ∧
     match r with
     | Some (seg, base) => base = seg ∧
         ∃ t, A !! seg = Some t ∧ t_free t = true ∧ size ≤ t_size t
     | None => ∀ b t, b ∈ l → A !! b = Some t → t_size t < size
     end) v o.
Proof.
  induction l as [|b l IH]; intros fuel p Hr Hsub Hd Hfuel.
  { destruct fuel; cbn; split_and!; try done; intros ? ? []%not_elem_of_nil. }
  simpl in Hfuel. destruct fuel as [|fuel]; [lia|]. cbn [head instant_walk]. wp_step.
  eapply (wp_link _ _ _ i); [done|done|apply Hsub; left|].
  intros s t Ht Hst Hb Hf Hn Hc. assert (seg_size s = t_size t) as -> by (by rewrite <- Hst).
  destruct (Z.leb_spec size (t_size t)).
  - wp_step. rewrite Hb. split_and!; [done..|]. by exists t.
  - rewrite Hn. destruct Hd as (s1 & _ & _ & _ & Hd).
    eapply wp_mono; [eapply IH; [done| |done|lia]|].
    { intros b' Hb'. apply Hsub. by right. }
    intros [[seg base]|] v' o' (-> & -> & H'); do 2 (split; [done|]); [done|].
    intros b' t' [->|Hb']%elem_of_cons Ht'; [|by eapply H'].
    simplify_eq. lia.
Qed.

(** Lookup of the head of a list. *)
Lemma freelists_lookup v A FL i :
  rep v A FL → (i < FREELIST_COUNT)%nat → freelists v !! i = Some (head (FL i)).
Proof. intros Hr. apply Hr. Qed.

Lemma instant_fit_spec v FL size o :
  inv_with v FL → is_u64 size → 0 < size →
  wp (instant_fit size) (λ r v' o', v' = v ∧ o' = o ∧
     match r with
     | Some (seg, base) => base = seg ∧
         ∃ t, tags v !! seg = Some t ∧ t_free t = true ∧ size ≤ t_size t
     | None => ∀ b t, tags v !! b = Some t → t_free t = true → t_size t < size
     end) v o.
Proof.
  intros Hinv Hsz Hpos. pose proof (inv_rep _ _ Hinv) as Hr.
  pose proof (inv_wf _ _ Hinv) as Hwf.
  pose proof (freelist_index_bound _ Hsz) as Hfi.
  assert (0 ≤ guaranteed_freelist size) as Hg0.
  { unfold guaranteed_freelist. destruct (is_power_of_two size); lia. }
  assert (∀ i, 0 ≤ i < 64 → (guaranteed_freelist size <? Z.of_nat FREELIST_COUNT) = true →
    Z.testbit (Z.land (freelist_map v) (u64_shl (u64_not 0) (guaranteed_freelist size))) i
    = Z.testbit (freelist_map v) i && (guaranteed_freelist size <=? i)) as Hbits.
  { intros i Hi Hlt%Z.ltb_lt. rewrite Z.land_spec, testbit_mask_from; [done| |done].
    unfold FREELIST_COUNT in Hlt. lia. }
  unfold instant_fit. wp_steps.
  set (cand := if guaranteed_freelist size <? Z.of_nat FREELIST_COUNT then _ else 0) in *.
  destruct (Z.eqb_spec cand 0) as [Hc|Hc]; simpl.
  - (* no guaranteed list: the straddling list is searched *)
    wp_step. eapply wp_expect; [by apply (freelists_lookup _ _ _ _ Hr), class_of_lt|].
    eapply wp_mono; [eapply (instant_walk_spec _ _ _ (class_of size) _ _ (FL (class_of size)));
      [done|done|apply Hr|by eapply list_within_index]|].
    intros [[seg base]|] v' o' (-> & -> & H'); do 2 (split; [done|]); [done|].
    intros b t Hb Hf. pose proof (wf_tag _ _ Hwf _ _ Hb) as (_&Hp&_).
    pose proof (inv_listed _ _ Hinv _ _ Hb Hf) as Hin.
    destruct (decide (t_size t < size)) as [|Hge]; [done|exfalso].
    pose proof (wf_size_u64 _ _ _ _ Hwf Hb) as Hu.
    pose proof (freelist_index_bound _ Hu) as Hfb.
    pose proof (class_of_mono size (t_size t) ltac:(lia)) as Hcl.
    destruct (decide (class_of (t_size t) = class_of size)) as [He|Hne].
    { rewrite He in Hin. specialize (H' _ _ Hin Hb). lia. }
    assert (guaranteed_freelist size ≤ freelist_index (t_size t)) as Hle.
    { unfold guaranteed_freelist. unfold class_of in *. destruct (is_power_of_two size); lia. }
    assert ((guaranteed_freelist size <? Z.of_nat FREELIST_COUNT) = true) as Hlt
      by (apply Z.ltb_lt; unfold FREELIST_COUNT; lia).
    specialize (Hbits (freelist_index (t_size t)) Hfb Hlt). unfold cand in Hc.
    rewrite Hlt in Hc. rewrite Hc, Z.bits_0 in Hbits.
    pose proof (rep_bit _ _ _ Hr (class_of (t_size t)) (class_of_lt _ Hu)) as Hbit.
    unfold class_of in Hbit. rewrite Z2Nat.id in Hbit by lia. rewrite Hbit in Hbits.
    rewrite bool_decide_false in Hbits.
    + simpl in Hbits. symmetry in Hbits. apply Z.leb_gt in Hbits. lia.
    + intros Hnil. fold (class_of (t_size t)) in Hnil. rewrite Hnil in Hin.
      by apply not_elem_of_nil in Hin.
  - (* the first non-empty guaranteed list *)
    assert ((guaranteed_freelist size <? Z.of_nat FREELIST_COUNT) = true) as Hlt.
    { unfold cand in Hc. by destruct (guaranteed_freelist size <? _). }
    unfold cand in *. rewrite Hlt in *. set (c := Z.land _ _) in *.
    assert (is_u64 c) as Hcu.
    { apply land_u64; [apply Hr|]. apply wrap64_is_u64. }
    assert (∃ j, 0 ≤ j < 64 ∧ Z.testbit c j = true) as (j & Hj & Hbj).
    { exists (Z.log2 c). destruct Hcu as [Hc0 Hc1]. split; [|apply Z.bit_log2; lia].
      split; [apply Z.log2_nonneg|]. apply Z.log2_lt_pow2; [lia|]. change (2 ^ 64) with two64. lia. }
    destruct (lowest_bit_from_spec 64 0 c j) as (Hlo & Hbit & _); [lia|done|].
    fold (trailing_zeros c) in Hlo, Hbit. set (i := trailing_zeros c) in *.
    rewrite Hbits in Hbit by lia || done. apply andb_true_iff in Hbit as [Hb1 Hb2%Z.leb_le].
    assert (Z.to_nat i < FREELIST_COUNT)%nat as Hi by (unfold FREELIST_COUNT; lia).
    pose proof (rep_bit _ _ _ Hr _ Hi) as Hne. rewrite Z2Nat.id, Hb1 in Hne by lia.
    destruct (FL (Z.to_nat i)) as [|p l] eqn:EFL; [done|].
    wp_step. eapply wp_expect; [by apply (freelists_lookup _ _ _ _ Hr)|]. rewrite EFL.
    cbn [head]. wp_steps.
    pose proof (rep_dll _ _ _ Hr (Z.to_nat i)) as Hd. rewrite EFL in Hd.
    eapply (wp_link _ _ _ (Z.to_nat i)); [done|done|rewrite EFL; left|].
    intros s t Ht Hst Hb Hf _ Hcl. wp_step. rewrite Hb. split_and!; [done..|].
    exists t. split_and!; [done..|]. pose proof (wf_tag _ _ Hwf _ _ Ht) as (_&Hp&_).
    apply guaranteed_fits; [done..|].
    pose proof (freelist_index_bound _ (wf_size_u64 _ _ _ _ Hwf Ht)).
    unfold class_of in Hcl. lia.
Qed.

(** ** Scanning with alignment and a window *)

Section scan.
Context (v : Vmem tree) (FL : nat → list Z) (Hinv : inv_with v FL).
Context (size align min max : Z).
Context (Hsize : is_u64 size) (Hpos : 0 < size) (Halign : pow2 align) (Hmin : 0 ≤ min).

(** The tag at [b] is free and has room for the request at [x]. *)
Definition candidate (b : Z) (t : Tag) (x : Z) : Prop :=
  tags v !! b = Some t ∧ t_free t = true ∧ fit_ok b t size align min max x.

Lemma candidate_size b t x : candidate b t x → size ≤ t_size t.
Proof. intros (Hb & _ & (?&?&?&?&?)). lia. Qed.

(** One cell of a walk. *)
Lemma wp_scan_cell i p b l (Q : Segment → Vmem tree → oracle → Prop) o :
  dseg (smap v) p (b :: l) None → b ∈ FL i →
  (∀ s t, tags v !! b = Some t → seg_base s = b → seg_size s = t_size t →
     seg_next s = head l → class_of (t_size t) = i →
     match placement s size align min max with
     | Some x => candidate b t x
     | None => ∀ y, ¬ candidate b t y
     end → Q s v o) →
  wp (link b) Q v o.
Proof.
  intros Hd Hin HQ. eapply (wp_link _ _ _ i); [apply Hinv|done..|].
  intros s t Ht Hst Hb Hf Hn Hc. apply (HQ s t); try done; [by rewrite <- Hst|].
  pose proof (wf_tag _ _ (inv_wf _ _ Hinv) _ _ Ht) as (H0 & H1 & H2 & _).
  pose proof (placement_spec s b t size align min max Hst Hb H0 H1 H2 Halign Hmin Hpos) as Hp.
  destruct (placement s size align min max).
  - by destruct Hp.
  - intros y (_ & _ & Hy). by apply (Hp y).
Qed.

Lemma first_walk_spec i o : ∀ l fuel p,
  (∀ b, b ∈ l → b ∈ FL i) → dseg (smap v) p l None → (length l ≤ fuel)%nat →
  wp (scan_walk fuel size align min max false None (head l)) (λ r v' o', v' = v ∧ o' = o ∧
     match r with
     | inl (b, x) => ∃ t, candidate b t x
     | inr c => c = None ∧ ∀ b t y, b ∈ l → ¬ candidate b t y
     end) v o.
Proof.
  induction l as [|b l IH]; intros fuel p Hsub Hd Hfuel.
  { destruct fuel; cbn; split_and!; try done; intros ? ? ? []%not_elem_of_nil. }
  simpl in Hfuel. destruct fuel as [|fuel]; [lia|]. cbn [head scan_walk]. wp_step.
  eapply (wp_scan_cell i); [done|apply Hsub; left|]. intros s t Ht Hb Hs Hn Hc Hpl.
  destruct (placement s size align min max) as [x|]; cbn [negb].
  - wp_step. rewrite Hb. split_and!; [done..|]. by exists t.
  - rewrite Hn. destruct Hd as (s1 & _ & _ & _ & Hd).
    eapply wp_mono; [eapply IH; [|done|lia]; set_solver|].
    intros [[seg base]|c] v' o' (-> & -> & H'); do 2 (split; [done|]); [done|].
    destruct H' as [-> H']. split; [done|].
    intros b' t' y [->|Hb']%elem_of_cons Hcand; [|by eapply H'].
    destruct Hcand as (Ht' & Hcand). assert (t' = t) as -> by congruence.
    by apply (Hpl y).
Qed.

(** The best candidate so far. *)
Definition chosen_ok (c : option (Z * Z * Z)) : Prop :=
  match c with Some (b, x, n) => ∃ t, candidate b t x ∧ t_size t = n | None => True end.
Definition at_most (c : option (Z * Z * Z)) (n : Z) : Prop :=
  match c with Some (_, _, m) => m ≤ n | None => False end.

Lemma best_walk_spec i o : ∀ l fuel p chosen,
  (∀ b, b ∈ l → b ∈ FL i) → dseg (smap v) p l None → (length l ≤ fuel)%nat →
  chosen_ok chosen →
  wp (scan_walk fuel size align min max true chosen (head l)) (λ r v' o', v' = v ∧ o' = o ∧
     ∃ c, r = inr c ∧ chosen_ok c ∧
       (∀ n, at_most chosen n → at_most c n) ∧
       (∀ b t y, b ∈ l → candidate b t y → at_most c (t_size t)) ∧
       (c = chosen ∨ ∃ b x n, c = Some (b, x, n) ∧ b ∈ FL i)) v o.
Proof.
  induction l as [|b l IH]; intros fuel p chosen Hsub Hd Hfuel Hch.
  { destruct fuel; cbn; split_and!; try done; exists chosen; split_and!; try done;
      try (intros ? ? ? []%not_elem_of_nil); by left. }
  simpl in Hfuel. destruct fuel as [|fuel]; [lia|]. cbn [head scan_walk]. wp_step.
  eapply (wp_scan_cell i); [done|apply Hsub; left|]. intros s t Ht Hb Hs Hn Hc Hpl.
  destruct Hd as (s1 & _ & _ & _ & Hd). rewrite Hn.
  assert (∀ b, b ∈ l → b ∈ FL i) as Hsub' by (intros; apply Hsub; by right).
  assert (b ∈ FL i) as Hbi by (apply Hsub; left).
  assert (∀ b' t' y, b' ∈ b :: l → candidate b' t' y → b' ∈ l ∨ (b' = b ∧ t' = t)) as Hcons.
  { intros b' t' y [->|?]%elem_of_cons (Ht' & _); [right; split; congruence|by left]. }
  destruct (placement s size align min max) as [x|]; cbn [negb].
  - rewrite Hb, Hs.
    set (better := match chosen with None => true | Some (_, _, m) => t_size t <? m end).
    assert (chosen_ok (if better then Some (b, x, t_size t) else chosen)) as Hch'.
    { destruct better; [|done]. by exists t. }
    eapply wp_mono; [by eapply (IH fuel _ _ Hsub' Hd ltac:(lia) Hch')|].
    intros r v' o' (-> & -> & c & -> & Hok & Hle & Hall & Hor).
    do 2 (split; [done|]). exists c. split_and!; [done|done| | |].
    + intros m Hm. apply Hle. unfold better. destruct chosen as [[[? ?] m']|]; [|done].
      simpl in *. destruct (Z.ltb_spec (t_size t) m'); simpl; lia.
    + intros b' t' y Hin Hcand. destruct (Hcons _ _ _ Hin Hcand) as [?|[-> ->]]; [by eapply Hall|].
      apply Hle. unfold better. destruct chosen as [[[? ?] m']|]; simpl; [|lia].
      destruct (Z.ltb_spec (t_size t) m'); simpl; lia.
    + destruct Hor as [->|?]; [|by right]. destruct better; [right; eauto|by left].
  - eapply wp_mono; [by eapply (IH fuel _ _ Hsub' Hd ltac:(lia) Hch)|].
    intros r v' o' (-> & -> & c & -> & Hok & Hle & Hall & Hor).
    do 2 (split; [done|]). exists c. split_and!; try done.
    intros b' t' y Hin Hcand. destruct (Hcons _ _ _ Hin Hcand) as [?|[-> ->]]; [by eapply Hall|].
    by destruct (Hpl y).
Qed.

(** The lists in the order of the scan: the first list with a candidate
    decides, and every later list holds larger tags. *)
Lemma scan_lists_spec best o : ∀ n k, (k + n = FREELIST_COUNT)%nat →
  wp (scan_lists (seq k n) size align min max best) (λ r v' o', v' = v ∧ o' = o ∧
     match r with
     | Some (b, x) => ∃ t, candidate b t x ∧
         (best = true → ∀ b' t' y, candidate b' t' y → (k ≤ class_of (t_size t'))%nat →
                        t_size t ≤ t_size t')
     | None => ∀ b t y, candidate b t y → (class_of (t_size t) < k)%nat
     end) v o.
Proof.
  induction n as [|n IH]; intros k Hk.
  { cbn. split_and!; try done. intros b t y Hcand. destruct Hcand as (Hb & _).
    rewrite Nat.add_0_r in Hk. subst. apply class_of_lt.
    by eapply wf_size_u64; [apply Hinv|]. }
  cbn [seq scan_lists]. wp_steps. pose proof (inv_rep _ _ Hinv) as Hr.
  eapply wp_expect; [apply (freelists_lookup _ _ _ _ Hr); lia|]. wp_step.
  pose proof (list_within_index _ _ _ k Hr) as Hlen.
  assert (∀ b t y, candidate b t y → b ∈ FL (class_of (t_size t))) as Hlisted.
  { intros b t y (Hb & Hf & _). by apply (inv_listed _ _ Hinv). }
  destruct best.
  - eapply wp_mono; [eapply (best_walk_spec k o (FL k)); [done|apply Hr|done|done]|].
    intros r v' o' (-> & -> & c & -> & Hok & _ & Hall & Hor).
    destruct c as [[[b x] m]|].
    + wp_step. do 2 (split; [done|]). destruct Hok as (t & Hcand & <-). exists t. split; [done|].
      intros _ b' t' y Hcand' Hle. destruct Hor as [?|(? & ? & ? & [= <- <- <-] & Hbk)]; [done|].
      destruct (decide (class_of (t_size t') = k)) as [He|Hne].
      { apply (Hall b' t' y); [|done]. rewrite <- He. by eapply Hlisted. }
      destruct (rep_class _ _ _ Hr _ _ Hbk) as (t1 & Ht1 & _ & Hc1).
      assert (t1 = t) as -> by (destruct Hcand; congruence).
      pose proof (candidate_size _ _ _ Hcand). pose proof (candidate_size _ _ _ Hcand').
      apply Z.lt_le_incl, class_of_lt_size; lia.
    + eapply wp_mono; [apply IH; lia|].
      assert (∀ b t y, candidate b t y → class_of (t_size t) ≠ k) as Hnk.
      { intros b t y Hcand He. apply (Hall b t y); [|done]. rewrite <- He. by eapply Hlisted. }
      intros [[b x]|] v' o' (-> & -> & H'); do 2 (split; [done|]).
      * destruct H' as (t & Hcand & Hbest). exists t. split; [done|].
        intros _ b' t' y Hcand' Hle. eapply (Hbest eq_refl); [done|].
        specialize (Hnk _ _ _ Hcand'). lia.
      * intros b t y Hcand. specialize (H' _ _ _ Hcand). specialize (Hnk _ _ _ Hcand). lia.
  - eapply wp_mono; [eapply (first_walk_spec k o (FL k)); [done|apply Hr|done]|].
    intros [[b x]|c] v' o' (-> & -> & H').
    + wp_step. do 2 (split; [done|]). destruct H' as (t & Hcand). by exists t.
    + destruct H' as [-> H']. eapply wp_mono; [apply IH; lia|].
      intros [[b x]|] v' o' (-> & -> & Hn); do 2 (split; [done|]).
      * destruct Hn as (t & Hcand & _). by exists t.
      * intros b t y Hcand. specialize (Hn _ _ _ Hcand).
        destruct (decide (class_of (t_size t) = k)) as [He|]; [|lia].
        exfalso. apply (H' b t y); [|done]. rewrite <- He. by eapply Hlisted.
Qed.

Lemma scan_fit_spec best o :
  wp (scan_fit size align min max best) (λ r v' o', v' = v ∧ o' = o ∧
     match r with
     | Some (b, x) => ∃ t, candidate b t x ∧
         (best = true → ∀ b' t' y, candidate b' t' y → t_size t ≤ t_size t')
     | None => ∀ b t y, ¬ candidate b t y
     end) v o.
Proof.
  pose proof (class_of_lt _ Hsize) as Hlt. unfold scan_fit, scan_order.
  eapply wp_mono; [apply scan_lists_spec; unfold class_of in *; lia|].
  assert (∀ b t y, candidate b t y → (class_of size ≤ class_of (t_size t))%nat) as Hge.
  { intros b t y Hcand. apply class_of_mono. by eapply candidate_size. }
  intros [[b x]|] v' o' (-> & -> & H'); do 2 (split; [done|]).
  - destruct H' as (t & Hcand & Hbest). exists t. split; [done|].
    intros Hb b' t' y Hcand'. eapply Hbest; [done|done|]. by eapply Hge.
  - intros b t y Hcand. specialize (H' _ _ _ Hcand). specialize (Hge _ _ _ Hcand).
    unfold class_of in *. lia.
Qed.
End scan.
End walks.
