(* ===== verification/VmemOps.v ===== *)
(** The contracts of the public operations of the arena ([mem/vmem.rs]).

    [alloc_effect] and [free_effect] describe an allocation and its return on
    the abstract arena: the finite map of allocations and the set of free
    addresses.  All operations are total on arenas that satisfy [vmem_inv]. *)
From S2P Require Import Prelude.
From S2P Require Import Index.
From S2P Require Import Tags.
From S2P Require Import Vmem.
From S2P Require Import VmemInv.
From S2P Require Import VmemFit.
Open Scope rust_scope.

Section ops.
Context {tree : Type → Type} `{!RBTree tree, !RBTreeLaws tree}.
Implicit Types (v : Vmem tree) (A : gmap Z Tag) (FL : nat → list Z) (o : oracle).

(** [size] bytes at [base] went from free to allocated. *)
Record alloc_effect v v' (base size : Z) : Prop := {
  ae_inv : vmem_inv v';
  ae_was_free a : base ≤ a < base + size → address_free v a;
  ae_fresh : allocated v !! base = None;
  ae_allocated : allocated v' = <[base := size]> (allocated v);
  ae_free a : address_free v' a ↔ address_free v a ∧ ¬ (base ≤ a < base + size);
  ae_quantum : quantum v' = quantum v;
  ae_total : total v' = total v;
  ae_used : used v' = used v + size;
  ae_span sp : one_span sp (tags v) → one_span sp (tags v');
}.

(** And back. *)
Record free_effect v v' (base size : Z) : Prop := {
  fe_inv : vmem_inv v';
  fe_allocated : allocated v' = delete base (allocated v);
  fe_free a : address_free v' a ↔ address_free v a ∨ base ≤ a < base + size;
  fe_quantum : quantum v' = quantum v;
  fe_total : total v' = total v;
  fe_used : used v' = used v - size;
  fe_span sp : one_span sp (tags v) → one_span sp (tags v');
}.

Lemma inv_used_bounds v FL : inv_with v FL → 0 ≤ used v ≤ total v ∧ total v < two64.
Proof.
  intros Hinv. destruct (used_le_total _ _ (inv_wf _ _ Hinv)).
  rewrite (inv_used _ _ Hinv), (inv_total _ _ Hinv). pose proof (inv_bound _ _ Hinv) as Hb.
  rewrite (inv_total _ _ Hinv) in Hb. lia.
Qed.

Lemma free_not_allocated q A b t : tags_wf q A → A !! b = Some t → t_free t = true →
  ∀ x, b ≤ x < b + t_size t → allocs A !! x = None.
Proof.
  intros Hwf Hb Hf x Hx. rewrite lookup_allocs. destruct (decide (x = b)) as [->|].
  - rewrite Hb. simpl. unfold alloc_of. by rewrite Hf.
  - by rewrite (wf_inside q A b t x) by (done || lia).
Qed.

Lemma take_effect v FL seg r t o :
  inv_with v FL → fits (quantum v) (tags v) seg (res_base r) (res_size r) t →
  nodes_for seg t r →
  wp (take seg r) (λ _ v' o', o' = o ∧ alloc_effect v v' (res_base r) (res_size r)) v o.
Proof.
  intros Hinv Hfit Hn. pose proof (inv_used_bounds _ _ Hinv) as [Hu Ht].
  pose proof (pow2_pos _ (inv_quantum _ _ Hinv)) as Hq. pose proof (inv_wf _ _ Hinv) as Hwf.
  destruct (take_tags_sum _ _ _ _ _ _ Hwf Hfit) as [Hs1 Hs2].
  pose proof (take_tags_wf _ _ _ _ _ _ Hwf Hfit) as Hwf'.
  destruct (used_le_total _ _ Hwf') as [Hle _]. rewrite Hs1, Hs2 in Hle.
  rewrite <- (inv_used _ _ Hinv), <- (inv_total _ _ Hinv) in Hle.
  eapply wp_mono; [eapply take_spec; [apply Hinv|apply Hinv|done..|lia|lia]|].
  intros _ v' o' (-> & Hq' & Ht' & Hu' & FL' & Hr' & Hl'). split; [done|].
  pose proof (rep_tags _ _ _ Hr') as Htags. pose proof Hfit as [Htg Hf Hl Hp Hh _ _].
  split; unfold allocated, address_free; rewrite ?Htags; try done.
  - exists FL'. split; rewrite ?Htags, ?Hq'; try done; try apply Hinv.
    + by eapply take_tags_coalesced; [..|apply Hinv|].
    + by eapply take_tags_spans; [..|apply Hinv].
    + by rewrite Ht', Hs1, (inv_total _ _ Hinv).
    + by rewrite Hu', Hs2, (inv_used _ _ Hinv).
    + rewrite Ht'. apply Hinv.
  - intros a Ha. eapply take_tags_inside; [done| |done]. done.
  - eapply free_not_allocated; [done..|lia].
  - by eapply take_tags_allocs.
  - intros a. by eapply take_tags_free_at.
  - intros sp. by eapply take_tags_one_span.
Qed.

(** The tail shared by the allocators: reserve nodes, then take. *)
Lemma commit_spec {B} v FL seg base size t o (x : B) :
  inv_with v FL → fits (quantum v) (tags v) seg base size t →
  wp (let! reservation := prepare_take seg base size in
      do take seg reservation then ret (Ok x))
     (λ r v' o', o' ⊆ o ∧ match r with
                 | Ok y => y = x ∧ alloc_effect v v' base size
                 | Err e => v' = v ∧ e = NoMemory ∧ false ∈ o
                 end) v o.
Proof.
  intros Hinv Hfit. wp_step.
  eapply wp_mono; [eapply prepare_take_spec; [apply Hinv|apply Hinv|done]|].
  intros [r|e] v' o' (-> & Ho & Hr); [|done]. destruct Hr as (<- & <- & Hn).
  wp_step. eapply wp_mono; [by eapply take_effect|]. intros _ v' o1 [-> Heff]. wp_step. done.
Qed.

(** The arguments that [xalloc] and [alloc_random] refuse. *)
Definition bad_size v (size : Z) : Prop := size = 0 ∨ two64 ≤ size + quantum v - 1.

Lemma candidate_fits v FL size align min max b t x :
  inv_with v FL → 0 < size → size mod quantum v = 0 → pow2 align → quantum v ≤ align →
  candidate v size align min max b t x → fits (quantum v) (tags v) b x size t.
Proof.
  intros Hinv Hp Hs Ha Hq (Hb & Hf & (?&?&Hx&?&?)). split; try done.
  pose proof (pow2_divide _ _ (inv_quantum _ _ Hinv) Ha Hq) as [d ->].
  pose proof (pow2_pos _ (inv_quantum _ _ Hinv)).
  apply Z.mod_divide in Hx as [e ->]; [|intros H'; rewrite H' in *; lia].
  rewrite Z.mul_assoc. by apply Z.mod_mul; lia.
Qed.

(** What the search of [xalloc] returns, whichever list it used. *)
Lemma search_spec v FL size align min max fit o :
  inv_with v FL → is_u64 size → 0 < size → size mod quantum v = 0 → pow2 align →
  quantum v ≤ align → 0 ≤ min →
  wp (if (min =? 0) && (max =? u64_max) && (align =? quantum v) && bool_decide (fit = Instant)
      then instant_fit size
      else scan_fit size align min max (bool_decide (fit = Best)))
     (λ r v' o', v' = v ∧ o' = o ∧
       match r with
       | Some (b, x) => ∃ t, candidate v size align min max b t x ∧
           (fit = Best → ∀ b' t' y, candidate v size align min max b' t' y → t_size t ≤ t_size t')
       | None => ∀ b t y, ¬ candidate v size align min max b t y
       end) v o.
Proof.
  intros Hinv Hs Hp Hmod Ha Hq Hmin.
  destruct ((min =? 0) && (max =? u64_max) && (align =? quantum v) && bool_decide (fit = Instant)) eqn:E.
  - rewrite !andb_true_iff, !Z.eqb_eq, bool_decide_eq_true in E.
    destruct E as [[[-> ->] ->] ->].
    eapply wp_mono; [by eapply instant_fit_spec|].
    intros [[b x]|] v' o' (-> & -> & H'); do 2 (split; [done|]).
    + destruct H' as (-> & t & Hb & Hf & Hle). exists t. split; [|done].
      pose proof (wf_tag _ _ (inv_wf _ _ Hinv) _ _ Hb) as (?&?&?&?&?).
      unfold candidate, fit_ok. split_and!; try done; unfold u64_max; lia.
    + intros b t y (Hb & Hf & (?&?&?&?&?)). specialize (H' _ _ Hb Hf). lia.
  - eapply wp_mono; [by eapply scan_fit_spec|].
    intros [[b x]|] v' o' (-> & -> & H'); do 2 (split; [done|]); [|done].
    destruct H' as (t & Hc & Hbest). exists t. split; [done|].
    intros ->. by apply Hbest.
Qed.

Lemma eff_align v FL align :
  inv_with v FL → pow2 align → pow2 (Z.max align (quantum v)).
Proof. intros Hinv Ha. apply pow2_max; [done|apply Hinv]. Qed.

(** The whole contract of [xalloc]. *)
Definition xalloc_post v (size align min max : Z) (fit : VmemFit) o
    (r : result VmemError Z) v' : Prop :=
  match r with
  | Ok base => ∃ n b t, round_size size v = Ok n ∧
      candidate v n (Z.max align (quantum v)) min max b t base ∧
      (fit = Best → ∀ b' t' y, candidate v n (Z.max align (quantum v)) min max b' t' y →
                     t_size t ≤ t_size t') ∧
      alloc_effect v v' base n
  | Err Invalid => v' = v ∧ (bad_size v size ∨ ¬ pow2 align ∨ max ≤ min)
  | Err NoSpace => v' = v ∧ ∃ n, round_size size v = Ok n ∧
      ∀ b t y, ¬ candidate v n (Z.max align (quantum v)) min max b t y
  | Err NoMemory => v' = v ∧ false ∈ o
  end.

Lemma align_check align : is_u64 align →
  if (align =? 0) || negb (is_power_of_two align) then ¬ pow2 align else pow2 align.
Proof.
  intros Hu. pose proof (is_power_of_two_pow2 align Hu) as H.
  destruct (Z.eqb_spec align 0) as [->|]; simpl.
  - intros ?%pow2_pos. lia.
  - destruct (is_power_of_two align); simpl; [by apply H|]. by intros ?%H.
Qed.

Lemma xalloc_spec v FL size align min max fit o :
  inv_with v FL → is_u64 size → is_u64 align → 0 ≤ min →
  wp (xalloc size align min max fit)
     (λ r v' o', o' ⊆ o ∧ xalloc_post v size align min max fit o r v') v o.
Proof.
  intros Hinv Hs Ha Hmin. unfold xalloc. wp_steps.
  pose proof (round_size_spec v size (inv_quantum _ _ Hinv) Hs) as Hrs.
  destruct (round_size size v) as [n|e] eqn:Ers; cbv iota; [|by destruct Hrs as [-> ?]; split; [done|]; split; auto].
  pose proof (align_check align Ha) as Hp2.
  destruct ((align =? 0) || negb (is_power_of_two align)); simpl; [wp_step; split; [done|]; split; auto|].
  destruct (Z.leb_spec max min); [wp_step; split; [done|]; split; auto|].
  pose proof (eff_align _ _ _ Hinv Hp2) as Hal. destruct Hrs as (? & ? & ? & ?).
  wp_step. eapply wp_mono; [eapply search_spec; [done..|lia|done|done|lia|done]|].
  intros [[b x]|] v' o' (-> & -> & H'); cbv beta; wp_steps; simpl.
  - destruct H' as (t & Hc & Hbest). eapply wp_mono.
    { eapply commit_spec; [done|]. eapply candidate_fits; [done|lia|done|done|lia|done]. }
    intros [y|e] v' o' [Ho Hr]; simpl; (split; [done|]).
    + destruct Hr as [-> Heff]. by exists n, b, t.
    + by destruct Hr as (-> & -> & ?).
  - split; [done|]. split; [done|]. by exists n.
Qed.

(** [alloc_random] shifts the found base by a multiple of the alignment. *)
Definition random_post v (size align : Z) o (r : result VmemError Z) v' : Prop :=
  match r with
  | Ok base => ∃ n b t, round_size size v = Ok n ∧
      candidate v n (Z.max align (quantum v)) 0 u64_max b t base ∧ alloc_effect v v' base n
  | Err Invalid => v' = v ∧ (bad_size v size ∨ ¬ pow2 align)
  | Err NoSpace => v' = v ∧ ∃ n, round_size size v = Ok n ∧
      ∀ b t y, ¬ candidate v n (Z.max align (quantum v)) 0 u64_max b t y
  | Err NoMemory => v' = v ∧ false ∈ o
  end.

Lemma random_shift v FL size align b t start entropy :
  inv_with v FL → 0 < size → pow2 align → 0 ≤ entropy →
  candidate v size align 0 u64_max b t start →
  let slack := u64_sub (u64_sub (b + t_size t) start) size in
  let base := u64_add start (u64_mul (entropy mod (u64_add (slack / align) 1)) align) in
  candidate v size align 0 u64_max b t base.
Proof.
  intros Hinv Hsz Ha He (Hb & Hf & (H1 & H2 & H3 & H4 & H5)).
  pose proof (pow2_pos _ Ha) as Hap. pose proof (wf_tag _ _ (inv_wf _ _ Hinv) _ _ Hb) as (?&?&?&_).
  intros slack. assert (slack = b + t_size t - start - size) as Hsl.
  { unfold slack. rewrite (u64_sub_small (b + t_size t)) by lia. apply u64_sub_small. lia. }
  assert (0 ≤ slack / align ≤ slack) as Hd.
  { split; [apply Z.div_pos; lia|]. apply Z.div_le_upper_bound; [lia|]. nia. }
  rewrite (u64_add_small (slack / align)) by lia.
  pose proof (Z.mod_pos_bound entropy (slack / align + 1) ltac:(lia)) as Hk.
  set (k := entropy mod (slack / align + 1)) in *.
  pose proof (Z.mul_div_le slack align Hap) as Hm.
  assert (0 ≤ k * align ≤ slack) as Hka by nia.
  rewrite u64_mul_small, u64_add_small by lia. do 2 (split; [done|]). unfold fit_ok.
  unfold u64_max. split_and!; try lia. rewrite Z.mod_add by lia. done.
Qed.

Lemma alloc_random_spec v FL size align entropy o :
  inv_with v FL → is_u64 size → is_u64 align → 0 ≤ entropy →
  wp (alloc_random size align entropy) (λ r v' o', o' ⊆ o ∧ random_post v size align o r v') v o.
Proof.
  intros Hinv Hs Ha He. unfold alloc_random. wp_steps.
  pose proof (round_size_spec v size (inv_quantum _ _ Hinv) Hs) as Hrs.
  destruct (round_size size v) as [n|e] eqn:Ers; cbv iota; [|by destruct Hrs as [-> ?]; split; [done|]; split; auto].
  pose proof (align_check align Ha) as Hp2.
  destruct ((align =? 0) || negb (is_power_of_two align)); simpl; [wp_step; split; [done|]; split; auto|].
  pose proof (eff_align _ _ _ Hinv Hp2) as Hal. destruct Hrs as (? & ? & ? & ?).
  set (al := Z.max align (quantum v)) in *.
  pose proof (search_spec v FL n al 0 u64_max Instant o Hinv ltac:(done) ltac:(lia) ltac:(done)
    Hal ltac:(lia) ltac:(lia)) as Hsearch.
  cbn [Z.eqb andb] in Hsearch. change (u64_max =? u64_max) with true in Hsearch. simpl in Hsearch.
  assert (∀ X, wp (if (al =? quantum v) && true then instant_fit n
                   else scan_fit n al 0 u64_max false) X v o →
               wp (if al =? quantum v then instant_fit n else scan_fit n al 0 u64_max false) X v o)
    as Heq by (intros X; by rewrite andb_true_r).
  wp_step. eapply wp_mono; [apply Heq, Hsearch|].
  intros [[b x]|] v' o' (-> & -> & H'); cbv beta; wp_steps; simpl.
  - destruct H' as (t & Hc & _). pose proof Hc as (Hb & _). wp_step.
    eapply wp_tag; [apply Hinv|done|]. intros s Hsm Hst Hsb.
    rewrite (seg_end_exact (quantum v) (tags v) b s); [|apply Hinv|by rewrite Hst|done].
    assert (seg_size s = t_size t) as -> by (by rewrite <- Hst).
    pose proof (random_shift v FL n al b t x entropy Hinv ltac:(lia) Hal He Hc) as Hshift.
    cbv zeta in *. eapply wp_mono.
    { eapply commit_spec; [done|]. eapply candidate_fits; [done|lia|done|done|lia|done]. }
    intros [y|e] v' o' [Ho Hr]; simpl; (split; [done|]).
    + destruct Hr as [-> Heff]. by exists n, b, t.
    + by destruct Hr as (-> & -> & ?).
  - split; [done|]. split; [done|]. by exists n.
Qed.

(** ** Fixed placement *)

Lemma smap_tag v b s : smap v !! b = Some s → tags v !! b = Some (strip s).
Proof. intros Hs. by rewrite tags_lookup, Hs. Qed.

(** [free_segment_containing] finds the free tag around an address. *)
Lemma free_segment_containing_spec v FL a :
  inv_with v FL →
  match free_segment_containing a v with
  | Some b => ∃ t, tags v !! b = Some t ∧ t_free t = true ∧ inside b t a
  | None => ¬ address_free v a
  end.
Proof.
  intros Hinv. pose proof (inv_rep _ _ Hinv) as Hr. pose proof (inv_wf _ _ Hinv) as Hwf.
  pose proof (rep_index _ _ _ Hr) as Hok. unfold free_segment_containing.
  destruct (last (range Unbounded (Included a) (segments v))) as [[b s]|] eqn:El.
  - apply range_last_Some in El as (Hs & Hle & Hmax); [|done]. simpl in Hle. apply Z.leb_le in Hle.
    pose proof (smap_tag _ _ _ Hs) as Ht. pose proof (rep_base _ _ _ Hr _ _ Hs) as Hb.
    rewrite (seg_end_exact _ _ b s Hwf) by done.
    assert (∀ b' t', tags v !! b' = Some t' → inside b' t' a → b' = b) as Huniq.
    { intros b' t' Ht' Hi. destruct (rep_lookup _ _ _ _ _ Hr Ht') as (s' & Hs' & _).
      specialize (Hmax b' s' Hs'). simpl in Hmax. unfold inside in Hi.
      assert (b' ≤ b) as Hle' by (apply Hmax, Z.leb_le; lia).
      destruct (decide (b' = b)) as [|Hne]; [done|exfalso].
      pose proof (wf_disjoint _ _ Hwf b' t' b _ Ht' Ht ltac:(lia)). lia. }
    destruct (seg_free s) eqn:Ef; simpl.
    + destruct (Z.ltb_spec a (b + seg_size s)).
      * exists (strip s). split_and!; [done..|]. unfold inside. simpl. lia.
      * intros (b' & t' & Ht' & _ & Hi). pose proof (Huniq _ _ Ht' Hi) as ->.
        simplify_eq. unfold inside in Hi. simpl in Hi. lia.
    + intros (b' & t' & Ht' & Hf & Hi). pose proof (Huniq _ _ Ht' Hi) as ->.
      simplify_eq. simpl in Hf. congruence.
  - intros (b' & t' & Ht' & _ & Hi). destruct (rep_lookup _ _ _ _ _ Hr Ht') as (s' & Hs' & _).
    eapply range_last_None in El; [|done..]. simpl in El. apply Z.leb_gt in El.
    unfold inside in Hi. lia.
Qed.

(** [base, base + size) lies in one free tag. *)
Definition room v (base size : Z) : Prop :=
  ∃ b t, tags v !! b = Some t ∧ t_free t = true ∧ b ≤ base ∧ base + size ≤ b + t_size t.

Lemma room_free v base size a :
  room v base size → base ≤ a < base + size → address_free v a.
Proof. intros (b & t & Hb & Hf & ? & ?) Ha. exists b, t. split_and!; try done; unfold inside; lia. Qed.

Lemma free_room v FL sp base size :
  inv_with v FL → one_span sp (tags v) → 0 < size →
  (∀ a, base ≤ a < base + size → address_free v a) → room v base size.
Proof. intros Hinv Hsp. by eapply free_run; [apply Hinv..|]. Qed.

Lemma segment_for_spec v FL base size o :
  inv_with v FL → 0 ≤ base → 0 < size → base + size < two64 →
  wp (segment_for base size) (λ r v' o', v' = v ∧ o' = o ∧
     match r with
     | Some b => ∃ t, tags v !! b = Some t ∧ t_free t = true ∧
                      b ≤ base ∧ base + size ≤ b + t_size t
     | None => ¬ room v base size
     end) v o.
Proof.
  intros Hinv Hb Hs Hbs. unfold segment_for. wp_steps.
  pose proof (inv_wf _ _ Hinv) as Hwf.
  pose proof (free_segment_containing_spec v FL base Hinv) as Hc.
  destruct (free_segment_containing base v) as [b|].
  - destruct Hc as (t & Ht & Hf & Hi). wp_step. eapply wp_tag; [apply Hinv|done|].
    intros s Hsm Hst Hsb. wp_step. rewrite u64_add_small by lia.
    rewrite (seg_end_exact _ _ b s Hwf) by (done || by rewrite Hst).
    assert (seg_size s = t_size t) as -> by (by rewrite <- Hst). unfold inside in Hi.
    do 2 (split; [done|]). destruct (Z.leb_spec (base + size) (b + t_size t)).
    + exists t. split_and!; try done; lia.
    + intros (b' & t' & Ht' & Hf' & ?&?).
      destruct (wf_inside_unique _ _ b t b' t' base Hwf) as [-> ->]; unfold inside; try done; lia.
  - wp_step. do 2 (split; [done|]). intros (b' & t' & Ht' & Hf' & ?&?). apply Hc.
    exists b', t'. split_and!; try done; unfold inside; lia.
Qed.

Definition fixed_post v (base size : Z) o (r : result VmemError ()) v' : Prop :=
  match r with
  | Ok _ => ∃ n, round_size size v = Ok n ∧ base mod quantum v = 0 ∧
                 room v base n ∧ alloc_effect v v' base n
  | Err Invalid => v' = v ∧ fixed_size base size v = Err Invalid
  | Err NoSpace => v' = v ∧ ∃ n, round_size size v = Ok n ∧ ¬ room v base n
  | Err NoMemory => v' = v ∧ false ∈ o
  end.

Lemma alloc_fixed_spec v FL base size o :
  inv_with v FL → is_u64 base → is_u64 size →
  wp (alloc_fixed base size) (λ r v' o', o' ⊆ o ∧ fixed_post v base size o r v') v o.
Proof.
  intros Hinv Hb Hs. unfold alloc_fixed. wp_steps.
  pose proof (fixed_size_spec v base size (inv_quantum _ _ Hinv) Hs Hb) as Hfs.
  pose proof (round_size_spec v size (inv_quantum _ _ Hinv) Hs) as Hrs.
  destruct (fixed_size base size v) as [n|e] eqn:Efs; cbv iota; [|by subst e].
  destruct Hfs as (Hrn & Hbq & Hbn). rewrite Hrn in Hrs. destruct Hrs as (? & ? & Hnq & ?).
  destruct Hb as [Hb0 _]. wp_step. eapply wp_mono; [eapply segment_for_spec; [done|lia..]|].
  intros [b|] v' o' (-> & -> & H'); cbv beta; wp_steps; simpl.
  - destruct H' as (t & Ht & Hf & Hlo & Hhi). eapply wp_mono.
    { eapply commit_spec; [done|]. split; done || lia. }
    intros [[]|e] v' o' [Ho Hr]; simpl; (split; [done|]).
    + destruct Hr as [_ Heff]. exists n. split_and!; try done. by exists b, t.
    + by destruct Hr as (-> & -> & ?).
  - split; [done|]. split; [done|]. by exists n.
Qed.

Lemma reserve_fixed_spec v base size o :
  pow2 (quantum v) → is_u64 base → is_u64 size →
  wp (reserve_fixed base size) (λ r v' o', v' = v ∧ o' ⊆ o ∧
     match r with
     | Ok r => fixed_size base size v = Ok (res_size r) ∧ res_base r = base ∧
         res_start r = Some (mkNode base) ∧ res_end r = Some (mkNode (base + res_size r))
     | Err e => fixed_size base size v = Err e ∨ e = NoMemory ∧ false ∈ o
     end) v o.
Proof.
  intros Hq Hb Hs. unfold reserve_fixed. wp_steps.
  pose proof (fixed_size_spec v base size Hq Hs Hb) as Hfs.
  pose proof (round_size_spec v size Hq Hs) as Hrs. unfold is_u64 in *.
  destruct (fixed_size base size v) as [n|e] eqn:Efs; cbv iota; [|by split_and!; [..|left]].
  destruct Hfs as (Hrn & _ & ?). rewrite Hrn in Hrs. destruct Hrs as (? & ? & _ & ?).
  rewrite u64_add_small by lia.
  wp_step. apply wp_reserve_tag; intros o1 Ho1; cbv beta iota; [|intros; by split_and!; [..|right]].
  wp_step. apply wp_reserve_tag; intros o2 Ho2; cbv beta iota.
  - wp_step. split; [done|]. split; [by etrans|]. done.
  - intros Hin. split; [done|]. split; [by etrans|]. right. split; [done|]. by apply Ho1.
Qed.

(** A reservation is consumed once its range is free. *)
Lemma alloc_reserved_spec v FL r o :
  inv_with v FL → 0 ≤ res_base r → 0 < res_size r → res_base r + res_size r < two64 →
  res_base r mod quantum v = 0 → res_size r mod quantum v = 0 →
  res_start r = Some (mkNode (res_base r)) →
  res_end r = Some (mkNode (res_base r + res_size r)) →
  room v (res_base r) (res_size r) →
  wp (alloc_reserved r) (λ _ v' o', o' = o ∧ alloc_effect v v' (res_base r) (res_size r)) v o.
Proof.
  intros Hinv H0 H1 H2 Hbq Hsq Hst Hen Hroom. unfold alloc_reserved. wp_step.
  eapply wp_mono; [by eapply segment_for_spec|].
  intros [b|] v' o' (-> & -> & H'); [|done]. destruct H' as (t & Ht & Hf & Hlo & Hhi).
  wp_steps. eapply take_effect; [done|by split|]. by split.
Qed.

Lemma is_free_spec v FL base size o :
  inv_with v FL → is_u64 base → is_u64 size → 0 < size →
  wp (is_free base size) (λ r v' o', v' = v ∧ o' = o ∧ (r = true ↔ room v base size)) v o.
Proof.
  intros Hinv [Hb0 _] [Hs0 _] Hs. unfold is_free. pose proof (inv_wf _ _ Hinv) as Hwf.
  destruct (checked_add base size) as [e|] eqn:E.
  - apply checked_add_Some in E as [-> Hlt]. wp_steps.
    pose proof (free_segment_containing_spec v FL base Hinv) as Hc.
    destruct (free_segment_containing base v) as [b|].
    + destruct Hc as (t & Ht & Hf & Hi). wp_step. eapply wp_tag; [apply Hinv|done|].
      intros s Hsm Hst Hsb. wp_step. do 2 (split; [done|]).
      rewrite (seg_end_exact _ _ b s Hwf) by (done || by rewrite Hst).
      assert (seg_size s = t_size t) as -> by (by rewrite <- Hst). rewrite Z.leb_le.
      unfold inside in Hi. split.
      * intros Hle. exists b, t. split_and!; try done; lia.
      * intros (b' & t' & Ht' & Hf' & ?&?).
        destruct (wf_inside_unique _ _ b t b' t' base Hwf) as [-> ->]; unfold inside; try done; lia.
    + wp_step. do 2 (split; [done|]). split; [done|]. intros (b' & t' & Ht' & Hf' & ?&?).
      exfalso. apply Hc. exists b', t'. split_and!; try done; unfold inside; lia.
  - apply checked_add_None in E. wp_step. do 2 (split; [done|]). split; [done|].
    intros (b & t & Ht & _ & ?&?). pose proof (wf_tag _ _ Hwf _ _ Ht). lia.
Qed.
End ops.

(** ** The contracts of [free], [add_span] and [new] of the arena ([mem/vmem.rs]).

    [free] merges the returned range with the free tags on both sides;
    [release_tags] says what that does to the tags, and [free_spec] that the
    code does it. *)

Section free.
Context {tree : Type → Type} `{!RBTree tree, !RBTreeLaws tree}.
Implicit Types (v : Vmem tree) (A : gmap Z Tag) (FL : nat → list Z) (o : oracle).

(** An allocated tag is on no list. *)
Lemma used_unlisted v A FL b t :
  rep v A FL → A !! b = Some t → t_free t = false → unlisted FL b.
Proof.
  intros Hr Hb Hf i Hi. destruct (rep_class _ _ _ Hr i b Hi) as (t' & Ht' & Hf' & _). congruence.
Qed.

(** The neighbour to the right that [free] merges with. *)
Lemma next_spec v q A FL base s :
  rep v A FL → tags_wf q A → smap v !! base = Some s →
  match head (range (Excluded base) Unbounded (segments v)) with
  | Some (k, n) =>
      if seg_free n && (seg_span n =? seg_span s) && (seg_base n =? seg_end s)
      then Some k else None
  | None => None
  end =
  match A !! (base + seg_size s) with
  | Some n => if mergeable (strip s) n then Some (base + seg_size s) else None
  | None => None
  end.
Proof.
  intros Hr Hwf Hs. pose proof (rep_index _ _ _ Hr) as Hok.
  assert (A !! base = Some (strip s)) as Hb.
  { rewrite <- (rep_tags _ _ _ Hr). by apply smap_tag. }
  pose proof (wf_tag _ _ Hwf _ _ Hb) as (_ & Hpos & _). simpl in Hpos.
  rewrite (seg_end_exact q A base s) by (done || by eapply rep_base).
  destruct (head (range (Excluded base) Unbounded (segments v))) as [[k n]|] eqn:E.
  - apply range_head_Some in E as (Hk & Hab & Hmin); [|done]. simpl in Hab. apply Z.ltb_lt in Hab.
    assert (A !! k = Some (strip n)) as HAk.
    { rewrite <- (rep_tags _ _ _ Hr). by apply smap_tag. }
    pose proof (wf_disjoint _ _ Hwf _ _ _ _ Hb HAk Hab) as Hdis. simpl in Hdis.
    rewrite (rep_base _ _ _ Hr k n Hk).
    destruct (A !! (base + seg_size s)) as [n'|] eqn:En.
    + destruct (rep_lookup _ _ _ _ _ Hr En) as (s' & Hs' & _ & _).
      assert (k ≤ base + seg_size s) by (eapply Hmin; [done|simpl; apply Z.ltb_lt; lia]).
      assert (k = base + seg_size s) as -> by lia. rewrite En in HAk. simplify_eq.
      rewrite Z.eqb_refl, andb_true_r. unfold mergeable. simpl. done.
    + destruct (Z.eqb_spec k (base + seg_size s)) as [->|]; [congruence|]. by rewrite andb_false_r.
  - destruct (A !! (base + seg_size s)) as [n'|] eqn:En; [|done].
    destruct (rep_lookup _ _ _ _ _ Hr En) as (s' & Hs' & _ & _).
    eapply range_head_None in E; [|done..]. simpl in E. apply Z.ltb_ge in E. lia.
Qed.

(** The neighbour to the left. *)
Lemma previous_spec v q A FL base span :
  rep v A FL → tags_wf q A →
  prev_of A base span
    (match last (range Unbounded (Excluded base) (segments v)) with
     | Some (k, p) =>
         if seg_free p && (seg_span p =? span) && (seg_end p =? base) then Some k else None
     | None => None
     end).
Proof.
  intros Hr Hwf. pose proof (rep_index _ _ _ Hr) as Hok.
  destruct (last (range Unbounded (Excluded base) (segments v))) as [[k p]|] eqn:E.
  - apply range_last_Some in E as (Hk & Hab & Hmax); [|done]. simpl in Hab. apply Z.ltb_lt in Hab.
    assert (A !! k = Some (strip p)) as HAk.
    { rewrite <- (rep_tags _ _ _ Hr). by apply smap_tag. }
    rewrite (seg_end_exact q A k p) by (done || by eapply rep_base).
    assert (∀ p' tp, A !! p' = Some tp → p' + t_size tp = base → p' = k) as Huniq.
    { intros p' tp Hp' Hend. destruct (rep_lookup _ _ _ _ _ Hr Hp') as (s' & Hs' & _).
      pose proof (wf_tag _ _ Hwf _ _ Hp') as (_ & ? & _).
      assert (p' ≤ k) by (eapply Hmax; [done|simpl; apply Z.ltb_lt; lia]).
      destruct (decide (p' = k)) as [|Hne]; [done|].
      pose proof (wf_disjoint _ _ Hwf _ _ _ _ Hp' HAk ltac:(lia)). lia. }
    destruct (seg_free p && (seg_span p =? span) && (k + seg_size p =? base)) eqn:Ec.
    + rewrite !andb_true_iff, !Z.eqb_eq in Ec. destruct Ec as [[? ?] ?].
      exists (strip p). by split_and!.
    + intros p' tp Hp' Hf Hsp Hend. pose proof (Huniq _ _ Hp' Hend) as ->.
      simplify_eq. simpl in *. rewrite Hf, !Z.eqb_refl in Ec. done.
  - intros p' tp Hp' Hf Hsp Hend. destruct (rep_lookup _ _ _ _ _ Hr Hp') as (s' & Hs' & _).
    pose proof (wf_tag _ _ Hwf _ _ Hp') as (_ & ? & _).
    eapply range_last_None in E; [|done..]. simpl in E. apply Z.ltb_ge in E. lia.
Qed.

(** Both merges: the right tag is added to the left one and removed. *)
Lemma absorb_spec {B} v A FL q b t n (x : B) o (Q : B → Vmem tree → oracle → Prop) :
  rep v A FL → tags_wf q A → A !! b = Some t → A !! (b + t_size t) = Some n →
  unlisted FL b → unlisted FL (b + t_size t) →
  (∀ v', rep v' (absorb b A) FL → same_counters v v' → Q x v' o) →
  wp (let* l := tag b in
      let* r := tag (b + t_size t) in
      do write_tag b (set_size (u64_add (seg_size l) (seg_size r))) then
      do on_index (index_remove (b + t_size t)) then ret x) Q v o.
Proof.
  intros Hr Hwf Hb Hn Hub Hun HQ. pose proof (wf_tag _ _ Hwf _ _ Hb) as (? & ? & _).
  pose proof (wf_tag _ _ Hwf _ _ Hn) as (_ & ? & ? & _).
  wp_step. eapply wp_tag; [done..|]. intros s Hs Hst _.
  wp_step. eapply wp_tag; [done..|]. intros s' Hs' Hst' _. subst t n. simpl in *.
  rewrite u64_add_small by lia.
  wp_step. eapply (wp_write_payload _ _ _ _ (strip s)
    (mkTag (seg_size s + seg_size s') (seg_span s) (seg_free s))); [done..| |].
  { intros s1 Hs1. unfold strip in *. simpl. by injection Hs1 as _ -> ->. }
  intros v1 Hr1 Hsc1. wp_step. eapply wp_remove_tag; [done| |done|].
  { by rewrite lookup_insert_ne by lia. }
  intros v2 _ Hr2 Hsc2. wp_step. apply HQ; [|by counters].
  unfold absorb. rewrite Hb. simpl. by rewrite Hn.
Qed.

(** The first half of [free]: the right neighbour. *)
Lemma merge_next_spec v q A FL base t o :
  rep v A FL → all_listed A FL → tags_wf q A → A !! base = Some t → t_free t = false →
  wp (match match A !! (base + t_size t) with
            | Some n => if mergeable t n then Some (base + t_size t) else None
            | None => None
            end with
      | Some next =>
          do pop_free next then
          let* b := tag base in
          let* n := tag next in
          do write_tag base (set_size (u64_add (seg_size b) (seg_size n))) then
          do on_index (index_remove next) then
          ret ()
      | None => ret ()
      end)
     (λ _ v' o', o' = o ∧ same_counters v v' ∧
        ∃ FL', rep v' (absorb_next base A) FL' ∧ all_listed (absorb_next base A) FL') v o.
Proof.
  intros Hr Hall Hwf Hb Hf. pose proof (wf_tag _ _ Hwf _ _ Hb) as (? & ? & _).
  unfold absorb_next. rewrite Hb.
  destruct (A !! (base + t_size t)) as [n|] eqn:En; [|wp_step; split_and!; [done|reflexivity|by exists FL]].
  destruct (mergeable t n) eqn:Em; [|wp_step; split_and!; [done|reflexivity|by exists FL]].
  apply mergeable_spec in Em as [Hfn Hsp].
  wp_step. eapply wp_mono.
  { eapply pop_free_mem; [done..| |by apply Hall]. by eapply wf_size_u64. }
  intros _ v1 o1 (-> & Hsc1 & FL1 & Hr1 & Hun1 & Hk1). cbv beta.
  eapply absorb_spec; try done; [by eapply used_unlisted|].
  intros v2 Hr2 Hsc2. split; [done|]. split; [by counters|]. exists FL1. split; [done|].
  intros b t' Hb' Hf'. rewrite (lookup_absorb _ _ t n) in Hb' by done.
  repeat case_decide; simplify_eq/=; [congruence|]. apply Hk1; [done|]. by apply Hall.
Qed.

(** The second half: the left neighbour, or the tag itself becomes free. *)
Lemma merge_previous_spec v q A FL base prev t o :
  rep v A FL → all_listed A FL → tags_wf q A → A !! base = Some t → t_free t = false →
  prev_of A base (t_span t) prev →
  wp (let* free :=
        (match prev with
         | Some previous =>
             do pop_free previous then
             let* p := tag previous in
             let* b := tag base in
             do write_tag previous (set_size (u64_add (seg_size p) (seg_size b))) then
             do on_index (index_remove base) then
             ret previous
         | None =>
             do write_tag base (set_free true) then
             ret base
         end) in
      push_free free)
     (λ _ v' o', o' = o ∧ same_counters v v' ∧
        let A' := match prev with
                  | Some p => absorb p A
                  | None => alter (λ t, mkTag (t_size t) (t_span t) true) base A
                  end in
        ∃ FL', rep v' A' FL' ∧ all_listed A' FL') v o.
Proof.
  intros Hr Hall Hwf Hb Hf Hp. pose proof (wf_tag _ _ Hwf _ _ Hb) as (? & ? & ? & _).
  destruct prev as [p|]; cbn [prev_of] in Hp.
  - destruct Hp as (tp & Hp & Hfp & Hspan & <-).
    pose proof (wf_tag _ _ Hwf _ _ Hp) as (? & ? & _). do 2 wp_step. eapply wp_mono.
    { eapply pop_free_mem; [done..| |by apply Hall]. by eapply wf_size_u64. }
    intros _ v1 o1 (-> & Hsc1 & FL1 & Hr1 & Hun1 & Hk1). cbv beta.
    eapply absorb_spec; try done; [by eapply used_unlisted|].
    intros v2 Hr2 Hsc2. pose proof (lookup_absorb A p tp t) as Hlk.
    eapply wp_mono.
    { eapply push_free_mem; [done|by rewrite Hlk, decide_True by done|done| |done].
      unfold is_u64. simpl. lia. }
    intros _ v3 o3 (-> & Hsc3 & FL3 & Hr3 & Hin3 & Hk3). split; [done|].
    split; [by counters|]. exists FL3. split; [done|].
    intros b t' Hb' Hf'. rewrite Hlk in Hb' by done. repeat case_decide; simplify_eq/=; [done|].
    apply Hk3, Hk1; [done..|]. by apply Hall.
  - do 2 wp_step. eapply (wp_write_payload _ _ _ _ t (mkTag (t_size t) (t_span t) true));
      [done|done|by eapply used_unlisted|done|by intros s <-|].
    intros v1 Hr1 Hsc1. wp_step. eapply wp_mono.
    { eapply push_free_mem; [done|by apply lookup_insert_eq|done|exact (wf_size_u64 q A base t Hwf Hb)|].
      exact (used_unlisted _ _ _ _ _ Hr Hb Hf). }
    intros _ v3 o3 (-> & Hsc3 & FL3 & Hr3 & Hin3 & Hk3). split; [done|].
    split; [by counters|].
    assert (alter (λ t, mkTag (t_size t) (t_span t) true) base A
            = <[base := mkTag (t_size t) (t_span t) true]> A) as ->.
    { apply map_eq. intros k. rewrite lookup_alter, lookup_insert.
      case_decide; [subst|done]. by rewrite Hb. }
    exists FL3. split; [done|]. intros b t' Hb' Hf'. rewrite lookup_insert in Hb'.
    case_decide; simplify_eq/=; [done|]. apply Hk3; [done|]. by apply Hall.
Qed.

Lemma prev_of_absorb_next q A base t prev :
  tags_wf q A → A !! base = Some t →
  prev_of (absorb_next base A) base (t_span t) prev → prev_of A base (t_span t) prev.
Proof.
  intros Hwf Hb. assert (∀ k, k < base → absorb_next base A !! k = A !! k) as Hlk.
  { intros k Hk. rewrite (lookup_absorb_next q _ _ t) by done. by rewrite !decide_False by lia. }
  pose proof (absorb_next_wf _ _ _ _ Hwf Hb) as Hwf'.
  destruct prev as [p|]; simpl.
  - intros (tp & Hp & Hf & Hsp & He). pose proof (wf_tag _ _ Hwf' _ _ Hp).
    exists tp. split_and!; try done. by rewrite <- Hlk by lia.
  - intros Hn p tp Hp Hf Hsp He. pose proof (wf_tag _ _ Hwf _ _ Hp).
    apply (Hn p tp); try done. by rewrite Hlk by lia.
Qed.

(** What [free] does to the tags, the lists and the counters. *)
Lemma free_tags_spec v FL base t o :
  inv_with v FL → tags v !! base = Some t → t_free t = false →
  wp (free base) (λ r v' o', o' = o ∧ r = t_size t ∧
     quantum v' = quantum v ∧ total v' = total v ∧ used v' = u64_sub (used v) (t_size t) ∧
     ∃ prev FL', releases (quantum v) (tags v) base prev t ∧
       rep v' (release_tags base prev (tags v)) FL' ∧
       all_listed (release_tags base prev (tags v)) FL') v o.
Proof.
  intros Hinv Hb Hf. pose proof (inv_wf _ _ Hinv) as Hwf. pose proof (inv_rep _ _ Hinv) as Hr.
  unfold free. wp_step. eapply wp_tag; [done..|]. intros s Hs Hst Hsb.
  wp_step. apply wp_massert; [subst t; simpl in Hf; by rewrite Hf|]. do 2 wp_step.
  rewrite (next_spec v (quantum v) (tags v) FL base s) by done.
  replace (strip s) with t by done. replace (seg_size s) with (t_size t) by (by subst t).
  replace (seg_span s) with (t_span t) by (by subst t).
  wp_step. eapply wp_mono; [by eapply merge_next_spec; [..|apply Hinv| | |]|].
  intros _ v1 o1 (-> & Hsc1 & FL1 & Hr1 & Hall1). cbv beta. do 2 wp_step.
  pose proof (absorb_next_wf _ _ _ _ Hwf Hb) as Hwf1.
  pose proof (previous_spec v1 (quantum v) _ FL1 base (t_span t) Hr1 Hwf1) as Hprev.
  match type of Hprev with prev_of _ _ _ ?x => set (prev := x) in * end.
  assert (absorb_next base (tags v) !! base =
    Some (mkTag (block_end base t (tags v) - base) (t_span t) (t_free t))) as Hb1.
  { by rewrite (lookup_absorb_next (quantum v) _ _ t), decide_True by done. }
  wp_step. eapply wp_mono.
  { eapply wp_bind_inv. by eapply (merge_previous_spec v1 (quantum v)). }
  intros fr v2 o2 H2. cbv beta in *. wp_step. eapply wp_mono; [exact H2|]. clear H2.
  intros _ v3 o3 (-> & Hsc3 & FL3 & Hr3 & Hall3). wp_steps. unfold same_counters in *.
  destruct Hsc1 as (?&?&?), Hsc3 as (?&?&?). split_and!; simpl; try congruence.
  exists prev, FL3. split_and!; [|by apply rep_with_used|done].
  split; try done. by eapply prev_of_absorb_next.
Qed.

(** [free] of an allocation. *)
Lemma free_spec v FL base size o :
  inv_with v FL → allocated v !! base = Some size →
  wp (free base) (λ r v' o', o' = o ∧ r = size ∧ free_effect v v' base size) v o.
Proof.
  intros Hinv Hal. unfold allocated in Hal. rewrite lookup_allocs in Hal.
  apply bind_Some in Hal as (t & Hb & Hal). unfold alloc_of in Hal.
  destruct (t_free t) eqn:Hf; simplify_eq.
  pose proof (inv_used_bounds _ _ Hinv) as [Hu Hu'].
  eapply wp_mono; [by eapply free_tags_spec|].
  intros r v' o' (-> & -> & Hq & Ht & Hus & prev & FL' & Hrel & Hr' & Hall').
  split; [done|]. split; [done|]. pose proof (rep_tags _ _ _ Hr') as Htags.
  destruct (release_tags_sum _ _ _ _ _ Hrel) as [Hs1 Hs2].
  pose proof (release_tags_wf _ (pow2_pos _ (inv_quantum _ _ Hinv)) _ _ _ _ Hrel) as Hwf'.
  destruct (used_le_total _ _ Hwf') as [Hle0 Hle]. rewrite Hs1, Hs2 in *.
  rewrite <- (inv_used _ _ Hinv), <- (inv_total _ _ Hinv) in *.
  pose proof (wf_tag _ _ (inv_wf _ _ Hinv) _ _ Hb).
  rewrite u64_sub_small in Hus by lia.
  split; unfold allocated, address_free; rewrite ?Htags; try done.
  - exists FL'. split; rewrite ?Htags, ?Hq; try done; try apply Hinv; try congruence.
    + by eapply release_tags_coalesced, Hinv.
    + by eapply release_tags_spans, Hinv.
  - by eapply release_tags_allocs.
  - intros a. by eapply release_tags_free_at.
  - intros sp. by eapply release_tags_one_span.
Qed.

(** [free] of anything else is a panic: the tag is missing, or it is free. *)
Lemma free_unallocated v FL base o :
  inv_with v FL → allocated v !! base = None → free base v o = None.
Proof.
  intros Hinv Hal. unfold allocated in Hal. rewrite lookup_allocs in Hal.
  unfold free, tag, bind, get, expect. rewrite index_get_imap by apply Hinv.
  fold (smap v). rewrite tags_lookup in Hal. destruct (smap v !! base) as [s|]; [|done].
  simpl in *. unfold alloc_of in Hal. simpl in Hal. by destruct (seg_free s).
Qed.

(** ** [add_span] and [new] *)

(** The range is outside everything the arena manages. *)
Definition range_clear v (base size : Z) : Prop :=
  ∀ a, base ≤ a < base + size → ¬ managed (tags v) a.

(** The arguments [add_span] refuses. *)
Definition bad_span v (base size : Z) : Prop :=
  size = 0 ∨ base mod quantum v ≠ 0 ∨ size mod quantum v ≠ 0 ∨ two64 ≤ base + size ∨
  two64 ≤ total v + size ∨ ¬ range_clear v base size.

Record span_effect v v' (base size : Z) : Prop := {
  se_inv : vmem_inv v';
  se_allocated : allocated v' = allocated v;
  se_free a : address_free v' a ↔ address_free v a ∨ base ≤ a < base + size;
  se_quantum : quantum v' = quantum v;
  se_total : total v' = total v + size;
  se_used : used v' = used v;
  se_tags : tags v' = <[base := span_tag base size]> (tags v);
}.

(** The overlap test looks at one tag only: the last one that starts below
    the end of the new span. *)
Lemma overlap_spec v FL base size :
  inv_with v FL → 0 < size →
  match last (range Unbounded (Excluded (base + size)) (segments v)) with
  | Some (_, t) => base <? seg_end t
  | None => false
  end = false ↔
  ∀ b t, tags v !! b = Some t → b + t_size t ≤ base ∨ base + size ≤ b.
Proof.
  intros Hinv Hpos. pose proof (inv_rep _ _ Hinv) as Hr. pose proof (inv_wf _ _ Hinv) as Hwf.
  pose proof (rep_index _ _ _ Hr) as Hok.
  destruct (last (range Unbounded (Excluded (base + size)) (segments v))) as [[k s]|] eqn:E.
  - apply range_last_Some in E as (Hk & Hb & Hmax); [|done]. simpl in Hb. apply Z.ltb_lt in Hb.
    pose proof (smap_tag _ _ _ Hk) as Ht. pose proof (wf_tag _ _ Hwf _ _ Ht) as (_&?&_). simpl in *.
    rewrite (seg_end_exact _ _ k s Hwf) by (done || by eapply rep_base). rewrite Z.ltb_ge. split.
    + intros Hle b t Hbt. destruct (decide (base + size ≤ b)); [by right|left].
      destruct (rep_lookup _ _ _ _ _ Hr Hbt) as (s' & Hs' & _).
      assert (b ≤ k) by (eapply Hmax; [done|simpl; apply Z.ltb_lt; lia]).
      destruct (decide (b = k)) as [->|]; [simplify_eq/=; lia|].
      pose proof (wf_disjoint _ _ Hwf _ _ _ _ Hbt Ht ltac:(lia)). lia.
    + intros Hcl. destruct (Hcl _ _ Ht); simpl in *; lia.
  - split; [|done]. intros _ b t Hbt. destruct (rep_lookup _ _ _ _ _ Hr Hbt) as (s' & Hs' & _).
    eapply range_last_None in E; [|done..]. simpl in E. apply Z.ltb_ge in E. lia.
Qed.

Lemma clear_tags v FL base size :
  inv_with v FL → 0 < size →
  range_clear v base size ↔
  ∀ b t, tags v !! b = Some t → b + t_size t ≤ base ∨ base + size ≤ b.
Proof.
  intros Hinv Hpos. unfold range_clear, managed, inside. split.
  - intros Hcl b t Hb. pose proof (wf_tag _ _ (inv_wf _ _ Hinv) _ _ Hb).
    destruct (decide (b + t_size t ≤ base)); [by left|].
    destruct (decide (base + size ≤ b)); [by right|].
    destruct (Hcl (Z.max b base)); [lia|]. exists b, t. split; [done|lia].
  - intros Hcl a Ha (b & t & Hb & Hi). apply Hcl in Hb. lia.
Qed.

Lemma insert_span_effect v FL base size tot v' FL' :
  inv_with v FL → new_span (quantum v) (tags v) base size → tot = total v + size →
  tot < two64 → rep v' (<[base := span_tag base size]> (tags v)) FL' →
  all_listed (<[base := span_tag base size]> (tags v)) FL' → same_counters v v' →
  span_effect v (with_total tot v') base size.
Proof.
  intros Hinv Hn -> Hlt Hr Hall (Hq & Ht & Hu). pose proof (span_fresh _ _ _ _ Hn) as Hfr.
  pose proof (rep_tags _ _ _ Hr) as Htags.
  assert (tags (with_total (total v + size) v') = tags v') as Htg by done.
  split; unfold allocated, address_free; rewrite ?Htg, ?Htags; try done.
  - exists FL'. split; rewrite ?Htg, ?Htags; simpl; rewrite ?Hq; try done; try apply Hinv.
    + by apply rep_with_total.
    + by apply span_tags_wf.
    + by eapply span_tags_coalesced; [..|apply Hinv|apply Hinv].
    + by eapply span_tags_spans, Hinv.
    + rewrite msum_insert_None, (inv_total _ _ Hinv) by done. simpl. lia.
    + rewrite Hu, msum_insert_None, (inv_used _ _ Hinv) by done. simpl. unfold used_size. simpl. lia.
  - by eapply span_tags_allocs.
  - intros a. by eapply span_tags_free_at.
Qed.

Definition add_span_post v (base size : Z) o (r : result VmemError ()) v' : Prop :=
  match r with
  | Ok _ => ¬ bad_span v base size ∧ span_effect v v' base size
  | Err Invalid => v' = v ∧ bad_span v base size
  | Err NoMemory => v' = v ∧ false ∈ o
  | Err NoSpace => False
  end.

Lemma insert_span_spec v FL base size tot node o :
  inv_with v FL → new_span (quantum v) (tags v) base size → tot = total v + size → tot < two64 →
  node = mkNode base →
  wp (do on_index (index_insert base (segment_new base size base true) (Some node)) then
      do push_free base then
      do modify (with_total tot) then
      ret (Ok (E:=VmemError) ()))
     (λ r v' o', o' = o ∧ r = Ok () ∧ span_effect v v' base size) v o.
Proof.
  intros Hinv Hn Htot Hlt ->. pose proof (span_fresh _ _ _ _ Hn) as Hfr.
  wp_step. eapply wp_insert_tag; [apply Hinv|done|done|]. intros v1 _ Hr1 Hsc1. wp_step.
  eapply wp_mono.
  { eapply push_free_mem; [done|by apply lookup_insert_eq|done| |].
    - destruct Hn. unfold is_u64. simpl. lia.
    - eapply rep_unlisted_fresh; [apply Hinv|done]. }
  intros _ v2 o2 (-> & Hsc2 & FL2 & Hr2 & Hin2 & Hk2). wp_steps. split; [done|]. split; [done|].
  eapply insert_span_effect; try done; [|by counters].
  intros b t Hb Hf. rewrite lookup_insert in Hb. case_decide; simplify_eq/=; [done|].
  apply Hk2; [done|]. by apply Hinv.
Qed.

Lemma add_span_spec v FL base size o :
  inv_with v FL → is_u64 base → is_u64 size →
  wp (add_span base size) (λ r v' o', o' ⊆ o ∧ add_span_post v base size o r v') v o.
Proof.
  intros Hinv [Hb0 _] [Hs0 _]. pose proof (pow2_pos _ (inv_quantum _ _ Hinv)) as Hq.
  unfold add_span. wp_steps. unfold bad_span.
  destruct (checked_add base size) as [e|] eqn:E1; simpl;
    [apply checked_add_Some in E1 as [-> H1]|apply checked_add_None in E1; split; [done|]; split; [done|unfold bad_span; tauto]].
  wp_step. destruct (checked_add (total v) size) as [tot|] eqn:E2; simpl;
    [apply checked_add_Some in E2 as [-> H2]|apply checked_add_None in E2; split; [done|]; split; [done|unfold bad_span; tauto]].
  wp_steps.
  destruct (Z.eqb_spec size 0) as [|Hnz]; simpl; [wp_step; split; [done|]; split; [done|by left]|].
  assert (0 < size) as Hpos by lia.
  pose proof (is_multiple_of_mod base (quantum v) Hq) as Mb.
  pose proof (is_multiple_of_mod size (quantum v) Hq) as Ms.
  destruct (is_multiple_of base (quantum v)); simpl;
    [|wp_step; split; [done|]; split; [done|right; left; by intros ?%Mb]].
  destruct (is_multiple_of size (quantum v)); simpl;
    [|wp_step; split; [done|]; split; [done|right; right; left; by intros ?%Ms]].
  destruct Mb as [Mb _], Ms as [Ms _]. specialize (Mb eq_refl). specialize (Ms eq_refl).
  pose proof (overlap_spec v FL base size Hinv Hpos) as Ho.
  rewrite <- (clear_tags _ _ _ _ Hinv Hpos) in Ho.
  match goal with |- wp (if ?c then _ else _) _ _ _ => destruct c end.
  { wp_step. split; [done|]. split; [done|]. do 5 right. by intros ?%Ho. }
  destruct Ho as [Ho _]. specialize (Ho eq_refl).
  wp_step. apply wp_reserve_tag; intros o' Ho'; cbv beta iota; [|done].
  eapply wp_mono; [eapply insert_span_spec; try done|].
  - split; try done; try apply Hinv; try lia. by apply (clear_tags _ _ _ _ Hinv Hpos).
  - intros r v' o1 (-> & -> & Heff). split; [done|]. split; [|done]. unfold bad_span. intuition lia.
Qed.

(** A new arena is empty. *)
Lemma vmem_new_spec q : is_u64 q →
  match vmem_new (tree:=tree) q with
  | Some v => pow2 q ∧ vmem_inv v ∧ quantum v = q ∧ tags v = ∅ ∧ total v = 0 ∧ used v = 0
  | None => ¬ pow2 q
  end.
Proof.
  intros Hu. unfold vmem_new. pose proof (is_power_of_two_pow2 q Hu) as Hp.
  destruct (is_power_of_two q); [|by intros ?%Hp]. destruct Hp as [Hp _]. specialize (Hp eq_refl).
  set (v := mkVmem _ _ _ _ _ _).
  assert (smap v = ∅) as Hsm by apply imap_new.
  assert (tags v = ∅) as Htags by (unfold tags; by rewrite Hsm, fmap_empty).
  split_and!; try done. exists (λ _, []). split; rewrite ?Htags; try done.
  split; try done.
  - apply index_new_ok.
  - intros b s. by rewrite Hsm.
  - intros i Hi. by apply (lookup_replicate_2 FREELIST_COUNT None).
  - intros i. constructor.
  - intros i b. set_solver.
  - intros i Hi. simpl. by rewrite Z.bits_0.
Qed.
End free.
