(* ===== verification/VmemTheorems.v ===== *)
(** The arena as its clients see it: sequences of operations, and the theorems
    about [mem/vmem.rs] that the rest of the kernel relies on. *)
From S2P Require Import Prelude.
From S2P Require Import Index.
From S2P Require Import Tags.
From S2P Require Import Vmem.
From S2P Require Import VmemInv.
From S2P Require Import VmemFit.
From S2P Require Import VmemOps.
Open Scope rust_scope.

(** The public operations that change an arena. *)
Inductive VmemOp : Type :=
  | OpAddSpan (base size : Z)
  | OpXalloc (size align min max : Z) (fit : VmemFit)
  | OpAllocRandom (size align entropy : Z)
  | OpAllocFixed (base size : Z)
  | OpFree (base : Z).

(** Arguments are machine words. *)
Definition op_u64 (op : VmemOp) : Prop :=
  match op with
  | OpAddSpan b s | OpAllocFixed b s => is_u64 b ∧ is_u64 s
  | OpXalloc s a lo hi _ => is_u64 s ∧ is_u64 a ∧ is_u64 lo ∧ is_u64 hi
  | OpAllocRandom s a e => is_u64 s ∧ is_u64 a ∧ is_u64 e
  | OpFree b => is_u64 b
  end.

Section runs.
Context {tree : Type → Type} `{!RBTree tree, !RBTreeLaws tree}.
Implicit Types (v : Vmem tree) (o : oracle) (op : VmemOp).

Definition run_op op : M (Vmem tree) () :=
  match op with
  | OpAddSpan b s => do add_span b s then ret ()
  | OpXalloc s a lo hi fit => do xalloc s a lo hi fit then ret ()
  | OpAllocRandom s a e => do alloc_random s a e then ret ()
  | OpAllocFixed b s => do alloc_fixed b s then ret ()
  | OpFree b => do free b then ret ()
  end.

Fixpoint run_ops (ops : list VmemOp) : M (Vmem tree) () :=
  match ops with
  | [] => ret ()
  | op :: ops => do run_op op then run_ops ops
  end.

(** [op] gives back something that is not allocated. *)
Definition bad_free v op : Prop :=
  match op with OpFree b => allocated v !! b = None | _ => False end.

#[export] Instance bad_free_dec v op : Decision (bad_free v op).
Proof. destruct op; apply _. Defined.

Lemma effect_inv v v' (r : result VmemError Z) size align min max fit o :
  vmem_inv v → xalloc_post v size align min max fit o r v' → vmem_inv v'.
Proof.
  intros Hinv. destruct r as [x|[]]; simpl; [|by intros [-> _]..].
  intros (n & b & t & _ & _ & _ & Heff). apply Heff.
Qed.

Lemma run_op_inv v op o :
  vmem_inv v → op_u64 op → ¬ bad_free v op → wp (run_op op) (λ _ v' _, vmem_inv v') v o.
Proof.
  intros Hi. pose proof Hi as [FL Hinv]. destruct op; simpl; intros Hu Hbad; destruct_and?; wp_step.
  - eapply wp_mono; [by eapply add_span_spec|]. intros r v' o' [_ H']. wp_step.
    destruct r as [x|[]]; simpl in H'; try done; try by destruct H' as [-> _].
    destruct H' as [_ Heff]. apply Heff.
  - eapply wp_mono; [eapply xalloc_spec; try done; unfold is_u64 in *; lia|].
    intros r v' o' [_ H']. wp_step. eapply effect_inv; [exact Hi|exact H'].
  - eapply wp_mono; [eapply alloc_random_spec; try done; unfold is_u64 in *; lia|].
    intros r v' o' [_ H']. wp_step. destruct r as [x|[]]; simpl in H'; [|by destruct H' as [-> _]..].
    destruct H' as (n & b & t & _ & _ & Heff). apply Heff.
  - eapply wp_mono; [by eapply alloc_fixed_spec|]. intros r v' o' [_ H']. wp_step.
    destruct r as [x|[]]; simpl in H'; [|by destruct H' as [-> _]..].
    destruct H' as (n & _ & _ & _ & Heff). apply Heff.
  - destruct (allocated v !! base) as [size|] eqn:E; [|done].
    eapply wp_mono; [by eapply free_spec|]. intros r v' o' (_ & _ & Heff). wp_step. apply Heff.
Qed.

Lemma run_ops_spec v ops o :
  vmem_inv v → Forall op_u64 ops →
  match run_ops ops v o with
  | Some (_, v', _) => vmem_inv v'
  | None => ∃ ops1 op ops2 v1 o1, ops = ops1 ++ op :: ops2 ∧
      run_ops ops1 v o = Some ((), v1, o1) ∧ bad_free v1 op
  end.
Proof.
  intros Hinv Hu. revert v o Hinv. induction Hu as [|op ops Hop Hu IH]; intros v o Hinv; [done|].
  destruct (decide (bad_free v op)) as [Hbad|Hok].
  - destruct op; simpl in Hbad; try done. destruct Hinv as [FL Hinv]. simpl.
    unfold bind. rewrite (free_unallocated v FL) by done. by exists [], (OpFree base), ops, v, o.
  - pose proof (run_op_inv v op o Hinv Hop Hok) as Hwp. simpl. unfold bind at 1. unfold wp in Hwp.
    destruct (run_op op v o) as [[[[] v1] o1]|] eqn:E1; [|done]. specialize (IH v1 o1 Hwp).
    destruct (run_ops ops v1 o1) as [[[[] v2] o2]|]; [done|].
    destruct IH as (ops1 & op' & ops2 & v' & o' & -> & Hrun & Hbad).
    exists (op :: ops1), op', ops2, v', o'. split_and!; try done. simpl. unfold bind at 1. by rewrite E1.
Qed.

(** ** Completeness on the addresses of a one-span arena *)

(** [n] bytes at the aligned address [x], all free. *)
Definition free_run_at v (n align x : Z) : Prop :=
  x mod align = 0 ∧ ∀ a, x ≤ a < x + n → address_free v a.

Lemma free_run_candidate v FL sp n align x :
  inv_with v FL → one_span sp (tags v) → 0 < n → free_run_at v n align x →
  ∃ b t, candidate v n align 0 u64_max b t x.
Proof.
  intros Hinv Hsp Hn [Hx Hfree].
  destruct (free_room v FL sp x n Hinv Hsp Hn Hfree) as (b & t & Hb & Hf & Hlo & Hhi).
  pose proof (wf_tag _ _ (inv_wf _ _ Hinv) _ _ Hb) as (?&?&?&?&?).
  exists b, t. unfold candidate, fit_ok, u64_max. split_and!; try done; lia.
Qed.

Lemma candidate_free_run v n align b t x :
  candidate v n align 0 u64_max b t x → free_run_at v n align x.
Proof.
  intros (Hb & Hf & (?&?&?&?&?)). split; [done|]. intros a Ha. exists b, t.
  split_and!; try done; unfold inside; lia.
Qed.

Lemma alloc_complete v FL sp size align fit n :
  inv_with v FL → one_span sp (tags v) → is_u64 size → is_u64 align → pow2 align →
  round_size size v = Ok n →
  wp (alloc size align fit) (λ r v' _,
     match r with
     | Ok x => free_run_at v n (Z.max align (quantum v)) x ∧ alloc_effect v v' x n
     | Err e => v' = v ∧ e = NoSpace ∧ ∀ x, ¬ free_run_at v n (Z.max align (quantum v)) x
     end) v [].
Proof.
  intros Hinv Hsp Hs Ha Hp Hn. pose proof (round_size_spec v size (inv_quantum _ _ Hinv) Hs) as Hrs.
  rewrite Hn in Hrs. eapply wp_mono; [eapply xalloc_spec; try done; lia|].
  intros [x|[]] v' o' [_ Hpost]; simpl in Hpost.
  - destruct Hpost as (n' & b & t & Hn' & Hc & _ & Heff). assert (n' = n) as -> by congruence.
    split; [eapply candidate_free_run, Hc|done].
  - destruct Hpost as [-> (n' & Hn' & Hno)]. assert (n' = n) as -> by congruence. do 2 (split; [done|]). intros x Hx.
    destruct (free_run_candidate v FL sp n (Z.max align (quantum v)) x) as (b & t & Hc); try done; [lia|].
    by eapply Hno.
  - destruct Hpost as [_ Hin]. set_solver.
  - destruct Hpost as [_ [[->|Hbig]|[?|?]]]; [lia| |done|unfold u64_max in *; lia].
    unfold round_size in Hn. destruct (size =? 0); [done|].
    rewrite (proj2 (checked_add_None _ _)) in Hn by lia. done.
Qed.
End runs.

Section theorems.
Context {tree : Type → Type} `{!RBTree tree, !RBTreeLaws tree}.
Implicit Types (v : Vmem tree) (o : oracle).

(** C19: from a new arena, every sequence of operations on machine words keeps
    the invariant of the arena (tags disjoint, aligned, coalesced and on the
    free list of their class, the bitmap and the counters exact); the only
    panic is [free] of an address that is not allocated. *)
Theorem vmem_runs_safe q v ops o :
  is_u64 q → vmem_new q = Some v → Forall op_u64 ops →
  match run_ops ops v o with
  | Some (_, v', _) => vmem_inv v' ∧ 0 ≤ used v' ≤ total v' ∧ available v' = total v' - used v'
  | None => ∃ ops1 op ops2 v1 o1, ops = ops1 ++ op :: ops2 ∧
      run_ops ops1 v o = Some ((), v1, o1) ∧ bad_free v1 op
  end.
Proof.
  intros Hq Hv Hops. pose proof (vmem_new_spec (tree:=tree) q Hq) as Hn. rewrite Hv in Hn.
  destruct Hn as (_ & Hinv & _). pose proof (run_ops_spec v ops o Hinv Hops) as Hr.
  destruct (run_ops ops v o) as [[[[] v'] o']|]; [|done]. split; [done|]. destruct Hr as [FL Hr].
  pose proof (inv_used_bounds _ _ Hr). split; [lia|]. unfold available. apply u64_sub_small. lia.
Qed.

(** C20: [xalloc] never panics; it returns an aligned base inside the
    requested window whose [round_size] bytes were free and are now
    allocated, the smallest suitable segment under [Best]; it fails with
    [NoSpace] only when no free segment has a suitable placement, with
    [NoMemory] only when the pool refused a node, with [Invalid] only for bad
    arguments, and a failure changes nothing. *)
Theorem xalloc_correct v size align min max fit o :
  vmem_inv v → is_u64 size → is_u64 align → is_u64 min →
  wp (xalloc size align min max fit)
     (λ r v' _, xalloc_post v size align min max fit o r v') v o.
Proof. intros [FL Hinv] Hs Ha [Hm _]. eapply wp_mono; [by eapply xalloc_spec|]. by intros r v' o' [_ H']. Qed.

(** [alloc_random] places the allocation, for every entropy word, at an
    aligned address inside one free segment, without overflow. *)
Theorem alloc_random_correct v size align entropy o :
  vmem_inv v → is_u64 size → is_u64 align → is_u64 entropy →
  wp (alloc_random size align entropy) (λ r v' _, random_post v size align o r v') v o.
Proof. intros [FL Hinv] Hs Ha [He _]. eapply wp_mono; [by eapply alloc_random_spec|]. by intros r v' o' [_ H']. Qed.

(** [alloc_fixed] allocates exactly the requested range, and does so if
    and only if the range lies in one free segment. *)
Theorem alloc_fixed_correct v base size o :
  vmem_inv v → is_u64 base → is_u64 size →
  wp (alloc_fixed base size) (λ r v' _, fixed_post v base size o r v') v o.
Proof. intros [FL Hinv] Hb Hs. eapply wp_mono; [by eapply alloc_fixed_spec|]. by intros r v' o' [_ H']. Qed.

(** C21: [free] of an allocation returns its length, removes it from the
    allocations, makes exactly its addresses free again and coalesces it
    with its neighbours; it needs no memory from the pool. *)
Theorem free_correct v base size o :
  vmem_inv v → allocated v !! base = Some size →
  wp (free base) (λ r v' o', o' = o ∧ r = size ∧ free_effect v v' base size) v o.
Proof. intros [FL Hinv]. by eapply free_spec. Qed.

(** [add_span] accepts exactly the aligned, non-empty, non-wrapping ranges
    disjoint from everything the arena manages, and makes their addresses
    free. *)
Theorem add_span_correct v base size o :
  vmem_inv v → is_u64 base → is_u64 size →
  wp (add_span base size) (λ r v' _, add_span_post v base size o r v') v o.
Proof. intros [FL Hinv] Hb Hs. eapply wp_mono; [by eapply add_span_spec|]. by intros r v' o' [_ H']. Qed.

(** C22: in a one-span arena with memory for nodes, [alloc] succeeds if and only
    if some aligned run of free addresses is long enough, under both
    policies. *)
Theorem alloc_finds_space v sp size align fit n :
  vmem_inv v → one_span sp (tags v) → is_u64 size → is_u64 align → pow2 align →
  round_size size v = Ok n →
  wp (alloc size align fit) (λ r v' _,
     match r with
     | Ok x => free_run_at v n (Z.max align (quantum v)) x ∧ alloc_effect v v' x n
     | Err e => v' = v ∧ e = NoSpace ∧ ∀ x, ¬ free_run_at v n (Z.max align (quantum v)) x
     end) v [].
Proof. intros [FL Hinv]. by eapply alloc_complete. Qed.

(** freeing what [xalloc] just returned restores the allocations, the free
    addresses and the counters. *)
Theorem xalloc_free_roundtrip v size align min max fit o :
  vmem_inv v → is_u64 size → is_u64 align → is_u64 min →
  wp (let! x := xalloc size align min max fit in let* n := free x in ret (Ok (x, n)))
     (λ r v' _, match r with
        | Ok (x, n) => round_size size v = Ok n ∧ vmem_inv v' ∧ allocated v' = allocated v ∧
            (∀ a, address_free v' a ↔ address_free v a) ∧ used v' = used v ∧ total v' = total v
        | Err _ => v' = v
        end) v o.
Proof.
  intros [FL Hinv] Hs Ha [Hm _]. wp_step. eapply wp_mono; [by eapply xalloc_spec|].
  intros [x|[]] v1 o1; cbv beta; [|by intros [_ [-> _]]..].
  intros (_ & n & b & t & Hn & _ & _ & Heff). destruct (ae_inv _ _ _ _ Heff) as [FL1 Hinv1]. wp_step.
  eapply wp_mono.
  { eapply free_spec; [done|]. by rewrite (ae_allocated _ _ _ _ Heff), lookup_insert_eq. }
  intros m v2 o2 (_ & -> & Hfe). wp_step. destruct Heff, Hfe. split_and!; try done; try lia.
  - rewrite fe_allocated, ae_allocated. by rewrite delete_insert_id.
  - intros a. rewrite fe_free, ae_free. destruct (decide (x ≤ a < x + n)); [|tauto].
    split; [intros _; by apply ae_was_free|tauto].
Qed.

(** a reservation taken with [reserve_fixed] can be published later, when
    its range is free, whatever the pool answers then. *)
Theorem reservation_publishes v v2 base size o o2 :
  vmem_inv v → is_u64 base → is_u64 size → vmem_inv v2 → quantum v2 = quantum v →
  wp (reserve_fixed base size) (λ r v' _, v' = v ∧
     match r with
     | Ok res => fixed_size base size v = Ok (res_size res) ∧ res_base res = base ∧
         (room v2 base (res_size res) →
          wp (alloc_reserved res)
             (λ _ v3 o3, o3 = o2 ∧ alloc_effect v2 v3 base (res_size res)) v2 o2)
     | Err e => fixed_size base size v = Err e ∨ e = NoMemory ∧ false ∈ o
     end) v o.
Proof.
  intros [FL Hinv] Hb Hs [FL2 Hinv2] Hq. pose proof (inv_quantum _ _ Hinv) as Hp.
  eapply wp_mono; [by apply reserve_fixed_spec|]. intros [r|e] v' o' (-> & _ & H'); [|done].
  destruct H' as (Hf & Hbase & Hst & Hen). split; [done|]. split; [done|]. split; [done|]. intros Hroom.
  pose proof (fixed_size_spec v base size Hp Hs Hb) as Hfs. rewrite Hf in Hfs.
  destruct Hfs as (Hrn & Hbq & Hbn). pose proof (round_size_spec v size Hp Hs) as Hrs.
  rewrite Hrn in Hrs. destruct Hrs as (? & ? & Hnq & ?). destruct Hb. rewrite <- Hbase in *.
  eapply alloc_reserved_spec; rewrite ?Hq; try done; lia.
Qed.

(** [is_free] answers whether the range lies in one free segment. *)
Theorem is_free_correct v base size o :
  vmem_inv v → is_u64 base → is_u64 size → 0 < size →
  wp (is_free base size) (λ r v' o', v' = v ∧ o' = o ∧ (r = true ↔ room v base size)) v o.
Proof. intros [FL Hinv]. by eapply is_free_spec. Qed.
End theorems.

(** ** A concrete arena, and the theorems at work on it *)

Definition demo_ops : list VmemOp :=
  [OpAddSpan 65536 65536; OpXalloc 5000 4096 0 u64_max Instant; OpAllocFixed 81920 4096].
Definition empty_arena : Vmem assoc_tree :=
  default (mkVmem index_new [] 0 0 0 0) (vmem_new 4096).
Definition demo_arena : Vmem assoc_tree :=
  match run_ops demo_ops empty_arena [] with Some (_, v, _) => v | None => empty_arena end.

Lemma demo_u64 : Forall op_u64 demo_ops.
Proof. repeat constructor; simpl; unfold is_u64, u64_max; lia. Qed.

Lemma empty_arena_new : vmem_new 4096 = Some empty_arena.
Proof. reflexivity. Qed.

Lemma demo_inv : vmem_inv demo_arena.
Proof.
  assert (is_u64 4096) as Hq by (unfold is_u64; lia).
  pose proof (vmem_new_spec (tree:=assoc_tree) 4096 Hq) as Hn. rewrite empty_arena_new in Hn.
  destruct Hn as (_ & Hinv & _). pose proof (run_ops_spec empty_arena demo_ops [] Hinv demo_u64) as Hr.
  unfold demo_arena. destruct (run_ops demo_ops empty_arena []) as [[[[] v] o]|] eqn:E; [done|].
  by vm_compute in E.
Qed.

Lemma demo_one_span : one_span 65536 (tags demo_arena).
Proof.
  assert (Forall (λ p, t_span (snd p) = 65536) (map_to_list (tags demo_arena))) as HF.
  { vm_compute. repeat constructor. }
  intros b t Hb%elem_of_map_to_list. rewrite Forall_forall in HF. apply (HF (b, t) Hb).
Qed.

Ltac word := unfold is_u64, u64_max; lia.

Lemma vmem_runs_safe_witness :
  match run_ops (demo_ops ++ [OpFree 65536; OpFree 65536]) empty_arena [] with
  | Some _ => False
  | None => ∃ ops1 op ops2 v1 o1, demo_ops ++ [OpFree 65536; OpFree 65536] = ops1 ++ op :: ops2 ∧
      run_ops ops1 empty_arena [] = Some ((), v1, o1) ∧ bad_free v1 op
  end.
Proof.
  assert (Forall op_u64 (demo_ops ++ [OpFree 65536; OpFree 65536])) as Hu.
  { apply Forall_app. split; [apply demo_u64|]. repeat constructor; simpl; word. }
  pose proof (vmem_runs_safe 4096 empty_arena (demo_ops ++ [OpFree 65536; OpFree 65536]) []
    ltac:(word) empty_arena_new Hu) as H.
  destruct (run_ops (demo_ops ++ [OpFree 65536; OpFree 65536]) empty_arena []) as [[[]]|] eqn:E; [|exact H].
  vm_compute in E. discriminate E.
Defined.

Lemma xalloc_correct_witness :
  (∃ v' o', xalloc 4096 8192 70000 131072 Best demo_arena [] = Some (Ok 73728, v', o')) ∧
  wp (xalloc 4096 8192 70000 131072 Best)
     (λ r v' _, xalloc_post demo_arena 4096 8192 70000 131072 Best [] r v') demo_arena [].
Proof.
  split; [eexists _, _; vm_compute; reflexivity|].
  apply (xalloc_correct demo_arena 4096 8192 70000 131072 Best []); [apply demo_inv|word..].
Defined.

Lemma alloc_random_correct_witness :
  (∃ v' o', alloc_random 4096 4096 12345 demo_arena [] = Some (Ok 77824, v', o')) ∧
  wp (alloc_random 4096 4096 12345)
     (λ r v' _, random_post demo_arena 4096 4096 [] r v') demo_arena [].
Proof.
  split; [eexists _, _; vm_compute; reflexivity|].
  apply (alloc_random_correct demo_arena 4096 4096 12345 []); [apply demo_inv|word..].
Defined.

Lemma alloc_fixed_correct_witness :
  (∃ v' o', alloc_fixed 90112 8192 demo_arena [] = Some (Ok (), v', o')) ∧
  wp (alloc_fixed 90112 8192) (λ r v' _, fixed_post demo_arena 90112 8192 [] r v') demo_arena [].
Proof.
  split; [eexists _, _; vm_compute; reflexivity|].
  apply (alloc_fixed_correct demo_arena 90112 8192 []); [apply demo_inv|word..].
Defined.

Lemma free_correct_witness :
  allocated demo_arena !! 65536 = Some 8192 ∧
  wp (free 65536) (λ r v' o', o' = [] ∧ r = 8192 ∧ free_effect demo_arena v' 65536 8192) demo_arena [].
Proof.
  split; [vm_compute; reflexivity|].
  apply (free_correct demo_arena 65536 8192 []); [apply demo_inv|vm_compute; reflexivity].
Defined.

Lemma add_span_correct_witness :
  (∃ v' o', add_span 131072 4096 demo_arena [] = Some (Ok (), v', o')) ∧
  wp (add_span 131072 4096) (λ r v' _, add_span_post demo_arena 131072 4096 [] r v') demo_arena [].
Proof.
  split; [eexists _, _; vm_compute; reflexivity|].
  apply (add_span_correct demo_arena 131072 4096 []); [apply demo_inv|word..].
Defined.

Lemma alloc_finds_space_witness :
  round_size 5000 demo_arena = Ok 8192 ∧
  wp (alloc 5000 4096 Best) (λ r v' _,
     match r with
     | Ok x => free_run_at demo_arena 8192 (Z.max 4096 (quantum demo_arena)) x ∧
               alloc_effect demo_arena v' x 8192
     | Err e => v' = demo_arena ∧ e = NoSpace ∧
               ∀ x, ¬ free_run_at demo_arena 8192 (Z.max 4096 (quantum demo_arena)) x
     end) demo_arena [].
Proof.
  split; [vm_compute; reflexivity|].
  apply (alloc_finds_space demo_arena 65536 5000 4096 Best 8192);
    [apply demo_inv|apply demo_one_span|word|word| |vm_compute; reflexivity].
  exists 12. lia.
Defined.

Lemma xalloc_free_roundtrip_witness :
  wp (let! x := xalloc 4096 4096 0 u64_max Best in let* n := free x in ret (Ok (x, n)))
     (λ r v' _, match r with
        | Ok (x, n) => round_size 4096 demo_arena = Ok n ∧ vmem_inv v' ∧
            allocated v' = allocated demo_arena ∧
            (∀ a, address_free v' a ↔ address_free demo_arena a) ∧
            used v' = used demo_arena ∧ total v' = total demo_arena
        | Err _ => v' = demo_arena
        end) demo_arena [].
Proof.
  apply (xalloc_free_roundtrip demo_arena 4096 4096 0 u64_max Best []); [apply demo_inv|word..].
Defined.

Lemma reservation_publishes_witness :
  wp (reserve_fixed 90112 8192) (λ r v' _, v' = demo_arena ∧
     match r with
     | Ok res => fixed_size 90112 8192 demo_arena = Ok (res_size res) ∧ res_base res = 90112 ∧
         (room demo_arena 90112 (res_size res) →
          wp (alloc_reserved res)
             (λ _ v3 o3, o3 = [false] ∧ alloc_effect demo_arena v3 90112 (res_size res))
             demo_arena [false])
     | Err e => fixed_size 90112 8192 demo_arena = Err e ∨ e = NoMemory ∧ false ∈ []
     end) demo_arena [].
Proof.
  apply (reservation_publishes demo_arena demo_arena 90112 8192 [] [false]);
    [apply demo_inv|word|word|apply demo_inv|reflexivity].
Defined.

Lemma is_free_correct_witness :
  (∃ o', is_free 86016 45056 demo_arena [] = Some (true, demo_arena, o')) ∧
  wp (is_free 86016 45056)
     (λ r v' o', v' = demo_arena ∧ o' = [] ∧ (r = true ↔ room demo_arena 86016 45056)) demo_arena [].
Proof.
  split; [eexists; vm_compute; reflexivity|].
  apply (is_free_correct demo_arena 86016 45056 []); [apply demo_inv|word|word|lia].
Defined.
