(* ===== verification/Amap.v ===== *)
(** Anonymous maps ([mem/anon.rs]): the arrays of one amap.

    An amap keeps its occupied slots in three arrays: [slots], the dense list
    [used] of occupied indices and its inverse [back].  Partial references are
    counted per slot in a run-length encoded array: a run of length one at [i]
    is the positive number [refs + 1]; a longer run is [-(refs + 1)] followed
    by its length.  [usize] is [nat] here: an index out of range panics, as it
    does in the code, and a subtraction below zero panics.  Requests to the
    nonblocking allocator ([mem/metadata.rs]) are answered by the oracle. *)
From S2P Require Import Prelude.
From S2P Require Import Index.
Open Scope rust_scope.

Definition LARGE_PAGES : Z := 256.
Definition CHUNK_PAGES : Z := 16.

(** [NoSleep::size_class]: the storage classes of the metadata allocator. *)
Definition size_classes : list Z := [64; 128; 256; 512; 1024; 2048; 3072].
Definition size_class (bytes : Z) : option Z :=
  snd <$> list_find (λ size, bytes ≤ size) size_classes.

(** A page and the owner lock that protects it. *)
Record Page : Type := mkPage { page_id : nat; page_owner : nat }.
(** [Slot]: the identity of the [Arc<AnonymousPage>] and its page. *)
Record Slot : Type := mkSlot { slot_identity : nat; slot_page : Page }.
#[export] Instance Page_eq_dec : EqDecision Page.
Proof. solve_decision. Defined.
#[export] Instance Slot_eq_dec : EqDecision Slot.
Proof. solve_decision. Defined.

Inductive PartialReferences : Type :=
| Unestablished
| Disabled
| Counts (counts : list Z).

#[export] Instance PartialReferences_eq_dec : EqDecision PartialReferences.
Proof. solve_decision. Defined.

Record AmapState : Type := mkAmap {
  nslot : nat;
  references : nat;
  shared : bool;
  slots : list (option Slot);
  used_slots : list nat;
  back : list nat;
  partial : PartialReferences;
}.

Definition with_nslot (n : nat) (s : AmapState) :=
  mkAmap n (references s) (shared s) (slots s) (used_slots s) (back s) (partial s).
Definition with_references (n : nat) (s : AmapState) :=
  mkAmap (nslot s) n (shared s) (slots s) (used_slots s) (back s) (partial s).
Definition with_shared (b : bool) (s : AmapState) :=
  mkAmap (nslot s) (references s) b (slots s) (used_slots s) (back s) (partial s).
Definition with_slots (l : list (option Slot)) (s : AmapState) :=
  mkAmap (nslot s) (references s) (shared s) l (used_slots s) (back s) (partial s).
Definition with_used_slots (l : list nat) (s : AmapState) :=
  mkAmap (nslot s) (references s) (shared s) (slots s) l (back s) (partial s).
Definition with_back (l : list nat) (s : AmapState) :=
  mkAmap (nslot s) (references s) (shared s) (slots s) (used_slots s) l (partial s).
Definition with_partial (p : PartialReferences) (s : AmapState) :=
  mkAmap (nslot s) (references s) (shared s) (slots s) (used_slots s) (back s) p.

(** [as u32], [as i32], and [usize] subtraction. *)
Definition as_u32 (n : nat) : nat := Z.to_nat (Z.of_nat n mod 4294967296).
Definition as_i32 (x : Z) : Z := (x + 2147483648) mod 4294967296 - 2147483648.
Definition usub {St} (a b : nat) : M St nat :=
  if decide (b ≤ a)%nat then ret (a - b)%nat else panic.

(** [v[i] = x] *)
Definition vec_set {St A} (l : list A) (i : nat) (x : A) : M St (list A) :=
  if decide (i < length l)%nat then ret (<[i := x]> l) else panic.

(** [Vec::try_reserve_exact] of [bytes] bytes in the metadata allocator. *)
Definition reserve_bytes {St} (bytes : Z) : M St bool :=
  if bytes =? 0 then ret true
  else match size_class bytes with
       | None => ret false
       | Some _ => ask_pool
       end.

(** [array::<T>(length)], with [size_of::<T>()] and [T::default()]. *)
Definition array {St A} (size_of : Z) (default : A) (length : nat) :
    M St (result Error (list A)) :=
  let* ok := reserve_bytes (Z.of_nat length * size_of) in
  ret (if (ok : bool) then Ok (replicate length default) else Err OutOfMemory).

(** ** Run-length encoded reference counts *)

Definition get_run {St} (counts : list Z) (offset : nat) : M St (Z * nat) :=
  let* c := expect (counts !! offset) in
  if 0 <? c then ret (c - 1, 1%nat)
  else
    let* n := expect (counts !! S offset) in
    ret (- c - 1, Z.to_nat (wrap64 n)).

Definition set_run {St} (counts : list Z) (offset : nat) (refs : Z) (length : nat) :
    M St (list Z) :=
  if decide (length = 0%nat) then ret counts
  else if decide (length = 1%nat) then vec_set counts offset (refs + 1)
  else
    let* counts := vec_set counts offset (- (refs + 1)) in
    vec_set counts (S offset) (as_i32 (Z.of_nat length)).

(** ** Slots *)

(** [AmapState::insert] *)
Definition insert_slot (index : nat) (slot : Slot) : M AmapState () :=
  let* st := get in
  let* current := expect (slots st !! index) in
  do (match current with
      | None =>
          let* b := vec_set (back st) index (as_u32 (length (used_slots st))) in
          do modify (with_back b) then
          modify (with_used_slots (used_slots st ++ [as_u32 index]))
      | Some _ => ret ()
      end) then
  let* l := vec_set (slots st) index (Some slot) in
  modify (with_slots l).

(** [Vec::swap_remove] *)
Definition swap_remove {St A} (l : list A) (position : nat) : M St (list A) :=
  let* x := expect (last l) in
  let* l := vec_set l position x in
  ret (take (length l - 1) l).

(** [AmapState::remove] *)
Definition remove_slot (index : nat) : M AmapState () :=
  let* st := get in
  let* current := expect (slots st !! index) in
  match current with
  | None => ret ()
  | Some _ =>
      let* position := expect (back st !! index) in
      let* u := swap_remove (used_slots st) position in
      do modify (with_used_slots u) then
      do (if decide (position < length u)%nat then
            let* moved := expect (u !! position) in
            let* b := vec_set (back st) moved (as_u32 position) in
            modify (with_back b)
          else ret ()) then
      let* l := vec_set (slots st) index None in
      modify (with_slots l)
  end.

(** The two traversals of [AmapState::wipe]. *)
Fixpoint wipe_range (start n : nat) : M AmapState () :=
  match n with
  | O => ret ()
  | S n => do remove_slot start then wipe_range (S start) n
  end.

Fixpoint wipe_used (fuel position start end_ : nat) : M AmapState () :=
  let* st := get in
  match used_slots st !! position with
  | None => ret ()
  | Some index =>
      match fuel with
      | O => panic
      | S fuel =>
          if decide (start ≤ index ∧ index < end_)%nat
          then do remove_slot index then wipe_used fuel position start end_
          else wipe_used fuel (S position) start end_
      end
  end.

Definition wipe (start len : nat) : M AmapState () :=
  let* st := get in
  if decide (len < length (used_slots st))%nat
  then wipe_range start len
  else wipe_used (length (used_slots st)) 0 start (start + len).

(** ** Partial references *)

(** [AmapState::reset_single_coverage] *)
Definition reset_single_coverage (offset len : nat) : M AmapState () :=
  let* st := get in
  match partial st with
  | Counts counts =>
      let* counts := set_run counts 0 0 offset in
      let* counts := set_run counts offset 1 len in
      let* rest := usub (nslot st) offset in
      let* rest := usub rest len in
      let* counts := set_run counts (offset + len) 0 rest in
      modify (with_partial (Counts counts))
  | _ => ret ()
  end.

(** [AmapState::establish] *)
Definition establish (offset : nat) : M AmapState () :=
  let* st := get in
  match partial st with
  | Unestablished =>
      let* counts := array 4 0 (length (slots st)) in
      match counts with
      | Ok counts =>
          let* counts := set_run counts 0 0 offset in
          let* rest := usub (nslot st) offset in
          let* counts := set_run counts offset (as_i32 (Z.of_nat (references st))) rest in
          modify (with_partial (Counts counts))
      | Err _ => modify (with_partial Disabled)
      end
  | _ => ret ()
  end.

(** The first loop of [AmapState::adjust]: a run boundary at [start]. *)
Fixpoint adjust_seek {St} (fuel : nat) (counts : list Z) (start current previous : nat) :
    M St (list Z * nat * nat) :=
  if decide (current < start)%nat then
    match fuel with
    | O => panic
    | S fuel =>
        let* '(refs, run) := get_run counts current in
        let* '(counts, run) :=
          (if decide (start < current + run)%nat then
             let* counts := set_run counts current refs (start - current) in
             let* counts := set_run counts start refs (run - (start - current)) in
             ret (counts, (start - current)%nat)
           else ret (counts, run)) in
        adjust_seek fuel counts start (current + run) current
    end
  else ret (counts, current, previous).

(** The second loop: every run up to [end_] changes by [delta]. *)
Fixpoint adjust_runs (fuel : nat) (end_ current previous : nat) (previous_refs : Z)
    (previous_len : nat) (delta : Z) : M AmapState () :=
  if decide (current < end_)%nat then
    match fuel with
    | O => panic
    | S fuel =>
        let* st := get in
        match partial st with
        | Counts counts =>
            let* '(refs, run) := get_run counts current in
            let* '(counts, run) :=
              (if decide (end_ < current + run)%nat then
                 let* counts := set_run counts current refs (end_ - current) in
                 let* counts := set_run counts end_ refs (run - (end_ - current)) in
                 ret (counts, (end_ - current)%nat)
               else ret (counts, run)) in
            let refs := refs + delta in
            do massert ((0 <=? refs) && (refs <=? Z.of_nat (references st))) then
            let* counts :=
              (if decide (current = previous + previous_len ∧ refs = previous_refs)%nat
               then set_run counts previous refs (previous_len + run)
               else set_run counts current refs run) in
            do modify (with_partial (Counts counts)) then
            do (if refs =? 0 then wipe current run else ret ()) then
            adjust_runs fuel end_ (current + run) previous previous_refs previous_len delta
        | _ => panic
        end
    end
  else ret ().

(** [AmapState::adjust] *)
Definition adjust (start len : nat) (delta : Z) : M AmapState () :=
  let* st := get in
  match partial st with
  | Counts counts =>
      let end_ := (start + len)%nat in
      let* '(counts, current, previous) := adjust_seek start counts start 0 0 in
      do modify (with_partial (Counts counts)) then
      let* '(previous_refs, previous_len) :=
        (if decide (current = 0%nat) then ret (-1, 0%nat) else get_run counts previous) in
      adjust_runs len end_ current previous previous_refs previous_len delta
  | _ => ret ()
  end.

(** ** Allocation and extension *)

(** [AmapState::allocate] *)
Definition amap_allocate {St} (len : Z) : M St (result Error AmapState) :=
  let! bytes := ret (ok_or (checked_mul len 4) OutOfMemory) in
  let! class := ret (ok_or (size_class bytes) OutOfMemory) in
  let capacity := Z.to_nat (class / 4) in
  let* ok := reserve_bytes (Z.of_nat capacity * 4) in
  if negb ok then ret (Err OutOfMemory)
  else
    let! slots := array 8 None capacity in
    let! back := array 4 0%nat capacity in
    ret (Ok (mkAmap (Z.to_nat len) 1 false slots [] back Unestablished)).

(** Moving the slots of [offset, offset + len) up to [area], the last first. *)
Fixpoint move_slots (n offset area : nat) : M AmapState () :=
  match n with
  | O => ret ()
  | S n =>
      let* st := get in
      let* slot := expect (slots st !! (offset + n)%nat) in
      let* l := vec_set (slots st) (offset + n) None in
      let* l := vec_set l (area + n) slot in
      do modify (with_slots l) then
      move_slots n offset area
  end.

(** [back.copy_within(offset..offset + len, area)] *)
Definition copy_within {St A} (l : list A) (offset len area : nat) : M St (list A) :=
  do massert (bool_decide (offset + len ≤ length l ∧ area + len ≤ length l)%nat) then
  ret (take area l ++ take len (drop offset l) ++ drop (area + len) l).

(** [while let Some(index) = state.used.pop()]: the slots move to a larger amap. *)
Fixpoint refill (indices : list nat) (slots : list (option Slot)) (shift : nat) :
    M AmapState () :=
  match indices with
  | [] => ret ()
  | index :: indices =>
      let* current := expect (slots !! index) in
      let* slot := expect current in
      do insert_slot (index + shift) slot then
      refill indices slots shift
  end.

(** A computation on a state of its own, beside the current one. *)
Definition run_on {St T A} (t : T) (m : M T A) : M St (A * T) :=
  λ s o, match m t o with
         | Some (a, t', o') => Some ((a, t'), s, o')
         | None => None
         end.

(** [MapRef::extend] on the reference [(offset, len)]; the result is the
    reference after the call. *)
Definition extend_state (offset len : nat) (added : Z) (backwards : bool) :
    M AmapState (result Error (nat * nat)) :=
  let* st := get in
  if negb (references st =? 1)%nat then ret (Err AlreadyMapped)
  else
    let old_end := (offset + len)%nat in
    do (match partial st with
        | Disabled =>
            do wipe 0 offset then
            let* tail := usub (nslot st) old_end in
            wipe old_end tail
        | _ => ret ()
        end) then
    let* st := get in
    let! need := ret (ok_or (checked_add (Z.of_nat (if backwards then len else old_end)) added)
                            OutOfMemory) in
    if negb backwards && (need <=? Z.of_nat (nslot st)) then
      do adjust old_end (Z.to_nat added) 1 then
      ret (Ok (offset, len + Z.to_nat added)%nat)
    else if backwards && (added <=? Z.of_nat offset) then
      let offset := (offset - Z.to_nat added)%nat in
      do adjust offset (Z.to_nat added) 1 then
      ret (Ok (offset, len + Z.to_nat added)%nat)
    else if need <=? Z.of_nat (length (slots st)) then
      let added := Z.to_nat added in
      let need := Z.to_nat need in
      if backwards then
        let* area := usub (length (slots st)) len in
        do move_slots len offset area then
        let* b := copy_within (back st) offset len area in
        do modify (with_back b) then
        let* shift := usub area offset in
        do modify (λ st, with_used_slots ((λ index, index + as_u32 shift)%nat <$> used_slots st) st) then
        let* offset := usub area added in
        do modify (with_nslot (length (slots st))) then
        do reset_single_coverage offset (len + added) then
        ret (Ok (offset, len + added)%nat)
      else
        do (if decide (old_end < nslot st)%nat
            then adjust old_end (nslot st - old_end) 1 else ret ()) then
        let* st' := get in
        do (match partial st' with
            | Counts counts =>
                let* grown := usub need (nslot st) in
                let* counts := set_run counts (nslot st) 1 grown in
                modify (with_partial (Counts counts))
            | _ => ret ()
            end) then
        do modify (with_nslot need) then
        ret (Ok (offset, len + added)%nat)
    else if LARGE_PAGES <=? need then ret (Err OutOfMemory)
    else
      let added := Z.to_nat added in
      let! replacement := amap_allocate need in
      let* partial' :=
        (match partial st with
         | Counts _ =>
             let* counts := array 4 0 (length (slots replacement)) in
             ret (match counts with Ok counts => Counts counts | Err _ => Disabled end)
         | p => ret p
         end) in
      let* st := get in
      do massert (references st =? 1)%nat then
      let replacement := with_shared (shared st) (with_partial partial' replacement) in
      let capacity := length (slots replacement) in
      let* shift :=
        (if backwards then let* n := usub capacity len in usub n offset else ret 0%nat) in
      let* '(_, replacement) :=
        run_on replacement (refill (reverse (used_slots st)) (slots st) shift) in
      let* '(offset, replacement) :=
        (if backwards then
           let* n := usub capacity len in
           let* offset := usub n added in
           ret (offset, with_nslot capacity replacement)
         else ret (offset, replacement)) in
      let len := (len + added)%nat in
      let* '(_, replacement) := run_on replacement (reset_single_coverage offset len) in
      do modify (λ _, replacement) then
      ret (Ok (offset, len)).

(** [AnonymousMap::add_reference] *)
Definition add_reference (original_offset offset len : nat) : M AmapState () :=
  let* st := get in
  do massert (bool_decide (0 < references st ∧ offset + len ≤ length (slots st))%nat) then
  do establish original_offset then
  let* refs := expect (if Z.of_nat (references st) + 1 <? 2147483647
                       then Some (S (references st)) else None) in
  do modify (with_references refs) then
  adjust offset len 1.

(** [Drop for MapRef] *)
Definition drop_reference (offset len : nat) : M AmapState () :=
  let* st := get in
  do massert (negb (references st =? 0)%nat) then
  if (references st =? 1)%nat then
    do modify (with_references 0) then
    wipe 0 (length (slots st))
  else
    do establish offset then
    do (if (references st =? 2)%nat then modify (with_shared false) else ret ()) then
    do modify (with_references (references st - 1)) then
    adjust offset len (-1).
