(* ===== verification/AmapInv.v ===== *)
(** The arrays of an amap ([mem/anon.rs]): [used] and [back] index the occupied
    slots, and [wipe] empties exactly a range, whichever traversal it takes. *)
From S2P Require Import Prelude.
From S2P Require Import Index.
From S2P Require Import Amap.
Open Scope rust_scope.

Definition occupied (l : list (option Slot)) (i : nat) : Prop := ∃ s, l !! i = Some (Some s).

Record arrays_ok (st : AmapState) : Prop := {
  ao_back : length (back st) = length (slots st);
  ao_cap : Z.of_nat (length (slots st)) < 2147483648;
  ao_nodup : NoDup (used_slots st);
  ao_used i : i ∈ used_slots st ↔ occupied (slots st) i;
  ao_inv p i : used_slots st !! p = Some i → back st !! i = Some p;
}.

Lemma arrays_ok_ext st st' :
  arrays_ok st → slots st' = slots st → used_slots st' = used_slots st → back st' = back st →
  arrays_ok st'.
Proof. intros [] Hs Hu Hb. split; rewrite ?Hs, ?Hu, ?Hb; done. Qed.

(** Everything but the three arrays. *)
Definition same_rest (st st' : AmapState) : Prop :=
  nslot st' = nslot st ∧ references st' = references st ∧ shared st' = shared st ∧
  partial st' = partial st ∧ length (slots st') = length (slots st).
#[export] Instance same_rest_preorder : PreOrder same_rest.
Proof. unfold same_rest. split; [done|]. intros x y z. intuition congruence. Qed.

Definition wiped (start len : nat) (l : list (option Slot)) : list (option Slot) :=
  imap (λ i x, if decide (start ≤ i < start + len)%nat then None else x) l.

Lemma as_u32_small n : Z.of_nat n < 4294967296 → as_u32 n = n.
Proof. intros. unfold as_u32. rewrite Z.mod_small by lia. lia. Qed.
Lemma as_i32_small x : 0 ≤ x < 2147483648 → as_i32 x = x.
Proof. intros. unfold as_i32. rewrite Z.mod_small by lia. lia. Qed.

Lemma wp_usub {St} a b (Q : nat → St → oracle → Prop) s o :
  (b ≤ a)%nat → Q (a - b)%nat s o → wp (usub a b) Q s o.
Proof. intros Hle HQ. unfold usub. by rewrite decide_True. Qed.

Lemma wp_vec_set {St A} (l : list A) i x (Q : list A → St → oracle → Prop) s o :
  (i < length l)%nat → Q (<[i := x]> l) s o → wp (vec_set l i x) Q s o.
Proof. intros Hlt HQ. unfold vec_set. by rewrite decide_True. Qed.

Lemma occupied_lt l i : occupied l i → (i < length l)%nat.
Proof. intros [s Hs]. by apply lookup_lt_Some in Hs. Qed.

Lemma occupied_insert l i j x :
  (i < length l)%nat →
  occupied (<[i := x]> l) j ↔ (i = j ∧ is_Some x) ∨ (i ≠ j ∧ occupied l j).
Proof.
  intros Hi. unfold occupied. destruct (decide (i = j)) as [->|Hne].
  - setoid_rewrite list_lookup_insert_eq; [|done]. split.
    + intros [s Hs]. left. split; [done|]. exists s. congruence.
    + intros [[_ [s ->]]|[? _]]; [by exists s|done].
  - setoid_rewrite list_lookup_insert_ne; [|done]. naive_solver.
Qed.

Lemma lookup_wiped start len l i :
  wiped start len l !! i =
    if decide (start ≤ i < start + len)%nat then (λ _, None) <$> l !! i else l !! i.
Proof.
  unfold wiped. rewrite list_lookup_imap. destruct (l !! i); simpl; case_decide; done.
Qed.

Lemma length_wiped start len l : length (wiped start len l) = length l.
Proof. apply length_imap. Qed.

Lemma wiped_0 start l : wiped start 0 l = l.
Proof. apply list_eq. intros i. rewrite lookup_wiped. case_decide; [lia|done]. Qed.

Lemma wiped_S start n l :
  wiped start (S n) l = wiped (S start) n (<[start := None]> l).
Proof.
  apply list_eq. intros i. rewrite !lookup_wiped, list_lookup_insert.
  repeat case_decide; try lia; subst; try done; destruct (l !! i) eqn:E; try done;
    try (apply lookup_ge_None in E; lia); apply lookup_lt_Some in E; lia.
Qed.

(** The elements of a duplicate-free list of small numbers are few. *)
Lemma nodup_bound (l : list nat) n : NoDup l → (∀ x, x ∈ l → (x < n)%nat) → (length l ≤ n)%nat.
Proof.
  intros Hnd Hlt. rewrite <- (length_seq n 0). apply submseteq_length, NoDup_submseteq; [done|].
  intros x Hx. apply elem_of_seq. specialize (Hlt x Hx). lia.
Qed.

Lemma used_bound st : arrays_ok st → (length (used_slots st) ≤ length (slots st))%nat.
Proof.
  intros Hok. apply nodup_bound; [apply Hok|]. intros x Hx. by apply occupied_lt, Hok.
Qed.

Lemma insert_slot_spec st index slot o :
  arrays_ok st → (index < length (slots st))%nat →
  wp (insert_slot index slot) (λ _ st' o', o' = o ∧ arrays_ok st' ∧ same_rest st st' ∧
     slots st' = <[index := Some slot]> (slots st)) st o.
Proof.
  intros Hok Hi. pose proof (used_bound _ Hok). pose proof (ao_cap _ Hok). unfold insert_slot. wp_steps.
  destruct (lookup_lt_is_Some_2 (slots st) index Hi) as [cur Hcur]. eapply wp_expect; [done|].
  wp_step. destruct cur as [s|].
  - wp_steps. apply wp_vec_set; [done|]. wp_step. split; [done|]. destruct Hok.
    split; [|by repeat split; simpl; rewrite ?length_insert].
    split; simpl; rewrite ?length_insert; try done. intros i. rewrite ao_used0, occupied_insert by done.
    split; [|intros [[-> _]|[_ ?]]; [by exists s|done]]. intros Hocc.
    destruct (decide (index = i)) as [->|]; [left; by eauto|by right].
  - wp_step. apply wp_vec_set; [by rewrite (ao_back _ Hok)|]. wp_steps.
    apply wp_vec_set; [done|]. wp_step. split; [done|].
    assert (index ∉ used_slots st) as Hni.
    { rewrite (ao_used _ Hok). intros [s Hs]. congruence. }
    rewrite !as_u32_small by lia. destruct Hok.
    split; [|by repeat split; simpl; rewrite ?length_insert].
    split; simpl; rewrite ?length_insert; try done.
    + apply NoDup_app. split_and!; [done| |apply NoDup_singleton]. set_solver.
    + intros i. rewrite elem_of_app, ao_used0, occupied_insert, list_elem_of_singleton by done.
      destruct (decide (index = i)) as [->|]; naive_solver.
    + intros p i Hp. apply lookup_app_Some in Hp as [Hp|[Hle Hp]].
      * rewrite list_lookup_insert_ne; [by apply ao_inv0|]. intros ->.
        by eapply Hni, list_elem_of_lookup_2.
      * apply list_lookup_singleton_Some in Hp as [Hz ->].
        rewrite list_lookup_insert_eq by (by rewrite ao_back0). f_equal. lia.
Qed.

(** [swap_remove] of a duplicate-free list. *)
Lemma swap_remove_spec {St A} (l : list A) pos x (Q : list A → St → oracle → Prop) s o :
  l !! pos = Some x → NoDup l →
  (∀ l', NoDup l' → (∀ y, y ∈ l' ↔ y ∈ l ∧ y ≠ x) → length l = S (length l') →
         (∀ p, p ≠ pos → (p < length l')%nat → l' !! p = l !! p) → Q l' s o) →
  wp (swap_remove l pos) Q s o.
Proof.
  intros Hx Hnd HQ. unfold swap_remove.
  destruct (last l) as [z|] eqn:Hl; [|apply last_None in Hl; by subst].
  apply last_Some in Hl as [l0 ->]. wp_steps. pose proof (lookup_lt_Some _ _ _ Hx) as Hlt.
  rewrite length_app in Hlt. simpl in Hlt.
  apply wp_vec_set; [rewrite length_app; simpl; lia|]. wp_step.
  rewrite length_insert, length_app. simpl.
  replace (length l0 + 1 - 1)%nat with (length l0) by lia.
  apply NoDup_app in Hnd as (Hnd0 & Hdis & _).
  destruct (decide (pos = length l0)) as [->|Hne].
  - rewrite list_lookup_middle in Hx by done. simplify_eq.
    rewrite insert_app_r_alt by lia. rewrite Nat.sub_diag, take_app_length. apply HQ; try done.
    + intros y. rewrite elem_of_app, list_elem_of_singleton. split; [|intros [[?|?] ?]; done].
      intros Hy. split; [by left|]. intros ->. by apply (Hdis x Hy), list_elem_of_singleton.
    + rewrite length_app. simpl. lia.
    + intros p _ Hp. by rewrite lookup_app_l.
  - rewrite lookup_app_l in Hx by lia. rewrite insert_app_l by lia.
    rewrite take_app_length' by (by rewrite length_insert).
    apply list_elem_of_split_length in Hx as (l1 & l2 & -> & ->).
    rewrite insert_app_r_alt, Nat.sub_diag by lia. simpl.
    apply NoDup_app in Hnd0 as (Hn1 & Hd1 & Hn2). apply NoDup_cons in Hn2 as [Hx2 Hn2].
    assert (∀ y, y ∈ l1 ∨ y ∈ l2 → y ≠ z ∧ y ≠ x) as Hyz.
    { intros y Hy. split; intros ->.
      - destruct Hy as [Hy|Hy]; (eapply Hdis; [|by apply list_elem_of_singleton]); set_solver.
      - destruct Hy as [Hy|Hy]; [|done]. apply (Hd1 _ Hy). set_solver. }
    assert (x ≠ z) as Hxz.
    { intros ->. eapply (Hdis z); [set_solver|by apply list_elem_of_singleton]. }
    apply HQ.
    + apply NoDup_app. split_and!; [done| |].
      * intros y Hy [->|Hy2]%elem_of_cons; [by destruct (Hyz z (or_introl Hy))|]. apply (Hd1 _ Hy). set_solver.
      * apply NoDup_cons. split; [|done]. intros Hz. by destruct (Hyz z (or_intror Hz)).
    + intros y. specialize (Hyz y). set_solver.
    + rewrite !length_app. simpl. lia.
    + intros p Hp Hlp. rewrite length_app in Hlp. simpl in Hlp.
      rewrite (lookup_app_l (l1 ++ x :: l2)) by (rewrite length_app; simpl; lia).
      destruct (decide (p < length l1)%nat); [by rewrite !lookup_app_l|].
      rewrite !lookup_app_r by lia. by destruct (p - length l1)%nat eqn:E; [lia|].
Qed.

Lemma remove_slot_spec st index o :
  arrays_ok st → (index < length (slots st))%nat →
  wp (remove_slot index) (λ _ st' o', o' = o ∧ arrays_ok st' ∧ same_rest st st' ∧
     slots st' = <[index := None]> (slots st) ∧
     length (used_slots st) = (length (used_slots st') +
       match slots st !! index with Some (Some _) => 1 | _ => 0 end)%nat ∧
     (∀ p, used_slots st !! p ≠ Some index → (p < length (used_slots st'))%nat →
           used_slots st' !! p = used_slots st !! p)) st o.
Proof.
  intros Hok Hi. pose proof (used_bound _ Hok) as Hub. pose proof (ao_cap _ Hok).
  unfold remove_slot. wp_steps.
  destruct (lookup_lt_is_Some_2 (slots st) index Hi) as [cur Hcur]. eapply wp_expect; [done|].
  cbv beta. destruct cur as [s|].
  - assert (index ∈ used_slots st) as Hin by (apply Hok; by exists s).
    apply list_elem_of_lookup_1 in Hin as [pos Hpos].
    pose proof (ao_inv _ Hok _ _ Hpos) as Hback. wp_step. eapply wp_expect; [done|]. cbv beta.
    wp_step. eapply swap_remove_spec; [done|apply Hok|]. intros u Hnd Hel Hlen Hkeep. do 3 wp_step.
    pose proof (lookup_lt_Some _ _ _ Hpos) as Hposlt.
    apply wp_mono with (P := λ _ st1 o1, o1 = o ∧ ∃ b, st1 = with_back b (with_used_slots u st) ∧
      length b = length (back st) ∧ ∀ p i, u !! p = Some i → b !! i = Some p).
    { destruct (decide (pos < length u)%nat) as [Hlt|Hge].
      - destruct (lookup_lt_is_Some_2 u pos Hlt) as [moved Hmoved]. wp_step. eapply wp_expect; [done|].
        assert (moved ∈ used_slots st ∧ moved ≠ index) as [Hmu Hmi].
        { apply Hel. by eapply list_elem_of_lookup_2. }
        assert (moved < length (back st))%nat as Hml.
        { rewrite (ao_back _ Hok). by apply occupied_lt, Hok. }
        cbv beta. wp_step. apply wp_vec_set; [done|]. wp_step. split; [done|].
        eexists. split; [done|]. split; [by rewrite length_insert|]. intros p i Hp.
        rewrite as_u32_small by lia. destruct (decide (p = pos)) as [->|Hne].
        + rewrite Hmoved in Hp. simplify_eq. by rewrite list_lookup_insert_eq.
        + rewrite list_lookup_insert_ne; [|intros ->; by eapply Hne, NoDup_lookup].
          apply Hok. rewrite <- Hkeep; [done|done|]. by eapply lookup_lt_Some.
      - wp_step. split; [done|]. exists (back st). split; [by destruct st|]. split; [done|].
        intros p i Hp. pose proof (lookup_lt_Some _ _ _ Hp). apply Hok. by rewrite <- Hkeep by lia. }
    intros _ st1 o1 (-> & b & -> & Hlb & Hb). wp_step. apply wp_vec_set; [done|]. wp_step.
    split; [done|]. split; [|split; [by repeat split; simpl; rewrite ?length_insert|]].
    + split; simpl; rewrite ?length_insert; try done; [by rewrite Hlb; apply Hok|].
      intros i. rewrite Hel, occupied_insert, (ao_used _ Hok) by done.
      split; [intros [? ?]; right; by split|intros [[_ [? ?]]|[? ?]]; [done|by split]].
    + split; [done|]. simpl. rewrite Hcur. split; [lia|]. intros p Hp. apply Hkeep. by intros ->.
  - wp_step. do 3 (split; [done|]). rewrite Hcur. split; [by rewrite list_insert_id|].
    split; [lia|done].
Qed.

Lemma wipe_range_spec n : ∀ st start o,
  arrays_ok st → (start + n ≤ length (slots st))%nat →
  wp (wipe_range start n) (λ _ st' o', o' = o ∧ arrays_ok st' ∧ same_rest st st' ∧
     slots st' = wiped start n (slots st)) st o.
Proof.
  induction n as [|n IH]; intros st start o Hok Hle; simpl.
  - wp_step. by rewrite wiped_0.
  - wp_step. eapply wp_mono; [apply remove_slot_spec; [done|lia]|].
    intros _ st1 o1 (-> & Hok1 & Hsr1 & Hs1 & _). cbv beta.
    eapply wp_mono; [apply IH; [done|]|].
    { rewrite Hs1, length_insert. lia. }
    intros _ st2 o2 (-> & Hok2 & Hsr2 & Hs2). split; [done|]. split; [done|].
    split; [by etrans|]. by rewrite Hs2, Hs1, wiped_S.
Qed.

Lemma wiped_id start len l :
  (∀ i, (start ≤ i < start + len)%nat → ¬ occupied l i) → wiped start len l = l.
Proof.
  intros Hn. apply list_eq. intros i. rewrite lookup_wiped. case_decide as Hi; [|done].
  destruct (l !! i) as [[s|]|] eqn:E; try done. destruct (Hn i Hi). by exists s.
Qed.

(** The walk of [used] removes what it has not passed yet. *)
Lemma wipe_used_spec fuel : ∀ st pos start end_ o,
  arrays_ok st → (length (used_slots st) ≤ pos + fuel)%nat →
  (∀ p i, (p < pos)%nat → used_slots st !! p = Some i → ¬ (start ≤ i < end_)%nat) →
  wp (wipe_used fuel pos start end_) (λ _ st' o', o' = o ∧ arrays_ok st' ∧ same_rest st st' ∧
     slots st' = wiped start (end_ - start) (slots st)) st o.
Proof.
  induction fuel as [|fuel IH]; intros st pos start end_ o Hok Hfuel Hpast; simpl; do 2 wp_step.
  all: destruct (used_slots st !! pos) as [index|] eqn:Epos.
  2, 4: apply lookup_ge_None in Epos; wp_step; do 3 (split; [done|]); symmetry; apply wiped_id;
    intros i Hi [p Hp]%(ao_used _ Hok)%list_elem_of_lookup_1;
    pose proof (lookup_lt_Some _ _ _ Hp); apply (Hpast p i); [lia|done|lia].
  - apply lookup_lt_Some in Epos. lia.
  - assert (occupied (slots st) index) as [x Hx].
    { by eapply (ao_used _ Hok), list_elem_of_lookup_2. }
    destruct (decide (start ≤ index ∧ index < end_)%nat) as [Hin|Hout].
    + wp_step. eapply wp_mono; [apply remove_slot_spec; [done|by eapply lookup_lt_Some]|].
      intros _ st1 o1 (-> & Hok1 & Hsr1 & Hs1 & Hl1 & Hk1). rewrite Hx in Hl1. cbv beta.
      eapply wp_mono; [apply IH; [done|lia|]|].
      { intros p i Hp Hlk. pose proof (lookup_lt_Some _ _ _ Hlk). apply (Hpast p i Hp).
        rewrite <- Hk1; [done| |done]. intros Hpi. pose proof (NoDup_lookup _ _ _ _ (ao_nodup _ Hok) Hpi Epos). lia. }
      intros _ st2 o2 (-> & Hok2 & Hsr2 & Hs2). do 2 (split; [done|]). split; [by etrans|].
      rewrite Hs2, Hs1. apply list_eq. intros i. rewrite !lookup_wiped, list_lookup_insert.
      pose proof (lookup_lt_Some _ _ _ Hx). repeat case_decide; subst; try done; try lia.
      destruct H1 as [<- _]. by rewrite Hx.
    + eapply wp_mono; [apply IH; [done|lia|]|done].
      intros p i Hp Hlk. destruct (decide (p = pos)) as [->|]; [|apply (Hpast p i); [lia|done]].
      rewrite Epos in Hlk. simplify_eq. done.
Qed.

Lemma wipe_spec st start len o :
  arrays_ok st → (start + len ≤ length (slots st))%nat →
  wp (wipe start len) (λ _ st' o', o' = o ∧ arrays_ok st' ∧ same_rest st st' ∧
     slots st' = wiped start len (slots st)) st o.
Proof.
  intros Hok Hle. unfold wipe. do 2 wp_step.
  destruct (decide (len < length (used_slots st))%nat); [by apply wipe_range_spec|].
  eapply wp_mono; [apply wipe_used_spec; [done|lia|lia]|]. cbv beta.
  by replace (start + len - start)%nat with len by lia.
Qed.

(** ** The run-length encoded counts of an amap ([mem/anon.rs]).

    [lay c off segs] says that the array [c] holds the runs [segs] from [off]
    on, and [expand segs] is the count of every slot.  [adjust] changes the
    counts of exactly one range, whatever the runs, and wipes the slots whose
    count reaches zero. *)

Fixpoint lay (c : list Z) (off : nat) (segs : list (Z * nat)) : Prop :=
  match segs with
  | [] => True
  | (r, l) :: segs =>
      0 ≤ r ∧ (0 < l)%nat ∧ Z.of_nat l < 2147483648 ∧
      c !! off = Some (if decide (l = 1%nat) then r + 1 else - (r + 1)) ∧
      (l ≠ 1%nat → c !! S off = Some (Z.of_nat l)) ∧
      lay c (off + l) segs
  end.

Definition width (segs : list (Z * nat)) : nat := sum_list (snd <$> segs).
Definition expand (segs : list (Z * nat)) : list Z := segs ≫= λ p, replicate (snd p) (fst p).
(** A run of length zero is not written. *)
Definition run (r : Z) (l : nat) : list (Z * nat) := if decide (l = 0%nat) then [] else [(r, l)].

Lemma width_app s1 s2 : width (s1 ++ s2) = (width s1 + width s2)%nat.
Proof. unfold width. by rewrite fmap_app, sum_list_with_app. Qed.
Lemma width_cons r l s : width ((r, l) :: s) = (l + width s)%nat.
Proof. done. Qed.
Lemma expand_app s1 s2 : expand (s1 ++ s2) = expand s1 ++ expand s2.
Proof. apply bind_app. Qed.
Lemma expand_cons r l s : expand ((r, l) :: s) = replicate l r ++ expand s.
Proof. done. Qed.
Lemma length_expand s : length (expand s) = width s.
Proof.
  induction s as [|[r l] s IH]; [done|].
  by rewrite expand_cons, width_cons, length_app, length_replicate, IH.
Qed.
Lemma expand_run r l : expand (run r l) = replicate l r.
Proof. unfold run. case_decide; [by subst|]. unfold expand. simpl. by rewrite app_nil_r. Qed.
Lemma width_run r l : width (run r l) = l.
Proof. by rewrite <- length_expand, expand_run, length_replicate. Qed.

Lemma lay_app c s1 s2 : ∀ off, lay c off (s1 ++ s2) ↔ lay c off s1 ∧ lay c (off + width s1) s2.
Proof.
  induction s1 as [|[r l] s1 IH]; intros off; simpl.
  - unfold width. simpl. rewrite Nat.add_0_r. tauto.
  - rewrite IH, width_cons, Nat.add_assoc. tauto.
Qed.

Lemma lay_frame c c' s : ∀ off,
  (∀ i, (off ≤ i < off + width s)%nat → c' !! i = c !! i) → lay c off s → lay c' off s.
Proof.
  induction s as [|[r l] s IH]; intros off Hfr; simpl; [done|]. rewrite width_cons in Hfr.
  intros (? & ? & ? & H1 & H2 & H3). split_and!; try done.
  - rewrite Hfr by lia. done.
  - intros Hl. rewrite Hfr by lia. auto.
  - apply IH; [|done]. intros i Hi. apply Hfr. lia.
Qed.

Lemma wp_get_run {St} c off r l s (Q : Z * nat → St → oracle → Prop) st o :
  lay c off ((r, l) :: s) → Q (r, l) st o → wp (get_run c off) Q st o.
Proof.
  simpl. intros (Hr & Hl & Hb & H1 & H2 & _) HQ. unfold get_run. wp_step. eapply wp_expect; [done|].
  cbv beta. case_decide as E.
  - subst l. rewrite (proj2 (Z.ltb_lt _ _)) by lia. wp_step. by rewrite Z.add_simpl_r.
  - rewrite (proj2 (Z.ltb_ge _ _)) by lia. wp_step. eapply wp_expect; [by apply H2|]. cbv beta. wp_step.
    unfold wrap64. rewrite Z.mod_small by lia. by replace (- - (r + 1) - 1, Z.to_nat (Z.of_nat l)) with (r, l) by (f_equal; lia).
Qed.

Lemma wp_set_run {St} c off r l (Q : list Z → St → oracle → Prop) st o :
  0 ≤ r → Z.of_nat l < 2147483648 → (off + l ≤ length c)%nat →
  (∀ c', length c' = length c → lay c' off (run r l) →
         (∀ i, ¬ (off ≤ i < off + l)%nat → c' !! i = c !! i) → Q c' st o) →
  wp (set_run c off r l) Q st o.
Proof.
  intros Hr Hl Hoff HQ. unfold set_run, run in *. case_decide as E0; [by apply HQ|].
  case_decide as E1.
  - apply wp_vec_set; [lia|]. apply HQ; [by rewrite length_insert| |].
    + simpl. rewrite decide_True, list_lookup_insert_eq by (done || lia). split_and!; try done; lia.
    + intros i Hi. apply list_lookup_insert_ne. lia.
  - wp_step. apply wp_vec_set; [lia|]. apply wp_vec_set; [rewrite length_insert; lia|].
    rewrite as_i32_small by lia. apply HQ; [by rewrite !length_insert| |].
    + simpl. rewrite decide_False by done. split_and!; try done; try lia.
      * rewrite list_lookup_insert_ne by lia. apply list_lookup_insert_eq. lia.
      * intros _. apply list_lookup_insert_eq. rewrite length_insert. lia.
    + intros i Hi. rewrite !list_lookup_insert_ne by lia. done.
Qed.

(** Rewriting the middle of a layout. *)
Lemma lay_replace c c' pre mid mid' post :
  lay c 0 (pre ++ mid ++ post) → lay c' (width pre) mid' → width mid' = width mid →
  (∀ i, ¬ (width pre ≤ i < width pre + width mid)%nat → c' !! i = c !! i) →
  lay c' 0 (pre ++ mid' ++ post).
Proof.
  rewrite !lay_app. intros (H1 & H2 & H3) Hm Hw Hfr. simpl in *. split_and!; try done.
  - eapply lay_frame; [|done]. intros i Hi. apply Hfr. lia.
  - rewrite Hw. eapply lay_frame; [|done]. intros i Hi. apply Hfr. lia.
Qed.

(** Both loops split the run that crosses their end. *)
Lemma split_run_spec {St} c pre r l post n (Q : list Z * nat → St → oracle → Prop) st o :
  lay c 0 (pre ++ (r, l) :: post) → (width (pre ++ (r, l) :: post) ≤ length c)%nat → (0 < n)%nat →
  (∀ c' m post', (m = Nat.min n l)%nat → length c' = length c → lay c' 0 (pre ++ (r, m) :: post') →
     expand ((r, m) :: post') = expand ((r, l) :: post) → Q (c', m) st o) →
  wp (if decide (width pre + n < width pre + l)%nat then
        let* counts := set_run c (width pre) r (width pre + n - width pre) in
        let* counts := set_run counts (width pre + n) r (l - (width pre + n - width pre)) in
        ret (counts, (width pre + n - width pre)%nat)
      else ret (c, l)) Q st o.
Proof.
  intros Hlay Hlen Hn HQ. rewrite width_app, width_cons in Hlen.
  pose proof Hlay as [_ (Hr & Hl & Hb & _ & _ & _)]%lay_app.
  case_decide as E; [|wp_step; by apply (HQ c l post); [lia|..]].
  replace (width pre + n - width pre)%nat with n by lia.
  wp_step. apply wp_set_run; [done|lia|lia|]. intros c1 Hlen1 Hl1 Hfr1.
  wp_step. apply wp_set_run; [done|lia|lia|]. intros c2 Hlen2 Hl2 Hfr2. wp_step.
  apply (HQ c2 n ((r, l - n)%nat :: post)); [lia|congruence| |].
  - apply (lay_replace c c2 pre [(r, l)] [(r, n); (r, l - n)%nat] post); [done| | |].
    + apply (lay_app c2 [(r, n)] [(r, l - n)%nat]). unfold run in *.
      rewrite decide_False in Hl1 by lia. rewrite decide_False in Hl2 by lia. split.
      * eapply lay_frame; [|done]. rewrite width_cons. intros i Hi. apply Hfr2.
        change (width []) with 0%nat in Hi. lia.
      * rewrite width_cons. change (width []) with 0%nat. by rewrite Nat.add_0_r.
    + rewrite !width_cons. change (width []) with 0%nat. lia.
    + rewrite width_cons. change (width []) with 0%nat. intros i Hi. rewrite Hfr2, Hfr1 by lia. done.
  - rewrite !expand_cons, app_assoc, <- replicate_add. do 2 f_equal. lia.
Qed.

(** [previous] names the last run before the current position. *)
Definition previous_ok (pre : list (Z * nat)) (previous : nat) : Prop :=
  pre = [] ∨ ∃ pre0 r l, pre = pre0 ++ [(r, l)] ∧ previous = width pre0.

Lemma lay_nil_width s c off : lay c off s → width s = 0%nat → s = [].
Proof. destruct s as [|[r l] s]; [done|]. rewrite width_cons. simpl. lia. Qed.

Lemma width_snoc s r l : width (s ++ [(r, l)]) = (width s + l)%nat.
Proof. rewrite width_app. unfold width. simpl. lia. Qed.

(** The counts and their array agree, and the array is as long as the slots. *)
Lemma adjust_seek_spec {St} fuel : ∀ c pre rest n previous (Q : list Z * nat * nat → St → oracle → Prop) st o,
  lay c 0 (pre ++ rest) → (width (pre ++ rest) ≤ length c)%nat →
  (n ≤ width rest)%nat → (n ≤ fuel)%nat → previous_ok pre previous →
  (∀ c' pre' rest' previous', length c' = length c → lay c' 0 (pre' ++ rest') →
     width pre' = (width pre + n)%nat → expand (pre' ++ rest') = expand (pre ++ rest) →
     previous_ok pre' previous' → Q (c', width pre', previous') st o) →
  wp (adjust_seek fuel c (width pre + n) (width pre) previous) Q st o.
Proof.
  induction fuel as [|fuel IH]; intros c pre rest n previous Q st o Hlay Hlen Hn Hf Hprev HQ; simpl.
  - assert (n = 0%nat) as -> by lia. rewrite decide_False by lia. wp_step.
    by apply (HQ c pre rest previous); try done; lia.
  - destruct (decide (n = 0%nat)) as [->|Hn0].
    { rewrite decide_False by lia. wp_step. by apply (HQ c pre rest previous); try done; lia. }
    rewrite decide_True by lia. destruct rest as [|[r l] rest]; [unfold width in Hn; simpl in Hn; lia|].
    wp_step. eapply wp_get_run; [by apply lay_app in Hlay as [_ ?]|]. cbv beta iota. wp_step.
    apply (split_run_spec c pre r l rest n); [done|done|lia|].
    intros c' m post' Hm Hlen' Hlay' Hexp. cbv beta iota.
    assert (m ≤ n ∧ 0 < m)%nat as [Hmn Hm0].
    { split; [lia|]. apply lay_app in Hlay' as [_ (_ & ? & _)]. lia. }
    assert (width ((r, m) :: post') = width ((r, l) :: rest)) as Hw by (by rewrite <- !length_expand, Hexp).
    rewrite <- (width_snoc pre r m).
    replace (width pre + n)%nat with (width (pre ++ [(r, m)]) + (n - m))%nat by (rewrite width_snoc; lia).
    rewrite !width_cons in *. rewrite width_app, width_cons in Hlen.
    apply (IH _ _ post').
    + by rewrite <- app_assoc.
    + rewrite <- app_assoc. simpl. rewrite width_app, width_cons. lia.
    + lia.
    + lia.
    + right. by exists pre, r, m.
    + intros c2 pre2 rest2 prev2 Hl2 Hlay2 Hw2 He2 Hp2. apply (HQ _ _ rest2); try done; [congruence|rewrite Hw2, width_snoc; lia|].
      rewrite He2, <- app_assoc. simpl. by rewrite !expand_app, Hexp.
Qed.

(** What [adjust] leaves alone. *)
Definition same_frame (st st' : AmapState) : Prop :=
  nslot st' = nslot st ∧ references st' = references st ∧ shared st' = shared st ∧
  length (slots st') = length (slots st).
#[export] Instance same_frame_preorder : PreOrder same_frame.
Proof. unfold same_frame. split; [done|]. intros x y z. intuition congruence. Qed.

(** The runs after [adjust_runs], and the slots it wipes. *)
Definition adjusted (counts : list Z) (start n : nat) (delta : Z) : list Z :=
  take start counts ++ ((λ r, r + delta) <$> take n (drop start counts)) ++ drop (start + n) counts.
Definition slots_after (counts : list Z) (start n : nat) (l : list (option Slot)) : list (option Slot) :=
  imap (λ i x, if decide ((start ≤ i < start + n)%nat ∧ counts !! i = Some 0) then None else x) l.

(** The run before the current position that the first changed run may join. *)
Definition joinable (pre : list (Z * nat)) (previous : nat) (prefs : Z) (plen : nat) : Prop :=
  (∃ pre0, pre = pre0 ++ [(prefs, plen)] ∧ previous = width pre0) ∨
  (previous + plen < width pre)%nat ∨ prefs = -1.

Lemma lookup_adjusted counts start n delta i :
  (start + n ≤ length counts)%nat →
  adjusted counts start n delta !! i =
    if decide (start ≤ i < start + n)%nat then (λ r, r + delta) <$> counts !! i else counts !! i.
Proof.
  intros Hle. unfold adjusted. destruct (decide (i < start)%nat).
  - rewrite lookup_app_l by (rewrite length_take; lia). rewrite lookup_take_lt by lia.
    by rewrite decide_False by lia.
  - rewrite lookup_app_r by (rewrite length_take; lia). rewrite length_take_le by lia.
    destruct (decide (i < start + n)%nat).
    + rewrite decide_True by lia. rewrite lookup_app_l by (rewrite length_fmap, length_take, length_drop; lia).
      rewrite list_lookup_fmap, lookup_take_lt, lookup_drop by lia. do 2 f_equal. lia.
    + rewrite decide_False by lia. rewrite lookup_app_r by (rewrite length_fmap, length_take, length_drop; lia).
      rewrite length_fmap, length_take, length_drop, lookup_drop. f_equal. lia.
Qed.

Lemma length_adjusted counts start n delta :
  (start + n ≤ length counts)%nat → length (adjusted counts start n delta) = length counts.
Proof.
  intros. unfold adjusted. rewrite !length_app, length_fmap, !length_take, !length_drop. lia.
Qed.

Lemma lookup_slots_after counts start n l i :
  slots_after counts start n l !! i =
    if decide ((start ≤ i < start + n)%nat ∧ counts !! i = Some 0) then (λ _, None) <$> l !! i else l !! i.
Proof. unfold slots_after. rewrite list_lookup_imap. destruct (l !! i); simpl; case_decide; done. Qed.

Lemma slots_after_0 counts start l : slots_after counts start 0 l = l.
Proof. apply list_eq. intros i. rewrite lookup_slots_after. case_decide; [lia|done]. Qed.

(** One run gets its new count, alone or joined to the run before it. *)
Lemma store_run_spec {St} c pre r m post refs previous prefs plen (Q : list Z → St → oracle → Prop) st o :
  lay c 0 (pre ++ (r, m) :: post) → (width (pre ++ (r, m) :: post) ≤ length c)%nat →
  Z.of_nat (length c) < 2147483648 → 0 ≤ refs → joinable pre previous prefs plen →
  (∀ c' pre', length c' = length c → lay c' 0 (pre' ++ post) →
     expand pre' = expand pre ++ replicate m refs → joinable pre' previous prefs plen → Q c' st o) →
  wp (if decide (width pre = previous + plen ∧ refs = prefs)%nat
      then set_run c previous refs (plen + m)
      else set_run c (width pre) refs m) Q st o.
Proof.
  intros Hlay Hlen Hcap Hr Hj HQ. rewrite width_app, width_cons in Hlen.
  assert (0 < m)%nat as Hm by (apply lay_app in Hlay as [_ (_ & ? & _)]; lia).
  assert (∀ pre', width pre' = (width pre + m)%nat → joinable pre' previous prefs plen) as Hj'.
  { intros pre' Hw. destruct Hj as [(pre0 & -> & ->)|[?|?]]; [|right; left; lia|by right; right].
    right. left. rewrite Hw, width_snoc. lia. }
  case_decide as E.
  - destruct E as [Hw ->]. destruct Hj as [(pre0 & -> & ->)|[?|?]]; [|lia|lia].
    rewrite width_snoc in *. apply wp_set_run; [done|lia|lia|]. intros c' Hlen' Hl' Hfr'.
    unfold run in Hl'. rewrite decide_False in Hl' by lia.
    apply (HQ c' (pre0 ++ [(prefs, plen + m)%nat])); [done| | |].
    + rewrite <- app_assoc. apply (lay_replace c c' pre0 [(prefs, plen); (r, m)] [(prefs, plen + m)%nat] post).
      * by rewrite <- app_assoc in Hlay.
      * done.
      * rewrite !width_cons. change (width []) with 0%nat. lia.
      * rewrite !width_cons. change (width []) with 0%nat. intros i Hi. apply Hfr'. lia.
    + rewrite !expand_app, !expand_cons. unfold expand. simpl. rewrite !app_nil_r, replicate_add, app_assoc. done.
    + apply Hj'. rewrite width_snoc. lia.
  - apply wp_set_run; [done|lia|lia|]. intros c' Hlen' Hl' Hfr'.
    unfold run in Hl'. rewrite decide_False in Hl' by lia.
    apply (HQ c' (pre ++ [(refs, m)])); [done| | |].
    + rewrite <- app_assoc. apply (lay_replace c c' pre [(r, m)] [(refs, m)] post); try done.
      rewrite width_cons. change (width []) with 0%nat. intros i Hi. apply Hfr'. lia.
    + rewrite expand_app, expand_cons. unfold expand. simpl. by rewrite app_nil_r.
    + apply Hj'. by rewrite width_snoc.
Qed.

Lemma adjusted_step counts start m n delta r :
  (m ≤ n)%nat → (start + n ≤ length counts)%nat → take m (drop start counts) = replicate m r →
  adjusted (adjusted counts start m delta) (start + m) (n - m) delta = adjusted counts start n delta.
Proof.
  intros Hm Hle _. apply list_eq. intros i.
  rewrite !lookup_adjusted by (rewrite ?length_adjusted; lia). repeat case_decide; try done; lia.
Qed.

(** Wiping one run and going on is wiping what the final counts say. *)
Lemma slots_after_step counts start m n l refs :
  (m ≤ n)%nat → (∀ i, (start ≤ i < start + m)%nat → counts !! i = Some refs) →
  slots_after counts (start + m) (n - m) (if refs =? 0 then wiped start m l else l) =
  slots_after counts start n l.
Proof.
  intros Hm Hr. apply list_eq. intros i. rewrite !lookup_slots_after.
  destruct (decide (start ≤ i < start + m)%nat) as [Hin|Hout].
  - rewrite decide_False by lia. rewrite (Hr i Hin). destruct (Z.eqb_spec refs 0) as [->|Hne].
    + rewrite decide_True by (split; [lia|done]). rewrite lookup_wiped, decide_True by lia. done.
    + by rewrite decide_False by (intros [_ ?]; congruence).
  - assert ((if refs =? 0 then wiped start m l else l) !! i = l !! i) as Hl.
    { destruct (refs =? 0); [|done]. by rewrite lookup_wiped, decide_False by lia. }
    repeat case_decide; rewrite ?Hl; try done; exfalso; naive_solver lia.
Qed.

Lemma adjust_runs_spec fuel : ∀ st c pre rest n previous prefs plen delta o,
  arrays_ok st → partial st = Counts c → length c = length (slots st) →
  lay c 0 (pre ++ rest) → (width (pre ++ rest) ≤ length c)%nat →
  (n ≤ width rest)%nat → (n ≤ fuel)%nat → joinable pre previous prefs plen →
  Forall (λ r, 0 ≤ r + delta ≤ Z.of_nat (references st)) (take n (expand rest)) →
  wp (adjust_runs fuel (width pre + n) (width pre) previous prefs plen delta)
     (λ _ st' o', o' = o ∧ arrays_ok st' ∧ same_frame st st' ∧
        ∃ c' segs, partial st' = Counts c' ∧ length c' = length c ∧ lay c' 0 segs ∧
          expand segs = adjusted (expand (pre ++ rest)) (width pre) n delta ∧
          slots st' = slots_after (expand segs) (width pre) n (slots st)) st o.
Proof.
  induction fuel as [|fuel IH]; intros st c pre rest n previous prefs plen delta o
    Hok Hp Hlc Hlay Hlen Hn Hf Hj Hall.
  all: destruct (decide (n = 0%nat)) as [->|Hn0]; [|try lia].
  1, 2: simpl; rewrite decide_False by lia; wp_step; do 3 (split; [done|]);
    exists c, (pre ++ rest); do 3 (split; [done|]); rewrite slots_after_0; split; [|done];
    apply list_eq; intros i; rewrite lookup_adjusted by (rewrite length_expand, width_app; lia);
    by rewrite decide_False by lia.
  simpl. rewrite decide_True by lia. do 2 wp_step. rewrite Hp.
  destruct rest as [|[r l] rest]; [unfold width in Hn; simpl in Hn; lia|].
  wp_step. eapply wp_get_run; [by apply lay_app in Hlay as [_ ?]|]. cbv beta iota. wp_step.
  apply (split_run_spec c pre r l rest n); [done|done|lia|].
  intros c1 m post Hm Hlen1 Hlay1 Hexp. cbv beta iota.
  assert (0 < m)%nat as Hm0 by (apply lay_app in Hlay1 as [_ (_ & ? & _)]; lia).
  assert (0 ≤ r + delta ≤ Z.of_nat (references st)) as Hr.
  { rewrite Forall_forall in Hall. apply Hall. rewrite <- Hexp, expand_cons.
    apply list_elem_of_lookup_2 with 0%nat. rewrite lookup_take_lt by lia.
    rewrite lookup_app_l by (rewrite length_replicate; lia). apply lookup_replicate_2. lia. }
  wp_step. apply wp_massert; [rewrite andb_true_iff, !Z.leb_le; lia|].
  assert (expand (pre ++ (r, m) :: post) = expand (pre ++ (r, l) :: rest)) as Hexp'
    by (by rewrite !expand_app, Hexp).
  assert (width (pre ++ (r, m) :: post) = width (pre ++ (r, l) :: rest)) as Hw'
    by (by rewrite <- !length_expand, Hexp').
  pose proof (ao_cap _ Hok) as Hcap. wp_step.
  apply (store_run_spec c1 pre r m post); [done|lia|lia|lia|done|].
  intros c2 pre2 Hlen2 Hlay2 Hexp2 Hj2. do 3 wp_step.
  assert (width pre2 = width pre + m)%nat as Hw2
    by (by rewrite <- !length_expand, Hexp2, length_app, length_replicate).
  rewrite !width_app, !width_cons in Hw'. rewrite width_app, width_cons in Hlen. rewrite width_cons in Hn.
  set (st1 := with_partial (Counts c2) st).
  apply wp_mono with (P := λ _ st2 o2, o2 = o ∧ arrays_ok st2 ∧ same_rest st1 st2 ∧
    slots st2 = if r + delta =? 0 then wiped (width pre) m (slots st) else slots st).
  { assert (arrays_ok st1) as Hok1 by (by destruct Hok).
    destruct (r + delta =? 0); [|by wp_step]. eapply wp_mono; [apply (wipe_spec st1); [done|simpl; lia]|done]. }
  intros _ st2 o2 (-> & Hok2 & (?&?&?&Hp2&?) & Hs2). cbv beta. rewrite <- Hw2.
  replace (width pre + n)%nat with (width pre2 + (n - m))%nat by lia.
  eapply wp_mono.
  { eapply (IH st2 c2 pre2 post); try done; try lia.
    - rewrite Hlen2, Hlen1, Hlc. done.
    - rewrite width_app. lia.
    - rewrite <- Hexp, expand_cons in Hall. simpl in *. replace (references st2) with (references st) by done.
      replace n with (m + (n - m))%nat in Hall by lia.
      rewrite take_app_add' in Hall by (by rewrite length_replicate). by apply Forall_app in Hall as [_ ?]. }
  intros _ st3 o3 (-> & Hok3 & Hsf3 & c3 & segs & Hp3 & Hlen3 & Hlay3 & He3 & Hs3).
  split; [done|]. split; [done|]. split; [by unfold same_frame in *; simpl in *; intuition congruence|].
  exists c3, segs. split; [done|]. split; [congruence|]. split; [done|].
  assert (expand (pre2 ++ post) = adjusted (expand (pre ++ (r, l) :: rest)) (width pre) m delta) as He2.
  { rewrite <- Hexp', !expand_app, expand_cons, Hexp2, <- app_assoc. unfold adjusted.
    rewrite <- (length_expand pre), take_app_length, drop_app_length, <- drop_drop, drop_app_length.
    rewrite take_app_length' by (by rewrite length_replicate).
    rewrite drop_app_length' by (by rewrite length_replicate). by rewrite fmap_replicate. }
  assert (expand segs = adjusted (expand (pre ++ (r, l) :: rest)) (width pre) n delta) as Hfin.
  { rewrite He3, He2, Hw2. apply (adjusted_step _ _ _ _ _ r); [lia| |].
    - rewrite length_expand, width_app, width_cons. lia.
    - rewrite <- Hexp', expand_app, <- (length_expand pre), drop_app_length, expand_cons.
      apply take_app_length'. by rewrite length_replicate. }
  split; [done|]. rewrite Hs3, Hs2, Hw2. apply slots_after_step; [lia|]. intros i Hi.
  rewrite He3, lookup_adjusted by (rewrite length_expand, width_app; lia). rewrite decide_False by lia.
  rewrite expand_app, Hexp2, lookup_app_l by (rewrite length_app, length_replicate, length_expand; lia).
  rewrite lookup_app_r by (rewrite length_expand; lia). apply lookup_replicate_2. rewrite length_expand. lia.
Qed.
