(* ===== verification/AmapSpec.v ===== *)
(** The invariant of an amap ([mem/anon.rs]) and its reference operations.

    [amap_inv st refs] relates the state to the live references [refs], given
    by offset and length: with partial references established, the count of a
    slot is the number of references that cover it, and only covered slots are
    occupied. *)
From S2P Require Import Prelude.
From S2P Require Import Index.
From S2P Require Import Amap.
From S2P Require Import AmapInv.
Open Scope rust_scope.

Definition covers (i : nat) (p : nat * nat) : Prop := (p.1 ≤ i < p.1 + p.2)%nat.
#[export] Instance covers_dec i p : Decision (covers i p).
Proof. unfold covers. apply _. Defined.
(** The number of references that cover slot [i]. *)
Definition count (refs : list (nat * nat)) (i : nat) : Z :=
  Z.of_nat (length (filter (covers i) refs)).

Definition partial_ok (st : AmapState) (refs : list (nat * nat)) : Prop :=
  match partial st with
  | Unestablished =>
      ∃ o l, (∀ p, p ∈ refs → p = (o, l)) ∧ (o + l)%nat = nslot st ∧
             ∀ i, occupied (slots st) i → (o ≤ i)%nat
  | Disabled => True
  | Counts c =>
      length c = length (slots st) ∧
      (∃ segs, lay c 0 segs ∧ width segs = nslot st ∧
         ∀ i, (i < nslot st)%nat → expand segs !! i = Some (count refs i)) ∧
      ∀ i, occupied (slots st) i → 0 < count refs i
  end.

Record amap_inv (st : AmapState) (refs : list (nat * nat)) : Prop := {
  ai_arrays : arrays_ok st;
  ai_nslot : (nslot st ≤ length (slots st))%nat;
  ai_high i : occupied (slots st) i → (i < nslot st)%nat;
  ai_refs : references st = length refs;
  ai_bound : Z.of_nat (length refs) < 2147483647;
  ai_in p : p ∈ refs → (p.1 + p.2 ≤ nslot st)%nat;
  ai_partial : refs ≠ [] → partial_ok st refs;
}.

Lemma count_nonneg refs i : 0 ≤ count refs i.
Proof. unfold count. lia. Qed.
Lemma count_le refs i : count refs i ≤ Z.of_nat (length refs).
Proof. unfold count. pose proof (length_filter (covers i) refs). lia. Qed.
Lemma count_cons p refs i :
  count (p :: refs) i = (if decide (covers i p) then 1 else 0) + count refs i.
Proof. unfold count. rewrite filter_cons. case_decide; simpl; lia. Qed.
Lemma count_perm refs refs' i : refs ≡ₚ refs' → count refs i = count refs' i.
Proof. intros Hp. unfold count. by rewrite Hp. Qed.
Lemma count_same refs p i :
  (∀ q, q ∈ refs → q = p) → count refs i = if decide (covers i p) then Z.of_nat (length refs) else 0.
Proof.
  induction refs as [|q refs IH]; intros Hall; [by case_decide|].
  rewrite count_cons, IH by (intros; apply Hall; by right).
  rewrite (Hall q) by (left; done). simpl. case_decide; lia.
Qed.

(** [adjust] with the counts of the whole array as a list. *)
Lemma adjust_spec st c segs start len delta o :
  arrays_ok st → partial st = Counts c → length c = length (slots st) → lay c 0 segs →
  (width segs ≤ length c)%nat → (start + len ≤ width segs)%nat →
  (∀ i r, (start ≤ i < start + len)%nat → expand segs !! i = Some r →
          0 ≤ r + delta ≤ Z.of_nat (references st)) →
  wp (adjust start len delta) (λ _ st' o', o' = o ∧ arrays_ok st' ∧ same_frame st st' ∧
     ∃ c' segs', partial st' = Counts c' ∧ length c' = length c ∧ lay c' 0 segs' ∧
       expand segs' = adjusted (expand segs) start len delta ∧
       slots st' = slots_after (expand segs') start len (slots st)) st o.
Proof.
  intros Hok Hp Hlc Hlay Hw Hle Hr. unfold adjust. do 2 wp_step. rewrite Hp. wp_step.
  apply (adjust_seek_spec start c [] segs start 0); [done|done|lia|done|by left|].
  intros c1 pre rest previous Hlen1 Hlay1 Hw1 Hexp1 Hprev. change (width []) with 0%nat in Hw1. simpl in Hw1.
  cbv beta iota. do 3 wp_step.
  assert (length (expand pre) = start) as Hpre by (by rewrite length_expand).
  assert (width (pre ++ rest) = width segs) as Hww by (by rewrite <- !length_expand, Hexp1).
  assert (expand (pre ++ rest) = expand segs) as Hexp2 by done.
  set (st1 := with_partial (Counts c1) st).
  assert (arrays_ok st1) as Hok1 by (by destruct Hok).
  assert (∀ previous_refs previous_len, joinable pre previous previous_refs previous_len →
    wp (adjust_runs len (start + len) (width pre) previous previous_refs previous_len delta)
       (λ _ st' o', o' = o ∧ arrays_ok st' ∧ same_frame st st' ∧
          ∃ c' segs', partial st' = Counts c' ∧ length c' = length c ∧ lay c' 0 segs' ∧
            expand segs' = adjusted (expand segs) start len delta ∧
            slots st' = slots_after (expand segs') start len (slots st)) st1 o) as Hrun.
  { intros prefs plen Hj. rewrite <- Hw1. eapply wp_mono.
    - eapply (adjust_runs_spec len st1 c1 pre rest len); try done; [simpl; congruence|lia| |].
      + rewrite width_app in Hww. lia.
      + apply Forall_lookup. intros i r Hi. apply lookup_take_Some in Hi as [Hi Hlt].
        apply (Hr (start + i)%nat r); [lia|]. rewrite <- Hexp2, expand_app, lookup_app_r by lia.
        rewrite <- Hi. f_equal. lia.
    - intros _ st' o' (-> & Hok' & Hsf & c' & segs' & H1 & H2 & H3 & H4 & H5). do 3 (split; [done|]).
      exists c', segs'. split; [done|]. split; [congruence|]. split; [done|]. split; [by rewrite H4, Hexp2|exact H5]. }
  destruct (decide (width pre = 0%nat)) as [E|E].
  - wp_step. apply Hrun. by right; right.
  - destruct Hprev as [->|(pre0 & r & l & -> & ->)]; [done|].
    eapply (wp_get_run c1 (width pre0) r l rest).
    + rewrite <- app_assoc in Hlay1. by apply lay_app in Hlay1 as [_ ?].
    + apply Hrun. left. by exists pre0.
Qed.

(** No slot is wiped where the new count is positive. *)
Lemma slots_after_id counts start len l :
  (∀ i, (start ≤ i < start + len)%nat → counts !! i ≠ Some 0) → slots_after counts start len l = l.
Proof.
  intros Hn. apply list_eq. intros i. rewrite lookup_slots_after. case_decide as E; [|done].
  destruct E as [Hi Hz]. by destruct (Hn i Hi).
Qed.

(** Laying out runs one after the other. *)
Lemma lay_snoc_run c c' segs r l :
  lay c 0 segs → lay c' (width segs) (run r l) →
  (∀ i, ¬ (width segs ≤ i < width segs + l)%nat → c' !! i = c !! i) → lay c' 0 (segs ++ run r l).
Proof.
  intros H1 H2 Hfr. apply lay_app. split; [|done]. eapply lay_frame; [|done].
  intros i Hi. apply Hfr. lia.
Qed.

Lemma wp_lay_run {St} c segs r l (Q : list Z → St → oracle → Prop) st o :
  lay c 0 segs → 0 ≤ r → Z.of_nat (length c) < 2147483648 → (width segs + l ≤ length c)%nat →
  (∀ c', length c' = length c → lay c' 0 (segs ++ run r l) → Q c' st o) →
  wp (set_run c (width segs) r l) Q st o.
Proof.
  intros Hlay Hr Hcap Hle HQ. apply wp_set_run; [done|lia|lia|]. intros c' Hlen Hl Hfr.
  apply HQ; [done|]. by eapply lay_snoc_run.
Qed.

Lemma wp_lay_run' {St} c segs off r l (Q : list Z → St → oracle → Prop) st o :
  lay c 0 segs → off = width segs → 0 ≤ r → Z.of_nat (length c) < 2147483648 →
  (width segs + l ≤ length c)%nat →
  (∀ c', length c' = length c → lay c' 0 (segs ++ run r l) → Q c' st o) →
  wp (set_run c off r l) Q st o.
Proof. intros ? ->. by apply wp_lay_run. Qed.

(** The metadata allocator answers, or has no class that large. *)
Lemma wp_reserve_bytes {St} bytes (Q : bool → St → oracle → Prop) st o :
  (∀ b o', o' ⊆ o → (b = false → false ∈ o ∨ size_class bytes = None) → Q b st o') →
  wp (reserve_bytes bytes) Q st o.
Proof.
  intros HQ. unfold reserve_bytes. destruct (bytes =? 0); [wp_step; by apply HQ|].
  destruct (size_class bytes); [|wp_step; apply HQ; auto].
  apply wp_ask; intros; apply HQ; try done; auto.
Qed.

Lemma wp_array {St A} size_of (d : A) n (Q : result Error (list A) → St → oracle → Prop) st o :
  (∀ o', o' ⊆ o → Q (Ok (replicate n d)) st o') →
  (∀ o', o' ⊆ o → false ∈ o ∨ size_class (Z.of_nat n * size_of) = None → Q (Err OutOfMemory) st o') →
  wp (array size_of d n) Q st o.
Proof.
  intros H1 H2. unfold array. wp_step. apply wp_reserve_bytes. intros [] o' Ho Hb; wp_step; auto.
Qed.

(** [establish] keeps the invariant. *)
Lemma establish_spec st refs off o :
  amap_inv st refs → (∃ l, (off, l) ∈ refs) →
  wp (establish off) (λ _ st' o', o' ⊆ o ∧ amap_inv st' refs ∧ partial st' ≠ Unestablished ∧
     (partial st ≠ Unestablished → st' = st) ∧ same_frame st st' ∧ slots st' = slots st) st o.
Proof.
  intros Hinv [l Hl]. unfold establish. do 2 wp_step.
  assert (refs ≠ []) as Hne by (intros ->; by apply not_elem_of_nil in Hl).
  pose proof (ai_partial _ _ Hinv Hne) as Hp. unfold partial_ok in Hp.
  destruct (partial st) as [| |c] eqn:E; [|wp_step; by rewrite E|wp_step; by rewrite E].
  destruct Hp as (off' & l' & Hall & Hns & Hocc).
  assert (off' = off ∧ l' = l) as [-> ->] by (specialize (Hall _ Hl); by simplify_eq).
  pose proof (ai_nslot _ _ Hinv). pose proof (ao_cap _ (ai_arrays _ _ Hinv)). pose proof (ai_bound _ _ Hinv).
  pose proof (ai_refs _ _ Hinv) as Hrefs.
  wp_step. apply wp_array; intros o1 Ho1; cbv iota beta.
  - wp_step. apply (wp_lay_run' _ []); [done|done|lia|rewrite length_replicate; lia| |].
    { rewrite length_replicate. unfold width. simpl. lia. }
    intros c1 Hlen1 Hlay1. rewrite length_replicate in Hlen1. wp_step. apply wp_usub; [lia|]. wp_step.
    rewrite as_i32_small by lia.
    apply (wp_lay_run' _ (run 0 off)); [done|by rewrite width_run|lia|lia|rewrite width_run; lia|].
    intros c2 Hlen2 Hlay2. wp_step. split; [done|]. split_and!; try done.
    destruct Hinv. split; try done; [by eapply arrays_ok_ext|]. intros _. unfold partial_ok. simpl.
    split; [lia|]. split.
    + exists (run 0 off ++ run (Z.of_nat (references st)) (nslot st - off)). split; [done|].
      split; [rewrite width_app, !width_run; lia|]. intros i Hi.
      rewrite expand_app, !expand_run, (count_same refs (off, l)), Hrefs by done. unfold covers. simpl.
      destruct (decide (off ≤ i < off + l)%nat).
      * rewrite lookup_app_r by (rewrite length_replicate; lia). apply lookup_replicate_2.
        rewrite length_replicate. lia.
      * rewrite lookup_app_l by (rewrite length_replicate; lia). apply lookup_replicate_2. lia.
    + intros i Hi. rewrite (count_same refs (off, l)) by done. rewrite decide_True.
      * destruct refs; [by apply not_elem_of_nil in Hl|]. simpl. lia.
      * specialize (Hocc i Hi). specialize (ai_high0 i Hi). unfold covers. simpl. lia.
  - intros _. wp_step. split; [done|]. split_and!; try done.
    destruct Hinv. split; try done. by eapply arrays_ok_ext.
Qed.

(** [adjust] moves the counts from those of [refs] to those of [refs']. *)
Lemma adjust_counts st refs refs' start len delta o :
  arrays_ok st → (nslot st ≤ length (slots st))%nat → (∀ i, occupied (slots st) i → (i < nslot st)%nat) →
  partial st ≠ Unestablished → partial_ok st refs → (start + len ≤ nslot st)%nat →
  (∀ i, count refs' i = count refs i + if decide (start ≤ i < start + len)%nat then delta else 0) →
  (∀ i, count refs' i ≤ Z.of_nat (references st)) →
  wp (adjust start len delta) (λ _ st' o', o' = o ∧ arrays_ok st' ∧ same_frame st st' ∧
     partial st' ≠ Unestablished ∧ partial_ok st' refs' ∧
     (∀ i, occupied (slots st') i → occupied (slots st) i) ∧
     (∀ i, 0 < count refs' i → slots st' !! i = slots st !! i) ∧
     (0 < delta → slots st' = slots st)) st o.
Proof.
  intros Hok Hns Hhigh Hest Hp Hle Hcnt Hbound. unfold partial_ok in Hp.
  destruct (partial st) as [| |c] eqn:Ep; [done| |].
  { unfold adjust. do 2 wp_step. rewrite Ep. wp_step. unfold partial_ok. by rewrite Ep. }
  destruct Hp as (Hlc & (segs & Hlay & Hw & Hexp) & Hocc). eapply wp_mono.
  { eapply (adjust_spec st c segs); try done; [lia|lia|]. intros i r Hi Hr.
    rewrite Hexp in Hr by lia. simplify_eq. specialize (Hcnt i). rewrite decide_True in Hcnt by lia.
    pose proof (count_nonneg refs' i). specialize (Hbound i). lia. }
  intros _ st' o' (-> & Hok' & Hsf & c' & segs' & Hp' & Hlc' & Hlay' & Hexp' & Hs').
  assert (∀ i, (i < nslot st)%nat → expand segs' !! i = Some (count refs' i)) as Hexp2.
  { intros i Hi. rewrite Hexp', lookup_adjusted by (rewrite length_expand; lia).
    rewrite Hexp by done. rewrite Hcnt. case_decide; simpl; f_equal; lia. }
  pose proof Hsf as (Hn' & _ & _ & Hls').
  assert (∀ i, 0 < count refs' i → slots st' !! i = slots st !! i) as Hkeep.
  { intros i Hi. rewrite Hs', lookup_slots_after. case_decide as E; [|done].
    destruct E as [Hr Hz]. rewrite Hexp2 in Hz by lia. simplify_eq. lia. }
  assert (∀ i, occupied (slots st') i → occupied (slots st) i) as Hsub.
  { intros i [s Hs]. rewrite Hs', lookup_slots_after in Hs. case_decide; [|by exists s].
    by destruct (slots st !! i). }
  do 3 (split; [done|]). split; [by rewrite Hp'|]. split; cycle 1.
  { split; [done|]. split; [done|]. intros Hd. rewrite Hs'. apply slots_after_id. intros i Hi Hz.
    rewrite Hexp2, Hcnt, decide_True in Hz by (done || lia). pose proof (count_nonneg refs i).
    simplify_eq. lia. }
  unfold partial_ok. rewrite Hp', Hls', Hn'. split; [congruence|]. split.
  - exists segs'. split; [done|]. split; [|done].
    rewrite <- length_expand, Hexp', length_adjusted, length_expand by (rewrite length_expand; lia). done.
  - intros i Hi. pose proof (Hsub i Hi) as Ho. pose proof (Hocc i Ho). specialize (Hhigh i Ho).
    pose proof (count_nonneg refs' i). destruct (decide (count refs' i = 0)) as [Hz|]; [exfalso|lia].
    specialize (Hcnt i). case_decide as E; [|lia]. destruct Hi as [s Hs].
    rewrite Hs', lookup_slots_after, decide_True in Hs; [by destruct (slots st !! i)|].
    split; [done|]. rewrite Hexp2, Hz by lia. done.
Qed.

(** A new reference inside a live one: [clone] and [clipped]. *)
Lemma add_reference_spec st refs orig_off orig_len off len o :
  amap_inv st refs → (orig_off, orig_len) ∈ refs →
  (orig_off ≤ off)%nat → (off + len ≤ orig_off + orig_len)%nat →
  Z.of_nat (length refs) + 1 < 2147483647 →
  wp (add_reference orig_off off len) (λ _ st' o', o' ⊆ o ∧ amap_inv st' ((off, len) :: refs) ∧
     slots st' = slots st ∧ shared st' = shared st ∧ nslot st' = nslot st) st o.
Proof.
  intros Hinv Hin Hlo Hhi Hb. pose proof (ai_in _ _ Hinv _ Hin) as Hns. simpl in Hns.
  pose proof (ai_nslot _ _ Hinv). pose proof (ai_refs _ _ Hinv) as Hrefs.
  assert (0 < length refs)%nat by (destruct refs; [by apply not_elem_of_nil in Hin|simpl; lia]).
  unfold add_reference. do 2 wp_step. wp_step.
  apply wp_massert; [apply bool_decide_eq_true; lia|]. wp_step.
  eapply wp_mono; [eapply establish_spec; [done|by exists orig_len]|].
  intros _ st1 o1 (Ho1 & Hinv1 & Hest1 & _ & (Hn1 & Hr1 & Hsh1 & Hl1) & Hs1). cbv beta. wp_step.
  rewrite (proj2 (Z.ltb_lt _ _)) by lia. do 3 wp_step.
  set (st2 := with_references (S (references st)) st1).
  destruct Hinv1 as [Hok1 Hns1 Hhigh1 _ _ Hin1 Hp1].
  specialize (Hp1 ltac:(intros ->; simpl in *; lia)). eapply wp_mono.
  { eapply (adjust_counts st2 refs ((off, len) :: refs)); try done; [by eapply arrays_ok_ext|simpl; lia| |].
    - intros i. rewrite count_cons. unfold covers. simpl. repeat case_decide; lia.
    - intros i. pose proof (count_le ((off, len) :: refs) i). simpl in *. lia. }
  intros _ st3 o3 (-> & Hok3 & (Hn3 & Hr3 & Hsh3 & Hl3) & _ & Hp3 & Hsub & _ & Hs3). split; [done|].
  specialize (Hs3 ltac:(lia)). simpl in *. split; [|split_and!; congruence].
  split; cbn [length]; try done; try lia.
  - intros i Hi. rewrite Hn3. by apply Hhigh1, Hsub.
  - intros p [->|Hp]%elem_of_cons; simpl; [lia|]. rewrite Hn3. by apply Hin1.
Qed.

(** An empty amap. *)
Lemma wiped_all_empty st st' :
  arrays_ok st → slots st' = wiped 0 (length (slots st)) (slots st) → ∀ i, ¬ occupied (slots st') i.
Proof.
  intros Hok Hs i [s Hi]. rewrite Hs, lookup_wiped in Hi. case_decide as E.
  - by destruct (slots st !! i).
  - apply lookup_lt_Some in Hi. lia.
Qed.

(** Dropping one reference: the slots of the others survive, and the slots
    that no reference covers any more are released. *)
Lemma drop_reference_spec st off len refs o :
  amap_inv st ((off, len) :: refs) →
  wp (drop_reference off len) (λ _ st' o', o' ⊆ o ∧ amap_inv st' refs ∧
     (∀ i, 0 < count refs i → slots st' !! i = slots st !! i) ∧
     (∀ i, occupied (slots st') i → occupied (slots st) i) ∧
     (refs = [] → ∀ i, ¬ occupied (slots st') i) ∧ nslot st' = nslot st) st o.
Proof.
  intros Hinv. pose proof (ai_refs _ _ Hinv) as Hrefs. simpl in Hrefs.
  pose proof (ai_nslot _ _ Hinv). pose proof (ai_arrays _ _ Hinv) as Hok.
  pose proof (ai_bound _ _ Hinv) as Hb. simpl in Hb.
  pose proof (ai_in _ _ Hinv (off, len) ltac:(left)) as Hin0. simpl in Hin0.
  unfold drop_reference. do 3 wp_step. apply wp_massert; [by rewrite Hrefs|].
  destruct (Nat.eqb_spec (references st) 1) as [E1|E1].
  - assert (refs = []) as -> by (destruct refs; [done|simpl in *; lia]). do 2 wp_step.
    set (st1 := with_references 0 st). eapply wp_mono.
    { apply (wipe_spec st1); [by eapply arrays_ok_ext|done]. }
    intros _ st2 o2 (-> & Hok2 & (Hn2 & Hr2 & Hsh2 & Hp2 & Hl2) & Hs2). split; [done|].
    pose proof (wiped_all_empty st st2 Hok Hs2) as Hempty. simpl in *.
    split; [|split_and!; try done; by intros i ?%Hempty].
    split; simpl; try done; try lia.
    + by intros i ?%Hempty.
    + by intros p ?%not_elem_of_nil.
  - assert (refs ≠ []) as Hne by (intros ->; simpl in *; lia). wp_step.
    eapply wp_mono; [eapply establish_spec; [done|by exists len; left]|].
    intros _ st1 o1 (Ho1 & Hinv1 & Hest1 & _ & (Hn1 & Hr1 & Hsh1 & Hl1) & Hs1). cbv beta.
    destruct Hinv1 as [Hok1 Hns1 Hhigh1 _ _ Hin1 Hp1]. specialize (Hp1 ltac:(done)). wp_step.
    apply wp_mono with (P := λ _ st2 o2, o2 = o1 ∧ ∃ b, st2 = with_shared b st1).
    { destruct (references st =? 2)%nat; wp_step; split; try done; [by exists false|].
      exists (shared st1). by destruct st1. }
    intros _ st2 o2 (-> & b & ->). cbv beta. do 2 wp_step.
    set (st3 := with_references (references st - 1) (with_shared b st1)). eapply wp_mono.
    { eapply (adjust_counts st3 ((off, len) :: refs) refs); try done; [by eapply arrays_ok_ext|simpl; lia| |].
      - intros i. rewrite count_cons. unfold covers. simpl. repeat case_decide; lia.
      - intros i. pose proof (count_le refs i). simpl in *. lia. }
    intros _ st4 o4 (-> & Hok4 & (Hn4 & Hr4 & Hsh4 & Hl4) & _ & Hp4 & Hsub & Hkeep & _). simpl in *.
    split; [done|]. rewrite <- Hs1. split; [|split_and!; try done; lia].
    split; simpl; try done; try lia.
    + intros i Hi. rewrite Hn4. by apply Hhigh1, Hsub.
    + intros p Hp. rewrite Hn4. apply Hin1. by right.
Qed.

(** ** Extending an exclusive reference of an amap ([MapRef::extend]): the slots
    of the reference keep their contents, and the added slots are empty. *)

(** Only slots of the reference are occupied. *)
Definition tight (st : AmapState) (off len : nat) : Prop :=
  ∀ i, occupied (slots st) i → (off ≤ i < off + len)%nat.

(** The outcome of an extension by [added] slots. *)
Record extended (st st' : AmapState) (off len added : nat) (backwards : bool) (off' : nat) : Prop := {
  ex_inv : amap_inv st' [(off', len + added)%nat];
  ex_kept i : (i < len)%nat →
    slots st' !! (off' + (if backwards then added else 0) + i)%nat = slots st !! (off + i)%nat;
  ex_new i : (i < added)%nat → slots st' !! (off' + (if backwards then 0 else len) + i)%nat = Some None;
  ex_shared : shared st' = shared st;
}.

Lemma count_one off len i : count [(off, len)] i = if decide (off ≤ i < off + len)%nat then 1 else 0.
Proof. rewrite count_cons. unfold count, covers. simpl. repeat case_decide; lia. Qed.

Lemma unoccupied_None l i : (i < length l)%nat → ¬ occupied l i → l !! i = Some None.
Proof.
  intros Hi Hn. destruct (lookup_lt_is_Some_2 l i Hi) as [[s|] Hs]; [|done]. destruct Hn. by exists s.
Qed.

Lemma inv_tight st off len :
  amap_inv st [(off, len)] → partial st ≠ Disabled → tight st off len.
Proof.
  intros Hinv Hd i Hi. pose proof (ai_partial _ _ Hinv ltac:(done)) as Hp. unfold partial_ok in Hp.
  destruct (partial st); [|done|].
  - destruct Hp as (o & l & Hall & Hns & Hocc). specialize (Hall (off, len) ltac:(left)). simplify_eq.
    pose proof (Hocc i Hi). pose proof (ai_high _ _ Hinv i Hi). lia.
  - destruct Hp as (_ & _ & Hocc). specialize (Hocc i Hi). rewrite count_one in Hocc.
    case_decide; lia.
Qed.

(** The three runs of a single reference. *)
Lemma reset_single_coverage_spec st off len o (Q : () → AmapState → oracle → Prop) :
  arrays_ok st → (nslot st ≤ length (slots st))%nat → (off + len ≤ nslot st)%nat →
  match partial st with
  | Unestablished => (off + len)%nat = nslot st
  | Disabled => True
  | Counts c => length c = length (slots st)
  end →
  tight st off len →
  (∀ p, partial_ok (with_partial p st) [(off, len)] → Q () (with_partial p st) o) →
  wp (reset_single_coverage off len) Q st o.
Proof.
  intros Hok Hns Hle Hp Ht HQ. unfold reset_single_coverage. do 2 wp_step.
  pose proof (ao_cap _ Hok) as Hcap.
  assert (with_partial (partial st) st = st) as Hid by (by destruct st).
  destruct (partial st) as [| |c] eqn:Ep.
  - wp_step. rewrite <- Hid. apply HQ. unfold partial_ok. simpl. exists off, len.
    split; [intros p Hin; by apply list_elem_of_singleton in Hin|]. split; [done|].
    intros i Hi. by apply Ht.
  - wp_step. rewrite <- Hid. by apply HQ.
  - wp_step. apply (wp_lay_run' _ []); [done|done|lia|lia|unfold width; simpl; lia|].
    intros c1 Hl1 Hlay1. wp_step.
    apply (wp_lay_run' _ (run 0 off)); [done|by rewrite width_run|lia|lia|rewrite width_run; lia|].
    intros c2 Hl2 Hlay2. wp_step. apply wp_usub; [lia|]. wp_step. apply wp_usub; [lia|]. wp_step.
    apply (wp_lay_run' _ (run 0 off ++ run 1 len));
      [done|by rewrite width_app, !width_run|lia|lia|rewrite width_app, !width_run; lia|].
    intros c3 Hl3 Hlay3. wp_step. apply HQ. unfold partial_ok. simpl. split; [lia|]. split.
    + eexists. split; [exact Hlay3|]. split; [rewrite !width_app, !width_run; lia|]. intros i Hi.
      rewrite !expand_app, !expand_run, count_one.
      destruct (decide (i < off)%nat); [rewrite decide_False by lia|].
      { rewrite lookup_app_l, lookup_app_l by (rewrite ?length_app, ?length_replicate; lia).
        apply lookup_replicate_2. lia. }
      destruct (decide (i < off + len)%nat); [rewrite decide_True by lia|rewrite decide_False by lia].
      * rewrite lookup_app_l, lookup_app_r by (rewrite ?length_app, ?length_replicate; lia).
        apply lookup_replicate_2. rewrite length_replicate. lia.
      * rewrite lookup_app_r by (rewrite ?length_app, ?length_replicate; lia).
        apply lookup_replicate_2. rewrite length_app, !length_replicate. lia.
    + intros i Hi. specialize (Ht i Hi). rewrite count_one, decide_True by lia. lia.
Qed.

Lemma size_class_spec bytes c :
  size_class bytes = Some c → bytes ≤ c ∧ c ∈ size_classes.
Proof.
  unfold size_class. intros ([i x] & Hf & ->)%fmap_Some. apply list_find_Some in Hf as (Hl & Hle & _).
  split; [done|]. by eapply list_elem_of_lookup_2.
Qed.

(** A new amap has at least the slots it was asked for, all empty. *)
Definition fresh_amap (len : Z) (st : AmapState) : Prop :=
  ∃ cap, st = mkAmap (Z.to_nat len) 1 false (replicate cap None) [] (replicate cap 0%nat) Unestablished ∧
         (Z.to_nat len ≤ cap)%nat ∧ (cap ≤ 768)%nat.

Lemma amap_allocate_spec {St} len (s : St) o :
  0 ≤ len →
  wp (amap_allocate len) (λ r s' o', s' = s ∧ o' ⊆ o ∧
     match r with Ok st => fresh_amap len st | Err e => e = OutOfMemory end) s o.
Proof.
  intros Hlen. unfold amap_allocate. do 2 wp_step.
  destruct (checked_mul len 4) as [bytes|] eqn:Eb; [|done]. simpl.
  unfold checked_mul in Eb. case_decide; simplify_eq. do 2 wp_step.
  destruct (size_class (len * 4)) as [c|] eqn:Ec; [|done]. simpl.
  apply size_class_spec in Ec as [Hle Hin].
  assert (len ≤ c / 4 ≤ 768) as Hcap.
  { split; [apply Z.div_le_lower_bound; lia|]. apply Z.div_le_upper_bound; [lia|].
    unfold size_classes in Hin. repeat (apply elem_of_cons in Hin as [->|Hin]; [lia|]).
    by apply not_elem_of_nil in Hin. }
  wp_step. apply wp_reserve_bytes. intros [] o1 Ho1 _; simpl; [|wp_step; done].
  wp_step. apply wp_array; intros o2 Ho2; cbv beta iota; [|intros _; split_and!; try done; by etrans].
  wp_step. apply wp_array; intros o3 Ho3; cbv beta iota;
    [|intros _; split_and!; try done; etrans; [done|by etrans]].
  wp_step. split; [done|]. split; [etrans; [done|by etrans]|]. exists (Z.to_nat (c / 4)).
  split; [done|]. lia.
Qed.

Lemma fresh_arrays len st : fresh_amap len st → arrays_ok st.
Proof.
  intros (cap & -> & ? & ?). split; simpl; rewrite ?length_replicate; try done; try lia.
  - constructor.
  - intros i. split; [by intros ?%not_elem_of_nil|]. intros [s Hs]. by apply lookup_replicate in Hs as [? _].
Qed.

(** A new amap satisfies the invariant with one reference to all of it. *)
Lemma fresh_inv len st : fresh_amap len st → amap_inv st [(0, Z.to_nat len)%nat].
Proof.
  intros Hf. pose proof (fresh_arrays _ _ Hf) as Hok. destruct Hf as (cap & -> & ? & ?).
  assert (∀ i, ¬ occupied (replicate cap None) i) as Hno.
  { intros i [s Hs]. by apply lookup_replicate in Hs as [? _]. }
  split; simpl; rewrite ?length_replicate; try done.
  - by intros i ?%Hno.
  - intros p ->%list_elem_of_singleton. simpl. lia.
  - intros _. exists 0%nat, (Z.to_nat len). simpl. split; [by intros p ?%list_elem_of_singleton|].
    split; [done|]. by intros i ?%Hno.
Qed.

(** Slots move to the larger arrays, each at its place. *)
Lemma refill_spec src shift indices : ∀ st o,
  arrays_ok st → NoDup indices →
  (∀ i, i ∈ indices → occupied src i ∧ (i + shift < length (slots st))%nat) →
  wp (refill indices src shift) (λ _ st' o', o' = o ∧ arrays_ok st' ∧ same_rest st st' ∧
     ∀ j, slots st' !! j = if decide (shift ≤ j ∧ (j - shift) ∈ indices)%nat
                           then src !! (j - shift)%nat else slots st !! j) st o.
Proof.
  induction indices as [|i indices IH]; intros st o Hok Hnd Hin; simpl.
  - wp_step. do 3 (split; [done|]). intros j. rewrite decide_False; [done|].
    by intros [_ ?%not_elem_of_nil].
  - apply NoDup_cons in Hnd as [Hni Hnd]. destruct (Hin i ltac:(left)) as [[s Hs] Hlt].
    wp_step. eapply wp_expect; [exact Hs|]. cbv beta. do 2 wp_step. wp_step.
    eapply wp_mono; [by apply insert_slot_spec|].
    intros _ st1 o1 (-> & Hok1 & Hsr1 & Hs1). cbv beta. eapply wp_mono.
    { apply IH; [done|done|]. intros k Hk. rewrite Hs1, length_insert. apply Hin. by right. }
    intros _ st2 o2 (-> & Hok2 & Hsr2 & Hs2). do 2 (split; [done|]). split; [by etrans|].
    intros j. rewrite Hs2, Hs1. destruct (decide (j = i + shift)%nat) as [->|Hne].
    + rewrite Nat.add_sub. rewrite decide_False by (by intros [_ ?]).
      rewrite decide_True by (split; [lia|left]). by rewrite list_lookup_insert_eq.
    + rewrite list_lookup_insert_ne by lia. destruct (decide (shift ≤ j)%nat) as [Hle|Hle].
      * destruct (decide ((j - shift)%nat ∈ indices)) as [Hj|Hj].
        -- rewrite !decide_True; [done| |done]. split; [done|by right].
        -- rewrite !decide_False; [done| |by intros [_ ?]].
           intros [_ [?|?]%elem_of_cons]; [lia|done].
      * by rewrite !decide_False by lia.
Qed.

Lemma move_slots_spec n : ∀ st off area o,
  (off ≤ area)%nat → (area + n ≤ length (slots st))%nat →
  wp (move_slots n off area) (λ _ st' o', o' = o ∧ ∃ l, st' = with_slots l st ∧
     length l = length (slots st) ∧
     ∀ j, l !! j = if decide (area ≤ j < area + n)%nat then slots st !! (off + (j - area))%nat
                   else if decide (off ≤ j < off + n)%nat then Some None else slots st !! j) st o.
Proof.
  induction n as [|n IH]; intros st off area o Hle Hlen; simpl.
  - wp_step. split; [done|]. exists (slots st). split; [by destruct st|]. split; [done|].
    intros j. by rewrite !decide_False by lia.
  - do 2 wp_step. wp_step. destruct (lookup_lt_is_Some_2 (slots st) (off + n)) as [x Hx]; [lia|].
    eapply wp_expect; [exact Hx|]. cbv beta. wp_step. apply wp_vec_set; [lia|]. wp_step.
    apply wp_vec_set; [rewrite length_insert; lia|]. do 2 wp_step. eapply wp_mono.
    { apply IH; [done|]. simpl. rewrite !length_insert. lia. }
    intros _ st' o' (-> & l & -> & Hl & Hlk). split; [done|]. exists l. split; [by destruct st|].
    simpl in *. rewrite !length_insert in Hl. split; [done|]. intros j. rewrite Hlk.
    destruct (decide (j = area + n)%nat) as [->|Hne].
    + rewrite (decide_False (P := (area ≤ area + n < area + n)%nat)) by lia.
      rewrite (decide_False (P := (off ≤ area + n < off + n)%nat)) by lia.
      rewrite list_lookup_insert_eq by (rewrite length_insert; lia).
      rewrite decide_True by lia. replace (off + (area + n - area))%nat with (off + n)%nat by lia. done.
    + rewrite (list_lookup_insert_ne _ (area + n) j) by lia.
      destruct (decide (area ≤ j < area + n)%nat) as [Hin|Hout].
      * rewrite (decide_True (P := (area ≤ j < area + S n)%nat)) by lia.
        by rewrite !list_lookup_insert_ne by lia.
      * rewrite (decide_False (P := (area ≤ j < area + S n)%nat)) by lia.
        destruct (decide (j = off + n)%nat) as [->|Hne2].
        -- rewrite (decide_False (P := (off ≤ off + n < off + n)%nat)) by lia.
           rewrite (decide_True (P := (off ≤ off + n < off + S n)%nat)) by lia.
           apply list_lookup_insert_eq. lia.
        -- destruct (decide (off ≤ j < off + n)%nat).
           ++ by rewrite decide_True by lia.
           ++ rewrite decide_False by lia. by rewrite list_lookup_insert_ne by lia.
Qed.

Lemma lookup_copy_within {A} (l : list A) off len area j :
  (off + len ≤ length l)%nat → (area + len ≤ length l)%nat →
  (take area l ++ take len (drop off l) ++ drop (area + len) l) !! j =
    if decide (area ≤ j < area + len)%nat then l !! (off + (j - area))%nat else l !! j.
Proof.
  intros H1 H2. destruct (decide (j < area)%nat).
  - rewrite lookup_app_l by (rewrite length_take; lia). rewrite lookup_take_lt by lia.
    by rewrite decide_False by lia.
  - rewrite lookup_app_r by (rewrite length_take; lia). rewrite length_take_le by lia.
    destruct (decide (j < area + len)%nat).
    + rewrite decide_True by lia. rewrite lookup_app_l by (rewrite length_take, length_drop; lia).
      rewrite lookup_take_lt by lia. by rewrite lookup_drop.
    + rewrite decide_False by lia. rewrite lookup_app_r by (rewrite length_take, length_drop; lia).
      rewrite length_take, length_drop, lookup_drop. f_equal. lia.
Qed.

(** Growing the reference over slots the amap already has. *)
Lemma adjust_grow st off len a n off' o :
  amap_inv st [(off, len)] → (a + n ≤ nslot st)%nat →
  (a = (off + len)%nat ∧ off' = off) ∨ ((a + n)%nat = off ∧ off' = a) →
  wp (adjust a n 1) (λ _ st' o', o' = o ∧ slots st' = slots st ∧ shared st' = shared st ∧
     nslot st' = nslot st ∧ amap_inv st' [(off', len + n)%nat]) st o.
Proof.
  intros Hinv Hle Hoff. pose proof Hinv as [Hok Hns Hhigh Hrefs _ Hin Hp].
  specialize (Hp ltac:(done)). specialize (Hin (off, len) ltac:(left)). simpl in *.
  assert (∀ p, p ∈ [(off', len + n)%nat] → (p.1 + p.2 ≤ nslot st)%nat) as Hin'.
  { intros p ->%list_elem_of_singleton. simpl. lia. }
  destruct (decide (partial st = Unestablished)) as [Ep|Ep].
  - unfold adjust. do 2 wp_step. rewrite Ep. wp_step. do 4 (split; [done|]). split; try done. intros _.
    unfold partial_ok in *. rewrite Ep in *. destruct Hp as (o' & l' & Hall & Hnl & Hocc).
    specialize (Hall (off, len) ltac:(left)). injection Hall as <- <-. exists off', (len + n)%nat.
    split; [by intros p ?%list_elem_of_singleton|]. split; [lia|]. intros i Hi. specialize (Hocc i Hi). lia.
  - eapply wp_mono.
    { eapply (adjust_counts st [(off, len)] [(off', len + n)%nat]); try done.
      - intros i. rewrite !count_one. repeat case_decide; lia.
      - intros i. rewrite count_one, Hrefs. simpl. case_decide; lia. }
    intros _ st' o' (-> & Hok' & (Hn & Hr & Hsh & Hl) & _ & Hp' & Hsub & _ & Hs). specialize (Hs ltac:(lia)).
    do 4 (split; [done|]). split; rewrite ?Hn, ?Hr, ?Hl, ?Hs; done.
Qed.

Lemma grow_extended st st' (off len a n off' : nat) (backwards : bool) :
  amap_inv st [(off, len)] → tight st off len → (a + n ≤ nslot st)%nat →
  (a = if backwards then off' else off + len)%nat → (off = if backwards then off' + n else off')%nat →
  slots st' = slots st → shared st' = shared st → amap_inv st' [(off', len + n)%nat] →
  extended st st' off len n backwards off'.
Proof.
  intros Hinv Ht Hle Ha Ho Hs Hsh Hinv'. pose proof (ai_nslot _ _ Hinv). split; try done; rewrite Hs.
  - intros i Hi. destruct backwards; subst; f_equal; lia.
  - intros i Hi. destruct backwards; subst; (apply unoccupied_None; [lia|intros Hocc%Ht; lia]).
Qed.

(** Growing forwards into the arrays beyond [nslot]. *)
Lemma extend_forward_spec st off len added need o :
  amap_inv st [(off, len)] → tight st off len → need = (off + len + added)%nat →
  (nslot st < need ≤ length (slots st))%nat →
  wp (do (if decide (off + len < nslot st)%nat
          then adjust (off + len) (nslot st - (off + len)) 1 else ret ()) then
      let* st' := get in
      do (match partial st' with
          | Counts counts =>
              let* grown := usub need (nslot st) in
              let* counts := set_run counts (nslot st) 1 grown in
              modify (with_partial (Counts counts))
          | _ => ret ()
          end) then
      do modify (with_nslot need) then
      ret (Ok (E:=Error) (off, len + added)%nat))
     (λ r st' o', o' = o ∧ r = Ok (off, len + added)%nat ∧
        extended st st' off len added false off) st o.
Proof.
  intros Hinv Ht Hadded Hneed. pose proof (ai_in _ _ Hinv (off, len) ltac:(left)) as Hin. simpl in Hin. wp_step.
  apply wp_mono with (P := λ _ st1 o1, o1 = o ∧ slots st1 = slots st ∧ shared st1 = shared st ∧
    nslot st1 = nslot st ∧ amap_inv st1 [(off, nslot st - off)%nat]).
  { case_decide as E.
    - eapply wp_mono; [eapply (adjust_grow st off len (off + len) (nslot st - (off + len)) off); auto; lia|].
      intros [] st1 o1. cbv beta. by replace (len + (nslot st - (off + len)))%nat with (nslot st - off)%nat by lia.
    - wp_step. replace (nslot st - off)%nat with len by lia. done. }
  intros _ st1 o1 (-> & Hs1 & Hsh1 & Hn1 & Hinv1). cbv beta. do 3 wp_step.
  pose proof Hinv1 as [Hok1 Hns1 Hhigh1 Hrefs1 _ _ Hp1]. specialize (Hp1 ltac:(done)).
  pose proof (ao_cap _ Hok1). rewrite Hs1 in *.
  apply wp_mono with (P := λ _ st2 o2, o2 = o ∧ ∃ p, st2 = with_partial p st1 ∧
    partial_ok (with_nslot need st2) [(off, need - off)%nat]).
  { unfold partial_ok in Hp1. destruct (partial st1) as [| |c] eqn:Ep.
    - wp_step. split; [done|]. exists Unestablished. split; [rewrite <- Ep; by destruct st1|].
      unfold partial_ok. simpl. rewrite Ep. exists off, (need - off)%nat.
      split; [by intros p ?%list_elem_of_singleton|]. split; [lia|].
      destruct Hp1 as (o' & l' & Hall & Hnl & Hocc). specialize (Hall (off, nslot st - off)%nat ltac:(left)).
      injection Hall as <- <-. done.
    - wp_step. split; [done|]. exists Disabled. split; [rewrite <- Ep; by destruct st1|].
      unfold partial_ok. simpl. by rewrite Ep.
    - destruct Hp1 as (Hlc & (segs & Hlay & Hw & Hexp) & Hocc). rewrite Hs1 in *. wp_step.
      apply wp_usub; [lia|]. wp_step.
      apply (wp_lay_run' c segs); [done|lia|lia|lia|lia|].
      intros c' Hlc' Hlay'. wp_step. split; [done|]. eexists. split; [done|]. unfold partial_ok. simpl.
      rewrite Hs1. split; [lia|]. split.
      + eexists. split; [exact Hlay'|]. split; [rewrite width_app, width_run; lia|]. intros i Hi.
        rewrite expand_app, expand_run, count_one. destruct (decide (i < nslot st)%nat).
        * rewrite lookup_app_l by (rewrite length_expand; lia). rewrite Hexp by lia. f_equal.
          rewrite count_one. repeat case_decide; lia.
        * rewrite lookup_app_r by (rewrite length_expand; lia). rewrite decide_True by lia.
          apply lookup_replicate_2. rewrite length_expand. lia.
      + intros i Hi. specialize (Hocc i Hi). rewrite count_one in *. repeat case_decide; lia. }
  intros _ st2 o2 (-> & p & -> & Hp2). do 3 wp_step. do 2 (split; [done|]).
  split; simpl; rewrite ?Hs1; try done.
  - replace (len + added)%nat with (need - off)%nat by lia. split; simpl; try done.
    + by eapply arrays_ok_ext.
    + rewrite Hs1. lia.
    + intros i Hi. rewrite Hs1 in Hi. specialize (Ht i Hi). lia.
    + intros q ->%list_elem_of_singleton. simpl. lia.
  - intros i Hi. f_equal. lia.
  - intros i Hi. apply unoccupied_None; [lia|]. intros Hocc%Ht. lia.
Qed.

(** The arrays after moving a tight reference to the end of the arrays. *)
Lemma shifted_arrays st off len area l b st' :
  arrays_ok st → tight st off len → (off ≤ area)%nat → (area + len = length (slots st))%nat →
  length l = length (slots st) →
  (∀ j, l !! j = if decide (area ≤ j < area + len)%nat then slots st !! (off + (j - area))%nat
                 else if decide (off ≤ j < off + len)%nat then Some None else slots st !! j) →
  length b = length (back st) →
  (∀ j, b !! j = if decide (area ≤ j < area + len)%nat then back st !! (off + (j - area))%nat
                 else back st !! j) →
  slots st' = l → back st' = b →
  used_slots st' = (λ i, i + (area - off))%nat <$> used_slots st →
  arrays_ok st' ∧ tight st' area len.
Proof.
  intros Hok Ht Hle Hcap Hl Hlk Hb Hbk Hs Hbs Hu.
  assert (∀ j, occupied l j ↔ ∃ i, occupied (slots st) i ∧ j = (i + (area - off))%nat) as Hocc.
  { intros j. unfold occupied. setoid_rewrite Hlk. split.
    - intros [s Hj]. repeat case_decide; simplify_eq.
      + exists (off + (j - area))%nat. split; [by exists s|lia].
      + exfalso. assert (occupied (slots st) j) as Hj' by (by exists s). apply Ht in Hj'. lia.
    - intros (i & [s Hi] & ->). assert (occupied (slots st) i) as Hi' by (by exists s). apply Ht in Hi'.
      exists s. rewrite decide_True by lia. rewrite <- Hi. f_equal. lia. }
  split; [split; rewrite ?Hs, ?Hbs, ?Hu|].
  - rewrite Hb, Hl. apply Hok.
  - rewrite Hl. apply Hok.
  - apply NoDup_fmap_2; [|apply Hok]. intros x y. lia.
  - intros j. rewrite Hocc, list_elem_of_fmap. split.
    + intros (i & -> & Hi). exists i. split; [by apply Hok|done].
    + intros (i & Hi & ->). exists i. split; [done|by apply Hok].
  - intros p j Hp. rewrite list_lookup_fmap in Hp. destruct (used_slots st !! p) as [i|] eqn:E; [|done].
    simplify_eq/=. assert (occupied (slots st) i) as Hi by (by eapply Hok, list_elem_of_lookup_2).
    apply Ht in Hi. rewrite Hbk, decide_True by lia. rewrite <- (ao_inv _ Hok _ _ E). f_equal. lia.
  - intros j Hj. rewrite Hs in Hj. apply Hocc in Hj as (i & Hi & ->). apply Ht in Hi. lia.
Qed.

Lemma tight_grow st off len off' len' :
  tight st off len → (off' ≤ off)%nat → (off + len ≤ off' + len')%nat → tight st off' len'.
Proof. intros Ht ? ? i Hi. specialize (Ht i Hi). lia. Qed.

(** Growing backwards inside the arrays: the slots move to their end. *)
Lemma extend_backward_spec st off len added o :
  amap_inv st [(off, len)] → tight st off len → (off < added)%nat → (len + added ≤ length (slots st))%nat →
  wp (let* area := usub (length (slots st)) len in
      do move_slots len off area then
      let* b := copy_within (back st) off len area in
      do modify (with_back b) then
      let* shift := usub area off in
      do modify (λ st, with_used_slots ((λ index, index + as_u32 shift)%nat <$> used_slots st) st) then
      let* offset := usub area added in
      do modify (with_nslot (length (slots st))) then
      do reset_single_coverage offset (len + added) then
      ret (Ok (E:=Error) (offset, len + added)%nat))
     (λ r st' o', o' = o ∧ ∃ off', r = Ok (off', len + added)%nat ∧
        extended st st' off len added true off') st o.
Proof.
  intros Hinv Ht Hadd Hlen. pose proof Hinv as [Hok Hns Hhigh Hrefs _ Hin Hp].
  specialize (Hin (off, len) ltac:(left)). specialize (Hp ltac:(done)). simpl in Hin, Hrefs.
  pose proof (ao_cap _ Hok). pose proof (ao_back _ Hok) as Hbl.
  wp_step. apply wp_usub; [lia|]. wp_step. set (area := (length (slots st) - len)%nat) in *.
  eapply wp_mono; [apply move_slots_spec; lia|]. intros _ st1 o1 (-> & l & -> & Hl & Hlk). cbv beta.
  wp_step. unfold copy_within. wp_step. apply wp_massert; [apply bool_decide_eq_true; lia|]. do 3 wp_step.
  wp_step. apply wp_usub; [lia|]. do 2 wp_step. wp_step. apply wp_usub; [lia|]. do 2 wp_step.
  rewrite as_u32_small by lia. set (st2 := with_nslot _ _).
  set (b := take area (back st) ++ take len (drop off (back st)) ++ drop (area + len) (back st)) in *.
  destruct (shifted_arrays st off len area l b st2) as [Hok2 Ht2]; try done; try lia.
  { unfold b. rewrite !length_app, !length_take, !length_drop. lia. }
  { intros j. apply lookup_copy_within; lia. }
  assert (slots st2 = l) as Hs2 by done. wp_step. eapply reset_single_coverage_spec.
  - done.
  - simpl. lia.
  - simpl. lia.
  - simpl. unfold partial_ok in Hp. destruct (partial st); [lia|done|]. rewrite Hl. apply Hp.
  - eapply tight_grow; [exact Ht2|lia|lia].
  - intros p Hp'. wp_step. split; [done|]. exists (area - added)%nat. split; [done|].
    assert (slots (with_partial p st2) = l) as Hs3 by done. split; try done.
    + split; try done.
      * by eapply arrays_ok_ext.
      * simpl. lia.
      * intros i Hi%occupied_lt. rewrite Hs3, Hl in Hi. done.
      * intros q ->%list_elem_of_singleton. simpl. lia.
    + intros i Hi. rewrite Hs3, Hlk, decide_True by lia. f_equal. lia.
    + intros i Hi. apply unoccupied_None; [rewrite Hs3; lia|]. intros Ho%Ht2. lia.
Qed.

(** Moving the slots of a tight reference into fresh arrays. *)
Lemma refilled st off len rep st' shift :
  arrays_ok st → tight st off len →
  arrays_ok st' → same_rest rep st' → (∀ j, ¬ occupied (slots rep) j) →
  (∀ j, slots st' !! j = if decide (shift ≤ j ∧ (j - shift) ∈ reverse (used_slots st))%nat
                         then slots st !! (j - shift)%nat else slots rep !! j) →
  tight st' (off + shift) len ∧
  ∀ i, (i < len)%nat → (off + len ≤ length (slots st))%nat →
       (off + shift + len ≤ length (slots st'))%nat →
       slots st' !! (off + shift + i)%nat = slots st !! (off + i)%nat.
Proof.
  intros Hok Ht Hok' (_ & _ & _ & _ & Hl) Hempty Hlk. split.
  - intros j [s Hj]. rewrite Hlk in Hj. case_decide as E.
    + destruct E as [Hle Hin]. assert (occupied (slots st) (j - shift)) as Ho by (by exists s).
      apply Ht in Ho. lia.
    + destruct (Hempty j). by exists s.
  - intros i Hi Hle Hle'. rewrite Hlk.
    replace (off + shift + i - shift)%nat with (off + i)%nat by lia. case_decide as E; [done|].
    assert (¬ occupied (slots st) (off + i)) as Hno.
    { intros Ho. apply E. split; [lia|]. apply elem_of_reverse. by apply Hok. }
    rewrite !unoccupied_None; [done|lia|done|lia|apply Hempty].
Qed.

Lemma wp_run_on {St T A} (t : T) (m : M T A) (Q : A * T → St → oracle → Prop) s o :
  wp m (λ a t' o', Q (a, t') s o') t o → wp (run_on t m) Q s o.
Proof. unfold wp, run_on. by destruct (m t o) as [[[a t'] o']|]. Qed.

(** The replacement branch of [extend]. *)
Lemma extend_replace_spec st off len added (backwards : bool) o :
  amap_inv st [(off, len)] → tight st off len →
  (if backwards then off < added else True)%nat →
  let need := (if backwards then len + added else off + len + added)%nat in
  wp (let! replacement := amap_allocate (Z.of_nat need) in
      let* partial' :=
        (match partial st with
         | Counts _ =>
             let* counts := array 4 0 (length (slots replacement)) in
             ret (match counts with Ok counts => Counts counts | Err _ => Disabled end)
         | p => ret p
         end) in
      let* st := get in
      do massert (references st =? 1)%nat then
      let replacement := with_shared (shared st) (with_partial partial' replacement) in
      let capacity := length (slots replacement) in
      let* shift :=
        (if backwards then let* n := usub capacity len in usub n off else ret 0%nat) in
      let* '(_, replacement) :=
        run_on replacement (refill (reverse (used_slots st)) (slots st) shift) in
      let* '(offset, replacement) :=
        (if backwards then
           let* n := usub capacity len in
           let* offset := usub n added in
           ret (offset, with_nslot capacity replacement)
         else ret (off, replacement)) in
      let len := (len + added)%nat in
      let* '(_, replacement) := run_on replacement (reset_single_coverage offset len) in
      do modify (λ _, replacement) then
      ret (Ok (offset, len)))
     (λ r st' o', o' ⊆ o ∧ match r with
        | Ok (off', len') => len' = (len + added)%nat ∧ extended st st' off len added backwards off'
        | Err e => e = OutOfMemory ∧ st' = st
        end) st o.
Proof.
  intros Hinv Ht Hadd need. pose proof Hinv as [Hok Hns Hhigh Hrefs _ Hin Hp].
  specialize (Hin (off, len) ltac:(left)). specialize (Hp ltac:(done)). simpl in Hin, Hrefs.
  wp_step. eapply wp_mono; [apply amap_allocate_spec; lia|].
  intros [rep|e] st1 o1 (-> & Ho1 & H'); [|by subst e].
  pose proof (fresh_arrays _ _ H') as Hrok. destruct H' as (cap & -> & Hcap & Hcap2).
  rewrite Nat2Z.id in Hcap. cbv beta iota. wp_step.
  apply wp_mono with (P := λ p st1 o2, st1 = st ∧ o2 ⊆ o1 ∧
    match p with Unestablished => partial st = Unestablished | Disabled => True | Counts c => length c = cap end).
  { simpl. destruct (partial st) as [| |c]; [by wp_step..|]. wp_step. rewrite length_replicate.
    apply wp_array; intros o2 Ho2; [|intros _]; wp_step; rewrite ?length_replicate; done. }
  intros p st1 o2 (-> & Ho2 & Hpp). cbv beta. do 2 wp_step. wp_step. apply wp_massert; [by rewrite Hrefs|].
  cbv zeta. cbn [slots with_shared with_partial]. rewrite length_replicate.
  set (rep := with_shared (shared st) _).
  assert (arrays_ok rep) as Hrok' by (by eapply arrays_ok_ext).
  assert (∀ j, ¬ occupied (slots rep) j) as Hempty.
  { intros j [s Hs]. by apply lookup_replicate in Hs as [? _]. }
  set (off' := if backwards then (cap - len - added)%nat else off).
  set (shift := if backwards then (cap - len - off)%nat else 0%nat).
  assert (off + shift = off' + if backwards then added else 0)%nat as Hsh.
  { unfold off', shift, need in *. destruct backwards; lia. }
  assert (off + len + shift ≤ cap ∧ off' + (len + added) ≤ cap)%nat as [Hc1 Hc2].
  { unfold off', shift, need in *. destruct backwards; lia. }
  wp_step. apply wp_mono with (P := λ n st1 o3, n = shift ∧ st1 = st ∧ o3 = o2).
  { unfold shift, need in *. destruct backwards; [|by wp_step].
    wp_step. apply wp_usub; [lia|]. apply wp_usub; [lia|]. done. }
  intros ? ? ? (-> & -> & ->). cbv beta. wp_step. apply wp_run_on. eapply wp_mono.
  { apply refill_spec; [done|rewrite reverse_Permutation; apply Hok|]. intros i Hi%elem_of_reverse%Hok.
    split; [done|]. apply Ht in Hi. simpl. rewrite length_replicate. lia. }
  intros _ r2 o3 (-> & Hok2 & Hsr2 & Hlk2). cbv beta iota.
  destruct (refilled st off len rep r2 shift) as [Ht2 Hk2]; try done.
  pose proof Hsr2 as (Hn2 & Hr2 & Hs2 & Hp2 & Hl2). simpl in Hl2. rewrite length_replicate in Hl2.
  set (n3 := if backwards then cap else need).
  wp_step. apply wp_mono with (P := λ q st1 o4, q = (off', with_nslot n3 r2) ∧ st1 = st ∧ o4 = o2).
  { unfold off', n3, need in *. destruct backwards.
    - wp_step. apply wp_usub; [lia|]. wp_step. apply wp_usub; [lia|]. by wp_step.
    - wp_step. split; [|done]. f_equal. simpl in Hn2. rewrite Nat2Z.id in Hn2. rewrite <- Hn2. by destruct r2. }
  intros ? ? ? (-> & -> & ->). cbv beta iota. wp_step. apply wp_run_on.
  assert (off' + (len + added) = n3 ∧ n3 ≤ cap)%nat as [Hn3 Hn3'] by (unfold off', n3, need in *; destruct backwards; lia).
  assert (tight r2 off' (len + added)) as Ht3.
  { eapply tight_grow; [exact Ht2|..]; destruct backwards; lia. }
  eapply reset_single_coverage_spec; simpl; try done; try lia.
  - by eapply arrays_ok_ext.
  - rewrite Hp2. simpl. destruct p; try done. lia.
  - intros p3 Hp3. cbv beta iota. do 3 wp_step. split; [by etrans|]. split; [done|]. split; simpl.
    + split; simpl; try done; try lia.
      * by eapply arrays_ok_ext.
      * intros i Hi. apply Ht3 in Hi. lia.
      * intros q ->%list_elem_of_singleton. simpl. lia.
    + intros i Hi. rewrite <- Hsh. apply Hk2; lia.
    + intros i Hi. apply unoccupied_None; [destruct backwards; lia|]. intros Ho%Ht2. destruct backwards; lia.
    + by rewrite Hs2.
Qed.

(** Before it grows, a reference without partial counts drops what it does not
    cover. *)
Lemma tighten_spec st off len o :
  amap_inv st [(off, len)] →
  wp (match partial st with
      | Disabled =>
          do wipe 0 off then
          let* tail := usub (nslot st) (off + len) in
          wipe (off + len) tail
      | _ => ret ()
      end)
     (λ _ st' o', o' = o ∧ amap_inv st' [(off, len)] ∧ tight st' off len ∧ same_rest st st' ∧
        ∀ i, (i < len)%nat → slots st' !! (off + i)%nat = slots st !! (off + i)%nat) st o.
Proof.
  intros Hinv. pose proof Hinv as [Hok Hns Hhigh Hrefs Hb Hin Hp].
  pose proof (Hin (off, len) ltac:(left)) as Hin0. simpl in Hin0.
  destruct (decide (partial st = Disabled)) as [Ep|Ep].
  - rewrite Ep. wp_step. eapply wp_mono; [apply wipe_spec; [done|lia]|].
    intros _ st1 o1 (-> & Hok1 & Hsr1 & Hs1). cbv beta. wp_step. apply wp_usub; [lia|].
    pose proof Hsr1 as (_&_&_&_&Hl1).
    eapply wp_mono; [apply wipe_spec; [done|lia]|].
    intros _ st2 o2 (-> & Hok2 & Hsr2 & Hs2). split; [done|].
    assert (same_rest st st2) as Hsr by (by etrans). pose proof Hsr as (Hn&Hr&Hsh&Hpp&Hl).
    assert (tight st2 off len) as Ht.
    { intros i [s Hi]. rewrite Hs2, Hs1, !lookup_wiped in Hi.
      destruct (slots st !! i) as [[x|]|] eqn:E; repeat case_decide; simplify_eq/=.
      assert (occupied (slots st) i) as ?%Hhigh by (by exists s). lia. }
    split; [|split_and!; try done; intros i Hi].
    + split; rewrite ?Hn, ?Hr, ?Hl; try done; [|intros _; unfold partial_ok; by rewrite Hpp, Ep].
      intros i Hi%Ht. lia.
    + rewrite Hs2, Hs1, !lookup_wiped. repeat case_decide; try done; lia.
  - pose proof (inv_tight _ _ _ Hinv Ep). by destruct (partial st); [wp_step| |wp_step].
Qed.

(** [extended] does not see what was dropped outside the reference. *)
Lemma extended_from st st1 st' off len added backwards off' :
  (∀ i, (i < len)%nat → slots st1 !! (off + i)%nat = slots st !! (off + i)%nat) →
  shared st1 = shared st → extended st1 st' off len added backwards off' →
  extended st st' off len added backwards off'.
Proof.
  intros Hk Hs []. split; try done; [|congruence]. intros i Hi. rewrite ex_kept0 by done. by apply Hk.
Qed.

(** [MapRef::extend]: on success the reference has grown, its slots hold what
    they held, and the new ones are empty; on failure it is as before. *)
Lemma extend_state_spec st off len added (backwards : bool) o :
  amap_inv st [(off, len)] → 0 ≤ added →
  wp (extend_state off len added backwards) (λ r st' o', o' ⊆ o ∧
     match r with
     | Ok (off', len') => len' = (len + Z.to_nat added)%nat ∧
         extended st st' off len (Z.to_nat added) backwards off'
     | Err e => e = OutOfMemory ∧ amap_inv st' [(off, len)] ∧ shared st' = shared st ∧
         ∀ i, (i < len)%nat → slots st' !! (off + i)%nat = slots st !! (off + i)%nat
     end) st o.
Proof.
  intros Hinv0 Hadd. unfold extend_state. do 2 wp_step. rewrite (ai_refs _ _ Hinv0). simpl. wp_step.
  eapply wp_mono; [by apply tighten_spec|]. clear Hinv0.
  intros _ st1 o1 (-> & Hinv & Ht & (_&_&Hsh&_) & Hk). cbv beta. do 2 wp_step.
  pose proof (ai_in _ _ Hinv (off, len) ltac:(left)) as Hin. simpl in Hin.
  do 2 wp_step. destruct (checked_add _ added) as [need|] eqn:En; [|done].
  apply checked_add_Some in En as [-> _]. simpl.
  destruct (negb backwards && _) eqn:E1.
  { apply andb_true_iff in E1 as [?%negb_true_iff E1%Z.leb_le]. subst backwards. wp_step.
    eapply wp_mono; [eapply (adjust_grow st1 off len (off + len) (Z.to_nat added) off); auto; lia|].
    intros _ st2 o2 (-> & Hs2 & Hsh2 & Hn2 & Hinv2). wp_step. do 2 (split; [done|]).
    eapply extended_from; [done..|]. apply (grow_extended _ _ _ _ (off + len)); try done; lia. }
  destruct (backwards && _) eqn:E2.
  { apply andb_true_iff in E2 as [-> E2%Z.leb_le]. wp_step.
    eapply wp_mono; [eapply (adjust_grow st1 off len (off - Z.to_nat added) (Z.to_nat added)); [done|lia|right; split; [lia|done]]|].
    intros _ st2 o2 (-> & Hs2 & Hsh2 & Hn2 & Hinv2). wp_step. do 2 (split; [done|]).
    eapply extended_from; [done..|].
    apply (grow_extended _ _ _ _ (off - Z.to_nat added)); try done; lia. }
  set (n := Z.to_nat added).
  replace (Z.of_nat (if backwards then len else off + len)%nat + added)
    with (Z.of_nat (if backwards then len + n else off + len + n)%nat) by (destruct backwards; lia).
  destruct (Z.leb_spec (Z.of_nat (if backwards then len + n else off + len + n)%nat) (Z.of_nat (length (slots st1)))).
  - rewrite Nat2Z.id. destruct backwards; simpl in *.
    + apply Z.leb_gt in E2. eapply wp_mono; [apply (extend_backward_spec st1 off len n); try done; lia|].
      intros r st2 o2 (-> & off' & -> & Hex). split; [done|]. split; [done|]. by eapply extended_from.
    + apply Z.leb_gt in E1.
      eapply wp_mono; [apply (extend_forward_spec st1 off len n); [done..|lia]|].
      intros r st2 o2 (-> & -> & Hex). split; [done|]. split; [done|]. by eapply extended_from.
  - destruct (LARGE_PAGES <=? _); [by wp_step|].
    eapply wp_mono; [apply (extend_replace_spec st1 off len n backwards); [done..|]|].
    { destruct backwards; [|done]. simpl in E2. apply Z.leb_gt in E2. lia. }
    intros [[off' len']|e] st2 o2 (Ho & Hr); (split; [done|]).
    + destruct Hr as [-> Hex]. split; [done|]. by eapply extended_from.
    + by destruct Hr as [-> ->].
Qed.
