(* ===== verification/AmapHeap.v ===== *)
(** The anonymous maps of the system and the references to them ([mem/anon.rs]).

    [World] is the shared store: the amaps by identity, and the pages that
    have a frame or an open write window.  A [MapRef] names an amap and the
    range of slots it covers; several references may name one amap.  The ghost
    function [R] of [world_inv] lists the live references of every amap. *)
From S2P Require Import Prelude.
From S2P Require Import Index.
From S2P Require Import Amap.
From S2P Require Import AmapInv.
From S2P Require Import AmapSpec.
Open Scope rust_scope.

(** [AnonymousMap]: a state and the owner lock that protects it. *)
Record AnonymousMap : Type := mkAnonymousMap { am_owner : nat; am_state : AmapState }.

Record World : Type := mkWorld {
  amaps : gmap nat AnonymousMap;
  windows : gset nat;    (* pages with an open write window *)
  resident : gset nat;   (* pages with a frame *)
  next_id : nat;         (* the next identity of an [Arc] *)
}.

(** [MapRef] *)
Record MapRef : Type := mkMapRef { mr_map : nat; mr_offset : nat; mr_length : nat }.
#[export] Instance MapRef_eq_dec : EqDecision MapRef.
Proof. solve_decision. Defined.

Definition with_amaps (f : gmap nat AnonymousMap → gmap nat AnonymousMap) (w : World) : World :=
  mkWorld (f (amaps w)) (windows w) (resident w) (next_id w).

(** A method of the amap [id] under its lock. *)
Definition on_amap {A} (id : nat) (m : M AmapState A) : M World A :=
  λ w o, match amaps w !! id with
         | Some am =>
             match m (am_state am) o with
             | Some (a, st, o') =>
                 Some (a, with_amaps (<[id := mkAnonymousMap (am_owner am) st]>) w, o')
             | None => None
             end
         | None => None
         end.

Definition fresh_id : M World nat :=
  λ w o, Some (next_id w, mkWorld (amaps w) (windows w) (resident w) (S (next_id w)), o).

(** [Arc::try_new_in(_, NoSleep)] *)
Definition try_new : M World (result Error nat) :=
  let* ok := ask_pool in
  if (ok : bool) then let* id := fresh_id in ret (Ok id) else ret (Err OutOfMemory).

(** ** The methods of [MapRef] *)

Definition is_exclusive (r : MapRef) : M World bool :=
  on_amap (mr_map r) (gets (λ st, references st =? 1)%nat).

Definition mapref_extend (r : MapRef) (added : Z) (backwards : bool) : M World (result Error MapRef) :=
  let! p := on_amap (mr_map r) (extend_state (mr_offset r) (mr_length r) added backwards) in
  ret (Ok (mkMapRef (mr_map r) p.1 p.2)).

Definition mapref_clipped (r : MapRef) (offset count : nat) : M World MapRef :=
  do massert (bool_decide (mr_offset r ≤ offset ∧
                           offset + count ≤ mr_offset r + mr_length r)%nat) then
  do on_amap (mr_map r) (add_reference (mr_offset r) offset count) then
  ret (mkMapRef (mr_map r) offset count).

Definition mapref_clone (r : MapRef) : M World MapRef :=
  do on_amap (mr_map r) (add_reference (mr_offset r) (mr_offset r) (mr_length r)) then
  ret r.

Definition mapref_drop (r : MapRef) : M World () :=
  on_amap (mr_map r) (drop_reference (mr_offset r) (mr_length r)).

Definition mark_shared (r : MapRef) : M World () :=
  on_amap (mr_map r) (modify (with_shared true)).

(** [AnonymousMap::with_owner]; [u32::MAX] bounds the slots. *)
Definition with_owner (pages : Z) (owner : nat) : M World (result Error MapRef) :=
  if 4294967295 <? pages then ret (Err OutOfMemory)
  else
    let! st := amap_allocate pages in
    let! id := try_new in
    do modify (with_amaps (<[id := mkAnonymousMap owner st]>)) then
    ret (Ok (mkMapRef id 0 (Z.to_nat pages))).

(** [AnonymousMap::allocate] *)
Definition anonymous_allocate (pages : Z) : M World (result Error MapRef) :=
  let! owner := try_new in
  with_owner pages owner.

(** [VmPage::copy_wired_locked]: a resident page gets a copy of its own. *)
Definition copy_wired_locked (page : Page) : M World (result Error (option Page)) :=
  let* w := get in
  if decide (page_id page ∈ resident w) then
    let! id := try_new in
    let* frame := ask_pool in
    if (frame : bool) then
      do modify (λ w, mkWorld (amaps w) (windows w) ({[id]} ∪ resident w) (next_id w)) then
      ret (Ok (Some (mkPage id (page_owner page))))
    else ret (Err OutOfMemory)
  else ret (Ok None).

(** [Slot::new] *)
Definition slot_new (page : Page) : M World (result Error Slot) :=
  let! id := try_new in ret (Ok (mkSlot id page)).

(** The slot that [copy_range] installs for [slot]. *)
Definition copy_slot (slot : Slot) (copy_writers : bool) : M World (result Error Slot) :=
  let* w := get in
  if copy_writers && bool_decide (page_id (slot_page slot) ∈ windows w) then
    let! copied := copy_wired_locked (slot_page slot) in
    match copied with
    | Some page => slot_new page
    | None => ret (Ok slot)
    end
  else ret (Ok slot).

(** One iteration of the loop of [AnonymousMap::copy_range]. *)
Definition copy_one (index source copy start : nat) (copy_writers : bool) : M World (result Error ()) :=
  let* current := on_amap source (let* st := get in expect (slots st !! (start + index)%nat)) in
  match current with
  | Some slot =>
      let! slot := copy_slot slot copy_writers in
      do on_amap copy (insert_slot index slot) then
      ret (Ok ())
  | None => ret (Ok ())
  end.

(** The loop over [index..index + n]. *)
Fixpoint copy_slots (n index source copy start : nat) (copy_writers : bool) :
    M World (result Error ()) :=
  match n with
  | O => ret (Ok ())
  | S n =>
      let! _ := copy_one index source copy start copy_writers in
      copy_slots n (S index) source copy start copy_writers
  end.

(** [AnonymousMap::copy_range]; the half-built copy is dropped on failure. *)
Definition copy_range (r : MapRef) (start count : nat) (copy_writers : bool) :
    M World (result Error MapRef) :=
  let* w := get in
  let* am := expect (amaps w !! mr_map r) in
  let! copy := with_owner (Z.of_nat count) (am_owner am) in
  do massert (bool_decide (start + count ≤ nslot (am_state am))%nat) then
  let* copied := copy_slots count 0 (mr_map r) (mr_map copy) start copy_writers in
  match copied with
  | Ok _ => ret (Ok copy)
  | Err e => do mapref_drop copy then ret (Err e)
  end.

(** [MapRef::slice] *)
Definition mapref_slice (r : MapRef) (start count : nat) : M World (result Error MapRef) :=
  copy_range r start count false.

(** [MapRef::copy_for_fork] *)
Definition copy_for_fork (r : MapRef) (start count : nat) : M World (result Error (option MapRef)) :=
  let* w := get in
  let* am := expect (amaps w !! mr_map r) in
  let st := am_state am in
  do massert (bool_decide (start + count ≤ nslot st)%nat) then
  let writers := existsb (λ s, match s with
                               | Some slot => bool_decide (page_id (slot_page slot) ∈ windows w)
                               | None => false
                               end) (take count (drop start (slots st))) in
  if writers then let! copy := copy_range r start count true in ret (Ok (Some copy))
  else ret (Ok None).

(** [AnonymousMap::lookup]: the page of a slot and its identity. *)
Definition amap_lookup (index : nat) (st : AmapState) : option Slot := mjoin (slots st !! index).

(** [AnonymousMap::prepare] *)
Definition amap_prepare (index : Z) (st : AmapState) : result Error () :=
  if (references st =? 0)%nat then Err NotMapped
  else if Z.of_nat (nslot st) <=? index then Err InvalidAddress
  else Ok ().

(** [AnonymousMap::commit] by a fault that saw [expected]; [install] is the
    outcome of the closure that enters the translation. The first component of
    the result is the page whose other translations are removed beforehand
    ([pmap::remove_mappings_for_pages]). *)
Definition amap_commit (owner : nat) (index : Z) (expected : option Slot) (replacement : option Slot)
    (install : result Error ()) : M AmapState (option Page * result Error bool) :=
  let* st := get in
  if (references st =? 0)%nat then ret (None, Ok false)
  else if Z.of_nat (nslot st) <=? index then ret (None, Ok false)
  else
    match slots st !! Z.to_nat index with
    | None => ret (None, Ok false)
    | Some slot =>
        if negb (bool_decide (slot_identity <$> slot = slot_identity <$> expected))
        then ret (None, Ok false)
        else
          let* removed :=
            (match replacement with
             | Some r =>
                 do massert (page_owner (slot_page r) =? owner)%nat then
                 ret (match shared st, slot with
                      | true, Some old => Some (slot_page old)
                      | _, _ => None
                      end)
             | None => ret None
             end) in
          match install with
          | Err e => ret (removed, Err e)
          | Ok _ =>
              do (match replacement with
                  | Some r => insert_slot (Z.to_nat index) r
                  | None => ret ()
                  end) then
              ret (removed, Ok true)
          end
    end.
