(* ===== verification/AmapHeapSpec.v ===== *)
(** The operations on references to anonymous maps keep [world_inv], and move
    no slot of a reference that stays alive. *)
From S2P Require Import Prelude.
From S2P Require Import Index.
From S2P Require Import Amap.
From S2P Require Import AmapInv.
From S2P Require Import AmapSpec.
From S2P Require Import AmapHeap.
Open Scope rust_scope.

(** The live references of every amap. *)
Definition refmap : Type := nat → list (nat * nat).
Definition rset (id : nat) (l : list (nat * nat)) (R : refmap) : refmap :=
  λ j, if decide (j = id) then l else R j.

Record world_inv (w : World) (R : refmap) : Prop := {
  wi_amap id am : amaps w !! id = Some am → amap_inv (am_state am) (R id);
  wi_live id : R id ≠ [] → is_Some (amaps w !! id);
  wi_next id : is_Some (amaps w !! id) → (id < next_id w)%nat;
}.

(** The contents of slot [i] of amap [id]. *)
Definition slot_at (w : World) (id i : nat) : option Slot :=
  amaps w !! id ≫= λ am, amap_lookup i (am_state am).

Definition same_slots (w w' : World) : Prop := ∀ id i, slot_at w' id i = slot_at w id i.
#[export] Instance same_slots_preorder : PreOrder same_slots.
Proof. unfold same_slots. split; [done|]. intros x y z H1 H2 id i. by rewrite H2. Qed.

(** The slots that references cover keep their contents. *)
Definition kept (R : refmap) (w w' : World) : Prop :=
  ∀ id i, 0 < count (R id) i → slot_at w' id i = slot_at w id i.
#[export] Instance kept_preorder R : PreOrder (kept R).
Proof. unfold kept. split; [done|]. intros x y z H1 H2 id i Hc. by rewrite H2, H1. Qed.

(** There is room for [n] more references to each amap, the limit being
    [i32::MAX]. *)
Definition few_refs (n : Z) (R : refmap) : Prop := ∀ id, Z.of_nat (length (R id)) + n < 2147483647.

Lemma rset_eq id l R : rset id l R id = l.
Proof. unfold rset. by rewrite decide_True. Qed.
Lemma rset_ne id j l R : j ≠ id → rset id l R j = R j.
Proof. intros. unfold rset. by rewrite decide_False. Qed.

Lemma amap_inv_perm st refs refs' : refs ≡ₚ refs' → amap_inv st refs → amap_inv st refs'.
Proof.
  intros Hp []. split; try done.
  - by rewrite <- Hp.
  - by rewrite <- Hp.
  - intros p. rewrite <- Hp. auto.
  - intros Hne. assert (refs ≠ []) as Hne'.
    { intros ->. apply Permutation_nil_l in Hp. by subst. }
    specialize (ai_partial Hne'). unfold partial_ok in *. destruct (partial st); [|done|].
    + destruct ai_partial as (o & l & Hall & ?). exists o, l. split; [|done]. intros p. rewrite <- Hp. auto.
    + destruct ai_partial as (? & (segs & ? & ? & Hexp) & Hocc). split; [done|]. split.
      * exists segs. split; [done|]. split; [done|]. intros i Hi. rewrite Hexp by done. f_equal.
        by apply count_perm.
      * intros i Hi. rewrite <- (count_perm refs) by done. auto.
Qed.

Lemma world_inv_perm w R id l :
  world_inv w R → R id ≡ₚ l → world_inv w (rset id l R).
Proof.
  intros [] Hp. split; try done.
  - intros j am Hj. unfold rset. case_decide; [subst|auto]. eapply amap_inv_perm; [exact Hp|auto].
  - intros j. unfold rset. case_decide; [subst|auto]. intros Hne. apply wi_live0. intros E.
    rewrite E in Hp. symmetry in Hp. by apply Permutation_nil_r in Hp.
Qed.

Lemma wp_on_amap {A} id (m : M AmapState A) am (Q : A → World → oracle → Prop) w o :
  amaps w !! id = Some am →
  wp m (λ a st o', Q a (with_amaps (<[id := mkAnonymousMap (am_owner am) st]>) w) o') (am_state am) o →
  wp (on_amap id m) Q w o.
Proof.
  intros Hid. unfold wp, on_amap. rewrite Hid. by destruct (m (am_state am) o) as [[[a st] o']|].
Qed.

(** One amap and its references change. *)
Lemma world_step w R id am st l :
  world_inv w R → amaps w !! id = Some am → amap_inv st l →
  world_inv (with_amaps (<[id := mkAnonymousMap (am_owner am) st]>) w) (rset id l R).
Proof.
  intros [] Hid Hst. split; simpl.
  - intros j am'. rewrite lookup_insert. unfold rset. repeat case_decide; subst; try done.
    + intros. by simplify_eq.
    + auto.
  - intros j. rewrite lookup_insert. unfold rset. repeat case_decide; subst; try done. auto.
  - intros j. rewrite lookup_insert. case_decide; subst; auto.
Qed.

Lemma slot_at_step w id am st j i :
  slot_at (with_amaps (<[id := mkAnonymousMap (am_owner am) st]>) w) j i =
    if decide (j = id) then amap_lookup i st else slot_at w j i.
Proof.
  unfold slot_at. simpl. rewrite lookup_insert. repeat case_decide; subst; done.
Qed.

Lemma slot_at_Some w id am i : amaps w !! id = Some am → slot_at w id i = amap_lookup i (am_state am).
Proof. intros Hid. unfold slot_at. by rewrite Hid. Qed.

Lemma live_amap w R id p : world_inv w R → p ∈ R id → ∃ am, amaps w !! id = Some am.
Proof.
  intros Hinv Hp. apply (wi_live _ _ Hinv). intros E. rewrite E in Hp. by apply not_elem_of_nil in Hp.
Qed.

Lemma clipped_spec w R r off count o :
  world_inv w R → few_refs 1 R → (mr_offset r, mr_length r) ∈ R (mr_map r) →
  (mr_offset r ≤ off)%nat → (off + count ≤ mr_offset r + mr_length r)%nat →
  wp (mapref_clipped r off count) (λ r' w' o', r' = mkMapRef (mr_map r) off count ∧ o' ⊆ o ∧
     world_inv w' (rset (mr_map r) ((off, count) :: R (mr_map r)) R) ∧ same_slots w w') w o.
Proof.
  intros Hinv Hfew Hin Hlo Hhi. destruct (live_amap _ _ _ _ Hinv Hin) as [am Ham].
  unfold mapref_clipped. wp_step. apply wp_massert; [by apply bool_decide_eq_true|]. wp_step.
  eapply wp_on_amap; [done|]. eapply wp_mono.
  { eapply add_reference_spec; [by eapply wi_amap|done|done|done|apply Hfew]. }
  intros _ st o1 (Ho & Hst & Hs & _). cbv beta. wp_step. split; [done|]. split; [done|].
  split; [by eapply world_step|]. intros j i. rewrite slot_at_step. case_decide; [subst|done].
  rewrite (slot_at_Some _ _ am) by done. unfold amap_lookup. by rewrite Hs.
Qed.

Lemma clone_spec w R r o :
  world_inv w R → few_refs 1 R → (mr_offset r, mr_length r) ∈ R (mr_map r) →
  wp (mapref_clone r) (λ r' w' o', r' = r ∧ o' ⊆ o ∧
     world_inv w' (rset (mr_map r) ((mr_offset r, mr_length r) :: R (mr_map r)) R) ∧
     same_slots w w') w o.
Proof.
  intros Hinv Hfew Hin. pose proof (clipped_spec w R r (mr_offset r) (mr_length r) o Hinv Hfew Hin) as Hc.
  specialize (Hc ltac:(lia) ltac:(lia)). unfold mapref_clipped in Hc. apply wp_bind_inv in Hc.
  rewrite bool_decide_eq_true_2 in Hc by lia. apply wp_bind_inv in Hc. unfold mapref_clone. wp_step.
  eapply wp_mono; [exact Hc|]. intros _ w1 o1 (_ & H'). wp_step. by split.
Qed.

Lemma drop_spec w R r rest o :
  world_inv w R → R (mr_map r) ≡ₚ (mr_offset r, mr_length r) :: rest →
  wp (mapref_drop r) (λ _ w' o', o' ⊆ o ∧ world_inv w' (rset (mr_map r) rest R) ∧
     ∀ id i, (id ≠ mr_map r ∨ 0 < count rest i) → slot_at w' id i = slot_at w id i) w o.
Proof.
  intros Hinv Hp. destruct (live_amap w R (mr_map r) (mr_offset r, mr_length r)) as [am Ham].
  { done. } { rewrite Hp. left. }
  unfold mapref_drop. eapply wp_on_amap; [done|]. eapply wp_mono.
  { eapply drop_reference_spec, amap_inv_perm; [exact Hp|by eapply wi_amap]. }
  intros _ st o1 (Ho & Hst & Hkeep & _). cbv beta. split; [done|]. split; [by eapply world_step|].
  intros j i Hji. rewrite slot_at_step. case_decide; [subst|done]. destruct Hji as [?|Hji]; [done|].
  rewrite (slot_at_Some _ _ am) by done. unfold amap_lookup. by rewrite Hkeep.
Qed.

(** An extension of the only reference of an amap. *)
Definition extended_ref (w w' : World) (r r' : MapRef) (added : nat) (backwards : bool) : Prop :=
  mr_map r' = mr_map r ∧ mr_length r' = (mr_length r + added)%nat ∧
  (∀ i, (i < mr_length r)%nat →
     slot_at w' (mr_map r) (mr_offset r' + (if backwards then added else 0) + i) =
     slot_at w (mr_map r) (mr_offset r + i)) ∧
  (∀ i, (i < added)%nat →
     slot_at w' (mr_map r) (mr_offset r' + (if backwards then 0 else mr_length r) + i) = None) ∧
  ∀ id i, id ≠ mr_map r → slot_at w' id i = slot_at w id i.

Lemma mapref_extend_spec w R r added backwards o :
  world_inv w R → R (mr_map r) = [(mr_offset r, mr_length r)] → 0 ≤ added →
  wp (mapref_extend r added backwards) (λ res w' o', o' ⊆ o ∧
     match res with
     | Ok r' => world_inv w' (rset (mr_map r) [(mr_offset r', mr_length r')] R) ∧
         extended_ref w w' r r' (Z.to_nat added) backwards
     | Err e => e = OutOfMemory ∧ world_inv w' R ∧
         ∀ id i, (id ≠ mr_map r ∨ (mr_offset r ≤ i < mr_offset r + mr_length r)%nat) →
           slot_at w' id i = slot_at w id i
     end) w o.
Proof.
  intros Hinv HR Hadd. destruct (live_amap w R (mr_map r) (mr_offset r, mr_length r)) as [am Ham].
  { done. } { rewrite HR. left. }
  pose proof (wi_amap _ _ Hinv _ _ Ham) as Hst. rewrite HR in Hst.
  unfold mapref_extend. wp_step. eapply wp_on_amap; [done|].
  eapply wp_mono; [by apply extend_state_spec|].
  intros [[off' len']|e] st o1 (Ho & Hr); cbv beta iota.
  - destruct Hr as [-> [Hinv' Hk Hn _]]. wp_step. split; [done|]. simpl. split; [by eapply world_step|].
    do 2 (split; [done|]). split_and!.
    + intros i Hi. rewrite slot_at_step, decide_True by done. rewrite (slot_at_Some _ _ am) by done.
      unfold amap_lookup. by rewrite Hk.
    + intros i Hi. rewrite slot_at_step, decide_True by done. unfold amap_lookup. by rewrite Hn.
    + intros j i Hj. by rewrite slot_at_step, decide_False.
  - destruct Hr as (-> & Hinv' & _ & Hk). split; [done|]. split; [done|]. split.
    + pose proof (world_step w R (mr_map r) am st _ Hinv Ham Hinv') as Hw.
      destruct Hw as [H1 H2 H3]. split; [|intros j Hj|done].
      * intros j am' Hj. specialize (H1 j am' Hj). unfold rset in H1. case_decide; [subst|done]. by rewrite HR.
      * apply H2. unfold rset. case_decide; [done|done].
    + intros j i Hji. rewrite slot_at_step. case_decide; [subst|done]. destruct Hji as [?|Hi]; [done|].
      rewrite (slot_at_Some _ _ am) by done. unfold amap_lookup.
      specialize (Hk (i - mr_offset r)%nat ltac:(lia)).
      replace (mr_offset r + (i - mr_offset r))%nat with i in Hk by lia. by rewrite Hk.
Qed.

Lemma is_exclusive_spec w R r o :
  world_inv w R → (mr_offset r, mr_length r) ∈ R (mr_map r) →
  wp (is_exclusive r) (λ b w' o', w' = w ∧ o' = o ∧
     (b = true ↔ R (mr_map r) = [(mr_offset r, mr_length r)])) w o.
Proof.
  intros Hinv Hin. destruct (live_amap _ _ _ _ Hinv Hin) as [am Ham].
  unfold is_exclusive. eapply wp_on_amap; [done|]. wp_step. split.
  { destruct w as [A W Rs n]. unfold with_amaps. simpl in *. f_equal. destruct am. by apply insert_id. }
  split; [done|]. rewrite (ai_refs _ _ (wi_amap _ _ Hinv _ _ Ham)), Nat.eqb_eq. split.
  - intros Hl. destruct (R (mr_map r)) as [|p [|q l]]; simplify_eq/=. by apply list_elem_of_singleton in Hin as ->.
  - by intros ->.
Qed.

Lemma try_new_spec w R o :
  world_inv w R →
  wp try_new (λ r w' o', o' ⊆ o ∧ world_inv w' R ∧ amaps w' = amaps w ∧
     windows w' = windows w ∧ (next_id w ≤ next_id w')%nat ∧
     match r with
     | Ok id => amaps w !! id = None ∧ R id = [] ∧ (next_id w ≤ id < next_id w')%nat
     | Err e => e = OutOfMemory ∧ false ∈ o
     end) w o.
Proof.
  intros Hinv. unfold try_new. wp_step. apply wp_ask. intros [] o1 Ho Hf; cbv beta iota.
  - assert (amaps w !! next_id w = None) as Hn.
    { destruct (amaps w !! next_id w) eqn:E; [|done]. pose proof (wi_next _ _ Hinv (next_id w)) as H'.
      rewrite E in H'. specialize (H' ltac:(done)). lia. }
    wp_step. unfold fresh_id, wp. simpl. split; [done|]. split.
    { destruct Hinv. split; try done. intros id Hid. specialize (wi_next0 _ Hid). simpl. lia. }
    split_and!; try done; try lia. destruct (R (next_id w)) eqn:E; [done|].
    destruct (wi_live _ _ Hinv (next_id w)) as [? ?]; congruence.
  - wp_step. split_and!; try done. auto.
Qed.

Lemma same_amaps_slots w w' : amaps w' = amaps w → same_slots w w'.
Proof. intros E id i. unfold slot_at. by rewrite E. Qed.

(** A new amap, with one reference to all its slots, which are empty. *)
Definition new_ref (w w' : World) (R : refmap) (r : MapRef) (pages : nat) : Prop :=
  amaps w !! mr_map r = None ∧ R (mr_map r) = [] ∧ mr_offset r = 0%nat ∧ mr_length r = pages ∧
  world_inv w' (rset (mr_map r) [(0, pages)%nat] R).

Lemma with_owner_spec w R pages owner o :
  world_inv w R → 0 ≤ pages →
  wp (with_owner pages owner) (λ res w' o', o' ⊆ o ∧ same_slots w w' ∧ windows w' = windows w ∧
     match res with
     | Ok r => new_ref w w' R r (Z.to_nat pages) ∧ ∃ st, fresh_amap pages st ∧
         amaps w' = <[mr_map r := mkAnonymousMap owner st]> (amaps w)
     | Err e => e = OutOfMemory ∧ world_inv w' R ∧ amaps w' = amaps w
     end) w o.
Proof.
  intros Hinv Hp. unfold with_owner. destruct (4294967295 <? pages); [wp_step; done|].
  wp_step. eapply wp_mono; [by apply amap_allocate_spec|].
  intros [st|e] w1 o1 (-> & Ho1 & Hst); cbv beta iota; [|done].
  wp_step. eapply wp_mono; [by apply try_new_spec|].
  intros [id|e] w2 o2 (Ho2 & Hinv2 & Ham & Hwin & _ & Hr); cbv beta iota.
  - destruct Hr as (Hid & HRid & Hnext). do 3 wp_step.
    pose proof (fresh_inv _ _ Hst) as Hfi. split; [by etrans|]. split.
    { intros j i. unfold slot_at. simpl. rewrite Ham, lookup_insert. case_decide; [subst|done].
      rewrite Hid. simpl. destruct Hst as (cap & -> & _). unfold amap_lookup. simpl.
      destruct (replicate cap None !! i) as [[s|]|] eqn:E; try done.
      by apply lookup_replicate in E as [? _]. }
    split; [done|]. split; [|exists st; simpl; by rewrite Ham]. split_and!; try done. simpl.
    destruct Hinv2 as [H1 H2 H3]. split; simpl.
    + intros j am. rewrite lookup_insert. unfold rset. repeat case_decide; subst; try done; [|auto].
      intros [= <-]. done.
    + intros j. rewrite lookup_insert. unfold rset. repeat case_decide; subst; try done. auto.
    + intros j. rewrite lookup_insert. case_decide; subst; [lia|auto].
  - destruct Hr as [-> _]. split; [by etrans|]. split; [by apply same_amaps_slots|]. done.
Qed.

(** [AnonymousMap::allocate] *)
Lemma anonymous_allocate_spec w R pages o :
  world_inv w R → 0 ≤ pages →
  wp (anonymous_allocate pages) (λ res w' o', o' ⊆ o ∧ same_slots w w' ∧
     match res with
     | Ok r => new_ref w w' R r (Z.to_nat pages)
     | Err e => e = OutOfMemory ∧ world_inv w' R
     end) w o.
Proof.
  intros Hinv Hp. unfold anonymous_allocate. wp_step. eapply wp_mono; [by apply try_new_spec|].
  intros [owner|e] w1 o1 (Ho1 & Hinv1 & Ham1 & _ & _ & Hr); cbv beta iota.
  - eapply wp_mono; [by apply with_owner_spec|].
    intros [r|e] w2 o2 (Ho2 & Hss & _ & Hr2); (split; [by etrans|]);
      (split; [etrans; [by apply same_amaps_slots|done]|]).
    + destruct Hr2 as [(? & ?) _]. split; [by rewrite <- Ham1|done].
    + by destruct Hr2 as (? & ? & _).
  - destruct Hr as [-> _]. split; [done|]. split; [by apply same_amaps_slots|done].
Qed.

(** A page enters a slot that some reference covers. *)
Lemma count_pos refs i : 0 < count refs i ↔ ∃ p, p ∈ refs ∧ covers i p.
Proof.
  unfold count. split.
  - intros Hc. destruct (filter (covers i) refs) as [|p l] eqn:E; [simpl in Hc; lia|].
    exists p. assert (p ∈ filter (covers i) refs) as Hp by (rewrite E; left).
    apply list_elem_of_filter in Hp. tauto.
  - intros (p & Hp & Hc). assert (p ∈ filter (covers i) refs) as Hf by (by apply list_elem_of_filter).
    destruct (filter (covers i) refs); [by apply not_elem_of_nil in Hf|simpl; lia].
Qed.

Lemma insert_inv st refs index slot o :
  amap_inv st refs → 0 < count refs index →
  wp (insert_slot index slot) (λ _ st' o', o' = o ∧ amap_inv st' refs ∧ same_rest st st' ∧
     slots st' = <[index := Some slot]> (slots st)) st o.
Proof.
  intros Hinv Hc. apply count_pos in Hc as Hp. destruct Hp as ([off len] & Hp & Hcov). unfold covers in Hcov. simpl in Hcov.
  pose proof (ai_in _ _ Hinv _ Hp) as Hin. simpl in Hin. pose proof (ai_nslot _ _ Hinv).
  eapply wp_mono; [apply insert_slot_spec; [apply Hinv|lia]|].
  intros _ st' o' (-> & Hok' & Hsr & Hs'). split; [done|]. split; [|done].
  pose proof Hsr as (Hn & Hr & Hsh & Hpp & Hl). destruct Hinv as [Hok Hns Hhigh Hrefs Hb Hins Hpart].
  assert (∀ i, occupied (slots st') i → i = index ∨ occupied (slots st) i) as Hocc.
  { intros i Hi. rewrite Hs' in Hi. apply occupied_insert in Hi as [[? _]|[_ ?]]; [by left|by right|lia]. }
  split; rewrite ?Hn, ?Hr, ?Hl; try done.
  - intros i [->|?]%Hocc; [lia|auto].
  - intros Hne. specialize (Hpart Hne). unfold partial_ok in *. rewrite Hpp, Hn, Hl.
    destruct (partial st); [|done|].
    + destruct Hpart as (o' & l' & Hall & Hnl & Ho). exists o', l'. split; [done|]. split; [done|].
      intros i [->|?]%Hocc; [|auto]. specialize (Hall _ Hp). simplify_eq. lia.
    + destruct Hpart as (? & ? & Ho). split; [done|]. split; [done|].
      intros i [->|?]%Hocc; auto.
Qed.

Definition copied_slot (copy_writers : bool) (s s' : option Slot) : Prop :=
  if copy_writers then is_Some s' ↔ is_Some s else s' = s.

Lemma copy_wired_spec w R page o :
  world_inv w R →
  wp (copy_wired_locked page) (λ res w' o', o' ⊆ o ∧ world_inv w' R ∧ amaps w' = amaps w) w o.
Proof.
  intros Hinv. unfold copy_wired_locked. do 2 wp_step. case_decide; [|by wp_step].
  wp_step. eapply wp_mono; [by apply try_new_spec|].
  intros [id|e] w1 o1 (Ho1 & Hinv1 & Ham & _); cbv beta iota; [|done]. wp_step. apply wp_ask.
  intros [] o2 Ho2 _; cbv beta iota.
  - do 3 wp_step. split; [by etrans|]. split; [|done]. by destruct Hinv1.
  - wp_step. split; [by etrans|done].
Qed.

Lemma copy_slot_spec w R slot (copy_writers : bool) o :
  world_inv w R →
  wp (copy_slot slot copy_writers) (λ res w' o', o' ⊆ o ∧ world_inv w' R ∧ amaps w' = amaps w ∧
     ∀ s, res = Ok s → copied_slot copy_writers (Some slot) (Some s)) w o.
Proof.
  intros Hinv. unfold copy_slot, copied_slot. do 2 wp_step.
  destruct copy_writers; simpl; [|wp_step; split_and!; try done; congruence].
  case_bool_decide; [|by wp_step]. wp_step. eapply wp_mono; [by apply copy_wired_spec|].
  intros [[page|]|e] w1 o1 (Ho1 & Hinv1 & Ham); cbv beta iota; [|by wp_step|done].
  unfold slot_new. wp_step. eapply wp_mono; [by apply try_new_spec|].
  intros [id|e] w2 o2 (Ho2 & Hinv2 & Ham2 & _); cbv beta iota.
  - wp_step. split; [by etrans|]. split_and!; try done. congruence.
  - split; [by etrans|]. split_and!; try done. congruence.
Qed.

(** The copying loop: the first [index] slots of the copy are done. *)
Definition copying (w0 w : World) (source copy start index : nat) (copy_writers : bool) : Prop :=
  (∀ id i, id ≠ copy → slot_at w id i = slot_at w0 id i) ∧
  (∀ i, (i < index)%nat → copied_slot copy_writers (slot_at w0 source (start + i)) (slot_at w copy i)) ∧
  (∀ i, (index ≤ i)%nat → slot_at w copy i = None).

Lemma world_same_refs w R id l :
  world_inv w (rset id l R) → R id = l → world_inv w R.
Proof.
  intros [H1 H2 H3] HR. split; [|intros j Hj|done].
  - intros j am Hj. specialize (H1 j am Hj). unfold rset in H1. case_decide; [subst|]; done.
  - apply H2. unfold rset. case_decide; [subst|]; done.
Qed.

Lemma world_eta w id am :
  amaps w !! id = Some am → with_amaps (<[id := mkAnonymousMap (am_owner am) (am_state am)]>) w = w.
Proof. intros Ham. destruct w. unfold with_amaps. simpl in *. f_equal. destruct am. by apply insert_id. Qed.

(** Installing the slot of one index in the copy. *)
Lemma copy_insert_spec w0 w R source copy start index count cw s slot o :
  world_inv w R → R copy = [(0, count)%nat] → (index < count)%nat →
  copying w0 w source copy start index cw → slot_at w0 source (start + index) = Some slot →
  copied_slot cw (Some slot) (Some s) →
  wp (on_amap copy (insert_slot index s)) (λ _ w' o', o' = o ∧ world_inv w' R ∧
     (∀ id, id ≠ copy → amaps w' !! id = amaps w !! id) ∧
     copying w0 w' source copy start (S index) cw) w o.
Proof.
  intros Hinv HR Hlt (Hoth & Hdone & Hrest) Hs0 Hs.
  destruct (live_amap w R copy (0, count)%nat) as [cm Hcm]; [done|by rewrite HR; left|].
  pose proof (wi_amap _ _ Hinv _ _ Hcm) as Hci. rewrite HR in Hci.
  eapply wp_on_amap; [done|]. eapply wp_mono.
  { eapply insert_inv; [exact Hci|]. rewrite count_one, decide_True by lia. lia. }
  intros _ st2 o2 (-> & Hst2 & _ & Hsl2). cbv beta. split; [done|].
  split; [by eapply world_same_refs; [eapply world_step|]|].
  split; [intros id Hid; simpl; by rewrite lookup_insert_ne|].
  assert (index < length (slots (am_state cm)))%nat as Hil.
  { pose proof (ai_nslot _ _ Hci). pose proof (ai_in _ _ Hci (0, count)%nat ltac:(left)). simpl in *. lia. }
  split_and!; intros; rewrite slot_at_step.
  - by rewrite decide_False, <- Hoth.
  - rewrite decide_True by done. unfold amap_lookup. rewrite Hsl2. destruct (decide (i = index)) as [->|].
    + rewrite list_lookup_insert_eq by done. by rewrite Hs0.
    + rewrite list_lookup_insert_ne by lia. specialize (Hdone i ltac:(lia)).
      by rewrite (slot_at_Some w copy cm) in Hdone.
  - rewrite decide_True by done. unfold amap_lookup. rewrite Hsl2, list_lookup_insert_ne by lia.
    specialize (Hrest i ltac:(lia)). by rewrite (slot_at_Some w copy cm) in Hrest.
Qed.

Lemma copying_frame w0 w w' source copy start index cw :
  amaps w' = amaps w → copying w0 w source copy start index cw →
  copying w0 w' source copy start index cw.
Proof.
  intros E (H1 & H2 & H3). assert (∀ id i, slot_at w' id i = slot_at w id i) as Hs by (by apply same_amaps_slots).
  split_and!; intros; rewrite Hs; auto.
Qed.

Lemma copy_one_spec w0 w R source copy start index count cw am o :
  world_inv w R → R copy = [(0, count)%nat] → source ≠ copy → (index < count)%nat →
  amaps w !! source = Some am → (start + index < length (slots (am_state am)))%nat →
  copying w0 w source copy start index cw →
  wp (copy_one index source copy start cw) (λ res w' o', o' ⊆ o ∧ world_inv w' R ∧
     amaps w' !! source = Some am ∧
     match res with
     | Ok _ => copying w0 w' source copy start (S index) cw
     | Err _ => ∀ id i, id ≠ copy → slot_at w' id i = slot_at w0 id i
     end) w o.
Proof.
  intros Hinv HR Hne Hlt Ham Hlen Hcp. unfold copy_one. wp_step. eapply wp_on_amap; [done|]. do 2 wp_step.
  destruct (lookup_lt_is_Some_2 (slots (am_state am)) (start + index) Hlen) as [cur Hcur].
  eapply wp_expect; [exact Hcur|]. cbv beta. rewrite world_eta by done.
  assert (slot_at w0 source (start + index) = cur) as Hs0.
  { rewrite <- (proj1 Hcp) by done. rewrite (slot_at_Some _ _ am) by done. unfold amap_lookup. by rewrite Hcur. }
  destruct cur as [slot|].
  - wp_step. eapply wp_mono; [by apply copy_slot_spec|].
    intros [s|e] w1 o1 (Ho1 & Hinv1 & Ham1 & Hs); cbv beta iota.
    + wp_step. eapply wp_mono.
      { eapply (copy_insert_spec w0 w1 R source copy start index count cw s slot); try done; [|by apply Hs].
        by eapply copying_frame. }
      intros _ w2 o2 (-> & Hinv2 & Ham2 & Hcp2). wp_step. split_and!; try done. by rewrite Ham2, Ham1.
    + split_and!; try done; [by rewrite Ham1|]. exact (proj1 (copying_frame _ _ w1 _ _ _ _ _ Ham1 Hcp)).
  - wp_step. split_and!; try done. destruct Hcp as (Hoth & Hdone & Hrest).
    split; [done|]. split; [|intros i Hi; apply Hrest; lia].
    intros i Hi. destruct (decide (i = index)) as [->|]; [|apply Hdone; lia].
    rewrite Hs0, Hrest by lia. by destruct cw.
Qed.

Lemma copy_slots_spec n : ∀ w0 w R source copy start index count cw am o,
  world_inv w R → R copy = [(0, count)%nat] → source ≠ copy → (index + n ≤ count)%nat →
  amaps w !! source = Some am → (start + index + n ≤ length (slots (am_state am)))%nat →
  copying w0 w source copy start index cw →
  wp (copy_slots n index source copy start cw) (λ res w' o', o' ⊆ o ∧ world_inv w' R ∧
     match res with
     | Ok _ => copying w0 w' source copy start (index + n) cw
     | Err _ => ∀ id i, id ≠ copy → slot_at w' id i = slot_at w0 id i
     end) w o.
Proof.
  induction n as [|n IH]; intros w0 w R source copy start index cnt cw am o Hinv HR Hne Hle Ham Hlen Hcp; simpl.
  - wp_step. split; [done|]. split; [done|]. by rewrite Nat.add_0_r.
  - wp_step. eapply wp_mono; [eapply (copy_one_spec w0 w); try done; lia|].
    intros [[]|e] w1 o1 (Ho1 & Hinv1 & Ham1 & Hcp1); cbv beta iota; [|done].
    eapply wp_mono; [eapply (IH w0 w1 R source copy start (S index) cnt cw am); try done; lia|].
    intros res w2 o2 (Ho2 & Hinv2 & Hcp2). split; [by etrans|]. split; [done|].
    by replace (index + S n)%nat with (S index + n)%nat by lia.
Qed.

(** A copy of part of an amap: [slice] shares the pages, a fork with writers
    gives the pages with an open write window a copy of their own. *)
Definition copied_ref (w w' : World) (R : refmap) (r r' : MapRef) (start count : nat)
    (copy_writers : bool) : Prop :=
  new_ref w w' R r' count ∧
  (∀ id i, id ≠ mr_map r' → slot_at w' id i = slot_at w id i) ∧
  ∀ i, (i < count)%nat →
    copied_slot copy_writers (slot_at w (mr_map r) (start + i)) (slot_at w' (mr_map r') i).

Lemma drop_copy_spec w w0 R r count o :
  world_inv w (rset (mr_map r) [(0, count)%nat] R) → R (mr_map r) = [] →
  mr_offset r = 0%nat → mr_length r = count → amaps w0 !! mr_map r = None →
  (∀ id i, id ≠ mr_map r → slot_at w id i = slot_at w0 id i) →
  wp (mapref_drop r) (λ _ w' o', o' ⊆ o ∧ world_inv w' R ∧ same_slots w0 w') w o.
Proof.
  intros Hinv HR Hoff Hlen Hfresh Hoth.
  destruct (live_amap w _ (mr_map r) (0, count)%nat Hinv) as [am Ham]; [rewrite rset_eq; left|].
  pose proof (wi_amap _ _ Hinv _ _ Ham) as Hst. rewrite rset_eq in Hst.
  unfold mapref_drop. rewrite Hoff, Hlen. eapply wp_on_amap; [done|].
  eapply wp_mono; [by eapply drop_reference_spec|].
  intros _ st o1 (Ho & Hst' & _ & _ & Hempty & _). cbv beta. split; [done|]. split.
  - pose proof (world_step w _ (mr_map r) am st [] Hinv Ham Hst') as Hw.
    eapply world_same_refs; [|exact HR]. destruct Hw as [H1 H2 H3]. split; [|intros j Hj|done].
    + intros j am' Hj. specialize (H1 j am' Hj). unfold rset in *. by case_decide.
    + apply H2. unfold rset in *. by case_decide.
  - intros j i. rewrite slot_at_step. case_decide; [subst|by apply Hoth].
    unfold slot_at. rewrite Hfresh. simpl. unfold amap_lookup. specialize (Hempty eq_refl i).
    destruct (slots st !! i) as [[s|]|] eqn:E; try done. destruct Hempty. by exists s.
Qed.

Lemma copy_range_spec w R r start count cw o :
  world_inv w R → (mr_offset r, mr_length r) ∈ R (mr_map r) →
  (start + count ≤ mr_offset r + mr_length r)%nat →
  wp (copy_range r start count cw) (λ res w' o', o' ⊆ o ∧
     match res with
     | Ok r' => copied_ref w w' R r r' start count cw
     | Err _ => world_inv w' R ∧ same_slots w w'
     end) w o.
Proof.
  intros Hinv Hin Hle. destruct (live_amap _ _ _ _ Hinv Hin) as [am Ham].
  pose proof (wi_amap _ _ Hinv _ _ Ham) as Hst. pose proof (ai_in _ _ Hst _ Hin) as Hns. simpl in Hns.
  pose proof (ai_nslot _ _ Hst).
  unfold copy_range. do 3 wp_step. eapply wp_expect; [exact Ham|]. cbv beta. wp_step.
  eapply wp_mono; [apply with_owner_spec; [done|lia]|].
  intros [r'|e] w1 o1 (Ho1 & Hss1 & _ & Hr1); cbv beta iota; [|by destruct Hr1 as (-> & ? & _)].
  rewrite Nat2Z.id in Hr1. destruct Hr1 as [(Hfresh & HR & Hoff & Hlen & Hinv1) (st & Hfst & Ham1)].
  assert (mr_map r ≠ mr_map r') as Hne by (intros E; rewrite E in Ham; congruence).
  wp_step. apply wp_massert; [apply bool_decide_eq_true; lia|]. wp_step. eapply wp_mono.
  { eapply (copy_slots_spec count w w1 _ (mr_map r) (mr_map r') start 0 count cw am); try done.
    - apply rset_eq.
    - rewrite Ham1, lookup_insert_ne by done. done.
    - lia.
    - split_and!; [|lia|]; intros; rewrite Hss1; [done|]. unfold slot_at. by rewrite Hfresh. }
  intros [[]|e] w2 o2 (Ho2 & Hinv2 & Hcp2); cbv beta iota.
  - wp_step. split; [by etrans|]. destruct Hcp2 as (H1 & H2 & _). split; [done|]. split; [done|].
    intros i Hi. apply H2. lia.
  - wp_step. eapply wp_mono; [by eapply (drop_copy_spec w2 w R r' count)|].
    intros _ w3 o3 (Ho3 & Hinv3 & Hss3). wp_step. split; [etrans; [done|by etrans]|done].
Qed.

Lemma copy_for_fork_spec w R r start count o :
  world_inv w R → (mr_offset r, mr_length r) ∈ R (mr_map r) →
  (start + count ≤ mr_offset r + mr_length r)%nat →
  wp (copy_for_fork r start count) (λ res w' o', o' ⊆ o ∧
     match res with
     | Ok (Some r') => copied_ref w w' R r r' start count true
     | Ok None => w' = w
     | Err _ => world_inv w' R ∧ same_slots w w'
     end) w o.
Proof.
  intros Hinv Hin Hle. destruct (live_amap _ _ _ _ Hinv Hin) as [am Ham].
  pose proof (wi_amap _ _ Hinv _ _ Ham) as Hst. pose proof (ai_in _ _ Hst _ Hin) as Hns. simpl in Hns.
  unfold copy_for_fork. do 3 wp_step. eapply wp_expect; [exact Ham|]. cbv beta zeta. wp_step.
  apply wp_massert; [apply bool_decide_eq_true; lia|].
  match goal with |- wp (if ?c then _ else _) _ _ _ => destruct c end; [|by wp_step].
  wp_step. eapply wp_mono; [by apply copy_range_spec|].
  intros [r'|e] w1 o1 (Ho1 & Hr1); cbv beta iota; [wp_step|]; done.
Qed.

Lemma mark_shared_spec w R r o :
  world_inv w R → (mr_offset r, mr_length r) ∈ R (mr_map r) →
  wp (mark_shared r) (λ _ w' o', o' = o ∧ world_inv w' R ∧ same_slots w w') w o.
Proof.
  intros Hinv Hin. destruct (live_amap _ _ _ _ Hinv Hin) as [am Ham].
  pose proof (wi_amap _ _ Hinv _ _ Ham) as Hst. unfold mark_shared. eapply wp_on_amap; [done|]. wp_step.
  split; [done|]. split.
  - eapply world_same_refs; [eapply world_step; [done|done|]|done].
    destruct Hst. split; try done. by eapply arrays_ok_ext.
  - intros j i. rewrite slot_at_step. case_decide; [subst|done]. by rewrite (slot_at_Some _ _ am).
Qed.
