(* ===== verification/AmapTheorems.v ===== *)
(** The properties of anonymous maps ([mem/anon.rs]): reference counting per
    slot, extension, copying and the commit of a fault. *)
From S2P Require Import Prelude.
From S2P Require Import Index.
From S2P Require Import Amap.
From S2P Require Import AmapInv.
From S2P Require Import AmapSpec.
From S2P Require Import AmapHeap.
From S2P Require Import AmapHeapSpec.
Open Scope rust_scope.

(** ** The abstract amap: a multiset of references

    Specification of [MapRef::clone], [MapRef::clipped] and [Drop for MapRef]:
    a reference is taken inside a live one, or a live one is given up. *)
Inductive RefOp : Type :=
| Take (original_offset offset len : nat)
| Give (offset len : nat).

Inductive ref_step : list (nat * nat) → RefOp → list (nat * nat) → Prop :=
| step_take refs oo ol off len :
    (oo, ol) ∈ refs → (oo ≤ off)%nat → (off + len ≤ oo + ol)%nat → ref_step refs (Take oo off len) ((off, len) :: refs)
| step_give refs refs' off len :
    refs ≡ₚ (off, len) :: refs' → ref_step refs (Give off len) refs'.

Inductive ref_steps : list (nat * nat) → list RefOp → list (nat * nat) → Prop :=
| steps_nil refs : ref_steps refs [] refs
| steps_cons refs op refs' ops refs'' :
    ref_step refs op refs' → ref_steps refs' ops refs'' → ref_steps refs (op :: ops) refs''.

Definition run_ref_op (op : RefOp) : M AmapState () :=
  match op with
  | Take oo off len => add_reference oo off len
  | Give off len => drop_reference off len
  end.
Fixpoint run_ref_ops (ops : list RefOp) : M AmapState () :=
  match ops with
  | [] => ret ()
  | op :: ops => do run_ref_op op then run_ref_ops ops
  end.

(** Slots that stay covered keep their contents, and none gains any. *)
Definition slots_shrink (refs' : list (nat * nat)) (st st' : AmapState) : Prop :=
  (∀ i, 0 < count refs' i → slots st' !! i = slots st !! i) ∧
  ∀ i, occupied (slots st') i → occupied (slots st) i.

Lemma run_ref_op_spec st refs op refs' o :
  amap_inv st refs → ref_step refs op refs' → Z.of_nat (length refs) + 1 < 2147483647 →
  wp (run_ref_op op) (λ _ st' o', o' ⊆ o ∧ amap_inv st' refs' ∧ slots_shrink refs' st st' ∧ nslot st' = nslot st) st o.
Proof.
  intros Hinv Hop Hb. destruct Hop as [refs oo ol off len Hin Hlo Hhi|refs refs' off len Hp]; simpl.
  - eapply wp_mono; [by eapply add_reference_spec|]. intros [] st' o' (Ho & Hi & Hs & _ & Hn).
    split_and!; [done|done| |done]. split; rewrite Hs; naive_solver.
  - eapply wp_mono; [eapply drop_reference_spec, amap_inv_perm; done|].
    intros [] st' o' (Ho & Hi & Hk & Hocc & _ & Hn). done.
Qed.

Lemma ref_step_length refs op refs' : ref_step refs op refs' → (length refs' ≤ S (length refs))%nat.
Proof. intros []; simpl; [lia|]. match goal with H : _ ≡ₚ _ |- _ => rewrite H end. simpl. lia. Qed.

Lemma ref_step_covered refs op refs' i : ref_step refs op refs' → 0 < count refs' i → 0 < count refs i.
Proof.
  rewrite !count_pos. intros [refs1 oo ol off len Hin Hlo Hhi|refs1 refs1' off len Hp] (p & Hp' & Hc).
  - apply elem_of_cons in Hp' as [->|Hp']; [|by exists p]. exists (oo, ol). unfold covers in *. simpl in *. split; [done|lia].
  - exists p. split; [|done]. rewrite Hp. by right.
Qed.
Lemma ref_steps_covered refs ops refs' i : ref_steps refs ops refs' → 0 < count refs' i → 0 < count refs i.
Proof. induction 1; [done|]. intros. eapply ref_step_covered; eauto. Qed.

Lemma run_ref_ops_spec ops : ∀ st refs refs' o,
  amap_inv st refs → ref_steps refs ops refs' → Z.of_nat (length refs) + Z.of_nat (length ops) < 2147483647 →
  wp (run_ref_ops ops) (λ _ st' _, amap_inv st' refs' ∧ slots_shrink refs' st st') st o.
Proof.
  induction ops as [|op ops IH]; intros st refs refs' o Hinv Hs Hb; inversion Hs as [|? ? r1 ? ? Hop Hops]; subst; simpl.
  - wp_step. split; [done|]. split; [done|tauto].
  - wp_step. simpl in Hb. eapply wp_mono; [eapply run_ref_op_spec; [done|done|lia]|].
    intros [] st1 o1 (_ & Hi1 & [Hk1 Hocc1] & _). cbv beta. pose proof (ref_step_length _ _ _ Hop).
    eapply wp_mono; [eapply IH; [done|done|lia]|]. intros [] st2 o2 (Hi2 & Hk2 & Hocc2). split; [done|].
    split; [|auto]. intros i Hc. rewrite Hk2 by done. apply Hk1. by eapply ref_steps_covered.
Qed.

(** ** Theorems *)

(** C23: the run-length encoded counts refine the multiset of references:
    whatever references are taken and given up, no assertion fails, every
    covered slot keeps its page, and once counts are kept a slot is occupied
    only while some reference covers it, its stored count being their number. *)
Theorem references_refine st refs ops refs' o :
  amap_inv st refs → ref_steps refs ops refs' → Z.of_nat (length refs) + Z.of_nat (length ops) < 2147483647 →
  wp (run_ref_ops ops) (λ _ st' _, references st' = length refs' ∧ slots_shrink refs' st st' ∧
     (refs' ≠ [] → partial_ok st' refs')) st o.
Proof.
  intros Hinv Hs Hb. eapply wp_mono; [by eapply run_ref_ops_spec|]. intros [] st' o' [Hi Hk].
  split; [apply Hi|]. split; [done|apply Hi].
Qed.

(** giving up the last reference of an amap releases every page of it. *)
Theorem last_drop_releases st off len o :
  amap_inv st [(off, len)] →
  wp (drop_reference off len) (λ _ st' _, references st' = 0%nat ∧ ∀ i, ¬ occupied (slots st') i) st o.
Proof.
  intros Hinv. eapply wp_mono; [by apply drop_reference_spec|]. intros [] st' o' (_ & Hi & _ & _ & He & _).
  split; [apply Hi|by apply He].
Qed.

(** [MapRef::extend] by any number of pages on either side keeps every
    page of the reference at its place in it, adds empty slots, and on failure
    leaves the pages where they were; [None] of the model, an overflow or a
    failed assertion, does not occur. *)
Theorem extend_correct w R r added backwards o :
  world_inv w R → R (mr_map r) = [(mr_offset r, mr_length r)] → 0 ≤ added →
  wp (mapref_extend r added backwards) (λ res w' _,
     match res with
     | Ok r' => world_inv w' (rset (mr_map r) [(mr_offset r', mr_length r')] R) ∧
         extended_ref w w' r r' (Z.to_nat added) backwards
     | Err e => e = OutOfMemory ∧ world_inv w' R ∧
         ∀ id i, (id ≠ mr_map r ∨ (mr_offset r ≤ i < mr_offset r + mr_length r)%nat) →
           slot_at w' id i = slot_at w id i
     end) w o.
Proof. intros. eapply wp_mono; [by eapply mapref_extend_spec|]. intros [r'|e] w' o' (_ & H'); done. Qed.


Definition commit_post (st : AmapState) (refs : list (nat * nat)) (index : Z) (expected replacement : option Slot)
    (install : result Error ()) (r : option Page * result Error bool) (st' : AmapState) : Prop :=
  let current := amap_lookup (Z.to_nat index) st in
  amap_inv st' refs ∧
  match r.2 with
  | Ok true => install = Ok () ∧ slot_identity <$> current = slot_identity <$> expected ∧
      (∀ i, amap_lookup i st' = if decide (i = Z.to_nat index) then union replacement current else amap_lookup i st) ∧
      (∀ old p, shared st = true → current = Some old → replacement = Some p → r.1 = Some (slot_page old))
  | Ok false => st' = st ∧ slot_identity <$> current ≠ slot_identity <$> expected
  | Err e => st' = st ∧ install = Err e ∧ slot_identity <$> current = slot_identity <$> expected
  end.

(** a fault's commit replaces the slot exactly when it still is the one
    the fault saw, and reports a retry otherwise without any change; in a
    shared amap the translations of the replaced page are removed first. *)
Theorem commit_correct st refs owner index expected replacement install o :
  amap_inv st refs → 0 ≤ index → 0 < count refs (Z.to_nat index) →
  (∀ r, replacement = Some r → page_owner (slot_page r) = owner) →
  wp (amap_commit owner index expected replacement install)
     (λ r st' _, commit_post st refs index expected replacement install r st') st o.
Proof.
  intros Hinv Hi Hc Hown. apply count_pos in Hc as Hp. destruct Hp as ([off len] & Hp & Hcov). unfold covers in Hcov. simpl in Hcov.
  pose proof (ai_in _ _ Hinv _ Hp) as Hin. simpl in Hin. pose proof (ai_nslot _ _ Hinv). pose proof (ai_refs _ _ Hinv) as Hr.
  assert (references st ≠ 0%nat) as Hr0 by (rewrite Hr; destruct refs; [by apply not_elem_of_nil in Hp|done]).
  unfold amap_commit, commit_post. do 2 wp_step. rewrite (proj2 (Nat.eqb_neq _ _) Hr0), (proj2 (Z.leb_gt _ _)) by lia.
  destruct (lookup_lt_is_Some_2 (slots st) (Z.to_nat index)) as [cur Hcur]; [lia|].
  assert (amap_lookup (Z.to_nat index) st = cur) as Hlook by (unfold amap_lookup; by rewrite Hcur). rewrite Hcur, Hlook.
  case_bool_decide as Hid; simpl; [|by wp_step].
  destruct replacement as [p|]; do 2 wp_step.
  - apply wp_massert; [by rewrite (Hown p), Nat.eqb_refl|]. wp_step. destruct install as [[]|e]; [|by wp_step].
    wp_step. eapply wp_mono; [by apply insert_inv|]. intros [] st' o' (-> & Hi' & _ & Hs). cbv beta. wp_step. simpl.
    split; [done|]. split_and!; [done|done| |].
    + intros i. unfold amap_lookup at 1. rewrite Hs. case_decide as E.
      * subst i. rewrite list_lookup_insert_eq by (by eapply lookup_lt_Some). by destruct cur.
      * by rewrite list_lookup_insert_ne by done.
    + intros old p' Hsh -> Hp'. by rewrite Hsh.
  - destruct install as [[]|e]; [|by wp_step]. do 2 wp_step. simpl. split; [done|]. split_and!; [done|done| |done].
    intros i. case_decide as E; [|done]. rewrite E, Hlook. by destruct cur.
Qed.

(** ** A concrete amap *)

(** Six pages in a class of sixteen slots, page 7 in the second slot. *)
Definition demo_empty : AmapState :=
  mkAmap 6 1 false (replicate 16 None) [] (replicate 16 0%nat) Unestablished.
Definition demo_slot : Slot := mkSlot 5 (mkPage 7 1).
Definition demo_amap : AmapState :=
  match insert_slot 1 demo_slot demo_empty [] with Some (_, st, _) => st | None => demo_empty end.

Lemma inserted_inv st refs index slot :
  amap_inv st refs → 0 < count refs index →
  amap_inv (match insert_slot index slot st [] with Some (_, st', _) => st' | None => st end) refs.
Proof.
  intros Hi Hc. destruct (wp_elim _ _ _ _ (insert_inv st refs index slot [] Hi Hc)) as ([] & st' & o' & -> & _ & H & _). done.
Qed.
Lemma demo_amap_inv : amap_inv demo_amap [(0, 6)%nat].
Proof. apply inserted_inv; [|done]. apply (fresh_inv 6). exists 16%nat. split; [done|]. lia. Qed.

Definition demo_world : World := mkWorld {[0%nat := mkAnonymousMap 1 demo_amap]} ∅ ∅ 1.
Definition demo_refs : refmap := λ id, if decide (id = 0%nat) then [(0, 6)%nat] else [].
Lemma demo_world_inv : world_inv demo_world demo_refs.
Proof.
  split; unfold demo_refs; simpl.
  - intros id am [<- <-]%lookup_singleton_Some. rewrite decide_True by done. apply demo_amap_inv.
  - intros id. case_decide; [subst; intros _; by rewrite lookup_singleton_eq|done].
  - intros id [am [<- _]%lookup_singleton_Some]. lia.
Qed.

(** Half of the amap is referenced twice, and then the whole given up. *)
Definition demo_ref_ops : list RefOp := [Take 0 0 3; Give 0 6].
Lemma references_refine_witness :
  wp (run_ref_ops demo_ref_ops) (λ _ st' _, references st' = 1%nat ∧ slots_shrink [(0, 3)%nat] demo_amap st' ∧
     ([(0, 3)%nat] ≠ [] → partial_ok st' [(0, 3)%nat])) demo_amap [].
Proof.
  apply (references_refine demo_amap [(0, 6)%nat] demo_ref_ops [(0, 3)%nat] []); [apply demo_amap_inv| |simpl; lia].
  eapply steps_cons; [apply (step_take _ 0 6); [by left|lia|lia]|].
  eapply steps_cons; [|apply steps_nil]. apply step_give. apply Permutation_swap.
Defined.

Lemma last_drop_releases_witness :
  occupied (slots demo_amap) 1 ∧
  wp (drop_reference 0 6) (λ _ st' _, references st' = 0%nat ∧ ∀ i, ¬ occupied (slots st') i) demo_amap [].
Proof. split; [by exists demo_slot|]. apply (last_drop_releases demo_amap 0 6 []), demo_amap_inv. Defined.

(** Growing backwards by twenty pages needs a larger class. *)
Lemma extend_correct_witness :
  wp (mapref_extend (mkMapRef 0 0 6) 20 true) (λ res w' _,
     match res with
     | Ok r' => world_inv w' (rset 0 [(mr_offset r', mr_length r')] demo_refs) ∧
         extended_ref demo_world w' (mkMapRef 0 0 6) r' (Z.to_nat 20) true
     | Err e => e = OutOfMemory ∧ world_inv w' demo_refs ∧
         ∀ id i, (id ≠ 0%nat ∨ (0 ≤ i < 0 + 6)%nat) → slot_at w' id i = slot_at demo_world id i
     end) demo_world [].
Proof.
  apply (extend_correct demo_world demo_refs (mkMapRef 0 0 6) 20 true []); [apply demo_world_inv|done|done].
Defined.


Lemma commit_correct_witness :
  wp (amap_commit 1 1 (Some demo_slot) (Some (mkSlot 9 (mkPage 8 1))) (Ok ()))
     (λ r st' _, commit_post demo_amap [(0, 6)%nat] 1 (Some demo_slot) (Some (mkSlot 9 (mkPage 8 1))) (Ok ()) r st')
     demo_amap [].
Proof.
  apply (commit_correct demo_amap [(0, 6)%nat] 1 1 (Some demo_slot) (Some (mkSlot 9 (mkPage 8 1))) (Ok ()) []);
    [apply demo_amap_inv|done|done|]. intros r Hr. by simplify_eq.
Defined.
