(* ===== verification/VmMap.v ===== *)
(** The map of a user address space ([mem/map.rs]).

    The entries are indexed by their first address; the arena of [Vmem] holds
    the free address space.  Operations run on [Sys]: the map and the shared
    store of anonymous maps.  Dropping a value that owns references to amaps
    is explicit here ([drop_entry]). *)
From S2P Require Import Prelude.
From S2P Require Import Index.
From S2P Require Import Vmem.
From S2P Require Import Amap.
From S2P Require Import AmapHeap.
Open Scope rust_scope.

Definition PAGE_SIZE : Z := 4096.
(** [USER_ADDRESS_MAX] is a constant of the target. *)
Inductive Arch : Type := X86_64 | Riscv64.
Definition USER_ADDRESS_MAX (a : Arch) : Z :=
  match a with X86_64 => 0x800000000000 | Riscv64 => 0x4000000000 end.
Definition USER_ADDRESS_MIN : Z := 0x10000.

(** [VmProtection]: the flags as bits. *)
Definition READ : Z := 1.
Definition WRITE : Z := 2.
Definition EXECUTE : Z := 4.
Definition prot_contains (p q : Z) : bool := Z.land p q =? q.

Inductive FaultAccess : Type := FaultRead | FaultWrite | FaultExecute.
Inductive VmInheritance : Type := InheritShare | InheritCopy | InheritNone.
Inductive VmAdvice : Type := AdviceNormal | AdviceRandom | AdviceSequential.
#[export] Instance FaultAccess_eq_dec : EqDecision FaultAccess.
Proof. solve_decision. Defined.
#[export] Instance VmInheritance_eq_dec : EqDecision VmInheritance.
Proof. solve_decision. Defined.
#[export] Instance VmAdvice_eq_dec : EqDecision VmAdvice.
Proof. solve_decision. Defined.

Inductive VmPlacement : Type :=
| PlaceAny
| PlaceHint (hint : Z)
| PlaceFixed (start : Z).

(** A VM object: its identity, and whether a pager makes it read-only. *)
Record VmObject : Type := mkObject { object_id : nat; object_read_only : bool }.
#[export] Instance VmObject_eq_dec : EqDecision VmObject.
Proof. solve_decision. Defined.

Inductive VmBacking : Type :=
| BackAnonymous
| BackObject (object : VmObject) (offset : Z) (private : bool).

Record VmMapping : Type := mkMapping {
  mp_placement : VmPlacement;
  mp_length : Z;
  mp_protection : Z;
  mp_maximum : Z;
  mp_inheritance : VmInheritance;
  mp_backing : VmBacking;
}.

Record VmMapEntry : Type := mkEntry {
  e_start : Z;
  e_end : Z;
  e_object : option VmObject;
  e_object_offset : Z;
  e_amap : option MapRef;
  e_protection : Z;
  e_maximum : Z;
  e_inheritance : VmInheritance;
  e_advice : VmAdvice;
  e_private : bool;
  e_needs_copy : bool;
  e_wired : Z;
}.

Definition set_bounds (s t off : Z) (am : option MapRef) (e : VmMapEntry) : VmMapEntry :=
  mkEntry s t (e_object e) off am (e_protection e) (e_maximum e) (e_inheritance e) (e_advice e)
    (e_private e) (e_needs_copy e) (e_wired e).
Definition set_end (t : Z) (e : VmMapEntry) := set_bounds (e_start e) t (e_object_offset e) (e_amap e) e.
Definition set_amap (am : option MapRef) (e : VmMapEntry) :=
  set_bounds (e_start e) (e_end e) (e_object_offset e) am e.
Definition set_protection (p : Z) (e : VmMapEntry) : VmMapEntry :=
  mkEntry (e_start e) (e_end e) (e_object e) (e_object_offset e) (e_amap e) p (e_maximum e)
    (e_inheritance e) (e_advice e) (e_private e) (e_needs_copy e) (e_wired e).
Definition set_advice (a : VmAdvice) (e : VmMapEntry) : VmMapEntry :=
  mkEntry (e_start e) (e_end e) (e_object e) (e_object_offset e) (e_amap e) (e_protection e)
    (e_maximum e) (e_inheritance e) a (e_private e) (e_needs_copy e) (e_wired e).
Definition set_needs_copy (b : bool) (e : VmMapEntry) : VmMapEntry :=
  mkEntry (e_start e) (e_end e) (e_object e) (e_object_offset e) (e_amap e) (e_protection e)
    (e_maximum e) (e_inheritance e) (e_advice e) (e_private e) b (e_wired e).

(** ** Methods of an entry *)

Definition e_contains (e : VmMapEntry) (address : Z) : bool :=
  (e_start e <=? address) && (address <? e_end e).
Definition e_page_offset (e : VmMapEntry) (address : Z) : Z :=
  u64_sub address (e_start e) / PAGE_SIZE.

Definition check_access (e : VmMapEntry) (access : FaultAccess) : result Error () :=
  let required := match access with
                  | FaultRead => READ
                  | FaultWrite => WRITE
                  | FaultExecute => EXECUTE
                  end in
  if negb (prot_contains (e_protection e) required)
     || (negb (e_private e) && prot_contains (e_protection e) WRITE
         && match e_object e with Some object => object_read_only object | None => false end)
  then Err Protection
  else Ok ().

(** [Arc::ptr_eq] compares identities. *)
Definition compatible (e other : VmMapEntry) : bool :=
  (e_protection e =? e_protection other) &&
  (e_maximum e =? e_maximum other) &&
  bool_decide (e_inheritance e = e_inheritance other) &&
  bool_decide (e_advice e = e_advice other) &&
  bool_decide (e_private e = e_private other) &&
  bool_decide (e_needs_copy e = e_needs_copy other) &&
  (e_wired e =? e_wired other) &&
  match e_object e, e_object other with
  | None, None => true
  | Some a, Some b => (object_id a =? object_id b)%nat
  | _, _ => false
  end.

Definition contiguous_object (e next : VmMapEntry) : bool :=
  match e_object e with
  | None => true
  | Some _ =>
      bool_decide (checked_add (e_object_offset e) (u64_sub (e_end e) (e_start e) / PAGE_SIZE)
                   = Some (e_object_offset next))
  end.

(** ** Argument checks *)

Definition checked_page_length (length : Z) : result Error Z :=
  if length =? 0 then Err InvalidAddress
  else
    let mask := PAGE_SIZE - 1 in
    ok_or ((λ value, Z.land value (u64_not mask)) <$> checked_add length mask) InvalidAddress.

Definition placement_error (e : VmemError) : Error :=
  match e with
  | NoSpace | NoMemory => OutOfMemory
  | Invalid => InvalidAddress
  end.

Section map.
Context {tree : Type → Type} `{!RBTree tree}.
Variable arch : Arch.

Definition validate_range (start end_ : Z) : result Error () :=
  if (start <? USER_ADDRESS_MIN)
     || negb (is_multiple_of start PAGE_SIZE)
     || negb (is_multiple_of end_ PAGE_SIZE)
     || (end_ <=? start)
     || (USER_ADDRESS_MAX arch <? end_)
  then Err InvalidAddress
  else Ok ().

Definition checked_end (start length : Z) : result Error Z :=
  if negb (is_multiple_of start PAGE_SIZE) then Err InvalidAddress
  else
    let? length := checked_page_length length in
    let? end_ := ok_or (checked_add start length) InvalidAddress in
    let? _ := validate_range start end_ in
    Ok end_.

Record VmMap : Type := mkMap {
  entries : Index tree VmMapEntry;
  space : Vmem tree;
  size : Z;
  timestamp : Z;
}.
Record Sys : Type := mkSys { vmap : VmMap; world : World }.

Definition with_entries (f : Index tree VmMapEntry → Index tree VmMapEntry) (s : Sys) : Sys :=
  mkSys (mkMap (f (entries (vmap s))) (space (vmap s)) (size (vmap s)) (timestamp (vmap s))) (world s).
Definition with_size (f : Z → Z) (s : Sys) : Sys :=
  mkSys (mkMap (entries (vmap s)) (space (vmap s)) (f (size (vmap s))) (timestamp (vmap s))) (world s).
Definition with_timestamp (f : Z → Z) (s : Sys) : Sys :=
  mkSys (mkMap (entries (vmap s)) (space (vmap s)) (size (vmap s)) (f (timestamp (vmap s)))) (world s).

Definition with_space (v : Vmem tree) (s : Sys) : Sys :=
  mkSys (mkMap (entries (vmap s)) v (size (vmap s)) (timestamp (vmap s))) (world s).
Definition with_world (w : World) (s : Sys) : Sys := mkSys (vmap s) w.

Definition on_entries {A} : M (Index tree VmMapEntry) A → M Sys A :=
  zoom (λ s, entries (vmap s)) (λ i, with_entries (λ _, i)).
Definition on_space {A} : M (Vmem tree) A → M Sys A := zoom (λ s, space (vmap s)) with_space.
Definition on_world {A} : M World A → M Sys A := zoom world with_world.

Definition bump_timestamp : M Sys () :=
  modify (with_timestamp (λ t, let t := u64_add t 1 in if t =? 0 then 1 else t)).
Definition write_locked : M Sys () := bump_timestamp.

(** [VmMap::release] *)
Definition release (start : Z) : M Sys () := do on_space (free start) then ret ().

(** Two adjacent allocations become the reserved one. *)
Definition republish (first second : Z) (reservation : Reservation) : M Sys () :=
  do on_space (free first) then
  do on_space (free second) then
  on_space (alloc_reserved reservation).

(** Dropping an entry drops its reference. *)
Definition drop_entry (e : VmMapEntry) : M Sys () :=
  match e_amap e with
  | Some r => on_world (mapref_drop r)
  | None => ret ()
  end.

(** [VmMapEntry::clipped] *)
Definition clipped (e : VmMapEntry) (start end_ : Z) : M Sys (result Error VmMapEntry) :=
  let page_delta := u64_sub start (e_start e) / PAGE_SIZE in
  let! object_offset := ret (ok_or (checked_add (e_object_offset e) page_delta) InvalidAddress) in
  let* am :=
    (match e_amap e with
     | None => ret None
     | Some r =>
         let* r' := on_world (mapref_clipped r (Z.to_nat (u64_add (Z.of_nat (mr_offset r)) page_delta))
                                               (Z.to_nat (u64_sub end_ start / PAGE_SIZE))) in
         ret (Some r')
     end) in
  ret (Ok (set_bounds start end_ object_offset am e)).

(** ** Placement *)

(** [VmMap::new] *)
Definition map_new {St} : M St (result Error VmMap) :=
  let* v := expect (vmem_new PAGE_SIZE) in
  let* '(r, v) := run_on v (add_span USER_ADDRESS_MIN (u64_sub (USER_ADDRESS_MAX arch) USER_ADDRESS_MIN)) in
  let! _ := ret (map_err placement_error r) in
  ret (Ok (mkMap index_new v 0 1)).

(** [VmMap::reserve]; [entropy] is the word that [random::fill_bytes] gives. *)
Definition reserve (placement : VmPlacement) (length entropy : Z) : M Sys (result Error Z) :=
  match placement with
  | PlaceAny =>
      let* r := on_space (alloc_random length PAGE_SIZE entropy) in
      ret (map_err placement_error r)
  | PlaceHint hint =>
      let hint := Z.max hint USER_ADDRESS_MIN in
      let rounded := (λ value, Z.land value (u64_not (PAGE_SIZE - 1))) <$>
                     checked_add hint (PAGE_SIZE - 1) in
      let* hinted :=
        (match rounded with
         | Some hint =>
             if hint <? USER_ADDRESS_MAX arch then
               let* r := on_space (xalloc length PAGE_SIZE hint (USER_ADDRESS_MAX arch) Instant) in
               ret (result_ok r)
             else ret None
         | None => ret None
         end) in
      match hinted with
      | Some base => ret (Ok base)
      | None =>
          let* r := on_space (alloc length PAGE_SIZE Instant) in
          ret (map_err placement_error r)
      end
  | PlaceFixed start =>
      let! end_ := ret (ok_or (checked_add start length) InvalidAddress) in
      let! _ := ret (validate_range start end_) in
      let* r := on_space (alloc_fixed start length) in
      ret (map_err placement_error (match r with Ok _ => Ok start | Err e => Err e end))
  end.

(** [VmMap::is_free] *)
Definition map_is_free (start length : Z) : M Sys bool :=
  match checked_page_length length with
  | Ok length => on_space (is_free start length)
  | Err _ => ret false
  end.

(** ** Entries *)

Definition get_entry (key : Z) : M Sys (option VmMapEntry) :=
  gets (λ s, index_get key (entries (vmap s))).
Definition update_entry (key : Z) (f : VmMapEntry → VmMapEntry) : M Sys () :=
  modify (with_entries (index_update key f)).

(** [VmMap::entry]: the entry that contains an address. *)
Definition entry_at (address : Z) (m : VmMap) : option (Z * VmMapEntry) :=
  match last (range Unbounded (Included address) (entries m)) with
  | Some (key, e) => if e_contains e address then Some (key, e) else None
  | None => None
  end.
Definition entry (address : Z) : M Sys (result Error VmMapEntry) :=
  gets (λ s, ok_or (snd <$> entry_at address (vmap s)) NotMapped).
Definition lookup_entry (address : Z) : M Sys (option VmMapEntry) :=
  let* r := entry address in ret (result_ok r).

(** [amap.as_ref().is_none_or(MapRef::is_exclusive)] *)
Definition none_or_exclusive (am : option MapRef) : M Sys bool :=
  match am with
  | None => ret true
  | Some r => on_world (is_exclusive r)
  end.

(** [if let Some(amap) = &mut entry.amap && amap.extend(..).is_err()]: whether
    the entry at [key] could be extended. *)
Definition extend_entry (key added : Z) (backwards : bool) : M Sys bool :=
  let* e := get_entry key in
  let* e := expect e in
  match e_amap e with
  | None => ret true
  | Some r =>
      let* res := on_world (mapref_extend r added backwards) in
      match res with
      | Ok r' => do update_entry key (set_amap (Some r')) then ret true
      | Err _ => ret false
      end
  end.

(** [VmMap::merge_following] *)
Definition merge_following (key : Z) : M Sys () :=
  let* lower := get_entry key in
  let* lower := expect lower in
  let end_ := e_end lower in
  let* upper := get_entry end_ in
  match upper with
  | None => ret ()
  | Some upper =>
      if negb (compatible lower upper) || negb (contiguous_object lower upper)
         || (bool_decide (is_Some (e_amap lower)) && bool_decide (is_Some (e_amap upper)))
      then ret ()
      else
        let* exclusive := none_or_exclusive (e_amap upper) in
        if negb exclusive then ret ()
        else
          let right_end := e_end upper in
          let* reservation := on_space (reserve_fixed key (u64_sub right_end key)) in
          match reservation with
          | Err _ => ret ()
          | Ok reservation =>
              let* extended :=
                (match e_amap lower with
                 | Some _ => extend_entry key (u64_sub right_end end_ / PAGE_SIZE) false
                 | None =>
                     match e_amap upper with
                     | Some _ => extend_entry end_ (u64_sub end_ key / PAGE_SIZE) true
                     | None => ret true
                     end
                 end) in
              if negb extended then ret ()
              else
                let* upper := on_entries (index_remove end_) in
                let* upper := expect upper in
                do update_entry key (λ lower,
                     set_bounds (e_start lower) right_end (e_object_offset lower)
                       (match e_amap lower with None => e_amap upper | Some r => Some r end) lower) then
                republish key end_ reservation
          end
  end.

(** [VmMap::merge_new] *)
Definition merge_new (e : VmMapEntry) : M Sys bool :=
  let added := u64_sub (e_end e) (e_start e) / PAGE_SIZE in
  let* s := get in
  let* previous :=
    (match last (range Unbounded (Excluded (e_start e)) (entries (vmap s))) with
     | None => ret None
     | Some (key, previous) =>
         if (e_end previous =? e_start e) && compatible previous e && contiguous_object previous e then
           let* exclusive := none_or_exclusive (e_amap previous) in
           ret (if (exclusive : bool) then Some key else None)
         else ret None
     end) in
  match previous with
  | Some key =>
      let* reservation := on_space (reserve_fixed key (u64_sub (e_end e) key)) in
      match reservation with
      | Err _ => ret false
      | Ok reservation =>
          let* extended := extend_entry key added false in
          if negb extended then ret false
          else
            do update_entry key (set_end (e_end e)) then
            do republish key (e_start e) reservation then
            do merge_following key then
            ret true
      end
  | None =>
      let* next := get_entry (e_end e) in
      match next with
      | None => ret false
      | Some next =>
          if negb (compatible e next) || negb (contiguous_object e next) then ret false
          else
            let* exclusive := none_or_exclusive (e_amap next) in
            if negb exclusive then ret false
            else
              let* reservation := on_space (reserve_fixed (e_start e) (u64_sub (e_end next) (e_start e))) in
              match reservation with
              | Err _ => ret false
              | Ok reservation =>
                  let* extended := extend_entry (e_end e) added true in
                  if negb extended then ret false
                  else
                    do update_entry (e_end e) (λ next,
                         set_bounds (e_start e) (e_end next) (e_object_offset e) (e_amap next) next) then
                    do republish (e_end e) (e_start e) reservation then
                    do on_entries (rekey (e_end e) (e_start e)) then
                    ret true
              end
      end
  end.

(** [VmMap::insert]: the range is already reserved in the arena. *)
Definition insert_entry (e : VmMapEntry) : M Sys (result Error Z) :=
  match validate_range (e_start e) (e_end e) with
  | Err error => do release (e_start e) then ret (Err error)
  | Ok _ =>
      if negb (prot_contains (e_maximum e) (e_protection e)) then
        do release (e_start e) then ret (Err Protection)
      else
        let* merged := merge_new e in
        if (merged : bool) then
          do modify (with_size (λ n, u64_add n (u64_sub (e_end e) (e_start e)))) then
          do bump_timestamp then
          ret (Ok (e_start e))
        else
          let* node := reserve_new (e_start e) in
          match node with
          | Err error => do release (e_start e) then ret (Err error)
          | Ok node =>
              do modify (with_size (λ n, u64_add n (u64_sub (e_end e) (e_start e)))) then
              do on_entries (index_insert (e_start e) e (Some node)) then
              do bump_timestamp then
              ret (Ok (e_start e))
          end
  end.

(** [VmMap::map] *)
Definition map (mapping : VmMapping) (entropy : Z) : M Sys (result Error Z) :=
  let! length := ret (checked_page_length (mp_length mapping)) in
  let! backing :=
    (match mp_backing mapping with
     | BackAnonymous =>
         if bool_decide (mp_inheritance mapping = InheritShare) then
           let* id := on_world fresh_id in
           ret (Ok (Some (mkObject id false), 0, false))
         else ret (Ok (None, 0, true))
     | BackObject object offset private =>
         if negb (is_multiple_of offset PAGE_SIZE) then ret (Err InvalidAddress)
         else ret (Ok (Some object, offset / PAGE_SIZE, private))
     end) in
  let '(object, object_offset, private) := backing in
  let! start := reserve (mp_placement mapping) length entropy in
  insert_entry (mkEntry start (u64_add start length) object object_offset None
    (mp_protection mapping) (mp_maximum mapping) (mp_inheritance mapping) AdviceNormal
    private private 0).

(** [VmMap::clip_at]: split the entry that crosses [boundary]. *)
Definition clip_at (boundary : Z) : M Sys (result Error ()) :=
  let* s := get in
  match last (range Unbounded (Excluded boundary) (entries (vmap s))) with
  | None => ret (Ok ())
  | Some (key, e) =>
      if e_end e <=? boundary then ret (Ok ())
      else
        let! node := reserve_new boundary in
        let* left_reservation := on_space (reserve_fixed key (u64_sub boundary key)) in
        let! left_reservation := ret (map_err placement_error left_reservation) in
        let* right_reservation := on_space (reserve_fixed boundary (u64_sub (e_end e) boundary)) in
        let! right_reservation := ret (map_err placement_error right_reservation) in
        let! lower := clipped e key boundary in
        let* upper := clipped e boundary (e_end e) in
        match upper with
        | Err error => do drop_entry lower then ret (Err error)
        | Ok upper =>
            do on_space (free key) then
            do on_space (alloc_reserved left_reservation) then
            do on_space (alloc_reserved right_reservation) then
            let* old := on_entries (index_insert key lower None) in
            do (match old with Some old => drop_entry old | None => ret () end) then
            do on_entries (index_insert boundary upper (Some node)) then
            do bump_timestamp then
            ret (Ok ())
        end
  end.

(** [VmMap::overlapping] *)
Definition overlapping (start end_ : Z) (m : VmMap) : list (Z * VmMapEntry) :=
  let first := match last (range Unbounded (Included start) (entries m)) with
               | Some (key, _) => key
               | None => start
               end in
  filter (λ p, start < e_end p.2) (range (Included first) (Excluded end_) (entries m)).

(** [VmMap::check_coverage] *)
Fixpoint coverage (covered : Z) (l : list (Z * VmMapEntry)) : option Z :=
  match l with
  | [] => Some covered
  | (_, e) :: l => if covered <? e_start e then None else coverage (e_end e) l
  end.
Definition check_coverage (start end_ : Z) (m : VmMap) : result Error () :=
  match coverage start (overlapping start end_ m) with
  | None => Err NotMapped
  | Some covered => if covered <? end_ then Err NotMapped else Ok ()
  end.

(** The loop of [unmap] over the detached entries. *)
Fixpoint release_all (l : list VmMapEntry) : M Sys () :=
  match l with
  | [] => ret ()
  | e :: l =>
      do modify (with_size (λ n, u64_sub n (u64_sub (e_end e) (e_start e)))) then
      do release (e_start e) then
      release_all l
  end.

(** [VmMap::unmap]; the result holds the detached entries. *)
Definition unmap (start length : Z) : M Sys (result Error (Index tree VmMapEntry)) :=
  let! end_ := ret (checked_end start length) in
  let! _ := clip_at start in
  let! _ := clip_at end_ in
  let* s := get in
  let '(detached, rest) := extract_range start end_ (entries (vmap s)) in
  do modify (with_entries (λ _, rest)) then
  if len detached =? 0 then ret (Err NotMapped)
  else
    do release_all (values detached) then
    do bump_timestamp then
    ret (Ok detached).

(** [Drop for DetachedEntries], after hardware teardown. *)
Fixpoint drop_entries (l : list VmMapEntry) : M Sys () :=
  match l with
  | [] => ret ()
  | e :: l => do drop_entry e then drop_entries l
  end.
Definition drop_detached (detached : Index tree VmMapEntry) : M Sys () :=
  drop_entries (values detached).

(** [VmMap::protect] *)
Definition protect (start length protection : Z) : M Sys (result Error ()) :=
  let! end_ := ret (checked_end start length) in
  let* s := get in
  let! _ := ret (check_coverage start end_ (vmap s)) in
  if existsb (λ p, negb (prot_contains (e_maximum p.2) protection)) (overlapping start end_ (vmap s))
  then ret (Err Protection)
  else
    let! _ := clip_at start in
    let! _ := clip_at end_ in
    do modify (with_entries (range_update (Included start) (Excluded end_) (set_protection protection))) then
    do bump_timestamp then
    ret (Ok ()).

(** [VmMap::advise] *)
Definition advise (start length : Z) (advice : VmAdvice) : M Sys (result Error ()) :=
  let! end_ := ret (checked_end start length) in
  let* s := get in
  let! _ := ret (check_coverage start end_ (vmap s)) in
  let! _ := clip_at start in
  let! _ := clip_at end_ in
  do modify (with_entries (range_update (Included start) (Excluded end_) (set_advice advice))) then
  do bump_timestamp then
  ret (Ok ()).

(** ** Faults *)

Record FaultWindow : Type := mkWindow {
  fw_start : Z;
  fw_count : Z;
  fw_center : Z;
  fw_sequential : bool;
}.

Definition fault_window (e : VmMapEntry) (address : Z) (access : FaultAccess) : FaultWindow :=
  let '(back, forward) :=
    if bool_decide (is_Some (e_object e)) && bool_decide (is_Some (e_amap e))
       && bool_decide (access = FaultWrite)
    then (0, 0)
    else match e_advice e with
         | AdviceRandom => (0, 0)
         | AdviceSequential => (8, 7)
         | AdviceNormal => (3, 4)
         end in
  let back := Z.min back (u64_sub address (e_start e) / PAGE_SIZE) in
  let forward := Z.min forward (u64_sub (u64_sub (e_end e) address / PAGE_SIZE) 1) in
  mkWindow (u64_sub address (u64_mul back PAGE_SIZE)) (back + forward + 1) back
           (bool_decide (e_advice e = AdviceSequential)).

Record FaultSnapshot : Type := mkSnapshot {
  fs_anonymous : option nat;
  fs_index : Z;
  fs_source : option Slot;
  fs_object : option VmObject;
  fs_object_index : Z;
  fs_protection : Z;
  fs_private : bool;
  fs_needs_copy : bool;
  fs_access : FaultAccess;
  fs_window : FaultWindow;
}.

(** [VmMap::fault_snapshot]; [None] asks for [prepare_copy]. *)
Definition fault_snapshot (address : Z) (access : FaultAccess) :
    M Sys (result Error (option FaultSnapshot)) :=
  let! e := entry address in
  let! _ := ret (check_access e access) in
  if e_needs_copy e && (bool_decide (access = FaultWrite) || bool_decide (e_object e = None))
  then ret (Ok None)
  else
    let base := Z.land address (u64_not (PAGE_SIZE - 1)) in
    let relative := e_page_offset e base in
    let index := u64_add (match e_amap e with Some r => Z.of_nat (mr_offset r) | None => 0 end) relative in
    let* source :=
      (match e_amap e with
       | Some r => on_world (on_amap (mr_map r) (gets (amap_lookup (Z.to_nat index))))
       | None => ret None
       end) in
    ret (Ok (Some (mkSnapshot (mr_map <$> e_amap e) index source (e_object e)
      (u64_add (e_object_offset e) relative) (e_protection e) (e_private e) (e_needs_copy e) access
      (fault_window e base access)))).

(** [VmMap::prepare_copy] *)
Definition prepare_copy (address : Z) (access : FaultAccess) : M Sys (result Error ()) :=
  let! e := entry address in
  let! _ := ret (check_access e access) in
  if negb (e_needs_copy e) then ret (Ok ())
  else
    let! _ :=
      (if bool_decide (e_amap e = None) && (LARGE_PAGES <=? u64_sub (e_end e) (e_start e) / PAGE_SIZE) then
         let chunk_bytes := CHUNK_PAGES * PAGE_SIZE in
         let start := Z.max (address / chunk_bytes * chunk_bytes) (e_start e) in
         let end_ := Z.min (u64_add (address / chunk_bytes * chunk_bytes) chunk_bytes) (e_end e) in
         let! _ := clip_at start in
         clip_at end_
       else ret (Ok ())) in
    let* s := get in
    let! found := ret (ok_or (entry_at address (vmap s)) NotMapped) in
    let '(key, e) := found in
    let pages := u64_sub (e_end e) (e_start e) / PAGE_SIZE in
    let! _ :=
      (match e_amap e with
       | Some r =>
           let* exclusive := on_world (is_exclusive r) in
           if (exclusive : bool) then ret (Ok ())
           else
             let! r' := on_world (mapref_slice r (mr_offset r) (Z.to_nat pages)) in
             do update_entry key (set_amap (Some r')) then
             do on_world (mapref_drop r) then
             ret (Ok ())
       | None =>
           let! r := on_world (anonymous_allocate pages) in
           do update_entry key (set_amap (Some r)) then
           ret (Ok ())
       end) in
    do update_entry key (set_needs_copy false) then
    do bump_timestamp then
    ret (Ok ()).

(** ** Fork *)

(** [VmMapEntry: Clone] *)
Definition clone_entry (e : VmMapEntry) : M Sys VmMapEntry :=
  match e_amap e with
  | Some r => let* r' := on_world (mapref_clone r) in ret (set_amap (Some r') e)
  | None => ret e
  end.

(** The child's entry for the parent's entry [e]. *)
Definition child_entry (e : VmMapEntry) (copy_writers : bool) : M Sys (result Error VmMapEntry) :=
  let* c := clone_entry e in
  do (match e_inheritance c, e_amap c with
      | InheritShare, Some r => on_world (mark_shared r)
      | _, _ => ret ()
      end) then
  if bool_decide (e_inheritance c = InheritCopy) && e_private c then
    let c := set_needs_copy true c in
    match copy_writers, e_amap e with
    | true, Some r =>
        let* copied := on_world (copy_for_fork r (mr_offset r)
                                   (Z.to_nat (u64_sub (e_end e) (e_start e) / PAGE_SIZE))) in
        match copied with
        | Err error => do drop_entry c then ret (Err error)
        | Ok None => ret (Ok c)
        | Ok (Some r') =>
            do drop_entry c then
            ret (Ok (set_needs_copy false (set_amap (Some r') c)))
        end
    | _, _ => ret (Ok c)
    end
  else ret (Ok c).

(** The loop of [fork]; here the map of the state is the child. *)
Fixpoint fork_entries (l : list VmMapEntry) (copy_writers : bool) : M Sys (result Error ()) :=
  match l with
  | [] => ret (Ok ())
  | e :: l =>
      if bool_decide (e_inheritance e = InheritNone) then fork_entries l copy_writers
      else
        let! c := child_entry e copy_writers in
        let* node := reserve_new (e_start c) in
        match node with
        | Err error => do drop_entry c then ret (Err error)
        | Ok node =>
            let* r := on_space (alloc_fixed (e_start c) (u64_sub (e_end c) (e_start c))) in
            match r with
            | Err error => do drop_entry c then ret (Err (placement_error error))
            | Ok _ =>
                do modify (with_size (λ n, u64_add n (u64_sub (e_end c) (e_start c)))) then
                do on_entries (index_insert (e_start c) c (Some node)) then
                fork_entries l copy_writers
            end
        end
  end.

(** [VmMap::fork]; a child that could not be completed is dropped. *)
Definition fork (copy_writers : bool) : M Sys (result Error VmMap) :=
  let! child := map_new in
  let* s := get in
  let* '(r, t) := run_on (mkSys child (world s)) (
    let* r := fork_entries (values (entries (vmap s))) copy_writers in
    match r with
    | Ok _ => ret (Ok ())
    | Err error =>
        let* t := get in
        do drop_entries (values (entries (vmap t))) then
        ret (Err error)
    end) in
  do modify (with_world (world t)) then
  let! _ := ret r in
  do modify (with_entries (range_update Unbounded Unbounded (λ e,
       if bool_decide (e_inheritance e = InheritCopy) && e_private e
       then set_needs_copy true e else e))) then
  do bump_timestamp then
  let* s := get in
  ret (Ok (mkMap (entries (vmap t)) (space (vmap t)) (size (vmap t)) (timestamp (vmap s)))).
End map.
Arguments VmMap : clear implicits.
Arguments Sys : clear implicits.
