(* ===== verification/VmMapInv.v ===== *)
(** The invariant of an address map ([mem/map.rs]) and what a map shows at each
    address.

    [map_inv s R0]: the entries and the allocations of the arena are in exact
    correspondence, the entries are page aligned and inside the user range, the
    size is the sum of their lengths, and every amap is referenced exactly by
    the entries and by the references [R0] held elsewhere. *)
From S2P Require Import Prelude.
From S2P Require Import Index.
From S2P Require Import Tags.
From S2P Require Import Vmem.
From S2P Require Import VmemInv.
From S2P Require Import VmemFit.
From S2P Require Import VmemOps.
From S2P Require Import Amap.
From S2P Require Import AmapInv.
From S2P Require Import AmapSpec.
From S2P Require Import AmapHeap.
From S2P Require Import AmapHeapSpec.
From S2P Require Import VmMap.
Open Scope rust_scope.

Definition elen (e : VmMapEntry) : Z := e_end e - e_start e.
Definition pages (e : VmMapEntry) : nat := Z.to_nat (elen e / PAGE_SIZE).

(** The reference an entry holds to the amap [id]. *)
Definition ref_to (id : nat) (e : VmMapEntry) : option (nat * nat) :=
  match e_amap e with
  | Some r => if decide (mr_map r = id) then Some (mr_offset r, mr_length r) else None
  | None => None
  end.
Definition refs_of (E : gmap Z VmMapEntry) (id : nat) : list (nat * nat) :=
  omap (λ p, ref_to id p.2) (map_to_list E).
Definition radd (e : VmMapEntry) (R : refmap) : refmap :=
  λ id, match ref_to id e with Some p => p :: R id | None => R id end.

(** References as multisets: [refmap]s up to permutation. *)
Definition req (R R' : refmap) : Prop := ∀ id, R id ≡ₚ R' id.
#[export] Instance req_equiv : Equivalence req.
Proof.
  unfold req. split; [intros x id; reflexivity| |].
  - intros x y H id. by rewrite H.
  - intros x y z H1 H2 id. by rewrite H1.
Qed.

#[export] Instance radd_proper : Proper (eq ==> req ==> req) radd.
Proof. intros e ? <- R R' HR id. unfold radd. destruct (ref_to id e); by rewrite (HR id). Qed.

Lemma radd_comm e e' R : req (radd e (radd e' R)) (radd e' (radd e R)).
Proof.
  intros id. unfold radd. destruct (ref_to id e), (ref_to id e'); try done. apply Permutation_swap.
Qed.

Lemma world_inv_req w R R' : req R R' → world_inv w R → world_inv w R'.
Proof.
  intros HR []. split; try done.
  - intros id am Hid. eapply amap_inv_perm; [apply HR|auto].
  - intros id Hne. apply wi_live. intros E. apply Hne. specialize (HR id). rewrite E in HR.
    by apply Permutation_nil_l in HR.
Qed.
#[export] Instance world_inv_proper w : Proper (req ==> iff) (world_inv w).
Proof. intros R R' HR. split; apply world_inv_req; [done|by symmetry]. Qed.

(** ** References of a map of entries *)

Definition rapp (R R' : refmap) : refmap := λ id, R id ++ R' id.
#[export] Instance rapp_proper : Proper (req ==> req ==> req) rapp.
Proof. intros R1 R1' H1 R2 R2' H2 id. unfold rapp. by rewrite (H1 id), (H2 id). Qed.

Lemma rapp_radd e R R' : req (rapp (radd e R) R') (radd e (rapp R R')).
Proof. intros id. unfold rapp, radd. by destruct (ref_to id e). Qed.

Lemma refs_insert E k e :
  E !! k = None → req (refs_of (<[k := e]> E)) (radd e (refs_of E)).
Proof.
  intros Hk id. unfold refs_of, radd. rewrite map_to_list_insert by done. simpl.
  by destruct (ref_to id e).
Qed.

Lemma refs_delete E k e :
  E !! k = Some e → req (refs_of E) (radd e (refs_of (delete k E))).
Proof.
  intros Hk. rewrite <- (insert_delete_id E k e) at 1 by done. apply refs_insert. apply lookup_delete_eq.
Qed.

Lemma refs_update E k e e' :
  E !! k = Some e → req (radd e (refs_of (<[k := e']> E))) (radd e' (refs_of E)).
Proof.
  intros Hk. rewrite (refs_delete E k e Hk), <- insert_delete_eq.
  rewrite refs_insert by apply lookup_delete_eq. apply radd_comm.
Qed.

Lemma refs_empty : req (refs_of ∅) (λ _, []).
Proof. intros id. unfold refs_of. by rewrite map_to_list_empty. Qed.

(** An entry without an amap adds nothing. *)
Lemma radd_none e R : e_amap e = None → req (radd e R) R.
Proof. intros He id. unfold radd, ref_to. by rewrite He. Qed.

Lemma radd_same e e' R : e_amap e = e_amap e' → req (radd e R) (radd e' R).
Proof. intros He id. unfold radd, ref_to. by rewrite He. Qed.

Lemma radd_cancel e R R' : req (radd e R) (radd e R') → req R R'.
Proof.
  intros H id. specialize (H id). unfold radd in H. destruct (ref_to id e); [|done].
  by apply Permutation_cons_inv in H.
Qed.

Lemma radd_in e R r : e_amap e = Some r → (mr_offset r, mr_length r) ∈ radd e R (mr_map r).
Proof. intros He. unfold radd, ref_to. rewrite He, decide_True by done. left. Qed.

Lemma radd_rset e R r :
  e_amap e = Some r → req (radd e R) (rset (mr_map r) ((mr_offset r, mr_length r) :: R (mr_map r)) R).
Proof.
  intros He id. unfold radd, ref_to, rset. rewrite He. repeat case_decide; subst; done.
Qed.

(** ** The invariant *)

(** Page numbers stay far below the width of their type. *)
Definition offset_ok (e : VmMapEntry) : Prop :=
  0 ≤ e_object_offset e ∧
  match e_object e with
  | None => e_object_offset e ≤ e_start e / PAGE_SIZE
  | Some _ => e_object_offset e + elen e / PAGE_SIZE ≤ 9007199254740992
  end.

Section inv.
Context {tree : Type → Type} `{!RBTree tree, !RBTreeLaws tree}.
Variable arch : Arch.
Implicit Types (s : Sys tree) (m : VmMap tree) (E : gmap Z VmMapEntry) (R : refmap) (o : oracle).

Definition emap m : gmap Z VmMapEntry := index_map (entries m).

(** Page aligned, non-empty, in the user range; the reference is as long as
    the entry. *)
Record entry_wf (k : Z) (e : VmMapEntry) : Prop := {
  ew_start : e_start e = k;
  ew_low : USER_ADDRESS_MIN ≤ e_start e;
  ew_lt : e_start e < e_end e;
  ew_high : e_end e ≤ USER_ADDRESS_MAX arch;
  ew_astart : e_start e mod PAGE_SIZE = 0;
  ew_aend : e_end e mod PAGE_SIZE = 0;
  ew_offset : offset_ok e;
  ew_amap r : e_amap e = Some r → mr_length r = pages e;
}.

(** The arena side: one span of pages, the whole user range, and exactly the
    entries allocated. *)
Record arena_is (v : Vmem tree) (A : gmap Z Z) : Prop := {
  ar_inv : vmem_inv v;
  ar_quantum : quantum v = PAGE_SIZE;
  ar_span : one_span USER_ADDRESS_MIN (tags v);
  ar_alloc : allocated v = A;
  ar_managed a : managed (tags v) a ↔ USER_ADDRESS_MIN ≤ a < USER_ADDRESS_MAX arch;
}.
Definition arena_ok (v : Vmem tree) E : Prop := arena_is v (elen <$> E).

Record map_inv s R0 : Prop := {
  mi_index : index_ok (entries (vmap s));
  mi_wf k e : emap (vmap s) !! k = Some e → entry_wf k e;
  mi_arena : arena_ok (space (vmap s)) (emap (vmap s));
  mi_size : size (vmap s) = msum elen (emap (vmap s));
  mi_time : 0 < timestamp (vmap s) < two64;
  mi_world : world_inv (world s) (rapp (refs_of (emap (vmap s))) R0);
}.

(** ** What a map shows at an address *)

Record PageView : Type := mkView {
  pv_object : option nat;
  pv_index : Z;
  pv_slot : option Slot;
  pv_protection : Z;
  pv_maximum : Z;
  pv_inheritance : VmInheritance;
  pv_advice : VmAdvice;
  pv_private : bool;
  pv_needs_copy : bool;
  pv_wired : Z;
}.

Definition slot_of (w : World) (e : VmMapEntry) (a : Z) : option Slot :=
  match e_amap e with
  | Some r => slot_at w (mr_map r) (mr_offset r + Z.to_nat ((a - e_start e) / PAGE_SIZE))
  | None => None
  end.
Definition page_view (w : World) (e : VmMapEntry) (a : Z) : PageView :=
  mkView (object_id <$> e_object e)
    (match e_object e with Some _ => e_object_offset e + (a - e_start e) / PAGE_SIZE | None => 0 end)
    (slot_of w e a) (e_protection e) (e_maximum e) (e_inheritance e) (e_advice e) (e_private e)
    (e_needs_copy e) (e_wired e).
Definition inside_entry (e : VmMapEntry) (a : Z) : Prop := e_start e ≤ a < e_end e.
#[export] Instance inside_entry_dec e a : Decision (inside_entry e a).
Proof. unfold inside_entry. apply _. Defined.

Definition view s (a : Z) : option PageView :=
  (λ p, page_view (world s) p.2 a) <$> entry_at a (vmap s).

(** ** Facts *)

(** The same, on the map of entries. *)
Definition shows (w : World) E (a : Z) (pv : PageView) : Prop :=
  ∃ k e, E !! k = Some e ∧ inside_entry e a ∧ pv = page_view w e a.
Definition disjoint_entries E : Prop :=
  ∀ k1 e1 k2 e2, E !! k1 = Some e1 → E !! k2 = Some e2 → k1 < k2 → e_end e1 ≤ k2.

Lemma allocated_tag v k n :
  allocated v !! k = Some n ↔ ∃ t, tags v !! k = Some t ∧ t_free t = false ∧ t_size t = n.
Proof.
  unfold allocated. rewrite lookup_allocs. split.
  - intros (t & Ht & Ha)%bind_Some. unfold alloc_of in Ha. destruct (t_free t) eqn:E; simplify_eq. eauto.
  - intros (t & -> & Hf & <-). simpl. unfold alloc_of. by rewrite Hf.
Qed.

Lemma arena_alloc v E k e : arena_ok v E → E !! k = Some e → allocated v !! k = Some (elen e).
Proof. intros Ha Hk. by rewrite (ar_alloc _ _ Ha), lookup_fmap, Hk. Qed.

Lemma arena_disjoint v E :
  arena_ok v E → (∀ k e, E !! k = Some e → entry_wf k e) → disjoint_entries E.
Proof.
  intros Ha Hwf k1 e1 k2 e2 H1 H2 Hlt. pose proof (ar_inv _ _ Ha) as [FL Hinv].
  apply (arena_alloc v) in H1 as A1; [|done]. apply (arena_alloc v) in H2 as A2; [|done].
  apply allocated_tag in A1 as (t1 & T1 & _ & L1). apply allocated_tag in A2 as (t2 & T2 & _ & _).
  pose proof (wf_disjoint _ _ (inv_wf _ _ Hinv) _ _ _ _ T1 T2 Hlt).
  pose proof (ew_start _ _ (Hwf _ _ H1)). unfold elen in L1. lia.
Qed.

Lemma map_disjoint s R0 : map_inv s R0 → disjoint_entries (emap (vmap s)).
Proof. intros Hm. eapply arena_disjoint; apply Hm. Qed.

Lemma inside_unique E k1 e1 k2 e2 a :
  disjoint_entries E → (∀ k e, E !! k = Some e → entry_wf k e) →
  E !! k1 = Some e1 → E !! k2 = Some e2 → inside_entry e1 a → inside_entry e2 a → k1 = k2 ∧ e1 = e2.
Proof.
  intros Hd Hwf H1 H2 I1 I2. unfold inside_entry in *.
  pose proof (ew_start _ _ (Hwf _ _ H1)). pose proof (ew_start _ _ (Hwf _ _ H2)).
  destruct (Z.lt_trichotomy k1 k2) as [Hlt|[->|Hlt]].
  - pose proof (Hd _ _ _ _ H1 H2 Hlt). lia.
  - by simplify_eq.
  - pose proof (Hd _ _ _ _ H2 H1 Hlt). lia.
Qed.

(** [entry] finds the entry that contains the address. *)
Lemma entry_at_spec s R0 a :
  map_inv s R0 →
  match entry_at a (vmap s) with
  | Some (k, e) => emap (vmap s) !! k = Some e ∧ inside_entry e a
  | None => ∀ k e, emap (vmap s) !! k = Some e → ¬ inside_entry e a
  end.
Proof.
  intros Hm. unfold entry_at. pose proof (mi_index _ _ Hm) as Hok. unfold inside_entry.
  destruct (last (range Unbounded (Included a) (entries (vmap s)))) as [[k e]|] eqn:El.
  - apply range_last_Some in El as (Hk & Hle & Hmax); [|done]. simpl in Hle. apply Z.leb_le in Hle.
    pose proof (ew_start _ _ (mi_wf _ _ Hm _ _ Hk)) as Hs. unfold e_contains.
    destruct ((e_start e <=? a) && (a <? e_end e)) eqn:Ec.
    + apply andb_true_iff in Ec as [?%Z.leb_le ?%Z.ltb_lt]. split; [done|lia].
    + apply andb_false_iff in Ec. intros k' e' Hk' Hin.
      pose proof (ew_start _ _ (mi_wf _ _ Hm _ _ Hk')) as Hs'.
      assert (k' ≤ k) by (eapply Hmax; [done|simpl; apply Z.leb_le; lia]).
      destruct (decide (k' = k)) as [->|Hne].
      * assert (e' = e) as -> by (unfold emap in Hk'; congruence). rewrite Z.leb_gt, Z.ltb_ge in Ec. lia.
      * pose proof (map_disjoint _ _ Hm k' e' k e Hk' Hk ltac:(lia)). lia.
  - intros k e Hk Hin. eapply range_last_None in El; [|done..]. simpl in El. apply Z.leb_gt in El.
    pose proof (ew_start _ _ (mi_wf _ _ Hm _ _ Hk)). lia.
Qed.

Lemma view_shows s R0 a pv :
  map_inv s R0 → view s a = Some pv ↔ shows (world s) (emap (vmap s)) a pv.
Proof.
  intros Hm. unfold view, shows. pose proof (entry_at_spec s R0 a Hm) as He.
  destruct (entry_at a (vmap s)) as [[k e]|]; simpl.
  - destruct He as [Hk Hin]. split; [intros [= <-]; by exists k, e|]. intros (k' & e' & Hk' & Hin' & ->).
    destruct (inside_unique _ k e k' e' a (map_disjoint _ _ Hm) (mi_wf _ _ Hm)) as [-> ->]; done.
  - split; [done|]. intros (k' & e' & Hk' & Hin' & ->). by destruct (He k' e').
Qed.

Lemma view_None s R0 a :
  map_inv s R0 → view s a = None ↔ ∀ pv, ¬ shows (world s) (emap (vmap s)) a pv.
Proof.
  intros Hm. split.
  - intros Hn pv Hs%(view_shows _ R0); [|done]. congruence.
  - intros Hn. destruct (view s a) eqn:E; [|done]. apply (view_shows _ R0) in E; [|done]. by destruct (Hn p).
Qed.

Lemma view_eq s s' R0 R0' a a' :
  map_inv s R0 → map_inv s' R0' →
  (∀ pv, shows (world s') (emap (vmap s')) a' pv ↔ shows (world s) (emap (vmap s)) a pv) →
  view s' a' = view s a.
Proof.
  intros Hm Hm' Hiff. destruct (view s a) as [pv|] eqn:E.
  - apply (view_shows _ R0'); [done|]. apply Hiff. by apply (view_shows _ R0).
  - apply (view_None _ R0'); [done|]. intros pv Hs. apply Hiff in Hs.
    by apply (proj1 (view_None s R0 a Hm) E pv).
Qed.
End inv.
