(* ===== verification/VmMapOps.v ===== *)
(** How the address map uses its arena: reservations that cannot fail later,
    merging two allocations into one and splitting one into two. *)
From S2P Require Import Prelude.
From S2P Require Import Index.
From S2P Require Import Tags.
From S2P Require Import Vmem.
From S2P Require Import VmemInv.
From S2P Require Import VmemFit.
From S2P Require Import VmemOps.
From S2P Require Import Amap.
From S2P Require Import AmapHeap.
From S2P Require Import AmapHeapSpec.
From S2P Require Import VmMap.
From S2P Require Import VmMapInv.
From S2P Require Import AmapInv.
From S2P Require Import AmapSpec.
Open Scope rust_scope.

Section arena.
Context {tree : Type → Type} `{!RBTree tree, !RBTreeLaws tree} {arch : Arch}.
Implicit Types (s : Sys tree) (v : Vmem tree) (A : gmap Z Z) (o : oracle).

(** A page-aligned range of the user address space. *)
Record page_range (base size : Z) : Prop := {
  pr_low : 0 ≤ base;
  pr_pos : 0 < size;
  pr_high : base + size < two64;
  pr_base : base mod PAGE_SIZE = 0;
  pr_size : size mod PAGE_SIZE = 0;
}.

Definition reserved_for (r : Reservation) (base size : Z) : Prop :=
  res_base r = base ∧ res_size r = size ∧ res_start r = Some (mkNode base) ∧
  res_end r = Some (mkNode (base + size)).

(** A page multiple is its own rounded size, so that a reservation of a page
    range fails only for lack of memory. *)
Lemma round_size_pages v size :
  quantum v = PAGE_SIZE → 0 < size < two64 → size mod PAGE_SIZE = 0 → round_size size v = Ok size.
Proof.
  intros Hq Hs Hm. assert (pow2 (quantum v)) as Hp by (rewrite Hq; exists 12; unfold PAGE_SIZE; lia).
  assert (is_u64 size) as Hu by (unfold is_u64; lia).
  pose proof (round_size_spec v size Hp Hu) as Hr. unfold PAGE_SIZE in *. rewrite Hq in Hr.
  apply Z.mod_divide in Hm as [a ->]; [|done]. destruct (round_size _ v) as [n|].
  - destruct Hr as (? & ? & Hn & _). apply Z.mod_divide in Hn as [b ->]; [|done]. f_equal. nia.
  - destruct Hr as [_ [?|?]]; lia.
Qed.

Lemma fixed_size_valid v base size :
  quantum v = PAGE_SIZE → page_range base size → fixed_size base size v = Ok size.
Proof.
  intros Hq []. unfold fixed_size. rewrite round_size_pages by (first [done|lia]). simpl.
  unfold is_multiple_of, checked_add. rewrite Hq. simpl. rewrite pr_base0, decide_True by lia. done.
Qed.

(** The managed addresses are the free and the allocated ones. *)
Lemma alloc_managed v v' base size a :
  alloc_effect v v' base size → managed (tags v') a ↔ managed (tags v) a.
Proof.
  intros []. rewrite !managed_split. fold (allocated v) (allocated v') (address_free v a) (address_free v' a).
  rewrite ae_free, ae_allocated. split.
  - intros [[? _]|(b & n & [[<- <-]|[_ Hb]]%lookup_insert_Some & Hi)]; [by left|left; auto|right; eauto].
  - intros [Hf|(b & n & Hb & Hi)].
    + destruct (decide (base ≤ a < base + size)); [right; exists base, size; by rewrite lookup_insert_eq|by left].
    + right. exists b, n. rewrite lookup_insert_ne by congruence. done.
Qed.
Lemma free_managed v v' base size a :
  free_effect v v' base size → allocated v !! base = Some size → managed (tags v') a ↔ managed (tags v) a.
Proof.
  intros [] Hb. rewrite !managed_split. fold (allocated v) (allocated v') (address_free v a) (address_free v' a).
  rewrite fe_free, fe_allocated. split.
  - intros [[?|?]|(b & n & [_ Hb']%lookup_delete_Some & Hi)]; [by left|right; eauto..].
  - intros [Hf|(b & n & Hb' & Hi)]; [by left; left|]. destruct (decide (b = base)) as [->|].
    + simplify_eq. left. by right.
    + right. exists b, n. rewrite lookup_delete_ne by done. done.
Qed.

Lemma alloc_arena v v' A base size :
  arena_is arch v A → alloc_effect v v' base size → arena_is arch v' (<[base := size]> A).
Proof.
  intros [? Hq Hsp Hal Hmg] Heff. pose proof Heff as [].
  split; [done|congruence|auto|by rewrite ae_allocated, Hal|].
  intros a. rewrite <- Hmg. by eapply alloc_managed.
Qed.

Lemma space_eta s : with_space (space (vmap s)) s = s.
Proof. by destruct s as [[] ?]. Qed.
Lemma world_eta_sys s : with_world (world s) s = s.
Proof. by destruct s. Qed.

Lemma wp_reserve_range s A base size o (Q : result VmemError Reservation → Sys tree → oracle → Prop) :
  arena_is arch (space (vmap s)) A → page_range base size →
  (∀ res o', o' ⊆ o → reserved_for res base size → Q (Ok res) s o') →
  (∀ o', o' ⊆ o → false ∈ o → Q (Err NoMemory) s o') →
  wp (on_space (reserve_fixed base size)) Q s o.
Proof.
  intros [[FL Hinv] Hq _ _ _] Hpr H1 H2. unfold on_space. apply wp_zoom.
  pose proof (fixed_size_valid _ _ _ Hq Hpr) as Hfs. destruct Hpr.
  eapply wp_mono; [apply reserve_fixed_spec; [apply Hinv|unfold is_u64; lia..]|].
  intros [res|e] v' o' (-> & Ho & H'); rewrite space_eta.
  - destruct H' as (Hf & <- & Hs & He). rewrite Hfs in Hf. injection Hf as Hsz.
    apply H1; [done|]. split_and!; try done. by rewrite He, <- Hsz.
  - destruct H' as [H'|[-> Hf]]; [congruence|auto].
Qed.

Lemma wp_space_free s A x n o (Q : Z → Sys tree → oracle → Prop) :
  arena_is arch (space (vmap s)) A → A !! x = Some n →
  (∀ v', free_effect (space (vmap s)) v' x n → arena_is arch v' (delete x A) → Q n (with_space v' s) o) →
  wp (on_space (free x)) Q s o.
Proof.
  intros [[FL Hinv] Hq Hsp Hal Hmg] Hx HQ. unfold on_space. apply wp_zoom.
  eapply wp_mono; [eapply free_spec; [done|by rewrite Hal]|].
  intros r v' o' (-> & -> & Hfe). apply HQ; [done|]. pose proof Hfe as [].
  split; [done|congruence|auto|by rewrite fe_allocated, Hal|].
  intros a. rewrite <- Hmg. eapply free_managed; [exact Hfe|by rewrite Hal].
Qed.

Lemma wp_space_reserved s A base size res o (Q : () → Sys tree → oracle → Prop) :
  arena_is arch (space (vmap s)) A → page_range base size → reserved_for res base size →
  (∀ a, base ≤ a < base + size → address_free (space (vmap s)) a) →
  (∀ v', alloc_effect (space (vmap s)) v' base size → arena_is arch v' (<[base := size]> A) →
         Q () (with_space v' s) o) →
  wp (on_space (alloc_reserved res)) Q s o.
Proof.
  intros Har [] (Hb & Hsz & Hst & Hen) Hfree HQ. pose proof Har as [[FL Hinv] Hq Hsp Hal Hmg].
  unfold on_space. apply wp_zoom. eapply wp_mono.
  { eapply alloc_reserved_spec; rewrite ?Hb, ?Hsz, ?Hq; try done. by eapply free_room. }
  intros [] v' o' (-> & Heff). rewrite Hb, Hsz in Heff. apply HQ; [done|by eapply alloc_arena].
Qed.

Lemma wp_republish s A x nx y ny base size res o (Q : () → Sys tree → oracle → Prop) :
  arena_is arch (space (vmap s)) A → A !! x = Some nx → A !! y = Some ny → x ≠ y →
  page_range base size → reserved_for res base size →
  (∀ a, base ≤ a < base + size → x ≤ a < x + nx ∨ y ≤ a < y + ny) →
  (∀ v', arena_is arch v' (<[base := size]> (delete y (delete x A))) → Q () (with_space v' s) o) →
  wp (republish x y res) Q s o.
Proof.
  intros Ha Hx Hy Hne Hpr Hres Hcov HQ. unfold republish. wp_step.
  eapply wp_space_free; [done..|]. intros v1 Hf1 Ha1. wp_step.
  eapply wp_space_free; [exact Ha1|rewrite lookup_delete_ne by done; exact Hy|]. intros v2 Hf2 Ha2. simpl in *.
  eapply wp_space_reserved; [exact Ha2|done|done| |].
  - intros a Hi. simpl. apply (fe_free _ _ _ _ Hf2). destruct (Hcov a Hi); [left|by right].
    apply (fe_free _ _ _ _ Hf1). by right.
  - intros v3 _ Ha3. by apply HQ.
Qed.

(** The split of [clip_at]. *)
Lemma wp_split {B} s A k n n1 res1 res2 (K : M (Sys tree) B) o (Q : B → Sys tree → oracle → Prop) :
  arena_is arch (space (vmap s)) A → A !! k = Some n → 0 < n1 < n →
  page_range k n1 → page_range (k + n1) (n - n1) →
  reserved_for res1 k n1 → reserved_for res2 (k + n1) (n - n1) →
  (∀ v', arena_is arch v' (<[k + n1 := n - n1]> (<[k := n1]> A)) → wp K Q (with_space v' s) o) →
  wp (do on_space (free k) then
      do on_space (alloc_reserved res1) then
      do on_space (alloc_reserved res2) then K) Q s o.
Proof.
  intros Ha Hk Hn Hp1 Hp2 Hr1 Hr2 HQ. wp_step. eapply wp_space_free; [done..|]. intros v1 Hf1 Ha1. wp_step.
  eapply wp_space_reserved; [exact Ha1|exact Hp1|done| |].
  { intros a Hi. simpl. apply (fe_free _ _ _ _ Hf1). right. lia. }
  intros v2 He2 Ha2. simpl in *. wp_step. eapply wp_space_reserved; [exact Ha2|exact Hp2|done| |].
  - intros a Hi. simpl. apply (ae_free _ _ _ _ He2). split; [|lia].
    apply (fe_free _ _ _ _ Hf1). right. lia.
  - intros v3 _ Ha3. rewrite insert_delete_eq in Ha3. by apply HQ.
Qed.
End arena.

(** ** Splitting an entry ([VmMap::clip_at]) changes nothing that the map shows. *)

(** The part of an entry between two addresses. *)
Definition piece (e : VmMapEntry) (st en : Z) : VmMapEntry :=
  let delta := (st - e_start e) / PAGE_SIZE in
  set_bounds st en (e_object_offset e + delta)
    ((λ r, mkMapRef (mr_map r) (mr_offset r + Z.to_nat delta) (Z.to_nat ((en - st) / PAGE_SIZE)))
       <$> e_amap e) e.

Lemma pages_split a b c :
  a mod PAGE_SIZE = 0 → b mod PAGE_SIZE = 0 →
  (c - a) / PAGE_SIZE = (b - a) / PAGE_SIZE + (c - b) / PAGE_SIZE.
Proof.
  unfold PAGE_SIZE. intros Ha Hb. apply Z.mod_divide in Ha as [x ->]; [|done].
  apply Z.mod_divide in Hb as [y ->]; [|done].
  replace (y * 4096 - x * 4096) with ((y - x) * 4096) by lia. rewrite Z.div_mul by done.
  replace (c - x * 4096) with ((c - y * 4096) + (y - x) * 4096) by lia. rewrite Z.div_add by done. lia.
Qed.

Lemma pages_nonneg a b : a ≤ b → 0 ≤ (b - a) / PAGE_SIZE.
Proof. intros. apply Z.div_pos; [lia|done]. Qed.

Lemma sub_aligned a b : a mod PAGE_SIZE = 0 → b mod PAGE_SIZE = 0 → (b - a) mod PAGE_SIZE = 0.
Proof. intros Ha Hb. by rewrite Zminus_mod, Ha, Hb. Qed.

Section ops.
Context {tree : Type → Type} `{!RBTree tree, !RBTreeLaws tree}.
Variable arch : Arch.
Implicit Types (s : Sys tree) (e : VmMapEntry) (E : gmap Z VmMapEntry) (R : refmap) (o : oracle).

Lemma user_max_bound : USER_ADDRESS_MAX arch ≤ 0x800000000000.
Proof. destruct arch; unfold USER_ADDRESS_MAX; lia. Qed.

Lemma piece_view w e st en a :
  e_start e mod PAGE_SIZE = 0 → st mod PAGE_SIZE = 0 → e_start e ≤ st ≤ a →
  page_view w (piece e st en) a = page_view w e a.
Proof.
  intros Ha Hb Hle. unfold page_view, slot_of. simpl. pose proof (pages_split _ _ a Ha Hb) as Hsp.
  pose proof (pages_nonneg (e_start e) st ltac:(lia)). pose proof (pages_nonneg st a ltac:(lia)).
  f_equal.
  - destruct (e_object e); [lia|done].
  - destruct (e_amap e) as [r|]; [|done]. simpl. f_equal. lia.
Qed.

Lemma piece_wf k e st en :
  entry_wf arch k e → e_start e ≤ st < en → en ≤ e_end e →
  st mod PAGE_SIZE = 0 → en mod PAGE_SIZE = 0 → entry_wf arch st (piece e st en).
Proof.
  intros [] Hle Hen Hs He. pose proof (pages_split _ _ en ew_astart Hs) as Hsp1.
  pose proof (pages_nonneg (e_start e) st ltac:(lia)). pose proof (pages_nonneg en (e_end e) ltac:(lia)) as Hp.
  pose proof (pages_split _ _ (e_end e) ew_astart He) as Hsp2.
  pose proof (pages_split 0 _ st ltac:(done) ew_astart) as Hsp0. rewrite !Z.sub_0_r in Hsp0.
  split; simpl; try done; try lia.
  - unfold offset_ok, elen in *. simpl. destruct ew_offset as [? Ho]. split; [lia|].
    destruct (e_object e); lia.
  - intros r. destruct (e_amap e); [|done]. intros [= <-]. done.
Qed.

(** ** References of entries *)

Lemma count_app l l' i : count (l ++ l') i = count l i + count l' i.
Proof. unfold count. rewrite filter_app, length_app. lia. Qed.

Lemma kept_req R R' w w' : req R R' → kept R w w' → kept R' w w'.
Proof. intros HR Hk id i Hc. apply Hk. by rewrite (count_perm _ _ _ (HR id)). Qed.

Lemma kept_radd e R w w' : kept (radd e R) w w' → kept R w w'.
Proof.
  intros Hk id i Hc. apply Hk. unfold radd. destruct (ref_to id e) as [p|]; [|done].
  rewrite count_cons. case_decide; lia.
Qed.
Lemma kept_rapp_r R R' w w' : kept (rapp R R') w w' → kept R' w w'.
Proof.
  intros Hk id i Hc. apply Hk. unfold rapp. rewrite count_app. pose proof (count_nonneg (R id) i). lia.
Qed.
Lemma kept_rapp_l R R' w w' : kept (rapp R R') w w' → kept R w w'.
Proof.
  intros Hk id i Hc. apply Hk. unfold rapp. rewrite count_app. pose proof (count_nonneg (R' id) i). lia.
Qed.
Lemma same_kept R w w' : same_slots w w' → kept R w w'.
Proof. intros H id i _. apply H. Qed.

Lemma few_radd n e R : few_refs (n + 1) R → few_refs n (radd e R).
Proof. intros H id. specialize (H id). unfold radd. destruct (ref_to id e); simpl; lia. Qed.
Lemma few_req n R R' : req R R' → few_refs n R → few_refs n R'.
Proof. intros HR H id. by rewrite <- (Permutation_length (HR id)). Qed.
Lemma few_le n n' R : n' ≤ n → few_refs n R → few_refs n' R.
Proof. intros ? H id. specialize (H id). lia. Qed.

Lemma ref_bound w R e r :
  world_inv w (radd e R) → e_amap e = Some r → Z.of_nat (mr_offset r + mr_length r) < 2147483648.
Proof.
  intros Hw He. pose proof (radd_in e R r He) as Hin. destruct (live_amap _ _ _ _ Hw Hin) as [am Ham].
  pose proof (wi_amap _ _ Hw _ _ Ham) as Hst. pose proof (ai_in _ _ Hst _ Hin). simpl in *.
  pose proof (ai_nslot _ _ Hst). pose proof (ao_cap _ (ai_arrays _ _ Hst)). lia.
Qed.

Lemma clipped_sys_spec s R k e st en o :
  entry_wf arch k e → world_inv (world s) (radd e R) → few_refs 1 (radd e R) →
  e_start e ≤ st < en → en ≤ e_end e → st mod PAGE_SIZE = 0 → en mod PAGE_SIZE = 0 →
  wp (clipped e st en) (λ r s' o', o' ⊆ o ∧ r = Ok (piece e st en) ∧ ∃ w', s' = with_world w' s ∧
     world_inv w' (radd (piece e st en) (radd e R)) ∧ same_slots (world s) w') s o.
Proof.
  intros Hwf Hw Hfew Hle Hen Hs He. pose proof user_max_bound. destruct Hwf.
  pose proof (pages_split _ _ en ew_astart Hs) as Hsp1. pose proof (pages_split _ _ (e_end e) ew_astart He) as Hsp2.
  pose proof (pages_nonneg (e_start e) st ltac:(lia)) as Hd. pose proof (pages_nonneg st en ltac:(lia)) as Hp.
  pose proof (pages_nonneg en (e_end e) ltac:(lia)) as Hp2.
  unfold clipped. rewrite (u64_sub_small st), (u64_sub_small en) by (unfold USER_ADDRESS_MIN in *; lia).
  assert (checked_add (e_object_offset e) ((st - e_start e) / PAGE_SIZE) =
          Some (e_object_offset e + (st - e_start e) / PAGE_SIZE)) as ->.
  { apply checked_add_Some. split; [done|]. unfold offset_ok, elen in ew_offset. destruct ew_offset as [? Ho].
    assert ((st - e_start e) / PAGE_SIZE ≤ 0x800000000000 / PAGE_SIZE)
      by (apply Z.div_le_mono; [done|unfold USER_ADDRESS_MIN in *; lia]).
    assert (e_start e / PAGE_SIZE ≤ 0x800000000000 / PAGE_SIZE) by (apply Z.div_le_mono; [done|lia]).
    change (0x800000000000 / PAGE_SIZE) with 34359738368 in *. destruct (e_object e); lia. }
  do 2 wp_step. simpl. wp_step. destruct (e_amap e) as [r|] eqn:Ea.
  - pose proof (ref_bound _ _ _ _ Hw Ea). pose proof (ew_amap _ eq_refl) as Hl. unfold pages, elen in Hl.
    wp_step. apply wp_zoom. rewrite u64_add_small by lia.
    eapply wp_mono; [eapply (clipped_spec _ (radd e R)); [done|done|by apply radd_in|lia|lia]|].
    intros r' w' o' (-> & Ho & Hw' & Hss). do 2 wp_step. split; [done|].
    replace (Z.to_nat (Z.of_nat (mr_offset r) + (st - e_start e) / PAGE_SIZE))
      with (mr_offset r + Z.to_nat ((st - e_start e) / PAGE_SIZE))%nat in * by lia.
    unfold piece. rewrite Ea. simpl. split; [done|]. exists w'. split; [done|]. split; [|done].
    rewrite (radd_rset (set_bounds _ _ _ _ _)) by done. done.
  - do 2 wp_step. split; [done|]. unfold piece. rewrite Ea. split; [done|]. exists (world s).
    rewrite world_eta_sys. split; [done|]. split; [|done]. by rewrite radd_none.
Qed.

Lemma drop_entry_spec s R e o :
  world_inv (world s) (radd e R) →
  wp (drop_entry e) (λ _ s' o', o' ⊆ o ∧ ∃ w', s' = with_world w' s ∧
     world_inv w' R ∧ kept R (world s) w') s o.
Proof.
  intros Hw. unfold drop_entry. destruct (e_amap e) as [r|] eqn:Ea.
  - apply wp_zoom. rewrite (radd_rset _ _ _ Ea) in Hw.
    eapply wp_mono; [eapply (drop_spec _ _ _ (R (mr_map r))); [exact Hw|by rewrite rset_eq]|].
    intros [] w' o' (Ho & Hw' & Hk). split; [done|]. exists w'. split; [done|]. split.
    + eapply world_inv_req; [|exact Hw']. intros id. unfold rset. by repeat case_decide; subst.
    + intros id i Hc. apply Hk. destruct (decide (id = mr_map r)) as [->|]; auto.
  - wp_step. split; [done|]. exists (world s). rewrite world_eta_sys. split; [done|]. split; [|done].
    by rewrite radd_none in Hw.
Qed.

(** ** Maps of entries *)

Definition map_refs s R0 : refmap := rapp (refs_of (emap (vmap s))) R0.

Lemma map_refs_split s R0 k e :
  emap (vmap s) !! k = Some e →
  req (map_refs s R0) (radd e (rapp (refs_of (delete k (emap (vmap s)))) R0)).
Proof. intros Hk. unfold map_refs. by rewrite (refs_delete _ _ _ Hk), rapp_radd. Qed.

Lemma page_view_kept E w w' k e a :
  kept (refs_of E) w w' → E !! k = Some e → entry_wf arch k e → inside_entry e a →
  page_view w' e a = page_view w e a.
Proof.
  intros Hk He Hwf [Hlo Hhi]. unfold page_view, slot_of. f_equal. destruct (e_amap e) as [r|] eqn:Ea; [|done].
  apply Hk, count_pos. exists (mr_offset r, mr_length r). split.
  - rewrite (refs_delete E k e He (mr_map r)). by apply radd_in.
  - unfold covers. simpl. rewrite (ew_amap _ _ _ Hwf r Ea). unfold pages, elen. destruct Hwf.
    assert ((a - e_start e) / PAGE_SIZE < (e_end e - e_start e) / PAGE_SIZE).
    { pose proof (sub_aligned _ _ ew_astart ew_aend) as Hm. unfold PAGE_SIZE in *.
      apply Z.mod_divide in Hm as [n Hn]; [|done]. rewrite Hn, Z.div_mul by done.
      apply Z.div_lt_upper_bound; lia. }
    pose proof (pages_nonneg (e_start e) a ltac:(lia)). lia.
Qed.

Lemma shows_kept E w w' a pv :
  kept (refs_of E) w w' → (∀ k e, E !! k = Some e → entry_wf arch k e) →
  shows w' E a pv ↔ shows w E a pv.
Proof.
  intros Hk Hwf. split; intros (k & e & He & Hin & ->); exists k, e; split_and!; try done;
    [|symmetry]; eauto using page_view_kept.
Qed.

(** An entry and its two parts show the same. *)
Definition split_entries E (k b : Z) e : gmap Z VmMapEntry :=
  <[b := piece e b (e_end e)]> (<[k := piece e k b]> E).

Lemma shows_split E w k b e a pv :
  E !! k = Some e → E !! b = None → entry_wf arch k e → k < b < e_end e → b mod PAGE_SIZE = 0 →
  shows w (split_entries E k b e) a pv ↔ shows w E a pv.
Proof.
  intros Hk Hb [] Hlt Hbm. unfold split_entries. assert (k ≠ b) by lia. subst k. split.
  - intros (k' & e' & He & Hin & ->). unfold inside_entry in Hin.
    apply lookup_insert_Some in He as [[<- <-]|[Hne He]].
    { exists (e_start e), e. simpl in *. split; [done|]. split; [split; lia|]. apply piece_view; [done..|lia]. }
    apply lookup_insert_Some in He as [[<- <-]|[Hne' He]].
    { exists (e_start e), e. simpl in *. split; [done|]. split; [split; lia|]. apply piece_view; [done..|lia]. }
    exists k', e'. done.
  - intros (k' & e' & He & Hin & ->). unfold inside_entry in Hin. destruct (decide (k' = e_start e)) as [->|Hne].
    + simplify_eq. destruct (decide (a < b)).
      * exists (e_start e), (piece e (e_start e) b). rewrite lookup_insert_ne, lookup_insert_eq by done.
        split; [done|]. split; [split; simpl; lia|]. symmetry. apply piece_view; [done..|lia].
      * exists b, (piece e b (e_end e)). rewrite lookup_insert_eq.
        split; [done|]. split; [split; simpl; lia|]. symmetry. apply piece_view; [done..|lia].
    + exists k', e'. rewrite !lookup_insert_ne by congruence. done.
Qed.

(** [E'] results from [E] by splitting entries. *)
Definition pieces E E' : Prop :=
  ∀ k' e', E' !! k' = Some e' → ∃ k e, E !! k = Some e ∧ e_start e ≤ e_start e' ∧
    e_end e' ≤ e_end e ∧ e' = piece e (e_start e') (e_end e').

Lemma piece_self k e : entry_wf arch k e → piece e (e_start e) (e_end e) = e.
Proof.
  intros []. unfold piece. rewrite Z.sub_diag. change (0 / PAGE_SIZE) with 0. rewrite Z.add_0_r. simpl.
  destruct e as [? ? ? ? am ? ? ? ? ? ? ?]. unfold set_bounds. simpl in *. f_equal. destruct am as [r|]; [|done].
  simpl. specialize (ew_amap _ eq_refl). unfold pages, elen in ew_amap. simpl in *. rewrite <- ew_amap.
  rewrite Nat.add_0_r. by destruct r.
Qed.

Lemma pieces_refl E : (∀ k e, E !! k = Some e → entry_wf arch k e) → pieces E E.
Proof. intros Hwf k e He. exists k, e. rewrite (piece_self k) by eauto. done. Qed.

Lemma piece_piece e a b c d :
  e_start e mod PAGE_SIZE = 0 → a mod PAGE_SIZE = 0 → e_start e ≤ a ≤ c →
  piece (piece e a b) c d = piece e c d.
Proof.
  intros He Ha Hle. unfold piece, set_bounds. simpl. pose proof (pages_split _ _ c He Ha) as Hsp.
  pose proof (pages_nonneg (e_start e) a ltac:(lia)). pose proof (pages_nonneg a c ltac:(lia)).
  f_equal; [lia|]. destruct (e_amap e); [|done]. simpl. f_equal. f_equal. lia.
Qed.

Lemma pieces_trans E1 E2 E3 :
  (∀ k e, E1 !! k = Some e → entry_wf arch k e) → (∀ k e, E2 !! k = Some e → entry_wf arch k e) →
  pieces E1 E2 → pieces E2 E3 → pieces E1 E3.
Proof.
  intros W1 W2 H12 H23 k3 e3 He3. destruct (H23 _ _ He3) as (k2 & e2 & He2 & ? & ? & Heq3).
  destruct (H12 _ _ He2) as (k1 & e1 & He1 & ? & ? & Heq2). exists k1, e1. split_and!; try done; try lia.
  rewrite Heq3 at 1. rewrite Heq2. apply piece_piece; [by eapply ew_astart, W1|by eapply ew_astart, W2|lia].
Qed.

Definition uncrossed (b : Z) E : Prop := ∀ k e, E !! k = Some e → ¬ (e_start e < b < e_end e).
Lemma pieces_uncrossed b E E' : pieces E E' → uncrossed b E → uncrossed b E'.
Proof. intros Hp Hu k e He Hc. destruct (Hp _ _ He) as (k1 & e1 & He1 & ? & ? & _). apply (Hu _ _ He1). lia. Qed.
End ops.

(** ** [clip_at], and the operations on ranges built on it: [unmap], [protect]
    and [advise]. *)

Section clip.
Context {tree : Type → Type} `{!RBTree tree, !RBTreeLaws tree}.
Variable arch : Arch.
Implicit Types (s : Sys tree) (e : VmMapEntry) (E : gmap Z VmMapEntry) (R : refmap) (o : oracle).

Lemma emap_get s R0 k :
  map_inv arch s R0 → index_get k (entries (vmap s)) = emap (vmap s) !! k.
Proof. intros Hm. apply index_get_imap, Hm. Qed.

Lemma bump_time t : 0 < t < two64 → 0 < (let t := u64_add t 1 in if t =? 0 then 1 else t) < two64.
Proof.
  intros Ht. pose proof (wrap64_is_u64 (t + 1)) as Hw. unfold is_u64 in Hw. cbv zeta. unfold u64_add.
  destruct (Z.eqb_spec (wrap64 (t + 1)) 0); lia.
Qed.

(** The operation changes neither what the map shows nor the slots referenced
    from elsewhere, and splits entries at most. *)
Record quiet s s' R0 : Prop := {
  q_inv : map_inv arch s' R0;
  q_view a : view s' a = view s a;
  q_kept : kept R0 (world s) (world s');
  q_pieces : pieces (emap (vmap s)) (emap (vmap s'));
}.

Lemma quiet_refl s R0 : map_inv arch s R0 → quiet s s R0.
Proof. intros Hm. split; try done. eapply pieces_refl, Hm. Qed.
Lemma quiet_trans s1 s2 s3 R0 : map_inv arch s1 R0 → quiet s1 s2 R0 → quiet s2 s3 R0 → quiet s1 s3 R0.
Proof.
  intros Hm [] []. split; [done|congruence|by etrans|].
  eapply (pieces_trans arch); [apply Hm|apply q_inv0|done|done].
Qed.

(** The references after a split, seen from those before. *)
Lemma few_split n e st b en R :
  few_refs n (radd e R) → few_refs (n - 1) (radd (piece e b en) (radd (piece e st b) R)).
Proof.
  intros Hf id. specialize (Hf id). unfold radd, ref_to in *. simpl.
  destruct (e_amap e) as [r|]; simpl; [|lia]. case_decide; simpl in *; lia.
Qed.

Lemma split_refs E k b e R0 :
  E !! k = Some e → E !! b = None → k ≠ b →
  req (rapp (refs_of (split_entries E k b e)) R0)
      (radd (piece e b (e_end e)) (radd (piece e k b) (rapp (refs_of (delete k E)) R0))).
Proof.
  intros Hk Hb Hne. unfold split_entries. rewrite refs_insert by (by rewrite lookup_insert_ne).
  rewrite <- insert_delete_eq, refs_insert by apply lookup_delete_eq. by rewrite !rapp_radd.
Qed.

Lemma split_lookup E k b e k' e' :
  split_entries E k b e !! k' = Some e' →
  (k' = b ∧ e' = piece e b (e_end e)) ∨ (k' = k ∧ e' = piece e k b) ∨ (k' ≠ k ∧ E !! k' = Some e').
Proof.
  unfold split_entries. rewrite lookup_insert_Some, lookup_insert_Some. naive_solver.
Qed.

Lemma split_wf E k b e k' e' :
  (∀ k e, E !! k = Some e → entry_wf arch k e) → E !! k = Some e → k < b < e_end e → b mod PAGE_SIZE = 0 →
  split_entries E k b e !! k' = Some e' → entry_wf arch k' e'.
Proof.
  intros Hwf Hk Hlt Hbm He. pose proof (Hwf _ _ Hk) as Hw. pose proof Hw as [].
  apply split_lookup in He as [[-> ->]|[[-> ->]|[_ He]]]; [| |eauto].
  - eapply piece_wf; try done; lia.
  - subst k. eapply piece_wf; try done; lia.
Qed.

Lemma split_size E k b e :
  E !! k = Some e → E !! b = None → e_start e = k → k ≠ b →
  msum elen (split_entries E k b e) = msum elen E.
Proof.
  intros Hk Hb Hs Hne. unfold split_entries. rewrite msum_insert_None by (by rewrite lookup_insert_ne).
  rewrite (msum_insert_Some _ _ _ _ _ Hk). unfold elen. simpl. lia.
Qed.

Lemma split_pieces E k b e :
  (∀ k e, E !! k = Some e → entry_wf arch k e) → E !! k = Some e → k < b < e_end e →
  pieces E (split_entries E k b e).
Proof.
  intros Hwf Hk Hlt k' e' He. pose proof (ew_start _ _ _ (Hwf _ _ Hk)).
  apply split_lookup in He as [[-> ->]|[[-> ->]|[_ He]]]; [| |by eapply pieces_refl].
  all: exists k, e; simpl; split_and!; try done; lia.
Qed.

Lemma split_uncrossed E k b e :
  (∀ k e, E !! k = Some e → entry_wf arch k e) → disjoint_entries E → E !! k = Some e →
  k < b < e_end e → uncrossed b (split_entries E k b e).
Proof.
  intros Hwf Hd Hk Hlt k' e' He.
  apply split_lookup in He as [[-> ->]|[[-> ->]|[? He]]]; [simpl; lia..|].
  pose proof (ew_start _ _ _ (Hwf _ _ He)). intros Hc.
  destruct (Z.lt_trichotomy k k') as [Hl|[->|Hl]]; [|done|].
  - pose proof (Hd _ _ _ _ Hk He Hl). lia.
  - pose proof (Hd _ _ _ _ He Hk Hl). lia.
Qed.

Lemma split_ranges k b e :
  entry_wf arch k e → k < b < e_end e → b mod PAGE_SIZE = 0 →
  page_range k (b - k) ∧ page_range b (e_end e - b).
Proof.
  intros [] Hlt Hbm. subst k. pose proof (user_max_bound arch). unfold USER_ADDRESS_MIN in *.
  split; split; try done; try lia; by apply sub_aligned.
Qed.

(** What is left to prove once the entries are split. *)
Lemma split_quiet s s' R0 k b e :
  map_inv arch s R0 → emap (vmap s) !! k = Some e → emap (vmap s) !! b = None →
  k < b < e_end e → b mod PAGE_SIZE = 0 →
  index_ok (entries (vmap s')) → emap (vmap s') = split_entries (emap (vmap s)) k b e →
  arena_ok arch (space (vmap s')) (emap (vmap s')) → size (vmap s') = size (vmap s) →
  0 < timestamp (vmap s') < two64 → world_inv (world s') (map_refs s' R0) →
  kept (map_refs s' R0) (world s) (world s') →
  quiet s s' R0.
Proof.
  intros Hm Hk Hb Hlt Hbm Hok HE Har Hsz Ht Hw Hkept. pose proof (mi_wf _ _ _ Hm) as Hwf.
  pose proof (Hwf _ _ Hk) as He. assert (k ≠ b) by lia.
  assert (map_inv arch s' R0) as Hm'.
  { split; try done.
    - intros k' e' He'. rewrite HE in He'. by eapply split_wf.
    - rewrite Hsz, HE, (split_size _ k b e) by (try done; apply He). apply Hm. }
  split; [done| |by eapply kept_rapp_r|].
  - intros a. apply (view_eq arch _ _ R0 R0); [done..|]. intros pv.
    rewrite (shows_kept arch _ (world s)) by (first [apply Hm'|by eapply kept_rapp_l]).
    rewrite HE. by eapply shows_split.
  - rewrite HE. by eapply split_pieces.
Qed.

Lemma clip_commit s R0 k b e res1 res2 o :
  map_inv arch s R0 → few_refs 2 (map_refs s R0) →
  emap (vmap s) !! k = Some e → emap (vmap s) !! b = None → k < b < e_end e → b mod PAGE_SIZE = 0 →
  reserved_for res1 k (b - k) → reserved_for res2 b (e_end e - b) →
  wp (let! lower := clipped e k b in
      let* upper := clipped e b (e_end e) in
      match upper with
      | Err error => do drop_entry lower then ret (Err error)
      | Ok upper =>
          do on_space (free k) then
          do on_space (alloc_reserved res1) then
          do on_space (alloc_reserved res2) then
          let* old := on_entries (index_insert k lower None) in
          do (match old with Some old => drop_entry old | None => ret () end) then
          do on_entries (index_insert b upper (Some (mkNode b))) then
          do bump_timestamp then
          ret (Ok ())
      end)
     (λ r s' o', o' ⊆ o ∧ r = Ok () ∧ quiet s s' R0 ∧
        emap (vmap s') = split_entries (emap (vmap s)) k b e) s o.
Proof.
  intros Hm Hfew Hk Hb Hlt Hbm Hr1 Hr2. pose proof (mi_wf _ _ _ Hm _ _ Hk) as He.
  destruct (split_ranges k b e He Hlt Hbm) as [Hp1 Hp2]. pose proof (ew_start _ _ _ He) as Hst.
  assert (k ≠ b) as Hne by lia. pose proof (map_refs_split s R0 k e Hk) as Hsplit.
  set (R' := rapp (refs_of (delete k (emap (vmap s)))) R0) in *.
  apply (few_req _ _ _ Hsplit) in Hfew. pose proof (mi_world _ _ _ Hm) as Hw. fold (map_refs s R0) in Hw.
  rewrite Hsplit in Hw. wp_step.
  eapply wp_mono; [eapply (clipped_sys_spec arch s R' k e k b); try done; [eapply few_le; [|exact Hfew]; lia|lia|lia|apply Hp1]|].
  intros r1 s1 o1 (Ho1 & -> & w1 & -> & Hw1 & Hss1). rewrite radd_comm in Hw1. wp_step.
  eapply wp_mono; [eapply (clipped_sys_spec arch _ (radd (piece e k b) R') k e b (e_end e)); try done|].
  { apply (few_req _ _ _ (radd_comm _ _ _)). by apply few_radd. } { lia. } { by destruct He. }
  intros r2 s2 o2 (Ho2 & -> & w2 & -> & Hw2 & Hss2). simpl in Hss2.
  rewrite radd_comm in Hw2. cbv beta iota.
  pose proof (mi_arena _ _ _ Hm) as Har.
  eapply (wp_split _ (elen <$> emap (vmap s)) k (elen e) (b - k)); try done.
  { by rewrite lookup_fmap, Hk. } { unfold elen. lia. }
  { replace (k + (b - k)) with b by lia. by replace (elen e - (b - k)) with (e_end e - b) by (unfold elen; lia). }
  { replace (k + (b - k)) with b by lia. by replace (elen e - (b - k)) with (e_end e - b) by (unfold elen; lia). }
  intros v' Har'. replace (k + (b - k)) with b in Har' by lia.
  replace (elen e - (b - k)) with (e_end e - b) in Har' by (unfold elen; lia).
  wp_step. apply wp_zoom. apply wp_index_insert; [apply Hm|simpl; unfold emap in Hk; congruence|].
  intros i1 Hi1 Hmi1. simpl in Hmi1 |- *. unfold emap in Hk. rewrite Hk. wp_step.
  eapply wp_mono; [eapply drop_entry_spec; exact Hw2|].
  intros [] s3 o3 (Ho3 & w3 & -> & Hw3 & Hk3). wp_step. apply wp_zoom.
  apply wp_index_insert; [done|done|]. intros i2 Hi2 Hmi2. simpl in *. wp_step. unfold bump_timestamp. do 2 wp_step.
  split; [sub_oracle|]. split; [done|]. apply and_comm.
  match goal with |- ?p ∧ quiet _ ?t _ => assert p as HE end.
  { unfold emap, split_entries. simpl. by rewrite Hmi2, Hmi1. }
  split; [done|]. pose proof (split_refs (emap (vmap s)) k b e R0 Hk Hb Hne) as Hreq. rewrite <- HE in Hreq.
  eapply split_quiet; try done.
  - unfold arena_ok. rewrite HE. unfold split_entries. by rewrite !fmap_insert.
  - apply bump_time, Hm.
  - unfold map_refs. by rewrite Hreq.
  - eapply kept_req; [symmetry; exact Hreq|]. simpl. etrans; [|exact Hk3]. apply same_kept. by etrans.
Qed.


Lemma clip_at_spec s R0 n b o :
  map_inv arch s R0 → few_refs n (map_refs s R0) → 2 ≤ n → is_u64 b → b mod PAGE_SIZE = 0 →
  wp (clip_at b) (λ r s' o', o' ⊆ o ∧ quiet s s' R0 ∧
     match r with
     | Ok _ => few_refs (n - 1) (map_refs s' R0) ∧ uncrossed b (emap (vmap s'))
     | Err e => e = OutOfMemory ∧ false ∈ o ∧ s' = s
     end) s o.
Proof.
  intros Hm Hfew Hn Hb Hbm. pose proof (map_disjoint arch _ _ Hm) as Hd. pose proof (mi_wf _ _ _ Hm) as Hwf.
  unfold clip_at. do 2 wp_step.
  destruct (last _) as [[k e]|] eqn:El; cbv beta iota.
  2: { wp_step. split; [done|]. split; [by apply quiet_refl|]. split; [eapply few_le; [|done]; lia|].
       intros k e Hk Hc. eapply range_last_None in El; [|apply Hm|done]. simpl in El. apply Z.ltb_ge in El.
       rewrite (ew_start _ _ _ (Hwf _ _ Hk)) in Hc. lia. }
  apply range_last_Some in El as (Hk & Hlt & Hmax); [|apply Hm]. simpl in Hlt. apply Z.ltb_lt in Hlt.
  assert (∀ k' e', emap (vmap s) !! k' = Some e' → k' < b → k' ≤ k) as Hmax'.
  { intros k' e' Hk' ?. eapply Hmax; [done|]. simpl. by apply Z.ltb_lt. }
  destruct (Z.leb_spec (e_end e) b).
  { wp_step. split; [done|]. split; [by apply quiet_refl|]. split; [eapply few_le; [|done]; lia|].
    intros k' e' Hk' Hc. pose proof (ew_start _ _ _ (Hwf _ _ Hk')) as Hs'. specialize (Hmax' _ _ Hk' ltac:(lia)).
    destruct (decide (k' = k)) as [->|]; [unfold emap in Hk'; simplify_eq; lia|].
    pose proof (Hd _ _ _ _ Hk' Hk ltac:(lia)). lia. }
  assert (emap (vmap s) !! b = None) as Hnb.
  { destruct (emap (vmap s) !! b) as [e'|] eqn:E; [|done]. pose proof (Hd _ _ _ _ Hk E Hlt). lia. }
  pose proof (Hwf _ _ Hk) as He. destruct (split_ranges k b e He ltac:(lia) Hbm) as [Hp1 Hp2].
  pose proof Hp1 as []. pose proof Hp2 as [].
  rewrite !u64_sub_small by (unfold is_u64 in Hb; lia).
  wp_step. apply wp_reserve_new; [|by intros; split_and!; auto using quiet_refl]. intros o1 Ho1.
  wp_step. eapply wp_reserve_range; [apply Hm|done| |].
  2: { intros o2 Ho2 Hf. do 2 wp_step. split_and!; auto using quiet_refl; sub_oracle. }
  intros res1 o2 Ho2 Hr1. do 2 wp_step. cbn [map_err]. wp_step. eapply wp_reserve_range; [apply Hm|done| |].
  2: { intros o3 Ho3 Hf. do 2 wp_step. split_and!; auto using quiet_refl; sub_oracle. }
  intros res2 o3 Ho3 Hr2. do 2 wp_step. cbn [map_err].
  eapply wp_mono; [eapply clip_commit; try done; first [lia|eapply few_le; [|done]; lia]|].
  intros r s' o' (Ho' & -> & Hq & HE). split; [sub_oracle|]. split; [done|]. split.
  - unfold map_refs. rewrite HE. eapply few_req; [symmetry; apply split_refs; try done; lia|].
    apply few_split. eapply few_req; [|exact Hfew]. by apply map_refs_split.
  - rewrite HE. eapply split_uncrossed; try done; lia.
Qed.
End clip.
