(* ===== verification/VmMapUnmap.v ===== *)
(** The range operations of the address map ([protect], [unmap] and those like
    them), from the argument checks on: [checked_end] accepts exactly
    the page ranges of the user address space, and [check_coverage] exactly the
    ranges without a hole. *)
From S2P Require Import Prelude.
From S2P Require Import Index.
From S2P Require Import Tags.
From S2P Require Import Vmem.
From S2P Require Import VmemInv.
From S2P Require Import VmemFit.
From S2P Require Import VmemOps.
From S2P Require Import Amap.
From S2P Require Import AmapInv.
From S2P Require Import AmapSpec.
From S2P Require Import AmapHeap.
From S2P Require Import AmapHeapSpec.
From S2P Require Import VmMap.
From S2P Require Import VmMapInv.
From S2P Require Import VmMapOps.
Open Scope rust_scope.

Definition page_round (n : Z) : Z := (n + PAGE_SIZE - 1) / PAGE_SIZE * PAGE_SIZE.

Lemma checked_page_length_spec n :
  is_u64 n →
  checked_page_length n =
    if decide (0 < n ∧ n + PAGE_SIZE - 1 < two64) then Ok (page_round n) else Err InvalidAddress.
Proof.
  unfold is_u64, checked_page_length, checked_add. intros Hn. destruct (Z.eqb_spec n 0).
  { rewrite decide_False by lia. done. }
  cbv zeta. repeat case_decide; try done; unfold PAGE_SIZE in *; try lia. simpl. f_equal.
  rewrite (land_not_mask (n + (4096 - 1)) 4096) by (first [unfold is_u64; lia|exists 12; lia]).
  unfold page_round, PAGE_SIZE. replace (n + 4096 - 1) with (n + (4096 - 1)) by lia.
  pose proof (Z.div_mod (n + (4096 - 1)) 4096). lia.
Qed.

Lemma page_round_le n : 0 < n → n ≤ page_round n < n + PAGE_SIZE ∧ page_round n mod PAGE_SIZE = 0.
Proof.
  intros Hn. unfold page_round. rewrite Z.mod_mul by done. unfold PAGE_SIZE.
  pose proof (Z.div_mod (n + 4096 - 1) 4096 ltac:(done)). pose proof (Z.mod_pos_bound (n + 4096 - 1) 4096 ltac:(done)).
  split; [|done]. lia.
Qed.

Section range.
Context {tree : Type → Type} `{!RBTree tree, !RBTreeLaws tree}.
Variable arch : Arch.
Implicit Types (s : Sys tree) (e : VmMapEntry) (E : gmap Z VmMapEntry) (R : refmap) (o : oracle).

(** A non-empty page range of user space. *)
Record user_range (start end_ : Z) : Prop := {
  ur_low : USER_ADDRESS_MIN ≤ start;
  ur_lt : start < end_;
  ur_high : end_ ≤ USER_ADDRESS_MAX arch;
  ur_start : start mod PAGE_SIZE = 0;
  ur_end : end_ mod PAGE_SIZE = 0;
}.

Lemma validate_range_spec start end_ :
  (validate_range arch start end_ = Ok () ∧ user_range start end_) ∨
  (validate_range arch start end_ = Err InvalidAddress ∧ ¬ user_range start end_).
Proof.
  unfold validate_range, is_multiple_of. change (PAGE_SIZE =? 0) with false. cbv iota.
  destruct (Z.ltb_spec start USER_ADDRESS_MIN); [right; split; [done|intros []; lia]|].
  destruct (Z.eqb_spec (start mod PAGE_SIZE) 0); [|right; split; [done|by intros []]].
  destruct (Z.eqb_spec (end_ mod PAGE_SIZE) 0); [|right; split; [done|by intros []]].
  destruct (Z.leb_spec end_ start); [right; split; [done|intros []; lia]|].
  destruct (Z.ltb_spec (USER_ADDRESS_MAX arch) end_); [right; split; [done|intros []; lia]|].
  left. split; [done|]. by split.
Qed.

(** [checked_end] succeeds exactly on user ranges. *)
Lemma checked_end_spec start length :
  is_u64 start → is_u64 length →
  (checked_end arch start length = Ok (start + page_round length) ∧ 0 < length ∧
   user_range start (start + page_round length)) ∨
  (checked_end arch start length = Err InvalidAddress ∧
   ¬ (0 < length ∧ user_range start (start + page_round length))).
Proof.
  intros Hs Hl. pose proof (user_max_bound arch) as Hmax. unfold checked_end, is_multiple_of.
  change (PAGE_SIZE =? 0) with false. cbv iota.
  destruct (Z.eqb_spec (start mod PAGE_SIZE) 0); simpl; [|right; split; [done|by intros [_ []]]].
  rewrite checked_page_length_spec by done. case_decide as Hd; simpl.
  - pose proof (page_round_le length ltac:(lia)) as [? _]. unfold is_u64, PAGE_SIZE in *.
    destruct (checked_add start (page_round length)) as [en|] eqn:Ea; simpl.
    + apply checked_add_Some in Ea as [-> ?].
      destruct (validate_range_spec start (start + page_round length)) as [[-> ?]|[-> ?]]; simpl;
        [left|right]; split; try done; [split; [lia|done]|]. by intros [].
    + apply checked_add_None in Ea. right. split; [done|]. intros [_ []]. lia.
  - right. split; [done|]. intros [? []]. pose proof (page_round_le length ltac:(lia)) as [? _].
    unfold is_u64, PAGE_SIZE, USER_ADDRESS_MIN in *. lia.
Qed.

(** ** Coverage *)

(** Entries in address order, after the address [c]. *)
Fixpoint ordered (c : Z) (l : list (Z * VmMapEntry)) : Prop :=
  match l with
  | [] => True
  | (_, e) :: l =>
      c < e_end e ∧ e_start e < e_end e ∧ Forall (λ q, e_end e ≤ e_start q.2) l ∧ ordered (e_end e) l
  end.

Lemma coverage_spec l : ∀ c,
  ordered c l →
  match coverage c l with
  | Some c' => c ≤ c' ∧ (∀ a, c ≤ a < c' → ∃ p, p ∈ l ∧ inside_entry p.2 a) ∧
      ∀ p, p ∈ l → e_end p.2 ≤ c'
  | None => ∃ a, c ≤ a ∧ (∃ p, p ∈ l ∧ a < e_start p.2) ∧ ∀ p, p ∈ l → ¬ inside_entry p.2 a
  end.
Proof.
  induction l as [|[k e] l IH]; intros c Ho; simpl.
  { split; [lia|]. split; [lia|]. intros p Hp. by apply not_elem_of_nil in Hp. }
  destruct Ho as (Hc & Hlt & Hall & Ho). rewrite Forall_forall in Hall. unfold inside_entry in *.
  destruct (Z.ltb_spec c (e_start e)).
  { exists c. split; [lia|]. split; [exists (k, e); split; [left|done]|].
    intros p [->|Hp]%elem_of_cons; simpl; [lia|]. specialize (Hall _ Hp). simpl in Hall. lia. }
  specialize (IH _ Ho). destruct (coverage (e_end e) l) as [c'|].
  - destruct IH as (Hle & Hin & Hend). split; [lia|]. split.
    + intros a Ha. destruct (decide (a < e_end e)).
      * exists (k, e). split; [left|simpl; lia].
      * destruct (Hin a) as (p & Hp & ?); [lia|]. exists p. split; [by right|done].
    + intros p [->|Hp]%elem_of_cons; [done|auto].
  - destruct IH as (a & Ha & (p & Hp & Hlp) & Hno). exists a. split; [lia|]. split.
    + exists p. split; [by right|done].
    + intros q [->|Hq]%elem_of_cons; [simpl; lia|auto].
Qed.

Lemma elem_of_overlapping s R0 start end_ k e :
  map_inv arch s R0 →
  (k, e) ∈ overlapping start end_ (vmap s) ↔ emap (vmap s) !! k = Some e ∧ start < e_end e ∧ k < end_.
Proof.
  intros Hm. unfold overlapping. rewrite list_elem_of_filter, elem_of_range by apply Hm. simpl.
  rewrite Z.ltb_lt. split; [tauto|]. intros (Hk & Hlt & Hend). split_and!; try done.
  destruct (last _) as [[k0 e0]|] eqn:El; simpl; apply Z.leb_le.
  - apply range_last_Some in El as (Hk0 & Hle0 & _); [|apply Hm]. simpl in Hle0. apply Z.leb_le in Hle0.
    destruct (decide (k < k0)); [|lia]. pose proof (map_disjoint arch _ _ Hm _ _ _ _ Hk Hk0 ltac:(done)). lia.
  - eapply range_last_None in El; [|apply Hm|done]. simpl in El. apply Z.leb_gt in El. lia.
Qed.

Lemma ordered_entries E l : ∀ c,
  disjoint_entries E → (∀ k e, E !! k = Some e → entry_wf arch k e) →
  (∀ p, p ∈ l → E !! p.1 = Some p.2 ∧ c < e_end p.2) → StronglySorted Z.lt l.*1 → ordered c l.
Proof.
  induction l as [|[k e] l IH]; intros c Hd Hwf Hin Hs; simpl; [done|].
  rewrite fmap_cons in Hs. apply StronglySorted_inv in Hs as [Hs Hall]. rewrite Forall_fmap in Hall.
  destruct (Hin (k, e)) as [Hk Hc]; [left|]. simpl in *. pose proof (Hwf _ _ Hk) as [].
  assert (∀ p, p ∈ l → E !! p.1 = Some p.2 ∧ e_end e ≤ e_start p.2) as Hnext.
  { intros p Hp. destruct (Hin p) as [Hkp _]; [by right|]. split; [done|]. rewrite Forall_forall in Hall.
    specialize (Hall _ Hp). simpl in Hall. rewrite (VmMapInv.ew_start _ _ _ (Hwf _ _ Hkp)). by eapply Hd. }
  split; [done|]. split; [done|]. split; [apply Forall_forall; intros p Hp; by apply Hnext|].
  apply IH; try done. intros p Hp. destruct (Hnext p Hp) as [Hkp ?]. split; [done|].
  pose proof (Hwf _ _ Hkp) as []. lia.
Qed.

Lemma overlapping_ordered s R0 start end_ :
  map_inv arch s R0 → ordered start (overlapping start end_ (vmap s)).
Proof.
  intros Hm. eapply (ordered_entries (emap (vmap s))); [by eapply map_disjoint|apply Hm| |].
  - intros [k e] Hp. by apply (elem_of_overlapping s R0) in Hp as (? & ? & ?).
  - unfold overlapping. set (lo := match last _ with Some _ => _ | None => _ end). clearbody lo.
    pose proof (range_sorted (entries (vmap s)) (Included lo) (Excluded end_) (mi_index _ _ _ Hm)) as Hs.
    induction (range _ _ _) as [|p l IH]; [constructor|]. rewrite fmap_cons in Hs. apply StronglySorted_inv in Hs as [Hs Hall].
    rewrite filter_cons. case_decide; [|by apply IH]. rewrite fmap_cons. constructor; [by apply IH|].
    rewrite Forall_fmap in *. rewrite Forall_forall in *. intros q [_ Hq]%list_elem_of_filter. by apply Hall.
Qed.

Lemma view_Some s R0 k e a :
  map_inv arch s R0 → emap (vmap s) !! k = Some e → inside_entry e a →
  view s a = Some (page_view (world s) e a).
Proof. intros Hm Hk Hin. apply (view_shows arch s R0); [done|]. by exists k, e. Qed.

Lemma check_coverage_spec s R0 start end_ :
  map_inv arch s R0 → start < end_ →
  match check_coverage start end_ (vmap s) with
  | Ok _ => ∀ a, start ≤ a < end_ → is_Some (view s a)
  | Err x => x = NotMapped ∧ ∃ a, start ≤ a < end_ ∧ view s a = None
  end.
Proof.
  intros Hm Hlt. unfold check_coverage. pose proof (coverage_spec _ _ (overlapping_ordered s R0 start end_ Hm)) as Hc.
  assert (∀ a, start ≤ a < end_ → (∀ p, p ∈ overlapping start end_ (vmap s) → ¬ inside_entry p.2 a) →
               view s a = None) as Hnone.
  { intros a Ha Hno. apply (view_None arch s R0); [done|]. intros pv (k & e & Hk & Hin & _).
    apply (Hno (k, e)); [|done]. apply (elem_of_overlapping s R0); [done|]. unfold inside_entry in Hin.
    rewrite (ew_start _ _ _ (mi_wf _ _ _ Hm _ _ Hk)) in Hin. split; [done|lia]. }
  destruct (coverage _ _) as [c'|].
  - destruct Hc as (Hle & Hin & Hend). destruct (Z.ltb_spec c' end_).
    + split; [done|]. exists c'. split; [lia|]. apply Hnone; [lia|]. intros p Hp [_ Hi]. specialize (Hend _ Hp). lia.
    + intros a Ha. destruct (Hin a) as ([k e] & Hp & Hi); [lia|].
      apply (elem_of_overlapping s R0) in Hp as (Hk & _ & _); [|done]. by erewrite view_Some.
  - destruct Hc as (a & Ha & ([k e] & Hp & Hlp) & Hno). split; [done|]. exists a.
    apply (elem_of_overlapping s R0) in Hp as (Hk & _ & Hke); [|done]. simpl in Hlp.
    rewrite (ew_start _ _ _ (mi_wf _ _ _ Hm _ _ Hk)) in Hlp. split; [lia|]. apply Hnone; [lia|done].
Qed.
End range.

(** ** [VmMap::protect], [VmMap::advise] and [VmMap::unmap]. *)

(** A change of attributes: an entry keeps its range and its backing. *)
Record attribute_change (f : VmMapEntry → VmMapEntry) (g : PageView → PageView) : Prop := {
  ac_start e : e_start (f e) = e_start e;
  ac_end e : e_end (f e) = e_end e;
  ac_object e : e_object (f e) = e_object e;
  ac_offset e : e_object_offset (f e) = e_object_offset e;
  ac_amap e : e_amap (f e) = e_amap e;
  ac_view w e a : page_view w (f e) a = g (page_view w e a);
}.

Definition pv_set_protection (p : Z) (v : PageView) : PageView :=
  mkView (pv_object v) (pv_index v) (pv_slot v) p (pv_maximum v) (pv_inheritance v) (pv_advice v)
    (pv_private v) (pv_needs_copy v) (pv_wired v).
Definition pv_set_advice (a : VmAdvice) (v : PageView) : PageView :=
  mkView (pv_object v) (pv_index v) (pv_slot v) (pv_protection v) (pv_maximum v) (pv_inheritance v) a
    (pv_private v) (pv_needs_copy v) (pv_wired v).

Lemma protection_change p : attribute_change (set_protection p) (pv_set_protection p).
Proof. by split. Qed.
Lemma advice_change a : attribute_change (set_advice a) (pv_set_advice a).
Proof. by split. Qed.

Section update.
Context {tree : Type → Type} `{!RBTree tree, !RBTreeLaws tree}.
Variable arch : Arch.
Implicit Types (s : Sys tree) (e : VmMapEntry) (E : gmap Z VmMapEntry) (R : refmap) (o : oracle).

(** Both clips of a range operation. *)
Lemma wp_clip_range {B} s R0 n start end_ (K : M (Sys tree) (result Error B)) Q o :
  map_inv arch s R0 → few_refs n (map_refs s R0) → 3 ≤ n → user_range arch start end_ →
  (∀ s' o', o' ⊆ o → quiet arch s s' R0 → few_refs (n - 2) (map_refs s' R0) →
     uncrossed start (emap (vmap s')) → uncrossed end_ (emap (vmap s')) → wp K Q s' o') →
  (∀ s' o', o' ⊆ o → quiet arch s s' R0 → false ∈ o → Q (Err OutOfMemory) s' o') →
  wp (let! _ := clip_at start in let! _ := clip_at end_ in K) Q s o.
Proof.
  intros Hm Hfew Hn [] HK HE. pose proof (user_max_bound arch). unfold USER_ADDRESS_MIN in *.
  wp_step. eapply wp_mono; [eapply clip_at_spec; try done; [lia|unfold is_u64; lia]|].
  intros [_|e1] s1 o1 (Ho1 & Hq1 & H1).
  2: { destruct H1 as (-> & Hf & ->). by apply HE. }
  destruct H1 as [Hf1 Hu1]. wp_step.
  eapply wp_mono; [eapply clip_at_spec; try done; [apply Hq1|lia|unfold is_u64; lia]|].
  intros [_|e2] s2 o2 (Ho2 & Hq2 & H2).
  2: { destruct H2 as (-> & Hf & ->). apply HE; [sub_oracle|done|set_solver]. }
  destruct H2 as [Hf2 Hu2]. apply HK; [sub_oracle|by eapply quiet_trans| | |done].
  - by replace (n - 2) with (n - 1 - 1) by lia.
  - eapply pieces_uncrossed; [apply Hq2|done].
Qed.

(** The entries with [f] applied to those of the range. *)
Definition update_range (start end_ : Z) (f : VmMapEntry → VmMapEntry) E : gmap Z VmMapEntry :=
  map_imap (λ k e, Some (if decide (start ≤ k < end_) then f e else e)) E.

Lemma lookup_update_range start end_ f E k :
  update_range start end_ f E !! k = (λ e, if decide (start ≤ k < end_) then f e else e) <$> E !! k.
Proof. unfold update_range. rewrite map_lookup_imap. by destruct (E !! k). Qed.

Lemma refs_of_ext E E' :
  (∀ k, e_amap <$> E' !! k = e_amap <$> E !! k) → req (refs_of E') (refs_of E).
Proof.
  revert E'. induction E as [|k e E Hk IH] using map_ind; intros E' HE.
  - assert (E' = ∅) as ->; [|done]. apply map_eq. intros k. specialize (HE k). rewrite lookup_empty in *.
    by destruct (E' !! k).
  - pose proof (HE k) as Hek. rewrite lookup_insert_eq in Hek. destruct (E' !! k) as [e'|] eqn:E'k; [|done].
    injection Hek as Hee. rewrite (refs_delete E' k e') by done. rewrite refs_insert by done.
    rewrite (radd_same e' e) by done. rewrite (IH (delete k E')); [done|].
    intros j. destruct (decide (j = k)) as [->|]; [by rewrite lookup_delete_eq, Hk|].
    rewrite lookup_delete_ne by done. specialize (HE j). by rewrite lookup_insert_ne in HE.
Qed.

Lemma msum_ext E E' : (∀ k, elen <$> E' !! k = elen <$> E !! k) → msum elen E' = msum elen E.
Proof.
  intros HE. assert (elen <$> E' = elen <$> E) as Hf.
  { apply map_eq. intros k. by rewrite !lookup_fmap. }
  assert (∀ F : gmap Z VmMapEntry, msum elen F = msum id (elen <$> F)) as Hm.
  { intros F. unfold msum. by rewrite map_fold_fmap. }
  by rewrite !Hm, Hf.
Qed.

(** A map whose entries keep their ranges and references. *)
Lemma map_inv_attributes s s' R0 :
  map_inv arch s R0 → index_ok (entries (vmap s')) →
  (∀ k, ∃ f, (∃ g, attribute_change f g) ∧ emap (vmap s') !! k = f <$> emap (vmap s) !! k) →
  space (vmap s') = space (vmap s) → size (vmap s') = size (vmap s) →
  0 < timestamp (vmap s') < two64 → world s' = world s → map_inv arch s' R0.
Proof.
  intros Hm Hok HE Hsp Hsz Ht Hw. split; try done.
  - intros k e He. destruct (HE k) as (f & (g & []) & HEk). rewrite HEk in He.
    apply fmap_Some in He as (e0 & He0 & ->). destruct (mi_wf _ _ _ Hm _ _ He0). unfold offset_ok, pages, elen in *.
    split; unfold offset_ok, pages, elen;
      rewrite ?ac_start0, ?ac_end0, ?ac_object0, ?ac_offset0, ?ac_amap0; done.
  - rewrite Hsp. pose proof (mi_arena _ _ _ Hm) as Ha. unfold arena_ok in *.
    replace (elen <$> emap (vmap s')) with (elen <$> emap (vmap s)); [done|].
    apply map_eq. intros k. rewrite !lookup_fmap. destruct (HE k) as (f & (g & []) & ->).
    destruct (emap (vmap s) !! k); [|done]. simpl. unfold elen. by rewrite ac_start0, ac_end0.
  - rewrite Hsz, (mi_size _ _ _ Hm). symmetry. apply msum_ext. intros k. destruct (HE k) as (f & (g & []) & ->).
    destruct (emap (vmap s) !! k); [|done]. simpl. unfold elen. by rewrite ac_start0, ac_end0.
  - rewrite Hw, (refs_of_ext (emap (vmap s))); [apply Hm|]. intros k. destruct (HE k) as (f & (g & []) & ->).
    destruct (emap (vmap s) !! k); [|done]. simpl. by rewrite ac_amap0.
Qed.

Lemma id_change : attribute_change id id.
Proof. by split. Qed.

(** The loop of [protect] and [advise], after the clips. *)
Lemma wp_range_update {B} s R0 start end_ f g (K : M (Sys tree) B) o Q :
  map_inv arch s R0 → attribute_change f g →
  uncrossed start (emap (vmap s)) → uncrossed end_ (emap (vmap s)) →
  (∀ s', map_inv arch s' R0 → world s' = world s →
     (∀ a, view s' a = if decide (start ≤ a < end_) then g <$> view s a else view s a) → wp K Q s' o) →
  wp (do modify (with_entries (range_update (Included start) (Excluded end_) f)) then
      do bump_timestamp then K) Q s o.
Proof.
  intros Hm Hac Hus Hue HQ. unfold bump_timestamp. do 4 wp_step.
  destruct (range_update_ok (Included start) (Excluded end_) f _ (mi_index _ _ _ Hm)) as [Hok Hmap].
  match goal with |- wp K Q ?t o => set (s' := t) in * end.
  assert (∀ k, emap (vmap s') !! k =
               (λ e, if decide (start ≤ k < end_) then f e else e) <$> emap (vmap s) !! k) as HE.
  { intros k. unfold emap. simpl. rewrite Hmap. simpl. destruct (index_map _ !! k); [|done]. simpl. f_equal.
    case_decide as Hd.
    - by rewrite (proj2 (Z.leb_le start k)), (proj2 (Z.ltb_lt k end_)) by lia.
    - destruct (Z.leb_spec start k), (Z.ltb_spec k end_); try done. lia. }
  assert (map_inv arch s' R0) as Hm'.
  { eapply map_inv_attributes; try done; [|apply bump_time, Hm]. intros k. rewrite HE.
    destruct (decide (start ≤ k < end_)).
    - exists f. split; [by exists g|]. by destruct (emap (vmap s) !! k).
    - exists id. split; [exists id; apply id_change|]. by destruct (emap (vmap s) !! k). }
  apply HQ; [done|done|]. intros a. pose proof (entry_at_spec arch s R0 a Hm) as Hat.
  unfold view at 2 3. destruct (entry_at a (vmap s)) as [[k e]|]; simpl.
  - destruct Hat as [Hk Hin]. pose proof (ew_start _ _ _ (mi_wf _ _ _ Hm _ _ Hk)) as Hst.
    pose proof (Hus _ _ Hk). pose proof (Hue _ _ Hk). unfold inside_entry in Hin.
    assert (start ≤ k < end_ ↔ start ≤ a < end_) as Hiff by lia. specialize (HE k). rewrite Hk in HE. simpl in HE.
    erewrite view_Some; [|exact Hm'|exact HE|].
    + repeat case_decide; try tauto. simpl. f_equal. apply Hac.
    + case_decide; unfold inside_entry; rewrite ?(ac_start _ _ Hac), ?(ac_end _ _ Hac); done.
  - replace (if decide (start ≤ a < end_) then None else None) with (@None PageView) by (by case_decide).
    apply (view_None arch s' R0); [done|]. intros pv (k & e & Hk & Hin & _). rewrite HE in Hk.
    apply fmap_Some in Hk as (e0 & Hk0 & ->). apply (Hat k e0 Hk0). unfold inside_entry in *.
    case_decide; rewrite ?(ac_start _ _ Hac), ?(ac_end _ _ Hac) in Hin; done.
Qed.

(** The errors of the range operations. *)
Definition range_error s (start length : Z) o (x : Error) : Prop :=
  (x = InvalidAddress ∧ ¬ (0 < length ∧ user_range arch start (start + page_round length))) ∨
  (x = NotMapped ∧ ∃ a, start ≤ a < start + page_round length ∧ view s a = None) ∨
  (x = OutOfMemory ∧ false ∈ o).

Definition in_range (start length a : Z) : Prop := start ≤ a < start + page_round length.
#[export] Instance in_range_dec start length a : Decision (in_range start length a).
Proof. unfold in_range. apply _. Defined.

(** [advise] writes the advice of every page of a fully mapped range, and
    nothing else. *)
Lemma advise_spec s R0 start length advice o :
  map_inv arch s R0 → few_refs 3 (map_refs s R0) → is_u64 start → is_u64 length →
  wp (advise arch start length advice) (λ r s' o', o' ⊆ o ∧ map_inv arch s' R0 ∧
     kept R0 (world s) (world s') ∧
     match r with
     | Ok _ => 0 < length ∧ user_range arch start (start + page_round length) ∧
         (∀ a, in_range start length a → is_Some (view s a)) ∧
         ∀ a, view s' a = if decide (in_range start length a) then pv_set_advice advice <$> view s a else view s a
     | Err x => range_error s start length o x ∧ ∀ a, view s' a = view s a
     end) s o.
Proof.
  intros Hm Hfew Hs Hl. unfold advise, range_error. do 2 wp_step.
  destruct (checked_end_spec arch start length Hs Hl) as [(-> & Hpos & Hur)|[-> Hno]]; cbv beta iota.
  2: { split_and!; try done; auto. }
  do 4 wp_step. pose proof (check_coverage_spec arch s R0 start (start + page_round length) Hm (ur_lt _ _ _ Hur)) as Hc.
  destruct (check_coverage _ _ _) as [_|x]; [|destruct Hc as [-> Hh]; split_and!; try done; auto].
  eapply wp_clip_range; try done.
  2: { intros s1 o1 Ho1 [] Hf. split_and!; try done; auto. }
  intros s1 o1 Ho1 [] Hf1 Hu1 Hu2. eapply wp_range_update; [done|apply advice_change|done|done|].
  intros s2 Hm2 Hw2 Hv2. wp_step. split; [done|]. split; [done|]. rewrite Hw2. split; [done|].
  split; [done|]. split; [done|]. split; [done|]. intros a. unfold in_range. by rewrite Hv2, q_view.
Qed.

Lemma maximum_check s R0 start end_ protection :
  map_inv arch s R0 → start < end_ →
  let bad a := start ≤ a < end_ ∧
    ∃ pv, view s a = Some pv ∧ prot_contains (pv_maximum pv) protection = false in
  if existsb (λ p, negb (prot_contains (e_maximum p.2) protection)) (overlapping start end_ (vmap s))
  then ∃ a, bad a else ∀ a, ¬ bad a.
Proof.
  intros Hm Hlt bad. unfold bad. destruct (existsb _ _) eqn:E.
  - apply existsb_exists in E as ([k e] & Hin & Hb). apply list_elem_of_In in Hin.
    apply (elem_of_overlapping arch s R0) in Hin as (Hk & H1 & H2); [|done]. pose proof (mi_wf _ _ _ Hm _ _ Hk) as [].
    exists (Z.max start k). split; [lia|]. exists (page_view (world s) e (Z.max start k)). split.
    + eapply view_Some; [done|done|]. unfold inside_entry. lia.
    + simpl in *. by apply negb_true_iff in Hb.
  - intros a (Ha & pv & Hv & Hb). apply (view_shows arch s R0) in Hv as (k & e & Hk & Hi & ->); [|done].
    assert (existsb (λ p, negb (prot_contains (e_maximum p.2) protection)) (overlapping start end_ (vmap s)) = true);
      [|congruence].
    apply existsb_exists. exists (k, e). split; [|by apply negb_true_iff]. apply list_elem_of_In.
    apply (elem_of_overlapping arch s R0); [done|]. unfold inside_entry in Hi.
    rewrite (ew_start _ _ _ (mi_wf _ _ _ Hm _ _ Hk)) in Hi. split; [done|lia].
Qed.

(** [protect] writes the protection of every page of the range, if the range
    is fully mapped and every maximum allows it. *)
Lemma protect_spec s R0 start length protection o :
  map_inv arch s R0 → few_refs 3 (map_refs s R0) → is_u64 start → is_u64 length →
  wp (protect arch start length protection) (λ r s' o', o' ⊆ o ∧ map_inv arch s' R0 ∧
     kept R0 (world s) (world s') ∧
     match r with
     | Ok _ => 0 < length ∧ user_range arch start (start + page_round length) ∧
         (∀ a, in_range start length a →
            ∃ pv, view s a = Some pv ∧ prot_contains (pv_maximum pv) protection = true) ∧
         ∀ a, view s' a =
           if decide (in_range start length a) then pv_set_protection protection <$> view s a else view s a
     | Err x => (∀ a, view s' a = view s a) ∧
         (range_error s start length o x ∨ x = Protection ∧ ∃ a, in_range start length a ∧
            ∃ pv, view s a = Some pv ∧ prot_contains (pv_maximum pv) protection = false)
     end) s o.
Proof.
  intros Hm Hfew Hs Hl. unfold protect, range_error. do 2 wp_step.
  destruct (checked_end_spec arch start length Hs Hl) as [(-> & Hpos & Hur)|[-> Hno]]; cbv beta iota.
  2: { split_and!; try done; auto. }
  do 4 wp_step. pose proof (check_coverage_spec arch s R0 start (start + page_round length) Hm (ur_lt _ _ _ Hur)) as Hc.
  destruct (check_coverage _ _ _) as [_|x]; [|destruct Hc as [-> Hh]; split_and!; try done; eauto 6].
  pose proof (maximum_check s R0 start (start + page_round length) protection Hm (ur_lt _ _ _ Hur)) as Hmax.
  cbv zeta in Hmax. destruct (existsb _ _).
  { wp_step. split_and!; try done; eauto. }
  eapply wp_clip_range; try done.
  2: { intros s1 o1 Ho1 [] Hf. split_and!; try done; auto 6. }
  intros s1 o1 Ho1 [] Hf1 Hu1 Hu2. eapply wp_range_update; [done|apply protection_change|done|done|].
  intros s2 Hm2 Hw2 Hv2. wp_step. split; [done|]. split; [done|]. rewrite Hw2. split; [done|].
  split; [done|]. split; [done|]. split.
  - intros a Ha. destruct (Hc a Ha) as [pv Hpv]. exists pv. split; [done|].
    destruct (prot_contains _ _) eqn:Ep; [done|]. exfalso. apply (Hmax a). eauto.
  - intros a. unfold in_range. by rewrite Hv2, q_view.
Qed.
End update.

(** ** [VmMap::unmap] and the drop of the detached entries. *)

Section unmap.
Context {tree : Type → Type} `{!RBTree tree, !RBTreeLaws tree}.
Variable arch : Arch.
Implicit Types (s : Sys tree) (e : VmMapEntry) (E D : gmap Z VmMapEntry) (R : refmap) (o : oracle).

Definition lsum (l : list VmMapEntry) : Z := foldr (λ e n, elen e + n) 0 l.

Lemma lsum_perm l l' : l ≡ₚ l' → lsum l = lsum l'.
Proof. induction 1; simpl in *; lia. Qed.

Lemma msum_lsum E l : map_to_list E ≡ₚ l → msum elen E = lsum l.*2.
Proof.
  revert l. induction E as [|k e E Hk IH] using map_ind; intros l Hl.
  - rewrite map_to_list_empty in Hl. apply Permutation_nil_l in Hl. by subst l.
  - rewrite msum_insert_None by done. rewrite (IH (map_to_list E) (reflexivity _)). rewrite map_to_list_insert in Hl by done.
    rewrite <- (lsum_perm ((k, e) :: map_to_list E).*2 l.*2); [done|]. by rewrite Hl.
Qed.

(** The detached entries leave the arena and the size. *)
Lemma release_all_spec l : ∀ s A o,
  arena_is arch (space (vmap s)) A → NoDup (e_start <$> l) →
  (∀ e, e ∈ l → A !! e_start e = Some (elen e) ∧ 0 ≤ elen e) →
  lsum l ≤ size (vmap s) < two64 →
  wp (release_all l) (λ _ s' o', o' = o ∧ ∃ v', arena_is arch v' (foldr delete A (e_start <$> l)) ∧
     s' = with_size (λ n, n - lsum l) (with_space v' s)) s o.
Proof.
  induction l as [|e l IH]; intros s A o Ha Hnd Hin Hsz.
  { unfold release_all. wp_step. split; [done|]. exists (space (vmap s)). split; [done|].
    destruct s as [[]]. unfold with_size, with_space. simpl. by rewrite Z.sub_0_r. }
  rewrite fmap_cons in Hnd. apply NoDup_cons in Hnd as [Hni Hnd]. destruct (Hin e) as [Hk He0]; [left|].
  assert (0 ≤ lsum l) as Hs0.
  { assert (∀ x, x ∈ l → 0 ≤ elen x) as Hall by (intros; apply Hin; by right). clear -Hall.
    induction l; simpl; [lia|]. assert (0 ≤ elen a) by (apply Hall; left). enough (0 ≤ lsum l) by lia.
    apply IHl. intros. apply Hall. by right. }
  change (lsum (e :: l)) with (elen e + lsum l) in *. assert (elen e < two64) by lia.
  assert (elen e = e_end e - e_start e) as Hel by done. cbn [release_all]. do 2 wp_step. rewrite (u64_sub_small (e_end e)) by lia.
  wp_step. unfold release. wp_step. eapply wp_space_free; [done|done|]. intros v1 _ Ha1. wp_step.
  eapply wp_mono; [eapply (IH _ (delete (e_start e) A)); [done|done| |]|].
  - intros x Hx. rewrite lookup_delete_ne; [apply Hin; by right|]. intros Eq. apply Hni. rewrite Eq.
    by apply list_elem_of_fmap_2.
  - simpl. rewrite u64_sub_small by lia. lia.
  - intros [] s2 o2 (-> & v2 & Ha2 & ->). split; [done|]. exists v2. split.
    + rewrite fmap_cons. simpl. eapply eq_ind; [exact Ha2|]. clear. induction (e_start <$> l) as [|k l' IH]; simpl; [done|].
      by rewrite IH, delete_delete.
    + unfold with_size, with_space. simpl. rewrite u64_sub_small by lia. f_equal. f_equal. lia.
Qed.

Lemma foldr_delete_lookup {V} (A : gmap Z V) ks k :
  foldr delete A ks !! k = if decide (k ∈ ks) then None else A !! k.
Proof.
  induction ks as [|k' ks IH]; simpl; [done|]. rewrite lookup_delete, IH. repeat case_decide; subst; set_solver.
Qed.

Lemma refs_union D E : D ##ₘ E → req (refs_of (D ∪ E)) (rapp (refs_of D) (refs_of E)).
Proof.
  induction D as [|k e D Hk IH] using map_ind; intros Hdis.
  - rewrite (left_id_L ∅ (∪)). intros id. unfold rapp. by rewrite (refs_empty id).
  - apply map_disjoint_insert_l in Hdis as [HE Hdis]. rewrite <- insert_union_l.
    rewrite refs_insert by (by apply lookup_union_None). rewrite refs_insert by done.
    by rewrite rapp_radd, IH.
Qed.
Lemma msum_union D E : D ##ₘ E → msum elen (D ∪ E) = msum elen D + msum elen E.
Proof.
  induction D as [|k e D Hk IH] using map_ind; intros Hdis.
  - by rewrite (left_id_L ∅ (∪)), msum_empty.
  - apply map_disjoint_insert_l in Hdis as [HE Hdis]. rewrite <- insert_union_l.
    rewrite !msum_insert_None by (try apply lookup_union_None; done). rewrite IH by done. lia.
Qed.

Lemma rapp_comm R R' : req (rapp R R') (rapp R' R).
Proof. intros id. unfold rapp. apply Permutation_app_comm. Qed.
Lemma rapp_assoc R1 R2 R3 : req (rapp R1 (rapp R2 R3)) (rapp (rapp R1 R2) R3).
Proof. intros id. unfold rapp. by rewrite (assoc_L (++)). Qed.

(** The range of an extraction holds exactly the pages of the range. *)
Record extraction E (start end_ : Z) D E' : Prop := {
  ex_in k e : D !! k = Some e ↔ E !! k = Some e ∧ start ≤ k < end_;
  ex_out k e : E' !! k = Some e ↔ E !! k = Some e ∧ ¬ (start ≤ k < end_);
}.

Lemma extract_range_extraction (i : Index tree VmMapEntry) start end_ :
  index_ok i →
  let '(d, i') := extract_range start end_ i in
  index_ok d ∧ index_ok i' ∧ extraction (index_map i) start end_ (index_map d) (index_map i').
Proof.
  intros Hok. pose proof (range_extract_ok (Included start) (Excluded end_) i Hok) as H. unfold extract_range.
  destruct (detach _ i) as [d i']. destruct H as (Hd & Hi' & Hin & Hout). split; [done|]. split; [done|].
  assert (∀ k, (above (Included start) k && below (Excluded end_) k) = bool_decide (start ≤ k < end_)) as Hb.
  { intros k. simpl. case_bool_decide as Hd'.
    - by rewrite (proj2 (Z.leb_le start k)), (proj2 (Z.ltb_lt k end_)) by lia.
    - destruct (Z.leb_spec start k), (Z.ltb_spec k end_); try done. lia. }
  split; intros k e; [rewrite Hin|rewrite Hout]; rewrite Hb; case_bool_decide; naive_solver.
Qed.

Lemma extraction_union E start end_ D E' :
  extraction E start end_ D E' → D ##ₘ E' ∧ E = D ∪ E'.
Proof.
  intros [Hin Hout]. assert (D ##ₘ E') as Hdis.
  { apply map_disjoint_spec. intros k e1 e2 H1%Hin H2%Hout. naive_solver. }
  split; [done|]. apply map_eq. intros k. apply option_eq. intros e.
  rewrite lookup_union_Some, Hin, Hout by done. destruct (decide (start ≤ k < end_)); naive_solver.
Qed.

(** After the clips an entry is in the range when one of its addresses is. *)
Lemma uncrossed_key E start end_ k e a :
  uncrossed start E → uncrossed end_ E → E !! k = Some e → entry_wf arch k e → inside_entry e a →
  start ≤ k < end_ ↔ start ≤ a < end_.
Proof.
  intros Hs He Hk [] Hi. specialize (Hs _ _ Hk). specialize (He _ _ Hk). unfold inside_entry in Hi. lia.
Qed.

Lemma shows_extraction E start end_ D E' w a pv :
  extraction E start end_ D E' → uncrossed start E → uncrossed end_ E →
  (∀ k e, E !! k = Some e → entry_wf arch k e) →
  (shows w D a pv ↔ start ≤ a < end_ ∧ shows w E a pv) ∧
  (shows w E' a pv ↔ ¬ (start ≤ a < end_) ∧ shows w E a pv).
Proof.
  intros [Hin Hout] Hs He Hwf. unfold shows. split.
  - split.
    + intros (k & e & Hk & Hi & ->). apply Hin in Hk as [Hk Hr].
      rewrite <- (uncrossed_key E start end_ k e a) by eauto. split; [done|]. by exists k, e.
    + intros (Hr & k & e & Hk & Hi & ->). exists k, e. rewrite Hin.
      rewrite (uncrossed_key E start end_ k e a) by eauto. done.
  - split.
    + intros (k & e & Hk & Hi & ->). apply Hout in Hk as [Hk Hr].
      rewrite <- (uncrossed_key E start end_ k e a) by eauto. split; [done|]. by exists k, e.
    + intros (Hr & k & e & Hk & Hi & ->). exists k, e. rewrite Hout.
      rewrite (uncrossed_key E start end_ k e a) by eauto. done.
Qed.

Lemma values_keys (d : Index tree VmMapEntry) :
  index_ok d → (∀ k e, index_map d !! k = Some e → e_start e = k) →
  (∀ k, k ∈ e_start <$> values d ↔ is_Some (index_map d !! k)) ∧ NoDup (e_start <$> values d) ∧
  (∀ e, e ∈ values d ↔ index_map d !! e_start e = Some e) ∧ lsum (values d) = msum elen (index_map d).
Proof.
  intros Hok Hst. unfold values.
  assert (∀ p, p ∈ rb_iter (tree_of d) → e_start p.2 = p.1) as Hp.
  { intros [k e] Hin. apply Hst. by apply imap_elem. }
  assert (e_start <$> (rb_iter (tree_of d)).*2 = (rb_iter (tree_of d)).*1) as Heq.
  { rewrite <- list_fmap_compose. apply list_fmap_ext. intros i x Hx. apply Hp. by eapply list_elem_of_lookup_2. }
  rewrite Heq. split; [|split; [apply Hok|split]].
  - intros k. rewrite list_elem_of_fmap. split.
    + intros ([k' e] & -> & Hin). exists e. by apply imap_elem.
    + intros [e He]. exists (k, e). split; [done|]. by apply imap_elem.
  - intros e. rewrite list_elem_of_fmap. rewrite imap_elem by done. split.
    + intros ([k' e'] & -> & Hin). specialize (Hp _ Hin). simpl in *. by rewrite Hp.
    + intros Hin. by exists (e_start e, e).
  - symmetry. apply msum_lsum. unfold index_map. apply map_to_list_to_map, Hok.
Qed.

Lemma elen_sum_bound E :
  (∀ k e, E !! k = Some e → entry_wf arch k e) → 0 ≤ msum elen E.
Proof. intros Hwf. apply msum_nonneg. intros k e Hk. destruct (Hwf _ _ Hk). unfold elen. lia. Qed.

Lemma msum_allocs (A : gmap Z Tag) : msum used_size A = msum id (allocs A).
Proof.
  unfold allocs. induction A as [|k t A Hk IH] using map_ind; [by rewrite omap_empty, !msum_empty|].
  rewrite msum_insert_None, IH by done. unfold used_size.
  assert (omap alloc_of A !! k = None) as Hn by (by rewrite lookup_omap, Hk).
  destruct (t_free t) eqn:Ef.
  - rewrite omap_insert_None by (unfold alloc_of; by rewrite Ef). rewrite delete_id by done. lia.
  - rewrite (omap_insert_Some _ _ _ _ (t_size t)) by (unfold alloc_of; by rewrite Ef).
    rewrite msum_insert_None by done. done.
Qed.

(** The size of a map is the amount its arena has allocated. *)
Lemma map_size_used s R0 : map_inv arch s R0 → size (vmap s) = used (space (vmap s)).
Proof.
  intros Hm. rewrite (mi_size _ _ _ Hm). pose proof (mi_arena _ _ _ Hm) as [[FL Hinv] _ _ Hal _].
  rewrite (inv_used _ _ Hinv), msum_allocs. unfold allocated in Hal. rewrite Hal.
  unfold msum. by rewrite map_fold_fmap.
Qed.
Lemma map_size_bound s R0 : map_inv arch s R0 → 0 ≤ size (vmap s) < two64.
Proof.
  intros Hm. rewrite (map_size_used s R0) by done. pose proof (mi_arena _ _ _ Hm) as [[FL Hinv] _ _ Hal _].
  pose proof (inv_used_bounds _ _ Hinv). lia.
Qed.

(** The references of the detached entries leave the map. *)
Lemma extraction_refs E start end_ D E' R0 :
  extraction E start end_ D E' → req (rapp (refs_of E') (rapp (refs_of D) R0)) (rapp (refs_of E) R0).
Proof.
  intros [Hdis ->]%extraction_union. by rewrite refs_union, rapp_assoc, (rapp_comm (refs_of E')).
Qed.

Lemma extraction_arena E start end_ (d : Index tree VmMapEntry) E' :
  (∀ k e, E !! k = Some e → entry_wf arch k e) → index_ok d →
  extraction E start end_ (index_map d) E' →
  foldr delete (elen <$> E) (e_start <$> values d) = elen <$> E'.
Proof.
  intros Hwf Hok [Hin Hout]. destruct (values_keys d Hok) as (Hkeys & _).
  { intros k e [Hk _]%Hin. by apply (Hwf _ _ Hk). }
  apply map_eq. intros k. rewrite foldr_delete_lookup, !lookup_fmap. case_decide as Hd.
  - apply Hkeys in Hd as [e [Hk Hr]%Hin]. destruct (E' !! k) eqn:E1; [|done]. apply Hout in E1. naive_solver.
  - destruct (E !! k) as [e|] eqn:Ek.
    + assert (E' !! k = Some e) as ->; [|done]. apply Hout. split; [done|]. intros Hr. apply Hd, Hkeys.
      exists e. by apply Hin.
    + destruct (E' !! k) as [e|] eqn:E1; [|done]. apply Hout in E1. naive_solver.
Qed.

(** The second half of [unmap]. *)
Lemma detach_spec s R0 start end_ o :
  map_inv arch s R0 → uncrossed start (emap (vmap s)) → uncrossed end_ (emap (vmap s)) →
  wp (let* s := get in
      let '(detached, rest) := extract_range start end_ (entries (vmap s)) in
      do modify (with_entries (λ _, rest)) then
      if len detached =? 0 then ret (Err NotMapped)
      else
        do release_all (values detached) then
        do bump_timestamp then
        ret (Ok detached))
     (λ r s' o', o' = o ∧ world s' = world s ∧
       match r with
       | Ok d => index_ok d ∧ map_inv arch s' (rapp (refs_of (index_map d)) R0) ∧
           index_map d ≠ ∅ ∧ extraction (emap (vmap s)) start end_ (index_map d) (emap (vmap s'))
       | Err e => e = NotMapped ∧ map_inv arch s' R0 ∧ emap (vmap s') = emap (vmap s) ∧
           ∀ k e, emap (vmap s) !! k = Some e → ¬ (start ≤ k < end_)
       end) s o.
Proof.
  intros Hm Hs He. do 2 wp_step.
  pose proof (extract_range_extraction (entries (vmap s)) start end_ (mi_index _ _ _ Hm)) as Hex.
  destruct (extract_range _ _ _) as [d rest]. destruct Hex as (Hd & Hrest & Hex). do 2 wp_step.
  rewrite (index_ok_size d Hd). pose proof Hex as [Hin Hout]. pose proof (mi_wf _ _ _ Hm) as Hwf.
  destruct (Z.eqb_spec (Z.of_nat (base.size (index_map d))) 0) as [Hz|Hz].
  - wp_step. assert (index_map d = ∅) as Hemp by (apply map_size_empty_inv; lia).
    assert (emap (vmap (with_entries (λ _, rest) s)) = emap (vmap s)) as Hsame.
    { unfold emap. simpl. apply extraction_union in Hex as [_ Hu]. rewrite Hemp, (left_id_L ∅ (∪)) in Hu. done. }
    split; [done|]. split; [done|]. split; [done|]. split.
    + destruct Hm. by split; rewrite ?Hsame.
    + split; [done|]. intros k e Hk Hr. assert (index_map d !! k = Some e) as Hdk by (by apply Hin).
      by rewrite Hemp in Hdk.
  - destruct (values_keys d Hd) as (Hkeys & Hnd & Hval & Hsum).
    { intros k e [Hk _]%Hin. by apply (Hwf _ _ Hk). }
    pose proof (extraction_union _ _ _ _ _ Hex) as [Hdis Hun].
    assert (msum elen (emap (vmap s)) = msum elen (index_map d) + msum elen (index_map rest)) as Hms.
    { unfold emap. rewrite Hun. by apply msum_union. }
    assert (0 ≤ msum elen (index_map rest)) as Hr0.
    { apply elen_sum_bound. intros k e [Hk _]%Hout. eauto. }
    pose proof (map_size_bound s R0 Hm) as Hb. pose proof (mi_size _ _ _ Hm) as Hsz.
    wp_step. eapply wp_mono; [eapply release_all_spec; [apply Hm|done| |simpl; lia]|].
    { intros e [Hk _]%Hval%Hin. rewrite lookup_fmap. unfold emap. rewrite Hk. split; [done|].
      destruct (Hwf _ _ Hk). unfold elen. lia. }
    intros [] s2 o2 (-> & v2 & Ha2 & ->). unfold bump_timestamp. do 3 wp_step. split; [done|]. split; [done|].
    split; [done|]. erewrite extraction_arena in Ha2 by done.
    split; [|split; [intros Hemp; by rewrite Hemp in Hz|done]].
    split; simpl; try done.
    + intros k e [Hk _]%Hout. eauto.
    + unfold emap. simpl. lia.
    + apply bump_time, Hm.
    + unfold emap. simpl. rewrite (extraction_refs _ _ _ _ _ _ Hex). apply Hm.
Qed.

(** [unmap] removes exactly the pages of the range; the detached entries still
    show them. *)
Lemma unmap_spec s R0 start length o :
  map_inv arch s R0 → few_refs 3 (map_refs s R0) → is_u64 start → is_u64 length →
  wp (unmap arch start length) (λ r s' o', o' ⊆ o ∧ kept R0 (world s) (world s') ∧
     match r with
     | Ok d => index_ok d ∧ map_inv arch s' (rapp (refs_of (index_map d)) R0) ∧
         0 < length ∧ user_range arch start (start + page_round length) ∧
         (∃ a, in_range start length a ∧ is_Some (view s a)) ∧
         (∀ a, view s' a = if decide (in_range start length a) then None else view s a) ∧
         ∀ a pv, shows (world s') (index_map d) a pv ↔ in_range start length a ∧ view s a = Some pv
     | Err x => map_inv arch s' R0 ∧ (∀ a, view s' a = view s a) ∧
         ((x = InvalidAddress ∧ ¬ (0 < length ∧ user_range arch start (start + page_round length))) ∨
          (x = NotMapped ∧ ∀ a, in_range start length a → view s a = None) ∨
          (x = OutOfMemory ∧ false ∈ o))
     end) s o.
Proof.
  intros Hm Hfew Hs Hl. unfold unmap, in_range. do 2 wp_step.
  destruct (checked_end_spec arch start length Hs Hl) as [(-> & Hpos & Hur)|[-> Hno]]; cbv beta iota.
  2: { split_and!; try done; auto. }
  set (end_ := start + page_round length) in *.
  eapply wp_clip_range; try done.
  2: { intros s1 o1 Ho1 [] Hf. split_and!; try done; auto. }
  intros s1 o1 Ho1 [] Hf1 Hu1 Hu2. eapply wp_mono; [by apply detach_spec|].
  pose proof (mi_wf _ _ _ q_inv) as Hwf1.
  intros [d|x] s2 o2 (-> & Hw2 & H2); split; try done; rewrite Hw2; (split; [done|]).
  - destruct H2 as (Hd & Hm2 & Hne & Hex).
    assert (∀ a pv, shows (world s1) (index_map d) a pv ↔ start ≤ a < end_ ∧ view s a = Some pv) as Hshow.
    { intros a pv. rewrite (proj1 (shows_extraction _ _ _ _ _ (world s1) a pv Hex Hu1 Hu2 Hwf1)).
      by rewrite <- (view_shows arch s1 R0), q_view by done. }
    do 4 (split; [done|]). split; [|split; [|done]].
    + apply map_choose in Hne as (k & e & Hk). pose proof Hk as [Hk1 _]%Hex. pose proof (Hwf1 _ _ Hk1) as [].
      assert (shows (world s1) (index_map d) k (page_view (world s1) e k)) as [? Hv]%Hshow.
      { exists k, e. split; [done|]. split; [|done]. unfold inside_entry. lia. }
      exists k. split; [done|]. rewrite Hv. done.
    + intros a. rewrite <- q_view. case_decide as Hr.
      * eapply (view_None arch s2); [done|]. intros pv Hsh. rewrite Hw2 in Hsh.
        by apply (proj2 (shows_extraction _ _ _ _ _ (world s1) a pv Hex Hu1 Hu2 Hwf1)) in Hsh as [? _].
      * eapply (view_eq arch s1 s2); [done|done|]. intros pv. rewrite Hw2.
        rewrite (proj2 (shows_extraction _ _ _ _ _ (world s1) a pv Hex Hu1 Hu2 Hwf1)). tauto.
  - destruct H2 as (-> & Hm2 & HE2 & Hno). split; [done|]. split.
    + intros a. rewrite <- q_view. eapply (view_eq arch s1 s2); [done|done|]. intros pv. by rewrite Hw2, HE2.
    + right; left. split; [done|]. intros a Ha. rewrite <- q_view. apply (view_None arch s1 R0); [done|].
      intros pv (k & e & Hk & Hi & _). apply (Hno _ _ Hk).
      by rewrite (uncrossed_key (emap (vmap s1)) start end_ k e a) by eauto.
Qed.

(** ** Dropping detached entries *)

Definition rlist (l : list VmMapEntry) R : refmap := foldr radd R l.

Lemma kept_rlist l R w w' : kept (rlist l R) w w' → kept R w w'.
Proof. induction l; simpl; [done|]. intros H%kept_radd. auto. Qed.

Lemma drop_entries_spec l : ∀ s R o,
  world_inv (world s) (rlist l R) →
  wp (drop_entries l) (λ _ s' o', o' ⊆ o ∧ ∃ w', s' = with_world w' s ∧
     world_inv w' R ∧ kept R (world s) w') s o.
Proof.
  induction l as [|e l IH]; intros s R o Hw; cbn [drop_entries].
  - wp_step. split; [done|]. exists (world s). by rewrite world_eta_sys.
  - wp_step. eapply wp_mono; [by eapply drop_entry_spec|]. intros [] s1 o1 (Ho1 & w1 & -> & Hw1 & Hk1).
    eapply wp_mono; [by eapply IH|]. intros [] s2 o2 (Ho2 & w2 & -> & Hw2 & Hk2). split; [sub_oracle|].
    exists w2. split; [done|]. split; [done|]. etrans; [|exact Hk2]. by eapply kept_rlist.
Qed.

Lemma refs_rlist (d : Index tree VmMapEntry) R :
  index_ok d → req (rlist (values d) R) (rapp (refs_of (index_map d)) R).
Proof.
  intros Hd id. unfold rapp, refs_of, values, index_map.
  assert (∀ l : list (Z * VmMapEntry), rlist l.*2 R id = omap (λ p, ref_to id p.2) l ++ R id) as Hl.
  { induction l as [|[k e] l IH]; [done|]. rewrite fmap_cons. unfold rlist in *. simpl. unfold radd at 1.
    rewrite IH. by destruct (ref_to id e). }
  rewrite Hl. f_equiv. symmetry. f_equiv. apply map_to_list_to_map, Hd.
Qed.

Lemma map_inv_world s R0 R1 w' :
  map_inv arch s R0 → world_inv w' (rapp (refs_of (emap (vmap s))) R1) → map_inv arch (with_world w' s) R1.
Proof. intros [] Hw. by split. Qed.

Lemma view_world s R0 R1 w' a :
  map_inv arch s R0 → map_inv arch (with_world w' s) R1 → kept (refs_of (emap (vmap s))) (world s) w' →
  view (with_world w' s) a = view s a.
Proof.
  intros Hm Hm' Hk. eapply (view_eq arch); [exact Hm|exact Hm'|]. intros pv. simpl.
  apply (shows_kept arch); [done|apply Hm].
Qed.

Lemma drop_detached_spec s R0 d o :
  map_inv arch s (rapp (refs_of (index_map d)) R0) → index_ok d →
  wp (drop_detached d) (λ _ s' o', o' ⊆ o ∧ map_inv arch s' R0 ∧ (∀ a, view s' a = view s a) ∧
     kept R0 (world s) (world s')) s o.
Proof.
  intros Hm Hd. unfold drop_detached. pose proof (mi_world _ _ _ Hm) as Hw.
  eapply wp_mono; [apply (drop_entries_spec _ s (rapp (refs_of (emap (vmap s))) R0))|].
  - rewrite refs_rlist by done. rewrite rapp_assoc, (rapp_comm (refs_of (index_map d))), <- rapp_assoc. done.
  - intros [] s1 o1 (Ho1 & w1 & -> & Hw1 & Hk1). split; [done|].
    assert (map_inv arch (with_world w1 s) R0) as Hm1 by (by eapply map_inv_world). split; [done|]. split.
    + intros a. eapply view_world; try done. by eapply kept_rapp_l.
    + by eapply kept_rapp_r.
Qed.
End unmap.
