(* ===== verification/VmMapMerge.v ===== *)
(** Joining adjacent entries ([merge_following], [merge_new]) changes nothing
    that the map shows. *)
From S2P Require Import Prelude.
From S2P Require Import Index.
From S2P Require Import Tags.
From S2P Require Import Vmem.
From S2P Require Import VmemInv.
From S2P Require Import VmemFit.
From S2P Require Import VmemOps.
From S2P Require Import Amap.
From S2P Require Import AmapInv.
From S2P Require Import AmapSpec.
From S2P Require Import AmapHeap.
From S2P Require Import AmapHeapSpec.
From S2P Require Import VmMap.
From S2P Require Import VmMapInv.
From S2P Require Import VmMapOps.
From S2P Require Import VmMapUnmap.
Open Scope rust_scope.

Section merge.
Context {tree : Type → Type} `{!RBTree tree, !RBTreeLaws tree}.
Variable arch : Arch.
Implicit Types (s : Sys tree) (e lo hi m : VmMapEntry) (E : gmap Z VmMapEntry) (R : refmap) (o : oracle).

(** The invariant on a map of entries, which may not be published yet. *)
Record core E (v : Vmem tree) (w : World) R0 : Prop := {
  co_wf k e : E !! k = Some e → entry_wf arch k e;
  co_arena : arena_ok arch v E;
  co_world : world_inv w (rapp (refs_of E) R0);
}.

Lemma map_inv_core s R0 : map_inv arch s R0 → core (emap (vmap s)) (space (vmap s)) (world s) R0.
Proof. intros []. by split. Qed.

(** ** The entry that replaces two *)

Lemma compatible_spec e e' :
  compatible e e' = true ↔
  e_protection e = e_protection e' ∧ e_maximum e = e_maximum e' ∧ e_inheritance e = e_inheritance e' ∧
  e_advice e = e_advice e' ∧ e_private e = e_private e' ∧ e_needs_copy e = e_needs_copy e' ∧
  e_wired e = e_wired e' ∧ object_id <$> e_object e = object_id <$> e_object e'.
Proof.
  unfold compatible. rewrite !andb_true_iff, !Z.eqb_eq, !bool_decide_eq_true.
  assert (∀ a b : option VmObject, match a, b with
    | None, None => true | Some a, Some b => (object_id a =? object_id b)%nat | _, _ => false end = true
    ↔ object_id <$> a = object_id <$> b) as ->; [|tauto].
  intros [a|] [b|]; simpl; try done. rewrite Nat.eqb_eq. split; [by intros ->|by intros [= ->]].
Qed.

(** The amap of the joined entry: only one of the two had one, which was
    extended over the other. *)
Definition joined (w w' : World) lo hi (am : option MapRef) : Prop :=
  match e_amap lo, e_amap hi with
  | None, None => am = None
  | Some r, None => ∃ r', am = Some r' ∧ extended_ref w w' r r' (pages hi) false
  | None, Some r => ∃ r', am = Some r' ∧ extended_ref w w' r r' (pages lo) true
  | Some _, Some _ => False
  end.

Record join (w w' : World) lo hi m : Prop := {
  jo_adjacent : e_end lo = e_start hi;
  jo_alike : compatible lo hi = true;
  jo_object : contiguous_object lo hi = true;
  jo_same : compatible m lo = true;
  jo_start : e_start m = e_start lo;
  jo_end : e_end m = e_end hi;
  jo_offset : e_object_offset m = e_object_offset lo;
  jo_amap : joined w w' lo hi (e_amap m);
}.

Lemma elen_pages k e : entry_wf arch k e → Z.of_nat (pages e) = elen e / PAGE_SIZE.
Proof. intros []. unfold pages, elen. pose proof (pages_nonneg (e_start e) (e_end e) ltac:(lia)). lia. Qed.

Lemma inside_page k e a :
  entry_wf arch k e → inside_entry e a → (Z.to_nat ((a - e_start e) / PAGE_SIZE) < pages e)%nat.
Proof.
  intros Hwf [Hlo Hhi]. pose proof (elen_pages _ _ Hwf) as Hp. destruct Hwf. unfold elen in Hp.
  pose proof (sub_aligned _ _ ew_astart ew_aend) as Hm. unfold PAGE_SIZE in *.
  apply Z.mod_divide in Hm as [n Hn]; [|done]. rewrite Hn, Z.div_mul in Hp by done.
  assert ((a - e_start e) / 4096 < n) by (apply Z.div_lt_upper_bound; lia).
  pose proof (pages_nonneg (e_start e) a ltac:(lia)). unfold PAGE_SIZE in *. lia.
Qed.

Lemma join_pages w w' k1 lo k2 hi m :
  entry_wf arch k1 lo → entry_wf arch k2 hi → join w w' lo hi m → pages m = (pages lo + pages hi)%nat.
Proof.
  intros H1 H2 []. pose proof (elen_pages _ _ H1) as P1. pose proof (elen_pages _ _ H2) as P2.
  destruct H1, H2. unfold elen in *. pose proof (pages_split (e_start lo) (e_end lo) (e_end hi) ew_astart ew_aend).
  unfold pages, elen in *. rewrite jo_start0, jo_end0. rewrite jo_adjacent0 in *. lia.
Qed.

Lemma join_slots w w' k1 lo k2 hi m a :
  entry_wf arch k1 lo → entry_wf arch k2 hi → join w w' lo hi m →
  (inside_entry lo a → slot_of w' m a = slot_of w lo a) ∧ (inside_entry hi a → slot_of w' m a = slot_of w hi a).
Proof.
  intros H1 H2 []. unfold slot_of. rewrite jo_start0. unfold joined in jo_amap0.
  assert (inside_entry hi a → Z.to_nat ((a - e_start lo) / PAGE_SIZE) =
            (pages lo + Z.to_nat ((a - e_start hi) / PAGE_SIZE))%nat) as Hhi.
  { intros Hin. pose proof (elen_pages _ _ H1) as P1. pose proof (inside_page _ _ _ H2 Hin). destruct H1, H2.
    unfold elen, inside_entry in *. rewrite (pages_split (e_start lo) (e_end lo) a) by done.
    rewrite jo_adjacent0 in *. pose proof (pages_nonneg (e_start hi) a ltac:(lia)). lia. }
  destruct (e_amap lo) as [r|] eqn:A1, (e_amap hi) as [r2|] eqn:A2; try done.
  - destruct jo_amap0 as (r' & -> & (Hid & Hl & Hold & Hnew & _)). rewrite Hid.
    pose proof (ew_amap _ _ _ H1 _ A1) as L1. split; intros Hin.
    + rewrite <- Hold by (rewrite L1; by eapply inside_page). f_equal. lia.
    + rewrite Hhi by done. rewrite <- (Hnew (Z.to_nat ((a - e_start hi) / PAGE_SIZE))) by (by eapply inside_page).
      f_equal. lia.
  - destruct jo_amap0 as (r' & -> & (Hid & Hl & Hold & Hnew & _)). rewrite Hid.
    pose proof (ew_amap _ _ _ H2 _ A2) as L2. split; intros Hin.
    + rewrite <- (Hnew (Z.to_nat ((a - e_start lo) / PAGE_SIZE))) by (by eapply inside_page). f_equal. lia.
    + rewrite Hhi by done. rewrite <- Hold by (rewrite L2; by eapply inside_page). f_equal. lia.
  - by rewrite jo_amap0.
Qed.

(** With an object, the upper entry continues the lower one. *)
Lemma contiguous_offset k lo hi :
  entry_wf arch k lo → contiguous_object lo hi = true → is_Some (e_object lo) →
  e_object_offset hi = e_object_offset lo + elen lo / PAGE_SIZE.
Proof.
  intros [] Hc [obj Ho]. pose proof (user_max_bound arch). unfold contiguous_object in Hc. rewrite Ho in Hc.
  apply bool_decide_eq_true in Hc. unfold USER_ADDRESS_MIN in *. rewrite u64_sub_small in Hc by lia.
  apply checked_add_Some in Hc as [-> _]. done.
Qed.

Lemma same_object_is_Some (a b : option VmObject) :
  object_id <$> a = object_id <$> b → is_Some a ↔ is_Some b.
Proof. destruct a, b; simpl; intros; simplify_eq; split; intros []; done. Qed.

Lemma join_view w w' k1 lo k2 hi m a :
  entry_wf arch k1 lo → entry_wf arch k2 hi → join w w' lo hi m →
  (inside_entry lo a → page_view w' m a = page_view w lo a) ∧
  (inside_entry hi a → page_view w' m a = page_view w hi a).
Proof.
  intros H1 H2 Hj. destruct (join_slots w w' k1 lo k2 hi m a H1 H2 Hj) as [S1 S2]. destruct Hj.
  apply compatible_spec in jo_same0 as (M1 & M2 & M3 & M4 & M5 & M6 & M7 & M8).
  apply compatible_spec in jo_alike0 as (L1 & L2 & L3 & L4 & L5 & L6 & L7 & L8).
  pose proof (same_object_is_Some _ _ M8) as I1. pose proof (same_object_is_Some _ _ L8) as I2.
  split; intros Hin; unfold page_view; f_equal; try congruence; try auto.
  - rewrite jo_start0, jo_offset0. destruct (e_object m), (e_object lo); try done.
  - rewrite jo_start0, jo_offset0.
    destruct (e_object m), (e_object hi); try done; destruct (e_object lo) eqn:Eo; try done.
    rewrite (contiguous_offset k1 lo hi) by (try done; by rewrite Eo). destruct H1, H2.
    rewrite (pages_split (e_start lo) (e_end lo) a) by done. unfold elen. rewrite jo_adjacent0. lia.
Qed.

Lemma join_wf w w' k1 lo k2 hi m :
  entry_wf arch k1 lo → entry_wf arch k2 hi → join w w' lo hi m → entry_wf arch k1 m.
Proof.
  intros H1 H2 Hj. pose proof (join_pages _ _ _ _ _ _ _ H1 H2 Hj) as Hp.
  pose proof (elen_pages _ _ H1) as P1. pose proof (elen_pages _ _ H2) as P2.
  pose proof (contiguous_offset k1 lo hi H1 (jo_object _ _ _ _ _ Hj)) as Hoff. destruct Hj.
  apply compatible_spec in jo_same0 as (_ & _ & _ & _ & _ & _ & _ & M8).
  apply compatible_spec in jo_alike0 as (_ & _ & _ & _ & _ & _ & _ & L8).
  pose proof (same_object_is_Some _ _ M8) as I1. pose proof (same_object_is_Some _ _ L8) as I2.
  pose proof (ew_amap _ _ _ H1) as Am1. pose proof (ew_amap _ _ _ H2) as Am2.
  pose proof H1 as []. pose proof H2 as []. split; rewrite ?jo_start0, ?jo_end0; try done; try lia.
  - unfold offset_ok in *. rewrite jo_offset0, jo_start0. destruct ew_offset as [? O1], ew_offset0 as [? O2].
    split; [done|]. destruct (e_object m).
    + destruct (e_object lo) eqn:Eo; [|naive_solver]. destruct (e_object hi) eqn:Eh; [|naive_solver].
      rewrite Hoff in O2 by done. unfold pages in Hp. unfold elen in *. rewrite jo_end0, jo_start0 in *.
      pose proof (pages_split (e_start lo) (e_end lo) (e_end hi) ew_astart ew_aend). rewrite jo_adjacent0 in *. lia.
    + destruct (e_object lo) eqn:Eo; [naive_solver|done].
  - intros r Hr. rewrite Hp. unfold joined in jo_amap0.
    destruct (e_amap lo) as [r1|], (e_amap hi) as [r2|]; try done; [| |congruence].
    + destruct jo_amap0 as (r' & Hr' & (_ & Hl & _)). rewrite Hr in Hr'. injection Hr' as <-.
      rewrite Hl, (Am1 _ eq_refl). done.
    + destruct jo_amap0 as (r' & Hr' & (_ & Hl & _)). rewrite Hr in Hr'. injection Hr' as <-.
      rewrite Hl, (Am2 _ eq_refl). lia.
Qed.

(** ** The map of entries *)

(** [E] with the two entries replaced. *)
Definition join_entries E (k1 k2 : Z) m : gmap Z VmMapEntry := <[k1 := m]> (delete k2 E).

Definition rest_refs E (k1 k2 : Z) R0 : refmap := rapp (refs_of (delete k2 (delete k1 E))) R0.

Lemma join_core E v v' w w' R0 k1 lo k2 hi m :
  core E v w R0 → E !! k1 = Some lo → E !! k2 = Some hi → join w w' lo hi m →
  arena_is arch v' (<[k1 := elen m]> (delete k2 (elen <$> E))) →
  world_inv w' (radd m (rest_refs E k1 k2 R0)) → core (join_entries E k1 k2 m) v' w' R0.
Proof.
  intros [Hwf _ _] H1 H2 Hj Ha Hw. unfold join_entries. split.
  - intros k e [[<- <-]|[Hne Hk]]%lookup_insert_Some; [by eapply join_wf; eauto|].
    apply lookup_delete_Some in Hk as [_ Hk]. eauto.
  - unfold arena_ok. by rewrite fmap_insert, fmap_delete.
  - rewrite <- insert_delete_eq, refs_insert by apply lookup_delete_eq.
    rewrite rapp_radd. unfold rest_refs in Hw. by rewrite delete_delete in Hw.
Qed.

Lemma join_shows E v w w' R0 k1 lo k2 hi m a pv :
  core E v w R0 → E !! k1 = Some lo → E !! k2 = Some hi → join w w' lo hi m →
  kept (rest_refs E k1 k2 R0) w w' →
  shows w' (join_entries E k1 k2 m) a pv ↔ shows w E a pv.
Proof.
  intros [Hwf _ _] H1 H2 Hj Hk. pose proof (Hwf _ _ H1) as W1. pose proof (Hwf _ _ H2) as W2.
  destruct (join_view w w' k1 lo k2 hi m a W1 W2 Hj) as [V1 V2].
  assert (inside_entry m a ↔ inside_entry lo a ∨ inside_entry hi a) as Hin.
  { unfold inside_entry. destruct Hj, W1, W2. lia. }
  assert (k1 ≠ k2) as Hne by (destruct Hj, W1, W2; lia).
  assert (∀ k e, k ≠ k1 → k ≠ k2 → E !! k = Some e → inside_entry e a → page_view w' e a = page_view w e a) as Hoth.
  { intros k e N1 N2 He Hi. apply kept_rapp_l in Hk. eapply (page_view_kept arch); eauto.
    by rewrite !lookup_delete_ne by done. }
  unfold join_entries. split.
  - intros (k & e & He & Hi & ->). apply lookup_insert_Some in He as [[<- <-]|[N1 He]].
    + apply Hin in Hi as [Hi|Hi]; [exists k1, lo; auto|exists k2, hi; auto].
    + apply lookup_delete_Some in He as [N2 He]. exists k, e. split_and!; eauto.
  - intros (k & e & He & Hi & ->). destruct (decide (k = k1)) as [->|N1].
    { simplify_eq. exists k1, m. rewrite lookup_insert_eq, Hin. split_and!; auto. by rewrite V1. }
    destruct (decide (k = k2)) as [->|N2].
    { simplify_eq. exists k1, m. rewrite lookup_insert_eq, Hin. split_and!; auto. by rewrite V2. }
    exists k, e. rewrite lookup_insert_ne, lookup_delete_ne by done. split_and!; try done. symmetry. eauto.
Qed.

Lemma join_size E v w w' R0 k1 lo k2 hi m :
  core E v w R0 → E !! k1 = Some lo → E !! k2 = Some hi → join w w' lo hi m →
  msum elen (join_entries E k1 k2 m) = msum elen E.
Proof.
  intros [Hwf _ _] H1 H2 Hj. unfold join_entries. assert (k1 ≠ k2).
  { destruct (Hwf _ _ H1), (Hwf _ _ H2), Hj. lia. }
  rewrite (msum_insert_Some _ _ _ lo) by (by rewrite lookup_delete_ne).
  rewrite (msum_delete _ _ _ _ H2). destruct Hj. unfold elen. lia.
Qed.
End merge.

(** ** [extend_entry], [merge_following] and [merge_new]. *)

Section mergeops.
Context {tree : Type → Type} `{!RBTree tree, !RBTreeLaws tree}.
Variable arch : Arch.
Implicit Types (s : Sys tree) (e lo hi m : VmMapEntry) (E : gmap Z VmMapEntry) (R : refmap) (o : oracle).

(** The reference of [e] is the only one to its amap. *)
Definition exclusive e R : Prop := ∀ r, e_amap e = Some r → R (mr_map r) = [].

Definition extended (w w' : World) e (am : option MapRef) (added : nat) (backwards : bool) : Prop :=
  match e_amap e with
  | None => am = None
  | Some r => ∃ r', am = Some r' ∧ extended_ref w w' r r' added backwards
  end.

Lemma wp_none_or_exclusive s R e o (Q : bool → Sys tree → oracle → Prop) :
  world_inv (world s) (radd e R) → (∀ b : bool, (b = true → exclusive e R) → Q b s o) →
  wp (none_or_exclusive (e_amap e)) Q s o.
Proof.
  intros Hw HQ. unfold none_or_exclusive, exclusive in *. destruct (e_amap e) as [r|] eqn:Ea; [|wp_step; by apply HQ].
  apply wp_zoom. eapply wp_mono; [eapply is_exclusive_spec; [exact Hw|by apply radd_in]|].
  intros b w' o' (-> & -> & Hb). rewrite world_eta_sys. apply HQ. intros Ht r' [= <-]. apply Hb in Ht.
  unfold radd, ref_to in Ht. rewrite Ea, decide_True in Ht by done. by injection Ht.
Qed.

Lemma set_amap_same e : set_amap (e_amap e) e = e.
Proof. by destruct e. Qed.

Lemma wp_extend_entry s R key e added backwards o (Q : bool → Sys tree → oracle → Prop) :
  index_ok (entries (vmap s)) → emap (vmap s) !! key = Some e →
  world_inv (world s) (radd e R) → exclusive e R → 0 ≤ added →
  (∀ i' w' am o', o' ⊆ o → index_ok i' → index_map i' = <[key := set_amap am e]> (emap (vmap s)) →
     world_inv w' (radd (set_amap am e) R) → kept R (world s) w' →
     extended (world s) w' e am (Z.to_nat added) backwards →
     Q true (with_world w' (with_entries (λ _, i') s)) o') →
  (∀ w' o', o' ⊆ o → world_inv w' (radd e R) → kept (radd e R) (world s) w' → Q false (with_world w' s) o') →
  wp (extend_entry key added backwards) Q s o.
Proof.
  intros Hok Hk Hw Hx Hadd HT HF. unfold extend_entry, get_entry. do 2 wp_step. unfold emap in Hk.
  rewrite index_get_imap, Hk by done. do 2 wp_step. unfold extended in HT. destruct (e_amap e) as [r|] eqn:Ea.
  2: { wp_step. pose proof (HT (entries (vmap s)) (world s) None o) as HT'. rewrite <- Ea, set_amap_same in HT'.
       destruct s as [[]]. apply HT'; try done. unfold emap. simpl in *. by rewrite insert_id. }
  wp_step. apply wp_zoom. assert (radd e R (mr_map r) = [(mr_offset r, mr_length r)]) as HR.
  { unfold radd, ref_to. rewrite Ea, decide_True, Hx by done. done. }
  eapply wp_mono; [eapply (mapref_extend_spec _ (radd e R)); [exact Hw|exact HR|done]|].
  intros [r'|x] w' o' (Ho & Hr); cbv beta iota.
  - destruct Hr as [Hw' Hext]. unfold update_entry. do 3 wp_step.
    destruct (index_update_ok (entries (vmap s)) key (set_amap (Some r')) Hok) as [Hok' Hm'].
    apply (HT (index_update key (set_amap (Some r')) (entries (vmap s))) w' (Some r') o'); try done.
    + rewrite Hm'. apply map_eq. intros j. rewrite lookup_alter, lookup_insert. case_decide; [subst; by rewrite Hk|done].
    + eapply world_inv_req; [|exact Hw']. intros id. pose proof Hext as (Hid & _). unfold rset, radd, ref_to.
      simpl. rewrite Ea, Hid. destruct (decide (id = mr_map r)) as [->|N].
      * rewrite decide_True by done. by rewrite (Hx r).
      * by rewrite !decide_False by congruence.
    + intros id i Hc. destruct Hext as (_ & _ & _ & _ & Hoth). apply Hoth. intros ->. rewrite (Hx r) in Hc by done.
      unfold count in Hc. simpl in Hc. lia.
    + by exists r'.
  - destruct Hr as (-> & Hw' & Hk'). wp_step. apply HF; [done|done|]. intros id i Hc. apply Hk'.
    destruct (decide (id = mr_map r)) as [->|]; [right|by left]. rewrite HR in Hc.
    apply count_pos in Hc as (p & ->%list_elem_of_singleton & Hcov). done.
Qed.

(** ** The state after a join *)

Record rejoined s s' E R0 : Prop := {
  rj_index : index_ok (entries (vmap s'));
  rj_core : core arch (emap (vmap s')) (space (vmap s')) (world s') R0;
  rj_shows a pv : shows (world s') (emap (vmap s')) a pv ↔ shows (world s) E a pv;
  rj_kept : kept R0 (world s) (world s');
  rj_size : size (vmap s') = size (vmap s);
  rj_time : timestamp (vmap s') = timestamp (vmap s);
  rj_sum : msum elen (emap (vmap s')) = msum elen E;
}.

Lemma two_refs E k1 lo k2 hi R0 :
  E !! k1 = Some lo → E !! k2 = Some hi → k1 ≠ k2 →
  req (rapp (refs_of E) R0) (radd lo (radd hi (rest_refs E k1 k2 R0))) ∧
  req (rapp (refs_of (delete k1 E)) R0) (radd hi (rest_refs E k1 k2 R0)).
Proof.
  intros H1 H2 Hne. assert (delete k1 E !! k2 = Some hi) as H2' by (by rewrite lookup_delete_ne).
  assert (req (rapp (refs_of (delete k1 E)) R0) (radd hi (rest_refs E k1 k2 R0))) as Hr.
  { by rewrite (refs_delete _ _ _ H2'), rapp_radd. }
  split; [|done]. by rewrite (refs_delete _ _ _ H1), rapp_radd, Hr.
Qed.

Lemma exclusive_rest e hi R R' : req R (radd hi R') → exclusive e R → exclusive e R'.
Proof.
  intros HR Hx r Hr. specialize (HR (mr_map r)). rewrite (Hx r Hr) in HR. unfold radd in HR.
  destruct (ref_to (mr_map r) hi); [by apply Permutation_nil_cons in HR|].
  symmetry in HR. by apply Permutation_nil_r in HR.
Qed.

(** The entries [E] (one of which may be virtual) become [join_entries]. *)
Lemma joined_spec s s' E v w' R0 k1 lo k2 hi m :
  core arch E v (world s) R0 → E !! k1 = Some lo → E !! k2 = Some hi →
  join (world s) w' lo hi m → world_inv w' (radd m (rest_refs E k1 k2 R0)) →
  kept (rest_refs E k1 k2 R0) (world s) w' →
  index_ok (entries (vmap s')) → emap (vmap s') = join_entries E k1 k2 m →
  arena_is arch (space (vmap s')) (<[k1 := elen m]> (delete k2 (elen <$> E))) →
  world s' = w' → size (vmap s') = size (vmap s) → timestamp (vmap s') = timestamp (vmap s) →
  rejoined s s' E R0.
Proof.
  intros Hc H1 H2 Hj Hw Hk Hok HE Ha <- Hsz Ht. split; try done.
  - rewrite HE. by eapply join_core.
  - intros a pv. rewrite HE. by eapply join_shows.
  - unfold rest_refs in Hk. by eapply kept_rapp_r.
  - rewrite HE. by eapply join_size.
Qed.

Lemma rejoined_refl s E R0 w' :
  index_ok (entries (vmap s)) → E = emap (vmap s) → core arch E (space (vmap s)) (world s) R0 →
  world_inv w' (rapp (refs_of E) R0) → kept (rapp (refs_of E) R0) (world s) w' →
  rejoined s (with_world w' s) E R0.
Proof.
  intros Hok -> [] Hw Hk. split; try done.
  - intros a pv. simpl. apply (shows_kept arch); [by eapply kept_rapp_l|done].
  - by eapply kept_rapp_r.
Qed.

Lemma core_ranges E v w R0 k1 lo k2 hi :
  core arch E v w R0 → E !! k1 = Some lo → E !! k2 = Some hi → e_end lo = k2 →
  page_range k1 (e_end hi - k1) ∧ k1 < e_end lo < e_end hi ∧ 0 ≤ k1 ∧ e_end hi < two64 ∧
  ∀ a, k1 ≤ a < k1 + (e_end hi - k1) → k1 ≤ a < k1 + elen lo ∨ k2 ≤ a < k2 + elen hi.
Proof.
  intros [Hwf _ _] H1 H2 He. destruct (Hwf _ _ H1), (Hwf _ _ H2). pose proof (user_max_bound arch).
  unfold USER_ADDRESS_MIN in *. split_and!; try lia.
  - split; try lia; [congruence|]. apply sub_aligned; congruence.
  - unfold elen. intros. lia.
Qed.

(** The end of [merge_following]: the amaps are extended, the entries and the
    arena follow. *)
Lemma merge_commit s i w' R0 key lo hi aml amh res o :
  let E := emap (vmap s) in
  core arch E (space (vmap s)) (world s) R0 → E !! key = Some lo → E !! e_end lo = Some hi →
  let m := set_bounds (e_start lo) (e_end hi) (e_object_offset lo)
             (match aml with None => amh | Some r => Some r end) lo in
  join (world s) w' lo hi m → world_inv w' (radd m (rest_refs E key (e_end lo) R0)) →
  kept (rest_refs E key (e_end lo) R0) (world s) w' → reserved_for res key (e_end hi - key) →
  index_ok i → index_map i = <[key := set_amap aml lo]> (<[e_end lo := set_amap amh hi]> E) →
  wp (let* upper := on_entries (index_remove (e_end lo)) in
      let* upper := expect upper in
      do update_entry key (λ lower,
           set_bounds (e_start lower) (e_end hi) (e_object_offset lower)
             (match e_amap lower with None => e_amap upper | Some r => Some r end) lower) then
      republish key (e_end lo) res)
     (λ _ s' o', o' = o ∧ rejoined s s' E R0) (with_world w' (with_entries (λ _, i) s)) o.
Proof.
  intros E Hc H1 H2 m Hj Hw Hk Hres Hi Hmi. unfold E in *.
  destruct (core_ranges _ _ _ _ _ _ _ _ Hc H1 H2 eq_refl) as (Hpr & Hlt & H0 & H64 & Hcov).
  assert (key ≠ e_end lo) as Hne by lia. wp_step. apply wp_zoom.
  eapply wp_index_remove; [done|simpl; rewrite Hmi, lookup_insert_ne, lookup_insert_eq by done; done|].
  intros i1 Hi1 Hmi1. simpl in Hmi1. do 2 wp_step. unfold update_entry. do 2 wp_step.
  eapply (wp_republish _ (elen <$> emap (vmap s)) key (elen lo) (e_end lo) (elen hi) key (e_end hi - key)); try done.
  { apply Hc. } { by rewrite lookup_fmap, H1. } { by rewrite lookup_fmap, H2. }
  intros v' Ha'. split; [done|].
  destruct (index_update_ok i1 key (λ lower,
     set_bounds (e_start lower) (e_end hi) (e_object_offset lower)
       (match e_amap lower with None => amh | Some r => Some r end) lower) Hi1) as [Hok2 Hm2].
  eapply (joined_spec s _ (emap (vmap s)) (space (vmap s)) w' R0 key lo (e_end lo) hi m); try done.
  - unfold emap, join_entries. simpl. unfold emap in *. rewrite Hm2, Hmi1, Hmi. apply map_eq. intros j.
    rewrite lookup_alter, lookup_insert. destruct (decide (key = j)) as [<-|Hj'].
    + rewrite lookup_delete_ne, lookup_insert_eq by done. done.
    + destruct (decide (e_end lo = j)) as [<-|Hj2]; [by rewrite !lookup_delete_eq|].
      by rewrite !lookup_delete_ne, !lookup_insert_ne by done.
  - simpl. replace (elen m) with (e_end hi - key).
    + by rewrite delete_delete, insert_delete_eq in Ha'.
    + unfold elen. simpl. by rewrite (ew_start _ _ _ (co_wf _ _ _ _ _ Hc _ _ H1)).
Qed.

(** The extension of the one amap of two adjacent entries. *)
Lemma wp_extend_pair s R0 key lo hi o (Q : bool → Sys tree → oracle → Prop) :
  let E := emap (vmap s) in
  let rest := rest_refs E key (e_end lo) R0 in
  index_ok (entries (vmap s)) → core arch E (space (vmap s)) (world s) R0 →
  E !! key = Some lo → E !! e_end lo = Some hi →
  bool_decide (is_Some (e_amap lo)) && bool_decide (is_Some (e_amap hi)) = false →
  exclusive lo rest → exclusive hi (radd lo rest) →
  (∀ i w' aml amh o', o' ⊆ o → index_ok i →
     index_map i = <[key := set_amap aml lo]> (<[e_end lo := set_amap amh hi]> E) →
     let am := match aml with None => amh | Some r => Some r end in
     joined (world s) w' lo hi am → world_inv w' (radd (set_amap am lo) rest) → kept rest (world s) w' →
     Q true (with_world w' (with_entries (λ _, i) s)) o') →
  (∀ w' o', o' ⊆ o → rejoined s (with_world w' s) E R0 → Q false (with_world w' s) o') →
  wp (match e_amap lo with
      | Some _ => extend_entry key ((e_end hi - e_end lo) / PAGE_SIZE) false
      | None =>
          match e_amap hi with
          | Some _ => extend_entry (e_end lo) ((e_end lo - key) / PAGE_SIZE) true
          | None => ret true
          end
      end) Q s o.
Proof.
  intros E rest Hok Hc Hlo Hhi Hboth Hxlo Hxhi HT HF. unfold E in *.
  destruct (core_ranges _ _ _ _ _ _ _ _ Hc Hlo Hhi eq_refl) as (_ & Hlt & _ & _ & _).
  assert (key ≠ e_end lo) as Hne by lia.
  destruct (two_refs _ key lo (e_end lo) hi R0 Hlo Hhi Hne) as [Hr2 _]. fold rest in Hr2.
  pose proof (co_world _ _ _ _ _ Hc) as Hw. rewrite Hr2 in Hw. unfold joined in HT.
  pose proof (co_wf _ _ _ _ _ Hc _ _ Hlo) as Wlo. pose proof (co_wf _ _ _ _ _ Hc _ _ Hhi) as Whi.
  assert (∀ w' o', o' ⊆ o → world_inv w' (radd lo (radd hi rest)) → kept (radd lo (radd hi rest)) (world s) w' →
            Q false (with_world w' s) o') as HF'.
  { intros w' o' Ho Hw' Hk'. apply HF; [done|]. apply rejoined_refl; try done; [by rewrite Hr2|].
    eapply kept_req; [symmetry; exact Hr2|done]. }
  destruct (e_amap lo) as [r1|] eqn:A1, (e_amap hi) as [r2|] eqn:A2; try done.
  - assert (req (radd lo (radd hi rest)) (radd lo rest)) as Hnone by (by rewrite (radd_none hi)).
    eapply (wp_extend_entry s rest key lo); try done; [by rewrite <- Hnone|by apply pages_nonneg; lia| |].
    + intros i w' am o' Ho Hi Hmi Hw' Hk' Hext. unfold extended in Hext. rewrite A1 in Hext.
      destruct Hext as (r' & -> & Hext). apply (HT i w' (Some r') None o'); try done.
      * rewrite Hmi. f_equal. symmetry. apply insert_id. rewrite <- A2, set_amap_same. done.
      * exists r'. split; [done|]. replace (pages hi) with (Z.to_nat ((e_end hi - e_end lo) / PAGE_SIZE)); [done|].
        unfold pages, elen. by rewrite (ew_start _ _ _ Whi).
    + intros w' o' Ho Hw' Hk'. apply HF'; [done|by rewrite Hnone|]. eapply kept_req; [symmetry; exact Hnone|done].
  - assert (req (radd lo (radd hi rest)) (radd hi rest)) as Hnone by (by rewrite (radd_none lo)).
    eapply (wp_extend_entry s rest (e_end lo) hi); try done; [by rewrite <- Hnone| |apply pages_nonneg; lia| |].
    + intros r Hr. specialize (Hxhi r Hr). unfold radd, ref_to in Hxhi. by rewrite A1 in Hxhi.
    + intros i w' am o' Ho Hi Hmi Hw' Hk' Hext. unfold extended in Hext. rewrite A2 in Hext.
      destruct Hext as (r' & -> & Hext). apply (HT i w' None (Some r') o'); try done.
      * rewrite Hmi, <- A1, set_amap_same. symmetry. apply insert_id. by rewrite lookup_insert_ne.
      * exists r'. split; [done|]. replace (pages lo) with (Z.to_nat ((e_end lo - key) / PAGE_SIZE)); [done|].
        unfold pages, elen. by rewrite (ew_start _ _ _ Wlo).
    + intros w' o' Ho Hw' Hk'. apply HF'; [done|by rewrite Hnone|]. eapply kept_req; [symmetry; exact Hnone|done].
  - wp_step. rewrite <- (world_eta_sys s). destruct s as [[ix sp sz tm] w]. simpl in *.
    apply (HT ix w None None o); try done.
    + rewrite <- A1, set_amap_same, A1, <- A2, set_amap_same. unfold emap. simpl.
      rewrite (insert_id _ (e_end lo)), insert_id by done. done.
    + by rewrite radd_none in Hw |- *; rewrite ?(radd_none hi) in Hw.
Qed.

(** [merge_following]; the caller holds the only reference of the lower amap. *)
Lemma merge_following_spec s R0 key lo o :
  index_ok (entries (vmap s)) → core arch (emap (vmap s)) (space (vmap s)) (world s) R0 →
  emap (vmap s) !! key = Some lo → exclusive lo (rapp (refs_of (delete key (emap (vmap s)))) R0) →
  wp (merge_following key) (λ _ s' o', o' ⊆ o ∧ rejoined s s' (emap (vmap s)) R0) s o.
Proof.
  intros Hok Hc Hlo Hx.
  assert (rejoined s s (emap (vmap s)) R0) as Hsame.
  { rewrite <- (world_eta_sys s) at 2. by apply rejoined_refl; [..|apply Hc|]. }
  unfold merge_following, get_entry. do 2 wp_step. rewrite index_get_imap by done. unfold emap in Hlo. rewrite Hlo.
  do 4 wp_step. rewrite index_get_imap by done. fold (emap (vmap s)) in Hlo |- *.
  destruct (emap (vmap s) !! e_end lo) as [hi|] eqn:Hhi; [|by wp_step].
  destruct (compatible lo hi) eqn:Hcomp; simpl; [|by wp_step].
  destruct (contiguous_object lo hi) eqn:Hcont; simpl; [|by wp_step].
  destruct (bool_decide (is_Some (e_amap lo)) && bool_decide (is_Some (e_amap hi))) eqn:Hboth; [by wp_step|].
  destruct (core_ranges _ _ _ _ _ _ _ _ Hc Hlo Hhi eq_refl) as (Hpr & Hlt & H0 & H64 & Hcov).
  destruct (two_refs _ key lo (e_end lo) hi R0 Hlo Hhi ltac:(lia)) as [Hr2 Hr1].
  pose proof (exclusive_rest _ _ _ _ Hr1 Hx) as Hxlo. pose proof (co_world _ _ _ _ _ Hc) as Hw. rewrite Hr2 in Hw.
  wp_step. eapply wp_none_or_exclusive; [by rewrite radd_comm in Hw|]. intros [] Hb; simpl; [|by wp_step].
  specialize (Hb eq_refl). rewrite !u64_sub_small by lia.
  wp_step. eapply wp_reserve_range; [apply Hc|done| |by intros; wp_step].
  intros res o1 Ho1 Hres. cbv iota. wp_step.
  eapply wp_extend_pair; try done.
  - intros i w' aml amh o2 Ho2 Hi Hmi am Hj Hw' Hk'. cbn [negb]. eapply wp_mono.
    + eapply (merge_commit s i w' R0 key lo hi aml amh); try done. split; try done; [|by apply compatible_spec].
      by rewrite (ew_start _ _ _ (co_wf _ _ _ _ _ Hc _ _ Hhi)).
    + intros [] s' o' [-> Hrj]. split; [sub_oracle|done].
  - intros w' o2 Ho2 Hrj. cbn [negb]. wp_step. split; [sub_oracle|done].
Qed.

Lemma rejoined_trans s1 s2 s3 E R0 :
  rejoined s1 s2 E R0 → rejoined s2 s3 (emap (vmap s2)) R0 → rejoined s1 s3 E R0.
Proof.
  intros [] []. split; try done; try congruence; [|by etrans]. intros a pv. by rewrite rj_shows1.
Qed.

(** ** [merge_new] *)

(** The new entry [e] has its range in the arena, and is not published. *)
Record pending s e R0 : Prop := {
  pe_index : index_ok (entries (vmap s));
  pe_new : emap (vmap s) !! e_start e = None;
  pe_core : core arch (<[e_start e := e]> (emap (vmap s))) (space (vmap s)) (world s) R0;
  pe_amap : e_amap e = None;
}.
Definition with_new s e : gmap Z VmMapEntry := <[e_start e := e]> (emap (vmap s)).

Lemma pending_same s e R0 w' :
  pending s e R0 → world_inv w' (rapp (refs_of (with_new s e)) R0) → pending (with_world w' s) e R0.
Proof. intros [? ? [] ?] Hw. by split. Qed.

(** The outcome of [merge_new] when it gives up. *)
Definition unmerged s s' e R0 : Prop :=
  ∃ w', s' = with_world w' s ∧ pending s' e R0 ∧ kept (rapp (refs_of (with_new s e)) R0) (world s) w'.

Lemma unmerged_refl s e R0 : pending s e R0 → unmerged s s e R0.
Proof. intros Hp. exists (world s). by rewrite world_eta_sys. Qed.

(** The new entry extends the one before it. *)
Lemma merge_previous_new s R0 key p e am w' i res o :
  pending s e R0 → emap (vmap s) !! key = Some p → e_end p = e_start e →
  compatible p e = true → contiguous_object p e = true →
  let rest := rest_refs (with_new s e) key (e_start e) R0 in
  exclusive p rest → index_ok i → index_map i = <[key := set_amap am p]> (emap (vmap s)) →
  extended (world s) w' p am (pages e) false → world_inv w' (radd (set_amap am p) rest) →
  kept rest (world s) w' → reserved_for res key (e_end e - key) →
  wp (do update_entry key (set_end (e_end e)) then
      do republish key (e_start e) res then
      do merge_following key then
      ret true) (λ b s' o', o' ⊆ o ∧ b = true ∧ rejoined s s' (with_new s e) R0)
     (with_world w' (with_entries (λ _, i) s)) o.
Proof.
  intros [Hok Hnew Hc Ham] Hk Hadj Hcomp Hcont rest Hx Hi Hmi Hext Hw Hkept Hres. unfold with_new in *.
  assert (key ≠ e_start e) as Hne by congruence.
  set (E := <[e_start e := e]> (emap (vmap s))) in *.
  assert (E !! key = Some p) as Hlo by (unfold E; by rewrite lookup_insert_ne).
  assert (E !! e_start e = Some e) as Hhi by (unfold E; by rewrite lookup_insert_eq).
  destruct (core_ranges _ _ _ _ _ _ _ _ Hc Hlo Hhi Hadj) as (Hpr & Hlt & H0 & H64 & Hcov).
  pose proof (co_wf _ _ _ _ _ Hc _ _ Hlo) as Wp.
  set (m := set_bounds (e_start p) (e_end e) (e_object_offset p) am p).
  unfold update_entry. do 2 wp_step. wp_step.
  eapply (wp_republish _ (elen <$> E) key (elen p) (e_start e) (elen e) key (e_end e - key)); try done.
  { apply Hc. } { by rewrite lookup_fmap, Hlo. } { by rewrite lookup_fmap, Hhi. }
  intros v' Ha'. rewrite delete_delete, insert_delete_eq in Ha'. wp_step.
  destruct (index_update_ok i key (set_end (e_end e)) Hi) as [Hi2 Hm2].
  match goal with |- wp _ _ ?t _ => set (s1 := t) end.
  assert (join (world s) w' p e m) as Hj.
  { split; try done; [by apply compatible_spec|]. unfold joined, extended in *. rewrite Ham. simpl. by destruct (e_amap p). }
  assert (emap (vmap s1) = join_entries E key (e_start e) m) as HE1.
  { unfold s1, E, emap, join_entries. simpl. rewrite Hm2, Hmi, delete_insert_id by done. unfold emap.
    apply map_eq. intros j. rewrite lookup_alter, !lookup_insert. by repeat case_decide. }
  assert (rejoined s s1 E R0) as Hrj.
  { eapply (joined_spec s s1 E (space (vmap s)) w' R0 key p (e_start e) e m); try done.
    replace (elen m) with (e_end e - key); [done|]. unfold elen. simpl. by rewrite (ew_start _ _ _ Wp). }
  eapply wp_mono; [eapply (merge_following_spec s1 R0 key m); [done|apply Hrj| |]|].
  - rewrite HE1. unfold join_entries. by rewrite lookup_insert_eq.
  - rewrite HE1. unfold join_entries. rewrite delete_insert_eq, delete_delete. fold rest. intros r Hr.
    unfold rest_refs in rest. simpl in Hr. unfold extended in Hext. destruct (e_amap p) as [r0|] eqn:Ap; [|congruence].
    destruct Hext as (r' & -> & (Hid & _)). injection Hr as <-. rewrite Hid. unfold rest in Hx.
    by apply Hx.
  - intros [] s2 o2 [Ho2 Hrj2]. wp_step. split; [done|]. split; [done|]. by eapply rejoined_trans.
Qed.

(** The new entry extends the one after it. *)
Lemma merge_next_new s R0 next e am w' i res o :
  pending s e R0 → emap (vmap s) !! e_end e = Some next →
  compatible e next = true → contiguous_object e next = true →
  let rest := rest_refs (with_new s e) (e_start e) (e_end e) R0 in
  index_ok i → index_map i = <[e_end e := set_amap am next]> (emap (vmap s)) →
  extended (world s) w' next am (pages e) true → world_inv w' (radd (set_amap am next) rest) →
  kept rest (world s) w' → reserved_for res (e_start e) (e_end next - e_start e) →
  wp (do update_entry (e_end e) (λ next,
        set_bounds (e_start e) (e_end next) (e_object_offset e) (e_amap next) next) then
      do republish (e_end e) (e_start e) res then
      do on_entries (rekey (e_end e) (e_start e)) then
      ret true) (λ b s' o', o' = o ∧ b = true ∧ rejoined s s' (with_new s e) R0)
     (with_world w' (with_entries (λ _, i) s)) o.
Proof.
  intros [Hok Hnew Hc Ham] Hk Hcomp Hcont rest Hi Hmi Hext Hw Hkept Hres. unfold with_new in *.
  assert (e_end e ≠ e_start e) as Hne by congruence.
  set (E := <[e_start e := e]> (emap (vmap s))) in *.
  assert (E !! e_end e = Some next) as Hhi by (unfold E; by rewrite lookup_insert_ne).
  assert (E !! e_start e = Some e) as Hlo by (unfold E; by rewrite lookup_insert_eq).
  destruct (core_ranges _ _ _ _ _ _ _ _ Hc Hlo Hhi eq_refl) as (Hpr & Hlt & H0 & H64 & Hcov).
  set (m := set_bounds (e_start e) (e_end next) (e_object_offset e) am next).
  unfold update_entry. do 2 wp_step. wp_step.
  destruct (index_update_ok i (e_end e) (λ next,
    set_bounds (e_start e) (e_end next) (e_object_offset e) (e_amap next) next) Hi) as [Hi2 Hm2].
  eapply (wp_republish _ (elen <$> E) (e_end e) (elen next) (e_start e) (elen e)); try done.
  { apply Hc. } { by rewrite lookup_fmap, Hhi. } { by rewrite lookup_fmap, Hlo. }
  { intros a Ha. apply Hcov in Ha. tauto. }
  intros v' Ha'. rewrite insert_delete_eq in Ha'. wp_step. apply wp_zoom.
  assert (index_map (index_update (e_end e) (λ next,
    set_bounds (e_start e) (e_end next) (e_object_offset e) (e_amap next) next) i) =
    <[e_end e := m]> (emap (vmap s))) as Hm3.
  { rewrite Hm2, Hmi. apply map_eq. intros j. rewrite lookup_alter, !lookup_insert. by repeat case_decide. }
  apply (wp_rekey _ _ (e_end e) (e_start e) m); simpl; rewrite ?Hm3; try done.
  { by rewrite lookup_insert_eq. } { by rewrite lookup_insert_ne. }
  intros i4 Hi4 Hm4. rewrite delete_insert_eq in Hm4. wp_step. split; [done|]. split; [done|].
  eapply (joined_spec s _ E (space (vmap s)) w' R0 (e_start e) e (e_end e) next m); try done.
  - split; try done.
    + by rewrite (ew_start _ _ _ (co_wf _ _ _ _ _ Hc _ _ Hhi)).
    + rewrite compatible_spec in *. simpl. naive_solver.
    + unfold joined, extended in *. rewrite Ham. simpl. by destruct (e_amap next).
  - unfold emap, join_entries, E. simpl. rewrite Hm4, delete_insert_ne by done. by rewrite insert_insert_eq.
Qed.

(** The references beside those of an entry next to the new one. *)
Lemma new_refs s e R0 key p :
  pending s e R0 → emap (vmap s) !! key = Some p →
  world_inv (world s) (radd p (rest_refs (with_new s e) key (e_start e) R0)) ∧
  world_inv (world s) (radd p (rest_refs (with_new s e) (e_start e) key R0)) ∧
  req (rapp (refs_of (with_new s e)) R0) (radd p (rest_refs (with_new s e) key (e_start e) R0)).
Proof.
  intros [Hok Hnew Hc Ham] Hk. assert (key ≠ e_start e) by congruence. pose proof (co_world _ _ _ _ _ Hc) as Hw.
  assert (req (rapp (refs_of (with_new s e)) R0) (radd p (rest_refs (with_new s e) key (e_start e) R0))) as Hr.
  { destruct (two_refs (with_new s e) key p (e_start e) e R0) as [-> _]; try done; unfold with_new.
    - by rewrite lookup_insert_ne.
    - by rewrite lookup_insert_eq.
    - by rewrite (radd_none e). }
  fold (with_new s e) in Hw. rewrite Hr in Hw. split; [done|]. split; [|done]. unfold rest_refs in *.
  by rewrite delete_delete.
Qed.

Definition mergeable_previous s e R0 (found : option Z) : Prop :=
  match found with
  | None => True
  | Some key => ∃ p, emap (vmap s) !! key = Some p ∧ e_end p = e_start e ∧ compatible p e = true ∧
      contiguous_object p e = true ∧ exclusive p (rest_refs (with_new s e) key (e_start e) R0)
  end.

Lemma find_previous_spec s e R0 o (Q : option Z → Sys tree → oracle → Prop) :
  pending s e R0 → (∀ found, mergeable_previous s e R0 found → Q found s o) →
  wp (match last (range Unbounded (Excluded (e_start e)) (entries (vmap s))) with
      | None => ret None
      | Some (key, previous) =>
          if (e_end previous =? e_start e) && compatible previous e && contiguous_object previous e then
            let* exclusive := none_or_exclusive (e_amap previous) in
            ret (if (exclusive : bool) then Some key else None)
          else ret None
      end) Q s o.
Proof.
  intros Hp HQ. destruct (last _) as [[key p]|] eqn:El; [|wp_step; by apply HQ].
  apply range_last_Some in El as (Hk & _ & _); [|apply Hp].
  destruct (Z.eqb_spec (e_end p) (e_start e)); simpl; [|wp_step; by apply HQ].
  destruct (compatible p e) eqn:Hcomp; simpl; [|wp_step; by apply HQ].
  destruct (contiguous_object p e) eqn:Hcont; simpl; [|wp_step; by apply HQ].
  destruct (new_refs s e R0 key p Hp Hk) as (Hw & _ & _).
  wp_step. eapply wp_none_or_exclusive; [exact Hw|]. intros [] Hx; wp_step; apply HQ; [|done].
  exists p. do 4 (split; [done|]). by apply Hx.
Qed.

Lemma unmerged_extend s e R0 key p w' :
  pending s e R0 → emap (vmap s) !! key = Some p →
  world_inv w' (radd p (rest_refs (with_new s e) key (e_start e) R0)) →
  kept (radd p (rest_refs (with_new s e) key (e_start e) R0)) (world s) w' →
  unmerged s (with_world w' s) e R0.
Proof.
  intros Hp Hk Hw Hkept. destruct (new_refs s e R0 key p Hp Hk) as (_ & _ & Hr). exists w'. split; [done|].
  split; [apply pending_same; [done|by rewrite Hr]|]. eapply kept_req; [symmetry; exact Hr|done].
Qed.

(** [merge_new] *)
Lemma merge_new_spec s e R0 o :
  pending s e R0 →
  wp (merge_new e) (λ b s' o', o' ⊆ o ∧
     if (b : bool) then rejoined s s' (with_new s e) R0 else unmerged s s' e R0) s o.
Proof.
  intros Hp. pose proof (unmerged_refl s e R0 Hp) as Hun. pose proof Hp as [Hok Hnew Hc Ham].
  assert (with_new s e !! e_start e = Some e) as Hev by (unfold with_new; by rewrite lookup_insert_eq).
  pose proof (co_wf _ _ _ _ _ Hc (e_start e) e Hev) as We.
  pose proof (user_max_bound arch) as Hmax. assert (0 ≤ e_start e < e_end e ∧ e_end e < two64) as Hb.
  { destruct We. unfold USER_ADDRESS_MIN in *. lia. }
  pose proof (pages_nonneg (e_start e) (e_end e) ltac:(lia)) as Hp0.
  assert (∀ k e', emap (vmap s) !! k = Some e' → with_new s e !! k = Some e') as Hin.
  { intros k e' Hk. unfold with_new. rewrite lookup_insert_ne; congruence. }
  unfold merge_new. rewrite (u64_sub_small (e_end e) (e_start e)) by lia. do 3 wp_step.
  eapply find_previous_spec; [done|]. intros [key|] Hprev.
  - destruct Hprev as (p & Hk & Hadj & Hcomp & Hcont & Hx).
    destruct (core_ranges _ _ _ _ _ _ _ _ Hc (Hin _ _ Hk) Hev Hadj) as (Hpr & Hlt & H0 & H64 & _).
    rewrite (u64_sub_small (e_end e) key) by lia. destruct (new_refs s e R0 key p Hp Hk) as (Hw1 & _ & _). wp_step.
    eapply wp_reserve_range; [apply Hc|done| |by intros; wp_step]. intros res o1 Ho1 Hres. cbv iota. wp_step.
    eapply wp_extend_entry; [done|done|exact Hw1|done|done| |].
    + intros i w' am o2 Ho2 Hi Hmi Hw' Hk' Hext. cbn [negb]. cbv iota.
      eapply wp_mono; [by eapply merge_previous_new|]. intros b s' o' (Ho' & -> & Hrj). split; [sub_oracle|done].
    + intros w' o2 Ho2 Hw' Hk'. cbn [negb]. wp_step. split; [sub_oracle|]. by eapply unmerged_extend.
  - unfold get_entry. do 2 wp_step. rewrite index_get_imap by done. fold (emap (vmap s)).
    destruct (emap (vmap s) !! e_end e) as [next|] eqn:Hk; [|by wp_step].
    destruct (compatible e next) eqn:Hcomp; simpl; [|by wp_step].
    destruct (contiguous_object e next) eqn:Hcont; simpl; [|by wp_step].
    destruct (core_ranges _ _ _ _ _ _ _ _ Hc Hev (Hin _ _ Hk) eq_refl) as (Hpr & Hlt & H0 & H64 & _).
    destruct (new_refs s e R0 _ _ Hp Hk) as (Hw1 & Hw2 & _).
    wp_step. eapply wp_none_or_exclusive; [exact Hw2|]. intros [] Hx; simpl; [|by wp_step].
    rewrite (u64_sub_small (e_end next)) by lia. wp_step.
    eapply wp_reserve_range; [apply Hc|done| |by intros; wp_step]. intros res o1 Ho1 Hres. cbv iota. wp_step.
    eapply wp_extend_entry; [done|done|exact Hw2|by apply Hx|done| |].
    + intros i w' am o2 Ho2 Hi Hmi Hw' Hk' Hext. cbn [negb]. cbv iota.
      eapply wp_mono; [by eapply merge_next_new|]. intros b s' o' (-> & -> & Hrj). split; [sub_oracle|done].
    + intros w' o2 Ho2 Hw' Hk'. cbn [negb]. wp_step. split; [sub_oracle|].
      unfold rest_refs in *. rewrite delete_delete in Hw', Hk'. by eapply unmerged_extend.
Qed.
End mergeops.
