(* ===== verification/VmMapPlace.v ===== *)
(** [VmMap::insert], [VmMap::reserve] and [VmMap::map]. *)
From S2P Require Import Prelude.
From S2P Require Import Index.
From S2P Require Import Tags.
From S2P Require Import Vmem.
From S2P Require Import VmemInv.
From S2P Require Import VmemFit.
From S2P Require Import VmemOps.
From S2P Require Import Amap.
From S2P Require Import AmapInv.
From S2P Require Import AmapSpec.
From S2P Require Import AmapHeap.
From S2P Require Import AmapHeapSpec.
From S2P Require Import VmMap.
From S2P Require Import VmMapInv.
From S2P Require Import VmMapOps.
From S2P Require Import VmMapUnmap.
From S2P Require Import VmMapMerge.
Open Scope rust_scope.

Section insert.
Context {tree : Type → Type} `{!RBTree tree, !RBTreeLaws tree}.
Variable arch : Arch.
Implicit Types (s : Sys tree) (e : VmMapEntry) (E : gmap Z VmMapEntry) (R : refmap) (o : oracle).

Lemma arena_sum (v : Vmem tree) E : arena_ok arch v E → 0 ≤ msum elen E < two64.
Proof.
  intros [[FL Hinv] _ _ Hal _]. pose proof (inv_used_bounds _ _ Hinv) as Hb.
  rewrite (inv_used _ _ Hinv), msum_allocs in Hb. unfold allocated in Hal. rewrite Hal in Hb.
  replace (msum elen E) with (msum id (elen <$> E)); [lia|]. unfold msum. by rewrite map_fold_fmap.
Qed.

(** What the entries show with one more. *)
Lemma shows_insert E v w R0 e a pv :
  core arch (<[e_start e := e]> E) v w R0 → E !! e_start e = None →
  shows w (<[e_start e := e]> E) a pv ↔
  if decide (inside_entry e a) then pv = page_view w e a else shows w E a pv.
Proof.
  intros [Hwf Har _] Hnew. pose proof (arena_disjoint arch _ _ Har Hwf) as Hd. case_decide as Hin.
  - split.
    + intros (k & e' & Hk & Hi & ->).
      destruct (inside_unique arch _ k e' (e_start e) e a Hd Hwf Hk) as [_ ->]; try done. by rewrite lookup_insert_eq.
    + intros ->. exists (e_start e), e. by rewrite lookup_insert_eq.
  - split.
    + intros (k & e' & Hk & Hi & ->). apply lookup_insert_Some in Hk as [[<- <-]|[_ Hk]]; [done|]. by exists k, e'.
    + intros (k & e' & Hk & Hi & ->). exists k, e'. rewrite lookup_insert_ne; [done|congruence].
Qed.

Lemma inserted_unmapped E v w R0 e a :
  core arch (<[e_start e := e]> E) v w R0 → E !! e_start e = None → inside_entry e a →
  ∀ pv, ¬ shows w E a pv.
Proof.
  intros [Hwf Har _] Hnew Hin pv (k & e' & Hk & Hi & _). pose proof (arena_disjoint arch _ _ Har Hwf) as Hd.
  destruct (inside_unique arch _ k e' (e_start e) e a Hd Hwf) as [-> _]; try done; [|by rewrite lookup_insert_eq|congruence].
  rewrite lookup_insert_ne; [done|congruence].
Qed.

(** Publication: the entry is in the map, alone or merged. *)
Definition published s s' e R0 : Prop :=
  map_inv arch s' R0 ∧ kept R0 (world s) (world s') ∧
  (∀ a, inside_entry e a → view s a = None) ∧
  ∀ a, view s' a = if decide (inside_entry e a) then Some (page_view (world s) e a) else view s a.

Lemma published_spec s s' e R0 v :
  map_inv arch s R0 → emap (vmap s) !! e_start e = None →
  core arch (<[e_start e := e]> (emap (vmap s))) v (world s) R0 →
  map_inv arch s' R0 → kept R0 (world s) (world s') →
  (∀ a pv, shows (world s') (emap (vmap s')) a pv ↔ shows (world s) (<[e_start e := e]> (emap (vmap s))) a pv) →
  published s s' e R0.
Proof.
  intros Hm Hnew Hc Hm' Hk Hsh. split; [done|]. split; [done|]. split.
  - intros a Hin. apply (view_None arch s R0); [done|]. by eapply inserted_unmapped.
  - intros a. assert (∀ pv, view s' a = Some pv ↔
      if decide (inside_entry e a) then pv = page_view (world s) e a else view s a = Some pv) as Hv.
    { intros pv. rewrite (view_shows arch s' R0), Hsh, shows_insert by done.
      case_decide; [done|]. by rewrite (view_shows arch s R0). }
    case_decide; [by apply Hv|]. destruct (view s a) as [pv|] eqn:E1; [by apply Hv|].
    destruct (view s' a) as [pv|]; [|done]. specialize (Hv pv). naive_solver.
Qed.

(** Giving the range back. *)
Lemma wp_release s R0 v1 w1 e o (Q : () → Sys tree → oracle → Prop) :
  map_inv arch s R0 → emap (vmap s) !! e_start e = None →
  arena_is arch v1 (<[e_start e := elen e]> (elen <$> emap (vmap s))) →
  world_inv w1 (map_refs s R0) → kept (map_refs s R0) (world s) w1 →
  (∀ s', map_inv arch s' R0 → (∀ a, view s' a = view s a) → kept R0 (world s) (world s') → Q () s' o) →
  wp (release (e_start e)) Q (with_world w1 (with_space v1 s)) o.
Proof.
  intros Hm Hnew Ha Hw Hk HQ. unfold release. wp_step.
  eapply wp_space_free; [exact Ha|by rewrite lookup_insert_eq|]. intros v2 _ Ha2. wp_step.
  rewrite delete_insert_id in Ha2 by (by rewrite lookup_fmap, Hnew).
  assert (map_inv arch (with_space v2 (with_world w1 (with_space v1 s))) R0) as Hm' by (destruct Hm; by split).
  apply HQ; [done| |by eapply kept_rapp_r]. intros a. eapply (view_eq arch); [exact Hm|exact Hm'|]. intros pv.
  apply (shows_kept arch); [by eapply kept_rapp_l|apply Hm].
Qed.

(** The new entry, with its range in the arena but before any check. *)
Record reserved_entry s v1 e R0 : Prop := {
  re_new : emap (vmap s) !! e_start e = None;
  re_arena : arena_is arch v1 (<[e_start e := elen e]> (elen <$> emap (vmap s)));
  re_amap : e_amap e = None;
  re_offset : offset_ok e;
}.

Lemma reserved_pending s v1 e R0 :
  map_inv arch s R0 → reserved_entry s v1 e R0 → user_range arch (e_start e) (e_end e) →
  pending arch (with_space v1 s) e R0.
Proof.
  intros Hm [] []. split; try done; [apply Hm|]. split.
  - intros k e' [[<- <-]|[_ Hk]]%lookup_insert_Some; [|by eapply mi_wf].
    split; try done. intros r Hr. congruence.
  - unfold arena_ok. by rewrite fmap_insert.
  - simpl. rewrite refs_insert, radd_none by done. apply Hm.
Qed.

Lemma merged_published s v1 e R0 s2 :
  map_inv arch s R0 → pending arch (with_space v1 s) e R0 →
  rejoined arch (with_space v1 s) s2 (with_new (with_space v1 s) e) R0 →
  published s (with_timestamp (λ t, let t := u64_add t 1 in if t =? 0 then 1 else t)
                 (with_size (λ n, u64_add n (u64_sub (e_end e) (e_start e))) s2)) e R0.
Proof.
  intros Hm [Hok Hnew Hc Ham] []. destruct rj_core as [Hwf Har Hw].
  pose proof (co_wf _ _ _ _ _ Hc (e_start e) e ltac:(by rewrite lookup_insert_eq)) as [].
  pose proof (user_max_bound arch). pose proof (arena_sum _ _ Har) as Hb. rewrite rj_sum in Hb.
  unfold with_new in rj_sum, Hb. rewrite msum_insert_None in rj_sum, Hb by done. simpl in *.
  pose proof (mi_size _ _ _ Hm) as Hsz. assert (elen e = e_end e - e_start e) as Hel by done.
  unfold USER_ADDRESS_MIN in *.
  eapply (published_spec _ _ _ _ v1); try done. split; try done; simpl.
  - rewrite rj_size, Hsz, (u64_sub_small (e_end e)) by lia. unfold emap in *. simpl in *. rewrite u64_add_small; lia.
  - rewrite rj_time. by apply bump_time, Hm.
Qed.

Lemma unmerged_published s v1 w1 e R0 i :
  map_inv arch s R0 → pending arch (with_world w1 (with_space v1 s)) e R0 →
  kept (rapp (refs_of (with_new s e)) R0) (world s) w1 →
  index_ok i → index_map i = <[e_start e := e]> (emap (vmap s)) →
  published s (with_timestamp (λ t, let t := u64_add t 1 in if t =? 0 then 1 else t)
                 (with_entries (λ _, i)
                    (with_size (λ n, u64_add n (u64_sub (e_end e) (e_start e)))
                       (with_world w1 (with_space v1 s))))) e R0.
Proof.
  intros Hm [Hok Hnew Hc Ham] Hk Hi Hmi. simpl in *. destruct Hc as [Hwf Har Hw].
  pose proof (Hwf (e_start e) e ltac:(by rewrite lookup_insert_eq)) as [].
  pose proof (user_max_bound arch). pose proof (arena_sum _ _ Har) as Hb.
  rewrite msum_insert_None in Hb by done. pose proof (mi_size _ _ _ Hm) as Hsz. unfold emap in *. simpl in *.
  assert (elen e = e_end e - e_start e) as Hel by done. unfold USER_ADDRESS_MIN in *.
  eapply (published_spec s _ e R0 v1); try done.
  - split; try done. simpl. rewrite refs_insert, radd_none by done. apply Hm.
  - split; unfold emap; simpl; rewrite ?Hmi; try done.
    + rewrite Hsz, (u64_sub_small (e_end e)) by lia. rewrite msum_insert_None by done.
      rewrite u64_add_small by (unfold emap; lia). unfold emap. lia.
    + apply bump_time, Hm.
  - by eapply kept_rapp_r.
  - intros a pv. unfold emap. simpl. rewrite Hmi. apply (shows_kept arch); [by eapply kept_rapp_l|done].
Qed.

(** [insert] *)
Lemma insert_entry_spec s R0 v1 e o :
  map_inv arch s R0 → reserved_entry s v1 e R0 →
  wp (insert_entry arch e) (λ r s' o', o' ⊆ o ∧
     match r with
     | Ok x => x = e_start e ∧ user_range arch (e_start e) (e_end e) ∧
         prot_contains (e_maximum e) (e_protection e) = true ∧ published s s' e R0
     | Err x => map_inv arch s' R0 ∧ kept R0 (world s) (world s') ∧ (∀ a, view s' a = view s a) ∧
         (x = InvalidAddress ∧ ¬ user_range arch (e_start e) (e_end e) ∨
          x = Protection ∧ prot_contains (e_maximum e) (e_protection e) = false ∨
          x = OutOfMemory ∧ false ∈ o)
     end) (with_space v1 s) o.
Proof.
  intros Hm Hre. pose proof Hre as [Hnew Har Ham Hoff]. unfold insert_entry.
  assert (∀ Q o, (∀ s', map_inv arch s' R0 → (∀ a, view s' a = view s a) → kept R0 (world s) (world s') → Q () s' o) →
    wp (release (e_start e)) Q (with_space v1 s) o) as Hrel.
  { intros Q o1 HQ. change (with_space v1 s) with (with_world (world s) (with_space v1 s)).
    eapply wp_release; [done..|apply Hm|done|done]. }
  destruct (validate_range_spec arch (e_start e) (e_end e)) as [[-> Hur]|[-> Hno]]; cbv beta iota.
  2: { wp_step. apply Hrel. intros s' Hm' Hv Hk. wp_step. split_and!; try done; auto. }
  destruct (prot_contains _ _) eqn:Hpc; cbn [negb].
  2: { wp_step. apply Hrel. intros s' Hm' Hv Hk. wp_step. split_and!; try done; auto. }
  pose proof (reserved_pending s v1 e R0 Hm Hre Hur) as Hpend.
  wp_step. eapply wp_mono; [by apply merge_new_spec|]. intros [] s2 o2 [Ho2 H2].
  - unfold bump_timestamp. do 5 wp_step. split_and!; try done. by eapply merged_published.
  - destruct H2 as (w2 & -> & Hp2 & Hk2).
    assert (req (rapp (refs_of (with_new (with_space v1 s) e)) R0) (map_refs s R0)) as Hreq.
    { unfold with_new, map_refs. rewrite refs_insert, radd_none by done. done. }
    wp_step. apply wp_reserve_new.
    + intros o3 Ho3. do 3 wp_step. apply wp_zoom. apply wp_index_insert; [apply Hm|done|]. intros i Hi Hmi.
      unfold bump_timestamp. do 3 wp_step. split; [sub_oracle|]. split_and!; try done.
      by eapply unmerged_published.
    + intros o3 Ho3 Hf. wp_step. eapply wp_release; try done.
      * rewrite <- Hreq. apply Hp2.
      * eapply kept_req; [exact Hreq|done].
      * intros s' Hm' Hv Hk. wp_step. split; [sub_oracle|]. split_and!; try done. do 2 right.
        split; [done|]. set_solver.
Qed.

(** ** Placement *)

(** The free addresses of the arena are the unmapped ones of user space. *)
Lemma free_unmapped s R0 a :
  map_inv arch s R0 →
  address_free (space (vmap s)) a ↔ USER_ADDRESS_MIN ≤ a < USER_ADDRESS_MAX arch ∧ view s a = None.
Proof.
  intros Hm. pose proof (mi_arena _ _ _ Hm) as [[FL Hinv] Hq Hsp Hal Hmg].
  assert ((∃ b n, allocated (space (vmap s)) !! b = Some n ∧ b ≤ a < b + n) ↔ is_Some (view s a)) as Hview.
  { rewrite Hal. setoid_rewrite lookup_fmap. split.
    - intros (b & n & (e & He & ->)%fmap_Some & Hi). erewrite view_Some; [done|exact Hm|exact He|].
      pose proof (ew_start _ _ _ (mi_wf _ _ _ Hm _ _ He)). unfold inside_entry, elen in *. lia.
    - intros [pv (k & e & He & Hi & _)%(view_shows arch s R0)]; [|done]. exists k, (elen e). rewrite He.
      split; [done|]. pose proof (ew_start _ _ _ (mi_wf _ _ _ Hm _ _ He)). unfold inside_entry, elen in *. lia. }
  rewrite <- Hmg, managed_split. fold (allocated (space (vmap s))) (address_free (space (vmap s)) a). rewrite Hview.
  split.
  - intros Hf. split; [by left|]. destruct (view s a) as [pv|] eqn:Ev; [exfalso|done].
    destruct Hview as [_ (b & n & (t & Ht & Hbusy & Hsz)%allocated_tag & Hi)]; [done|].
    destruct Hf as (b' & t' & Ht' & Hf' & Hi'). unfold inside in Hi'. pose proof (inv_wf _ _ Hinv) as Hwf.
    destruct (Z.lt_trichotomy b b') as [Hlt|[->|Hlt]].
    + pose proof (wf_disjoint _ _ Hwf _ _ _ _ Ht Ht' Hlt). lia.
    + congruence.
    + pose proof (wf_disjoint _ _ Hwf _ _ _ _ Ht' Ht Hlt). lia.
  - intros [[Hf|Hs] Hn]; [done|]. rewrite Hn in Hs. by destruct Hs.
Qed.

(** A page-aligned run of unmapped user addresses. *)
Definition user_free s (length x : Z) : Prop :=
  x mod PAGE_SIZE = 0 ∧ USER_ADDRESS_MIN ≤ x ∧ x + length ≤ USER_ADDRESS_MAX arch ∧
  ∀ a, x ≤ a < x + length → view s a = None.

Lemma user_free_iff s R0 length x :
  map_inv arch s R0 → 0 < length →
  user_free s length x ↔
  x mod PAGE_SIZE = 0 ∧ ∀ a, x ≤ a < x + length → address_free (space (vmap s)) a.
Proof.
  intros Hm Hl. unfold user_free. split.
  - intros (? & ? & ? & Hv). split; [done|]. intros a Ha. apply (free_unmapped s R0); [done|]. split; [lia|auto].
  - intros [? Hf]. assert (∀ a, x ≤ a < x + length → USER_ADDRESS_MIN ≤ a < USER_ADDRESS_MAX arch ∧ view s a = None) as Hf'.
    { intros a Ha. apply (free_unmapped s R0); auto. }
    destruct (Hf' x ltac:(lia)), (Hf' (x + length - 1) ltac:(lia)). split_and!; try done; try lia. intros a Ha. by apply Hf'.
Qed.

Lemma candidate_iff s R0 length min max x :
  map_inv arch s R0 → 0 < length →
  (∃ b t, candidate (space (vmap s)) length PAGE_SIZE min max b t x) ↔
  min ≤ x ∧ x + length ≤ max ∧ user_free s length x.
Proof.
  intros Hm Hl. rewrite (user_free_iff s R0) by done. pose proof (mi_arena _ _ _ Hm) as [[FL Hinv] _ Hsp _ _].
  unfold candidate, fit_ok. split.
  - intros (b & t & Hb & Hf & ? & ? & ? & ? & ?). split_and!; try done. intros a Ha. exists b, t.
    split_and!; try done; unfold inside; lia.
  - intros (? & ? & ? & Hf). destruct (free_room _ FL USER_ADDRESS_MIN x length Hinv Hsp Hl Hf) as (b & t & Hb & Hbf & ? & ?).
    exists b, t. split_and!; done || lia.
Qed.

Definition reserve_post s (placement : VmPlacement) (length : Z) o (r : result Error Z) : Prop :=
  match r, placement with
  | Ok base, PlaceAny => user_free s length base
  | Ok base, PlaceHint hint => user_free s length base ∧
      (page_round hint ≤ base ∨ false ∈ o ∨ ∀ x, page_round hint ≤ x → ¬ user_free s length x)
  | Ok base, PlaceFixed start => base = start ∧ user_free s length start
  | Err x, PlaceFixed start =>
      (x = InvalidAddress ∧ ¬ user_range arch start (start + length)) ∨
      (x = OutOfMemory ∧ (false ∈ o ∨ ¬ user_free s length start))
  | Err x, _ => x = OutOfMemory ∧ (false ∈ o ∨ ∀ y, ¬ user_free s length y)
  end.

Definition reserved_at s (length : Z) (r : result Error Z) s' : Prop :=
  match r with
  | Ok base => ∃ v', s' = with_space v' s ∧ emap (vmap s) !! base = None ∧
      arena_is arch v' (<[base := length]> (elen <$> emap (vmap s)))
  | Err _ => s' = s
  end.

Lemma effect_reserved s R0 v' base length :
  map_inv arch s R0 → alloc_effect (space (vmap s)) v' base length →
  reserved_at s length (Ok base) (with_space v' s).
Proof.
  intros Hm Heff. exists v'. split; [done|]. split.
  - pose proof (ae_fresh _ _ _ _ Heff) as Hf. rewrite (ar_alloc _ _ _ (mi_arena _ _ _ Hm)), lookup_fmap in Hf.
    by destruct (emap (vmap s) !! base).
  - eapply alloc_arena; [apply Hm|done].
Qed.

Section sized.
Context (s : Sys tree) (R0 : refmap) (length : Z).
Hypothesis (Hm : map_inv arch s R0) (Hl : 0 < length < two64) (Hlm : length mod PAGE_SIZE = 0).

Lemma round_length : round_size length (space (vmap s)) = Ok length.
Proof. apply round_size_pages; [|done|done]. apply (mi_arena _ _ _ Hm). Qed.

Lemma wp_reserve_any (min max : Z) o (Q : result VmemError Z → Sys tree → oracle → Prop) :
  0 ≤ min < max →
  (∀ r s' o', o' ⊆ o → match r with
     | Ok base => min ≤ base ∧ base + length ≤ max ∧ user_free s length base ∧ reserved_at s length (Ok base) s'
     | Err x => s' = s ∧ (x = NoMemory ∧ false ∈ o ∨
          x = NoSpace ∧ ∀ x, min ≤ x → x + length ≤ max → ¬ user_free s length x)
     end → Q r s' o') →
  wp (on_space (xalloc length PAGE_SIZE min max Instant)) Q s o.
Proof.
  intros Hb HQ. pose proof (mi_arena _ _ _ Hm) as [[FL Hinv] Hq _ _ _]. unfold on_space. apply wp_zoom.
  eapply wp_mono; [eapply xalloc_spec; [done|unfold is_u64; lia|done|lia]|].
  intros r v' o' [Ho Hr]. apply HQ; [done|]. unfold xalloc_post in Hr. rewrite round_length, Hq in Hr.
  change (Z.max PAGE_SIZE PAGE_SIZE) with PAGE_SIZE in Hr. destruct r as [base|[]].
  - destruct Hr as (n & b & t & [= <-] & Hc & _ & Heff).
    assert (min ≤ base ∧ base + length ≤ max ∧ user_free s length base) as (? & ? & ?).
    { apply (candidate_iff s R0); [done|lia|]. by exists b, t. }
    split_and!; try done. by eapply effect_reserved.
  - destruct Hr as [-> (n & [= <-] & Hno)]. rewrite space_eta. split; [done|]. right. split; [done|].
    intros x H1 H2 H3. destruct (proj2 (candidate_iff s R0 length min max x Hm ltac:(lia))) as (b & t & Hc); [done|].
    by apply (Hno b t x).
  - destruct Hr as [-> ?]. rewrite space_eta. auto.
  - destruct Hr as [_ [[?|?]|[?|?]]]; try lia.
    + rewrite Hq in *. unfold PAGE_SIZE in *. exfalso. apply Z.mod_divide in Hlm as [k ->]; [|done]. lia.
    + exfalso. apply H. exists 12. done.
Qed.
End sized.
End insert.

(** ** [VmMap::reserve] and [VmMap::map]. *)

Section place.
Context {tree : Type → Type} `{!RBTree tree, !RBTreeLaws tree}.
Variable arch : Arch.
Implicit Types (s : Sys tree) (e : VmMapEntry) (E : gmap Z VmMapEntry) (R : refmap) (o : oracle).

Definition placement_u64 (p : VmPlacement) : Prop :=
  match p with
  | PlaceAny => True
  | PlaceHint hint => is_u64 hint
  | PlaceFixed start => is_u64 start
  end.

Lemma reserve_random_spec s R0 length entropy o :
  map_inv arch s R0 → 0 < length < two64 → length mod PAGE_SIZE = 0 → is_u64 entropy →
  wp (reserve arch PlaceAny length entropy)
     (λ r s' o', o' ⊆ o ∧ reserve_post arch s PlaceAny length o r ∧ reserved_at arch s length r s') s o.
Proof.
  intros Hm Hl Hlm He. pose proof (mi_arena _ _ _ Hm) as [[FL Hinv] Hq _ _ _].
  unfold reserve. wp_step. unfold on_space. apply wp_zoom.
  eapply wp_mono; [eapply (alloc_random_spec _ FL); [done|unfold is_u64; lia|done|apply He]|].
  intros r v' o' [Ho Hr]. unfold random_post in Hr. rewrite (round_length arch s R0), Hq in Hr by done.
  change (Z.max PAGE_SIZE PAGE_SIZE) with PAGE_SIZE in Hr. wp_step. split; [done|]. destruct r as [base|[]]; simpl.
  - destruct Hr as (n & b & t & [= <-] & Hc & Heff). split; [|by eapply effect_reserved].
    apply (candidate_iff arch s R0 length 0 u64_max); [done|lia|]. by exists b, t.
  - destruct Hr as [-> (n & [= <-] & Hno)]. rewrite space_eta. split; [|done]. split; [done|]. right. intros y Hy.
    destruct (proj2 (candidate_iff arch s R0 length 0 u64_max y Hm ltac:(lia))) as (b & t & Hc); [|by apply (Hno b t y)].
    pose proof Hy as (_ & ? & ? & _). pose proof (user_max_bound arch). unfold USER_ADDRESS_MIN, u64_max in *.
    split; [lia|]. split; [lia|done].
  - destruct Hr as [-> ?]. rewrite space_eta. auto.
  - exfalso. destruct Hr as [_ [[?|Hbig]|Hp]]; [lia| |apply Hp; by exists 12].
    rewrite Hq in Hbig. unfold PAGE_SIZE in *. apply Z.mod_divide in Hlm as [k ->]; [|done]. lia.
Qed.

Lemma reserve_fixed_place_spec s R0 start length entropy o :
  map_inv arch s R0 → 0 < length < two64 → length mod PAGE_SIZE = 0 → is_u64 start →
  wp (reserve arch (PlaceFixed start) length entropy)
     (λ r s' o', o' ⊆ o ∧ reserve_post arch s (PlaceFixed start) length o r ∧ reserved_at arch s length r s') s o.
Proof.
  intros Hm Hl Hlm Hst. pose proof (mi_arena _ _ _ Hm) as [[FL Hinv] Hq _ _ _]. pose proof (user_max_bound arch).
  unfold reserve. do 2 wp_step. destruct (checked_add start length) as [en|] eqn:Ea; simpl.
  2: { apply checked_add_None in Ea. split_and!; try done. left. split; [done|]. intros []. lia. }
  apply checked_add_Some in Ea as [-> Hlt]. do 2 wp_step.
  destruct (validate_range_spec arch start (start + length)) as [[-> Hur]|[-> Hno]]; cbv beta iota.
  2: { split_and!; try done. by left. }
  wp_step. unfold on_space. apply wp_zoom.
  eapply wp_mono; [eapply (alloc_fixed_spec _ FL); [done|done|unfold is_u64; lia]|].
  intros r v' o' [Ho Hr]. unfold fixed_post in Hr. rewrite (round_length arch s R0) in Hr by done. wp_step.
  pose proof Hur as []. unfold USER_ADDRESS_MIN in *. split; [done|]. destruct r as [[]|[]]; simpl.
  - destruct Hr as (n & [= <-] & Hmod & Hroom & Heff). split; [|by eapply effect_reserved]. split; [done|].
    apply (user_free_iff arch s R0); [done|lia|]. split; [done|]. intros a Ha. by eapply room_free.
  - destruct Hr as [-> (n & [= <-] & Hno)]. rewrite space_eta. split; [|done]. right. split; [done|]. right.
    intros [_ Hf]%(user_free_iff arch s R0); [|done|lia]. apply Hno. eapply free_room; [done| |lia|done].
    by apply (mi_arena _ _ _ Hm).
  - destruct Hr as [-> ?]. rewrite space_eta. split; [|done]. right. auto.
  - exfalso. destruct Hr as [_ Hf]. rewrite (fixed_size_valid _ _ _ Hq) in Hf; [done|].
    split; try done; lia.
Qed.

Lemma page_round_mono a b : a ≤ b → page_round a ≤ page_round b.
Proof.
  intros. unfold page_round, PAGE_SIZE. assert ((a + 4096 - 1) / 4096 ≤ (b + 4096 - 1) / 4096); [|lia].
  apply Z.div_le_mono; lia.
Qed.

(** The first page at or above a hint. *)
Lemma round_hint hint :
  is_u64 hint →
  match (λ value, Z.land value (u64_not (PAGE_SIZE - 1))) <$> checked_add hint (PAGE_SIZE - 1) with
  | Some h => h = page_round hint
  | None => two64 ≤ hint + PAGE_SIZE - 1
  end.
Proof.
  intros Hh. destruct (checked_add hint (PAGE_SIZE - 1)) as [v|] eqn:E; simpl.
  - apply checked_add_Some in E as [-> Hlt]. unfold is_u64, PAGE_SIZE in *.
    rewrite land_not_mask by (first [unfold is_u64; lia|exists 12; lia]).
    unfold page_round, PAGE_SIZE. replace (hint + 4096 - 1) with (hint + (4096 - 1)) by lia.
    pose proof (Z.div_mod (hint + (4096 - 1)) 4096). lia.
  - apply checked_add_None in E. lia.
Qed.

Lemma reserve_hint_spec s R0 hint length entropy o :
  map_inv arch s R0 → 0 < length < two64 → length mod PAGE_SIZE = 0 → is_u64 hint →
  wp (reserve arch (PlaceHint hint) length entropy)
     (λ r s' o', o' ⊆ o ∧ reserve_post arch s (PlaceHint hint) length o r ∧ reserved_at arch s length r s') s o.
Proof.
  intros Hm Hl Hlm Hh. pose proof (user_max_bound arch) as Hmax. unfold reserve.
  set (h0 := Z.max hint USER_ADDRESS_MIN). cbv zeta.
  assert (is_u64 h0) as Hh0 by (unfold h0, is_u64, USER_ADDRESS_MIN in *; lia).
  assert (page_round hint ≤ page_round h0) as Hmono by (apply page_round_mono; lia).
  assert (∀ x, page_round hint ≤ x → user_free arch s length x → page_round h0 ≤ x) as Habove.
  { intros x Hx (_ & Hlow & _). unfold h0. destruct (Z.max_spec hint USER_ADDRESS_MIN) as [[_ ->]|[_ ->]]; done. }
  (* the search above the hint *)
  set (tail := λ hinted : option Z, match hinted with
    | Some base => ret (Ok base)
    | None => let* r := on_space (alloc length PAGE_SIZE Instant) in ret (map_err placement_error r) end).
  assert (∀ o1, o1 ⊆ o → (false ∈ o ∨ ∀ x, page_round hint ≤ x → ¬ user_free arch s length x) →
    wp (tail None) (λ r s' o', o' ⊆ o ∧ reserve_post arch s (PlaceHint hint) length o r ∧
      reserved_at arch s length r s') s o1) as Htail.
  { intros o1 Ho1 Hno. unfold tail, alloc. wp_step.
    eapply (wp_reserve_any arch s R0); [done..|unfold u64_max; lia|]. intros [base|x] s' o' Ho' Hr; wp_step; simpl.
    - destruct Hr as (? & ? & Huf & Hres). split; [sub_oracle|]. split; [|done]. split; [done|]. tauto.
    - destruct Hr as [-> Hr]. split; [sub_oracle|]. split; [|done]. destruct Hr as [[-> Hf]|[-> Hf]]; (split; [done|]).
      + left. set_solver.
      + right. intros y Hy. apply (Hf y); [| |done]; destruct Hy as (_ & ? & ? & _); unfold USER_ADDRESS_MIN, u64_max in *; lia. }
  pose proof (round_hint h0 Hh0) as Hround. unfold USER_ADDRESS_MIN in *.
  destruct (_ <$> _) as [h|]; wp_step.
  - subst h. destruct (Z.ltb_spec (page_round h0) (USER_ADDRESS_MAX arch)); wp_step.
    + assert (0 ≤ page_round h0). { pose proof (page_round_le h0) as Hp. unfold h0, is_u64 in *. lia. }
      eapply (wp_reserve_any arch s R0); [done..|lia|]. intros [base|x] s' o' Ho' Hr; wp_step; simpl.
      * destruct Hr as (? & ? & Huf & Hres). wp_step. split; [done|]. split; [|done]. split; [done|]. left. lia.
      * destruct Hr as [-> Hr]. apply Htail; [done|]. destruct Hr as [[_ Hf]|[_ Hf]]; [by left|right].
        intros y Hy Huf. apply (Hf y); [by apply Habove| |done]. by destruct Huf as (_ & _ & ? & _).
    + apply Htail; [done|]. right. intros y Hy Huf. pose proof (Habove y Hy Huf). destruct Huf as (_ & _ & ? & _). lia.
  - wp_step. apply Htail; [done|]. right. intros y Hy Huf. pose proof (Habove y Hy Huf).
    destruct Huf as (_ & _ & ? & _). pose proof (page_round_le h0) as Hp. unfold h0, is_u64, PAGE_SIZE in *. lia.
Qed.

Lemma reserve_spec s R0 placement length entropy o :
  map_inv arch s R0 → 0 < length < two64 → length mod PAGE_SIZE = 0 → placement_u64 placement → is_u64 entropy →
  wp (reserve arch placement length entropy)
     (λ r s' o', o' ⊆ o ∧ reserve_post arch s placement length o r ∧ reserved_at arch s length r s') s o.
Proof.
  intros Hm Hl Hlm Hp He. destruct placement as [|hint|start].
  - by eapply reserve_random_spec.
  - by eapply reserve_hint_spec.
  - by eapply reserve_fixed_place_spec.
Qed.

(** ** [map] *)

Definition mapping_u64 (mp : VmMapping) : Prop :=
  is_u64 (mp_length mp) ∧ placement_u64 (mp_placement mp) ∧
  match mp_backing mp with BackObject _ offset _ => is_u64 offset | BackAnonymous => True end.

(** The backing that [map] chooses: an object, its first page, privacy. *)
Definition backing_of s (mp : VmMapping) (b : option VmObject * Z * bool) : Prop :=
  match mp_backing mp with
  | BackAnonymous =>
      if decide (mp_inheritance mp = InheritShare)
      then b = (Some (mkObject (next_id (world s)) false), 0, false)
      else b = (None, 0, true)
  | BackObject object offset private =>
      offset mod PAGE_SIZE = 0 ∧ b = (Some object, offset / PAGE_SIZE, private)
  end.

Definition new_entry (mp : VmMapping) (b : option VmObject * Z * bool) (start length : Z) : VmMapEntry :=
  let '(object, offset, private) := b in
  mkEntry start (start + length) object offset None (mp_protection mp) (mp_maximum mp)
    (mp_inheritance mp) AdviceNormal private private 0.

Definition map_error s (mp : VmMapping) o (x : Error) : Prop :=
  let length := page_round (mp_length mp) in
  (x = InvalidAddress ∧
     (¬ (0 < mp_length mp ∧ mp_length mp + PAGE_SIZE - 1 < two64) ∨
      (∃ object offset private, mp_backing mp = BackObject object offset private ∧ offset mod PAGE_SIZE ≠ 0) ∨
      ∃ start, mp_placement mp = PlaceFixed start ∧ ¬ user_range arch start (start + length))) ∨
  (x = Protection ∧ prot_contains (mp_maximum mp) (mp_protection mp) = false) ∨
  (x = OutOfMemory ∧
     (false ∈ o ∨ match mp_placement mp with
                  | PlaceFixed start => ¬ user_free arch s length start
                  | _ => ∀ y, ¬ user_free arch s length y
                  end)).

Lemma user_free_range s length x :
  0 < length → length mod PAGE_SIZE = 0 → user_free arch s length x → user_range arch x (x + length).
Proof.
  intros Hl Hlm (Hx & ? & ? & _). split; try done; try lia. rewrite Z.add_mod, Hx, Hlm by done. done.
Qed.

Lemma fresh_object_inv s R0 w :
  map_inv arch s R0 → amaps w = amaps (world s) → (next_id (world s) ≤ next_id w)%nat →
  map_inv arch (with_world w s) R0 ∧ same_slots (world s) w ∧ ∀ a, view (with_world w s) a = view s a.
Proof.
  intros Hm Ha Hn. pose proof (same_amaps_slots (world s) w Ha) as Hss.
  assert (map_inv arch (with_world w s) R0) as Hm'.
  { eapply map_inv_world; [done|]. destruct (mi_world _ _ _ Hm) as [H1 H2 H3]. split.
    - intros id am. rewrite Ha. auto.
    - intros id. rewrite Ha. auto.
    - intros id. rewrite Ha. intros Hid. specialize (H3 id Hid). lia. }
  split; [done|]. split; [done|]. intros a. by eapply view_world; [..|apply same_kept].
Qed.

(** The rest of [map], once the backing is chosen. *)
Lemma place_spec s R0 mp b length entropy o :
  map_inv arch s R0 → mapping_u64 mp → is_u64 entropy → length = page_round (mp_length mp) →
  0 < length < two64 → length mod PAGE_SIZE = 0 →
  (match b with (obj, off, _) => 0 ≤ off ≤ 4503599627370496 ∧ (obj = None → off = 0) end) →
  wp (let '(object, object_offset, private) := b in
      let! start := reserve arch (mp_placement mp) length entropy in
      insert_entry arch (mkEntry start (u64_add start length) object object_offset None
        (mp_protection mp) (mp_maximum mp) (mp_inheritance mp) AdviceNormal private private 0))
     (λ r s' o', o' ⊆ o ∧
        match r with
        | Ok start => user_range arch start (start + length) ∧
            reserve_post arch s (mp_placement mp) length o (Ok start) ∧
            prot_contains (mp_maximum mp) (mp_protection mp) = true ∧
            published arch s s' (new_entry mp b start length) R0
        | Err x => map_inv arch s' R0 ∧ kept R0 (world s) (world s') ∧ (∀ a, view s' a = view s a) ∧
            map_error s mp o x
        end) s o.
Proof.
  intros Hm (_ & Hpl & _) He -> Hl Hlm Hb. destruct b as [[obj off] priv]. pose proof (user_max_bound arch) as Hmax.
  set (length := page_round (mp_length mp)) in *. wp_step.
  eapply wp_mono; [by eapply reserve_spec|]. intros [start|x] s1 o1 (Ho1 & Hpost & Hres); cbv beta iota.
  - destruct Hres as (v' & -> & Hnew & Har).
    assert (user_free arch s length start) as Huf.
    { unfold reserve_post in Hpost. destruct (mp_placement mp); naive_solver. }
    pose proof (user_free_range s length start ltac:(lia) Hlm Huf) as Hur. pose proof Hur as [].
    unfold USER_ADDRESS_MIN in *. rewrite u64_add_small by lia. fold (new_entry mp (obj, off, priv) start length).
    eapply wp_mono; [eapply insert_entry_spec; [done|]|].
    { split; try done.
      - replace (elen (new_entry mp (obj, off, priv) start length)) with length; [done|]. unfold elen. simpl. lia.
      - unfold offset_ok, elen. simpl. replace (start + length - start) with length by lia.
        assert (length / PAGE_SIZE ≤ 0x800000000000 / PAGE_SIZE) by (apply Z.div_le_mono; [done|lia]).
        change (0x800000000000 / PAGE_SIZE) with 34359738368 in *.
        assert (0 ≤ start / PAGE_SIZE) by (apply Z.div_pos; [lia|done]). destruct obj; naive_solver lia. }
    intros [y|x] s2 o2 [Ho2 H2]; (split; [sub_oracle|]).
    + destruct H2 as (-> & _ & Hp & Hpub). simpl. split_and!; done.
    + destruct H2 as (Hm2 & Hk2 & Hv2 & Hx). split_and!; try done. unfold map_error.
      destruct Hx as [[_ Hx]|[[-> Hx]|[-> Hx]]]; [done|by right; left|]. do 2 right. split; [done|]. left. set_solver.
  - split; [done|]. simpl in Hres. subst s1. split_and!; try done. unfold map_error, reserve_post in *.
    destruct (mp_placement mp); naive_solver.
Qed.

Lemma published_world s w s' e R0 :
  map_inv arch s R0 → map_inv arch (with_world w s) R0 → same_slots (world s) w →
  (∀ a, view (with_world w s) a = view s a) → e_amap e = None →
  published arch (with_world w s) s' e R0 → published arch s s' e R0.
Proof.
  intros Hm Hmw Hss Hv Hea (Hm' & Hk & Hn & Hv'). split; [done|]. split.
  { etrans; [by apply same_kept|exact Hk]. }
  split; [intros a Ha; rewrite <- Hv; auto|]. intros a. rewrite Hv', Hv. case_decide; [|done].
  f_equal. unfold page_view, slot_of. by rewrite Hea.
Qed.

Lemma user_free_ext s s' length x :
  (∀ a, view s' a = view s a) → user_free arch s' length x ↔ user_free arch s length x.
Proof. intros Hv. unfold user_free. by setoid_rewrite Hv. Qed.

Lemma reserve_post_ext s s' p length o start :
  (∀ a, view s' a = view s a) → reserve_post arch s' p length o (Ok start) → reserve_post arch s p length o (Ok start).
Proof.
  intros Hv. unfold reserve_post. destruct p; rewrite (user_free_ext s s') by done; try done.
  by setoid_rewrite (user_free_ext s s' _ _ Hv).
Qed.
Lemma map_error_ext s s' mp o x : (∀ a, view s' a = view s a) → map_error s' mp o x → map_error s mp o x.
Proof.
  intros Hv. unfold map_error. destruct (mp_placement mp); by setoid_rewrite (user_free_ext s s' _ _ Hv).
Qed.

Definition map_post s R0 (mp : VmMapping) o (r : result Error Z) s' : Prop :=
  match r with
  | Ok start => ∃ b, backing_of s mp b ∧
      user_range arch start (start + page_round (mp_length mp)) ∧
      reserve_post arch s (mp_placement mp) (page_round (mp_length mp)) o (Ok start) ∧
      prot_contains (mp_maximum mp) (mp_protection mp) = true ∧
      published arch s s' (new_entry mp b start (page_round (mp_length mp))) R0
  | Err x => map_inv arch s' R0 ∧ kept R0 (world s) (world s') ∧ (∀ a, view s' a = view s a) ∧
      map_error s mp o x
  end.

(** [map] *)
Lemma map_spec s R0 mp entropy o :
  map_inv arch s R0 → mapping_u64 mp → is_u64 entropy →
  wp (map arch mp entropy) (λ r s' o', o' ⊆ o ∧ map_post s R0 mp o r s') s o.
Proof.
  intros Hm Hmp He. pose proof Hmp as (Hlen & _ & Hoff). unfold map, map_post. do 2 wp_step.
  rewrite checked_page_length_spec by done. case_decide as Hd.
  2: { split; [done|]. split_and!; try done. left. auto. }
  destruct (page_round_le (mp_length mp) ltac:(lia)) as [Hle Hlm]. unfold PAGE_SIZE in Hd, Hle.
  wp_step. unfold backing_of. destruct (mp_backing mp) as [|object offset private] eqn:Ebk.
  - destruct (decide (mp_inheritance mp = InheritShare)) as [Hsh|Hsh].
    + rewrite bool_decide_eq_true_2 by done. wp_step. unfold on_world. apply wp_zoom. unfold fresh_id, wp at 1.
      set (w1 := mkWorld _ _ _ _). destruct (fresh_object_inv s R0 w1 Hm eq_refl ltac:(simpl; lia)) as (Hm1 & Hss & Hv1).
      wp_step. eapply wp_mono; [by eapply (place_spec _ R0 mp (_, _, _)); first [done|lia]|].
      intros [start|x] s2 o2 [Ho2 H2]; (split; [done|]).
      * destruct H2 as (Hur & Hpost & Hp & Hpub). eexists. split; [done|]. split; [done|].
        split; [by eapply reserve_post_ext|]. split; [done|by eapply published_world].
      * destruct H2 as (Hm2 & Hk2 & Hv2 & Hx). split; [done|]. split; [etrans; [by apply same_kept|exact Hk2]|].
        split; [intros a; by rewrite Hv2|]. eapply map_error_ext; [exact Hv1|done].
    + rewrite bool_decide_eq_false_2 by done. wp_step.
      eapply wp_mono; [by eapply (place_spec _ R0 mp (_, _, _)); first [done|lia]|].
      intros [start|x] s2 o2 [Ho2 H2]; (split; [done|]); [|done]. eexists. by split.
  - unfold is_multiple_of. change (PAGE_SIZE =? 0) with false. cbv iota.
    destruct (Z.eqb_spec (offset mod PAGE_SIZE) 0) as [Hmod|Hmod]; simpl.
    + wp_step. eapply wp_mono; [eapply (place_spec _ R0 mp (_, _, _)); try done; try lia|].
      { split; [|done]. unfold is_u64, PAGE_SIZE in *. split; [apply Z.div_pos; lia|].
        apply Z.div_le_upper_bound; lia. }
      intros [start|x] s2 o2 [Ho2 H2]; (split; [done|]); [|done]. eexists. by split.
    + wp_step. split; [done|]. split_and!; try done. left. split; [done|]. right; left.
      rewrite Ebk. eauto.
Qed.
End place.
