(* ===== verification/VmMapFault.v ===== *)
(** The map side of a page fault: [FaultWindow::new], [VmMap::fault_snapshot]
    and [VmMap::prepare_copy]. *)
From S2P Require Import Prelude.
From S2P Require Import Index.
From S2P Require Import Tags.
From S2P Require Import Vmem.
From S2P Require Import VmemInv.
From S2P Require Import VmemFit.
From S2P Require Import VmemOps.
From S2P Require Import Amap.
From S2P Require Import AmapInv.
From S2P Require Import AmapSpec.
From S2P Require Import AmapHeap.
From S2P Require Import AmapHeapSpec.
From S2P Require Import VmMap.
From S2P Require Import VmMapInv.
From S2P Require Import VmMapOps.
From S2P Require Import VmMapUnmap.
From S2P Require Import VmMapMerge.
Open Scope rust_scope.

Section fault.
Context {tree : Type → Type} `{!RBTree tree, !RBTreeLaws tree}.
Variable arch : Arch.
Implicit Types (s : Sys tree) (e : VmMapEntry) (E : gmap Z VmMapEntry) (R : refmap) (o : oracle).

(** The pages of a fault window: at most sixteen, all inside the entry, and
    the faulting page is the one at [fw_center]. *)
Lemma fault_window_spec k e address access :
  entry_wf arch k e → inside_entry e address → address mod PAGE_SIZE = 0 →
  let w := fault_window e address access in
  0 ≤ fw_center w < fw_count w ∧ fw_count w ≤ 16 ∧ fw_start w mod PAGE_SIZE = 0 ∧
  e_start e ≤ fw_start w ∧ fw_start w + fw_count w * PAGE_SIZE ≤ e_end e ∧
  fw_start w + fw_center w * PAGE_SIZE = address.
Proof.
  intros [] [Hlo Hhi] Hm. pose proof (user_max_bound arch). unfold USER_ADDRESS_MIN in *. unfold fault_window.
  set (bf := if _ && _ then (0, 0) else _).
  assert (0 ≤ bf.1 ≤ 8 ∧ 0 ≤ bf.2 ≤ 7) as Hbf by (unfold bf; destruct (_ && _); [simpl; lia|]; destruct (e_advice e); simpl; lia).
  destruct bf as [back forward]. simpl in Hbf. rewrite (u64_sub_small address (e_start e)), (u64_sub_small (e_end e) address) by lia.
  unfold PAGE_SIZE in *. apply Z.mod_divide in Hm as [x ->]; [|done].
  apply Z.mod_divide in ew_astart as [y Hy]; [|done]. apply Z.mod_divide in ew_aend as [z Hz]; [|done]. rewrite Hy, Hz in *.
  replace (x * 4096 - y * 4096) with ((x - y) * 4096) by lia. replace (z * 4096 - x * 4096) with ((z - x) * 4096) by lia.
  rewrite !Z.div_mul by done. rewrite (u64_sub_small (z - x)) by lia. cbv zeta. cbn [fw_start fw_count fw_center].
  rewrite u64_mul_small, u64_sub_small by lia.
  replace (x * 4096 - Z.min back (x - y) * 4096) with ((x - Z.min back (x - y)) * 4096) by lia.
  rewrite Z.mod_mul by done. lia.
Qed.

Lemma entry_view s R0 address :
  map_inv arch s R0 →
  match entry_at address (vmap s) with
  | Some (k, e) => emap (vmap s) !! k = Some e ∧ inside_entry e address ∧
      view s address = Some (page_view (world s) e address)
  | None => view s address = None
  end.
Proof.
  intros Hm. pose proof (entry_at_spec arch s R0 address Hm) as He. unfold view.
  destruct (entry_at address (vmap s)) as [[k e]|]; simpl; [|done]. by destruct He.
Qed.

(** An access that the page at [address] refuses. *)
Definition required (access : FaultAccess) : Z :=
  match access with FaultRead => READ | FaultWrite => WRITE | FaultExecute => EXECUTE end.

Lemma check_access_ok e access :
  check_access e access = Ok () ∨ check_access e access = Err Protection.
Proof. unfold check_access. destruct (_ || _); auto. Qed.

(** ** Replacing one entry *)

Lemma replace_inv s s' R0 k e e' :
  map_inv arch s R0 → emap (vmap s) !! k = Some e →
  e_start e' = e_start e → e_end e' = e_end e → e_object e' = e_object e →
  e_object_offset e' = e_object_offset e → (∀ r, e_amap e' = Some r → mr_length r = pages e) →
  index_ok (entries (vmap s')) → emap (vmap s') = <[k := e']> (emap (vmap s)) →
  space (vmap s') = space (vmap s) → size (vmap s') = size (vmap s) → 0 < timestamp (vmap s') < two64 →
  world_inv (world s') (radd e' (rapp (refs_of (delete k (emap (vmap s)))) R0)) → map_inv arch s' R0.
Proof.
  intros Hm Hk Hst Hen Hob Hoff Ham Hok HE Hsp Hsz Ht Hw. pose proof (mi_wf _ _ _ Hm _ _ Hk) as Hwf.
  assert (elen e' = elen e) as Hel by (unfold elen; congruence). split; try done.
  - rewrite HE. intros k' x [[<- <-]|[_ Hx]]%lookup_insert_Some; [|by eapply mi_wf]. destruct Hwf.
    unfold offset_ok in *. split; unfold offset_ok, pages; rewrite ?Hel, ?Hst, ?Hen, ?Hob, ?Hoff; try done.
  - rewrite Hsp, HE. unfold arena_ok. rewrite fmap_insert, Hel, insert_id; [apply Hm|]. by rewrite lookup_fmap, Hk.
  - rewrite Hsz, HE, (msum_insert_Some _ _ _ _ _ Hk), (mi_size _ _ _ Hm). lia.
  - rewrite HE, <- insert_delete_eq, refs_insert, rapp_radd by apply lookup_delete_eq. done.
Qed.

Lemma replace_view s s' R0 k e e' a :
  map_inv arch s R0 → map_inv arch s' R0 → emap (vmap s) !! k = Some e →
  e_start e' = e_start e → e_end e' = e_end e → emap (vmap s') = <[k := e']> (emap (vmap s)) →
  kept (rapp (refs_of (delete k (emap (vmap s)))) R0) (world s) (world s') →
  view s' a = if decide (inside_entry e a) then Some (page_view (world s') e' a) else view s a.
Proof.
  intros Hm Hm' Hk Hst Hen HE Hkept. case_decide as Hin.
  - eapply view_Some; [done|by rewrite HE, lookup_insert_eq|]. unfold inside_entry in *. by rewrite Hst, Hen.
  - eapply (view_eq arch s s'); [done|done|]. intros pv. rewrite HE. apply kept_rapp_l in Hkept. split.
    + intros (k' & x & Hx & Hi & ->). apply lookup_insert_Some in Hx as [[<- <-]|[Hne Hx]].
      { unfold inside_entry in *. rewrite Hst, Hen in Hi. done. }
      exists k', x. split_and!; try done. eapply (page_view_kept arch _ _ _ k'); [exact Hkept|by rewrite lookup_delete_ne|by eapply (mi_wf _ _ _ Hm)|done].
    + intros (k' & x & Hx & Hi & ->). assert (k' ≠ k) by (intros ->; simplify_eq; done).
      exists k', x. rewrite lookup_insert_ne by done. split_and!; try done. symmetry.
      eapply (page_view_kept arch _ _ _ k'); [exact Hkept|by rewrite lookup_delete_ne|by eapply (mi_wf _ _ _ Hm)|done].
Qed.

(** ** [fault_snapshot] *)

Lemma page_base address : is_u64 address → Z.land address (u64_not (PAGE_SIZE - 1)) = address - address mod PAGE_SIZE.
Proof. intros Ha. apply land_not_mask; [done|]. by exists 12. Qed.

Lemma base_inside k e address :
  entry_wf arch k e → inside_entry e address →
  let base := address - address mod PAGE_SIZE in
  inside_entry e base ∧ base mod PAGE_SIZE = 0 ∧ (base - e_start e) / PAGE_SIZE = (address - e_start e) / PAGE_SIZE.
Proof.
  intros [] [Hlo Hhi] base. unfold base, inside_entry, PAGE_SIZE in *.
  pose proof (Z.mod_pos_bound address 4096 ltac:(done)). apply Z.mod_divide in ew_astart as [y Hy]; [|done]. rewrite Hy in *.
  pose proof (Z.div_mod address 4096 ltac:(done)) as Hd.
  replace (address - address mod 4096) with (address / 4096 * 4096) by lia. rewrite Z.mod_mul by done.
  assert (y ≤ address / 4096) by (apply Z.div_le_lower_bound; lia). split; [lia|]. split; [done|].
  replace (address / 4096 * 4096 - y * 4096) with ((address / 4096 - y) * 4096) by lia. rewrite Z.div_mul by done.
  replace (address - y * 4096) with (address + (- y) * 4096) by lia. rewrite Z.div_add by done. lia.
Qed.

(** What a snapshot must agree with. *)
Definition snapshot_of (pv : PageView) (access : FaultAccess) (snap : FaultSnapshot) : Prop :=
  fs_source snap = pv_slot pv ∧ object_id <$> fs_object snap = pv_object pv ∧
  (is_Some (fs_object snap) → fs_object_index snap = pv_index pv) ∧
  fs_protection snap = pv_protection pv ∧ fs_private snap = pv_private pv ∧
  fs_needs_copy snap = pv_needs_copy pv ∧ fs_access snap = access.

Definition snapshot_post s (address : Z) (access : FaultAccess) (r : result Error (option FaultSnapshot)) : Prop :=
  match r with
  | Err NotMapped => view s address = None
  | Err Protection => ∃ k e, entry_at address (vmap s) = Some (k, e) ∧ check_access e access = Err Protection
  | Err _ => False
  | Ok None => ∃ pv, view s address = Some pv ∧ pv_needs_copy pv = true ∧
      (access = FaultWrite ∨ pv_object pv = None)
  | Ok (Some snap) => ∃ pv, view s address = Some pv ∧
      prot_contains (pv_protection pv) (required access) = true ∧ snapshot_of pv access snap ∧
      fw_start (fs_window snap) + fw_center (fs_window snap) * PAGE_SIZE = address - address mod PAGE_SIZE
  end.

Lemma wp_lookup_slot s R0 k e r index o (Q : option Slot → Sys tree → oracle → Prop) :
  map_inv arch s R0 → emap (vmap s) !! k = Some e → e_amap e = Some r →
  Q (slot_at (world s) (mr_map r) index) s o →
  wp (on_world (on_amap (mr_map r) (gets (amap_lookup index)))) Q s o.
Proof.
  intros Hm Hk Ha HQ. pose proof (mi_world _ _ _ Hm) as Hw. fold (map_refs s R0) in Hw.
  rewrite (map_refs_split s R0 k e Hk) in Hw. destruct (live_amap _ _ _ _ Hw (radd_in e _ r Ha)) as [am Ham].
  apply wp_zoom. eapply wp_on_amap; [done|]. wp_step. rewrite world_eta by done. rewrite world_eta_sys.
  by rewrite (slot_at_Some _ _ am) in HQ.
Qed.

Lemma fault_snapshot_spec s R0 address access o :
  map_inv arch s R0 → is_u64 address →
  wp (fault_snapshot address access) (λ r s' o', s' = s ∧ o' = o ∧ snapshot_post s address access r) s o.
Proof.
  intros Hm Ha. pose proof (entry_view s R0 address Hm) as Hev. unfold fault_snapshot, entry. do 2 wp_step.
  destruct (entry_at address (vmap s)) as [[k e]|] eqn:Eat; simpl; [|done].
  destruct Hev as (Hk & Hin & Hv). pose proof (mi_wf _ _ _ Hm _ _ Hk) as Hwf.
  do 2 wp_step. destruct (check_access_ok e access) as [Hc|Hc]; rewrite Hc; cbv beta iota.
  2: { split_and!; try done. by exists k, e. }
  assert (prot_contains (e_protection e) (required access) = true) as Hprot.
  { unfold check_access in Hc. fold (required access) in Hc. by destruct (prot_contains _ (required access)). }
  destruct (e_needs_copy e && _) eqn:Enc.
  { wp_step. split_and!; try done. exists (page_view (world s) e address). split; [done|]. simpl.
    apply andb_true_iff in Enc as [-> Enc]. split; [done|]. apply orb_true_iff in Enc as [?%bool_decide_eq_true|En]; [by left|].
    right. apply bool_decide_eq_true in En. by rewrite En. }
  rewrite page_base by done. destruct (base_inside k e address Hwf Hin) as (Hbi & Hbm & Hbp). cbv zeta in Hbi, Hbm, Hbp.
  set (base := address - address mod PAGE_SIZE) in *. pose proof (user_max_bound arch).
  pose proof (fault_window_spec k e base access Hwf Hbi Hbm) as (_ & _ & _ & _ & _ & Hcenter). cbv zeta in Hcenter.
  unfold e_page_offset. assert (u64_sub base (e_start e) = base - e_start e) as ->.
  { apply u64_sub_small. unfold inside_entry in Hbi. destruct Hwf. unfold USER_ADDRESS_MIN in *. lia. }
  rewrite Hbp. wp_step.
  assert (0 ≤ (address - e_start e) / PAGE_SIZE ≤ 34359738368) as Hrel.
  { unfold inside_entry in Hin. destruct Hwf. unfold USER_ADDRESS_MIN in *. split; [apply pages_nonneg; lia|].
    change 34359738368 with (0x800000000000 / PAGE_SIZE). apply Z.div_le_mono; [done|lia]. }
  assert (∀ snap, fs_source snap = slot_of (world s) e address →
    snap = mkSnapshot (mr_map <$> e_amap e)
       (u64_add match e_amap e with Some r => Z.of_nat (mr_offset r) | None => 0 end ((address - e_start e) / PAGE_SIZE))
       (fs_source snap) (e_object e) (u64_add (e_object_offset e) ((address - e_start e) / PAGE_SIZE))
       (e_protection e) (e_private e) (e_needs_copy e) access (fault_window e base access) →
    snapshot_post s address access (Ok (Some snap))) as Hsnap.
  { intros snap Hsrc Heq. exists (page_view (world s) e address). split; [done|]. simpl. split; [done|].
    rewrite Heq. unfold snapshot_of. simpl. split; [|done]. split_and!; try done. intros [obj Hobj]. rewrite Hobj.
    apply u64_add_small. pose proof (ew_offset _ _ _ Hwf) as [? Ho]. rewrite Hobj in Ho.
    pose proof (pages_nonneg (e_start e) (e_end e) ltac:(destruct Hwf; lia)). unfold elen in Ho. lia. }
  destruct (e_amap e) as [r|] eqn:Ea.
  - eapply wp_lookup_slot; [done..|]. wp_step. split_and!; try done. apply Hsnap; [|done]. simpl. unfold slot_of.
    rewrite Ea. f_equal. pose proof (mi_world _ _ _ Hm) as Hw. fold (map_refs s R0) in Hw.
    rewrite (map_refs_split s R0 k e Hk) in Hw. pose proof (ref_bound _ _ _ _ Hw Ea).
    rewrite u64_add_small by lia. lia.
  - do 2 wp_step. split_and!; try done. apply Hsnap; [|done]. simpl. unfold slot_of. by rewrite Ea.
Qed.

(** ** [prepare_copy] *)

(** The entry at [key] has an amap of its own. *)
Record owned s key e R0 (r' : MapRef) (i' : Index tree VmMapEntry) (w' : World) : Prop := {
  ow_index : index_ok i';
  ow_map : index_map i' = <[key := set_amap (Some r') e]> (emap (vmap s));
  ow_length : mr_length r' = pages e;
  ow_only : rapp (refs_of (delete key (emap (vmap s)))) R0 (mr_map r') = [];
  ow_world : world_inv w' (radd (set_amap (Some r') e) (rapp (refs_of (delete key (emap (vmap s)))) R0));
  ow_kept : kept (rapp (refs_of (delete key (emap (vmap s)))) R0) (world s) w';
  ow_slots a : inside_entry e a → slot_of w' (set_amap (Some r') e) a = slot_of (world s) e a;
}.

Lemma update_amap_index s key e am :
  index_ok (entries (vmap s)) → emap (vmap s) !! key = Some e →
  index_ok (index_update key (set_amap am) (entries (vmap s))) ∧
  index_map (index_update key (set_amap am) (entries (vmap s))) = <[key := set_amap am e]> (emap (vmap s)).
Proof.
  intros Hok Hk. destruct (index_update_ok (entries (vmap s)) key (set_amap am) Hok) as [H1 H2]. split; [done|].
  rewrite H2. apply map_eq. intros j. unfold emap in *. rewrite lookup_alter, lookup_insert. case_decide; [|done].
  subst. by rewrite Hk.
Qed.

Lemma new_ref_refs w w' e R r' n :
  new_ref w w' (radd e R) r' n → mr_offset r' = 0%nat ∧ mr_length r' = n ∧ R (mr_map r') = [] ∧
  world_inv w' (radd (set_amap (Some r') e) (radd e R)).
Proof.
  intros (_ & Hnil & Hoff & Hlen & Hw). split; [done|]. split; [done|]. split.
  - unfold radd in Hnil. by destruct (ref_to (mr_map r') e).
  - rewrite (radd_rset (set_amap (Some r') e)) by done. by rewrite Hoff, Hlen, Hnil.
Qed.

Lemma covered_slot (l : list (nat * nat)) r i : (i < mr_length r)%nat → 0 < count ((mr_offset r, mr_length r) :: l) (mr_offset r + i)%nat.
Proof. intros Hi. apply count_pos. exists (mr_offset r, mr_length r). split; [left|]. unfold covers. simpl. lia. Qed.

Lemma kept_other (R : refmap) id w w' :
  R id = [] → (∀ j i, j ≠ id → slot_at w' j i = slot_at w j i) → kept R w w'.
Proof.
  intros Hnil Hs j i Hc. apply Hs. intros ->. rewrite Hnil in Hc. unfold count in Hc. simpl in Hc. lia.
Qed.

(** A shared amap is sliced into one of the entry's own. *)
Lemma slice_owned s R0 key e r o :
  map_inv arch s R0 → emap (vmap s) !! key = Some e → e_amap e = Some r →
  wp (let! r' := on_world (mapref_slice r (mr_offset r) (pages e)) in
      do update_entry key (set_amap (Some r')) then
      do on_world (mapref_drop r) then
      ret (Ok ()))
     (λ res s' o', o' ⊆ o ∧ match res with
        | Ok _ => ∃ r' i' w', s' = with_world w' (with_entries (λ _, i') s) ∧ owned s key e R0 r' i' w'
        | Err _ => ∃ w', s' = with_world w' s ∧ world_inv w' (map_refs s R0) ∧ same_slots (world s) w'
        end) s o.
Proof.
  intros Hm Hk Ha. pose proof (mi_wf _ _ _ Hm _ _ Hk) as Hwf. pose proof (map_refs_split s R0 key e Hk) as Hsp.
  set (rest := rapp (refs_of (delete key (emap (vmap s)))) R0) in *.
  pose proof (mi_world _ _ _ Hm) as Hw. fold (map_refs s R0) in Hw. rewrite Hsp in Hw.
  pose proof (ew_amap _ _ _ Hwf _ Ha) as Hlen. wp_step. apply wp_zoom. unfold mapref_slice.
  eapply wp_mono; [eapply (copy_range_spec _ (radd e rest)); [done|by apply radd_in|lia]|].
  intros [r'|x] w1 o1 [Ho1 H1]; cbv beta iota.
  2: { destruct H1 as [Hw1 Hss]. split; [done|]. exists w1. rewrite Hsp. done. }
  destruct H1 as (Hnew & Hoth & Hcopy). destruct (new_ref_refs _ _ _ _ _ _ Hnew) as (Hoff & Hl & Hnil & Hw1).
  unfold update_entry. do 3 wp_step. rewrite radd_comm in Hw1.
  destruct (update_amap_index s key e (Some r') (mi_index _ _ _ Hm) Hk) as [Hi Hmi].
  pose proof (drop_entry_spec (with_entries (index_update key (set_amap (Some r'))) (with_world w1 s)) _ e o1 Hw1) as Hdrop.
  unfold drop_entry in Hdrop. rewrite Ha in Hdrop. eapply wp_mono; [exact Hdrop|].
  intros [] s2 o2 (Ho2 & w2 & -> & Hw2 & Hk2). wp_step. split; [sub_oracle|].
  exists r', (index_update key (set_amap (Some r')) (entries (vmap s))), w2. split; [done|]. simpl in Hk2. split; try done.
  - etrans; [|by eapply kept_radd]. by eapply kept_other.
  - intros a Hin. pose proof (inside_page arch key e a Hwf Hin) as Hp. unfold slot_of. simpl. rewrite Ha.
    specialize (Hcopy _ Hp). simpl in Hcopy. rewrite <- Hcopy. rewrite Hoff. apply Hk2. unfold radd, ref_to. simpl.
    rewrite decide_True by done. pose proof (covered_slot (rest (mr_map r')) r' _ ltac:(rewrite Hl; exact Hp)) as Hc.
    by rewrite Hoff in Hc |- *.
Qed.

(** Without an amap the entry gets an empty one. *)
Lemma allocate_owned s R0 key e o :
  map_inv arch s R0 → emap (vmap s) !! key = Some e → e_amap e = None →
  wp (let! r := on_world (anonymous_allocate (elen e / PAGE_SIZE)) in
      do update_entry key (set_amap (Some r)) then
      ret (Ok ()))
     (λ res s' o', o' ⊆ o ∧ match res with
        | Ok _ => ∃ r' i' w', s' = with_world w' (with_entries (λ _, i') s) ∧ owned s key e R0 r' i' w'
        | Err _ => ∃ w', s' = with_world w' s ∧ world_inv w' (map_refs s R0) ∧ same_slots (world s) w'
        end) s o.
Proof.
  intros Hm Hk Ha. pose proof (mi_wf _ _ _ Hm _ _ Hk) as Hwf. pose proof (map_refs_split s R0 key e Hk) as Hsp.
  set (rest := rapp (refs_of (delete key (emap (vmap s)))) R0) in *.
  pose proof (mi_world _ _ _ Hm) as Hw. fold (map_refs s R0) in Hw. rewrite Hsp in Hw.
  pose proof (elen_pages arch key e Hwf) as Hpg. wp_step. apply wp_zoom.
  eapply wp_mono; [eapply (anonymous_allocate_spec _ (radd e rest)); [done|lia]|].
  intros [r'|x] w1 o1 (Ho1 & Hss & H1); cbv beta iota.
  2: { destruct H1 as [_ Hw1]. split; [done|]. exists w1. rewrite Hsp. done. }
  destruct (new_ref_refs _ _ _ _ _ _ H1) as (Hoff & Hl & Hnil & Hw1). rewrite (radd_comm _ e), radd_none in Hw1 by done.
  unfold update_entry. do 3 wp_step. destruct (update_amap_index s key e (Some r') (mi_index _ _ _ Hm) Hk) as [Hi Hmi].
  split; [done|]. exists r', (index_update key (set_amap (Some r')) (entries (vmap s))), w1. split; [done|]. split; try done.
  - by apply same_kept.
  - intros a Hin. unfold slot_of. simpl. rewrite Ha, Hss. destruct H1 as (Hfresh & _). unfold slot_at. by rewrite Hfresh.
Qed.

Definition pv_set_needs_copy (b : bool) (v : PageView) : PageView :=
  mkView (pv_object v) (pv_index v) (pv_slot v) (pv_protection v) (pv_maximum v) (pv_inheritance v)
    (pv_advice v) (pv_private v) b (pv_wired v).

(** The address is in an entry that owns its amap and may be written. *)
Definition detached_at s s' R0 (address : Z) : Prop :=
  ∃ k e r, entry_at address (vmap s') = Some (k, e) ∧ e_needs_copy e = false ∧ e_amap e = Some r ∧
    map_refs s' R0 (mr_map r) = [(mr_offset r, mr_length r)] ∧
    ∀ a, view s' a = if decide (inside_entry e a) then pv_set_needs_copy false <$> view s a else view s a.

(** The end of [prepare_copy]: the flag is cleared. *)
Lemma clear_needs_copy s R0 key e r' i' w' address o :
  map_inv arch s R0 → emap (vmap s) !! key = Some e → inside_entry e address →
  owned s key e R0 r' i' w' →
  wp (do update_entry key (set_needs_copy false) then do bump_timestamp then ret (Ok ()))
     (λ (r : result Error ()) s' o', o' = o ∧ r = Ok () ∧ map_inv arch s' R0 ∧ kept R0 (world s) (world s') ∧
        detached_at s s' R0 address)
     (with_world w' (with_entries (λ _, i') s)) o.
Proof.
  intros Hm Hk Hin []. set (e' := set_needs_copy false (set_amap (Some r') e)).
  unfold update_entry, bump_timestamp. do 5 wp_step.
  destruct (index_update_ok i' key (set_needs_copy false) ow_index0) as [Hok Hmap].
  match goal with |- context [map_inv arch ?t R0] => set (s' := t) end.
  assert (emap (vmap s') = <[key := e']> (emap (vmap s))) as HE.
  { unfold s', emap. simpl. rewrite Hmap, ow_map0. apply map_eq. intros j. rewrite lookup_alter, !lookup_insert.
    by repeat case_decide. }
  assert (map_inv arch s' R0) as Hm'.
  { eapply (replace_inv s s' R0 key e e'); try done; [|apply bump_time, Hm]. intros r [= <-]. done. }
  split_and!; try done; [by eapply kept_rapp_r|]. pose proof (entry_view s' R0 address Hm') as Hat.
  assert (inside_entry e' address) as Hin' by done.
  assert (entry_at address (vmap s') = Some (key, e')) as Heat.
  { pose proof (entry_at_spec arch s' R0 address Hm') as Hsp. destruct (entry_at address (vmap s')) as [[k1 e1]|].
    - destruct Hsp as [H1 H2]. destruct (inside_unique arch _ k1 e1 key e' address (map_disjoint arch _ _ Hm') (mi_wf _ _ _ Hm')) as [-> ->];
        try done. by rewrite HE, lookup_insert_eq.
    - exfalso. apply (Hsp key e'); [by rewrite HE, lookup_insert_eq|done]. }
  exists key, e', r'. split; [done|]. split; [done|]. split; [done|]. split.
  - pose proof (map_refs_split s' R0 key e' ltac:(by rewrite HE, lookup_insert_eq) (mr_map r')) as Hp.
    rewrite HE, delete_insert_eq in Hp. unfold radd, ref_to in Hp. simpl in Hp. rewrite decide_True in Hp by done.
    rewrite ow_only0 in Hp. symmetry in Hp. by apply Permutation_singleton_l in Hp.
  - intros a. rewrite (replace_view s s' R0 key e e') by done. destruct (decide (inside_entry e a)) as [Hia|Hia], (decide (inside_entry e' a)); try done.
    rewrite (view_Some arch s R0 key e a Hm Hk Hia). simpl. f_equal. unfold page_view, pv_set_needs_copy. simpl.
    f_equal. rewrite <- ow_slots0 by done. done.
Qed.

(** The clips of [prepare_copy] around the chunk of the address. *)
Lemma chunk_spec s R0 key e address o :
  map_inv arch s R0 → few_refs 3 (map_refs s R0) → emap (vmap s) !! key = Some e → inside_entry e address →
  wp (if bool_decide (e_amap e = None) && (LARGE_PAGES <=? u64_sub (e_end e) (e_start e) / PAGE_SIZE) then
        let chunk_bytes := CHUNK_PAGES * PAGE_SIZE in
        let start := Z.max (address / chunk_bytes * chunk_bytes) (e_start e) in
        let end_ := Z.min (u64_add (address / chunk_bytes * chunk_bytes) chunk_bytes) (e_end e) in
        let! _ := clip_at start in
        clip_at end_
      else ret (Ok ()))
     (λ r s' o', o' ⊆ o ∧ quiet arch s s' R0 ∧ match r with Ok _ => True | Err x => x = OutOfMemory ∧ false ∈ o end) s o.
Proof.
  intros Hm Hfew Hk Hin. destruct (mi_wf _ _ _ Hm _ _ Hk). unfold inside_entry in Hin. pose proof (user_max_bound arch).
  unfold USER_ADDRESS_MIN in *. destruct (_ && _); [|wp_step; split_and!; auto using quiet_refl].
  unfold CHUNK_PAGES, PAGE_SIZE in *. change (16 * 4096) with 65536. cbv zeta.
  pose proof (Z.div_mod address 65536 ltac:(done)). pose proof (Z.mod_pos_bound address 65536 ltac:(done)).
  rewrite u64_add_small by lia. set (c := address / 65536 * 65536) in *.
  assert (c mod 4096 = 0). { unfold c. replace (address / 65536 * 65536) with (address / 65536 * 16 * 4096) by lia. by apply Z.mod_mul. }
  assert ((c + 65536) mod 4096 = 0). { rewrite Z.add_mod by done. by replace (c mod 4096) with 0. }
  wp_step. eapply wp_mono; [eapply clip_at_spec; try done; [unfold is_u64; lia|]|].
  { unfold PAGE_SIZE. by destruct (Z.max_spec c (e_start e)) as [[_ ->]|[_ ->]]. }
  intros [_|x] s1 o1 (Ho1 & Hq1 & Hr1); [|by destruct Hr1 as (-> & ? & ->)].
  destruct Hr1 as [Hf1 _]. eapply wp_mono; [eapply clip_at_spec; try done; [apply Hq1|unfold is_u64; lia|]|].
  { unfold PAGE_SIZE. by destruct (Z.min_spec (c + 65536) (e_end e)) as [[_ ->]|[_ ->]]. }
  intros [_|x] s2 o2 (Ho2 & Hq2 & Hr2); (split; [sub_oracle|]); (split; [by eapply quiet_trans|]); [done|].
  destruct Hr2 as (-> & ? & _). split; [done|]. set_solver.
Qed.

(** [prepare_copy] gives the faulting entry, or its chunk, an amap of its own
    with the same contents. *)
Lemma prepare_copy_spec s R0 address access o :
  map_inv arch s R0 → few_refs 3 (map_refs s R0) →
  wp (prepare_copy address access) (λ r s' o', o' ⊆ o ∧ map_inv arch s' R0 ∧ kept R0 (world s) (world s') ∧
     match r with
     | Ok _ => (s' = s ∧ ∃ pv, view s address = Some pv ∧ pv_needs_copy pv = false) ∨ detached_at s s' R0 address
     | Err _ => ∀ a, view s' a = view s a
     end) s o.
Proof.
  intros Hm Hfew. pose proof (entry_view s R0 address Hm) as Hev. unfold prepare_copy, entry. do 2 wp_step.
  destruct (entry_at address (vmap s)) as [[k e]|] eqn:Eat; simpl; [|done].
  destruct Hev as (Hk & Hin & Hv). do 2 wp_step. destruct (check_access_ok e access) as [Hc|Hc]; rewrite Hc; cbv beta iota.
  2: { split_and!; done. }
  destruct (e_needs_copy e) eqn:Enc; simpl.
  2: { wp_step. split_and!; try done. left. split; [done|]. exists (page_view (world s) e address). split; done. }
  wp_step. eapply wp_mono; [by eapply (chunk_spec s R0 k e address)|].
  intros [_|x] s1 o1 (Ho1 & [] & Hr1); cbv beta iota.
  2: { split_and!; done. }
  do 2 wp_step. pose proof (entry_view s1 R0 address q_inv) as Hev1. do 2 wp_step.
  destruct (entry_at address (vmap s1)) as [[k1 e1]|] eqn:Eat1; simpl; [|rewrite q_view in Hev1; congruence].
  destruct Hev1 as (Hk1 & Hin1 & Hv1). pose proof (mi_wf _ _ _ q_inv _ _ Hk1) as Hwf1. pose proof (user_max_bound arch).
  assert (u64_sub (e_end e1) (e_start e1) = elen e1) as ->.
  { apply u64_sub_small. destruct Hwf1. unfold USER_ADDRESS_MIN in *. lia. }
  set (rest := rapp (refs_of (delete k1 (emap (vmap s1)))) R0).
  wp_step. eapply wp_mono with (P := λ res s' o', o' ⊆ o1 ∧ match res with
    | Ok _ => ∃ r' i' w', s' = with_world w' (with_entries (λ _, i') s1) ∧ owned s1 k1 e1 R0 r' i' w'
    | Err _ => ∃ w', s' = with_world w' s1 ∧ world_inv w' (map_refs s1 R0) ∧ same_slots (world s1) w'
    end).
  { destruct (e_amap e1) as [r|] eqn:Ea; [|by apply allocate_owned].
    pose proof (map_refs_split s1 R0 k1 e1 Hk1) as Hsp. fold rest in Hsp.
    pose proof (mi_world _ _ _ q_inv) as Hw. fold (map_refs s1 R0) in Hw. rewrite Hsp in Hw.
    wp_step. apply wp_zoom. eapply wp_mono; [eapply is_exclusive_spec; [exact Hw|by apply radd_in]|].
    intros [] w' o' (-> & -> & Hx); rewrite world_eta_sys; [|by apply slice_owned].
    wp_step. split; [done|]. exists r, (entries (vmap s1)), (world s1). split; [by destruct s1 as [[]]|].
    pose proof (set_amap_same e1) as Hsame. rewrite Ea in Hsame. split; try done; rewrite ?Hsame.
    - apply q_inv.
    - by rewrite insert_id.
    - by apply (ew_amap _ _ _ Hwf1).
    - specialize (proj1 Hx eq_refl) as Hone. unfold radd, ref_to in Hone. rewrite Ea, decide_True in Hone by done.
      by injection Hone.
    - done.
    - done. }
  intros [[]|x] s2 o2 [Ho2 H2]; cbv beta iota.
  - destruct H2 as (r' & i' & w' & -> & How). eapply wp_mono; [by eapply (clear_needs_copy s1 R0 k1 e1 r' i' w' address)|].
    intros r s3 o3 (-> & -> & Hm3 & Hk3 & Hd). split; [sub_oracle|]. split; [done|]. split; [by etrans|]. right.
    destruct Hd as (k' & e' & r1 & H1 & H2 & H3 & H4 & Hv'). exists k', e', r1. split_and!; try done.
    intros a. by rewrite Hv', q_view.
  - destruct H2 as (w' & -> & Hw' & Hss). split; [sub_oracle|].
    assert (map_inv arch (with_world w' s1) R0) as Hm' by (by eapply map_inv_world). split; [done|].
    split; [etrans; [done|by apply same_kept]|]. intros a. rewrite <- q_view.
    eapply view_world; [done|done|by apply same_kept].
Qed.
End fault.
