(* ===== verification/VmMapFork.v ===== *)
(** [VmMap::new] and [VmMap::fork]. *)
From S2P Require Import Prelude.
From S2P Require Import Index.
From S2P Require Import Tags.
From S2P Require Import Vmem.
From S2P Require Import VmemInv.
From S2P Require Import VmemFit.
From S2P Require Import VmemOps.
From S2P Require Import Amap.
From S2P Require Import AmapInv.
From S2P Require Import AmapSpec.
From S2P Require Import AmapHeap.
From S2P Require Import AmapHeapSpec.
From S2P Require Import VmMap.
From S2P Require Import VmMapInv.
From S2P Require Import VmMapOps.
From S2P Require Import VmMapUnmap.
From S2P Require Import VmMapMerge.
From S2P Require Import VmMapPlace.
From S2P Require Import VmMapFault.
Open Scope rust_scope.

Section fork.
Context {tree : Type → Type} `{!RBTree tree, !RBTreeLaws tree}.
Variable arch : Arch.
Implicit Types (s t : Sys tree) (e c : VmMapEntry) (E : gmap Z VmMapEntry) (R : refmap) (o : oracle).

(** ** The empty map *)

Record empty_map (m : VmMap tree) : Prop := {
  em_index : index_ok (entries m);
  em_entries : emap m = ∅;
  em_arena : arena_ok arch (space m) ∅;
  em_size : size m = 0;
  em_time : timestamp m = 1;
}.

Lemma empty_inv m w R : empty_map m → world_inv w R → map_inv arch (mkSys m w) R.
Proof.
  intros [] Hw. split; simpl; try done; rewrite ?em_entries0; try done.
  - rewrite em_time0. lia.
Qed.

Lemma map_new_spec {St} (s : St) o :
  wp (map_new (tree := tree) arch) (λ r (s' : St) o', s' = s ∧ o' ⊆ o ∧
     match r with
     | Ok m => empty_map m
     | Err x => x = OutOfMemory ∧ false ∈ o
     end) s o.
Proof.
  pose proof (user_max_bound arch) as Hmax. unfold map_new.
  assert (USER_ADDRESS_MIN < USER_ADDRESS_MAX arch ∧ USER_ADDRESS_MAX arch mod PAGE_SIZE = 0) as [Hlt Hmm] by (by destruct arch).
  rewrite u64_sub_small by (unfold USER_ADDRESS_MIN in *; lia).
  pose proof (vmem_new_spec (tree := tree) PAGE_SIZE ltac:(unfold is_u64, PAGE_SIZE; lia)) as Hn.
  destruct (vmem_new PAGE_SIZE) as [v|] eqn:Ev; [|by destruct Hn; exists 12].
  destruct Hn as (_ & [FL Hinv] & Hq & Htags & Htot & _). wp_step. eapply wp_expect; [done|]. wp_step. apply wp_run_on.
  eapply wp_mono; [eapply (add_span_spec v FL); [done|unfold is_u64, USER_ADDRESS_MIN in *; lia..]|].
  intros r v' o' [Ho Hr]. cbv beta iota. do 2 wp_step. unfold add_span_post in Hr. destruct r as [[]|[]]; simpl.
  - destruct Hr as [_ []]. wp_step. split; [done|]. split; [done|]. split; try done.
    + apply index_new_ok.
    + unfold emap. simpl. apply imap_new.
    + unfold arena_ok. rewrite fmap_empty. split; try done.
      * simpl. congruence.
      * intros b tg. simpl. rewrite se_tags, Htags. intros [[<- <-]|[_ Hb]]%lookup_insert_Some; done.
      * simpl. rewrite se_allocated. unfold allocated. rewrite Htags. apply omap_empty.
      * intros a. simpl. rewrite se_tags, Htags. unfold managed, inside. split.
        -- intros (b & tg & [[<- <-]|[_ Hb]]%lookup_insert_Some & Hi); [simpl in Hi; lia|done].
        -- intros Hi. exists USER_ADDRESS_MIN, (span_tag USER_ADDRESS_MIN (USER_ADDRESS_MAX arch - USER_ADDRESS_MIN)).
           rewrite lookup_insert_eq. split; [done|]. simpl. lia.
  - done.
  - destruct Hr as [_ Hf]. auto.
  - exfalso. destruct Hr as [_ [Hb|[Hb|[Hb|[Hb|[Hb|Hb]]]]]]; rewrite ?Hq, ?Htot in Hb.
    + lia.
    + by apply Hb.
    + apply Hb. by apply sub_aligned.
    + lia.
    + unfold USER_ADDRESS_MIN in *. lia.
    + apply Hb. intros a _ (b & tg & Hbt & _). by rewrite Htags in Hbt.
Qed.

(** ** One entry of the child *)

Definition cow e : bool := bool_decide (e_inheritance e = InheritCopy) && e_private e.

(** The reference of [e] is among [R]. *)
Definition ref_in e R : Prop := ∀ r, e_amap e = Some r → (mr_offset r, mr_length r) ∈ R (mr_map r).

(** The child's entry: shared entries refer to the same amap; the private copy
    entries refer to the same amap until one side writes, or already have a
    copy when a writer is active. *)
Definition child_of (w' : World) e c (w : World) : Prop :=
  ∃ am b, c = set_needs_copy b (set_amap am e) ∧ (∀ r, am = Some r → mr_length r = pages e) ∧
    if cow e
    then (b = true ∧ am = e_amap e) ∨
         (b = false ∧ ∀ a, inside_entry e a → copied_slot true (slot_of w e a) (slot_of w' c a))
    else b = e_needs_copy e ∧ am = e_amap e.

Lemma clone_entry_spec s e R o :
  world_inv (world s) R → few_refs 1 R → ref_in e R →
  wp (clone_entry e) (λ c s' o', o' ⊆ o ∧ c = e ∧ ∃ w', s' = with_world w' s ∧
     world_inv w' (radd e R) ∧ same_slots (world s) w') s o.
Proof.
  intros Hw Hf Hin. unfold clone_entry. pose proof (set_amap_same e) as Hsame. destruct (e_amap e) as [r|] eqn:Ea.
  - wp_step. apply wp_zoom. eapply wp_mono; [eapply clone_spec; [exact Hw|done|by apply Hin]|].
    intros r' w' o' (-> & Ho & Hw' & Hss). wp_step. split; [done|]. split; [done|]. exists w'.
    split; [done|]. split; [|done]. by rewrite radd_rset.
  - wp_step. split; [done|]. split; [done|]. exists (world s). rewrite world_eta_sys, radd_none by done. done.
Qed.

Lemma mark_if_shared_spec s e R o :
  world_inv (world s) (radd e R) →
  wp (match e_inheritance e, e_amap e with
      | InheritShare, Some r => on_world (mark_shared r)
      | _, _ => ret ()
      end) (λ _ s' o', o' = o ∧ ∃ w', s' = with_world w' s ∧
     world_inv w' (radd e R) ∧ same_slots (world s) w') s o.
Proof.
  intros Hw. assert (wp (ret ()) (λ _ s' o', o' = o ∧ ∃ w', s' = with_world w' s ∧
     world_inv w' (radd e R) ∧ same_slots (world s) w') s o) as Hret.
  { wp_step. split; [done|]. exists (world s). by rewrite world_eta_sys. }
  destruct (e_inheritance e); try done. destruct (e_amap e) as [r|] eqn:Ea; [|done].
  apply wp_zoom. eapply wp_mono; [eapply mark_shared_spec; [exact Hw|by apply radd_in]|].
  intros [] w' o' (-> & Hw' & Hss). split; [done|]. by exists w'.
Qed.

Definition child_post s R e (res : result Error VmMapEntry) s' : Prop :=
  ∃ w', s' = with_world w' s ∧
    match res with
    | Ok c => world_inv w' (radd c R) ∧ kept R (world s) w' ∧ child_of w' e c (world s)
    | Err _ => world_inv w' R ∧ kept R (world s) w'
    end.

(** The copy of a fork with active writers. *)
Lemma fork_copy_spec s k e r R o :
  world_inv (world s) (radd (set_needs_copy true e) R) → ref_in e R → entry_wf arch k e → e_amap e = Some r → cow e = true →
  wp (let* copied := on_world (copy_for_fork r (mr_offset r) (pages e)) in
      match copied with
      | Err error => do drop_entry (set_needs_copy true e) then ret (Err error)
      | Ok None => ret (Ok (set_needs_copy true e))
      | Ok (Some r') =>
          do drop_entry (set_needs_copy true e) then
          ret (Ok (set_needs_copy false (set_amap (Some r') (set_needs_copy true e))))
      end) (λ res s' o', o' ⊆ o ∧ child_post s R e res s') s o.
Proof.
  intros Hw Hin Hwf Ha Hcow. set (c0 := set_needs_copy true e) in *. pose proof (ew_amap _ _ _ Hwf _ Ha) as Hlen.
  wp_step. apply wp_zoom. eapply wp_mono; [eapply (copy_for_fork_spec _ (radd c0 R) r); [done|by apply radd_in|lia]|].
  intros [[r'|]|x] w1 o1 [Ho1 H1]; cbv beta iota.
  - destruct H1 as (Hnew & Hoth & Hcopy). destruct (new_ref_refs _ _ _ _ _ _ Hnew) as (Hoff & Hl & Hnil & Hw1).
    rewrite radd_comm in Hw1. wp_step. eapply wp_mono; [by eapply (drop_entry_spec (with_world w1 s))|].
    intros [] s2 o2 (Ho2 & w2 & -> & Hw2 & Hk2). wp_step. split; [sub_oracle|]. exists w2. split; [done|]. simpl in Hk2.
    split; [done|]. split.
    + etrans; [|by eapply kept_radd]. by eapply kept_other.
    + exists (Some r'), false. split; [done|]. split; [intros r0 [= <-]; done|]. rewrite Hcow. right. split; [done|].
      intros a Hi. pose proof (inside_page arch k e a Hwf Hi) as Hp. specialize (Hcopy _ Hp).
      assert (slot_of w2 (set_needs_copy false (set_amap (Some r') c0)) a =
              slot_at w1 (mr_map r') (Z.to_nat ((a - e_start e) / PAGE_SIZE))) as ->.
      { unfold slot_of. simpl. rewrite Hoff. apply Hk2. unfold radd, ref_to. simpl. rewrite decide_True by done.
        pose proof (covered_slot (R (mr_map r')) r' _ ltac:(rewrite Hl; exact Hp)) as Hc. by rewrite Hoff in Hc |- *. }
      unfold slot_of. rewrite Ha. done.
  - subst w1. wp_step. split; [done|]. exists (world s). split; [done|]. split; [done|]. split; [done|].
    exists (e_amap e), true. split; [by destruct e|]. split; [intros r0 Hr0; by eapply ew_amap|]. rewrite Hcow. by left.
  - destruct H1 as [Hw1 Hss]. wp_step. eapply wp_mono; [by eapply (drop_entry_spec (with_world w1 s))|].
    intros [] s2 o2 (Ho2 & w2 & -> & Hw2 & Hk2). wp_step. split; [sub_oracle|]. exists w2. split; [done|].
    split; [done|]. etrans; [by apply same_kept|done].
Qed.

Lemma child_same w w' k e : entry_wf arch k e → cow e = false → child_of w' e e w.
Proof.
  intros Hwf Hc. exists (e_amap e), (e_needs_copy e). rewrite Hc. split; [by destruct e|]. split; [|done].
  intros r Hr. by eapply ew_amap.
Qed.
Lemma child_lazy w w' k e : entry_wf arch k e → cow e = true → child_of w' e (set_needs_copy true e) w.
Proof.
  intros Hwf Hc. exists (e_amap e), true. rewrite Hc. split; [by destruct e|]. split; [|by left].
  intros r Hr. by eapply ew_amap.
Qed.

Lemma child_entry_spec s k e cw R o :
  world_inv (world s) R → few_refs 1 R → ref_in e R → entry_wf arch k e →
  wp (child_entry e cw) (λ res s' o', o' ⊆ o ∧ child_post s R e res s') s o.
Proof.
  intros Hw Hf Hin Hwf. pose proof (user_max_bound arch). unfold child_entry. wp_step.
  eapply wp_mono; [by eapply clone_entry_spec|].
  intros c s1 o1 (Ho1 & -> & w1 & -> & Hw1 & Hss1). wp_step. eapply wp_mono; [by eapply mark_if_shared_spec|].
  intros [] s2 o2 (-> & w2 & -> & Hw2 & Hss2). simpl in Hss2. assert (same_slots (world s) w2) as Hss by (by etrans).
  fold (cow e). destruct (cow e) eqn:Hcow.
  - assert (∀ o', o' ⊆ o → wp (ret (Ok (set_needs_copy true e))) (λ res s' o', o' ⊆ o ∧ child_post s R e res s') (with_world w2 (with_world w1 s)) o') as Hlazy.
    { intros o' Ho'. wp_step. split; [done|]. exists w2. split; [done|]. split; [done|].
      split; [by apply same_kept|by eapply child_lazy]. }
    destruct cw; [|by apply Hlazy]. destruct (e_amap e) as [r|] eqn:Ea; [|by apply Hlazy].
    assert (Z.to_nat (u64_sub (e_end e) (e_start e) / PAGE_SIZE) = pages e) as ->.
    { rewrite u64_sub_small; [done|]. destruct Hwf. unfold USER_ADDRESS_MIN in *. lia. }
    eapply wp_mono; [eapply (fork_copy_spec _ k e r R); done|].
    intros res s3 o3 (Ho3 & w3 & -> & Hr). split; [sub_oracle|]. exists w3. split; [done|]. simpl in Hr.
    destruct res as [c|x].
    + destruct Hr as (? & ? & (am & b & -> & Hl & Hch)). split; [done|]. split; [etrans; [by apply same_kept|done]|].
      exists am, b. split; [done|]. split; [done|]. rewrite Hcow in Hch |- *. destruct Hch as [?|[-> Hch]]; [by left|right].
      split; [done|]. intros a Hi. specialize (Hch a Hi). simpl in Hch.
      assert (slot_of w2 e a = slot_of (world s) e a) as <-; [|done]. unfold slot_of. destruct (e_amap e); [apply Hss|done].
    + destruct Hr. split; [done|]. etrans; [by apply same_kept|done].
  - wp_step. split; [done|]. exists w2. split; [done|]. split; [done|]. split; [by apply same_kept|by eapply child_same].
Qed.

(** ** What the child shows *)

Definition child_page (pv pv' : PageView) : Prop :=
  if bool_decide (pv_inheritance pv = InheritCopy) && pv_private pv
  then pv' = pv_set_needs_copy true pv ∨
       (pv_needs_copy pv' = false ∧ (is_Some (pv_slot pv') ↔ is_Some (pv_slot pv)) ∧
        pv_object pv' = pv_object pv ∧ pv_index pv' = pv_index pv ∧ pv_protection pv' = pv_protection pv ∧
        pv_maximum pv' = pv_maximum pv ∧ pv_inheritance pv' = pv_inheritance pv ∧
        pv_advice pv' = pv_advice pv ∧ pv_private pv' = pv_private pv ∧ pv_wired pv' = pv_wired pv)
  else pv' = pv.

Lemma slot_ref_kept R w w' k e a :
  kept R w w' → ref_in e R → entry_wf arch k e → inside_entry e a → slot_of w' e a = slot_of w e a.
Proof.
  intros Hk Hr Hwf Hi. unfold slot_of. destruct (e_amap e) as [r|] eqn:Ea; [|done]. apply Hk, count_pos.
  exists (mr_offset r, mr_length r). split; [by apply Hr|]. unfold covers. simpl.
  rewrite (ew_amap _ _ _ Hwf r Ea). pose proof (inside_page arch k e a Hwf Hi). lia.
Qed.

Lemma child_of_page R w w' k e c a :
  child_of w' e c w → kept R w w' → ref_in e R → entry_wf arch k e → inside_entry e a →
  child_page (page_view w e a) (page_view w' c a).
Proof.
  intros (am & b & -> & _ & Hch) Hk Hr Hwf Hi. pose proof (slot_ref_kept R w w' k e a Hk Hr Hwf Hi) as Hs.
  unfold child_page. simpl. fold (cow e). destruct (cow e).
  - destruct Hch as [[-> ->]|[-> Hch]]; [left|right; split_and!; try done; by apply Hch].
    unfold page_view, pv_set_needs_copy. simpl. f_equal. rewrite <- Hs. by destruct e.
  - destruct Hch as [-> ->]. unfold page_view. f_equal. rewrite <- Hs. by destruct e.
Qed.

Lemma child_wf w w' k e c : child_of w' e c w → entry_wf arch k e → entry_wf arch k c.
Proof. intros (am & b & -> & Hl & _) []. split; try done. Qed.

Lemma insert_view t t' R k c a :
  map_inv arch t R → map_inv arch t' R → emap (vmap t) !! k = None →
  emap (vmap t') = <[k := c]> (emap (vmap t)) → kept (refs_of (emap (vmap t))) (world t) (world t') →
  view t' a = if decide (inside_entry c a) then Some (page_view (world t') c a) else view t a.
Proof.
  intros Hm Hm' Hk HE Hkept. case_decide as Hin.
  - eapply view_Some; [done|by rewrite HE, lookup_insert_eq|done].
  - eapply (view_eq arch t t'); [done|done|]. intros pv. rewrite HE. split.
    + intros (k' & x & Hx & Hi & ->). apply lookup_insert_Some in Hx as [[<- <-]|[Hne Hx]]; [done|].
      exists k', x. split_and!; try done. eapply (page_view_kept arch _ _ _ k'); [exact Hkept|done|by eapply (mi_wf _ _ _ Hm)|done].
    + intros (k' & x & Hx & Hi & ->). exists k', x. rewrite lookup_insert_ne by congruence. split_and!; try done. symmetry.
      eapply (page_view_kept arch _ _ _ k'); [exact Hkept|done|by eapply (mi_wf _ _ _ Hm)|done].
Qed.

(** One more entry of the child is published. *)
Lemma fork_insert t R w1 c v' i :
  map_inv arch t R → entry_wf arch (e_start c) c → world_inv w1 (radd c (map_refs t R)) →
  kept (map_refs t R) (world t) w1 → alloc_effect (space (vmap t)) v' (e_start c) (elen c) →
  index_ok i → index_map i = <[e_start c := c]> (emap (vmap t)) →
  let t' := with_entries (λ _, i) (with_size (λ n, u64_add n (u64_sub (e_end c) (e_start c)))
              (with_space v' (with_world w1 t))) in
  map_inv arch t' R ∧ emap (vmap t) !! e_start c = None ∧
  ∀ a, view t' a = if decide (inside_entry c a) then Some (page_view w1 c a) else view t a.
Proof.
  intros Hm Hwf Hw Hk Heff Hi Hmi t'. pose proof (user_max_bound arch).
  assert (emap (vmap t) !! e_start c = None) as Hnew.
  { pose proof (ae_fresh _ _ _ _ Heff) as Hf. rewrite (ar_alloc _ _ _ (mi_arena _ _ _ Hm)), lookup_fmap in Hf.
    by destruct (emap (vmap t) !! e_start c). }
  assert (arena_ok arch v' (<[e_start c := c]> (emap (vmap t)))) as Har.
  { unfold arena_ok. rewrite fmap_insert. eapply alloc_arena; [apply Hm|done]. }
  assert (emap (vmap t') = <[e_start c := c]> (emap (vmap t))) as HE by done.
  assert (map_inv arch t' R) as Hm'.
  { pose proof (arena_sum arch v' _ Har) as Hb. rewrite msum_insert_None in Hb by done.
    pose proof (mi_size _ _ _ Hm) as Hsz. assert (elen c = e_end c - e_start c) as Hel by done.
    split; rewrite ?HE; try done.
    - intros k x [[<- <-]|[_ Hx]]%lookup_insert_Some; [done|by eapply mi_wf].
    - simpl. rewrite msum_insert_None by done. destruct Hwf. unfold USER_ADDRESS_MIN in *.
      rewrite (u64_sub_small (e_end c)), u64_add_small by lia. lia.
    - apply Hm.
    - rewrite refs_insert, rapp_radd by done. done. }
  split; [done|]. split; [done|]. intros a. eapply (insert_view t t' R); try done. by eapply kept_rapp_l.
Qed.

(** ** The loop *)

Fixpoint separate (l : list VmMapEntry) : Prop :=
  match l with
  | [] => True
  | e :: l => (∀ e' a, e' ∈ l → inside_entry e a → ¬ inside_entry e' a) ∧ separate l
  end.

Definition inherited t t' (l : list VmMapEntry) : Prop :=
  (∀ e a, e ∈ l → inside_entry e a → e_inheritance e ≠ InheritNone →
     ∃ pv, view t' a = Some pv ∧ child_page (page_view (world t) e a) pv) ∧
  (∀ a, (∀ e, e ∈ l → inside_entry e a → e_inheritance e = InheritNone) → view t' a = view t a).

Lemma ref_in_app e R R' : ref_in e R → ref_in e (rapp R' R).
Proof. intros Hr r Ha. apply elem_of_app. right. by apply Hr. Qed.

Lemma page_view_ref R w w' k e a :
  kept R w w' → ref_in e R → entry_wf arch k e → inside_entry e a → page_view w' e a = page_view w e a.
Proof. intros. unfold page_view. f_equal. by eapply slot_ref_kept. Qed.

(** The child gets one more entry, then those of the rest of the list. *)
Lemma inherited_cons t t1 t2 R e c l :
  entry_wf arch (e_start e) e → ref_in e R → (∀ x, x ∈ l → entry_wf arch (e_start x) x ∧ ref_in x R) →
  (∀ e' a, e' ∈ l → inside_entry e a → ¬ inside_entry e' a) → e_inheritance e ≠ InheritNone →
  kept R (world t) (world t1) → child_of (world t1) e c (world t) →
  (∀ a, view t1 a = if decide (inside_entry c a) then Some (page_view (world t1) c a) else view t a) →
  inherited t1 t2 l → inherited t t2 (e :: l).
Proof.
  intros Hwf Hr Hl Hsep Hne Hk Hch Hv [H1 H2].
  assert (∀ a, inside_entry c a ↔ inside_entry e a) as Hin by (by destruct Hch as (am & b & -> & _)).
  split.
  - intros x a [->|Hx]%elem_of_cons Hi Hx'.
    + rewrite H2 by (intros e' He' Hi'; by destruct (Hsep e' a)). rewrite Hv, decide_True by (by apply Hin).
      eexists. split; [done|]. by eapply child_of_page.
    + destruct (H1 x a Hx Hi Hx') as (pv & Hpv & Hcp). exists pv. split; [done|]. destruct (Hl x Hx).
      by erewrite page_view_ref in Hcp.
  - intros a Ha. rewrite H2 by (intros e' He'; apply Ha; by right). rewrite Hv, decide_False; [done|].
    rewrite Hin. intros Hi. apply Hne, (Ha e); [left|done].
Qed.

Lemma inherited_skip t t' e l :
  e_inheritance e = InheritNone → (∀ e' a, e' ∈ l → inside_entry e a → ¬ inside_entry e' a) →
  inherited t t' l → inherited t t' (e :: l).
Proof.
  intros He Hsep [H1 H2]. split.
  - intros x a [->|Hx]%elem_of_cons; [done|by apply H1].
  - intros a Ha. apply H2. intros e' He'. apply Ha. by right.
Qed.

Lemma fork_entries_spec cw l : ∀ t R o,
  map_inv arch t R → few_refs (Z.of_nat (length l) + 1) (map_refs t R) →
  (∀ e, e ∈ l → entry_wf arch (e_start e) e ∧ ref_in e R) → separate l →
  wp (fork_entries l cw) (λ r t' o', o' ⊆ o ∧ map_inv arch t' R ∧ kept R (world t) (world t') ∧
     match r with Ok _ => inherited t t' l | Err _ => True end) t o.
Proof.
  induction l as [|e l IH]; intros t R o Hm Hf Hl Hsep; cbn [fork_entries].
  { wp_step. do 3 (split; [done|]). split; [|done]. intros e a He. by apply not_elem_of_nil in He. }
  destruct Hsep as [Hse Hsep]. destruct (Hl e ltac:(left)) as [Hwf Hr].
  assert (∀ x, x ∈ l → entry_wf arch (e_start x) x ∧ ref_in x R) as Hl' by (intros; apply Hl; by right).
  assert (few_refs (Z.of_nat (length l) + 1) (map_refs t R)) as Hf'.
  { eapply few_le; [|exact Hf]. rewrite length_cons. lia. }
  destruct (bool_decide_reflect (e_inheritance e = InheritNone)) as [Hin|Hin].
  { eapply wp_mono; [by eapply IH|]. intros r t' o' (Ho & Hm' & Hk' & Hr'). split_and!; try done.
    destruct r; [by apply inherited_skip|done]. }
  wp_step. eapply wp_mono.
  { eapply (child_entry_spec t (e_start e) e cw (map_refs t R)); [apply Hm| |by apply ref_in_app|done].
    eapply few_le; [|exact Hf]. rewrite length_cons. lia. }
  intros [c|x] t1 o1 (Ho1 & w1 & -> & Hc); cbv beta iota.
  2: { destruct Hc as [Hw1 Hk1]. split; [done|]. split; [by eapply map_inv_world|]. split; [by eapply kept_rapp_r|done]. }
  destruct Hc as (Hw1 & Hk1 & Hch). pose proof (child_wf _ _ _ _ _ Hch Hwf) as Hwfc.
  assert (e_start c = e_start e ∧ e_end c = e_end e) as [Hst Hen] by (by destruct Hch as (am & b & -> & _)).
  assert (∀ x o', o' ⊆ o → wp (do drop_entry c then ret (Err x)) (λ (r : result Error ()) t' o', o' ⊆ o ∧ map_inv arch t' R ∧
    kept R (world t) (world t') ∧ match r with Ok _ => inherited t t' (e :: l) | Err _ => True end)
    (with_world w1 t) o') as Hdrop.
  { intros x o' Ho'. wp_step. eapply wp_mono; [by eapply drop_entry_spec|].
    intros [] t3 o3 (Ho3 & w3 & -> & Hw3 & Hk3). wp_step. split; [sub_oracle|].
    split; [by apply (map_inv_world arch t R)|]. split; [|done]. eapply kept_rapp_r. etrans; [exact Hk1|exact Hk3]. }
  wp_step. apply wp_reserve_new; [|intros; apply Hdrop; sub_oracle]. intros o2 Ho2. cbv iota.
  pose proof (user_max_bound arch). pose proof Hwfc as []. unfold USER_ADDRESS_MIN in *.
  wp_step. unfold on_space. apply wp_zoom.
  pose proof (mi_arena _ _ _ Hm) as [[FL Hinv] Hq _ _ _]. rewrite !(u64_sub_small (e_end c)) by lia.
  eapply wp_mono; [eapply (alloc_fixed_spec _ FL); [done|unfold is_u64; lia..]|].
  intros [[]|x] v' o3 [Ho3 Hpost].
  2: { assert (v' = space (vmap t)) as -> by (by destruct x; destruct Hpost). destruct t as [[]].
       apply Hdrop. sub_oracle. }
  destruct Hpost as (n & Hn & _ & _ & Heff). simpl in Hn. rewrite round_size_pages in Hn; [|done|lia|].
  2: { by apply sub_aligned. }
  injection Hn as <-. do 3 wp_step. apply wp_zoom.
  rewrite <- Hst in Hwfc.
  apply wp_index_insert; [apply Hm|done|]. intros i Hi Hmi. simpl in Hmi.
  destruct (fork_insert t R w1 c v' i Hm Hwfc Hw1 Hk1 Heff Hi Hmi) as (Hm4 & Hnew & Hv4).
  rewrite (u64_sub_small (e_end c)) in Hm4, Hv4 by lia.
  set (t4 := with_entries _ _) in *. eapply wp_mono; [eapply (IH t4 R); try done|].
  - assert (req (map_refs t4 R) (radd c (map_refs t R))) as Hreq.
    { unfold map_refs, t4, emap. simpl. rewrite Hmi, refs_insert, rapp_radd by done. done. }
    eapply few_req; [symmetry; exact Hreq|]. apply few_radd. eapply few_le; [|exact Hf]. rewrite length_cons. lia.
  - intros r t5 o5 (Ho5 & Hm5 & Hk5 & Hr5). split; [sub_oracle|]. split; [done|].
    split; [etrans; [by eapply kept_rapp_r|exact Hk5]|]. destruct r; [|done].
    eapply (inherited_cons t t4 t5 R e c l); try done. by eapply kept_rapp_r.
Qed.

(** ** The parent *)

Definition mark_cow e : VmMapEntry :=
  if bool_decide (e_inheritance e = InheritCopy) && e_private e then set_needs_copy true e else e.
Definition parent_page (pv : PageView) : PageView :=
  if bool_decide (pv_inheritance pv = InheritCopy) && pv_private pv then pv_set_needs_copy true pv else pv.

Lemma mark_cow_change : attribute_change mark_cow parent_page.
Proof. split; intros; unfold mark_cow, parent_page; simpl; destruct (_ && _); done. Qed.

Lemma wp_mark_all {B} s R0 (K : M (Sys tree) B) o Q :
  map_inv arch s R0 →
  (∀ s', map_inv arch s' R0 → world s' = world s → req (refs_of (emap (vmap s'))) (refs_of (emap (vmap s))) →
     (∀ a, view s' a = parent_page <$> view s a) → wp K Q s' o) →
  wp (do modify (with_entries (range_update Unbounded Unbounded mark_cow)) then
      do bump_timestamp then K) Q s o.
Proof.
  intros Hm HQ. unfold bump_timestamp. do 4 wp_step.
  destruct (range_update_ok Unbounded Unbounded mark_cow _ (mi_index _ _ _ Hm)) as [Hok Hmap].
  match goal with |- wp K Q ?t o => set (s' := t) in * end.
  assert (∀ k, emap (vmap s') !! k = mark_cow <$> emap (vmap s) !! k) as HE.
  { intros k. unfold emap. simpl. by rewrite Hmap. }
  assert (map_inv arch s' R0) as Hm'.
  { eapply map_inv_attributes; try done; [|apply bump_time, Hm]. intros k. rewrite HE.
    exists mark_cow. split; [exists parent_page; apply mark_cow_change|done]. }
  apply HQ; try done.
  - apply refs_of_ext. intros k. rewrite HE. destruct (emap (vmap s) !! k); [|done]. simpl.
    by rewrite (ac_amap _ _ mark_cow_change).
  - intros a. pose proof (entry_at_spec arch s R0 a Hm) as Hat. unfold view at 2.
    destruct (entry_at a (vmap s)) as [[k e]|]; simpl.
    + destruct Hat as [Hk Hin]. specialize (HE k). rewrite Hk in HE. erewrite view_Some; [|exact Hm'|exact HE|].
      * f_equal. apply mark_cow_change.
      * unfold inside_entry. by rewrite (ac_start _ _ mark_cow_change), (ac_end _ _ mark_cow_change).
    + apply (view_None arch s' R0); [done|]. intros pv (k & x & Hx & Hi & _). rewrite HE in Hx.
      apply fmap_Some in Hx as (e & He & ->). apply (Hat k e He). unfold inside_entry in *.
      by rewrite (ac_start _ _ mark_cow_change), (ac_end _ _ mark_cow_change) in Hi.
Qed.

(** The entries of a map, as [fork] iterates over them. *)
Lemma values_separate s R0 :
  map_inv arch s R0 →
  separate (values (entries (vmap s))) ∧
  ∀ e, e ∈ values (entries (vmap s)) → entry_wf arch (e_start e) e ∧ ref_in e (map_refs s R0).
Proof.
  intros Hm. pose proof (mi_index _ _ _ Hm) as Hok.
  destruct (values_keys (entries (vmap s)) Hok) as (_ & Hnd & Hval & _).
  { intros k e Hk. by apply (mi_wf _ _ _ Hm). }
  assert (∀ e, e ∈ values (entries (vmap s)) → emap (vmap s) !! e_start e = Some e) as Hin by (by intros e ?%Hval).
  split.
  - revert Hnd Hin. generalize (values (entries (vmap s))) as l. induction l as [|e l IH]; intros Hnd Hin; [done|].
    rewrite fmap_cons in Hnd. apply NoDup_cons in Hnd as [Hni Hnd]. split.
    + intros e' a He' Hi Hi'. destruct (inside_unique arch _ (e_start e) e (e_start e') e' a
        (map_disjoint arch _ _ Hm) (mi_wf _ _ _ Hm)) as [Heq _]; try done; [apply Hin; left|apply Hin; by right|].
      apply Hni. rewrite Heq. by apply list_elem_of_fmap_2.
    + apply IH; [done|]. intros x Hx. apply Hin. by right.
  - intros e He. pose proof (Hin e He) as Hk. split; [by eapply mi_wf|]. intros r Hr.
    rewrite (map_refs_split s R0 _ e Hk (mr_map r)). by apply radd_in.
Qed.

(** The child shows each inherited page of the parent, and nothing else. *)
Definition fork_views s s' (child : VmMap tree) : Prop :=
  (∀ a, view s' a = parent_page <$> view s a) ∧
  ∀ a, match view s a with
       | Some pv =>
           if decide (pv_inheritance pv = InheritNone) then view (mkSys child (world s')) a = None
           else ∃ pv', view (mkSys child (world s')) a = Some pv' ∧ child_page pv pv'
       | None => view (mkSys child (world s')) a = None
       end.

Lemma inherited_view s R0 t t' a :
  map_inv arch s R0 → world t = world s → (∀ a, view t a = None) →
  inherited t t' (values (entries (vmap s))) →
  match view s a with
  | Some pv => if decide (pv_inheritance pv = InheritNone) then view t' a = None
               else ∃ pv', view t' a = Some pv' ∧ child_page pv pv'
  | None => view t' a = None
  end.
Proof.
  intros Hm Hw Hnone [H1 H2]. destruct (values_keys (entries (vmap s)) (mi_index _ _ _ Hm)) as (_ & _ & Hval & _).
  { intros k e Hk. by apply (mi_wf _ _ _ Hm). }
  pose proof (entry_view arch s R0 a Hm) as Hev. destruct (entry_at a (vmap s)) as [[k e]|].
  - destruct Hev as (Hk & Hin & ->). simpl. pose proof (ew_start _ _ _ (mi_wf _ _ _ Hm _ _ Hk)) as Hst.
    assert (e ∈ values (entries (vmap s))) as He by (apply Hval; by rewrite Hst).
    case_decide as Hi; [|rewrite <- Hw; by apply H1]. rewrite H2, Hnone; [done|]. intros e' He' Hin'.
    apply Hval in He'. by destruct (inside_unique arch _ k e (e_start e') e' a (map_disjoint arch _ _ Hm) (mi_wf _ _ _ Hm)) as [_ <-].
  - rewrite Hev. rewrite H2, Hnone; [done|]. intros e' He'%Hval Hin'. erewrite view_Some in Hev; [|exact Hm|exact He'|done]. done.
Qed.

(** Building the child, and dropping it if that fails. *)
Lemma build_child_spec s R0 child cw o :
  map_inv arch s R0 → few_refs (Z.of_nat (length (values (entries (vmap s)))) + 1) (map_refs s R0) →
  empty_map child →
  wp (let* r := fork_entries (values (entries (vmap s))) cw in
      match r with
      | Ok _ => ret (Ok ())
      | Err error =>
          let* t := get in
          do drop_entries (values (entries (vmap t))) then
          ret (Err error)
      end) (λ (r : result Error ()) t' o', o' ⊆ o ∧ kept (map_refs s R0) (world s) (world t') ∧
        match r with
        | Ok _ => map_inv arch t' (map_refs s R0) ∧
            inherited (mkSys child (world s)) t' (values (entries (vmap s)))
        | Err _ => world_inv (world t') (map_refs s R0)
        end) (mkSys child (world s)) o.
Proof.
  intros Hm Hf Hem. destruct (values_separate s R0 Hm) as [Hsep Hval].
  assert (map_inv arch (mkSys child (world s)) (map_refs s R0)) as Hmc by (apply empty_inv; [done|apply Hm]).
  wp_step. eapply wp_mono; [eapply (fork_entries_spec cw _ _ (map_refs s R0)); try done|].
  - eapply few_req; [|exact Hf]. unfold map_refs. simpl. by rewrite (em_entries _ Hem).
  - intros [[]|x] t o1 (Ho1 & Hm1 & Hk1 & Hr1).
    + wp_step. split_and!; done.
    + do 3 wp_step. pose proof (mi_world _ _ _ Hm1) as Hw1. unfold emap in Hw1.
      rewrite <- refs_rlist in Hw1 by apply Hm1. eapply wp_mono; [by eapply drop_entries_spec|].
      intros [] t2 o2 (Ho2 & w2 & -> & Hw2 & Hk2). wp_step. split; [sub_oracle|]. split; [by etrans|done].
Qed.

Definition fork_post s R0 (r : result Error (VmMap tree)) s' : Prop :=
  kept R0 (world s) (world s') ∧
  match r with
  | Ok child => map_inv arch s' (rapp (refs_of (emap child)) R0) ∧
      map_inv arch (mkSys child (world s')) (map_refs s' R0) ∧ fork_views s s' child ∧
      timestamp child = timestamp (vmap s')
  | Err _ => map_inv arch s' R0 ∧ ∀ a, view s' a = view s a
  end.

(** [fork] *)
Lemma fork_spec s R0 cw o :
  map_inv arch s R0 → few_refs (Z.of_nat (length (values (entries (vmap s)))) + 1) (map_refs s R0) →
  wp (fork arch cw) (λ r s' o', o' ⊆ o ∧ fork_post s R0 r s') s o.
Proof.
  intros Hm Hf. unfold fork. wp_step. eapply wp_mono; [apply map_new_spec|].
  intros [child|x] s' o1 (-> & Ho1 & Hnew); cbv beta iota.
  2: { split; [done|]. split; [done|]. split; done. }
  do 3 wp_step. apply wp_run_on. eapply wp_mono; [by eapply build_child_spec|].
  intros r t o2 (Ho2 & Hk2 & Hr2). cbv beta iota. do 4 wp_step.
  assert (world_inv (world t) (map_refs s R0) → map_inv arch (with_world (world t) s) R0) as Hms.
  { intros Hw. by eapply map_inv_world. }
  destruct r as [[]|x]; cbv beta iota.
  - destruct Hr2 as [Hmt Hin]. pose proof (mi_world _ _ _ Hmt) as Hwt. set (Rc := refs_of (emap (vmap t))) in *.
    assert (map_inv arch (with_world (world t) s) (rapp Rc R0)) as Hms'.
    { eapply map_inv_world; [exact Hm|]. eapply world_inv_req; [|exact Hwt]. unfold map_refs.
      by rewrite rapp_assoc, (rapp_comm Rc), <- rapp_assoc. }
    eapply (wp_mark_all _ (rapp Rc R0)); [done|]. intros s3 Hm3 Hw3 Href3 Hv3. do 3 wp_step.
    split; [sub_oracle|]. split; [rewrite Hw3; by eapply kept_rapp_r|]. split; [done|].
    assert (map_inv arch (mkSys (mkMap (entries (vmap t)) (space (vmap t)) (size (vmap t)) (timestamp (vmap s3)))
      (world s3)) (map_refs s3 R0)) as Hmc.
    { rewrite Hw3. simpl. destruct Hmt. split; try done; [apply Hm3|]. eapply world_inv_req; [|exact mi_world].
      unfold emap, map_refs. simpl. by rewrite Href3. }
    split; [done|]. split; [|done]. split.
    + intros a. rewrite Hv3. f_equal. eapply view_world; [done|done|by eapply kept_rapp_l].
    + intros a. assert (view (mkSys (mkMap (entries (vmap t)) (space (vmap t)) (size (vmap t)) (timestamp (vmap s3)))
        (world s3)) a = view t a) as -> by (unfold view; rewrite Hw3; done).
      eapply (inherited_view s R0 (mkSys child (world s)) t); try done. intros b.
      eapply (view_None arch); [apply empty_inv; [done|apply Hm]|]. intros pv (k & e & Hk & _). simpl in Hk.
      by rewrite (em_entries _ Hnew) in Hk.
  - split; [sub_oracle|]. split; [by eapply kept_rapp_r|]. pose proof (Hms Hr2) as Hm'. split; [done|].
    intros a. eapply view_world; [done|done|by eapply kept_rapp_l].
Qed.
End fork.
