(* ===== verification/VmMapTheorems.v ===== *)
(** The properties of the address map: reachable states, and each operation
    against what the map shows at every address. *)
From S2P Require Import Prelude.
From S2P Require Import Index.
From S2P Require Import Tags.
From S2P Require Import Vmem.
From S2P Require Import VmemInv.
From S2P Require Import VmemFit.
From S2P Require Import VmemOps.
From S2P Require Import Amap.
From S2P Require Import AmapInv.
From S2P Require Import AmapSpec.
From S2P Require Import AmapHeap.
From S2P Require Import AmapHeapSpec.
From S2P Require Import VmMap.
From S2P Require Import VmMapInv.
From S2P Require Import VmMapOps.
From S2P Require Import VmMapUnmap.
From S2P Require Import VmMapMerge.
From S2P Require Import VmMapPlace.
From S2P Require Import VmMapFault.
From S2P Require Import VmMapFork.
Open Scope rust_scope.

Section theorems.
Context {tree : Type → Type} `{!RBTree tree, !RBTreeLaws tree}.
Variable arch : Arch.
Implicit Types (s : Sys tree) (R : refmap) (o : oracle).

(** ** Runs *)

(** The exclusive operations of a map; [unmap] with the drop of what it
    detached. *)
Inductive MapOp : Type :=
| OpMap (mp : VmMapping) (entropy : Z)
| OpUnmap (start length : Z)
| OpProtect (start length protection : Z)
| OpAdvise (start length : Z) (advice : VmAdvice)
| OpPrepareCopy (address : Z) (access : FaultAccess).

Definition map_op_u64 (op : MapOp) : Prop :=
  match op with
  | OpMap mp entropy => mapping_u64 mp ∧ is_u64 entropy
  | OpUnmap start length | OpProtect start length _ | OpAdvise start length _ => is_u64 start ∧ is_u64 length
  | OpPrepareCopy address _ => is_u64 address
  end.

Definition run_map_op (op : MapOp) : M (Sys tree) () :=
  match op with
  | OpMap mp entropy => do map arch mp entropy then ret ()
  | OpUnmap start length =>
      let* r := unmap arch start length in
      match r with Ok d => drop_detached d | Err _ => ret () end
  | OpProtect start length protection => do protect arch start length protection then ret ()
  | OpAdvise start length advice => do advise arch start length advice then ret ()
  | OpPrepareCopy address access => do prepare_copy address access then ret ()
  end.

Lemma run_map_op_spec op s R0 o :
  map_inv arch s R0 → few_refs 3 (map_refs s R0) → map_op_u64 op →
  wp (run_map_op op) (λ _ s' _, map_inv arch s' R0 ∧ kept R0 (world s) (world s')) s o.
Proof.
  intros Hm Hf Hop. destruct op as [mp entropy|start length|start length protection|start length advice|address access];
    simpl in *.
  - destruct Hop. wp_step. eapply wp_mono; [by eapply map_spec|]. intros [x|x] s' o' [_ Hp]; wp_step.
    + destruct Hp as (b & _ & _ & _ & _ & Hm' & Hk & _). done.
    + by destruct Hp as (Hm' & Hk & _).
  - destruct Hop. wp_step. eapply wp_mono; [by eapply unmap_spec|]. intros [d|x] s' o' (_ & Hk & Hp).
    + destruct Hp as (Hd & Hm' & _). eapply wp_mono; [by eapply drop_detached_spec|].
      intros [] s2 o2 (_ & Hm2 & _ & Hk2). split; [done|by etrans].
    + wp_step. by destruct Hp as (Hm' & _).
  - destruct Hop. wp_step. eapply wp_mono; [by eapply protect_spec|]. intros r s' o' (_ & Hm' & Hk & _). by wp_step.
  - destruct Hop. wp_step. eapply wp_mono; [by eapply advise_spec|]. intros r s' o' (_ & Hm' & Hk & _). by wp_step.
  - wp_step. eapply wp_mono; [by eapply prepare_copy_spec|]. intros r s' o' (_ & Hm' & Hk & _). by wp_step.
Qed.

(** The states a new map reaches, as long as no amap has close to [i32::MAX]
    references. *)
Inductive reachable : Sys tree → Prop :=
| reach_new m w o o' : map_new arch () o = Some (Ok m, (), o') → amaps w = ∅ → reachable (mkSys m w)
| reach_step s s' op o o' :
    reachable s → few_refs 3 (map_refs s (λ _, [])) → map_op_u64 op →
    run_map_op op s o = Some ((), s', o') → reachable s'.

Lemma empty_world w : amaps w = ∅ → world_inv w (λ _, []).
Proof.
  intros Hw. split.
  - intros id am. by rewrite Hw, lookup_empty.
  - done.
  - intros id. rewrite Hw, lookup_empty. by intros [].
Qed.

Lemma reachable_map_inv s : reachable s → map_inv arch s (λ _, []).
Proof.
  induction 1 as [m w o o' Hrun Hw|s s' op o o' _ IH Hf Hop Hrun].
  - pose proof (map_new_spec arch () o) as Hn. unfold wp in Hn. rewrite Hrun in Hn. destruct Hn as (_ & _ & Hem).
    apply empty_inv; [done|by apply empty_world].
  - pose proof (run_map_op_spec op s (λ _, []) o IH Hf Hop) as Hs. unfold wp in Hs. rewrite Hrun in Hs. apply Hs.
Qed.


(** the arena of a map has free exactly the unmapped addresses of user
    space, and [VmMap::size] is what it has allocated. *)
Theorem arena_tracks_mappings s R0 :
  map_inv arch s R0 →
  (∀ a, address_free (space (vmap s)) a ↔
        USER_ADDRESS_MIN ≤ a < USER_ADDRESS_MAX arch ∧ view s a = None) ∧
  size (vmap s) = used (space (vmap s)) ∧ size (vmap s) < two64.
Proof.
  intros Hm. split; [intros a; by eapply free_unmapped|]. split; [by eapply map_size_used|].
  by apply (map_size_bound arch s R0).
Qed.

(** C3: [map] installs the mapping in a range that was free, as the placement
    asks, changes no other address, merges with its neighbours without any
    visible effect, and leaves the map as it was when it fails. *)
Theorem map_correct s R0 mp entropy o :
  map_inv arch s R0 → mapping_u64 mp → is_u64 entropy →
  wp (map arch mp entropy) (λ r s' _, map_post arch s R0 mp o r s') s o.
Proof. intros Hm Hmp He. eapply wp_mono; [by eapply map_spec|]. by intros r s' o' [_ H]. Qed.

Definition unmap_post s R0 (start length : Z) o (r : result Error (Index tree VmMapEntry)) s' : Prop :=
  match r with
  | Ok d => map_inv arch s' (rapp (refs_of (index_map d)) R0) ∧
      (∃ a, in_range start length a ∧ is_Some (view s a)) ∧
      (∀ a, view s' a = if decide (in_range start length a) then None else view s a) ∧
      ∀ a pv, shows (world s') (index_map d) a pv ↔ in_range start length a ∧ view s a = Some pv
  | Err x => map_inv arch s' R0 ∧ (∀ a, view s' a = view s a) ∧
      ((x = InvalidAddress ∧ ¬ (0 < length ∧ user_range arch start (start + page_round length))) ∨
       (x = NotMapped ∧ ∀ a, in_range start length a → view s a = None) ∨
       (x = OutOfMemory ∧ false ∈ o))
  end.

(** C4: [unmap] removes exactly the pages of the range, splitting entries at
    its ends; the detached entries keep showing the removed pages until they
    are dropped, and a failure changes nothing visible. *)
Theorem unmap_correct s R0 start length o :
  map_inv arch s R0 → few_refs 3 (map_refs s R0) → is_u64 start → is_u64 length →
  wp (unmap arch start length) (λ r s' _, kept R0 (world s) (world s') ∧ unmap_post s R0 start length o r s') s o.
Proof.
  intros Hm Hf Hs Hl. eapply wp_mono; [by eapply unmap_spec|]. intros [d|x] s' o' (_ & Hk & Hp); (split; [done|]).
  - destruct Hp as (_ & ? & _ & _ & ? & ? & ?). done.
  - done.
Qed.

(** dropping the detached entries after the hardware teardown releases
    their references and nothing that the map, or another holder, still shows. *)
Theorem drop_detached_correct s R0 d o :
  map_inv arch s (rapp (refs_of (index_map d)) R0) → index_ok d →
  wp (drop_detached d) (λ _ s' _, map_inv arch s' R0 ∧ (∀ a, view s' a = view s a) ∧
     kept R0 (world s) (world s')) s o.
Proof. intros Hm Hd. eapply wp_mono; [by eapply drop_detached_spec|]. by intros [] s' o' (_ & ?). Qed.

Definition protect_post s (start length protection : Z) o (r : result Error ()) s' : Prop :=
  match r with
  | Ok _ => (∀ a, in_range start length a →
        ∃ pv, view s a = Some pv ∧ prot_contains (pv_maximum pv) protection = true) ∧
      ∀ a, view s' a = if decide (in_range start length a) then pv_set_protection protection <$> view s a else view s a
  | Err x => (∀ a, view s' a = view s a) ∧
      (range_error arch s start length o x ∨ x = Protection ∧ ∃ a, in_range start length a ∧
         ∃ pv, view s a = Some pv ∧ prot_contains (pv_maximum pv) protection = false)
  end.

(** C6: [protect] sets the protection of every page of a fully mapped range,
    never beyond a page's maximum, and of no other page; it fails without any
    visible change, and only for a bad range, a hole, a maximum that forbids
    the protection, or lack of memory. *)
Theorem protect_correct s R0 start length protection o :
  map_inv arch s R0 → few_refs 3 (map_refs s R0) → is_u64 start → is_u64 length →
  wp (protect arch start length protection)
     (λ r s' _, map_inv arch s' R0 ∧ protect_post s start length protection o r s') s o.
Proof.
  intros Hm Hf Hs Hl. eapply wp_mono; [by eapply protect_spec|]. intros [[]|x] s' o' (_ & Hm' & _ & Hp); (split; [done|]).
  - by destruct Hp as (_ & _ & ? & ?).
  - done.
Qed.

(** splitting the entry that crosses a page boundary is invisible, and no
    entry crosses it afterwards. *)
Theorem clip_at_correct s R0 b o :
  map_inv arch s R0 → few_refs 2 (map_refs s R0) → is_u64 b → b mod PAGE_SIZE = 0 →
  wp (clip_at b) (λ r s' _, map_inv arch s' R0 ∧ (∀ a, view s' a = view s a) ∧
     match r with
     | Ok _ => uncrossed b (emap (vmap s'))
     | Err e => e = OutOfMemory ∧ false ∈ o ∧ s' = s
     end) s o.
Proof.
  intros Hm Hf Hb Hbm. eapply wp_mono; [eapply (clip_at_spec arch s R0 2); try done; lia|].
  intros [[]|e] s' o' (_ & [] & Hr); (split; [done|]); (split; [done|]); [by destruct Hr|done].
Qed.

(** C5: [prepare_copy] gives the faulting mapping an amap that nobody else
    references, with the same pages, and clears its copy-on-write flag;
    nothing else changes, and a failure changes nothing visible. *)
Theorem prepare_copy_correct s R0 address access o :
  map_inv arch s R0 → few_refs 3 (map_refs s R0) →
  wp (prepare_copy address access) (λ r s' _, map_inv arch s' R0 ∧ kept R0 (world s) (world s') ∧
     match r with
     | Ok _ => (s' = s ∧ ∃ pv, view s address = Some pv ∧ pv_needs_copy pv = false) ∨ detached_at s s' R0 address
     | Err _ => ∀ a, view s' a = view s a
     end) s o.
Proof. intros Hm Hf. eapply wp_mono; [by eapply prepare_copy_spec|]. by intros r s' o' (_ & ?). Qed.

(** a fault window holds at most sixteen pages, all of the faulting
    entry, and names the faulting page. *)
Theorem fault_window_bounds k e address access :
  entry_wf arch k e → inside_entry e address → address mod PAGE_SIZE = 0 →
  let w := fault_window e address access in
  0 ≤ fw_center w < fw_count w ∧ fw_count w ≤ 16 ∧ fw_start w mod PAGE_SIZE = 0 ∧
  e_start e ≤ fw_start w ∧ fw_start w + fw_count w * PAGE_SIZE ≤ e_end e ∧
  fw_start w + fw_center w * PAGE_SIZE = address.
Proof. apply fault_window_spec. Qed.


End theorems.

(** ** A concrete address space, and the theorems at work on it *)

Section after.
Context {tree : Type → Type} `{!RBTree tree, !RBTreeLaws tree}.
Variable arch : Arch.
Implicit Types (s : Sys tree).

Definition after (op : MapOp) s : Sys tree :=
  match run_map_op arch op s [] with Some (_, s', _) => s' | None => s end.

Lemma refs_of_length E id : (length (refs_of E id) ≤ base.size E)%nat.
Proof.
  unfold refs_of. rewrite <- length_map_to_list. generalize (map_to_list E) as l. induction l as [|p l IH]; [done|].
  csimpl. destruct (ref_to id p.2); csimpl; simpl in *; lia.
Qed.
Lemma few_small s n : Z.of_nat (base.size (emap (vmap s))) + n < 2147483647 → few_refs n (map_refs s (λ _, [])).
Proof.
  intros Hs id. unfold map_refs, rapp. rewrite length_app. pose proof (refs_of_length (emap (vmap s)) id). simpl. lia.
Qed.

Lemma reachable_after op s :
  reachable arch s → Z.of_nat (base.size (emap (vmap s))) + 3 < 2147483647 → map_op_u64 op → reachable arch (after op s).
Proof.
  intros Hr Hs Hop. unfold after. destruct (run_map_op arch op s []) as [[[[] s'] o']|] eqn:E; [|done].
  eapply reach_step; [done|by apply few_small|done|done].
Qed.
(** What [unmap] detached, and the state it left. *)
Definition detach_of start length s : Index tree VmMapEntry * Sys tree :=
  match unmap arch start length s [] with
  | Some (Ok d, s', _) => (d, s')
  | _ => (index_new, s)
  end.

Lemma detach_of_inv s R0 start length :
  map_inv arch s R0 → few_refs 3 (map_refs s R0) → is_u64 start → is_u64 length →
  match unmap arch start length s [] with Some (Ok _, _, _) => True | _ => False end →
  map_inv arch (detach_of start length s).2 (rapp (refs_of (index_map (detach_of start length s).1)) R0) ∧
  index_ok (detach_of start length s).1.
Proof.
  intros Hm Hf Ha Hl Hok. pose proof (unmap_spec arch s R0 start length [] Hm Hf Ha Hl) as Hu.
  unfold wp in Hu. unfold detach_of. destruct (unmap arch start length s []) as [[[[d|x] s'] o']|]; [|done..].
  destruct Hu as (_ & _ & Hd & Hm' & _). split; [exact Hm'|exact Hd].
Qed.
End after.

Definition demo_fresh : VmMap assoc_tree :=
  match map_new X86_64 () [] with
  | Some (Ok m, _, _) => m
  | _ => mkMap index_new (mkVmem index_new [] 0 0 0 0) 0 1
  end.
Definition demo_start : Sys assoc_tree := mkSys demo_fresh (mkWorld ∅ ∅ ∅ 0).
Definition demo_mapping (start pages : Z) : VmMapping :=
  mkMapping (PlaceFixed start) (pages * 4096) (Z.lor READ WRITE) (Z.lor READ WRITE) InheritCopy BackAnonymous.
Definition demo1 : Sys assoc_tree := after X86_64 (OpMap (demo_mapping 65536 3) 0) demo_start.
Definition demo2 : Sys assoc_tree := after X86_64 (OpPrepareCopy 69632 FaultWrite) demo1.
Definition demo3 : Sys assoc_tree := after X86_64 (OpProtect 69632 4096 READ) demo2.

Lemma demo_start_reachable : reachable X86_64 demo_start.
Proof.
  unfold demo_start, demo_fresh. destruct (map_new (tree := assoc_tree) X86_64 () []) as [[[[m|x] []] o]|] eqn:E.
  - eapply reach_new; [exact E|done].
  - by vm_compute in E.
  - by vm_compute in E.
Qed.

Lemma demo_mapping_u64 start pages :
  is_u64 start → is_u64 (pages * 4096) → mapping_u64 (demo_mapping start pages).
Proof. by split. Qed.

Ltac small := vm_compute; reflexivity.
Ltac word := unfold is_u64; lia.

Lemma demo1_reachable : reachable X86_64 demo1.
Proof.
  apply reachable_after; [apply demo_start_reachable|small|]. split; [apply demo_mapping_u64|]; word.
Qed.
Lemma demo2_reachable : reachable X86_64 demo2.
Proof. apply reachable_after; [apply demo1_reachable|small|]. simpl. word. Qed.
Lemma demo3_reachable : reachable X86_64 demo3.
Proof. apply reachable_after; [apply demo2_reachable|small|]. simpl. split; word. Qed.

Abbreviation no_refs := (λ _ : nat, @nil (nat * nat)).


Lemma arena_tracks_mappings_witness :
  size (vmap demo3) = 12288 ∧
  (∀ a, address_free (space (vmap demo3)) a ↔
        USER_ADDRESS_MIN ≤ a < USER_ADDRESS_MAX X86_64 ∧ view demo3 a = None) ∧
  size (vmap demo3) = used (space (vmap demo3)) ∧ size (vmap demo3) < two64.
Proof.
  split; [small|]. apply (arena_tracks_mappings X86_64 demo3 no_refs), reachable_map_inv, demo3_reachable.
Defined.

(** A mapping after the three pages merges with the third. *)
Lemma map_correct_witness :
  wp (map X86_64 (demo_mapping 77824 1) 0) (λ r s' _, map_post X86_64 demo1 no_refs (demo_mapping 77824 1) [] r s') demo1 [] ∧
  base.size (emap (vmap (after X86_64 (OpMap (demo_mapping 77824 1) 0) demo1))) = 1%nat.
Proof.
  split; [|small]. apply (map_correct X86_64 demo1 no_refs (demo_mapping 77824 1) 0 []).
  - apply reachable_map_inv, demo1_reachable.
  - apply demo_mapping_u64; word.
  - word.
Defined.

Lemma unmap_correct_witness :
  wp (unmap X86_64 69632 4096)
     (λ r s' _, kept no_refs (world demo2) (world s') ∧ unmap_post X86_64 demo2 no_refs 69632 4096 [] r s') demo2 [] ∧
  base.size (emap (vmap (after X86_64 (OpUnmap 69632 4096) demo2))) = 2%nat.
Proof.
  split; [|small]. apply (unmap_correct X86_64 demo2 no_refs 69632 4096 []); [|apply few_small; small|word|word].
  apply reachable_map_inv, demo2_reachable.
Defined.

(** The middle page, detached. *)
Definition demo_detached : Index assoc_tree VmMapEntry * Sys assoc_tree := detach_of X86_64 69632 4096 demo2.

Lemma demo_detached_inv :
  map_inv X86_64 demo_detached.2 (rapp (refs_of (index_map demo_detached.1)) no_refs) ∧ index_ok demo_detached.1.
Proof.
  apply (detach_of_inv X86_64 demo2 no_refs 69632 4096); [|apply few_small; small|word|word|vm_compute; exact I].
  apply reachable_map_inv, demo2_reachable.
Qed.

Lemma drop_detached_correct_witness :
  base.size (index_map demo_detached.1) = 1%nat ∧
  wp (drop_detached demo_detached.1) (λ _ s' _, map_inv X86_64 s' no_refs ∧
     (∀ a, view s' a = view demo_detached.2 a) ∧ kept no_refs (world demo_detached.2) (world s')) demo_detached.2 [].
Proof.
  split; [small|]. apply (drop_detached_correct X86_64 demo_detached.2 no_refs demo_detached.1 []); apply demo_detached_inv.
Defined.

Lemma protect_correct_witness :
  wp (protect X86_64 69632 4096 READ)
     (λ r s' _, map_inv X86_64 s' no_refs ∧ protect_post X86_64 demo2 69632 4096 READ [] r s') demo2 [] ∧
  pv_protection <$> view demo3 69632 = Some READ ∧ pv_protection <$> view demo3 65536 = Some (Z.lor READ WRITE).
Proof.
  split; [|split; small]. apply (protect_correct X86_64 demo2 no_refs 69632 4096 READ []); [|apply few_small; small|word|word].
  apply reachable_map_inv, demo2_reachable.
Defined.

Lemma clip_at_correct_witness :
  wp (clip_at 73728) (λ r s' _, map_inv X86_64 s' no_refs ∧ (∀ a, view s' a = view demo2 a) ∧
     match r with
     | Ok _ => uncrossed 73728 (emap (vmap s'))
     | Err e => e = OutOfMemory ∧ false ∈ @nil bool ∧ s' = demo2
     end) demo2 [].
Proof.
  apply (clip_at_correct X86_64 demo2 no_refs 73728 []); [|apply few_small; small|word|small].
  apply reachable_map_inv, demo2_reachable.
Defined.

Lemma prepare_copy_correct_witness :
  pv_needs_copy <$> view demo1 69632 = Some true ∧ pv_needs_copy <$> view demo2 69632 = Some false ∧
  wp (prepare_copy 69632 FaultWrite) (λ r s' _, map_inv X86_64 s' no_refs ∧ kept no_refs (world demo1) (world s') ∧
     match r with
     | Ok _ => (s' = demo1 ∧ ∃ pv, view demo1 69632 = Some pv ∧ pv_needs_copy pv = false) ∨
               detached_at demo1 s' no_refs 69632
     | Err _ => ∀ a, view s' a = view demo1 a
     end) demo1 [].
Proof.
  split; [small|]. split; [small|].
  apply (prepare_copy_correct X86_64 demo1 no_refs 69632 FaultWrite []); [|apply few_small; small].
  apply reachable_map_inv, demo1_reachable.
Defined.

(** A fault on the first page of a three-page entry. *)
Definition demo_entry : VmMapEntry :=
  mkEntry 65536 77824 None 0 None READ READ InheritCopy AdviceNormal true true 0.
Lemma fault_window_bounds_witness :
  let w := fault_window demo_entry 65536 FaultRead in
  w = mkWindow 65536 3 0 false ∧
  0 ≤ fw_center w < fw_count w ∧ fw_count w ≤ 16 ∧ fw_start w mod PAGE_SIZE = 0 ∧
  e_start demo_entry ≤ fw_start w ∧ fw_start w + fw_count w * PAGE_SIZE ≤ e_end demo_entry ∧
  fw_start w + fw_center w * PAGE_SIZE = 65536.
Proof.
  split; [small|]. apply (fault_window_bounds X86_64 65536 demo_entry 65536 FaultRead).
  - split; done.
  - done.
  - done.
Defined.


