(* ===== verification/MemIo.v ===== *)
(** Transfers between kernel and user memory ([mem/io.rs]).

    User memory is the class [UserSpace]: what [pin_user_page] of
    [mem/pmap.rs] and the direct-map alias it returns promise to the transfers.
    Kernel buffers are ranges of the array [kernel] of the state. *)
From S2P Require Import Prelude.
From S2P Require Import Bytes.
From S2P Require Import Index.
From S2P Require Import VmMap.
Open Scope rust_scope.

(** [pin_user_page] faults one page in for an access, and may fail; the bytes
    of a pinned page are then read and written in place. *)
Class UserSpace (S : Type) : Type := {
  pin_user_page : FaultAccess → Z → S → result Error () * S;
  user_byte : S → Z → Z;
  user_write : Z → list Z → S → S;
}.
Class UserSpaceLaws (S : Type) `{!UserSpace S} : Prop := {
  pin_keeps access a s v : user_byte (pin_user_page access a s).2 v = user_byte s v;
  write_inside a bs s i x : bs !! i = Some x → user_byte (user_write a bs s) (a + Z.of_nat i) = x;
  write_outside a bs s v :
    (∀ i, (i < length bs)%nat → v ≠ a + Z.of_nat i) → user_byte (user_write a bs s) v = user_byte s v;
}.

Section io.
Context {S : Type} `{!UserSpace S}.

Record Io : Type := mkIo { kernel : list Z; space : S }.

(** [IoSink] and [IoSource]: a kernel slice or a validated user range. *)
Inductive Buffer : Type :=
| BKernel (base length : nat)
| BUser (address : Z) (length : nat).
Definition buffer_len (b : Buffer) : nat :=
  match b with BKernel _ n => n | BUser _ n => n end.
Definition buffer_is_empty (b : Buffer) : bool := (buffer_len b =? 0)%nat.

(** A pinned or borrowed window: where it starts, and its length. *)
Inductive Window : Type :=
| WKernel (start length : nat)
| WUser (current : Z) (length : nat).
Definition window_len (w : Window) : nat :=
  match w with WKernel _ n => n | WUser _ n => n end.
Definition window_is_empty (w : Window) : bool := (window_len w =? 0)%nat.

(** [validate_user_range] of [mem/pmap.rs] *)
Definition validate_user_range (arch : Arch) (address : Z) (length : nat) : result Error () :=
  if (length =? 0)%nat then Ok ()
  else
    let? end_ := ok_or (checked_add address (Z.of_nat length)) InvalidAddress in
    if (address <? USER_ADDRESS_MIN) || (USER_ADDRESS_MAX arch <? end_) || (end_ <=? address)
    then Err InvalidAddress
    else Ok ().
(** [UserRange::new] *)
Definition user_range_new (arch : Arch) (address : Z) (length : nat) : result Error Buffer :=
  let? _ := validate_user_range arch address length in
  Ok (BUser address length).

Definition checked_subrange (total offset length : nat) : result Error (nat * nat) :=
  let? end_ := ok_or (checked_add (Z.of_nat offset) (Z.of_nat length)) InvalidAddress in
  if end_ <=? Z.of_nat total then Ok (offset, Z.to_nat end_) else Err InvalidAddress.

Definition window_length (total offset maximum : nat) : result Error nat :=
  let? available := ok_or (checked_sub (Z.of_nat total) (Z.of_nat offset)) InvalidAddress in
  Ok (Nat.min maximum (Z.to_nat available)).

(** [IoSink::slice], [IoSource::slice] and [UserRange::slice] *)
Definition buffer_slice (b : Buffer) (offset length : nat) : result Error Buffer :=
  match b with
  | BKernel base total =>
      let? _ := checked_subrange total offset length in
      Ok (BKernel (base + offset) length)
  | BUser address total =>
      let? _ := checked_subrange total offset length in
      let? address := ok_or (checked_add address (Z.of_nat offset)) InvalidAddress in
      Ok (BUser address length)
  end.

(** [PinnedWindow::resolve]: one page is faulted in, and the window stops at
    its end. *)
Definition resolve (address : Z) (offset maximum : nat) (access : FaultAccess) : M Io (result Error Window) :=
  let! current := ret (ok_or (checked_add address (Z.of_nat offset)) InvalidAddress) in
  let remaining := Z.to_nat (PAGE_SIZE - current mod PAGE_SIZE) in
  let* io := get in
  let '(pinned, space') := pin_user_page access current (space io) in
  do modify (λ io, mkIo (kernel io) space') then
  let! _ := ret pinned in
  ret (Ok (WUser current (Nat.min maximum remaining))).

(** [IoSink::window] with [FaultAccess::Write], [IoSource::window] with
    [FaultAccess::Read]. *)
Definition window (access : FaultAccess) (b : Buffer) (offset maximum : nat) : M Io (result Error Window) :=
  let! maximum := ret (window_length (buffer_len b) offset maximum) in
  if (maximum =? 0)%nat then ret (Ok (WKernel 0 0))
  else
    match b with
    | BKernel base _ => ret (Ok (WKernel (base + offset) maximum))
    | BUser address _ => resolve address offset maximum access
    end.

(** [SinkWindow::copy_from_slice] *)
Definition copy_from_slice (w : Window) (source : list Z) : M Io () :=
  do massert (length source <=? window_len w)%nat then
  modify (λ io, match w with
                | WKernel start _ => mkIo (copy_into (kernel io) start source) (space io)
                | WUser current _ => mkIo (kernel io) (user_write current source (space io))
                end).

(** [SinkWindow::fill] *)
Definition window_fill (w : Window) (value : Z) : M Io () :=
  modify (λ io, match w with
                | WKernel start n => mkIo (copy_into (kernel io) start (replicate n value)) (space io)
                | WUser current n => mkIo (kernel io) (user_write current (replicate n value) (space io))
                end).

(** The bytes of user memory from an address on. *)
Definition user_bytes (s : S) (a : Z) (n : nat) : list Z :=
  (λ i, user_byte s (a + Z.of_nat i)) <$> seq 0 n.

(** [SourceWindow::copy_to_slice]: the first [n] bytes of the window. *)
Definition copy_to_slice (w : Window) (n : nat) : M Io (list Z) :=
  do massert (n <=? window_len w)%nat then
  gets (λ io, match w with
              | WKernel start _ => take n (drop start (kernel io))
              | WUser current _ => user_bytes (space io) current n
              end).

(** [IoSink::store]; the fuel is the length of the source, of which each
    window takes at least a byte. *)
Fixpoint store_loop (fuel : nat) (b : Buffer) (offset : nat) (source : list Z) (written : nat) :
    M Io (result Error ()) :=
  if (written <? length source)%nat then
    match fuel with
    | O => panic
    | Datatypes.S fuel =>
        let! w := window FaultWrite b (offset + written) (length source - written) in
        if window_is_empty w then ret (Err InvalidAddress)
        else
          let count := window_len w in
          do copy_from_slice w (slice source written (written + count)) then
          store_loop fuel b offset source (written + count)
    end
  else ret (Ok ()).
Definition store (b : Buffer) (offset : nat) (source : list Z) : M Io (result Error ()) :=
  let! _ := ret (checked_subrange (buffer_len b) offset (length source)) in
  store_loop (length source) b offset source 0.

(** [IoSink::fill_zero] *)
Fixpoint fill_loop (fuel : nat) (b : Buffer) (offset length filled : nat) : M Io (result Error ()) :=
  if (filled <? length)%nat then
    match fuel with
    | O => panic
    | Datatypes.S fuel =>
        let! w := window FaultWrite b (offset + filled) (length - filled) in
        if window_is_empty w then ret (Err InvalidAddress)
        else
          do window_fill w 0 then
          fill_loop fuel b offset length (filled + window_len w)
    end
  else ret (Ok ()).
Definition fill_zero (b : Buffer) (offset length : nat) : M Io (result Error ()) :=
  let! _ := ret (checked_subrange (buffer_len b) offset length) in
  fill_loop length b offset length 0.

(** [IoSource::load]; the destination comes back with the result. *)
Fixpoint load_loop (fuel : nat) (b : Buffer) (offset : nat) (destination : list Z) (read : nat) :
    M Io (list Z * result Error ()) :=
  if (read <? length destination)%nat then
    match fuel with
    | O => panic
    | Datatypes.S fuel =>
        let* r := window FaultRead b (offset + read) (length destination - read) in
        match r with
        | Err e => ret (destination, Err e)
        | Ok w =>
            if window_is_empty w then ret (destination, Err InvalidAddress)
            else
              let count := window_len w in
              let* bytes := copy_to_slice w count in
              load_loop fuel b offset (copy_into destination read bytes) (read + count)
        end
    end
  else ret (destination, Ok ()).
Definition load (b : Buffer) (offset : nat) (destination : list Z) : M Io (list Z * result Error ()) :=
  match checked_subrange (buffer_len b) offset (length destination) with
  | Err e => ret (destination, Err e)
  | Ok _ => load_loop (length destination) b offset destination 0
  end.
End io.
Arguments Io : clear implicits.
