(* ===== verification/MemIoSpec.v ===== *)
(** Correctness of the transfers of [mem/io.rs]: every byte of the range is
    copied and no other is touched, page by page, for any user space. *)
From S2P Require Import Prelude.
From S2P Require Import Bytes.
From S2P Require Import Index.
From S2P Require Import VmMap.
From S2P Require Import MemIo.
Open Scope rust_scope.

(** ** Bytes of the machine, and the bytes of a buffer *)

Inductive Cell : Type :=
| KCell (i : nat)
| UCell (a : Z).
#[export] Instance Cell_eq_dec : EqDecision Cell.
Proof. solve_decision. Defined.

Definition cell (b : Buffer) (i : nat) : Cell :=
  match b with
  | BKernel base _ => KCell (base + i)
  | BUser address _ => UCell (address + Z.of_nat i)
  end.
Definition wcell (w : Window) (i : nat) : Cell :=
  match w with
  | WKernel start _ => KCell (start + i)
  | WUser current _ => UCell (current + Z.of_nat i)
  end.

Lemma cell_inj b i j : cell b i = cell b j → i = j.
Proof. destruct b; simpl; intros [= H]; lia. Qed.

Section spec.
Context {S : Type} `{!UserSpace S, !UserSpaceLaws S}.
Implicit Types (io : Io S) (b : Buffer) (w : Window).

Definition cell_byte io (c : Cell) : option Z :=
  match c with
  | KCell i => kernel io !! i
  | UCell a => Some (user_byte (space io) a)
  end.

(** A buffer inside the kernel array, or a user range that does not wrap. *)
Definition buffer_ok io b : Prop :=
  Z.of_nat (buffer_len b) < two64 ∧
  match b with
  | BKernel base n => (base + n ≤ length (kernel io))%nat
  | BUser a n => (0 ≤ a < two64) ∧ (n = 0%nat ∨ a + Z.of_nat n < two64)
  end.

Definition same_bytes io io' : Prop := ∀ c, cell_byte io' c = cell_byte io c.

(** [bytes] were stored at [offset] of [b], and nothing else changed. *)
Definition stored io io' b (offset : nat) (bytes : list Z) : Prop :=
  length (kernel io') = length (kernel io) ∧
  (∀ i x, bytes !! i = Some x → cell_byte io' (cell b (offset + i)) = Some x) ∧
  ∀ c, (∀ i, (i < length bytes)%nat → c ≠ cell b (offset + i)) → cell_byte io' c = cell_byte io c.

Lemma same_length io io' : same_bytes io io' → length (kernel io') = length (kernel io).
Proof.
  intros Hs. f_equal. apply list_eq. intros i. apply (Hs (KCell i)).
Qed.

Lemma stored_nil io io' b offset : same_bytes io io' → stored io io' b offset [].
Proof. intros Hs. split_and!; [by apply same_length|done|]. intros c _. apply Hs. Qed.

Lemma stored_app io io1 io2 b offset bs1 bs2 :
  stored io io1 b offset bs1 → stored io1 io2 b (offset + length bs1) bs2 → stored io io2 b offset (bs1 ++ bs2).
Proof.
  intros (L1 & I1 & O1) (L2 & I2 & O2). split_and!.
  - congruence.
  - intros i x. destruct (decide (i < length bs1)%nat).
    + rewrite lookup_app_l by done. intros Hx. rewrite O2; [by apply I1|].
      intros j _ Hc%cell_inj. lia.
    + rewrite lookup_app_r by lia. intros Hx. replace (offset + i)%nat with (offset + length bs1 + (i - length bs1))%nat by lia.
      by apply I2.
  - intros c Hc. rewrite length_app in Hc. rewrite O2, O1; [done| |].
    + intros i Hi. apply Hc. lia.
    + intros i Hi. rewrite <- Nat.add_assoc. apply Hc. lia.
Qed.

Lemma stored_same io io1 io2 b offset bs :
  stored io io1 b offset bs → same_bytes io1 io2 → stored io io2 b offset bs.
Proof. intros Hs H2. rewrite <- (app_nil_r bs). eapply stored_app; [done|by apply stored_nil]. Qed.

Lemma stored_buffer_ok io io' b b' offset bs : stored io io' b offset bs → buffer_ok io b' → buffer_ok io' b'.
Proof. intros (L & _) [? Hb]. split; [done|]. destruct b'; [lia|done]. Qed.

Lemma checked_subrange_spec total offset len :
  Z.of_nat total < two64 →
  checked_subrange total offset len =
    if decide (offset + len ≤ total)%nat then Ok (offset, (offset + len)%nat) else Err InvalidAddress.
Proof.
  intros Ht. unfold checked_subrange. case_decide as Hle.
  - assert (checked_add (Z.of_nat offset) (Z.of_nat len) = Some (Z.of_nat (offset + len))) as ->
      by (apply checked_add_Some; lia).
    simpl. rewrite (proj2 (Z.leb_le _ _)) by lia. by rewrite Nat2Z.id.
  - destruct (checked_add _ _) as [e|] eqn:E; [|done]. apply checked_add_Some in E as [-> _]. simpl.
    by rewrite (proj2 (Z.leb_gt _ _)) by lia.
Qed.

Lemma window_length_spec total offset maximum :
  window_length total offset maximum =
    if decide (offset ≤ total)%nat then Ok (Nat.min maximum (total - offset)) else Err InvalidAddress.
Proof.
  unfold window_length, checked_sub. destruct (decide (Z.of_nat offset ≤ Z.of_nat total)).
  - rewrite decide_True by lia. simpl. do 2 f_equal. lia.
  - by rewrite decide_False by lia.
Qed.

(** The window of a buffer at an offset: a prefix of the rest of the buffer. *)
Definition window_of b (offset maximum : nat) w : Prop :=
  (window_len w ≤ maximum)%nat ∧ (offset + window_len w ≤ buffer_len b)%nat ∧
  ((0 < maximum)%nat → (offset < buffer_len b)%nat → (0 < window_len w)%nat) ∧
  ∀ i, (i < window_len w)%nat → wcell w i = cell b (offset + i).

(** Why a window is refused: a page that cannot be faulted in. *)
Definition pin_error (access : FaultAccess) (e : Error) : Prop :=
  ∃ a s, (pin_user_page (S:=S) access a s).1 = Err e.

Lemma window_spec access io b offset maximum o :
  buffer_ok io b → (offset ≤ buffer_len b)%nat →
  wp (window access b offset maximum) (λ r io' o', o' = o ∧ same_bytes io io' ∧
     match r with
     | Ok w => window_of b offset maximum w
     | Err e => pin_error access e
     end) io o.
Proof.
  intros [Hlen Hok] Hoff. unfold window. do 2 wp_step. rewrite window_length_spec, decide_True by done.
  destruct (Nat.eqb_spec (Nat.min maximum (buffer_len b - offset)) 0) as [E|E].
  { wp_step. split_and!; [done|done|]. unfold window_of. simpl. split_and!; lia. }
  destruct b as [base n|a n]; simpl in *.
  { wp_step. split_and!; [done|done|]. unfold window_of. simpl. split_and!; try lia. intros i Hi. f_equal. lia. }
  unfold resolve. do 2 wp_step.
  assert (checked_add a (Z.of_nat offset) = Some (a + Z.of_nat offset)) as -> by (apply checked_add_Some; lia).
  cbn [ok_or]. do 2 wp_step. destruct (pin_user_page access (a + Z.of_nat offset) (space io)) as [r s'] eqn:Ep.
  assert (same_bytes io (mkIo (kernel io) s')) as Hs.
  { intros [i|v]; simpl; [done|]. pose proof (pin_keeps access (a + Z.of_nat offset) (space io) v) as Hp.
    rewrite Ep in Hp. simpl in Hp. by rewrite Hp. }
  do 4 wp_step. destruct r as [[]|e].
  - wp_step. split_and!; try done. pose proof (Z.mod_pos_bound (a + Z.of_nat offset) PAGE_SIZE).
    unfold PAGE_SIZE in *. unfold window_of. simpl. split_and!; try lia. intros i Hi. f_equal. lia.
  - split_and!; try done. exists (a + Z.of_nat offset), (space io). by rewrite Ep.
Qed.

(** Writing the whole of a window. *)
Lemma copy_from_slice_spec io b offset maximum w bytes o :
  buffer_ok io b → window_of b offset maximum w → length bytes = window_len w →
  wp (copy_from_slice w bytes) (λ _ io' o', o' = o ∧ stored io io' b offset bytes) io o.
Proof.
  intros [_ Hok] (Hm & Hb & _ & Hc) Hl. unfold copy_from_slice. wp_step. apply wp_massert; [by apply Nat.leb_le; lia|].
  wp_step. split; [done|]. unfold stored. rewrite Hl.
  destruct w as [start n|current n]; simpl in *.
  - destruct b as [base m|a m].
    2: { destruct n; [|specialize (Hc 0%nat ltac:(lia)); done]. destruct bytes; [|done]. unfold copy_into. simpl.
         rewrite Nat.add_0_r, take_drop. done. }
    destruct (decide (n = 0%nat)) as [->|Hn].
    { destruct bytes; [|done]. unfold copy_into. simpl. rewrite Nat.add_0_r, take_drop. done. }
    assert (start = base + offset)%nat as -> by (specialize (Hc 0%nat ltac:(lia)); injection Hc; lia).
    simpl in Hok, Hb. split_and!.
    + apply length_copy_into. lia.
    + intros i x Hx. simpl. unfold copy_into. pose proof (lookup_lt_Some _ _ _ Hx).
      rewrite lookup_app_r by (rewrite length_take; lia). rewrite length_take, lookup_app_l by lia.
      by replace (base + (offset + i) - _)%nat with i by lia.
    + intros [j|v] Hj; simpl; [|done]. unfold copy_into. destruct (decide (j < base + offset)%nat).
      * rewrite lookup_app_l by (rewrite length_take; lia). by apply lookup_take_lt.
      * assert (base + offset + n ≤ j)%nat.
        { destruct (decide (base + offset + n ≤ j)%nat); [done|]. exfalso. apply (Hj (j - base - offset)%nat); [lia|].
          simpl. f_equal. lia. }
        rewrite lookup_app_r, lookup_app_r by (rewrite length_take; lia). rewrite lookup_drop. f_equal.
        rewrite length_take. lia.
  - split_and!; [done| |].
    + intros i x Hx. pose proof (lookup_lt_Some _ _ _ Hx). rewrite <- Hc by lia. simpl. f_equal. by apply write_inside.
    + intros [j|v] Hj; simpl; [done|]. f_equal. apply write_outside. intros i Hi. rewrite Hl in Hi. specialize (Hj i Hi).
      rewrite <- Hc in Hj by done. simpl in Hj. congruence.
Qed.

(** The bytes of a window. *)
Lemma copy_to_slice_spec io b offset maximum w o :
  buffer_ok io b → window_of b offset maximum w →
  wp (copy_to_slice w (window_len w)) (λ bytes io' o', o' = o ∧ io' = io ∧ length bytes = window_len w ∧
     ∀ i x, bytes !! i = Some x → cell_byte io (cell b (offset + i)) = Some x) io o.
Proof.
  intros [_ Hok] (Hm & Hb & _ & Hc). unfold copy_to_slice. wp_step. apply wp_massert; [by apply Nat.leb_le|].
  wp_step. split_and!; [done|done| |].
  - destruct w as [start n|current n]; simpl in *; [|unfold user_bytes; by rewrite length_fmap, length_seq].
    rewrite length_take, length_drop. destruct (decide (n = 0%nat)) as [->|Hn]; [done|].
    pose proof (Hc 0%nat ltac:(lia)) as H0. destruct b as [base m|]; [|done]. injection H0. simpl in *. lia.
  - intros i x Hx. pose proof (lookup_lt_Some _ _ _ Hx) as Hi. destruct w as [start n|current n]; simpl in *.
    + rewrite length_take, length_drop in Hi. rewrite <- Hc by lia. simpl.
      rewrite lookup_take_lt, lookup_drop in Hx by lia. done.
    + unfold user_bytes in *. rewrite length_fmap, length_seq in Hi. rewrite <- Hc by lia. simpl.
      rewrite list_lookup_fmap, lookup_seq_lt in Hx by lia. simpl in Hx. done.
Qed.

Lemma window_fill_spec io b offset maximum w o :
  buffer_ok io b → window_of b offset maximum w →
  wp (window_fill w 0) (λ _ io' o', o' = o ∧ stored io io' b offset (replicate (window_len w) 0)) io o.
Proof.
  intros Hok Hw. pose proof (copy_from_slice_spec io b offset maximum w (replicate (window_len w) 0) o Hok Hw) as Hc.
  rewrite length_replicate in Hc. specialize (Hc eq_refl). unfold copy_from_slice in Hc. apply wp_bind_inv in Hc.
  rewrite length_replicate, Nat.leb_refl in Hc. unfold window_fill. destruct w; exact Hc.
Qed.

(** ** The loops *)

Lemma store_loop_spec fuel b offset source : ∀ written io0 io o,
  (length source - written ≤ fuel)%nat → (written ≤ length source)%nat → (offset + length source ≤ buffer_len b)%nat →
  buffer_ok io b → stored io0 io b offset (take written source) →
  wp (store_loop fuel b offset source written) (λ r io' o', o' = o ∧
     match r with
     | Ok _ => stored io0 io' b offset source
     | Err e => pin_error FaultWrite e ∧ ∃ n, (n < length source)%nat ∧ stored io0 io' b offset (take n source)
     end) io o.
Proof.
  induction fuel as [|fuel IH]; intros written io0 io o Hf Hw Hb Hok Hs; simpl;
    (destruct (Nat.ltb_spec written (length source)); [|wp_step; split; [done|by rewrite take_ge in Hs by lia]]); [lia|].
  wp_step. eapply wp_mono; [apply window_spec; [done|lia]|].
  intros [w|e] io1 o1 (-> & Hs1 & Hr); cbv beta iota; [|split; [done|]; split; [done|]; exists written; split; [lia|by eapply stored_same]].
  pose proof Hr as (Hm & Hlb & Hpos & _). specialize (Hpos ltac:(lia) ltac:(lia)). unfold window_is_empty.
  rewrite (proj2 (Nat.eqb_neq _ _)) by lia. wp_step.
  assert (buffer_ok io1 b) as Hok1 by (eapply stored_buffer_ok; [by eapply (stored_nil io io1 b 0)|done]).
  eapply wp_mono; [eapply copy_from_slice_spec; [done|done|rewrite length_slice; lia]|].
  intros [] io2 o2 [-> Hs2]. cbv beta. apply IH; [lia|lia|lia|by eapply stored_buffer_ok|].
  assert (take (written + window_len w) source = take written source ++ slice source written (written + window_len w)) as ->.
  { unfold slice. rewrite Nat.add_comm, Nat.add_sub, Nat.add_comm. rewrite <- (take_drop written (take _ source)).
    f_equal; [rewrite take_take; f_equal; lia|]. rewrite <- take_drop_commute. do 2 f_equal. }
  eapply stored_app; [by eapply stored_same|]. by rewrite length_take_le by lia.
Qed.

Lemma store_spec io b offset source o :
  buffer_ok io b →
  wp (store b offset source) (λ r io' o', o' = o ∧
     match r with
     | Ok _ => (offset + length source ≤ buffer_len b)%nat ∧ stored io io' b offset source
     | Err e => (e = InvalidAddress ∧ (buffer_len b < offset + length source)%nat ∧ io' = io) ∨
         ((offset + length source ≤ buffer_len b)%nat ∧ pin_error FaultWrite e ∧
          ∃ n, (n < length source)%nat ∧ stored io io' b offset (take n source))
     end) io o.
Proof.
  intros Hok. unfold store. do 2 wp_step. rewrite checked_subrange_spec by apply Hok. case_decide; [|split; [done|left; split_and!; [done|lia|done]]].
  eapply wp_mono; [apply (store_loop_spec (length source) b offset source 0 io io o); [lia|lia|done|done|]|].
  - rewrite take_0. by apply stored_nil.
  - intros [[]|e] io' o' [-> Hr]; (split; [done|]); [done|by right].
Qed.

Lemma fill_loop_spec fuel b offset n : ∀ filled io0 io o,
  (n - filled ≤ fuel)%nat → (filled ≤ n)%nat → (offset + n ≤ buffer_len b)%nat →
  buffer_ok io b → stored io0 io b offset (replicate filled 0) →
  wp (fill_loop fuel b offset n filled) (λ r io' o', o' = o ∧
     match r with
     | Ok _ => stored io0 io' b offset (replicate n 0)
     | Err e => pin_error FaultWrite e ∧ ∃ m, (m < n)%nat ∧ stored io0 io' b offset (replicate m 0)
     end) io o.
Proof.
  induction fuel as [|fuel IH]; intros filled io0 io o Hf Hw Hb Hok Hs; simpl;
    (destruct (Nat.ltb_spec filled n); [|wp_step; split; [done|by replace n with filled by lia]]); [lia|].
  wp_step. eapply wp_mono; [apply window_spec; [done|lia]|].
  intros [w|e] io1 o1 (-> & Hs1 & Hr); cbv beta iota; [|split; [done|]; split; [done|]; exists filled; split; [lia|by eapply stored_same]].
  pose proof Hr as (Hm & Hlb & Hpos & _). specialize (Hpos ltac:(lia) ltac:(lia)). unfold window_is_empty.
  rewrite (proj2 (Nat.eqb_neq _ _)) by lia. wp_step.
  assert (buffer_ok io1 b) as Hok1 by (eapply stored_buffer_ok; [by eapply (stored_nil io io1 b 0)|done]).
  eapply wp_mono; [by eapply window_fill_spec|].
  intros [] io2 o2 [-> Hs2]. cbv beta. apply IH; [lia|lia|lia|by eapply stored_buffer_ok|].
  rewrite replicate_add. eapply stored_app; [by eapply stored_same|]. by rewrite length_replicate.
Qed.

Lemma fill_zero_spec io b offset n o :
  buffer_ok io b →
  wp (fill_zero b offset n) (λ r io' o', o' = o ∧
     match r with
     | Ok _ => (offset + n ≤ buffer_len b)%nat ∧ stored io io' b offset (replicate n 0)
     | Err e => (e = InvalidAddress ∧ (buffer_len b < offset + n)%nat ∧ io' = io) ∨
         ((offset + n ≤ buffer_len b)%nat ∧ pin_error FaultWrite e ∧
          ∃ m, (m < n)%nat ∧ stored io io' b offset (replicate m 0))
     end) io o.
Proof.
  intros Hok. unfold fill_zero. do 2 wp_step. rewrite checked_subrange_spec by apply Hok. case_decide; [|split; [done|left; split_and!; [done|lia|done]]].
  eapply wp_mono; [apply (fill_loop_spec n b offset n 0 io io o); [lia|lia|done|done|]|].
  - by apply stored_nil.
  - intros [[]|e] io' o' [-> Hr]; (split; [done|]); [done|by right].
Qed.

(** [bytes] are the bytes of [b] from [offset] on. *)
Definition holds io b (offset : nat) (bytes : list Z) : Prop :=
  ∀ i x, bytes !! i = Some x → cell_byte io (cell b (offset + i)) = Some x.

Lemma load_loop_spec fuel b offset : ∀ destination read io0 io o,
  (length destination - read ≤ fuel)%nat → (read ≤ length destination)%nat →
  (offset + length destination ≤ buffer_len b)%nat →
  buffer_ok io b → same_bytes io0 io → holds io0 b offset (take read destination) →
  wp (load_loop fuel b offset destination read) (λ r io' o', o' = o ∧ same_bytes io0 io' ∧
     length r.1 = length destination ∧
     match r.2 with
     | Ok _ => holds io0 b offset r.1
     | Err e => pin_error FaultRead e ∧
         ∃ n, (read ≤ n < length destination)%nat ∧ holds io0 b offset (take n r.1) ∧ drop n r.1 = drop n destination
     end) io o.
Proof.
  induction fuel as [|fuel IH]; intros dest read io0 io o Hf Hw Hb Hok Hs Hh; simpl;
    (destruct (Nat.ltb_spec read (length dest)); [|wp_step; simpl; rewrite take_ge in Hh by lia; done]); [lia|].
  wp_step. eapply wp_mono; [apply window_spec; [done|lia]|].
  intros [w|e] io1 o1 (-> & Hs1 & Hr); cbv beta iota;
    assert (same_bytes io0 io1) as Hs2 by (intros c; by rewrite Hs1, Hs); [|wp_step; simpl; split_and!; try done; by exists read].
  pose proof Hr as (Hm & Hlb & Hpos & _). specialize (Hpos ltac:(lia) ltac:(lia)). unfold window_is_empty.
  rewrite (proj2 (Nat.eqb_neq _ _)) by lia. wp_step.
  assert (buffer_ok io1 b) as Hok1 by (eapply stored_buffer_ok; [by eapply (stored_nil io io1 b 0)|done]).
  eapply wp_mono; [by eapply copy_to_slice_spec|]. intros bytes io2 o2 (-> & -> & Hlen & Hbytes). cbv beta.
  assert (length (copy_into dest read bytes) = length dest) as Hl by (apply length_copy_into; lia).
  eapply wp_mono; [eapply (IH _ (read + window_len w)%nat io0); rewrite ?Hl; try done; [lia|lia|]|].
  - intros i x Hi. unfold copy_into in Hi. rewrite (assoc_L app), take_app_le in Hi by (rewrite length_app, length_take; lia).
    rewrite take_ge in Hi by (rewrite length_app, length_take; lia). destruct (decide (i < read)%nat).
    + rewrite lookup_app_l in Hi by (rewrite length_take; lia). by apply Hh.
    + rewrite lookup_app_r in Hi by (rewrite length_take; lia). rewrite length_take_le in Hi by lia.
      rewrite <- Hs2. apply Hbytes in Hi. rewrite <- Hi. do 2 f_equal. lia.
  - intros [d r] io' o' (-> & Hsb & Hld & Hr'). simpl in *. split_and!; try done; [lia|].
    destruct r as [[]|e]; [done|]. destruct Hr' as (? & n & Hn & Hh' & Hd). split; [done|].
    exists n. split; [lia|]. split; [done|]. rewrite Hd. unfold copy_into. rewrite (assoc_L app).
    rewrite drop_app_ge by (rewrite length_app, length_take; lia). rewrite drop_drop. f_equal.
    rewrite length_app, length_take. lia.
Qed.

Lemma load_spec io b offset destination o :
  buffer_ok io b →
  wp (load b offset destination) (λ r io' o', o' = o ∧ same_bytes io io' ∧ length r.1 = length destination ∧
     match r.2 with
     | Ok _ => (offset + length destination ≤ buffer_len b)%nat ∧ holds io b offset r.1
     | Err e => (e = InvalidAddress ∧ (buffer_len b < offset + length destination)%nat ∧ r.1 = destination) ∨
         ((offset + length destination ≤ buffer_len b)%nat ∧ pin_error FaultRead e ∧
          ∃ n, (n < length destination)%nat ∧ holds io b offset (take n r.1) ∧ drop n r.1 = drop n destination)
     end) io o.
Proof.
  intros Hok. unfold load. rewrite checked_subrange_spec by apply Hok. case_decide.
  - eapply wp_mono; [apply (load_loop_spec (length destination) b offset destination 0 io io o); [lia|lia|done|done|done|]|].
    + intros i x. by rewrite take_0.
    + intros [d [[]|e]] io' o' (-> & Hsb & Hl & Hr); simpl in *; split_and!; try done. right. split; [done|].
      destruct Hr as (? & n & Hn & ?). split; [done|]. exists n. split; [lia|done].
  - wp_step. split_and!; try done. left. split_and!; [done|lia|done].
Qed.
End spec.
