(* ===== verification/MemIoTheorems.v ===== *)
(** The properties of the transfers of [mem/io.rs], and a concrete user space. *)
From S2P Require Import Prelude.
From S2P Require Import Bytes.
From S2P Require Import Index.
From S2P Require Import VmMap.
From S2P Require Import MemIo.
From S2P Require Import MemIoSpec.
Open Scope rust_scope.

Section theorems.
Context {S : Type} `{!UserSpace S, !UserSpaceLaws S}.
Implicit Types (io : Io S) (b : Buffer).


(** [IoSink::fill_zero] clears exactly the bytes of the range. *)
Theorem fill_zero_correct io b offset n o :
  buffer_ok io b →
  wp (fill_zero b offset n) (λ r io' _,
     match r with
     | Ok _ => (offset + n ≤ buffer_len b)%nat ∧ stored io io' b offset (replicate n 0)
     | Err e => (e = InvalidAddress ∧ (buffer_len b < offset + n)%nat ∧ io' = io) ∨
         ((offset + n ≤ buffer_len b)%nat ∧ pin_error (S:=S) FaultWrite e ∧
          ∃ m, (m < n)%nat ∧ stored io io' b offset (replicate m 0))
     end) io o.
Proof. intros Hok. eapply wp_mono; [by apply fill_zero_spec|]. by intros r io' o' [_ H]. Qed.

Lemma held io io' b offset bytes : stored io io' b offset bytes → holds io' b offset bytes.
Proof. intros (_ & H & _) i x. apply H. Qed.

Lemma holds_unique io b offset l1 l2 : length l1 = length l2 → holds io b offset l1 → holds io b offset l2 → l1 = l2.
Proof.
  intros Hl H1 H2. apply list_eq. intros i. destruct (l1 !! i) as [x|] eqn:E1, (l2 !! i) as [y|] eqn:E2.
  - apply H1 in E1. apply H2 in E2. congruence.
  - apply lookup_lt_Some in E1. apply lookup_ge_None in E2. lia.
  - apply lookup_ge_None in E1. apply lookup_lt_Some in E2. lia.
  - done.
Qed.

(** loading what was stored gives it back, whatever pages the range
    crosses, whenever both transfers succeed. *)
Theorem store_load_roundtrip io b offset source destination o :
  buffer_ok io b → length destination = length source →
  wp (let! _ := store b offset source in
      let* r := load b offset destination in
      ret (match r.2 with Ok _ => Ok r.1 | Err e => Err e end))
     (λ r _ _, match r with Ok bytes => bytes = source | Err _ => True end) io o.
Proof.
  intros Hok Hlen. wp_step. eapply wp_mono; [by apply store_spec|]. intros [[]|e] io1 o1 [_ Hr]; [|done].
  destruct Hr as [Hle Hs]. wp_step. eapply wp_mono; [apply load_spec; by eapply stored_buffer_ok|].
  intros [d [[]|e]] io2 o2 (_ & Hsb & Hl & Hr); simpl in *; wp_step; [|done]. simpl. destruct Hr as [_ Hh].
  eapply holds_unique; [lia|exact Hh|by eapply held].
Qed.

(** a slice of a buffer is refused exactly when it leaves the buffer, and
    addresses the bytes of the buffer from its offset on. *)
Theorem buffer_slice_correct io b offset n :
  buffer_ok io b →
  match buffer_slice b offset n with
  | Ok b' => (offset + n ≤ buffer_len b)%nat ∧ buffer_len b' = n ∧ buffer_ok io b' ∧
      ∀ i, cell b' i = cell b (offset + i)
  | Err e => e = InvalidAddress ∧ (buffer_len b < offset + n)%nat
  end.
Proof.
  intros [Hlen Hok]. unfold buffer_slice. destruct b as [base m|a m]; simpl in *; rewrite checked_subrange_spec by done;
    (case_decide; [|simpl; split; [done|lia]]); simpl.
  - split_and!; [lia|done|split; simpl; lia|]. intros i. f_equal. lia.
  - destruct (checked_add a (Z.of_nat offset)) as [c|] eqn:E; simpl.
    + apply checked_add_Some in E as [-> _]. split_and!; [lia|done|split; simpl; [lia|split; lia]|]. intros i. f_equal. lia.
    + apply checked_add_None in E. lia.
Qed.

(** a range accepted for a transfer lies in user space, so that a user
    buffer never reaches kernel addresses. *)
Theorem user_range_bounds arch address n :
  is_u64 address → Z.of_nat n < two64 →
  match user_range_new arch address n with
  | Ok b => b = BUser address n ∧
      (n ≠ 0%nat → USER_ADDRESS_MIN ≤ address ∧ address + Z.of_nat n ≤ USER_ADDRESS_MAX arch) ∧
      ∀ io, buffer_ok io b
  | Err e => e = InvalidAddress ∧ n ≠ 0%nat ∧
      (address < USER_ADDRESS_MIN ∨ USER_ADDRESS_MAX arch < address + Z.of_nat n)
  end.
Proof.
  unfold is_u64. intros Ha Hn. unfold user_range_new, validate_user_range.
  assert (USER_ADDRESS_MAX arch < two64) by (by destruct arch).
  destruct (Nat.eqb_spec n 0) as [->|Hn0]; simpl; [split_and!; [done|done|]; intros io; split; simpl; [lia|split; [lia|by left]]|].
  destruct (checked_add address (Z.of_nat n)) as [e|] eqn:E; simpl; [|apply checked_add_None in E; split_and!; [done|done|lia]].
  apply checked_add_Some in E as [-> Hlt].
  destruct (Z.ltb_spec address USER_ADDRESS_MIN); simpl; [by auto|].
  destruct (Z.ltb_spec (USER_ADDRESS_MAX arch) (address + Z.of_nat n)); simpl; [by auto|].
  destruct (Z.leb_spec (address + Z.of_nat n) address); simpl; [lia|].
  split_and!; [done|done|]. intros io. split; simpl; [lia|split; [lia|by right]].
Qed.
End theorems.

(** ** A concrete user space: two pages that may be read, one also written *)

Record DemoSpace : Type := mkDemo { demo_bytes : gmap Z Z }.
Definition demo_page_ok (access : FaultAccess) (a : Z) : bool :=
  match access with
  | FaultWrite => a / 4096 =? 16
  | _ => (a / 4096 =? 16) || (a / 4096 =? 17)
  end.
Fixpoint demo_write (a : Z) (bs : list Z) (m : gmap Z Z) : gmap Z Z :=
  match bs with
  | [] => m
  | b :: bs => <[a := b]> (demo_write (a + 1) bs m)
  end.
#[export] Instance demo_space : UserSpace DemoSpace := {|
  pin_user_page access a s := (if demo_page_ok access a then Ok () else Err NotMapped, s);
  user_byte s a := default 0 (demo_bytes s !! a);
  user_write a bs s := mkDemo (demo_write a bs (demo_bytes s));
|}.

Lemma demo_write_lookup bs : ∀ a m v,
  demo_write a bs m !! v = if decide (a ≤ v < a + Z.of_nat (length bs)) then bs !! Z.to_nat (v - a) else m !! v.
Proof.
  induction bs as [|b bs IH]; intros a m v; simpl.
  - by rewrite decide_False by lia.
  - rewrite lookup_insert. destruct (decide (a = v)) as [<-|Hne].
    + rewrite decide_True by lia. by rewrite Z.sub_diag.
    + rewrite IH. repeat case_decide; try lia; [|done]. replace (Z.to_nat (v - a)) with (S (Z.to_nat (v - (a + 1)))) by lia. done.
Qed.
#[export] Instance demo_space_laws : UserSpaceLaws DemoSpace.
Proof.
  split; [done| |]; simpl.
  - intros a bs s i x Hx. pose proof (lookup_lt_Some _ _ _ Hx). rewrite demo_write_lookup, decide_True by lia.
    replace (Z.to_nat _) with i by lia. by rewrite Hx.
  - intros a bs s v Hv. rewrite demo_write_lookup, decide_False; [done|]. intros Hr.
    apply (Hv (Z.to_nat (v - a))); lia.
Qed.

(** Four bytes before the page boundary, in a buffer of ten. *)
Definition demo_io : Io DemoSpace := mkIo [9; 9; 9; 9; 9; 9; 9; 9] (mkDemo ∅).
Definition demo_buffer : Buffer := BUser 69630 10.
Lemma demo_buffer_ok : buffer_ok demo_io demo_buffer.
Proof. split; [done|]. simpl. split; [lia|]. right. lia. Qed.


Lemma fill_zero_correct_witness :
  wp (fill_zero (BKernel 2 6) 1 3) (λ r io' _,
     match r with
     | Ok _ => (1 + 3 ≤ 6)%nat ∧ stored demo_io io' (BKernel 2 6) 1 (replicate 3 0)
     | Err e => (e = InvalidAddress ∧ (6 < 1 + 3)%nat ∧ io' = demo_io) ∨
         ((1 + 3 ≤ 6)%nat ∧ pin_error (S:=DemoSpace) FaultWrite e ∧
          ∃ m, (m < 3)%nat ∧ stored demo_io io' (BKernel 2 6) 1 (replicate m 0))
     end) demo_io [].
Proof. apply (fill_zero_correct demo_io (BKernel 2 6) 1 3 []). split; simpl; lia. Defined.

Lemma store_load_roundtrip_witness :
  wp (let! _ := store (BUser 65536 8) 2 [1; 2; 3] in
      let* r := load (BUser 65536 8) 2 [0; 0; 0] in
      ret (match r.2 with Ok _ => Ok r.1 | Err e => Err e end))
     (λ r _ _, match r with Ok bytes => bytes = [1; 2; 3] | Err _ => True end) demo_io [].
Proof.
  apply (store_load_roundtrip demo_io (BUser 65536 8) 2 [1; 2; 3] [0; 0; 0] []); [|done].
  split; [done|]. simpl. split; [lia|]. right. lia.
Defined.

Lemma buffer_slice_correct_witness :
  buffer_slice demo_buffer 2 4 = Ok (BUser 69632 4) ∧
  match buffer_slice demo_buffer 2 4 with
  | Ok b' => (2 + 4 ≤ 10)%nat ∧ buffer_len b' = 4%nat ∧ buffer_ok demo_io b' ∧ ∀ i, cell b' i = cell demo_buffer (2 + i)
  | Err e => e = InvalidAddress ∧ (10 < 2 + 4)%nat
  end.
Proof. split; [done|]. apply (buffer_slice_correct demo_io demo_buffer 2 4), demo_buffer_ok. Defined.

Lemma user_range_bounds_witness :
  match user_range_new X86_64 65536 4096 with
  | Ok b => b = BUser 65536 4096 ∧
      (4096%nat ≠ 0%nat → USER_ADDRESS_MIN ≤ 65536 ∧ 65536 + Z.of_nat 4096 ≤ USER_ADDRESS_MAX X86_64) ∧
      ∀ io : Io DemoSpace, buffer_ok io b
  | Err e => e = InvalidAddress ∧ 4096%nat ≠ 0%nat ∧
      (65536 < USER_ADDRESS_MIN ∨ USER_ADDRESS_MAX X86_64 < 65536 + Z.of_nat 4096)
  end.
Proof. apply (user_range_bounds (S:=DemoSpace) X86_64 65536 4096); [done|lia]. Defined.
