(* ===== verification/BlockUser.v ===== *)
(** Transfers between a block device and a caller's memory
    ([BlockDevice::read_into] and [write_from]): batches of at most 128 KiB
    through a buffer of the kernel. *)
From S2P Require Import FsError.
From S2P Require Import Prelude.
From S2P Require Import Bytes.
From S2P Require Import DriverError.
From S2P Require Import Block.
From S2P Require Import VmMap.
From S2P Require Import MemIo.
Open Scope rust_scope.

Definition IO_BATCH_BYTES : nat := Z.to_nat 131072.
Lemma IO_BATCH_BYTES_Z : Z.of_nat IO_BATCH_BYTES = 131072.
Proof. unfold IO_BATCH_BYTES. by rewrite Z2Nat.id. Qed.
#[global] Opaque IO_BATCH_BYTES.

Section user.
Context {D S : Type} `{!Driver D, !UserSpace S}.

Record BSys : Type := mkBSys { disk : D; user : Io S }.
Definition on_disk {A} : M D A → M BSys A := zoom disk (λ d s, mkBSys d (user s)).
Definition on_user {A} : M (Io S) A → M BSys A := zoom user (λ i s, mkBSys (disk s) i).

(** What the inner loop of [read_into] ends with: the bytes done, or a return
    of the function. *)
Inductive Flow : Type :=
| Next (done : nat)
| Return (r : result FsError.Error nat).

(** [while copied < take] *)
Fixpoint copy_windows (fuel : nat) (sink : Buffer) (buffer : list Z) (take copied done : nat) : M BSys Flow :=
  if (copied <? take)%nat then
    match fuel with
    | O => panic
    | Datatypes.S fuel =>
        let* w := on_user (window FaultWrite sink done (take - copied)) in
        match w with
        | Err _ => ret (Return (if negb (done =? 0)%nat then Ok done else Err FsError.InvalidArgument))
        | Ok w =>
            let count := window_len w in
            if (count =? 0)%nat then ret (Return (Err FsError.Io))
            else
              do on_user (copy_from_slice w (slice buffer copied (copied + count))) then
              copy_windows fuel sink buffer take (copied + count) (done + count)
        end
    end
  else ret (Next done).

(** [while done < length] of [read_into] *)
Fixpoint read_batches (fuel : nat) (d : BlockDevice) (offset : Z) (sink : Buffer) (count : nat) (buffer : list Z) (done : nat) :
    M BSys (result FsError.Error nat) :=
  if (done <? count)%nat then
    match fuel with
    | O => panic
    | Datatypes.S fuel =>
        let take := Nat.min (length buffer) (count - done) in
        let* '(part, r) := on_disk (read_bytes d (u64_add offset (Z.of_nat done)) (slice buffer 0 take)) in
        let buffer := copy_into buffer 0 part in
        match r with
        | Ok n =>
            if (n =? take)%nat then
              let* f := copy_windows take sink buffer take 0 done in
              match f with
              | Next done => read_batches fuel d offset sink count buffer done
              | Return r => ret r
              end
            else if negb (done =? 0)%nat then ret (Ok done) else ret (Err FsError.Io)
        | Err e => if negb (done =? 0)%nat then ret (Ok done) else ret (Err (into_fs e))
        end
    end
  else ret (Ok done).
Definition read_into (d : BlockDevice) (offset : Z) (sink : Buffer) : M BSys (result FsError.Error nat) :=
  let count := Z.to_nat (Z.min (Z.of_nat (buffer_len sink)) (saturating_sub (size_bytes d) offset)) in
  if (count =? 0)%nat then ret (Ok 0%nat)
  else
    let* b := on_disk (block_buffer (Nat.min count IO_BATCH_BYTES)) in
    match b with
    | Err e => ret (Err (into_fs e))
    | Ok buffer => read_batches count d offset sink count buffer 0
    end.

(** [while done < source.len()] of [write_from] *)
Fixpoint write_batches (fuel : nat) (d : BlockDevice) (offset : Z) (source : Buffer) (buffer : list Z) (done : nat) :
    M BSys (result FsError.Error nat) :=
  if (done <? buffer_len source)%nat then
    match fuel with
    | O => panic
    | Datatypes.S fuel =>
        let take := Nat.min (length buffer) (buffer_len source - done) in
        let! at_ := ret (ok_or (checked_add offset (Z.of_nat done)) FsError.InvalidArgument) in
        let* '(part, loaded) := on_user (load source done (slice buffer 0 take)) in
        let buffer := copy_into buffer 0 part in
        let* r :=
          match loaded with
          | Err _ => ret (Err FsError.InvalidArgument)
          | Ok _ => let* r := on_disk (write_bytes d at_ (slice buffer 0 take)) in ret (map_err into_fs r)
          end in
        match r with
        | Ok n =>
            if (n <? take)%nat then ret (Ok (done + n)%nat)
            else write_batches fuel d offset source buffer (done + n)
        | Err e => if negb (done =? 0)%nat then ret (Ok done) else ret (Err e)
        end
    end
  else ret (Ok done).
Definition write_from (d : BlockDevice) (offset : Z) (source : Buffer) : M BSys (result FsError.Error nat) :=
  if buffer_is_empty source then ret (Ok 0%nat)
  else
    let* b := on_disk (block_buffer (Nat.min (buffer_len source) IO_BATCH_BYTES)) in
    match b with
    | Err e => ret (Err (into_fs e))
    | Ok buffer => write_batches (buffer_len source) d offset source buffer 0
    end.
End user.
Arguments BSys : clear implicits.
