(* ===== verification/BlockUserSpec.v ===== *)
(** What [read_into] and [write_from] do, on every branch. *)
From S2P Require Import FsError.
From S2P Require Import Prelude.
From S2P Require Import Bytes.
From S2P Require Import DriverError.
From S2P Require Import Block.
From S2P Require Import BlockSpec.
From S2P Require Import VmMap.
From S2P Require Import MemIo.
From S2P Require Import MemIoSpec.
From S2P Require Import BlockUser.
Open Scope rust_scope.

(** ** What the transfers ask of the allocator *)

Section frugal.
Context {D : Type} `{!Driver D}.

Lemma frugal_pinned {A} (a : A) (k : M D (A * result Error ())) : frugal k → frugal (pinned a k).
Proof. intros Hk. unfold pinned. frugal_steps. Qed.
Lemma frugal_module_read ops lba blocks buffer : frugal (module_read ops lba blocks buffer).
Proof.
  unfold module_read. destruct (has_read ops); [|frugal_steps]. apply frugal_pinned. intros s o.
  by destruct (cb_read lba blocks buffer s) as [[? ?] ?].
Qed.
Lemma frugal_module_write ops lba blocks buffer : frugal (module_write ops lba blocks buffer).
Proof.
  unfold module_write. destruct (has_write ops); [|frugal_steps]. apply frugal_bind; [|intros []; frugal_steps].
  apply frugal_pinned. intros s o. by destruct (cb_write lba blocks buffer s) as [? ?].
Qed.
Lemma frugal_transfer_chunks fuel : ∀ block_size limit transfer lba blocks buffer offset,
  (∀ a b c, frugal (transfer a b c)) → frugal (transfer_chunks (D:=D) fuel block_size limit transfer lba blocks buffer offset).
Proof.
  induction fuel as [|fuel IH]; intros * Ht; simpl; (destruct (blocks =? 0); [apply frugal_ret|]); [apply frugal_panic|].
  apply frugal_bind; [apply frugal_massert|]. intros _. apply frugal_bind; [apply Ht|]. intros [part [[]|e]]; [by apply IH|frugal_steps].
Qed.
Lemma frugal_write_chunks fuel : ∀ block_size limit transfer lba blocks buffer offset,
  (∀ a b c, frugal (transfer a b c)) → frugal (write_chunks (D:=D) fuel block_size limit transfer lba blocks buffer offset).
Proof.
  induction fuel as [|fuel IH]; intros * Ht; simpl; (destruct (blocks =? 0); [apply frugal_ret|]); [apply frugal_panic|].
  apply frugal_bind; [apply frugal_massert|]. intros _. apply frugal_bind_res; [apply Ht|]. intros _. by apply IH.
Qed.
Lemma frugal_read_blocks d : ∀ lba blocks buffer, frugal (read_blocks d lba blocks buffer).
Proof.
  induction d as [b size limit count IH] using device_stack. intros. cbn [read_blocks]. destruct (check_transfer _ _ _ _); [|frugal_steps].
  apply frugal_transfer_chunks. intros at_ n bytes. destruct b as [ops|parent first total]; [apply frugal_module_read|].
  destruct (partition_map _ _ _ _); [by eapply IH|frugal_steps].
Qed.
Lemma frugal_write_blocks d : ∀ lba blocks buffer, frugal (write_blocks d lba blocks buffer).
Proof.
  induction d as [b size limit count IH] using device_stack. intros. cbn [write_blocks]. destruct (check_transfer _ _ _ _); [|frugal_steps].
  apply frugal_write_chunks. intros at_ n bytes. destruct b as [ops|parent first total]; [apply frugal_module_write|].
  destruct (partition_map _ _ _ _); [by eapply IH|frugal_steps].
Qed.
Lemma frugal_block_buffer size : frugal (block_buffer (D:=D) size).
Proof. unfold block_buffer. frugal_steps. Qed.
Hint Resolve frugal_read_blocks frugal_write_blocks frugal_block_buffer : frugal.

Lemma frugal_read_bytes d offset buffer : frugal (read_bytes d offset buffer).
Proof. unfold read_bytes, read_leading, read_middle, read_trailing, read_part. cbv zeta. frugal_steps. Qed.
Lemma frugal_write_bytes d offset buffer : frugal (write_bytes d offset buffer).
Proof. unfold write_bytes, write_leading, write_middle, write_trailing, rewrite_block. cbv zeta. frugal_steps. Qed.
End frugal.

Section user.
Context {D S : Type} `{!Driver D, !UserSpace S, !UserSpaceLaws S} (bs : Z) `{!DriverLaws D bs}.
Hypothesis Hbs : 512 ≤ bs ≤ MAX_LOGICAL_BLOCK_SIZE.
Implicit Types (s : BSys D S) (d : BlockDevice).

Lemma wp_on_disk {A} (m : M D A) Q s o : wp m (λ a k o', Q a (mkBSys k (user s)) o') (disk s) o → wp (on_disk m) Q s o.
Proof using. intros H. unfold on_disk. by apply wp_zoom. Qed.
Lemma wp_on_user {A} (m : M (Io S) A) Q s o : wp m (λ a i o', Q a (mkBSys (disk s) i) o') (user s) o → wp (on_user m) Q s o.
Proof using. intros H. unfold on_user. by apply wp_zoom. Qed.

Lemma slice_split (l : list Z) a b c : (a ≤ b)%nat → (b ≤ c)%nat → slice l a c = slice l a b ++ slice l b c.
Proof using.
  intros. unfold slice. replace (c - a)%nat with ((b - a) + (c - b))%nat by lia. rewrite <- take_take_drop, drop_drop.
  by replace (a + (b - a))%nat with b by lia.
Qed.
Lemma slice_nil (l : list Z) a : slice l a a = [].
Proof using. unfold slice. by rewrite Nat.sub_diag, take_0. Qed.

(** The outcome of the copy of a batch to the sink. *)
Definition copied_batch (io0 : Io S) (sink : Buffer) (prev batch : list Z) (f : Flow) (io' : Io S) : Prop :=
  match f with
  | Next done' => done' = (length prev + length batch)%nat ∧ stored io0 io' sink 0 (prev ++ batch)
  | Return r =>
      (∃ e, pin_error (S:=S) FaultWrite e) ∧
      ∃ k, (k < length batch)%nat ∧ stored io0 io' sink 0 (prev ++ take k batch) ∧
        r = if (length prev + k =? 0)%nat then Err FsError.InvalidArgument else Ok (length prev + k)%nat
  end.

Lemma copy_windows_spec sink buffer total : ∀ fuel io0 prev copied s o,
  (total - copied ≤ fuel)%nat → (copied ≤ total)%nat → (total ≤ length buffer)%nat →
  (length prev + (total - copied) ≤ buffer_len sink)%nat → buffer_ok (user s) sink → stored io0 (user s) sink 0 prev →
  wp (copy_windows fuel sink buffer total copied (length prev))
    (λ f s' o', o' = o ∧ disk s' = disk s ∧ copied_batch io0 sink prev (slice buffer copied total) f (user s')) s o.
Proof using All.
  induction fuel as [|fuel IH]; intros io0 prev copied s o Hf Hc Ht Hb Hok Hst; simpl;
    (destruct (Nat.ltb_spec copied total); [|wp_steps; split_and!; try done; replace copied with total by lia;
      unfold copied_batch; rewrite slice_nil, app_nil_r; simpl; split; [lia|done]]); [lia|].
  assert (length (slice buffer copied total) = (total - copied)%nat) as Hls by (apply length_slice; lia).
  apply wp_bind, wp_on_user. eapply wp_mono; [apply window_spec; [done|lia]|].
  intros [w|e] i1 o1 (-> & Hs1 & Hr); cbv beta iota.
  - pose proof Hr as (Hm & Hlb & Hpos & _). specialize (Hpos ltac:(lia) ltac:(lia)). rewrite (proj2 (Nat.eqb_neq _ _)) by lia.
    apply wp_bind, wp_on_user. cbn [user disk].
    assert (buffer_ok i1 sink) as Hok1 by (eapply stored_buffer_ok; [apply (stored_nil _ _ sink 0); exact Hs1|done]).
    assert (length (slice buffer copied (copied + window_len w)) = window_len w) as Hlw by (rewrite length_slice; lia).
    eapply wp_mono; [by eapply copy_from_slice_spec|]. intros [] i2 o2 [-> Hst2].
    replace (length prev + window_len w)%nat with (length (prev ++ slice buffer copied (copied + window_len w))) by (by rewrite length_app, Hlw).
    eapply wp_mono; [apply (IH io0); cbn [user]; rewrite ?length_app, ?Hlw; try lia|].
    + by eapply stored_buffer_ok.
    + eapply stored_app; [eapply stored_same; [exact Hst|exact Hs1]|]. by rewrite Nat.add_0_l.
    + intros f s' o' (-> & Hd & Hf'). split_and!; [done|done|].
      rewrite (slice_split buffer copied (copied + window_len w) total) by lia. set (hd := slice buffer copied (copied + window_len w)) in *.
      set (tl := slice buffer (copied + window_len w) total) in *. destruct f as [done'|r]; simpl in *.
      * destruct Hf' as [-> Hst']. rewrite length_app in *. split; [rewrite length_app; lia|by rewrite (assoc_L app)].
      * destruct Hf' as (He & k & Hk & Hst' & ->). split; [done|]. exists (length hd + k)%nat. rewrite length_app in *.
        split_and!; [lia| |by rewrite length_app, Nat.add_assoc]. rewrite take_app_add. by rewrite (assoc_L app).
  - wp_steps. split_and!; [done|done|]. split; [by exists e|]. exists 0%nat. rewrite take_0, app_nil_r, Nat.add_0_r.
    split_and!; [lia|by eapply stored_same|]. by destruct (length prev =? 0)%nat.
Qed.

(** The state after [done] bytes of a read: the medium is as at the start and
    the sink holds the bytes read. *)
Definition read_so_far (s0 : BSys D S) (a : Z) (sink : Buffer) (n : nat) s : Prop :=
  same (disk s0) (disk s) ∧ (healthy (disk s0) → healthy (disk s)) ∧
  stored (user s0) (user s) sink 0 (contents (disk s0) a n).
Definition short_reason (access : FaultAccess) (o : oracle) : Prop := (∃ e, pin_error (S:=S) access e) ∨ false ∈ o.

Lemma read_batches_spec d offset sink count s0 o0 :
  device_ok bs d → 0 ≤ offset → offset + Z.of_nat count ≤ size_bytes d → (count ≤ buffer_len sink)%nat →
  buffer_ok (user s0) sink →
  ∀ fuel buffer n0 s o,
  (count - n0 ≤ fuel)%nat → (n0 ≤ count)%nat → 0 < Z.of_nat (length buffer) ≤ 131072 → o ⊆ o0 →
  read_so_far s0 (base bs d + offset) sink n0 s →
  wp (read_batches fuel d offset sink count buffer n0)
    (λ r s' o', match r with
      | Ok n => (n ≤ count)%nat ∧ ((0 < count)%nat → (0 < n)%nat) ∧ read_so_far s0 (base bs d + offset) sink n s' ∧
          ((n < count)%nat → healthy (disk s0) → short_reason FaultWrite o0)
      | Err e => read_so_far s0 (base bs d + offset) sink 0 s' ∧
          (healthy (disk s0) → e = FsError.InvalidArgument ∧ (∃ e', pin_error (S:=S) FaultWrite e') ∨
             e = FsError.OutOfMemory ∧ false ∈ o0)
      end) s o.
Proof using All.
  intros Hd Hoff Hsize Hlen Hok0. destruct (device_facts bs Hbs d Hd) as (Ebs & Hn & Hn64 & Esz). rewrite Esz in Hsize.
  unfold MAX_LOGICAL_BLOCK_SIZE in Hbs.
  induction fuel as [|fuel IH]; intros buffer n0 s o Hf Hdone Hbuf Ho Hsf; simpl;
    (destruct (Nat.ltb_spec n0 count); [|wp_steps; replace n0 with count in * by lia; split_and!; [lia|done|done|lia]]); [lia|].
  set (t := Nat.min (length buffer) (count - n0)). rewrite u64_add_small by lia.
  assert (length (slice buffer 0 t) = t) as Hlt by (rewrite length_slice; lia). pose proof Hsf as (Hsame & Hheal & Hst).
  apply wp_bind, wp_on_disk. eapply wp_mono;
    [apply wp_frugal; [apply frugal_read_bytes|apply (read_bytes_spec bs Hbs); [done|lia|rewrite Hlt; nia]]|].
  intros [part r] k o1 (Ho1 & Hlp & Hk & Hhk & Hr). cbn [fst snd] in *. rewrite Hlt in *.
  assert (∀ n, read_so_far s0 (base bs d + offset) sink n s → read_so_far s0 (base bs d + offset) sink n (mkBSys k (user s))) as Hkeep.
  { intros n (? & ? & ?). split_and!; [by eapply same_trans|by auto|done]. }
  destruct r as [n|e].
  - destruct Hr as [-> Hpart]. assert (read_count d (offset + Z.of_nat n0) t = t) as Ecount.
    { unfold read_count, saturating_sub. rewrite Esz. lia. }
    rewrite Ecount, Nat.eqb_refl in *. apply wp_bind.
    assert (part = contents (disk s0) (base bs d + offset + Z.of_nat n0) t) as Ep.
    { rewrite Hpart, drop_ge, app_nil_r by lia. rewrite (contents_same (disk s0) (disk s)) by done. f_equal. lia. }
    assert (slice (copy_into buffer 0 part) 0 t = part) as Hsl.
    { unfold slice, copy_into. rewrite drop_0, take_0, Nat.sub_0_r. cbn [app]. apply take_app_length'. done. }
    assert (length (copy_into buffer 0 part) = length buffer) as Hlc by (apply length_copy_into; lia).
    pose proof (copy_windows_spec sink (copy_into buffer 0 part) t t (user s0) (contents (disk s0) (base bs d + offset) n0) 0
      (mkBSys k (user s)) o1) as Hcw. rewrite length_contents in Hcw.
    eapply wp_mono; [apply Hcw; [lia|lia|lia|lia|eapply stored_buffer_ok; [exact Hst|exact Hok0]|exact Hst]|].
    intros f s' o' (-> & Hds & Hf'). rewrite Hsl in Hf'. simpl in Hds.
    assert (∀ n, stored (user s0) (user s') sink 0 (contents (disk s0) (base bs d + offset) n) →
      read_so_far s0 (base bs d + offset) sink n s') as Hmk.
    { intros n Hn'. unfold read_so_far. rewrite Hds. split_and!; [by eapply same_trans|by auto|done]. }
    destruct f as [n1|r]; simpl in Hf'.
    + destruct Hf' as [-> Hst']. rewrite length_contents, Hlp in *. rewrite Ep, <- contents_app in Hst'.
      apply IH; [lia|lia|lia|by etrans|by apply Hmk].
    + destruct Hf' as (He & j & Hj & Hst' & ->). wp_steps. rewrite length_contents, Hlp in *.
      rewrite Ep in Hst'. replace (take j (contents (disk s0) (base bs d + offset + Z.of_nat n0) t))
        with (contents (disk s0) (base bs d + offset + Z.of_nat n0) j) in Hst'.
      2: { replace t with (j + (t - j))%nat by lia. rewrite contents_app, take_app_length' by (by rewrite length_contents). done. }
      rewrite <- contents_app in Hst'. destruct (Nat.eqb_spec (n0 + j) 0) as [E|E].
      * replace (n0 + j)%nat with 0%nat in * by lia. split; [by apply Hmk|]. intros _. left. done.
      * split_and!; [lia|lia|by apply Hmk|]. intros _ _. by left.
  - destruct (Nat.eqb_spec n0 0) as [->|Hne]; cbn [negb]; wp_steps.
    + split; [by apply Hkeep|]. intros Hy. destruct (Hr (Hheal Hy)) as [-> Hfo]. right. split; [done|]. by apply Ho.
    + split_and!; [lia|lia|by apply Hkeep|]. intros _ Hy. destruct (Hr (Hheal Hy)) as [_ Hfo]. right. by apply Ho.
Qed.

Lemma batch_length (b : list Z) n : length b = Nat.min n IO_BATCH_BYTES → (0 < n)%nat → 0 < Z.of_nat (length b) ≤ 131072.
Proof using. intros -> Hn. pose proof IO_BATCH_BYTES_Z. lia. Qed.
Lemma wp_disk_buffer size (Q : result Error (list Z) → BSys D S → oracle → Prop) s o :
  (∀ b o', o' ⊆ o → length b = size → Q (Ok b) s o') → (∀ o', false ∈ o → Q (Err OutOfMemory) s o') →
  wp (on_disk (block_buffer size)) Q s o.
Proof using.
  intros Hok Herr. apply wp_on_disk. eapply wp_mono; [apply wp_frugal; [apply frugal_block_buffer|apply block_buffer_spec]|].
  intros [b|e] k o' (Ho & -> & Hb); simpl; destruct s as [k i]; simpl in *; [by apply Hok|]. destruct Hb as [-> ?]. by apply Herr.
Qed.

Lemma read_into_spec d offset sink s o :
  device_ok bs d → 0 ≤ offset → buffer_ok (user s) sink →
  let count := read_count d offset (buffer_len sink) in
  wp (read_into d offset sink)
    (λ r s' o', match r with
      | Ok n => (n ≤ count)%nat ∧ ((0 < count)%nat → (0 < n)%nat) ∧ read_so_far s (base bs d + offset) sink n s' ∧
          ((n < count)%nat → healthy (disk s) → short_reason FaultWrite o)
      | Err e => read_so_far s (base bs d + offset) sink 0 s' ∧
          (healthy (disk s) → e = FsError.InvalidArgument ∧ (∃ e', pin_error (S:=S) FaultWrite e') ∨
             e = FsError.OutOfMemory ∧ false ∈ o)
      end) s o.
Proof using All.
  intros Hd Hoff Hok count. destruct (device_facts bs Hbs d Hd) as (Ebs & Hn & Hn64 & Esz).
  assert (read_so_far s (base bs d + offset) sink 0 s) as Hstart by (split_and!; [done|done|by apply stored_nil]).
  unfold read_into. fold (read_count d offset (buffer_len sink)). fold count.
  assert ((count ≤ buffer_len sink)%nat ∧ ((0 < count)%nat → offset + Z.of_nat count ≤ size_bytes d)) as [Hcl Hcs].
  { unfold count, read_count, saturating_sub. lia. }
  destruct (Nat.eqb_spec count 0) as [E0|E0]; [wp_steps; split_and!; [lia|lia|done|lia]|].
  apply wp_bind, wp_disk_buffer.
  - intros b o' Ho Hb%batch_length; [|lia]. apply read_batches_spec; [done|done|apply Hcs; lia|done|done|lia|lia|lia|done|done].
  - intros o' Hfo. wp_steps. split; [done|]. intros _. by right.
Qed.

(** ** Writes from a caller's memory *)

(** The bytes of the source, as they are when the call starts. *)
Definition source_bytes (io : Io S) (source : Buffer) (data : list Z) : Prop :=
  length data = buffer_len source ∧ holds io source 0 data.

Lemma holds_take_eq (io io' : Io S) source (data l : list Z) k :
  source_bytes io source data → same_bytes io io' → holds io' source k l → (k + length l ≤ length data)%nat →
  l = slice data k (k + length l).
Proof using.
  intros [Hl Hd] Hs Hh Hk. apply list_eq. intros i. rewrite slice_lookup. case_decide as Hi; [|by apply lookup_ge_None_2; lia].
  destruct (lookup_lt_is_Some_2 l i ltac:(lia)) as [x Hx], (lookup_lt_is_Some_2 data (k + i)%nat ltac:(lia)) as [y Hy].
  rewrite Hx, Hy. apply Hh in Hx. apply Hd in Hy. rewrite Hs in Hx. simpl in Hy. congruence.
Qed.

Lemma take_slice' (l : list Z) k n : take (k + n) l = take k l ++ slice l k (k + n).
Proof using. unfold slice. replace (k + n - k)%nat with n by lia. symmetry. apply take_take_drop. Qed.

Lemma cover_in_device d at_ bytes (k k' : D) :
  0 ≤ at_ → at_ + Z.of_nat (length bytes) ≤ block_count d * bs →
  confined k k' (cover_start bs d at_) (cover_size bs at_ bytes) → confined k k' (base bs d) (block_count d * bs).
Proof using Hbs.
  intros Hat Hfit Hc. eapply confined_mono; [exact Hc|]. unfold cover_start, cover_size.
  set (e := at_ + Z.of_nat (length bytes)) in *. assert ((e - 1) / bs < block_count d) by (apply Z.div_lt_upper_bound; lia).
  assert (0 ≤ at_ / bs) by (apply Z.div_pos; lia). nia.
Qed.

Section write.
Context (d : BlockDevice) (offset : Z) (source : Buffer) (data : list Z) (s0 : BSys D S) (o0 : oracle).
Hypothesis Hd : device_ok bs d.
Hypothesis Hoff : 0 ≤ offset < two64.
Hypothesis Hok : buffer_ok (user s0) source.
Hypothesis Hdata : source_bytes (user s0) source data.

(** After [n] bytes: the caller's memory is untouched, and the bytes are on
    the disk, which is otherwise as before. *)
Definition written_so_far (n : nat) s : Prop :=
  same_bytes (user s0) (user s) ∧ (healthy (disk s0) → healthy (disk s)) ∧
  written (disk s0) (disk s) (base bs d + offset) (take n data).
Definition write_outcome (r : result FsError.Error nat) s' : Prop :=
  same_bytes (user s0) (user s') ∧ (healthy (disk s0) → healthy (disk s')) ∧
  confined (disk s0) (disk s') (base bs d) (block_count d * bs) ∧
  match r with
  | Ok n => (n ≤ length data)%nat ∧ (n = length data → written_so_far n s') ∧
      (healthy (disk s0) → writable d = true → written_so_far n s' ∧
        ((n < length data)%nat → short_reason FaultRead o0 ∨ size_bytes d < offset + Z.of_nat (length data)))
  | Err e => healthy (disk s0) → writable d = true → same (disk s0) (disk s') ∧
      (short_reason FaultRead o0 ∨ size_bytes d < offset + Z.of_nat (length data))
  end.

(** A stop after [n0] bytes: what the call returns then. *)
Lemma write_stop n0 e s s' :
  (n0 < length data)%nat → written_so_far n0 s → same_bytes (user s0) (user s') → (healthy (disk s0) → healthy (disk s')) →
  confined (disk s0) (disk s') (base bs d) (block_count d * bs) →
  (healthy (disk s0) → writable d = true → disk s' = disk s ∧
    (short_reason FaultRead o0 ∨ size_bytes d < offset + Z.of_nat (length data))) →
  write_outcome (if negb (n0 =? 0)%nat then Ok n0 else Err e) s'.
Proof using.
  intros Hlt (_ & _ & Hw) Hus Hh Hc Hwhy. unfold write_outcome, written_so_far. split_and!; [done|done|done|].
  destruct (Nat.eqb_spec n0 0) as [->|]; simpl.
  - intros Hy Hwr. destruct (Hwhy Hy Hwr) as [-> Hr]. split; [|done]. destruct Hw as [_ Hcw]. intros v. apply Hcw. simpl. lia.
  - split_and!; [lia|lia|]. intros Hy Hwr. destruct (Hwhy Hy Hwr) as [-> Hr]. split; [|done]. split_and!; [done| |done].
    intros _. destruct (Hwhy Hy Hwr) as [<- _]. by apply Hh.
Qed.

Lemma write_batches_spec : ∀ fuel buffer n0 s o,
  (length data - n0 ≤ fuel)%nat → (n0 ≤ length data)%nat → 0 < Z.of_nat (length buffer) ≤ 131072 → o ⊆ o0 →
  n0 = 0%nat ∨ offset + Z.of_nat n0 ≤ size_bytes d →
  written_so_far n0 s → confined (disk s0) (disk s) (base bs d) (block_count d * bs) →
  wp (write_batches fuel d offset source buffer n0) (λ r s' o', write_outcome r s') s o.
Proof using All.
  pose proof Hdata as [Hlen _]. destruct (device_facts bs Hbs d Hd) as (Ebs & Hn & Hn64 & Esz).
  unfold MAX_LOGICAL_BLOCK_SIZE in Hbs.
  induction fuel as [|fuel IH]; intros buffer n0 s o Hf Hn0 Hbuf Ho Hin Hsf Hconf; simpl; rewrite <- Hlen;
    (destruct (Nat.ltb_spec n0 (length data)); [|wp_steps; replace n0 with (length data) in * by lia;
      pose proof Hsf as (? & ? & ?); split_and!; try done; intros _ _; (split; [done|lia])]); [lia|].
  set (t := Nat.min (length buffer) (length data - n0)).
  assert (length (slice buffer 0 t) = t) as Hlt by (rewrite length_slice; lia). pose proof Hsf as (Hsame & Hheal & Hw).
  apply wp_bind_res. unfold checked_add, ok_or. rewrite decide_True by lia. apply wp_ret, wp_bind, wp_on_user.
  assert (buffer_ok (user s) source) as Hoks by (eapply stored_buffer_ok; [apply (stored_nil _ _ source 0); exact Hsame|done]).
  eapply wp_mono; [by apply load_spec|]. intros [part loaded] i1 o1 (-> & Hi1 & Hlp & Hl). simpl in Hlp, Hl. rewrite Hlt in *.
  assert (same_bytes (user s0) i1) as Hs1 by (intros c; by rewrite Hi1, Hsame).
  destruct loaded as [[]|e].
  2: { wp_steps. cut (write_outcome (if negb (n0 =? 0)%nat then Ok n0 else Err FsError.InvalidArgument) (mkBSys (disk s) i1));
         [destruct (n0 =? 0)%nat; by intros|]. apply (write_stop _ _ s); try done. intros _ _. split; [done|]. left. left.
       destruct Hl as [(_ & Hbad & _)|(_ & He & _)]; [lia|by exists e]. }
  destruct Hl as [_ Hh]. assert (part = slice data n0 (n0 + t)) as Ep.
  { rewrite <- Hlp. eapply holds_take_eq; [exact Hdata|exact Hsame|exact Hh|lia]. }
  assert (slice (copy_into buffer 0 part) 0 t = part) as Hsl.
  { unfold slice, copy_into. rewrite drop_0, take_0, Nat.sub_0_r. cbn [app]. by apply take_app_length'. }
  assert (length (copy_into buffer 0 part) = length buffer) as Hlc by (apply length_copy_into; lia).
  rewrite Hsl. apply wp_bind, wp_bind, wp_on_disk. cbn [disk user].
  eapply wp_mono; [apply wp_frugal; [apply frugal_write_bytes|apply (write_bytes_spec bs Hbs); [done|lia|rewrite Hlp; nia]]|].
  intros r k o1 [Ho1 Hr]. rewrite Hlp in Hr. wp_steps. case_decide as Hfit.
  - destruct Hr as (Hhk & Hck & Hr). apply cover_in_device in Hck; [|lia|by rewrite Hlp].
    assert (confined (disk s0) k (base bs d) (block_count d * bs)) as Hc2 by (eapply confined_trans; [exact Hconf|exact Hck|lia|lia]).
    destruct r as [n|e]; simpl.
    + destruct Hr as [-> Hwk]. rewrite Hlp, Nat.ltb_irrefl. apply IH; [lia|lia|lia|by etrans|right; lia| |done].
      split_and!; [done|by auto|]. rewrite take_slice', <- Ep by lia. eapply written_app; [exact Hw|].
      rewrite length_take_le by lia. by rewrite <- Z.add_assoc.
    + cut (write_outcome (if negb (n0 =? 0)%nat then Ok n0 else Err (into_fs e)) (mkBSys k i1)); [destruct (n0 =? 0)%nat; by intros|].
      apply (write_stop _ _ s); try done; [by auto|]. intros Hy Hwr. destruct (Hr (Hheal Hy) Hwr) as (_ & Hfo & ->).
      split; [done|]. left. right. by apply Ho.
  - destruct Hr as [-> ->]. simpl. cut (∀ e, write_outcome (if negb (n0 =? 0)%nat then Ok n0 else Err e) (mkBSys (disk s) i1));
      [intros Hst; destruct (n0 =? 0)%nat eqn:E0; wp_steps; specialize (Hst (into_fs (if decide (offset + Z.of_nat n0 + Z.of_nat t < two64) then NoSpace else InvalidArgument))); by rewrite ?E0 in Hst|].
    intros e. apply (write_stop _ _ s); try done. intros _ _. split; [done|]. right. rewrite Esz. lia.
Qed.

Lemma write_from_spec :
  wp (write_from d offset source) (λ r s' o', write_outcome r s') s0 o0.
Proof using All.
  pose proof Hdata as [Hlen _].
  assert (written_so_far 0 s0) as Hstart by (split_and!; [done|done|apply written_nil]).
  unfold write_from, buffer_is_empty. rewrite <- Hlen. destruct (Nat.eqb_spec (length data) 0) as [E0|E0].
  - wp_steps. split_and!; try done; [lia|]. intros _ _. split; [done|lia].
  - apply wp_bind, wp_disk_buffer.
    + intros b o' Ho Hb%batch_length; [|lia]. apply write_batches_spec; [lia|lia|lia|done|by left|done|by apply same_confined].
    + intros o' Hfo. wp_steps. split_and!; try done. intros _ _. split; [done|]. left. by right.
Qed.
End write.
End user.
