(* ===== verification/BlockTheorems.v ===== *)
(** The properties of block devices and their partitions, and a concrete
    driver. *)
From S2P Require Import FsError.
From S2P Require Import Prelude.
From S2P Require Import Bytes.
From S2P Require Import DriverError.
From S2P Require Import Block.
From S2P Require Import BlockSpec.
From S2P Require Import Partition.
From S2P Require Import PartitionSpec.
From S2P Require Import VmMap.
From S2P Require Import MemIo.
From S2P Require Import MemIoSpec.
From S2P Require Import MemIoTheorems.
From S2P Require Import BlockUser.
From S2P Require Import BlockUserSpec.
Open Scope rust_scope.


Section theorems.
Context {D : Type} `{!Driver D} (bs : Z) `{!DriverLaws D bs}.
Hypothesis Hbs : 512 ≤ bs ≤ MAX_LOGICAL_BLOCK_SIZE.
Implicit Types (s : D) (d : BlockDevice) (buffer : list Z).

(** The device of a partition in the disk. *)
Lemma partition_device_ok d p :
  device_ok bs d → in_disk (block_count d) p →
  device_ok bs (partition_device d p) ∧ base bs (partition_device d p) = base bs d + first p * bs ∧
  block_count (partition_device d p) = blocks p.
Proof using Hbs.
  intros Hd (H1 & H2 & H3). pose proof (device_facts bs Hbs d Hd) as (Ebs & Hn & Hn64 & _).
  destruct d as [b size limit count]. destruct Hd as (-> & Hl & Hc & Hsz & Hb). simpl in *. unfold MAX_LOGICAL_BLOCK_SIZE in Hbs.
  split_and!; try done; try lia; nia.
Qed.

(** A read of bytes returns the bytes of the medium, as many as asked or as
    the device has, whatever the alignment of the range and the largest
    transfer of the driver; it changes nothing, and with a healthy driver it
    fails only when the bounce buffer cannot be allocated. *)
Theorem read_bytes_correct d offset buffer s o (Hd : device_ok bs d) (Hoff : 0 ≤ offset)
    (Hlen : Z.of_nat (length buffer) < 4294967296 * bs) :
  wp (read_bytes d offset buffer) (λ p s' _,
     same s s' ∧
     match p.2 with
     | Ok n => Z.of_nat n = Z.min (Z.of_nat (length buffer)) (Z.max 0 (block_count d * bs - offset)) ∧
         p.1 = contents s (base bs d + offset) n ++ drop n buffer
     | Err e => healthy s → e = OutOfMemory ∧ false ∈ o
     end) s o.
Proof using All.
  destruct (device_facts bs Hbs d Hd) as (_ & _ & _ & Esz). eapply wp_mono; [by apply (read_bytes_spec bs Hbs)|].
  intros [buf r] s' o' (_ & Hs & _ & Hr). simpl in *. split; [done|]. destruct r as [n|e]; [|done]. destruct Hr as [-> ->].
  split; [|done]. unfold read_count, saturating_sub. rewrite Esz. lia.
Qed.

(** A write of bytes puts exactly the bytes of the buffer on the medium and
    keeps every other byte, those of the blocks it shares included; when it
    fails it has changed at most the blocks the range touches. A range beyond
    the device is refused without an effect. *)
Theorem write_bytes_correct d offset buffer s o (Hd : device_ok bs d) (Hoff : 0 ≤ offset)
    (Hlen : Z.of_nat (length buffer) < 4294967296 * bs) :
  wp (write_bytes d offset buffer) (λ r s' _,
     match r with
     | Ok n => n = length buffer ∧ offset + Z.of_nat n ≤ block_count d * bs ∧ written s s' (base bs d + offset) buffer
     | Err e =>
         if decide (offset + Z.of_nat (length buffer) ≤ block_count d * bs) then
           confined s s' (cover_start bs d offset) (cover_size bs offset buffer) ∧
           (healthy s → writable d = true → e = OutOfMemory ∧ false ∈ o)
         else s' = s ∧ (e = NoSpace ∨ e = InvalidArgument)
     end) s o.
Proof using All.
  eapply wp_mono; [by apply (write_bytes_spec bs Hbs)|]. intros r s' o' Hr. destruct (decide _) as [Hfit|Hfit].
  - destruct Hr as (_ & Hc & Hr). destruct r as [n|e].
    + destruct Hr as [-> Hw]. done.
    + split; [done|]. intros Hy Hw. by destruct (Hr Hy Hw) as (? & ? & _).
  - destruct Hr as [-> ->]. split; [done|]. destruct (decide _); [by left|by right].
Qed.

(** Reading what was written gives it back. *)
Theorem write_read_roundtrip d offset buffer s o (Hd : device_ok bs d) (Hoff : 0 ≤ offset)
    (Hlen : Z.of_nat (length buffer) < 4294967296 * bs) :
  wp (let* w := write_bytes d offset buffer in
      let* r := read_bytes d offset (replicate (length buffer) 0) in
      ret (w, r)) (λ '(w, r) _ _, ∀ n m, w = Ok n → r.2 = Ok m → r.1 = buffer ∧ m = length buffer) s o.
Proof using All.
  destruct (device_facts bs Hbs d Hd) as (_ & _ & _ & Esz).
  apply wp_bind. eapply wp_mono; [by apply (write_bytes_spec bs Hbs)|]. intros w s1 o1 Hw. apply wp_bind.
  eapply wp_mono; [apply (read_bytes_spec bs Hbs); [done|done|by rewrite length_replicate]|].
  intros [buf r] s2 o2 (_ & _ & _ & Hr). wp_steps. intros n m -> Em. simpl in *. subst r. rewrite length_replicate in Hr.
  destruct (decide _) as [Hfit|]; [|by destruct Hw]. destruct Hw as (_ & _ & _ & [Hw _]). destruct Hr as [-> ->].
  assert (read_count d offset (length buffer) = length buffer) as -> by (unfold read_count, saturating_sub; rewrite Esz; lia).
  split; [|done]. rewrite Hw, drop_ge, app_nil_r by (by rewrite length_replicate). done.
Qed.

(** C39: Whatever bytes a disk holds, discovery ends without a panic, changes
    nothing, and returns partitions with distinct numbers that lie inside the
    disk, leave its first block alone and do not overlap. *)
Theorem discover_correct d s o (Hd : device_ok bs d) (Hs : bytes_ok s) :
  wp (discover d) (λ r s' _, same s s' ∧
     ∀ ps, r = Ok ps →
       StronglySorted (λ p q, number p ≤ number q) ps ∧ NoDup (number <$> ps) ∧
       Forall (in_disk (block_count d)) ps ∧ ∀ p q, p ∈ ps → q ∈ ps → p ≠ q → disjoint_parts p q) s o.
Proof using All.
  eapply wp_mono; [by apply (discover_spec bs Hbs d Hd)|]. intros r s' o' [[Hsame _] Hr]. split; [done|].
  intros ps Hps. destruct (Hr ps Hps) as ([_ Hin Hdj] & Hsort & Hnd). done.
Qed.

(** The table of a GPT is taken as it is written: the partitions are those of
    the used entries, under the header and the CRC that were read. *)
Theorem discover_gpt_correct d s o (Hd : device_ok bs d) (Hs : bytes_ok s) :
  wp (discover_gpt d (Z.to_nat bs)) (λ r s' _, same s s' ∧ ∀ ps, r = Ok ps → gpt_listed bs d s ps) s o.
Proof using All.
  eapply wp_mono; [by apply (discover_gpt_spec bs Hbs d Hd)|]. intros r s' o' [[Hsame _] Hr]. split; [done|].
  intros ps Hps. by apply Hr.
Qed.

(** C37: A write to a partition, whatever its range and its outcome, leaves every
    byte outside the partition as it was, those of the other partitions of the
    disk in particular. *)
Theorem partition_isolation d s o (Hd : device_ok bs d) (Hs : bytes_ok s) :
  wp (discover d) (λ r s1 _, ∀ ps p q, r = Ok ps → p ∈ ps → q ∈ ps → p ≠ q →
     ∀ offset buffer o1, 0 ≤ offset → Z.of_nat (length buffer) < 4294967296 * bs →
     wp (write_bytes (partition_device d p) offset buffer) (λ _ s2 _,
        confined s1 s2 (base bs d + first p * bs) (blocks p * bs) ∧
        ∀ a n, 0 ≤ a → a + Z.of_nat n ≤ blocks q * bs →
          contents s2 (base bs (partition_device d q) + a) n = contents s1 (base bs (partition_device d q) + a) n) s1 o1) s o.
Proof using All.
  eapply wp_mono; [by apply (discover_spec bs Hbs d Hd)|]. intros r s1 o1 [_ Hr] ps p q Hps Hp Hq Hne offset buffer o2 Hoff Hlen.
  destruct (Hr ps Hps) as ([_ Hin Hdj] & _). rewrite Forall_forall in Hin.
  destruct (partition_device_ok d p Hd (Hin p Hp)) as (Hdp & Ebp & Ecp), (partition_device_ok d q Hd (Hin q Hq)) as (_ & Ebq & _).
  eapply wp_mono; [by apply (write_bytes_spec bs Hbs)|]. intros r' s2 o3 Hw.
  assert (confined s1 s2 (base bs d + first p * bs) (blocks p * bs)) as Hconf.
  { rewrite <- Ebp, <- Ecp. destruct (decide _) as [Hfit|]; [|destruct Hw as [-> _]; by apply same_confined].
    destruct Hw as (_ & Hc & _). by eapply (cover_in_device bs). }
  split; [done|]. intros a n Ha Hn. rewrite Ebq. eapply contents_confined; [exact Hconf|].
  pose proof (Hin p Hp) as (? & ? & ?). pose proof (Hin q Hq) as (? & ? & ?). destruct (Hdj p q Hp Hq Hne); [right|left]; nia.
Qed.
End theorems.

Section user_theorems.
Context {D S : Type} `{!Driver D, !UserSpace S, !UserSpaceLaws S} (bs : Z) `{!DriverLaws D bs}.
Hypothesis Hbs : 512 ≤ bs ≤ MAX_LOGICAL_BLOCK_SIZE.

(** Reading a device into a caller's buffer, in batches and page by page:
    [Ok n] means that exactly the first [n] bytes of the buffer now hold the
    bytes of the device, and [n] is short of the range only when a page of the
    buffer cannot be written, an allocation fails or the driver does; an error
    leaves the caller's memory as it was. The disk never changes. *)
Theorem read_into_correct d offset sink (s : BSys D S) o (Hd : device_ok bs d) (Hoff : 0 ≤ offset)
    (Hok : buffer_ok (user s) sink) :
  let count := Z.to_nat (Z.min (Z.of_nat (buffer_len sink)) (Z.max 0 (block_count d * bs - offset))) in
  wp (read_into d offset sink) (λ r s' _,
     same (disk s) (disk s') ∧
     match r with
     | Ok n => (n ≤ count)%nat ∧ stored (user s) (user s') sink 0 (contents (disk s) (base bs d + offset) n) ∧
         ((n < count)%nat → (0 < n)%nat ∧ (healthy (disk s) → short_reason (S:=S) FaultWrite o))
     | Err e => stored (user s) (user s') sink 0 [] ∧ (healthy (disk s) → short_reason (S:=S) FaultWrite o)
     end) s o.
Proof using All.
  destruct (device_facts bs Hbs d Hd) as (_ & _ & _ & Esz).
  assert (Z.to_nat (Z.min (Z.of_nat (buffer_len sink)) (Z.max 0 (block_count d * bs - offset))) =
    read_count d offset (buffer_len sink)) as -> by (unfold read_count, saturating_sub; by rewrite Esz).
  eapply wp_mono; [by apply (read_into_spec bs Hbs)|]. intros [n|e] s' o' Hr.
  - destruct Hr as (Hn & Hpos & (Hs & _ & Hst) & Hwhy). split_and!; [done|done|done|]. intros Hlt. split; [lia|by auto].
  - destruct Hr as ((Hs & _ & Hst) & Hwhy). split_and!; [done|done|]. intros Hy. destruct (Hwhy Hy) as [[_ ?]|[_ ?]]; [by left|by right].
Qed.

(** C38: Writing a device from a caller's buffer: the caller's memory is only
    read, nothing outside the device changes, and when the call reports the
    whole buffer the device holds its bytes and is otherwise unchanged. With a
    healthy writable driver every report is exact: the reported bytes were
    written and no other, and a short count has a reason. *)
Theorem write_from_correct d offset source (data : list Z) (s : BSys D S) o (Hd : device_ok bs d) (Hoff : 0 ≤ offset < two64)
    (Hok : buffer_ok (user s) source) (Hdata : source_bytes (user s) source data) :
  wp (write_from d offset source) (λ r s' _,
     same_bytes (user s) (user s') ∧ confined (disk s) (disk s') (base bs d) (block_count d * bs) ∧
     match r with
     | Ok n => (n ≤ length data)%nat ∧
         (n = length data → written (disk s) (disk s') (base bs d + offset) data) ∧
         (healthy (disk s) → writable d = true →
           written (disk s) (disk s') (base bs d + offset) (take n data) ∧
           ((n < length data)%nat → short_reason (S:=S) FaultRead o ∨ block_count d * bs < offset + Z.of_nat (length data)))
     | Err e => healthy (disk s) → writable d = true → same (disk s) (disk s') ∧
         (short_reason (S:=S) FaultRead o ∨ block_count d * bs < offset + Z.of_nat (length data))
     end) s o.
Proof using All.
  destruct (device_facts bs Hbs d Hd) as (_ & _ & _ & Esz).
  eapply wp_mono; [by apply (write_from_spec bs Hbs d offset source data)|]. intros r s' o' (Hu & _ & Hc & Hr).
  split_and!; [done|done|]. destruct r as [n|e]; rewrite Esz in Hr; [|done].
  destruct Hr as (Hn & Hall & Hgood). split_and!; [done| |].
  - intros E. destruct (Hall E) as (_ & _ & Hw). by rewrite E, firstn_all in Hw.
  - intros Hy Hw. destruct (Hgood Hy Hw) as [(_ & _ & ?) ?]. done.
Qed.
End user_theorems.

(** ** A concrete disk *)

(** A medium as a function, and callbacks that always succeed. *)
Record DemoDisk : Type := mkDisk { image : Z → Z }.
Definition demo_range (s : DemoDisk) (a : Z) (n : nat) : list Z := List.map (λ i, image s (a + Z.of_nat i)) (seq 0 n).
#[export] Instance demo_driver : Driver DemoDisk := {|
  pin _ := Ok ();
  cb_read lba _ buffer s := (0, demo_range s (lba * 512) (length buffer), s);
  cb_write lba blocks buffer s :=
    (0, mkDisk (λ v, if decide (lba * 512 ≤ v < lba * 512 + blocks * 512) then nth (Z.to_nat (v - lba * 512)) buffer 0 else image s v));
  cb_flush s := (0, s);
  cb_discard _ _ s := (0, s);
  medium := image;
|}.
#[export] Instance demo_driver_laws : DriverLaws DemoDisk 512.
Proof.
  refine {| healthy := λ _, True |}.
  - done.
  - intros lba blocks buffer s. simpl. unfold demo_range. rewrite length_map, length_seq. split_and!; try done.
  - intros lba blocks buffer s. simpl. split_and!; [by intros _|by intros v Hv; simpl; rewrite decide_False|].
    intros _ Hl. apply list_eq. intros i. rewrite contents_lookup. case_decide as Hi; [|by rewrite lookup_ge_None_2 by lia].
    simpl. rewrite decide_True by lia. replace (Z.to_nat (lba * 512 + Z.of_nat i - lba * 512)) with i by lia.
    symmetry. destruct (lookup_lt_is_Some_2 buffer i Hi) as [x Hx]. by rewrite Hx, (nth_lookup_Some _ _ _ _ Hx).
  - done.
  - intros lba blocks s. split; [by intros _|done].
Defined.

(** A disk of 64 blocks with an MBR: a Linux partition at blocks 2 to 9 and a
    second one at blocks 16 to 31. *)
Definition demo_sector : list Z :=
  replicate 446 0 ++
  ([0; 0; 0; 0; 0x83; 0; 0; 0] ++ to_le 4 2 ++ to_le 4 8) ++ ([0; 0; 0; 0; 0x83; 0; 0; 0] ++ to_le 4 16 ++ to_le 4 16) ++
  replicate 32 0 ++ [0x55; 0xaa].
Definition demo_disk : DemoDisk := mkDisk (λ v, nth (Z.to_nat v) demo_sector 0).
Definition demo_ops : BlockOps := mkOps 512 3 64 true true false false.
Definition demo_device : BlockDevice := mkDevice (ModuleBackend demo_ops) 512 3 64.
Definition demo_first : Partition := mkPartition 1 2 8.
Definition demo_second : Partition := mkPartition 2 16 16.

Lemma demo_device_ok : device_ok 512 demo_device.
Proof. simpl. unfold u32_max. split_and!; done || lia. Qed.
Lemma demo_bs : 512 ≤ 512 ≤ MAX_LOGICAL_BLOCK_SIZE.
Proof. unfold MAX_LOGICAL_BLOCK_SIZE. lia. Qed.
Lemma demo_bytes_ok : bytes_ok demo_disk.
Proof.
  intros v. change (is_byte (nth (Z.to_nat v) demo_sector 0)).
  destruct (nth_in_or_default (Z.to_nat v) demo_sector 0) as [Hin|E]; [|rewrite E; unfold is_byte; lia].
  assert (Forall is_byte demo_sector) as Hall by (apply (bool_decide_unpack _); vm_compute; exact I).
  rewrite Forall_forall in Hall. by apply Hall, list_elem_of_In.
Qed.
(** The outcome of a run without its state. *)
Definition outcome {St A} (x : option (A * St * oracle)) : option A := match x with Some (a, _, _) => Some a | None => None end.
Lemma demo_discover : outcome (discover demo_device demo_disk []) = Some (Ok [demo_first; demo_second]).
Proof. vm_compute. reflexivity. Qed.

Lemma read_bytes_correct_witness :
  wp (read_bytes demo_device 500 (replicate 2000 0)) (λ p s' _,
     same demo_disk s' ∧
     match p.2 with
     | Ok n => Z.of_nat n = 2000 ∧ p.1 = contents demo_disk 500 n ++ drop n (replicate 2000 0)
     | Err e => healthy (bs:=512) demo_disk → e = OutOfMemory ∧ false ∈ []
     end) demo_disk [].
Proof.
  assert (Z.of_nat (length (replicate 2000 0)) < 4294967296 * 512) as Hl by (rewrite length_replicate; lia).
  pose proof (read_bytes_correct 512 demo_bs demo_device 500 (replicate 2000 0) demo_disk [] demo_device_ok ltac:(lia) Hl) as Hr.
  rewrite length_replicate in Hr. exact Hr.
Defined.

(** Ten bytes across the boundary of two blocks. *)
Definition demo_bytes_written : list Z := [1; 2; 3; 4; 5; 6; 7; 8; 9; 10].
Lemma demo_bytes_length : Z.of_nat (length demo_bytes_written) < 4294967296 * 512.
Proof. simpl. lia. Qed.

Lemma write_bytes_correct_witness :
  outcome (write_bytes demo_device 508 demo_bytes_written demo_disk []) = Some (Ok 10%nat) ∧
  wp (write_bytes demo_device 508 demo_bytes_written) (λ r s' _,
     match r with
     | Ok n => n = 10%nat ∧ 508 + Z.of_nat n ≤ 64 * 512 ∧ written demo_disk s' 508 demo_bytes_written
     | Err e =>
         if decide (508 + 10 ≤ 64 * 512) then
           confined demo_disk s' (cover_start 512 demo_device 508) (cover_size 512 508 demo_bytes_written) ∧
           (healthy (bs:=512) demo_disk → true = true → e = OutOfMemory ∧ false ∈ [])
         else s' = demo_disk ∧ (e = NoSpace ∨ e = InvalidArgument)
     end) demo_disk [].
Proof.
  split; [vm_compute; reflexivity|].
  exact (write_bytes_correct 512 demo_bs demo_device 508 demo_bytes_written demo_disk [] demo_device_ok ltac:(lia) demo_bytes_length).
Defined.

Lemma write_read_roundtrip_witness :
  wp (let* w := write_bytes demo_device 508 demo_bytes_written in
      let* r := read_bytes demo_device 508 (replicate 10 0) in
      ret (w, r)) (λ '(w, r) _ _, ∀ n m, w = Ok n → r.2 = Ok m → r.1 = demo_bytes_written ∧ m = 10%nat) demo_disk [].
Proof.
  exact (write_read_roundtrip 512 demo_bs demo_device 508 demo_bytes_written demo_disk [] demo_device_ok ltac:(lia) demo_bytes_length).
Defined.

Lemma discover_correct_witness :
  outcome (discover demo_device demo_disk []) = Some (Ok [demo_first; demo_second]) ∧
  disjoint_parts demo_first demo_second.
Proof.
  split; [exact demo_discover|].
  pose proof (discover_correct 512 demo_bs demo_device demo_disk [] demo_device_ok demo_bytes_ok) as Hd.
  pose proof demo_discover as Ho. unfold wp in Hd. destruct (discover demo_device demo_disk []) as [[[r s'] o']|]; [|done].
  simpl in Ho. injection Ho as ->. destruct Hd as (_ & Hd). destruct (Hd _ eq_refl) as (_ & _ & _ & Hdj).
  apply Hdj; [left|right; left|discriminate].
Defined.

Lemma partition_isolation_witness :
  outcome (discover demo_device demo_disk []) = Some (Ok [demo_first; demo_second]) ∧
  wp (discover demo_device) (λ r s1 _, r = Ok [demo_first; demo_second] →
     wp (write_bytes (partition_device demo_device demo_first) 100 demo_bytes_written) (λ _ s2 _,
        confined s1 s2 (0 + 2 * 512) (8 * 512) ∧
        contents s2 (base 512 (partition_device demo_device demo_second) + 7) 20 =
        contents s1 (base 512 (partition_device demo_device demo_second) + 7) 20) s1 []) demo_disk [].
Proof.
  split; [exact demo_discover|].
  eapply wp_mono; [exact (partition_isolation 512 demo_bs demo_device demo_disk [] demo_device_ok demo_bytes_ok)|].
  intros r s1 o1 Hi Hr. eapply wp_mono; [apply (Hi _ demo_first demo_second Hr); [left|right; left|discriminate|lia|exact demo_bytes_length]|].
  intros r' s2 o2 [Hc Hq]. split; [exact Hc|]. apply Hq; simpl; lia.
Defined.

(** The same disk with the user space of [MemIoTheorems]. *)
Definition demo_sys : BSys DemoDisk DemoSpace := mkBSys demo_disk (mkIo [] (mkDemo ∅)).
Definition demo_user : Buffer := BUser 65536 600.
Lemma demo_user_ok : buffer_ok (user demo_sys) demo_user.
Proof. split; simpl; [lia|]. split; [lia|right; lia]. Qed.

Lemma read_into_correct_witness :
  outcome (read_into demo_device 10 demo_user demo_sys []) = Some (Ok 600%nat) ∧
  let count := Z.to_nat (Z.min (Z.of_nat (buffer_len demo_user)) (Z.max 0 (block_count demo_device * 512 - 10))) in
  wp (read_into demo_device 10 demo_user) (λ r s' _,
     same (disk demo_sys) (disk s') ∧
     match r with
     | Ok n => (n ≤ count)%nat ∧
         stored (user demo_sys) (user s') demo_user 0 (contents (disk demo_sys) (base 512 demo_device + 10) n) ∧
         ((n < count)%nat → (0 < n)%nat ∧ (healthy (bs:=512) (disk demo_sys) → short_reason (S:=DemoSpace) FaultWrite []))
     | Err e => stored (user demo_sys) (user s') demo_user 0 [] ∧
         (healthy (bs:=512) (disk demo_sys) → short_reason (S:=DemoSpace) FaultWrite [])
     end) demo_sys [].
Proof.
  split; [vm_compute; reflexivity|].
  exact (read_into_correct 512 demo_bs demo_device 10 demo_user demo_sys [] demo_device_ok ltac:(lia) demo_user_ok).
Defined.

Lemma demo_user_bytes : source_bytes (user demo_sys) demo_user (replicate 600 0).
Proof. split; [done|]. intros i x Hx. apply lookup_replicate in Hx as [-> _]. done. Qed.
Definition demo_zeros : list Z := replicate 600 0.
Lemma write_from_correct_witness :
  outcome (write_from demo_device 1000 demo_user demo_sys []) = Some (Ok 600%nat) ∧
  wp (write_from demo_device 1000 demo_user) (λ r s' _,
     same_bytes (user demo_sys) (user s') ∧
     confined (disk demo_sys) (disk s') (base 512 demo_device) (block_count demo_device * 512) ∧
     match r with
     | Ok n => (n ≤ length demo_zeros)%nat ∧
         (n = length demo_zeros → written (disk demo_sys) (disk s') (base 512 demo_device + 1000) demo_zeros) ∧
         (healthy (bs:=512) (disk demo_sys) → writable demo_device = true →
           written (disk demo_sys) (disk s') (base 512 demo_device + 1000) (take n demo_zeros) ∧
           ((n < length demo_zeros)%nat →
             short_reason (S:=DemoSpace) FaultRead [] ∨ block_count demo_device * 512 < 1000 + Z.of_nat (length demo_zeros)))
     | Err e => healthy (bs:=512) (disk demo_sys) → writable demo_device = true → same (disk demo_sys) (disk s') ∧
         (short_reason (S:=DemoSpace) FaultRead [] ∨ block_count demo_device * 512 < 1000 + Z.of_nat (length demo_zeros))
     end) demo_sys [].
Proof.
  split; [vm_compute; reflexivity|].
  exact (write_from_correct 512 demo_bs demo_device 1000 demo_user demo_zeros demo_sys [] demo_device_ok ltac:(lia)
    demo_user_ok demo_user_bytes).
Defined.

