(* ===== verification/UserCopy.v ===== *)
(** Copies between kernel buffers and an address space, page by page:
    [VmSpace::read_user], [VmSpace::write_user] and [VmSpace::copy_user] of
    [mem/pmap.rs]. Resolving, pinning and rechecking the page of an address is
    [pin_user_page] of the class [UserSpace]. *)
From S2P Require Import Prelude.
From S2P Require Import Bytes.
From S2P Require Import Index.
From S2P Require Import VmMap.
From S2P Require Import MemIo.
Open Scope rust_scope.

Section copy.
Context {S : Type} `{!UserSpace S}.
Variable arch : Arch.

(** The address space, and the kernel buffer the transfer closure captures. *)
Record Copy : Type := mkCopy { user : S; kbuf : list Z }.

(** [copy_user]: [transfer current span copied] moves the [span] bytes at
    [current], of which [copied] are before. The fuel is the length, of which
    each page takes at least a byte. *)
Fixpoint copy_loop (fuel : nat) (address : Z) (length : nat) (access : FaultAccess)
    (transfer : Z → nat → nat → Copy → Copy) (copied : nat) : M Copy (result Error ()) :=
  if (copied <? length)%nat then
    match fuel with
    | O => panic
    | Datatypes.S fuel =>
        let! current := ret (ok_or (checked_add address (Z.of_nat copied)) InvalidAddress) in
        let page_offset := current mod PAGE_SIZE in
        let span := Nat.min (Z.to_nat (PAGE_SIZE - page_offset)) (length - copied) in
        let* c := get in
        let '(pinned, user') := pin_user_page access current (user c) in
        do modify (λ c, mkCopy user' (kbuf c)) then
        let! _ := ret pinned in
        do modify (transfer current span copied) then
        copy_loop fuel address length access transfer (copied + span)
    end
  else ret (Ok ()).
Definition copy_user (address : Z) (length : nat) (access : FaultAccess)
    (transfer : Z → nat → nat → Copy → Copy) : M Copy (result Error ()) :=
  let! _ := ret (validate_user_range arch address length) in
  copy_loop length address length access transfer 0.

(** [page.read] into the output, [page.write] from the input. *)
Definition transfer_read (current : Z) (span copied : nat) (c : Copy) : Copy :=
  mkCopy (user c) (copy_into (kbuf c) copied (user_bytes (user c) current span)).
Definition transfer_write (current : Z) (span copied : nat) (c : Copy) : Copy :=
  mkCopy (user_write current (slice (kbuf c) copied (copied + span)) (user c)) (kbuf c).

Definition with_kbuf {A} (b : list Z) (m : M Copy A) : M S (A * list Z) :=
  λ s o, match m (mkCopy s b) o with
         | Some (a, c, o') => Some ((a, kbuf c), user c, o')
         | None => None
         end.

(** [read_user] into a buffer of [n] bytes; [write_user] of [input]. *)
Definition read_user (address : Z) (n : nat) : M S (result Error (list Z)) :=
  let* r := with_kbuf (replicate n 0) (copy_user address n FaultRead transfer_read) in
  ret (match r.1 with Ok _ => Ok r.2 | Err e => Err e end).
Definition write_user (address : Z) (input : list Z) : M S (result Error ()) :=
  let* r := with_kbuf input (copy_user address (length input) FaultWrite transfer_write) in
  ret r.1.
End copy.

Section spec.
Context {S : Type} `{!UserSpace S, !UserSpaceLaws S}.
Variable arch : Arch.
Implicit Types (s : S).

Definition same_user s s' : Prop := ∀ a, user_byte s' a = user_byte s a.

(** A page of the range that cannot be faulted in. *)
Definition faults (access : FaultAccess) (address : Z) (n : nat) (e : Error) : Prop :=
  ∃ a s, address ≤ a < address + Z.of_nat n ∧ (pin_user_page access a s).1 = Err e.
Definition bad_range (address : Z) (n : nat) : Prop :=
  n ≠ 0%nat ∧ (address < USER_ADDRESS_MIN ∨ USER_ADDRESS_MAX arch < address + Z.of_nat n).

Lemma validate_spec address n :
  0 ≤ address →
  match validate_user_range arch address n with
  | Ok _ => ¬ bad_range address n ∧ (n ≠ 0%nat → address + Z.of_nat n < two64)
  | Err e => e = InvalidAddress ∧ bad_range address n
  end.
Proof.
  intros Ha. unfold validate_user_range, bad_range.
  assert (USER_ADDRESS_MAX arch < two64) by (by destruct arch).
  destruct (Nat.eqb_spec n 0) as [->|Hn0]; [split; [tauto|done]|].
  destruct (checked_add address (Z.of_nat n)) as [e|] eqn:E; simpl; [|apply checked_add_None in E; split_and!; [done|done|lia]].
  apply checked_add_Some in E as [-> Hlt].
  destruct (Z.ltb_spec address USER_ADDRESS_MIN); simpl; [by auto|].
  destruct (Z.ltb_spec (USER_ADDRESS_MAX arch) (address + Z.of_nat n)); simpl; [by auto|].
  destruct (Z.leb_spec (address + Z.of_nat n) address); simpl; [lia|]. split; [lia|done].
Qed.

Lemma length_user_bytes s a n : length (user_bytes s a n) = n.
Proof. unfold user_bytes. by rewrite length_fmap, length_seq. Qed.
Lemma lookup_user_bytes s a n i :
  user_bytes s a n !! i = if decide (i < n)%nat then Some (user_byte s (a + Z.of_nat i)) else None.
Proof.
  unfold user_bytes. rewrite list_lookup_fmap. case_decide; [by rewrite lookup_seq_lt|by rewrite lookup_seq_ge by lia].
Qed.
Lemma user_bytes_app s a n m : user_bytes s a (n + m) = user_bytes s a n ++ user_bytes s (a + Z.of_nat n) m.
Proof.
  apply list_eq. intros i. rewrite lookup_user_bytes. destruct (decide (i < n)%nat).
  - rewrite lookup_app_l by (by rewrite length_user_bytes). rewrite lookup_user_bytes, !decide_True by lia. done.
  - rewrite lookup_app_r by (rewrite length_user_bytes; lia). rewrite length_user_bytes, lookup_user_bytes.
    repeat case_decide; try lia; [|done]. do 2 f_equal. lia.
Qed.
Lemma user_bytes_same s s' a n : same_user s s' → user_bytes s' a n = user_bytes s a n.
Proof. intros Hs. apply list_eq. intros i. rewrite !lookup_user_bytes. case_decide; [by rewrite Hs|done]. Qed.

(** The bytes at [address] are [bytes], and the rest is as before. *)
Definition user_stored s s' (address : Z) (bytes : list Z) : Prop :=
  user_bytes s' address (length bytes) = bytes ∧
  ∀ a, ¬ (address ≤ a < address + Z.of_nat (length bytes)) → user_byte s' a = user_byte s a.

(** The loop, for a transfer whose effect up to [copied] is [P]. *)
Lemma copy_loop_spec fuel address n access transfer (P : nat → Copy → Prop) : ∀ copied c o,
  (n - copied ≤ fuel)%nat → (copied ≤ n)%nat → 0 ≤ address → address + Z.of_nat n < two64 →
  P copied c →
  (∀ k c a, P k c → P k (mkCopy (pin_user_page access a (user c)).2 (kbuf c))) →
  (∀ k c span, P k c → (k + span ≤ n)%nat → P (k + span)%nat (transfer (address + Z.of_nat k) span k c)) →
  wp (copy_loop fuel address n access transfer copied) (λ r c' o', o' = o ∧
     match r with
     | Ok _ => P n c'
     | Err e => faults access address n e ∧ ∃ k, (k < n)%nat ∧ P k c'
     end) c o.
Proof.
  induction fuel as [|fuel IH]; intros copied c o Hf Hc Ha Hw HP Hpin Htr; simpl;
    (destruct (Nat.ltb_spec copied n); [|wp_step; split; [done|by replace n with copied by lia]]); [lia|].
  do 2 wp_step. assert (checked_add address (Z.of_nat copied) = Some (address + Z.of_nat copied)) as -> by (apply checked_add_Some; lia).
  cbn [ok_or]. do 2 wp_step. pose proof (Hpin copied c (address + Z.of_nat copied) HP) as HP1.
  destruct (pin_user_page access (address + Z.of_nat copied) (user c)) as [r s'] eqn:Ep. simpl in HP1.
  do 4 wp_step. destruct r as [[]|e].
  - do 2 wp_step. pose proof (Z.mod_pos_bound (address + Z.of_nat copied) PAGE_SIZE). unfold PAGE_SIZE in *.
    apply IH; [lia|lia|done|done|by apply Htr; [|lia]|done|done].
  - split; [done|]. split; [|by exists copied]. exists (address + Z.of_nat copied), (user c). split; [lia|by rewrite Ep].
Qed.

Lemma read_user_spec s address n o :
  0 ≤ address →
  wp (read_user arch address n) (λ r s' o', o' = o ∧ same_user s s' ∧
     match r with
     | Ok bytes => ¬ bad_range address n ∧ bytes = user_bytes s address n
     | Err e => (e = InvalidAddress ∧ bad_range address n) ∨ faults FaultRead address n e
     end) s o.
Proof.
  intros Ha. unfold read_user. wp_step. unfold with_kbuf.
  assert (wp (copy_user arch address n FaultRead transfer_read) (λ r c' o', o' = o ∧ same_user s (user c') ∧
     match r with
     | Ok _ => ¬ bad_range address n ∧ kbuf c' = user_bytes s address n
     | Err e => (e = InvalidAddress ∧ bad_range address n) ∨ faults FaultRead address n e
     end) (mkCopy s (replicate n 0)) o) as Hw.
  { unfold copy_user. do 2 wp_step. pose proof (validate_spec address n Ha) as Hv.
    destruct (validate_user_range arch address n) as [[]|e]; [|split_and!; [done|done|by left]]. destruct Hv as [Hg Hb].
    destruct (decide (n = 0%nat)) as [->|Hn]; [simpl; wp_step; done|].
    eapply wp_mono; [apply (copy_loop_spec n address n FaultRead transfer_read
      (λ k c, length (kbuf c) = n ∧ same_user s (user c) ∧ take k (kbuf c) = user_bytes s address k) 0); [lia|lia|done|by apply Hb| | |]|].
    - simpl. rewrite length_replicate. done.
    - intros k c a (Hl & Hs & Ht). split_and!; try done. intros v. simpl. by rewrite pin_keeps.
    - intros k c span (Hl & Hs & Ht) Hk. unfold transfer_read. simpl.
      assert (length (user_bytes (user c) (address + Z.of_nat k) span) = span) as Hlu by apply length_user_bytes.
      split; [rewrite length_copy_into; lia|]. split; [done|]. unfold copy_into. rewrite (assoc_L app).
      rewrite take_app_le by (rewrite length_app, length_take; lia).
      rewrite take_ge by (rewrite length_app, length_take; lia). by rewrite Ht, user_bytes_app, (user_bytes_same s (user c)) by done.
    - intros [[]|e] c' o' (-> & Hr).
      + destruct Hr as (Hl & Hs & Ht). split_and!; try done. by rewrite <- Ht, take_ge by lia.
      + destruct Hr as (Hf & k & _ & (_ & Hs & _)). split_and!; [done|done|by right]. }
  unfold wp in *. destruct (copy_user _ _ _ _ _ _ _) as [[[r c'] o']|]; [|done]. destruct Hw as (-> & Hs & Hr).
  simpl. destruct r; done.
Qed.

Lemma write_user_spec s address input o :
  0 ≤ address →
  wp (write_user arch address input) (λ r s' o', o' = o ∧
     match r with
     | Ok _ => ¬ bad_range address (length input) ∧ user_stored s s' address input
     | Err e => (e = InvalidAddress ∧ bad_range address (length input) ∧ s' = s) ∨
         (faults FaultWrite address (length input) e ∧
          ∃ k, (k < length input)%nat ∧ user_stored s s' address (take k input))
     end) s o.
Proof.
  intros Ha. unfold write_user. wp_step. unfold with_kbuf. set (n := length input).
  assert (wp (copy_user arch address n FaultWrite transfer_write) (λ r c' o', o' = o ∧
     match r with
     | Ok _ => ¬ bad_range address n ∧ user_stored s (user c') address input
     | Err e => (e = InvalidAddress ∧ bad_range address n ∧ user c' = s) ∨
         (faults FaultWrite address n e ∧ ∃ k, (k < n)%nat ∧ user_stored s (user c') address (take k input))
     end) (mkCopy s input) o) as Hw.
  { unfold copy_user. do 2 wp_step. pose proof (validate_spec address n Ha) as Hv.
    destruct (validate_user_range arch address n) as [[]|e]; [|split; [done|left; by destruct Hv]]. destruct Hv as [Hg Hb].
    destruct (decide (n = 0%nat)) as [Hn|Hn].
    { rewrite Hn. simpl. wp_step. split; [done|]. rewrite <- Hn. split; [done|]. destruct input; [|done]. done. }
    eapply wp_mono; [apply (copy_loop_spec n address n FaultWrite transfer_write
      (λ k c, kbuf c = input ∧ user_stored s (user c) address (take k input)) 0); [lia|lia|done|by apply Hb| | |]|].
    - done.
    - intros k c a (Hl & H1 & H2). split; [done|]. split; simpl.
      + rewrite <- H1 at 2. apply user_bytes_same. intros v. apply pin_keeps.
      + intros v Hv. by rewrite pin_keeps, H2.
    - intros k c span (Hl & H1 & H2) Hk. unfold transfer_write. simpl. split; [done|]. rewrite Hl.
      rewrite length_take_le in H1, H2 by (unfold n in Hk; lia).
      assert (length (slice input k (k + span)) = span) as Hls by (rewrite length_slice; unfold n in Hk; lia).
      assert (take (k + span) input = take k input ++ slice input k (k + span)) as Htk.
      { unfold slice. rewrite Nat.add_comm, Nat.add_sub, Nat.add_comm. rewrite <- (take_drop k (take (k + span) input)).
        f_equal; [rewrite take_take; f_equal; lia|]. rewrite skipn_firstn_comm. f_equal. lia. }
      split; rewrite length_take_le by (unfold n in Hk; lia).
      + rewrite user_bytes_app, Htk. f_equal.
        * rewrite <- H1. apply list_eq. intros i. rewrite !lookup_user_bytes. case_decide; [|done]. f_equal.
          apply write_outside. intros j Hj. lia.
        * apply list_eq. intros i. rewrite lookup_user_bytes. case_decide.
          -- destruct (lookup_lt_is_Some_2 (slice input k (k + span)) i) as [x Hx]; [lia|]. rewrite Hx. f_equal.
             by apply write_inside.
          -- symmetry. apply lookup_ge_None. lia.
      + intros v Hv. rewrite write_outside by (rewrite Hls; intros i Hi; lia). apply H2. lia.
    - intros [[]|e] c' o' (-> & Hr); (split; [done|]).
      + destruct Hr as [_ Hr]. rewrite take_ge in Hr by done. done.
      + right. destruct Hr as (Hf & k & Hk & _ & Hs). split; [done|]. by exists k. }
  unfold wp in *. destruct (copy_user _ _ _ _ _ _ _) as [[[r c'] o']|]; [|done]. destruct Hw as (-> & Hr).
  simpl. destruct r; done.
Qed.
End spec.
