(* ===== verification/Syscall.v ===== *)
(** The syscall ABI helpers ([syscall.rs]): error numbers, and reading strings,
    string arrays and small values from user memory. *)
From S2P Require Import Prelude.
From S2P Require Import Bytes.
From S2P Require Import Index.
From S2P Require Import FsError.
From S2P Require Import VmMap.
From S2P Require Import MemIo.
From S2P Require Import UserCopy.
Open Scope rust_scope.

(** [#[repr(i64)] enum Errno] *)
Inductive Errno : Type :=
| EPermission | ENoEntry | ENoProcess | EInterrupted | EIo | EBadFileDescriptor | ENoChild | ETryAgain
| EOutOfMemory | EAccess | EFault | EBusy | EExists | ECrossDevice | ENotDirectory | EIsDirectory
| EInvalid | ETooManyFiles | ENotTty | EFileTooLarge | ENoSpace | EIllegalSeek | EReadOnly | EBrokenPipe
| ERange | ENameTooLong | ENotImplemented | ENotEmpty | ELoop | EOverflow | ENotSupported | ETimedOut.
#[export] Instance Errno_eq_dec : EqDecision Errno.
Proof. solve_decision. Defined.
Definition errno_code (e : Errno) : Z :=
  match e with
  | EPermission => 1 | ENoEntry => 2 | ENoProcess => 3 | EInterrupted => 4 | EIo => 5
  | EBadFileDescriptor => 9 | ENoChild => 10 | ETryAgain => 11 | EOutOfMemory => 12 | EAccess => 13
  | EFault => 14 | EBusy => 16 | EExists => 17 | ECrossDevice => 18 | ENotDirectory => 20
  | EIsDirectory => 21 | EInvalid => 22 | ETooManyFiles => 24 | ENotTty => 25 | EFileTooLarge => 27
  | ENoSpace => 28 | EIllegalSeek => 29 | EReadOnly => 30 | EBrokenPipe => 32 | ERange => 34
  | ENameTooLong => 36 | ENotImplemented => 38 | ENotEmpty => 39 | ELoop => 40 | EOverflow => 75
  | ENotSupported => 95 | ETimedOut => 110
  end.

(** [raw_result]: the value of the result register, an [i64]. *)
Definition raw_result (r : result Errno Z) : Z :=
  match r with Ok value => to_i64 value | Err e => - errno_code e end.

Definition map_memory_error (e : Index.Error) : Errno :=
  match e with
  | Index.OutOfMemory | LimitExceeded => EOutOfMemory
  | InvalidAddress | NotMapped | Protection | AlreadyMapped => EFault
  | SwapUnavailable | CorruptSwap | Index.Io | Pmap => EIo
  end.

Definition map_fs_error (e : FsError.Error) : Errno :=
  match e with
  | NotFound => ENoEntry | AlreadyExists => EExists | NotDirectory => ENotDirectory
  | IllegalSeek => EIllegalSeek | IsDirectory => EIsDirectory | NotTty => ENotTty
  | Interrupted => EInterrupted | NotEmpty => ENotEmpty | CrossDevice => ECrossDevice
  | SymlinkLoop => ELoop | NameTooLong => ENameTooLong | InvalidArgument => EInvalid
  | Unsupported => ENotSupported | Busy => EBusy | WouldBlock => ETryAgain | NoSpace => ENoSpace
  | FileTooLarge => EFileTooLarge | PermissionDenied => EAccess | ReadOnly => EReadOnly
  | BadFileDescriptor => EBadFileDescriptor | OutOfMemory => EOutOfMemory | FsError.Io => EIo
  end.

Definition CHUNK : nat := 128.
Definition MAX_EXEC_ITEMS : nat := 256.
Definition MAX_EXEC_BYTES : Z := 65536.

(** [iter().position(f)] *)
Fixpoint position (f : Z → bool) (l : list Z) : option nat :=
  match l with
  | [] => None
  | b :: l => if f b then Some O else Datatypes.S <$> position f l
  end.

Section user.
Context {S : Type} `{!UserSpace S}.
Variable arch : Arch.

(** [read_user_bytes]; the fuel is the limit, of which each chunk takes at
    least a byte. *)
Fixpoint read_bytes_loop (fuel : nat) (address : Z) (limit offset : nat) (bytes : list Z) :
    M S (result Errno (list Z)) :=
  if (offset <? limit)%nat then
    match fuel with
    | O => panic
    | Datatypes.S fuel =>
        let! start := ret (ok_or (checked_add address (Z.of_nat offset)) EFault) in
        let page_remaining := Z.to_nat (PAGE_SIZE - start mod PAGE_SIZE) in
        let count := Nat.min (Nat.min page_remaining CHUNK) (limit - offset) in
        let* r := read_user arch start count in
        let! chunk := ret (map_err map_memory_error r) in
        match position (Z.eqb 0) chunk with
        | Some index => ret (Ok (bytes ++ take index chunk))
        | None => read_bytes_loop fuel address limit (offset + count) (bytes ++ chunk)
        end
    end
  else ret (Err ENameTooLong).
Definition read_user_bytes (address : Z) (limit : nat) : M S (result Errno (list Z)) :=
  read_bytes_loop limit address limit 0 [].
Definition read_user_path (address : Z) : M S (result Errno (list Z)) :=
  read_user_bytes address (Z.to_nat 4096).

Definition read_user_u64 (address : Z) : M S (result Errno Z) :=
  let* r := read_user arch address 8 in
  let! bytes := ret (map_err map_memory_error r) in
  ret (Ok (of_le bytes)).
Definition read_user_i32 (address : Z) : M S (result Errno Z) :=
  let* r := read_user arch address 4 in
  let! bytes := ret (map_err map_memory_error r) in
  let x := of_le bytes in
  ret (Ok (if x <? 2147483648 then x else x - 4294967296)).

(** [read_user_timespec]: the duration as seconds and nanoseconds. *)
Definition read_user_timespec (address : Z) : M S (result Errno (Z * Z)) :=
  let* r := read_user arch address 16 in
  let! bytes := ret (map_err map_memory_error r) in
  let seconds := to_i64 (of_le (take 8 bytes)) in
  let nanoseconds := to_i64 (of_le (drop 8 bytes)) in
  if (seconds <? 0) || negb ((0 <=? nanoseconds) && (nanoseconds <? 1000000000))
  then ret (Err EInvalid)
  else ret (Ok (seconds, nanoseconds)).

(** [read_user_path_array]: [n] items left of [MAX_EXEC_ITEMS]. *)
Fixpoint path_array_loop (n index : nat) (address : Z) (strings : list (list Z)) (total : Z) :
    M S (result Errno (list (list Z))) :=
  match n with
  | O => ret (Err EInvalid)
  | Datatypes.S n =>
      let! pointer_address := ret (ok_or (checked_add address (Z.of_nat index * 8)) EFault) in
      let! pointer := read_user_u64 pointer_address in
      if pointer =? 0 then ret (Ok strings)
      else
        let! string := read_user_path pointer in
        let! total := ret (ok_or (checked_add total (Z.of_nat (length string) + 1)) EOverflow) in
        if MAX_EXEC_BYTES <? total then ret (Err EInvalid)
        else path_array_loop n (Datatypes.S index) address (strings ++ [string]) total
  end.
Definition read_user_path_array (address : Z) : M S (result Errno (list (list Z))) :=
  if address =? 0 then ret (Ok [])
  else path_array_loop MAX_EXEC_ITEMS 0 address [] 0.
End user.

(** ** Strings in user memory *)

Lemma position_spec f l :
  match position f l with
  | Some i => (∃ b, l !! i = Some b ∧ f b = true) ∧ Forall (λ b, f b = false) (take i l)
  | None => Forall (λ b, f b = false) l
  end.
Proof.
  induction l as [|b l IH]; simpl; [done|]. destruct (f b) eqn:E; simpl; [split; [by exists b|done]|].
  destruct (position f l) as [i|]; simpl; [|by constructor]. destruct IH as [? ?]. split; [done|by constructor].
Qed.

Section spec.
Context {S : Type} `{!UserSpace S, !UserSpaceLaws S}.
Variable arch : Arch.
Implicit Types (s : S).

(** The bytes at [address] are [str] followed by a NUL. *)
Definition string_at s (address : Z) (str : list Z) : Prop :=
  user_bytes s address (length str) = str ∧ (0 ∉ str) ∧ user_byte s (address + Z.of_nat (length str)) = 0.

(** The bytes before [a] hold no NUL: the string has not ended there. *)
Definition before_nul s (address a : Z) : Prop := ∀ v, address ≤ v < a → user_byte s v ≠ 0.

Lemma no_nul_bytes s a n : Forall (λ b, (0 =? b) = false) (user_bytes s a n) → ∀ v, a ≤ v < a + Z.of_nat n → user_byte s v ≠ 0.
Proof.
  rewrite Forall_lookup. intros Hf v Hv E. specialize (Hf (Z.to_nat (v - a)) (user_byte s v)).
  rewrite lookup_user_bytes, decide_True in Hf by lia. rewrite Z2Nat.id, Zplus_minus in Hf by lia. by rewrite E in Hf; specialize (Hf eq_refl).
Qed.

(** Why reading the string fails: the string goes on up to a page that cannot
    be read, or to the end of user space. *)
Definition string_fault s (address : Z) (e : Errno) : Prop :=
  ∃ start count, address ≤ start ∧ before_nul s address start ∧ (0 < count)%nat ∧
    start / PAGE_SIZE = (start + Z.of_nat count - 1) / PAGE_SIZE ∧
    ((e = EFault ∧ (two64 ≤ start ∨ bad_range arch start count)) ∨
     ∃ x, e = map_memory_error x ∧ faults (S:=S) FaultRead start count x).

Definition string_post s (address : Z) (limit : nat) (r : result Errno (list Z)) : Prop :=
  match r with
  | Ok str => string_at s address str ∧ (length str < limit)%nat
  | Err e => (e = ENameTooLong ∧ before_nul s address (address + Z.of_nat limit)) ∨ string_fault s address e
  end.

Lemma same_page start n :
  0 ≤ start → (0 < n)%nat → Z.of_nat n ≤ PAGE_SIZE - start mod PAGE_SIZE →
  start / PAGE_SIZE = (start + Z.of_nat n - 1) / PAGE_SIZE.
Proof.
  unfold PAGE_SIZE. intros Hs Hn Hle. pose proof (Z.div_mod start 4096). pose proof (Z.mod_pos_bound start 4096).
  apply Z.div_unique with (r := start mod 4096 + Z.of_nat n - 1); lia.
Qed.

Lemma same_user_trans s0 s1 s2 : same_user s0 s1 → same_user s1 s2 → same_user s0 s2.
Proof. intros H1 H2 a. by rewrite H2. Qed.

Lemma read_bytes_loop_spec fuel address limit : ∀ offset bytes s0 s o,
  (limit - offset ≤ fuel)%nat → (offset ≤ limit)%nat → 0 ≤ address →
  same_user s0 s → bytes = user_bytes s0 address offset → before_nul s0 address (address + Z.of_nat offset) →
  wp (read_bytes_loop arch fuel address limit offset bytes)
     (λ r s' o', o' = o ∧ same_user s0 s' ∧ string_post s0 address limit r) s o.
Proof.
  induction fuel as [|fuel IH]; intros offset bytes s0 s o Hf Hle Ha Hs Hb Hn; simpl;
    (destruct (Nat.ltb_spec offset limit); [|wp_step; split_and!; [done|done|left; split; [done|]; by replace limit with offset by lia]]); [lia|].
  do 2 wp_step. destruct (checked_add address (Z.of_nat offset)) as [start|] eqn:Es; cbn [ok_or].
  2: { apply checked_add_None in Es. split_and!; [done|done|]. right. exists (address + Z.of_nat offset), 1%nat.
       split_and!; [lia|done|lia|f_equal; lia|]. left. split; [done|by left]. }
  apply checked_add_Some in Es as [-> Hw]. wp_step.
  set (start := address + Z.of_nat offset) in *.
  set (count := Nat.min (Nat.min (Z.to_nat (PAGE_SIZE - start mod PAGE_SIZE)) CHUNK) (limit - offset)).
  pose proof (Z.mod_pos_bound start PAGE_SIZE ltac:(done)) as Hmod.
  assert (0 < count ≤ limit - offset)%nat as Hc by (unfold count, CHUNK, PAGE_SIZE in *; lia).
  assert (start / PAGE_SIZE = (start + Z.of_nat count - 1) / PAGE_SIZE) as Hp.
  { apply same_page; [lia|lia|]. unfold count. lia. }
  eapply wp_mono; [apply read_user_spec; lia|]. intros [chunk|e] s1 o1 (-> & Hs1 & Hr); cbn [map_err]; do 2 wp_step.
  2: { split_and!; [done|by eapply same_user_trans|]. right. exists start, count. split_and!; [lia|done|lia|done|].
       destruct Hr as [[-> ?]|Hfl]; [left; split; [done|by right]|right; by exists e]. }
  destruct Hr as [_ Hch]. rewrite (user_bytes_same s0 s) in Hch by done. pose proof (position_spec (Z.eqb 0) chunk) as Hpos.
  destruct (position (Z.eqb 0) chunk) as [i|].
  - wp_step. split_and!; [done|by eapply same_user_trans|]. destruct Hpos as [(b & Hi & Hz%Z.eqb_eq) Hall]. subst b.
    assert (i < count)%nat as Hlt by (apply lookup_lt_Some in Hi; rewrite Hch, length_user_bytes in Hi; done).
    assert (take i chunk = user_bytes s0 start i) as Ht.
    { rewrite Hch. replace count with (i + (count - i))%nat by lia. rewrite user_bytes_app. apply take_app_length'. by rewrite length_user_bytes. }
    rewrite Ht in Hall |- *. rewrite Hb. unfold start. rewrite <- user_bytes_app. split; [|rewrite length_user_bytes; lia].
    split_and!; [by rewrite length_user_bytes| |].
    + intros Hin. apply list_elem_of_lookup in Hin as [j Hj]. rewrite lookup_user_bytes in Hj. case_decide; [|done]. injection Hj as Hj.
      destruct (decide (j < offset)%nat); [by apply (Hn (address + Z.of_nat j)); [lia|]|].
      apply (no_nul_bytes s0 start i Hall (address + Z.of_nat j)); [lia|done].
    + rewrite length_user_bytes. rewrite Hch, lookup_user_bytes, decide_True in Hi by done. injection Hi as Hi. rewrite <- Hi. f_equal. lia.
  - apply (IH _ _ s0); [lia|lia|done|by eapply same_user_trans| |].
    + rewrite Hb, Hch. unfold start. by rewrite user_bytes_app.
    + intros v Hv. destruct (decide (v < start)); [apply Hn; lia|]. rewrite Hch in Hpos. apply (no_nul_bytes _ _ _ Hpos). lia.
Qed.
End spec.
