(* ===== verification/SyscallTheorems.v ===== *)
(** The properties of the syscall helpers ([syscall.rs]). *)
From S2P Require Import Prelude.
From S2P Require Import Bytes.
From S2P Require Import Index.
From S2P Require Import FsError.
From S2P Require Import VmMap.
From S2P Require Import MemIo.
From S2P Require Import MemIoSpec.
From S2P Require Import MemIoTheorems.
From S2P Require Import UserCopy.
From S2P Require Import Syscall.
Open Scope rust_scope.

Section theorems.
Context {S : Type} `{!UserSpace S, !UserSpaceLaws S}.
Variable arch : Arch.
Implicit Types (s : S).

Lemma read_user_bytes_spec s address limit o :
  0 ≤ address →
  wp (read_user_bytes arch address limit) (λ r s' o', o' = o ∧ same_user s s' ∧ string_post arch s address limit r) s o.
Proof.
  intros Ha. apply read_bytes_loop_spec; [lia|lia|done|done|done|]. intros v Hv. lia.
Qed.

(** [read_user_bytes] returns the bytes up to the first NUL, fewer than
    the limit, and changes no byte of user memory; it fails only for a string
    without a NUL within the limit, or one that goes on into memory that
    cannot be read. *)
Theorem read_user_bytes_correct s address limit o :
  0 ≤ address →
  wp (read_user_bytes arch address limit) (λ r s' _, same_user s s' ∧ string_post arch s address limit r) s o.
Proof. intros Ha. eapply wp_mono; [by apply read_user_bytes_spec|]. by intros r s' o' [_ H]. Qed.

Lemma page_bound a m : 0 ≤ a → (PAGE_SIZE | m) → a < m → a / PAGE_SIZE * PAGE_SIZE + PAGE_SIZE ≤ m.
Proof.
  unfold PAGE_SIZE. intros Ha [k ->] Hlt. assert (a / 4096 < k) by (apply Z.div_lt_upper_bound; lia). lia.
Qed.

(** A chunk that starts in user space stays there, both ends of which are
    page boundaries. *)
Lemma chunk_in_range start count :
  USER_ADDRESS_MIN ≤ start < USER_ADDRESS_MAX arch → (0 < count)%nat →
  start / PAGE_SIZE = (start + Z.of_nat count - 1) / PAGE_SIZE → ¬ bad_range arch start count.
Proof.
  intros Hs Hc Hp [_ [H|H]]; [lia|].
  assert (start + Z.of_nat count - 1 < USER_ADDRESS_MAX arch); [|lia].
  pose proof (page_bound start (USER_ADDRESS_MAX arch)) as Hb. rewrite Hp in Hb.
  assert (PAGE_SIZE | USER_ADDRESS_MAX arch) as Hd by (destruct arch; [by exists 34359738368|by exists 67108864]).
  assert (USER_ADDRESS_MIN = 65536) as Hmin by done.
  specialize (Hb ltac:(lia) Hd ltac:(lia)). pose proof (Z.div_mod (start + Z.of_nat count - 1) PAGE_SIZE).
  pose proof (Z.mod_pos_bound (start + Z.of_nat count - 1) PAGE_SIZE). unfold PAGE_SIZE in *. lia.
Qed.

(** a string that ends before the limit is read whenever the pages that
    hold its bytes and its NUL can be read: the page after them is never
    touched. *)
Theorem read_user_bytes_stays s address str limit o :
  string_at s address str → (length str < limit)%nat →
  USER_ADDRESS_MIN ≤ address → address + Z.of_nat (length str) < USER_ADDRESS_MAX arch →
  (∀ a s', address / PAGE_SIZE ≤ a / PAGE_SIZE ≤ (address + Z.of_nat (length str)) / PAGE_SIZE →
     (pin_user_page FaultRead a s').1 = Ok ()) →
  wp (read_user_bytes arch address limit) (λ r _ _, r = Ok str) s o.
Proof.
  intros (Hstr & H0 & Hnul) Hl Hmin Hmax Hpin. assert (USER_ADDRESS_MIN = 65536) by done.
  eapply wp_mono; [apply (read_user_bytes_spec s); lia|]. intros [str'|e] s' o' (_ & _ & Hr); simpl in Hr.
  - destruct Hr as [(Hstr' & H0' & Hnul') _]. f_equal.
    assert (length str' = length str) as Hlen.
    { destruct (Nat.lt_trichotomy (length str') (length str)) as [Hlt|[|Hlt]]; [|done|]; exfalso.
      - apply H0. rewrite <- Hstr. apply list_elem_of_lookup. exists (length str').
        by rewrite lookup_user_bytes, decide_True, Hnul' by done.
      - apply H0'. rewrite <- Hstr'. apply list_elem_of_lookup. exists (length str).
        by rewrite lookup_user_bytes, decide_True, Hnul by done. }
    by rewrite <- Hstr, <- Hstr', Hlen.
  - exfalso. destruct Hr as [[_ Hb]|(start & count & Hst & Hb & Hc & Hp & Hcase)].
    + apply (Hb (address + Z.of_nat (length str))); [lia|done].
    + assert (start ≤ address + Z.of_nat (length str)) as Hse.
      { destruct (decide (start ≤ address + Z.of_nat (length str))); [done|]. exfalso.
        apply (Hb (address + Z.of_nat (length str))); [lia|done]. }
      assert (USER_ADDRESS_MAX arch < two64) by (by destruct arch).
      destruct Hcase as [[_ [?|Hbad]]|(x & _ & a & s1 & Ha & Hf)]; [lia|by eapply chunk_in_range; [| |done|done]; lia|].
      rewrite Hpin in Hf; [done|].
      assert (a / PAGE_SIZE = start / PAGE_SIZE) as ->.
      { apply Z.le_antisymm; [rewrite Hp|]; apply Z.div_le_mono; unfold PAGE_SIZE; lia. }
      split; apply Z.div_le_mono; unfold PAGE_SIZE; lia.
Qed.

(** C35: an argument vector read for [exec] has fewer than 256 strings, each
    shorter than a path, and at most 65536 bytes with their terminators. *)
Theorem path_array_bounded s address o :
  0 ≤ address → (∀ a, is_byte (user_byte s a)) →
  wp (read_user_path_array arch address) (λ r s' _, same_user s s' ∧
     match r with
     | Ok strings => (length strings < 256)%nat ∧ Forall (λ str, Z.of_nat (length str) < 4096 ∧ (0 ∉ str)) strings ∧
         Z.of_nat (sum_list_with (λ str, length str + 1)%nat strings) ≤ 65536
     | Err _ => True
     end) s o.
Proof.
  intros Ha Hbyte. unfold read_user_path_array. destruct (address =? 0).
  { wp_step. split; [done|]. split_and!; [simpl; lia|done|simpl; lia]. }
  assert (∀ n index strings total s1 o1, same_user s s1 →
    (index + n = 256)%nat → length strings = index → total = Z.of_nat (sum_list_with (λ str, length str + 1)%nat strings) →
    total ≤ 65536 → Forall (λ str, Z.of_nat (length str) < 4096 ∧ (0 ∉ str)) strings →
    wp (path_array_loop arch n index address strings total) (λ r s' _, same_user s s' ∧
     match r with
     | Ok strings => (length strings < 256)%nat ∧ Forall (λ str, Z.of_nat (length str) < 4096 ∧ (0 ∉ str)) strings ∧
         Z.of_nat (sum_list_with (λ str, length str + 1)%nat strings) ≤ 65536
     | Err _ => True
     end) s1 o1) as Hloop.
  { induction n as [|n IH]; intros index strings total s1 o1 Hs Hn Hl Ht Hle Hall; simpl; [by wp_step|].
    do 2 wp_step. destruct (checked_add _ _) as [pa|] eqn:Epa; cbn [ok_or]; [|done].
    apply checked_add_Some in Epa as [-> _]. wp_step. unfold read_user_u64. wp_step.
    eapply wp_mono; [apply (read_user_spec arch s1); lia|]. intros [bytes|e] s2 o2 (-> & Hs2 & Hb); cbn [map_err]; do 2 wp_step;
      (assert (same_user s s2) as Hs' by (by eapply same_user_trans)); [|done].
    wp_step. destruct (Z.eqb_spec (of_le bytes) 0) as [E|E]; [wp_step; split_and!; try done; [lia|by rewrite <- Ht]|].
    assert (0 ≤ of_le bytes) as Hpos.
    { destruct Hb as [_ ->]. apply of_le_bound. apply Forall_lookup. intros i b. rewrite lookup_user_bytes. case_decide; [|done].
      intros [= <-]. rewrite Hs. apply Hbyte. }
    wp_step. unfold read_user_path. eapply wp_mono; [by apply read_user_bytes_spec|].
    intros [str|e] s3 o3 (-> & Hs3 & Hstr); (assert (same_user s s3) by (by eapply same_user_trans)); [|done].
    destruct Hstr as [(_ & H0 & _) Hlen].
    do 2 wp_step. destruct (checked_add _ _) as [t|] eqn:Et; cbn [ok_or]; [|done]. apply checked_add_Some in Et as [-> _].
    unfold MAX_EXEC_BYTES. destruct (Z.ltb_spec 65536 (total + (Z.of_nat (length str) + 1))); [by wp_step|].
    apply IH; [done|lia|rewrite length_app; simpl; lia| |lia|].
    - rewrite sum_list_with_app. simpl. lia.
    - apply Forall_app. split; [done|]. repeat constructor; [lia|done]. }
  by apply Hloop.
Qed.
End theorems.

(** no error is reported as a success: error numbers are distinct and
    their results lie in [-110, -1], and a result of at least 0 is the value. *)
Theorem raw_result_faithful r :
  (∀ v, r = Ok v → is_u64 v) →
  match r with
  | Err e => -110 ≤ raw_result r ≤ -1 ∧ ∀ e', raw_result (Err e') = raw_result r → e' = e
  | Ok v => (v < 9223372036854775808 → raw_result r = v) ∧ of_i64 (raw_result r) = v
  end.
Proof.
  destruct r as [v|e]; intros Hv.
  - split; [|by apply to_of_i64, Hv]. intros Hlt. simpl. unfold to_i64. by rewrite (proj2 (Z.ltb_lt _ _)).
  - split; [destruct e; simpl; lia|]. intros e' He. by destruct e, e'.
Qed.

(** ** Witnesses *)

(** The string [[104; 105]] at the end of the first page. *)
Definition demo_text : DemoSpace := mkDemo {[69629 := 104; 69630 := 105]}.
Lemma demo_string : string_at demo_text 69629 [104; 105].
Proof.
  split; [done|]. split; [|done]. intros H. do 2 (apply elem_of_cons in H as [H|H]; [done|]). by apply not_elem_of_nil in H.
Qed.

Lemma read_user_bytes_correct_witness :
  wp (read_user_bytes X86_64 69629 64) (λ r s' _, same_user demo_text s' ∧ string_post X86_64 demo_text 69629 64 r) demo_text [].
Proof. apply (read_user_bytes_correct X86_64 demo_text 69629 64 []). lia. Defined.

Lemma read_user_bytes_stays_witness :
  wp (read_user_bytes X86_64 69629 64) (λ r _ _, r = Ok [104; 105]) demo_text [].
Proof.
  apply (read_user_bytes_stays X86_64 demo_text 69629 [104; 105] 64 []); [apply demo_string|simpl; lia|unfold USER_ADDRESS_MIN; lia|done|].
  intros a s' Ha. assert (a / 4096 = 16) as E by (change (69629 / PAGE_SIZE) with 16 in Ha; change ((69629 + Z.of_nat (length [104; 105])) / PAGE_SIZE) with 16 in Ha; unfold PAGE_SIZE in Ha; lia).
  simpl. by rewrite E.
Defined.

Lemma path_array_bounded_witness :
  wp (read_user_path_array X86_64 65536) (λ r s' _, same_user demo_text s' ∧
     match r with
     | Ok strings => (length strings < 256)%nat ∧ Forall (λ str, Z.of_nat (length str) < 4096 ∧ (0 ∉ str)) strings ∧
         Z.of_nat (sum_list_with (λ str, length str + 1)%nat strings) ≤ 65536
     | Err _ => True
     end) demo_text [].
Proof.
  apply (path_array_bounded X86_64 demo_text 65536 []); [lia|]. intros a. simpl. rewrite lookup_insert, lookup_singleton. repeat case_decide; done.
Defined.

Lemma raw_result_faithful_witness :
  -110 ≤ raw_result (Err EFault) ≤ -1 ∧ ∀ e', raw_result (Err e') = raw_result (Err EFault) → e' = EFault.
Proof. apply (raw_result_faithful (Err EFault)). done. Defined.
