(* ===== verification/Poll.v ===== *)
(** Readiness flags ([PollEvents] of [fs/vnode.rs]) and what the users of an
    event rely on: a persistent flag, and the threads queued on it. *)
From S2P Require Import Prelude.

(** [bitflags! PollEvents: u16] *)
Definition POLL_IN : Z := 0x0001.
Definition POLL_PRI : Z := 0x0002.
Definition POLL_OUT : Z := 0x0004.
Definition POLL_ERR : Z := 0x0008.
Definition POLL_HUP : Z := 0x0010.
Definition POLL_NVAL : Z := 0x0020.
Definition POLL_RDNORM : Z := 0x0040.
Definition POLL_RDBAND : Z := 0x0080.
Definition POLL_WRNORM : Z := 0x0100.
Definition POLL_WRBAND : Z := 0x0200.
Definition poll_contains (p q : Z) : bool := Z.land p q =? q.
Definition poll_intersects (p q : Z) : bool := negb (Z.land p q =? 0).

(** The contract of [sys/event.rs]: [signal] sets the flag and releases every
    queued thread; a wait ends at once on a signaled event and queues the
    thread otherwise. *)
Record Flag : Type := mkFlag { signaled : bool; queued : list nat }.
Definition flag_new : Flag := mkFlag false [].
Definition flag_signal (e : Flag) : Flag := mkFlag true [].
Definition flag_reset (e : Flag) : Flag := mkFlag false (queued e).
Definition flag_queue (t : nat) (e : Flag) : Flag := mkFlag (signaled e) (t :: queued e).
