(* ===== verification/Pipe.v ===== *)
(** Anonymous pipes ([proc/pipe.rs]).

    [read_locked] and [write_locked] are one iteration of the loops of
    [PipeEnd::read] and [PipeEnd::write], run under the pipe's mutex: they
    either finish the call or leave it to sleep on an event. Where
    [VecDeque::as_slices] cuts the ring is the argument [front]. *)
From S2P Require Import Prelude.
From S2P Require Import Bytes.
From S2P Require Import Index.
From S2P Require Import VmMap.
From S2P Require Import MemIo.
From S2P Require Import Poll.
Open Scope rust_scope.

Definition PIPE_CAPACITY : nat := Z.to_nat (64 * 1024).
Definition PIPE_ATOMIC_LIMIT : nat := Z.to_nat 4096.

Lemma PIPE_CAPACITY_Z : Z.of_nat PIPE_CAPACITY = 65536.
Proof. unfold PIPE_CAPACITY. by rewrite Z2Nat.id. Qed.
Lemma PIPE_ATOMIC_LIMIT_Z : Z.of_nat PIPE_ATOMIC_LIMIT = 4096.
Proof. unfold PIPE_ATOMIC_LIMIT. by rewrite Z2Nat.id. Qed.
#[global] Opaque PIPE_CAPACITY PIPE_ATOMIC_LIMIT.

Inductive PipeError : Type := BadDescriptor | TryAgain | BrokenPipe | Fault.
#[export] Instance PipeError_eq_dec : EqDecision PipeError.
Proof. solve_decision. Defined.
Inductive Direction : Type := DirRead | DirWrite.
#[export] Instance Direction_eq_dec : EqDecision Direction.
Proof. solve_decision. Defined.

(** [PipeState] and the two events of [Pipe]. *)
Record Pipe : Type := mkPipe {
  buffer : list Z;
  reader_open : bool;
  writer_open : bool;
  readable : Flag;
  writable : Flag;
}.
(** [PipeEnd] *)
Record PipeEnd : Type := mkEnd { direction : Direction; nonblocking : bool }.

Definition with_buffer (f : list Z → list Z) (p : Pipe) : Pipe :=
  mkPipe (f (buffer p)) (reader_open p) (writer_open p) (readable p) (writable p).
Definition with_readable (f : Flag → Flag) (p : Pipe) : Pipe :=
  mkPipe (buffer p) (reader_open p) (writer_open p) (f (readable p)) (writable p).
Definition with_writable (f : Flag → Flag) (p : Pipe) : Pipe :=
  mkPipe (buffer p) (reader_open p) (writer_open p) (readable p) (f (writable p)).

(** [PipeEnd::pair] *)
Definition pair : Pipe * PipeEnd * PipeEnd :=
  (with_writable flag_signal (mkPipe [] true true flag_new flag_new), mkEnd DirRead false, mkEnd DirWrite false).

(** How an iteration ends: the call returns, or sleeps on the event. *)
Inductive Outcome : Type :=
| Done (r : result PipeError nat)
| Sleep.

Definition access_mode (e : PipeEnd) : Z := match direction e with DirRead => 0 | DirWrite => 1 end.
Definition set_nonblocking (value : bool) (e : PipeEnd) : PipeEnd := mkEnd (direction e) value.
Definition is_nonblocking (e : PipeEnd) : bool := nonblocking e.

(** [PipeEnd::poll] *)
Definition poll (e : PipeEnd) (events : Z) (p : Pipe) : Z :=
  match direction e with
  | DirRead =>
      let ready := if bool_decide (buffer p = []) then 0 else Z.land events (Z.lor POLL_IN POLL_RDNORM) in
      if writer_open p then ready else Z.lor ready POLL_HUP
  | DirWrite =>
      if negb (reader_open p) then POLL_ERR
      else if (length (buffer p) <? PIPE_CAPACITY)%nat then Z.land events (Z.lor POLL_OUT POLL_WRNORM)
      else 0
  end.

(** [PipeEnd::poll_events]: the events to wait for. *)
Definition poll_events (e : PipeEnd) (events : Z) : list Direction :=
  match direction e with
  | DirRead =>
      if poll_intersects events (Z.lor POLL_IN (Z.lor POLL_RDNORM POLL_HUP)) then [DirRead] else []
  | DirWrite =>
      if poll_intersects events (Z.lor POLL_OUT (Z.lor POLL_WRNORM POLL_ERR)) then [DirWrite] else []
  end.

(** [Drop for PipeEnd] *)
Definition pipe_drop (d : Direction) (p : Pipe) : Pipe :=
  match d with
  | DirRead => mkPipe (buffer p) false (writer_open p) (readable p) (flag_signal (writable p))
  | DirWrite => mkPipe (buffer p) (reader_open p) false (flag_signal (readable p)) (writable p)
  end.

Section pipe.
Context {S : Type} `{!UserSpace S}.

Record Sys : Type := mkSys { pipe : Pipe; io : Io S }.
Definition on_io {A} : M (Io S) A → M Sys A := zoom io (λ i s, mkSys (pipe s) i).
Definition on_pipe (f : Pipe → Pipe) : M Sys () := modify (λ s, mkSys (f (pipe s)) (io s)).

(** An iteration of [PipeEnd::read]. *)
Definition read_locked (nonblock : bool) (sink : Buffer) (front : nat) : M Sys Outcome :=
  let* s := get in
  let data := buffer (pipe s) in
  if negb (bool_decide (data = [])) then
    let count := Nat.min (buffer_len sink) (length data) in
    let '(head, back) := (take front data, drop front data) in
    let from_front := Nat.min (length head) count in
    let* r := on_io (store sink 0 (take from_front head)) in
    match r with
    | Err _ => ret (Done (Err Fault))
    | Ok _ =>
        let* r :=
          (if (from_front <? count)%nat then on_io (store sink from_front (take (count - from_front) back))
           else ret (Ok ())) in
        match r with
        | Err _ => ret (Done (Err Fault))
        | Ok _ =>
            do on_pipe (with_buffer (drop count)) then
            let* s := get in
            do (if bool_decide (buffer (pipe s) = []) then on_pipe (with_readable flag_reset) else ret ()) then
            do on_pipe (with_writable flag_signal) then
            ret (Done (Ok count))
        end
    end
  else if negb (writer_open (pipe s)) then ret (Done (Ok 0%nat))
  else if nonblock then ret (Done (Err TryAgain))
  else
    do on_pipe (with_readable flag_reset) then
    ret Sleep.

(** [PipeEnd::read] up to its first sleep. *)
Definition read (e : PipeEnd) (sink : Buffer) (front : nat) : M Sys Outcome :=
  if negb (bool_decide (direction e = DirRead)) then ret (Done (Err BadDescriptor))
  else if buffer_is_empty sink then ret (Done (Ok 0%nat))
  else read_locked (nonblocking e) sink front.

(** The copy loop of [PipeEnd::write]; the fuel is the bytes left to copy. *)
Fixpoint write_loop (fuel : nat) (source : Buffer) (count copied : nat) : M Sys (result PipeError nat) :=
  if (copied <? count)%nat then
    match fuel with
    | O => panic
    | Datatypes.S fuel =>
        let* w := on_io (window FaultRead source copied (Nat.min (count - copied) 1024)) in
        match w with
        | Err _ => ret (if negb (copied =? 0)%nat then Ok copied else Err Fault)
        | Ok w =>
            if window_is_empty w then ret (Ok copied)
            else
              let* bytes := on_io (copy_to_slice w (window_len w)) in
              do on_pipe (with_buffer (λ b, b ++ bytes)) then
              write_loop fuel source count (copied + window_len w)
        end
    end
  else ret (Ok copied).

(** An iteration of [PipeEnd::write]. *)
Definition write_locked (nonblock : bool) (source : Buffer) : M Sys Outcome :=
  let* s := get in
  if negb (reader_open (pipe s)) then ret (Done (Err BrokenPipe))
  else
    do massert (length (buffer (pipe s)) <=? PIPE_CAPACITY)%nat then
    let available := (PIPE_CAPACITY - length (buffer (pipe s)))%nat in
    let atomic := (buffer_len source <=? PIPE_ATOMIC_LIMIT)%nat in
    if negb (available =? 0)%nat && (negb atomic || (buffer_len source <=? available)%nat) then
      let count := Nat.min available (buffer_len source) in
      let* r := write_loop count source count 0 in
      match r with
      | Err e => ret (Done (Err e))
      | Ok copied =>
          let* s := get in
          do (if (length (buffer (pipe s)) =? PIPE_CAPACITY)%nat then on_pipe (with_writable flag_reset) else ret ()) then
          do on_pipe (with_readable flag_signal) then
          ret (Done (Ok copied))
      end
    else if nonblock then ret (Done (Err TryAgain))
    else
      do on_pipe (with_writable flag_reset) then
      ret Sleep.

(** [PipeEnd::write] up to its first sleep. *)
Definition write (e : PipeEnd) (source : Buffer) : M Sys Outcome :=
  if negb (bool_decide (direction e = DirWrite)) then ret (Done (Err BadDescriptor))
  else if buffer_is_empty source then ret (Done (Ok 0%nat))
  else write_locked (nonblocking e) source.
End pipe.
Arguments Sys : clear implicits.
