(* ===== verification/PipeSpec.v ===== *)
(** What one iteration of the pipe's [read] and [write] does, on every branch,
    and the traffic of a pipe: bytes come out in the order they went in. *)
From S2P Require Import Prelude.
From S2P Require Import Bytes.
From S2P Require Import Index.
From S2P Require Import VmMap.
From S2P Require Import MemIo.
From S2P Require Import MemIoSpec.
From S2P Require Import Poll.
From S2P Require Import Pipe.
Open Scope rust_scope.

Section spec.
Context {S : Type} `{!UserSpace S, !UserSpaceLaws S}.
Implicit Types (s : Sys S) (p : Pipe).

Lemma wp_on_io {A} (m : M (Io S) A) (Q : A → Sys S → oracle → Prop) s o :
  wp m (λ a i o', Q a (mkSys (pipe s) i) o') (io s) o → wp (on_io m) Q s o.
Proof. intros H. unfold on_io. by apply wp_zoom. Qed.
Lemma wp_on_pipe f (Q : () → Sys S → oracle → Prop) s o :
  Q () (mkSys (f (pipe s)) (io s)) o → wp (on_pipe f) Q s o.
Proof. done. Qed.

(** The pipe after [count] bytes were taken. *)
Definition after_read (count : nat) p : Pipe :=
  let rest := drop count (buffer p) in
  mkPipe rest (reader_open p) (writer_open p)
    (if bool_decide (rest = []) then flag_reset (readable p) else readable p) (flag_signal (writable p)).

Definition read_post (nonblock : bool) (sink : Buffer) s (out : Outcome) (s' : Sys S) : Prop :=
  let data := buffer (pipe s) in
  match out with
  | Done (Ok O) => data = [] ∧ writer_open (pipe s) = false ∧ s' = s
  | Done (Ok n) => n = Nat.min (buffer_len sink) (length data) ∧
      stored (io s) (io s') sink 0 (take n data) ∧ pipe s' = after_read n (pipe s)
  | Done (Err Fault) => data ≠ [] ∧ pipe s' = pipe s ∧ ∃ e, pin_error (S:=S) FaultWrite e
  | Done (Err TryAgain) => nonblock = true ∧ data = [] ∧ writer_open (pipe s) = true ∧ s' = s
  | Done (Err _) => False
  | Sleep => nonblock = false ∧ data = [] ∧ writer_open (pipe s) = true ∧
      s' = mkSys (with_readable flag_reset (pipe s)) (io s)
  end.

(** The two stores of a read put the front of the queue in the sink. *)
Lemma read_stores sink front data i0 o (Q : result Error () → Io S → oracle → Prop) :
  let count := Nat.min (buffer_len sink) (length data) in
  let from_front := Nat.min (length (take front data)) count in
  buffer_ok i0 sink →
  (∀ i1, stored i0 i1 sink 0 (take count data) → Q (Ok ()) i1 o) →
  (∀ e i1, pin_error (S:=S) FaultWrite e → Q (Err e) i1 o) →
  wp (let! _ := store sink 0 (take from_front (take front data)) in
      if (from_front <? count)%nat then store sink from_front (take (count - from_front) (drop front data))
      else ret (Ok ())) Q i0 o.
Proof.
  intros count from_front Hok HQ HE.
  assert (take from_front (take front data) = take from_front data) as ->.
  { rewrite take_take. f_equal. unfold from_front. rewrite length_take. lia. }
  assert (length (take from_front data) = from_front) as Hl.
  { rewrite length_take. unfold from_front, count. lia. }
  wp_step. eapply wp_mono; [by apply store_spec|].
  intros [[]|e] i1 o1 [-> Hr]; [|destruct Hr as [(_ & Hlt & _)|(_ & He & _)]; [rewrite Hl in Hlt; exfalso; unfold from_front, count in Hlt; lia|by eapply HE]].
  destruct Hr as [_ Hs1]. destruct (Nat.ltb_spec from_front count) as [Hlt|Hge].
  - assert (from_front = front) as Hff.
    { unfold from_front in *. rewrite length_take in *. unfold count in *. lia. }
    assert (length (take (count - from_front) (drop front data)) = (count - from_front)%nat) as Hl2.
    { rewrite length_take, length_drop. unfold count in *. lia. }
    eapply wp_mono; [apply store_spec; by eapply stored_buffer_ok|].
    intros [[]|e] i2 o2 [-> Hr]; [|destruct Hr as [(_ & Hlt2 & _)|(_ & He & _)]; [rewrite Hl2 in Hlt2; exfalso; unfold count in *; lia|by eapply HE]].
    destruct Hr as [_ Hs2]. apply HQ. replace (take count data) with (take from_front data ++ take (count - from_front) (drop front data)).
    + eapply stored_app; [done|]. by rewrite Hl.
    + rewrite Hff, <- (take_drop front (take count data)). f_equal.
      * rewrite take_take. f_equal. lia.
      * by rewrite <- skipn_firstn_comm.
  - wp_step. apply HQ. assert (from_front = count) as Hc by (unfold from_front in *; lia). rewrite <- Hc. exact Hs1.
Qed.

Lemma read_locked_spec nonblock sink front s o :
  buffer_ok (io s) sink → buffer_len sink ≠ 0%nat →
  wp (read_locked nonblock sink front) (λ out s' o', o' = o ∧ read_post nonblock sink s out s') s o.
Proof.
  intros Hok Hne. unfold read_locked. do 2 wp_step. destruct (bool_decide (buffer (pipe s) = [])) eqn:Ed; cbn [negb].
  { apply bool_decide_eq_true in Ed. destruct (writer_open (pipe s)) eqn:Ew; cbn [negb]; [|wp_step; split; [done|]; simpl; done].
    destruct nonblock; [wp_step; split; [done|]; simpl; done|]. wp_step. apply wp_on_pipe. wp_step. split; [done|]. simpl. done. }
  apply bool_decide_eq_false in Ed.
  pose proof (read_stores sink front (buffer (pipe s)) (io s) o
    (λ r i o', o' = o ∧ match r with Ok _ => stored (io s) i sink 0 (take (Nat.min (buffer_len sink) (length (buffer (pipe s)))) (buffer (pipe s)))
                                   | Err e => pin_error (S:=S) FaultWrite e end) Hok) as Hst.
  specialize (Hst ltac:(done) ltac:(done)).
  set (count := Nat.min (buffer_len sink) (length (buffer (pipe s)))) in *.
  assert (count ≠ 0%nat) as Hc by (unfold count; destruct (buffer (pipe s)); [done|simpl; lia]).
  wp_step. apply wp_on_io. apply wp_bind_inv in Hst. eapply wp_mono; [exact Hst|]. clear Hst.
  intros [[]|e] i1 o1 Hst1; cbv beta iota in *; [|wp_step; simpl; destruct Hst1 as [-> ?]; split_and!; try done; by exists e].
  wp_step.
  assert (wp (if (Nat.min (length (take front (buffer (pipe s)))) count <? count)%nat
              then on_io (store sink (Nat.min (length (take front (buffer (pipe s)))) count)
                     (take (count - Nat.min (length (take front (buffer (pipe s)))) count) (drop front (buffer (pipe s)))))
              else ret (Ok ()))
     (λ r s' o', o' = o ∧ pipe s' = pipe s ∧ match r with
        | Ok _ => stored (io s) (io s') sink 0 (take count (buffer (pipe s)))
        | Err e => pin_error (S:=S) FaultWrite e end) (mkSys (pipe s) i1) o1) as Hw.
  { destruct (_ <? count)%nat; [apply wp_on_io; eapply wp_mono; [exact Hst1|]; by intros [] i2 o2 [-> ?]|].
    wp_step. simpl. destruct Hst1 as [-> ?]. done. }
  eapply wp_mono; [exact Hw|]. intros [[]|e] s2 o2 (-> & Hp & Hr); cbv beta iota; [|wp_step; simpl; split_and!; try done; by exists e].
  wp_step. apply wp_on_pipe. do 3 wp_step. simpl. rewrite Hp.
  destruct (bool_decide (drop count (buffer (pipe s)) = [])) eqn:Er; [apply wp_on_pipe|wp_step];
    wp_step; apply wp_on_pipe; wp_step; (split; [done|]); unfold read_post;
    (assert (∀ P1 P2 : Prop, P2 → match count with O => P1 | _ => P2 end) as Hm by (by destruct count)); apply Hm;
    (split; [done|]); (split; [done|]); unfold after_read; by rewrite Er.
Qed.

(** ** Writing *)

Definition after_write (bytes : list Z) p : Pipe :=
  let data := buffer p ++ bytes in
  mkPipe data (reader_open p) (writer_open p) (flag_signal (readable p))
    (if (length data =? PIPE_CAPACITY)%nat then flag_reset (writable p) else writable p).

(** Bytes a [write] may take at once. *)
Definition writable_now (source : Buffer) p : Prop :=
  let available := (PIPE_CAPACITY - length (buffer p))%nat in
  available ≠ 0%nat ∧ ((PIPE_ATOMIC_LIMIT < buffer_len source)%nat ∨ (buffer_len source ≤ available)%nat).

Definition write_post (nonblock : bool) (source : Buffer) s (out : Outcome) (s' : Sys S) : Prop :=
  same_bytes (io s) (io s') ∧
  match out with
  | Done (Ok n) => reader_open (pipe s) = true ∧ writable_now source (pipe s) ∧
      (n = Nat.min (PIPE_CAPACITY - length (buffer (pipe s))) (buffer_len source) ∨
       (0 < n < Nat.min (PIPE_CAPACITY - length (buffer (pipe s))) (buffer_len source))%nat ∧
       ∃ e, pin_error (S:=S) FaultRead e) ∧
      ∃ bytes, length bytes = n ∧ holds (io s) source 0 bytes ∧ pipe s' = after_write bytes (pipe s)
  | Done (Err BrokenPipe) => reader_open (pipe s) = false ∧ s' = s
  | Done (Err Fault) => pipe s' = pipe s ∧ ∃ e, pin_error (S:=S) FaultRead e
  | Done (Err TryAgain) => nonblock = true ∧ reader_open (pipe s) = true ∧ ¬ writable_now source (pipe s) ∧ s' = s
  | Done (Err _) => False
  | Sleep => nonblock = false ∧ reader_open (pipe s) = true ∧ ¬ writable_now source (pipe s) ∧
      s' = mkSys (with_writable flag_reset (pipe s)) (io s)
  end.

Lemma write_loop_spec fuel source count : ∀ copied bytes s0 s o,
  (count - copied ≤ fuel)%nat → (copied ≤ count)%nat → (count ≤ buffer_len source)%nat →
  buffer_ok (io s) source → same_bytes (io s0) (io s) → length bytes = copied → holds (io s0) source 0 bytes →
  pipe s = with_buffer (λ b, b ++ bytes) (pipe s0) →
  wp (write_loop fuel source count copied) (λ r s' o', o' = o ∧ same_bytes (io s0) (io s') ∧
     match r with
     | Ok n => (n = count ∨ (0 < n < count)%nat ∧ ∃ e, pin_error (S:=S) FaultRead e) ∧
         ∃ bytes', length bytes' = n ∧ holds (io s0) source 0 bytes' ∧
           pipe s' = with_buffer (λ b, b ++ bytes') (pipe s0)
     | Err e => e = Fault ∧ copied = 0%nat ∧ pipe s' = pipe s ∧ ∃ e, pin_error (S:=S) FaultRead e
     end) s o.
Proof.
  induction fuel as [|fuel IH]; intros copied bytes s0 s o Hf Hc Hb Hok Hsb Hl Hh Hp; simpl;
    (destruct (Nat.ltb_spec copied count); [|wp_step; split_and!; [done|done|left; lia|by exists bytes]]); [lia|].
  wp_step. apply wp_on_io. eapply wp_mono; [apply window_spec; [done|lia]|].
  intros [w|e] i1 o1 (-> & Hs1 & Hr); cbv beta iota;
    assert (same_bytes (io s0) i1) as Hs2 by (intros c; by rewrite Hs1, Hsb).
  2: { wp_step. destruct (Nat.eqb_spec copied 0); simpl; (split; [done|]); (split; [done|]).
       - split_and!; try done; by exists e.
       - split; [right; split; [lia|by exists e]|]. by exists bytes. }
  pose proof Hr as (Hm & Hlb & Hpos & _). specialize (Hpos ltac:(lia) ltac:(lia)). unfold window_is_empty.
  rewrite (proj2 (Nat.eqb_neq _ _)) by lia. wp_step. apply wp_on_io.
  assert (buffer_ok i1 source) as Hok1 by (eapply stored_buffer_ok; [by eapply (stored_nil (io s) i1 source 0)|done]).
  eapply wp_mono; [by eapply copy_to_slice_spec|]. intros got i2 o2 (-> & -> & Hlen & Hgot). cbv beta. wp_step.
  apply wp_on_pipe. eapply wp_mono; [eapply (IH _ (bytes ++ got) s0); simpl; [lia|lia|lia|done|done| | |]|].
  - rewrite length_app. lia.
  - intros i x Hx. destruct (decide (i < copied)%nat).
    + rewrite lookup_app_l in Hx by lia. by apply Hh.
    + rewrite lookup_app_r in Hx by lia. apply Hgot in Hx. rewrite <- Hs2, <- Hx. do 2 f_equal. lia.
  - rewrite Hp. unfold with_buffer. simpl. by rewrite (assoc_L app).
  - intros [n|e] s' o' (-> & ? & Hr'); [done|]. destruct Hr' as (_ & Hz & _). lia.
Qed.

Lemma write_locked_spec nonblock source s o :
  buffer_ok (io s) source → buffer_len source ≠ 0%nat → (length (buffer (pipe s)) ≤ PIPE_CAPACITY)%nat →
  wp (write_locked nonblock source) (λ out s' o', o' = o ∧ write_post nonblock source s out s') s o.
Proof.
  intros Hok Hne Hcap. unfold write_locked, write_post. do 2 wp_step.
  destruct (reader_open (pipe s)) eqn:Er; cbn [negb]; [|by wp_step].
  wp_step. apply wp_massert; [by apply Nat.leb_le|].
  set (available := (PIPE_CAPACITY - length (buffer (pipe s)))%nat).
  destruct (negb (available =? 0)%nat && (negb (buffer_len source <=? PIPE_ATOMIC_LIMIT)%nat || (buffer_len source <=? available)%nat)) eqn:Ew.
  - assert (writable_now source (pipe s)) as Hw.
    { apply andb_true_iff in Ew as [E1 E2]. apply negb_true_iff, Nat.eqb_neq in E1. apply orb_true_iff in E2 as [E2|E2].
      - apply negb_true_iff, Nat.leb_gt in E2. split; [done|by left].
      - apply Nat.leb_le in E2. split; [done|by right]. }
    wp_step. eapply wp_mono; [apply (write_loop_spec _ _ _ 0 [] s s o); [lia|lia|lia|done|done|done|done|]|].
    { destruct s as [[] ?]; unfold with_buffer; simpl; by rewrite app_nil_r. }
    intros [n|e] s1 o1 (-> & Hsb & Hr); cbv beta iota.
    + destruct Hr as (Hn & bytes & Hlb & Hh & Hp). do 3 wp_step. rewrite Hp. cbn [buffer with_buffer].
      destruct (length (buffer (pipe s) ++ bytes) =? PIPE_CAPACITY)%nat eqn:Ecap; [apply wp_on_pipe|wp_step];
        wp_step; apply wp_on_pipe; wp_step; split_and!; try done; exists bytes; split_and!; try done;
        unfold after_write; simpl; rewrite ?Ecap, ?Hp; done.
    + destruct Hr as (-> & _ & Hp & He). wp_step. split_and!; done.
  - assert (¬ writable_now source (pipe s)) as Hw.
    { intros [H1 H2]. fold available in H1, H2. apply not_true_iff_false in Ew. apply Ew. apply andb_true_iff.
      rewrite negb_true_iff, orb_true_iff, negb_true_iff, Nat.eqb_neq, Nat.leb_gt, Nat.leb_le. done. }
    destruct nonblock; [by wp_step|]. wp_step. apply wp_on_pipe. wp_step. done.
Qed.
End spec.
