(* ===== verification/PipeThreads.v ===== *)
(** Threads on the two ends of a pipe ([proc/pipe.rs]): the loops of [read] and
    [write] around the pipe's mutex and its two events, interleaved. *)
From S2P Require Import Prelude.
From S2P Require Import Bytes.
From S2P Require Import Index.
From S2P Require Import VmMap.
From S2P Require Import MemIo.
From S2P Require Import MemIoSpec.
From S2P Require Import Poll.
From S2P Require Import Pipe.
From S2P Require Import PipeSpec.
Open Scope rust_scope.

(** Where a thread is: about to take the mutex (or outside of any call), past
    the unlock and before [Event::wait], or inside it. *)
Inductive PC : Type := AtLoop | BeforeWait | Waiting.

Section threads.
Context {S : Type} `{!UserSpace S, !UserSpaceLaws S}.

Record Config : Type := mkConfig { sys : Sys S; threads : list (Direction * PC) }.
Implicit Types (c : Config) (s : Sys S).

Definition event (d : Direction) (p : Pipe) : Flag := match d with DirRead => readable p | DirWrite => writable p end.
Definition with_event (d : Direction) (f : Flag → Flag) (p : Pipe) : Pipe :=
  match d with DirRead => with_readable f p | DirWrite => with_writable f p end.
Definition is_open (d : Direction) (p : Pipe) : bool := match d with DirRead => reader_open p | DirWrite => writer_open p end.
Definition after_outcome (out : Outcome) : PC := match out with Done _ => AtLoop | Sleep => BeforeWait end.

(** A call holds a reference to its end, so that an end is dropped only when
    no thread is inside a call on it. *)
Inductive step : Config → Config → Prop :=
| step_read s ts t nb sink front out s' o' :
    ts !! t = Some (DirRead, AtLoop) → reader_open (pipe s) = true →
    buffer_ok (io s) sink → buffer_len sink ≠ 0%nat → read_locked nb sink front s [] = Some (out, s', o') →
    step (mkConfig s ts) (mkConfig s' (<[t := (DirRead, after_outcome out)]> ts))
| step_write s ts t nb source out s' o' :
    ts !! t = Some (DirWrite, AtLoop) → writer_open (pipe s) = true →
    buffer_ok (io s) source → buffer_len source ≠ 0%nat → write_locked nb source s [] = Some (out, s', o') →
    step (mkConfig s ts) (mkConfig s' (<[t := (DirWrite, after_outcome out)]> ts))
| step_wait_done s ts t d :
    ts !! t = Some (d, BeforeWait) → signaled (event d (pipe s)) = true →
    step (mkConfig s ts) (mkConfig s (<[t := (d, AtLoop)]> ts))
| step_wait s ts t d :
    ts !! t = Some (d, BeforeWait) → signaled (event d (pipe s)) = false →
    step (mkConfig s ts) (mkConfig (mkSys (with_event d (flag_queue t) (pipe s)) (io s)) (<[t := (d, Waiting)]> ts))
| step_wake s ts t d :
    ts !! t = Some (d, Waiting) → t ∉ queued (event d (pipe s)) →
    step (mkConfig s ts) (mkConfig s (<[t := (d, AtLoop)]> ts))
| step_drop s ts d :
    is_open d (pipe s) = true → (∀ t pc, ts !! t = Some (d, pc) → pc = AtLoop) →
    step (mkConfig s ts) (mkConfig (mkSys (pipe_drop d (pipe s)) (io s)) ts)
| step_memory s ts i :
    (∀ b, buffer_ok (io s) b → buffer_ok i b) → step (mkConfig s ts) (mkConfig (mkSys (pipe s) i) ts).

Inductive reach : Config → Prop :=
| reach_init i ts : (∀ t x, ts !! t = Some x → x.2 = AtLoop) → reach (mkConfig (mkSys pair.1.1 i) ts)
| reach_step c c' : reach c → step c c' → reach c'.

(** ** The invariant of the two events *)

Record events_ok (p : Pipe) : Prop := {
  eo_cap : (length (buffer p) ≤ PIPE_CAPACITY)%nat;
  eo_free d : signaled (event d p) = true → queued (event d p) = [];
  eo_data : buffer p ≠ [] → signaled (readable p) = true;
  eo_full : signaled (writable p) = false → buffer p ≠ [] ∧ reader_open p = true;
}.

Lemma capacity_pos : (0 < PIPE_CAPACITY)%nat.
Proof. pose proof PIPE_CAPACITY_Z. lia. Qed.

Lemma not_writable source p : ¬ writable_now source p → buffer p ≠ [].
Proof.
  intros Hw E. apply Hw. unfold writable_now. rewrite E. simpl. rewrite Nat.sub_0_r.
  pose proof PIPE_CAPACITY_Z. pose proof PIPE_ATOMIC_LIMIT_Z. lia.
Qed.

Lemma after_read_ok n p : n ≠ 0%nat → events_ok p → events_ok (after_read n p).
Proof.
  intros Hn []. unfold after_read. split; simpl.
  - rewrite length_drop. lia.
  - intros []; simpl; [|done]. case_bool_decide; simpl; [done|apply (eo_free0 DirRead)].
  - intros Hne. rewrite bool_decide_eq_false_2 by done. apply eo_data0. intros E. by rewrite E, drop_nil in Hne.
  - done.
Qed.

Lemma after_write_ok bytes p :
  reader_open p = true → (length (buffer p ++ bytes) ≤ PIPE_CAPACITY)%nat → events_ok p → events_ok (after_write bytes p).
Proof.
  intros Hr Hl []. unfold after_write. split; simpl; [done| |done|].
  - intros []; simpl; [done|]. destruct (_ =? _)%nat; simpl; [done|apply (eo_free0 DirWrite)].
  - destruct (Nat.eqb_spec (length (buffer p ++ bytes)) PIPE_CAPACITY) as [E|E]; simpl; intros Hs.
    + split; [|done]. intros H0. rewrite H0 in E. simpl in E. pose proof capacity_pos. lia.
    + destruct (eo_full0 Hs) as [Hne _]. split; [|done]. intros [? _]%app_nil. done.
Qed.

Lemma read_keeps_events nb sink s out s' : read_post nb sink s out s' → events_ok (pipe s) → events_ok (pipe s').
Proof.
  intros Hp Hok. destruct out as [[[|n]|[]]|]; simpl in Hp; try done.
  - by destruct Hp as (_ & _ & ->).
  - destruct Hp as (_ & _ & ->). by apply after_read_ok.
  - by destruct Hp as (_ & _ & _ & ->).
  - by destruct Hp as (_ & -> & _).
  - destruct Hp as (_ & Hd & Hw & ->). simpl. destruct Hok. split; simpl; [done| |done|done].
    intros []; [done|apply (eo_free0 DirWrite)].
Qed.

Lemma write_keeps_events nb source s out s' :
  write_post nb source s out s' → events_ok (pipe s) → events_ok (pipe s').
Proof.
  intros [_ Hp] Hok. destruct out as [[n|[]]|]; simpl in Hp; try done.
  - destruct Hp as (Hr & Hw & Hn & bytes & Hl & _ & ->). apply after_write_ok; [done| |done].
    rewrite length_app, Hl. pose proof (eo_cap _ Hok). destruct Hn as [->|[? _]]; lia.
  - by destruct Hp as (_ & _ & _ & ->).
  - by destruct Hp as (_ & ->).
  - by destruct Hp as (-> & _).
  - destruct Hp as (_ & Hr & Hw & ->). simpl. pose proof (not_writable _ _ Hw). destruct Hok. split; simpl; [done| |done|done].
    intros []; [apply (eo_free0 DirRead)|done].
Qed.

Lemma drop_keeps_events d p : events_ok p → events_ok (pipe_drop d p).
Proof.
  intros []. destruct d; split; simpl; try done; intros []; simpl; try done; [apply (eo_free0 DirRead)|apply (eo_free0 DirWrite)].
Qed.

Lemma queue_keeps_events d t p : signaled (event d p) = false → events_ok p → events_ok (with_event d (flag_queue t) p).
Proof.
  intros Hs []. destruct d; simpl in *; split; simpl; try done; intros []; simpl; try congruence;
    [apply (eo_free0 DirWrite)|apply (eo_free0 DirRead)].
Qed.

(** What a step does to the pipe, as the specifications of the calls say. *)
Lemma run_read s nb sink front out s' o' :
  buffer_ok (io s) sink → buffer_len sink ≠ 0%nat → read_locked nb sink front s [] = Some (out, s', o') →
  read_post nb sink s out s'.
Proof. intros Hok Hne Hrun. pose proof (read_locked_spec nb sink front s [] Hok Hne) as Hw. unfold wp in Hw. rewrite Hrun in Hw. apply Hw. Qed.
Lemma run_write s nb source out s' o' :
  events_ok (pipe s) → buffer_ok (io s) source → buffer_len source ≠ 0%nat → write_locked nb source s [] = Some (out, s', o') →
  write_post nb source s out s'.
Proof.
  intros He Hok Hne Hrun. pose proof (write_locked_spec nb source s [] Hok Hne (eo_cap _ He)) as Hw. unfold wp in Hw.
  rewrite Hrun in Hw. apply Hw.
Qed.

Lemma reach_events c : reach c → events_ok (pipe (sys c)).
Proof.
  induction 1 as [i ts _|c c' _ IH Hs].
  - split; simpl; try done; [lia|by intros []].
  - destruct Hs; simpl in *; try done.
    + eapply read_keeps_events; [by eapply run_read|done].
    + eapply write_keeps_events; [by eapply run_write|done].
    + by apply queue_keeps_events.
    + by apply drop_keeps_events.
Qed.

(** ** One reader *)

Definition one_reader c : Prop :=
  ∀ t t' pc pc', threads c !! t = Some (DirRead, pc) → threads c !! t' = Some (DirRead, pc') → t = t'.

(** A thread sleeps on an event while it is queued there. *)
Definition sleeps c (d : Direction) (t : nat) : Prop := t ∈ queued (event d (pipe (sys c))).

(** The queues hold threads inside [wait] on that event. *)
Definition queues_ok c : Prop :=
  ∀ d t, sleeps c d t → threads c !! t = Some (d, Waiting).

(** The reader going to sleep still has somebody to wake it. *)
Definition reader_ok c : Prop :=
  ∀ t pc, threads c !! t = Some (DirRead, pc) → pc = BeforeWait ∨ sleeps c DirRead t →
    writer_open (pipe (sys c)) = true ∨ signaled (readable (pipe (sys c))) = true.

(** Calls only take threads off the queues, and leave the ends open. *)
Definition calmer (p p' : Pipe) : Prop :=
  (∀ d, queued (event d p') ⊆ queued (event d p)) ∧
  reader_open p' = reader_open p ∧ writer_open p' = writer_open p.

Lemma read_calmer nb sink s out s' : read_post nb sink s out s' → calmer (pipe s) (pipe s').
Proof.
  intros Hp. destruct out as [[[|n]|[]]|]; simpl in Hp; try done.
  - by destruct Hp as (_ & _ & ->).
  - destruct Hp as (_ & _ & ->). unfold after_read. split; [|done]. intros []; simpl; [|apply list_subseteq_nil].
    by case_bool_decide.
  - by destruct Hp as (_ & _ & _ & ->).
  - by destruct Hp as (_ & -> & _).
  - destruct Hp as (_ & _ & _ & ->). split; [|done]. by intros [].
Qed.
Lemma write_calmer nb source s out s' : write_post nb source s out s' → calmer (pipe s) (pipe s').
Proof.
  intros [_ Hp]. destruct out as [[n|[]]|]; simpl in Hp; try done.
  - destruct Hp as (_ & _ & _ & bytes & _ & _ & ->). split; [|done]. intros []; simpl; [apply list_subseteq_nil|].
    by destruct (_ =? _)%nat.
  - by destruct Hp as (_ & _ & _ & ->).
  - by destruct Hp as (_ & ->).
  - by destruct Hp as (-> & _).
  - destruct Hp as (_ & _ & _ & ->). split; [|done]. by intros [].
Qed.

Lemma queues_update s s' ts t d pc d' pc' :
  queues_ok (mkConfig s ts) → (∀ d, queued (event d (pipe s')) ⊆ queued (event d (pipe s))) →
  ts !! t = Some (d, pc) → pc ≠ Waiting → queues_ok (mkConfig s' (<[t := (d', pc')]> ts)).
Proof.
  intros Hq Hsub Ht Hpc d0 t0 Hin. simpl in *. apply Hsub in Hin. specialize (Hq d0 t0 Hin). simpl in Hq.
  rewrite list_lookup_insert_ne; [done|]. intros ->. congruence.
Qed.

Lemma step_queues c c' : events_ok (pipe (sys c)) → queues_ok c → step c c' → queues_ok c'.
Proof.
  intros He Hq Hs. destruct Hs as [s ts t nb sink front out s' o' Ht Hr Hok Hne Hrun
    |s ts t nb source out s' o' Ht Hr Hok Hne Hrun|s ts t d Ht Hsig|s ts t d Ht Hsig|s ts t d Ht Hin|s ts d Hop Hall|s ts i Hi]; simpl in *.
  - eapply queues_update; [done|apply (read_calmer nb sink s out); by eapply run_read|done|done].
  - eapply queues_update; [done|apply (write_calmer nb source s out); by eapply run_write|done|done].
  - by eapply queues_update.
  - intros d0 t0 Hin. unfold sleeps in Hin. simpl in *. rewrite list_lookup_insert. destruct (decide (t = t0)) as [->|Hne].
    + pose proof (lookup_lt_Some _ _ _ Ht). rewrite decide_True by done. assert (t0 ∉ queued (event d0 (pipe s)) ∨ d0 = d) as [Hn| ->]; [|destruct d, d0; simpl in *; try done; set_solver|done].
      left. intros Hin0. specialize (Hq d0 t0 Hin0). simpl in Hq. congruence.
    + rewrite decide_False by tauto. apply Hq. unfold sleeps. simpl. destruct d, d0; simpl in *; try done;
        apply elem_of_cons in Hin as [->|]; done.
  - intros d0 t0 Hin0. unfold sleeps in Hin0. simpl in *. pose proof (Hq d0 t0 Hin0) as Ht0. simpl in Ht0.
    rewrite list_lookup_insert_ne; [done|]. intros ->. congruence.
  - intros d0 t0 Hin. apply Hq. unfold sleeps in *. simpl in *. by destruct d, d0; simpl in *; try set_solver.
  - done.
Qed.

Lemma reach_queues c : reach c → queues_ok c.
Proof.
  induction 1 as [i ts Hts|c c' Hr IH Hs]; [|eapply step_queues; [by apply reach_events|done|done]].
  intros [] t Hin; unfold sleeps in Hin; simpl in Hin; by apply not_elem_of_nil in Hin.
Qed.

Lemma insert_pc (ts : list (Direction * PC)) t d pc pc' : ts !! t = Some (d, pc) → (<[t := (d, pc')]> ts).*1 = ts.*1.
Proof.
  intros Ht. rewrite list_fmap_insert. simpl. apply list_insert_id. by rewrite list_lookup_fmap, Ht.
Qed.
Lemma step_directions c c' : step c c' → (threads c').*1 = (threads c).*1.
Proof. intros []; simpl; try done; by eapply insert_pc. Qed.

Lemma one_reader_dirs c c' : (threads c').*1 = (threads c).*1 → one_reader c' → one_reader c.
Proof.
  intros Hd H1 t t' pc pc' Ht Ht'.
  assert (∀ u q, threads c !! u = Some (DirRead, q) → ∃ q', threads c' !! u = Some (DirRead, q')) as Hu.
  { intros u q Hq. assert ((threads c').*1 !! u = Some DirRead) as Hf by (by rewrite Hd, list_lookup_fmap, Hq).
    rewrite list_lookup_fmap in Hf. destruct (threads c' !! u) as [[d q']|]; simplify_eq/=. by exists q'. }
  destruct (Hu _ _ Ht) as [q Hq], (Hu _ _ Ht') as [q' Hq']. by eapply H1.
Qed.

Lemma reader_keeps c c' :
  events_ok (pipe (sys c)) → queues_ok c → one_reader c' → reader_ok c → step c c' → reader_ok c'.
Proof.
  intros He Hq H1 Hr Hs. pose proof (step_queues _ _ He Hq Hs) as Hq'.
  destruct Hs as [s ts t nb sink front out s' o' Ht Hro Hok Hne Hrun
    |s ts t nb source out s' o' Ht Hwo Hok Hne Hrun|s ts t d Ht Hsig|s ts t d Ht Hsig|s ts t d Ht Hin|s ts d Hop Hall|s ts i Hi].
  - pose proof (run_read _ _ _ _ _ _ _ Hok Hne Hrun) as Hp. pose proof (lookup_lt_Some _ _ _ Ht).
    intros t0 pc Ht0 Hcase. assert (t0 = t) as ->.
    { eapply (H1 t0 t); [exact Ht0|]. by apply list_lookup_insert_eq. }
    simpl in *. rewrite list_lookup_insert_eq in Ht0 by done. injection Ht0 as <-. destruct out; simpl in *.
    + destruct Hcase as [|Hsl]; [done|]. apply Hq' in Hsl. simpl in Hsl. rewrite list_lookup_insert_eq in Hsl by done. done.
    + left. by destruct Hp as (_ & _ & Hw & ->).
  - pose proof (run_write _ _ _ _ _ _ He Hok Hne Hrun) as Hp. intros t0 pc _ _. left. simpl.
    destruct (write_calmer _ _ _ _ _ Hp) as (_ & _ & ->). done.
  - intros t0 pc Ht0 Hcase. simpl in *. rewrite list_lookup_insert in Ht0. case_decide as E.
    + destruct E as [<- _]. injection Ht0 as -> <-. destruct Hcase as [|Hsl]; [done|]. apply Hq in Hsl. simpl in Hsl. congruence.
    + by eapply Hr.
  - intros t0 pc Ht0 Hcase. simpl in *. rewrite list_lookup_insert in Ht0. case_decide as E.
    + destruct E as [<- _]. injection Ht0 as -> <-. simpl. destruct (Hr t BeforeWait Ht) as [|Hc]; [by left|by left|]. simpl in *. congruence.
    + assert (pc = BeforeWait ∨ sleeps (mkConfig s ts) DirRead t0) as Hc.
      { destruct Hcase as [|Hsl]; [by left|right]. unfold sleeps in *. simpl in *. destruct d; simpl in *; [|done].
        apply elem_of_cons in Hsl as [->|]; [|done]. exfalso. apply E. split; [done|by eapply lookup_lt_Some]. }
      specialize (Hr t0 pc Ht0 Hc). destruct d; simpl in *; done.
  - intros t0 pc Ht0 Hcase. simpl in *. rewrite list_lookup_insert in Ht0. case_decide as E.
    + destruct E as [<- _]. injection Ht0 as -> <-. destruct Hcase as [|Hsl]; [done|]. by destruct Hin.
    + by eapply Hr.
  - intros t0 pc Ht0 Hcase. destruct d; simpl in *; [|by right]. specialize (Hr t0 pc Ht0). simpl in Hr. apply Hr.
    destruct Hcase; [by left|by right].
  - intros t0 pc Ht0 Hcase. by eapply Hr.
Qed.

Lemma reach_reader c : reach c → one_reader c → reader_ok c.
Proof.
  induction 1 as [i ts Hts|c c' Hr IH Hs]; intros H1.
  - intros t pc Ht _. by left.
  - eapply reader_keeps; [by apply reach_events|by apply reach_queues|done| |done]. apply IH.
    eapply one_reader_dirs; [by eapply step_directions|done].
Qed.

(** ** Two readers *)

(** Once the write end is gone, nobody takes a reader off the queue. *)
Lemma sleeps_on c c' t :
  reach c → step c c' → sleeps c DirRead t → writer_open (pipe (sys c)) = false →
  sleeps c' DirRead t ∧ writer_open (pipe (sys c')) = false.
Proof.
  intros Hr Hs Hsl Hw. unfold sleeps in *.
  destruct Hs as [s ts t0 nb sink front out s' o' Ht Hro Hok Hne Hrun
    |s ts t0 nb source out s' o' Ht Hwo Hok Hne Hrun|s ts t0 d Ht Hsig|s ts t0 d Ht Hsig|s ts t0 d Ht Hin|s ts d Hop Hall|s ts i Hi]; simpl in *.
  - pose proof (run_read _ _ _ _ _ _ _ Hok Hne Hrun) as Hp.
    destruct (read_calmer _ _ _ _ _ Hp) as (_ & _ & ->). split; [|done].
    destruct out as [[[|n]|[]]|]; simpl in Hp; try done.
    + by destruct Hp as (_ & _ & ->).
    + destruct Hp as (_ & _ & ->). unfold after_read. simpl. by case_bool_decide.
    + by destruct Hp as (_ & _ & _ & ->).
    + by destruct Hp as (_ & -> & _).
    + by destruct Hp as (_ & _ & _ & ->).
  - congruence.
  - done.
  - destruct d; simpl; (split; [|done]); [by right|done].
  - done.
  - destruct d; simpl in *; [done|congruence].
  - done.
Qed.
End threads.
Arguments Config : clear implicits.
