(* ===== verification/PipeTheorems.v ===== *)
(** The properties of pipes ([proc/pipe.rs]). *)
From S2P Require Import Prelude.
From S2P Require Import Bytes.
From S2P Require Import Index.
From S2P Require Import VmMap.
From S2P Require Import MemIo.
From S2P Require Import MemIoSpec.
From S2P Require Import MemIoTheorems.
From S2P Require Import Poll.
From S2P Require Import Pipe.
From S2P Require Import PipeSpec.
From S2P Require Import PipeThreads.
Open Scope rust_scope.

Section theorems.
Context {S : Type} `{!UserSpace S, !UserSpaceLaws S}.
Implicit Types (s : Sys S) (c : Config S).

(** a [read] copies the oldest bytes, as many as both the pipe and the
    sink have, and removes exactly those; at end of file it returns zero, and
    a fault on the sink loses nothing. It sleeps only on an empty pipe whose
    write end is open. *)
Theorem read_correct nonblock sink front s o :
  buffer_ok (io s) sink → buffer_len sink ≠ 0%nat →
  wp (read_locked nonblock sink front) (λ out s' _, read_post nonblock sink s out s') s o.
Proof. intros. eapply wp_mono; [by apply read_locked_spec|]. by intros out s' o' [_ H']. Qed.


(** ** The stream *)

(** A pipe in use: what was written, what was read, with the bytes as they
    were in the source, and as they are in the sink, of each call. *)
Inductive stream : Sys S → list Z → list Z → Prop :=
| stream_new i : stream (mkSys pair.1.1 i) [] []
| stream_read s w r nb sink front n s' bytes o' :
    stream s w r → buffer_ok (io s) sink → buffer_len sink ≠ 0%nat →
    read_locked nb sink front s [] = Some (Done (Ok n), s', o') →
    length bytes = n → holds (io s') sink 0 bytes → stream s' w (r ++ bytes)
| stream_write s w r nb source n s' bytes o' :
    stream s w r → buffer_ok (io s) source → buffer_len source ≠ 0%nat →
    write_locked nb source s [] = Some (Done (Ok n), s', o') →
    length bytes = n → holds (io s) source 0 bytes → stream s' (w ++ bytes) r
| stream_failed_read s w r nb sink front out s' o' :
    stream s w r → buffer_ok (io s) sink → buffer_len sink ≠ 0%nat →
    read_locked nb sink front s [] = Some (out, s', o') → (∀ n, out ≠ Done (Ok n)) → stream s' w r
| stream_failed_write s w r nb source out s' o' :
    stream s w r → buffer_ok (io s) source → buffer_len source ≠ 0%nat →
    write_locked nb source s [] = Some (out, s', o') → (∀ n, out ≠ Done (Ok n)) → stream s' w r
| stream_drop s w r d : stream s w r → stream (mkSys (pipe_drop d (pipe s)) (io s)) w r
| stream_memory s w r i : stream s w r → stream (mkSys (pipe s) i) w r.

Lemma stream_inv s w r : stream s w r → w = r ++ buffer (pipe s) ∧ (length (buffer (pipe s)) ≤ PIPE_CAPACITY)%nat.
Proof.
  induction 1 as [i|s w r nb sink front n s' bytes o' _ [IH Hc] Hok Hne Hrun Hl Hh|s w r nb source n s' bytes o' _ [IH Hc] Hok Hne Hrun Hl Hh
    |s w r nb sink front out s' o' _ [IH Hc] Hok Hne Hrun Hno|s w r nb source out s' o' _ [IH Hc] Hok Hne Hrun Hno|s w r d _ IH|s w r i _ IH].
  - split; [done|]. simpl. lia.
  - pose proof (run_read _ _ _ _ _ _ _ Hok Hne Hrun) as Hp. destruct n as [|n]; simpl in Hp.
    + destruct Hp as (_ & _ & ->). destruct bytes; [|done]. by rewrite app_nil_r.
    + destruct Hp as (Hn & Hst & ->). unfold after_read. cbn [buffer].
      assert (bytes = take (Datatypes.S n) (buffer (pipe s))) as ->.
      { eapply holds_unique; [|exact Hh|by eapply held]. rewrite length_take. lia. }
      rewrite <- (assoc_L app), take_drop, length_drop. split; [done|lia].
  - pose proof (write_locked_spec nb source s [] Hok Hne Hc) as Hp. unfold wp in Hp. rewrite Hrun in Hp.
    destruct Hp as (_ & _ & _ & _ & Hn & bytes' & Hl' & Hh' & ->). unfold after_write. cbn [buffer].
    assert (bytes = bytes') as -> by (eapply holds_unique; [congruence|done|done]).
    rewrite IH, <- (assoc_L app). split; [done|]. rewrite length_app. destruct Hn as [Hn|[Hn _]]; lia.
  - pose proof (run_read _ _ _ _ _ _ _ Hok Hne Hrun) as Hp. destruct out as [[n|[]]|]; simpl in Hp; try done.
    + by destruct (Hno n).
    + by destruct Hp as (_ & _ & _ & ->).
    + by destruct Hp as (_ & -> & _).
    + by destruct Hp as (_ & _ & _ & ->).
  - pose proof (write_locked_spec nb source s [] Hok Hne Hc) as Hp. unfold wp in Hp. rewrite Hrun in Hp.
    destruct Hp as (_ & _ & Hp). destruct out as [[n|[]]|]; simpl in Hp; try done.
    + by destruct (Hno n).
    + by destruct Hp as (_ & _ & _ & ->).
    + by destruct Hp as (_ & ->).
    + by destruct Hp as (-> & _).
    + by destruct Hp as (_ & _ & _ & ->).
  - by destruct d.
  - done.
Qed.

(** C25: a pipe refines a byte stream: whatever calls are made, with whatever
    faults and closed ends, the bytes written are the bytes read followed by
    those still in the pipe, at most 65536 of them. *)
Theorem pipe_is_stream s w r :
  stream s w r → w = r ++ buffer (pipe s) ∧ Z.of_nat (length (buffer (pipe s))) ≤ 65536.
Proof. intros [? ?]%stream_inv. split; [done|]. rewrite <- PIPE_CAPACITY_Z. lia. Qed.

(** ** Sleeping and waking *)


(** C28: when one thread reads the pipe, it never sleeps after the write end
    was closed, however many threads write. *)
Theorem single_reader_sees_eof c t :
  reach c → one_reader c → sleeps c DirRead t → writer_open (pipe (sys c)) = true.
Proof.
  intros Hr H1 Hs. pose proof (reach_events c Hr) as He. pose proof (reach_queues c Hr _ _ Hs) as Ht.
  destruct (reach_reader c Hr H1 t _ Ht) as [|Hsig]; [by right|done|].
  unfold sleeps in Hs. rewrite (eo_free _ He DirRead) in Hs by done. by apply not_elem_of_nil in Hs.
Qed.
End theorems.

(** ** Concrete pipes *)

Definition demo_kernel : Io DemoSpace := mkIo [9; 9; 9; 9; 1; 2; 3; 4] (mkDemo ∅).
Definition demo_sink : Buffer := BKernel 0 4.
Definition demo_source : Buffer := BKernel 4 4.
Definition demo_pipe (l : list Z) (open : bool) (r w : Flag) : Pipe := mkPipe l true open r w.

Lemma demo_sink_ok k : length k = 8%nat → buffer_ok (mkIo (S:=DemoSpace) k (mkDemo ∅)) demo_sink.
Proof. intros Hk. split; simpl; lia. Qed.
Lemma demo_source_ok k : length k = 8%nat → buffer_ok (mkIo (S:=DemoSpace) k (mkDemo ∅)) demo_source.
Proof. intros Hk. split; simpl; lia. Qed.

Lemma read_correct_witness :
  let s := mkSys (demo_pipe [5; 6] true (mkFlag true []) (mkFlag true [])) demo_kernel in
  wp (read_locked true demo_sink 1) (λ out s' _, read_post true demo_sink s out s') s [].
Proof. apply read_correct; [by apply demo_sink_ok|done]. Defined.


(** Four bytes are written. *)
Definition demo_written : Sys DemoSpace :=
  mkSys (demo_pipe [1; 2; 3; 4] true (mkFlag true []) (mkFlag true [])) demo_kernel.
Lemma pipe_is_stream_witness :
  [1; 2; 3; 4] = [] ++ buffer (pipe demo_written) ∧ Z.of_nat (length (buffer (pipe demo_written))) ≤ 65536.
Proof.
  apply (pipe_is_stream demo_written [1; 2; 3; 4] []).
  eapply (stream_write _ [] [] false demo_source 4 _ [1; 2; 3; 4] []); [apply (stream_new demo_kernel)|by apply demo_source_ok|done| |done|].
  - vm_compute. reflexivity.
  - intros [|[|[|[|i]]]] x Hx; simpl in *; simplify_eq; done.
Defined.

(** A schedule of two readers and a writer: the second reader finds the pipe
    empty, and before it sleeps the writer writes and closes and the first
    reader takes everything. *)
Definition trio (a b : Direction * PC) : list (Direction * PC) := [a; b; (DirWrite, AtLoop)].
Definition eof0 : Config DemoSpace :=
  mkConfig (mkSys pair.1.1 demo_kernel) (trio (DirRead, AtLoop) (DirRead, AtLoop)).
Definition eof1 : Config DemoSpace :=
  mkConfig (mkSys (demo_pipe [] true (mkFlag false []) (mkFlag true [])) demo_kernel) (trio (DirRead, AtLoop) (DirRead, BeforeWait)).
Definition eof2 : Config DemoSpace :=
  mkConfig (mkSys (demo_pipe [1; 2; 3; 4] true (mkFlag true []) (mkFlag true [])) demo_kernel) (trio (DirRead, AtLoop) (DirRead, BeforeWait)).
Definition eof3 : Config DemoSpace :=
  mkConfig (mkSys (demo_pipe [1; 2; 3; 4] false (mkFlag true []) (mkFlag true [])) demo_kernel) (trio (DirRead, AtLoop) (DirRead, BeforeWait)).
Definition drained : Io DemoSpace := mkIo [1; 2; 3; 4; 1; 2; 3; 4] (mkDemo ∅).
Definition eof4 : Config DemoSpace :=
  mkConfig (mkSys (demo_pipe [] false (mkFlag false []) (mkFlag true [])) drained) (trio (DirRead, AtLoop) (DirRead, BeforeWait)).
Definition eof5 : Config DemoSpace :=
  mkConfig (mkSys (demo_pipe [] false (mkFlag false [1%nat]) (mkFlag true [])) drained) (trio (DirRead, AtLoop) (DirRead, Waiting)).

Lemma eof1_reach : reach eof1.
Proof.
  eapply (reach_step eof0).
  - apply reach_init. intros [|[|[|t]]] x Hx; by simplify_eq/=.
  - eapply (step_read _ (trio (DirRead, AtLoop) (DirRead, AtLoop)) 1 false demo_sink 0 Sleep);
      [done|done|by apply demo_sink_ok|done|]. vm_compute. reflexivity.
Qed.
Lemma eof5_reach : reach eof5.
Proof.
  eapply (reach_step eof4); [eapply (reach_step eof3); [eapply (reach_step eof2); [eapply (reach_step eof1); [apply eof1_reach|]|]|]|].
  - eapply (step_write _ (trio (DirRead, AtLoop) (DirRead, BeforeWait)) 2 false demo_source (Done (Ok 4%nat)));
      [done|done|by apply demo_source_ok|done|]. vm_compute. reflexivity.
  - apply (step_drop (sys eof2) (trio (DirRead, AtLoop) (DirRead, BeforeWait)) DirWrite); [done|].
    intros [|[|[|t]]] pc Hx; by simplify_eq/=.
  - eapply (step_read _ (trio (DirRead, AtLoop) (DirRead, BeforeWait)) 0 false demo_sink 0 (Done (Ok 4%nat)));
      [done|done|by apply demo_sink_ok|done|]. vm_compute. reflexivity.
  - by apply (step_wait (sys eof4) (trio (DirRead, AtLoop) (DirRead, BeforeWait)) 1 DirRead).
Qed.

(** C29: with two threads reading, the reset of [readable] by the read that
    empties a pipe whose write end is closed can lose the end of file: a
    schedule leaves the other reader asleep for ever. *)
Theorem two_readers_lose_eof :
  ∃ c : Config DemoSpace, reach c ∧ buffer (pipe (sys c)) = [] ∧ writer_open (pipe (sys c)) = false ∧
    ∀ c', rtc step c c' → sleeps c' DirRead 1.
Proof.
  exists eof5. split; [apply eof5_reach|]. split; [done|]. split; [done|]. intros c' Hs.
  assert (∀ c, rtc step c c' → reach c → sleeps c DirRead 1 → writer_open (pipe (sys c)) = false → sleeps c' DirRead 1) as H.
  { clear Hs. intros c. induction 1 as [c|c1 c2 c3 Hst _ IH]; intros Hr Hsl Hw; [done|].
    destruct (sleeps_on c1 c2 1 Hr Hst Hsl Hw). apply IH; [by eapply reach_step|done|done]. }
  apply (H eof5 Hs); [apply eof5_reach|left|done].
Qed.


(** One reader asleep on an empty pipe. *)
Definition solo : list (Direction * PC) := [(DirRead, Waiting); (DirWrite, AtLoop)].
Definition waiting_reader : Config DemoSpace :=
  mkConfig (mkSys (demo_pipe [] true (mkFlag false [0%nat]) (mkFlag true [])) demo_kernel) solo.
Lemma waiting_reader_reach : reach waiting_reader.
Proof.
  eapply (reach_step (mkConfig (mkSys (demo_pipe [] true (mkFlag false []) (mkFlag true [])) demo_kernel) [(DirRead, BeforeWait); (DirWrite, AtLoop)]));
    [eapply (reach_step (mkConfig (mkSys pair.1.1 demo_kernel) [(DirRead, AtLoop); (DirWrite, AtLoop)]))|].
  - apply reach_init. intros [|[|t]] x Hx; by simplify_eq/=.
  - eapply (step_read _ [(DirRead, AtLoop); (DirWrite, AtLoop)] 0 false demo_sink 0 Sleep);
      [done|done|by apply demo_sink_ok|done|]. vm_compute. reflexivity.
  - by apply (step_wait (mkSys (demo_pipe [] true (mkFlag false []) (mkFlag true [])) demo_kernel) [(DirRead, BeforeWait); (DirWrite, AtLoop)] 0 DirRead).
Qed.
Lemma single_reader_sees_eof_witness : writer_open (pipe (sys waiting_reader)) = true.
Proof.
  apply (single_reader_sees_eof waiting_reader 0); [apply waiting_reader_reach| |left].
  intros [|[|t]] [|[|t']] pc pc' H1 H2; by simplify_eq/=.
Defined.
