(* ===== verification/TimerFd.v ===== *)
(** Timer descriptors ([proc/timerfd.rs]). The time [clock::monotonic_ns()]
    returns at a call is an argument. *)
From S2P Require Import Prelude.
From S2P Require Import Bytes.
From S2P Require Import Index.
From S2P Require Import VmMap.
From S2P Require Import MemIo.
From S2P Require Import UserCopy.
From S2P Require Import Syscall.
From S2P Require Import Poll.
Open Scope rust_scope.

Definition CLOCK_REALTIME : Z := 0.
Definition CLOCK_MONOTONIC : Z := 1.
Definition CLOCK_BOOTTIME : Z := 7.
Definition TFD_NONBLOCK : Z := 2048.
Definition TFD_CLOEXEC : Z := 524288.
Definition TFD_TIMER_ABSTIME : Z := 1.
Definition TFD_TIMER_CANCEL_ON_SET : Z := 2.
Definition NANOSECONDS_PER_SECOND : Z := 1000000000.
Definition ITIMERSPEC_SIZE : nat := 32.

Definition saturating_mul (a b : Z) : Z := Z.min u64_max (a * b).

Record TimerState : Type := mkTimer {
  deadline_ns : Z;
  interval_ns : Z;
  expirations : Z;
}.
Record TimerFd : Type := mkTimerFd {
  clock_id : Z;
  state : TimerState;
  changed : Flag;
  nonblocking : bool;
}.
Definition with_state (st : TimerState) (t : TimerFd) : TimerFd := mkTimerFd (clock_id t) st (changed t) (nonblocking t).
Definition with_changed (f : Flag → Flag) (t : TimerFd) : TimerFd :=
  mkTimerFd (clock_id t) (state t) (f (changed t)) (nonblocking t).

(** [TimerFd::new] *)
Definition timer_new (clock : Z) (nonblock : bool) : TimerFd :=
  mkTimerFd clock (mkTimer 0 0 0) flag_new nonblock.

Definition refresh (now : Z) (st : TimerState) : TimerState :=
  if (deadline_ns st =? 0) || (now <? deadline_ns st) then st
  else if interval_ns st =? 0 then mkTimer 0 (interval_ns st) (saturating_add (expirations st) 1)
  else
    let count := saturating_add (saturating_sub now (deadline_ns st) / interval_ns st) 1 in
    mkTimer (saturating_add (deadline_ns st) (saturating_mul (interval_ns st) count)) (interval_ns st)
      (saturating_add (expirations st) count).

Definition remaining_ns (st : TimerState) (now : Z) : Z := saturating_sub (deadline_ns st) now.

(** [TimerFd::set_time]: the previous state, and the timer. *)
Definition set_time (flags interval value now : Z) (t : TimerFd) : result Errno (TimerState * TimerFd) :=
  if negb (Z.land flags (u64_not (Z.lor TFD_TIMER_ABSTIME TFD_TIMER_CANCEL_ON_SET)) =? 0)
     || (negb (Z.land flags TFD_TIMER_CANCEL_ON_SET =? 0)
         && (negb (clock_id t =? CLOCK_REALTIME) || (Z.land flags TFD_TIMER_ABSTIME =? 0)))
  then Err EInvalid
  else
    let previous := refresh now (state t) in
    let deadline :=
      if value =? 0 then 0
      else if negb (Z.land flags TFD_TIMER_ABSTIME =? 0) then value
      else saturating_add now value in
    Ok (previous, with_changed flag_signal (with_state (mkTimer deadline interval 0) t)).

(** [TimerFd::current_time] *)
Definition current_time (now : Z) (t : TimerFd) : TimerState * TimerFd :=
  let st := refresh now (state t) in (st, with_state st t).

Definition timer_poll (requested now : Z) (t : TimerFd) : Z * TimerFd :=
  if negb (poll_contains requested POLL_IN) then (0, t)
  else
    let st := refresh now (state t) in
    (if negb (expirations st =? 0) then POLL_IN else 0, with_state st t).

Definition timer_is_nonblocking (t : TimerFd) : bool := nonblocking t.
Definition timer_set_nonblocking (b : bool) (t : TimerFd) : TimerFd :=
  with_changed flag_signal (mkTimerFd (clock_id t) (state t) (changed t) b).

(** How an iteration of [read] ends: a result, or a wait on [changed], with a
    timeout when the timer is armed. *)
Inductive ReadOutcome : Type :=
| ReadDone (r : result Errno nat)
| WaitChanged
| WaitTimeout (nanoseconds : Z).

Definition decode_timespec (bytes : list Z) : result Errno Z :=
  let seconds := to_i64 (of_le (slice bytes 0 8)) in
  let nanoseconds := to_i64 (of_le (slice bytes 8 16)) in
  if (seconds <? 0) || negb ((0 <=? nanoseconds) && (nanoseconds <? NANOSECONDS_PER_SECOND)) then Err EInvalid
  else
    ok_or (match checked_mul seconds NANOSECONDS_PER_SECOND with
           | Some value => checked_add value nanoseconds
           | None => None
           end) EOverflow.

(** [encode_timespec]: the sixteen bytes of the value. *)
Definition encode_timespec (nanoseconds : Z) : list Z :=
  to_le 8 (of_i64 (to_i64 (nanoseconds / NANOSECONDS_PER_SECOND))) ++
  to_le 8 (of_i64 (to_i64 (nanoseconds mod NANOSECONDS_PER_SECOND))).

Section user.
Context {S : Type} `{!UserSpace S}.
Variable arch : Arch.

Record Sys : Type := mkSys { timer : TimerFd; mem : S }.
Definition on_mem {A} : M S A → M Sys A := zoom mem (λ m s, mkSys (timer s) m).
Definition on_timer (f : TimerFd → TimerFd) : M Sys () := modify (λ s, mkSys (f (timer s)) (mem s)).

(** An iteration of [TimerFd::read] at time [now]; [later] is the time of the
    second reading of the clock, before the wait. *)
Definition timer_read (sink : Buffer) (now later : Z) : M (TimerFd * Io S) ReadOutcome :=
  if (buffer_len sink <? 8)%nat then ret (ReadDone (Err EInvalid))
  else
    do modify (λ s, (with_state (refresh now (state s.1)) s.1, s.2)) then
    let* s := get in
    if negb (expirations (state s.1) =? 0) then
      let* r := zoom snd (λ i s, (s.1, i)) (store sink 0 (to_le 8 (expirations (state s.1)))) in
      match r with
      | Err _ => ret (ReadDone (Err EFault))
      | Ok _ =>
          do modify (λ s, (with_state (mkTimer (deadline_ns (state s.1)) (interval_ns (state s.1)) 0) s.1, s.2)) then
          ret (ReadDone (Ok 8%nat))
      end
    else if nonblocking s.1 then ret (ReadDone (Err ETryAgain))
    else
      do modify (λ s, (with_changed flag_reset s.1, s.2)) then
      let deadline := deadline_ns (state s.1) in
      if deadline =? 0 then ret WaitChanged
      else ret (WaitTimeout (Z.max (saturating_sub deadline later) 1)).

Definition read_user_itimerspec (address : Z) : M S (result Errno (Z * Z)) :=
  let* r := read_user arch address ITIMERSPEC_SIZE in
  let! bytes := ret (map_err map_memory_error r) in
  ret (let? interval := decode_timespec (slice bytes 0 16) in
       let? value := decode_timespec (slice bytes 16 32) in
       Ok (interval, value)).

Definition write_user_itimerspec (address interval value : Z) : M S (result Errno ()) :=
  let* r := write_user arch address (encode_timespec interval ++ encode_timespec value) in
  ret (map_err map_memory_error r).

(** [syscall_timerfd_create]; [install] is the outcome of entering the
    descriptor in the process's table. *)
Definition timerfd_create (clock flags : Z) (install : TimerFd → bool → result Errno Z) : result Errno Z :=
  if negb ((clock =? CLOCK_REALTIME) || (clock =? CLOCK_MONOTONIC) || (clock =? CLOCK_BOOTTIME))
     || negb (Z.land flags (u64_not (Z.lor TFD_NONBLOCK TFD_CLOEXEC)) =? 0)
  then Err EInvalid
  else install (timer_new clock (negb (Z.land flags TFD_NONBLOCK =? 0))) (negb (Z.land flags TFD_CLOEXEC =? 0)).

(** What a descriptor number names: nothing, another kind of file, or the
    timer of the state. *)
Inductive Descriptor : Type := NoDescriptor | OtherFile | IsTimer.
Definition timer_of (d : Descriptor) : result Errno () :=
  match d with NoDescriptor => Err EBadFileDescriptor | OtherFile => Err EInvalid | IsTimer => Ok () end.

(** [syscall_timerfd_settime]; [later] is the clock at the copy out. *)
Definition timerfd_settime (d : Descriptor) (flags new_value old_value now later : Z) : M Sys (result Errno Z) :=
  if new_value =? 0 then ret (Err EFault)
  else
    let! _ := ret (timer_of d) in
    let! spec := on_mem (read_user_itimerspec new_value) in
    let* s := get in
    let! r := ret (set_time flags spec.1 spec.2 now (timer s)) in
    let '(previous, t) := r in
    do on_timer (λ _, t) then
    if negb (old_value =? 0) then
      let! _ := on_mem (write_user_itimerspec old_value (interval_ns previous) (remaining_ns previous later)) in
      ret (Ok 0)
    else ret (Ok 0).

(** [syscall_timerfd_gettime] *)
Definition timerfd_gettime (d : Descriptor) (value now later : Z) : M Sys (result Errno Z) :=
  if value =? 0 then ret (Err EFault)
  else
    let! _ := ret (timer_of d) in
    let* s := get in
    let '(current, t) := current_time now (timer s) in
    do on_timer (λ _, t) then
    let! _ := on_mem (write_user_itimerspec value (interval_ns current) (remaining_ns current later)) in
    ret (Ok 0).
End user.
Arguments Sys : clear implicits.
