(* ===== verification/TimerFdTheorems.v ===== *)
(** The properties of timer descriptors ([proc/timerfd.rs]). *)
From S2P Require Import Prelude.
From S2P Require Import Bytes.
From S2P Require Import Index.
From S2P Require Import VmMap.
From S2P Require Import MemIo.
From S2P Require Import MemIoSpec.
From S2P Require Import MemIoTheorems.
From S2P Require Import UserCopy.
From S2P Require Import Syscall.
From S2P Require Import Poll.
From S2P Require Import TimerFd.
Open Scope rust_scope.

(** ** Expirations *)

(** The expirations of an armed timer up to [now]: its deadline and every
    interval after it. *)
Definition elapsed (st : TimerState) (now : Z) : Z :=
  if (deadline_ns st =? 0) || (now <? deadline_ns st) then 0
  else if interval_ns st =? 0 then 1
  else (now - deadline_ns st) / interval_ns st + 1.
Definition next_deadline (st : TimerState) (now : Z) : Z :=
  if (deadline_ns st =? 0) || (now <? deadline_ns st) then deadline_ns st
  else if interval_ns st =? 0 then 0
  else deadline_ns st + elapsed st now * interval_ns st.

Record timer_ok (st : TimerState) : Prop := {
  to_deadline : is_u64 (deadline_ns st);
  to_interval : is_u64 (interval_ns st);
  to_expirations : is_u64 (expirations st);
}.
(** No sum of [refresh] saturates at 2^64 up to [now]: with nanoseconds, some
    five hundred years. *)
Definition in_range (st : TimerState) (now : Z) : Prop :=
  now + interval_ns st < two64 ∧ expirations st + elapsed st now < two64.

Lemma elapsed_nonneg st now : 0 ≤ interval_ns st → 0 ≤ elapsed st now.
Proof.
  intros Hi. unfold elapsed. destruct (_ || _) eqn:E; [lia|].
  apply orb_false_iff in E as [_ E]. apply Z.ltb_ge in E. destruct (Z.eqb_spec (interval_ns st) 0); [lia|].
  pose proof (Z.div_pos (now - deadline_ns st) (interval_ns st)). lia.
Qed.

Lemma refresh_exact st now :
  timer_ok st → in_range st now →
  refresh now st = mkTimer (next_deadline st now) (interval_ns st) (expirations st + elapsed st now) ∧
  timer_ok (refresh now st).
Proof.
  intros [Hd Hi He] [Hr1 Hr2]. unfold is_u64 in *. pose proof (elapsed_nonneg st now ltac:(lia)) as Hp. revert Hr2 Hp.
  unfold refresh, next_deadline, elapsed.
  destruct ((deadline_ns st =? 0) || (now <? deadline_ns st)) eqn:E.
  { intros _ _. split; [destruct st; simpl; f_equal; lia|by split]. }
  apply orb_false_iff in E as [E1 E2]. apply Z.ltb_ge in E2. apply Z.eqb_neq in E1.
  destruct (Z.eqb_spec (interval_ns st) 0) as [Ei|Ei]; intros Hr2 Hp.
  { unfold saturating_add, u64_max. rewrite Z.min_r by lia. split; [done|]. split; unfold is_u64; simpl; lia. }
  unfold saturating_sub. rewrite (Z.max_r 0) by lia.
  set (q := (now - deadline_ns st) / interval_ns st) in *.
  assert (q * interval_ns st ≤ now - deadline_ns st) by (unfold q; rewrite Z.mul_comm; apply Z.mul_div_le; lia).
  assert (0 ≤ q) by (apply Z.div_pos; lia). unfold saturating_add, saturating_mul, u64_max.
  rewrite (Z.min_r _ (q + 1)) by lia. rewrite (Z.min_r _ (interval_ns st * (q + 1))) by nia.
  rewrite !Z.min_r by nia. split; [f_equal; lia|]. split; unfold is_u64; simpl; nia.
Qed.

Lemma elapsed_later st now1 now2 :
  timer_ok st → now1 ≤ now2 →
  elapsed (mkTimer (next_deadline st now1) (interval_ns st) 0) now2 + elapsed st now1 = elapsed st now2 ∧
  next_deadline (mkTimer (next_deadline st now1) (interval_ns st) 0) now2 = next_deadline st now2.
Proof.
  intros [Hd Hi _] Hle. unfold is_u64 in *. unfold next_deadline, elapsed. cbn [deadline_ns interval_ns].
  destruct (Z.eqb_spec (deadline_ns st) 0) as [E0|E0]; cbn [orb].
  { by rewrite E0, Z.eqb_refl. }
  destruct (Z.ltb_spec now1 (deadline_ns st)) as [E1|E1].
  { rewrite (proj2 (Z.eqb_neq _ _) E0). cbn [orb]. split; [lia|done]. }
  rewrite (proj2 (Z.ltb_ge now2 (deadline_ns st))) by lia.
  destruct (Z.eqb_spec (interval_ns st) 0) as [Ei|Ei]; [by rewrite Z.eqb_refl|].
  set (d := deadline_ns st) in *. set (i := interval_ns st) in *. set (q := (now1 - d) / i).
  assert (q * i ≤ now1 - d < (q + 1) * i) as Hq.
  { unfold q. pose proof (Z.mul_div_le (now1 - d) i). pose proof (Z.mul_succ_div_gt (now1 - d) i). lia. }
  assert (0 ≤ q) by (apply Z.div_pos; lia).
  rewrite (proj2 (Z.eqb_neq (d + (q + 1) * i) 0)) by nia. cbn [orb].
  destruct (Z.ltb_spec now2 (d + (q + 1) * i)) as [E2|E2].
  - assert ((now2 - d) / i = q) as -> by (symmetry; apply Z.div_unique with (r := now2 - d - q * i); lia). split; lia.
  - assert ((now2 - (d + (q + 1) * i)) / i = (now2 - d) / i - (q + 1)) as ->; [|split; lia].
    replace (now2 - (d + (q + 1) * i)) with (now2 - d + (- (q + 1)) * i) by lia. rewrite Z.div_add by lia. lia.
Qed.

(** [refresh] counts exactly the expirations up to now: the [k]-th
    deadline has passed if and only if [k] is below the count, and the new
    deadline is the first one in the future, on the same grid. *)
Theorem refresh_counts st now :
  timer_ok st → in_range st now → 0 < deadline_ns st ≤ now → 0 < interval_ns st →
  let st' := refresh now st in
  let count := expirations st' - expirations st in
  (∀ k, 0 ≤ k → k < count ↔ deadline_ns st + k * interval_ns st ≤ now) ∧
  deadline_ns st' = deadline_ns st + count * interval_ns st ∧ now < deadline_ns st' ∧ interval_ns st' = interval_ns st.
Proof.
  intros Hok Hr Hd Hi. destruct (refresh_exact st now Hok Hr) as [-> _]. cbn [expirations deadline_ns interval_ns].
  rewrite Z.add_simpl_l. unfold next_deadline, elapsed.
  rewrite (proj2 (Z.eqb_neq (deadline_ns st) 0)), (proj2 (Z.ltb_ge now _)), (proj2 (Z.eqb_neq (interval_ns st) 0)) by lia.
  cbn [orb]. pose proof (Z.mul_div_le (now - deadline_ns st) (interval_ns st) Hi).
  pose proof (Z.mul_succ_div_gt (now - deadline_ns st) (interval_ns st) Hi).
  set (q := (now - deadline_ns st) / interval_ns st) in *.
  split_and!; [|done|nia|done]. intros k Hk. split; intros; nia.
Qed.

(** looking at a timer in between never changes what it counts: [refresh]
    at an earlier and then at a later time is [refresh] at the later time. *)
Theorem refresh_compose st now1 now2 :
  timer_ok st → in_range st now2 → now1 ≤ now2 → refresh now2 (refresh now1 st) = refresh now2 st.
Proof.
  intros Hok Hr Hle. destruct (elapsed_later st now1 now2 Hok Hle) as [He Hn].
  pose proof (elapsed_nonneg (mkTimer (next_deadline st now1) (interval_ns st) 0) now2) as Hpos.
  pose proof (to_interval _ Hok) as Hi. unfold is_u64 in Hi. specialize (Hpos ltac:(simpl; lia)).
  assert (in_range st now1) as Hr1 by (destruct Hr; split; lia).
  destruct (refresh_exact st now1 Hok Hr1) as [E1 Hok1]. rewrite E1 in Hok1 |- *.
  destruct (refresh_exact st now2 Hok Hr) as [-> _].
  assert (∀ x, elapsed (mkTimer (next_deadline st now1) (interval_ns st) x) now2 =
               elapsed (mkTimer (next_deadline st now1) (interval_ns st) 0) now2) as Hx by done.
  destruct (refresh_exact (mkTimer (next_deadline st now1) (interval_ns st) (expirations st + elapsed st now1)) now2) as [-> _]; [done| |].
  - destruct Hr. split; simpl; [done|]. rewrite Hx. lia.
  - rewrite Hx. cbn [interval_ns expirations]. f_equal; [exact Hn|lia].
Qed.

(** ** A timer in use *)


Lemma elapsed_state st x now : elapsed (mkTimer (deadline_ns st) (interval_ns st) x) now = elapsed st now.
Proof. done. Qed.



(** ** The wire format *)

Lemma slice_all' (l : list Z) n : length l = n → slice l 0 n = l.
Proof. intros <-. apply slice_all. Qed.

Lemma half_i64 x : 0 ≤ x < 9223372036854775808 → of_i64 (to_i64 x) = x ∧ to_i64 x = x.
Proof. intros Hx. split; [apply to_of_i64; unfold is_u64; lia|]. unfold to_i64. by rewrite (proj2 (Z.ltb_lt _ _)) by lia. Qed.

(** every 64-bit count of nanoseconds survives [encode_timespec] and
    [decode_timespec], and sixteen bytes that decode are the encoding of what
    they decode to. *)
Theorem timespec_roundtrip :
  (∀ ns, is_u64 ns → decode_timespec (encode_timespec ns) = Ok ns) ∧
  (∀ bytes ns, length bytes = 16%nat → Forall is_byte bytes → decode_timespec bytes = Ok ns → encode_timespec ns = bytes).
Proof.
  split.
  - intros ns Hns. unfold is_u64 in Hns. unfold decode_timespec, encode_timespec, NANOSECONDS_PER_SECOND.
    pose proof (Z.div_mod ns 1000000000). pose proof (Z.mod_pos_bound ns 1000000000).
    assert (0 ≤ ns / 1000000000 < 18446744074) as Hq by (split; [apply Z.div_pos; lia|apply Z.div_lt_upper_bound; lia]).
    destruct (half_i64 (ns / 1000000000)) as [-> _]; [lia|]. destruct (half_i64 (ns mod 1000000000)) as [-> _]; [lia|].
    rewrite slice_app_l, slice_app_r by (rewrite length_to_le; lia). rewrite length_to_le. cbn [Nat.sub].
    rewrite !slice_all', !of_to_le by (rewrite ?length_to_le; try done; change (256 ^ Z.of_nat 8) with two64; lia).
    destruct (half_i64 (ns / 1000000000)) as [_ ->]; [lia|]. destruct (half_i64 (ns mod 1000000000)) as [_ ->]; [lia|].
    rewrite (proj2 (Z.ltb_ge _ 0)), (proj2 (Z.leb_le 0 _)), (proj2 (Z.ltb_lt _ 1000000000)) by lia. cbn [orb andb negb].
    unfold checked_mul. rewrite decide_True by lia.
    replace (checked_add _ _) with (Some ns); [done|]. symmetry. apply checked_add_Some. lia.
  - intros bytes ns Hlen Hb. unfold decode_timespec, encode_timespec, NANOSECONDS_PER_SECOND.
    set (lo := slice bytes 0 8). set (hi := slice bytes 8 16).
    assert (bytes = lo ++ hi) as Ebytes.
    { unfold lo, hi, slice. cbn [Nat.sub]. rewrite drop_0, (take_ge (drop 8 bytes)) by (rewrite length_drop; lia). by rewrite take_drop. }
    assert (Forall is_byte lo ∧ Forall is_byte hi) as [Hblo Hbhi] by (apply Forall_app; by rewrite <- Ebytes).
    assert (length lo = 8%nat) as Hllo by (apply length_slice; lia). assert (length hi = 8%nat) as Hlhi by (apply length_slice; lia).
    pose proof (of_le_bound lo Hblo) as Hlo. pose proof (of_le_bound hi Hbhi) as Hhi. rewrite Hllo in Hlo. rewrite Hlhi in Hhi.
    change (256 ^ Z.of_nat 8) with two64 in Hlo, Hhi. unfold to_i64 at 1 2 3 4 5.
    destruct (Z.ltb_spec (of_le lo) 9223372036854775808) as [E1|E1];
      [|rewrite (proj2 (Z.ltb_lt (of_le lo - two64) 0)) by lia; done].
    rewrite (proj2 (Z.ltb_ge (of_le lo) 0)) by lia. cbn [orb].
    destruct (Z.ltb_spec (of_le hi) 9223372036854775808) as [E2|E2];
      [|rewrite (proj2 (Z.leb_gt 0 (of_le hi - two64))) by lia; done].
    rewrite (proj2 (Z.leb_le 0 (of_le hi))) by lia. destruct (Z.ltb_spec (of_le hi) 1000000000) as [E3|E3]; [|done]. cbn [andb negb].
    unfold checked_mul. case_decide as Hm; [|done]. destruct (checked_add _ _) as [x|] eqn:Ea; [|done]. intros [= <-].
    apply checked_add_Some in Ea as [-> _].
    rewrite Z.div_add_l, (Z.div_small (of_le hi)), Z.add_0_r by lia.
    rewrite (Z.add_comm (of_le lo * 1000000000)), Z.mod_add, (Z.mod_small (of_le hi)) by lia.
    destruct (half_i64 (of_le lo)) as [-> _]; [lia|]. destruct (half_i64 (of_le hi)) as [-> _]; [lia|].
    rewrite Ebytes. f_equal; [rewrite <- Hllo|rewrite <- Hlhi]; by apply to_of_le.
Qed.

(** ** Reading and querying *)

Section calls.
Context {S : Type} `{!UserSpace S, !UserSpaceLaws S}.
Variable arch : Arch.

(** [read] delivers the pending count as eight bytes and clears it, and
    keeps it when the sink faults; it waits only with nothing pending, until
    the deadline when the timer is armed. *)
Theorem timer_read_correct sink now later (s : TimerFd * Io S) o :
  buffer_ok s.2 sink →
  let st := refresh now (state s.1) in
  wp (timer_read sink now later) (λ out s' _,
     match out with
     | ReadDone (Ok n) => n = 8%nat ∧ expirations st ≠ 0 ∧ stored s.2 s'.2 sink 0 (to_le 8 (expirations st)) ∧
         state s'.1 = mkTimer (deadline_ns st) (interval_ns st) 0
     | ReadDone (Err EInvalid) => (buffer_len sink < 8)%nat ∧ s' = s
     | ReadDone (Err EFault) => state s'.1 = st ∧ ∃ e, pin_error (S:=S) FaultWrite e
     | ReadDone (Err ETryAgain) => nonblocking s.1 = true ∧ expirations st = 0 ∧ state s'.1 = st
     | ReadDone (Err _) => False
     | WaitChanged => nonblocking s.1 = false ∧ expirations st = 0 ∧ deadline_ns st = 0 ∧ state s'.1 = st ∧
         signaled (changed s'.1) = false
     | WaitTimeout ns => nonblocking s.1 = false ∧ expirations st = 0 ∧ deadline_ns st ≠ 0 ∧ state s'.1 = st ∧
         signaled (changed s'.1) = false ∧ ns = Z.max 1 (deadline_ns st - later)
     end) s o.
Proof.
  intros Hok st. unfold timer_read. destruct (Nat.ltb_spec (buffer_len sink) 8) as [Hl|Hl]; [by wp_step|].
  do 4 wp_step. cbn [state with_state fst snd]. fold st. destruct (Z.eqb_spec (expirations st) 0) as [E|E]; cbn [negb].
  - destruct (nonblocking s.1) eqn:En; cbn [with_state nonblocking]; rewrite ?En; [by wp_step|]. do 2 wp_step.
    destruct (Z.eqb_spec (deadline_ns st) 0); wp_step; [done|]. split_and!; try done. unfold saturating_sub. lia.
  - wp_step. apply wp_zoom. cbn [snd]. eapply wp_mono; [by apply store_spec|].
    intros [[]|e] io' o' [-> Hr]; cbv beta iota.
    + do 2 wp_step. wp_step. destruct Hr as [_ ?]. done.
    + wp_step. split; [done|]. destruct Hr as [(_ & Hlt & _)|(_ & He & _)]; [rewrite length_to_le in Hlt; lia|by exists e].
Qed.

(** [timerfd_gettime] writes the interval and the time that remains to
    the next deadline, and fails on a null address, a descriptor that is not a
    timer, or memory that cannot be written. *)
Theorem gettime_correct d value now later (s : Sys S) o :
  0 ≤ value →
  let st := refresh now (state (timer s)) in
  let bytes := encode_timespec (interval_ns st) ++ encode_timespec (remaining_ns st later) in
  wp (timerfd_gettime arch d value now later) (λ r s' _,
     match r with
     | Ok v => v = 0 ∧ d = IsTimer ∧ value ≠ 0 ∧ state (timer s') = st ∧ user_stored (mem s) (mem s') value bytes
     | Err e => (value = 0 ∧ e = EFault ∧ s' = s) ∨ (value ≠ 0 ∧ timer_of d = Err e ∧ s' = s) ∨
         (value ≠ 0 ∧ d = IsTimer ∧ state (timer s') = st ∧
          (e = EFault ∧ bad_range arch value 32 ∨ ∃ x, e = map_memory_error x ∧ faults (S:=S) FaultWrite value 32 x))
     end) s o.
Proof.
  intros Hv st bytes. unfold timerfd_gettime. destruct (Z.eqb_spec value 0) as [->|Hne]; [wp_step; by left|].
  do 2 wp_step. destruct d; cbn [timer_of]; [right; left; done|right; left; done|].
  do 2 wp_step. unfold current_time. fold st. wp_step. unfold on_timer. wp_step. wp_step.
  assert (length bytes = 32%nat) as Hlb by (unfold bytes, encode_timespec; by rewrite !length_app, !length_to_le).
  unfold on_mem. apply wp_zoom. unfold write_user_itimerspec. wp_step.
  eapply wp_mono; [apply (write_user_spec arch (mem s)); done|]. fold bytes. rewrite Hlb.
  intros [[]|e] m' o' [-> Hr]; cbn [map_err]; wp_step.
  - wp_step. by destruct Hr as [_ ?].
  - right. right. split_and!; try done. destruct Hr as [(-> & ? & _)|(? & _)]; [left; done|right; by exists e].
Qed.
End calls.

(** ** Witnesses *)

(** Armed at 100 with an interval of 30, looked at 170. *)
Definition demo_timer : TimerState := mkTimer 100 30 0.
Lemma demo_timer_ok : timer_ok demo_timer.
Proof. split; done. Qed.

Lemma refresh_counts_witness :
  let st' := refresh 170 demo_timer in
  let count := expirations st' - 0 in
  st' = mkTimer 190 30 3 ∧
  (∀ k, 0 ≤ k → k < count ↔ 100 + k * 30 ≤ 170) ∧
  deadline_ns st' = 100 + count * 30 ∧ 170 < deadline_ns st' ∧ interval_ns st' = 30.
Proof.
  split; [done|]. apply (refresh_counts demo_timer 170); [apply demo_timer_ok|done|simpl; lia|done].
Defined.

Lemma refresh_compose_witness : refresh 170 (refresh 135 demo_timer) = refresh 170 demo_timer.
Proof. apply (refresh_compose demo_timer 135 170); [apply demo_timer_ok|done|lia]. Defined.


Definition demo_fd : TimerFd := mkTimerFd CLOCK_MONOTONIC demo_timer flag_new false.
Lemma timer_read_correct_witness :
  let s := (demo_fd, demo_io) in
  let st := refresh 170 demo_timer in
  wp (timer_read (BKernel 0 8) 170 171) (λ out s' _,
     match out with
     | ReadDone (Ok n) => n = 8%nat ∧ expirations st ≠ 0 ∧ stored s.2 s'.2 (BKernel 0 8) 0 (to_le 8 (expirations st)) ∧
         state s'.1 = mkTimer (deadline_ns st) (interval_ns st) 0
     | ReadDone (Err EInvalid) => (buffer_len (BKernel 0 8) < 8)%nat ∧ s' = s
     | ReadDone (Err EFault) => state s'.1 = st ∧ ∃ e, pin_error (S:=DemoSpace) FaultWrite e
     | ReadDone (Err ETryAgain) => nonblocking s.1 = true ∧ expirations st = 0 ∧ state s'.1 = st
     | ReadDone (Err _) => False
     | WaitChanged => nonblocking s.1 = false ∧ expirations st = 0 ∧ deadline_ns st = 0 ∧ state s'.1 = st ∧
         signaled (changed s'.1) = false
     | WaitTimeout ns => nonblocking s.1 = false ∧ expirations st = 0 ∧ deadline_ns st ≠ 0 ∧ state s'.1 = st ∧
         signaled (changed s'.1) = false ∧ ns = Z.max 1 (deadline_ns st - 171)
     end) s [].
Proof. apply (timer_read_correct (BKernel 0 8) 170 171 (demo_fd, demo_io) []). split; simpl; lia. Defined.

Lemma gettime_correct_witness :
  let s := mkSys demo_fd (mkDemo ∅) in
  let st := refresh 170 demo_timer in
  wp (timerfd_gettime X86_64 IsTimer 65536 170 171) (λ r s' _,
     match r with
     | Ok v => v = 0 ∧ IsTimer = IsTimer ∧ 65536 ≠ 0 ∧ state (timer s') = st ∧
         user_stored (mem s) (mem s') 65536 (encode_timespec (interval_ns st) ++ encode_timespec (remaining_ns st 171))
     | Err e => (65536 = 0 ∧ e = EFault ∧ s' = s) ∨ (65536 ≠ 0 ∧ timer_of IsTimer = Err e ∧ s' = s) ∨
         (65536 ≠ 0 ∧ IsTimer = IsTimer ∧ state (timer s') = st ∧
          (e = EFault ∧ bad_range X86_64 65536 32 ∨ ∃ x, e = map_memory_error x ∧ faults (S:=DemoSpace) FaultWrite 65536 32 x))
     end) s [].
Proof. apply (gettime_correct X86_64 IsTimer 65536 170 171 (mkSys demo_fd (mkDemo ∅)) []). lia. Defined.
