(* ===== verification/Klog.v ===== *)
(** Kernel log packets ([sys/klog/packet.rs]): the wire format, clamping of the
    text, and the ring with its publication words.

    [append] and [fetch] run without interruption; [KlogRing.v] interleaves
    their atomic steps. *)
From S2P Require Import Prelude.
From S2P Require Import Bytes.
Open Scope rust_scope.

Definition PACKET_MAGIC : Z := 0x474f4c4b.
Definition PACKET_VERSION : Z := 1.
Definition HEADER_SIZE : nat := 40.
Definition PAYLOAD_CAPACITY : nat := 256.
Definition MAX_PACKET_SIZE : nat := 296.
Definition RING_SLOTS : Z := 512.
Definition SUBSYSTEM_LIMIT : nat := 32.
Definition FILE_LIMIT : nat := 48.
Definition MESSAGE_LIMIT : nat := 176.
Definition SLOT_MASK : Z := RING_SLOTS - 1.
Definition COMMITTED : Z := 1.
Definition FLAG_TRUNCATED : Z := 1.

Record Header : Type := mkHeader {
  magic : Z; hlength : Z; level : Z; version : Z; sequence : Z; timestamp_ns : Z; cpu : Z; line : Z;
  thread : Z; subsystem_len : Z; file_len : Z; message_len : Z; flags : Z; reserved : list Z;
}.
(** [Header::empty] *)
Definition header_empty : Header :=
  mkHeader PACKET_MAGIC (Z.of_nat HEADER_SIZE) 0 PACKET_VERSION 0 0 0 0 0 0 0 0 0 [0; 0; 0].

(** [Header::encode] *)
Definition encode (h : Header) : list Z :=
  to_le 4 (magic h) ++ to_le 2 (hlength h) ++ [level h] ++ [version h] ++ to_le 8 (sequence h) ++
  to_le 8 (timestamp_ns h) ++ to_le 2 (cpu h) ++ to_le 2 (line h) ++ to_le 4 (thread h) ++ [subsystem_len h] ++
  [file_len h] ++ to_le 2 (message_len h) ++ [flags h] ++ reserved h.

Record RecordData : Type := mkRecord {
  r_level : Z; r_flags : Z; r_timestamp_ns : Z; r_cpu : Z; r_line : Z; r_thread : Z;
  r_subsystem : list Z; r_file : list Z; r_message : list Z;
}.

Inductive Fetch : Type :=
| Ready (length : nat)
| Pending
| Lost (sequence : Z).

Record PacketBuffer : Type := mkBuffer { pb_bytes : list Z; pb_length : nat; pb_header : Header }.
(** [PacketBuffer::new], [bytes], [subsystem] and [message] *)
Definition buffer_new : PacketBuffer := mkBuffer (replicate MAX_PACKET_SIZE 0) 0 header_empty.
Definition buffer_bytes (b : PacketBuffer) : list Z := slice (pb_bytes b) 0 (pb_length b).
Definition buffer_subsystem (b : PacketBuffer) : list Z :=
  let end_ := (HEADER_SIZE + Z.to_nat (subsystem_len (pb_header b)))%nat in
  slice (pb_bytes b) HEADER_SIZE (Nat.min end_ (pb_length b)).
Definition buffer_message (b : PacketBuffer) : list Z :=
  let start := (HEADER_SIZE + Z.to_nat (subsystem_len (pb_header b)) + Z.to_nat (file_len (pb_header b)))%nat in
  let end_ := (start + Z.to_nat (message_len (pb_header b)))%nat in
  if (pb_length b <=? start)%nat then [] else slice (pb_bytes b) start (Nat.min end_ (pb_length b)).

(** [while end > 0 && bytes[end] & 0xc0 == 0x80 { end -= 1 }] *)
Fixpoint clamp_end (bytes : list Z) (end_ : nat) : nat :=
  match end_ with
  | O => O
  | S e => if Z.land (default 0 (bytes !! end_)) 0xc0 =? 0x80 then clamp_end bytes e else end_
  end.
Definition clamp (bytes : list Z) (limit : nat) : list Z :=
  if (length bytes <=? limit)%nat then bytes else take (clamp_end bytes limit) bytes.

Record Slot : Type := mkSlot { s_state : Z; s_header : Header; s_payload : list Z }.
Definition slot_new : Slot := mkSlot 0 header_empty (replicate PAYLOAD_CAPACITY 0).
Record Ring : Type := mkRing { slots : list Slot; next : Z; truncated : Z }.
(** [Ring::new], [next_sequence], [first_sequence] *)
Definition ring_new : Ring := mkRing (replicate (Z.to_nat RING_SLOTS) slot_new) 0 0.
Definition next_sequence (r : Ring) : Z := next r.
Definition first_sequence (r : Ring) : Z := saturating_sub (next_sequence r) RING_SLOTS.

(** The slot of a sequence number. *)
Definition slot_index (seq : Z) : nat := Z.to_nat (Z.land seq SLOT_MASK).

(** What [append] computes of a record: its header, its payload bytes, and
    whether the message was cut. *)
Definition compose (seq : Z) (r : RecordData) : Header * list Z * bool :=
  let subsystem := clamp (r_subsystem r) SUBSYSTEM_LIMIT in
  let file := clamp (r_file r) FILE_LIMIT in
  let room := (PAYLOAD_CAPACITY - length subsystem - length file)%nat in
  let message := clamp (r_message r) room in
  let cut := negb (length message =? length (r_message r))%nat in
  let fl := if cut then Z.lor (r_flags r) FLAG_TRUNCATED else r_flags r in
  let total := (HEADER_SIZE + length subsystem + length file + length message)%nat in
  (mkHeader PACKET_MAGIC (Z.of_nat total mod 65536) (r_level r) PACKET_VERSION seq (r_timestamp_ns r) (r_cpu r) (r_line r)
     (r_thread r) (Z.of_nat (length subsystem) mod 256) (Z.of_nat (length file) mod 256)
     (Z.of_nat (length message) mod 65536) fl [0; 0; 0],
   subsystem ++ file ++ message, cut).

(** The loop that copies the three parts into the payload. *)
Fixpoint write_parts (payload : list Z) (cursor : nat) (parts : list (list Z)) : list Z :=
  match parts with
  | [] => payload
  | part :: parts => write_parts (copy_into payload cursor part) (cursor + length part) parts
  end.

(** [Ring::append]: the stores to the slot in the order of the code. *)
Definition append (r : RecordData) (ring : Ring) : Z * Ring :=
  let seq := next ring in
  let i := slot_index seq in
  let slot := default slot_new (slots ring !! i) in
  let slot := mkSlot (u64_shl seq 1) (s_header slot) (s_payload slot) in
  let subsystem := clamp (r_subsystem r) SUBSYSTEM_LIMIT in
  let file := clamp (r_file r) FILE_LIMIT in
  let message := clamp (r_message r) (PAYLOAD_CAPACITY - length subsystem - length file) in
  let '(header, _, cut) := compose seq r in
  let slot := mkSlot (s_state slot) (s_header slot) (write_parts (s_payload slot) 0 [subsystem; file; message]) in
  let slot := mkSlot (s_state slot) header (s_payload slot) in
  let slot := mkSlot (Z.lor (u64_shl seq 1) COMMITTED) (s_header slot) (s_payload slot) in
  (seq, mkRing (<[i := slot]> (slots ring)) (u64_add (next ring) 1)
          (if (cut : bool) then u64_add (truncated ring) 1 else truncated ring)).

(** The check of the publication word before the copy. *)
Definition check_state (before seq first : Z) : option Fetch :=
  if before =? 0 then Some Pending
  else
    let stored := Z.shiftr before 1 in
    if seq <? stored then Some (Lost first)
    else if (stored <? seq) || (Z.land before COMMITTED =? 0) then Some Pending
    else None.

(** What [fetch] does with a validated copy. *)
Definition deliver (header : Header) (payload : list Z) (out : PacketBuffer) : Fetch * PacketBuffer :=
  let sub := Nat.min (Z.to_nat (subsystem_len header)) PAYLOAD_CAPACITY in
  let file := Nat.min (Z.to_nat (file_len header)) (PAYLOAD_CAPACITY - sub) in
  let message := Nat.min (Z.to_nat (message_len header)) (PAYLOAD_CAPACITY - sub - file) in
  let payload_len := (sub + file + message)%nat in
  let header := mkHeader (magic header) (Z.of_nat (HEADER_SIZE + payload_len) mod 65536) (level header) (version header)
    (sequence header) (timestamp_ns header) (cpu header) (line header) (thread header)
    (Z.of_nat sub mod 256) (Z.of_nat file mod 256) (Z.of_nat message mod 65536) (flags header) (reserved header) in
  let bytes := copy_into (pb_bytes out) 0 (encode header) in
  let bytes := copy_into bytes HEADER_SIZE (slice payload 0 payload_len) in
  (Ready (HEADER_SIZE + payload_len), mkBuffer bytes (HEADER_SIZE + payload_len) header).

(** [Ring::fetch] *)
Definition fetch (seq : Z) (out : PacketBuffer) (ring : Ring) : Fetch * PacketBuffer :=
  let slot := default slot_new (slots ring !! slot_index seq) in
  let before := s_state slot in
  match check_state before seq (first_sequence ring) with
  | Some f => (f, out)
  | None =>
      let '(header, payload) := (s_header slot, s_payload slot) in
      if negb (s_state slot =? before) then (Lost (first_sequence ring), out)
      else deliver header payload out
  end.

(** ** The wire format as a reader decodes it *)

Definition decode_header (l : list Z) : Header :=
  mkHeader (of_le (slice l 0 4)) (of_le (slice l 4 6)) (of_le (slice l 6 7)) (of_le (slice l 7 8)) (of_le (slice l 8 16))
    (of_le (slice l 16 24)) (of_le (slice l 24 26)) (of_le (slice l 26 28)) (of_le (slice l 28 32)) (of_le (slice l 32 33))
    (of_le (slice l 33 34)) (of_le (slice l 34 36)) (of_le (slice l 36 37)) (slice l 37 40).

(** Fields that fit their widths. *)
Record header_ok (h : Header) : Prop := {
  ho_magic : 0 ≤ magic h < 4294967296; ho_length : 0 ≤ hlength h < 65536;
  ho_level : is_byte (level h); ho_version : is_byte (version h);
  ho_sequence : is_u64 (sequence h); ho_timestamp : is_u64 (timestamp_ns h);
  ho_cpu : 0 ≤ cpu h < 65536; ho_line : 0 ≤ line h < 65536; ho_thread : 0 ≤ thread h < 4294967296;
  ho_subsystem : is_byte (subsystem_len h); ho_file : is_byte (file_len h);
  ho_message : 0 ≤ message_len h < 65536; ho_flags : is_byte (flags h); ho_reserved : length (reserved h) = 3%nat;
}.
Record record_ok (r : RecordData) : Prop := {
  ro_level : is_byte (r_level r); ro_flags : is_byte (r_flags r); ro_timestamp : is_u64 (r_timestamp_ns r);
  ro_cpu : 0 ≤ r_cpu r < 65536; ro_line : 0 ≤ r_line r < 65536; ro_thread : 0 ≤ r_thread r < 4294967296;
}.
