(* ===== verification/KlogSpec.v ===== *)
(** The wire format and the text of kernel log packets: encoding round trips,
    clamping on character boundaries, and what a fetched packet holds. *)
From S2P Require Import Prelude.
From S2P Require Import Bytes.
From S2P Require Import Klog.
Open Scope rust_scope.

(** ** The header *)

Lemma of_le_byte b : of_le [b] = b.
Proof. simpl. lia. Qed.

Lemma length_encode h : length (reserved h) = 3%nat → length (encode h) = HEADER_SIZE.
Proof. intros Hr. unfold encode. rewrite !length_app, !length_to_le, Hr. done. Qed.

Lemma decode_encode h : header_ok h → decode_header (encode h) = h.
Proof.
  intros []. destruct h as [mg hl lv ve sq ts cp li th sl fl ml fg [|r0 [|r1 [|r2 [|? ?]]]]]; simpl in *; try done.
  unfold decode_header.
  set (e := encode _).
  change (slice e 0 4) with (to_le 4 mg). change (slice e 4 6) with (to_le 2 hl). change (slice e 6 7) with [lv].
  change (slice e 7 8) with [ve]. change (slice e 8 16) with (to_le 8 sq). change (slice e 16 24) with (to_le 8 ts).
  change (slice e 24 26) with (to_le 2 cp). change (slice e 26 28) with (to_le 2 li). change (slice e 28 32) with (to_le 4 th).
  change (slice e 32 33) with [sl]. change (slice e 33 34) with [fl]. change (slice e 34 36) with (to_le 2 ml).
  change (slice e 36 37) with [fg]. change (slice e 37 40) with [r0; r1; r2].
  rewrite !of_to_le, !of_le_byte; try done.
Qed.

Lemma decode_encode_app h p : header_ok h → decode_header (encode h ++ p) = h.
Proof.
  intros Hh. rewrite <- (decode_encode h Hh) at 2. pose proof (length_encode h (ho_reserved h Hh)) as Hl. unfold HEADER_SIZE in Hl.
  unfold decode_header. by rewrite !(slice_app_l (encode h) p) by lia.
Qed.

(** ** Clamping *)

Definition is_cont (b : Z) : bool := Z.land b 0xc0 =? 0x80.
(** The bytes of one character: a byte that starts one, and continuations. *)
Definition utf8_char (c : list Z) : Prop :=
  ∃ b rest, c = b :: rest ∧ is_cont b = false ∧ Forall (λ b, is_cont b = true) rest.

Lemma clamp_end_spec bytes n :
  (clamp_end bytes n ≤ n)%nat ∧
  (clamp_end bytes n = 0%nat ∨ is_cont (default 0 (bytes !! clamp_end bytes n)) = false) ∧
  ∀ m, (m ≤ n)%nat → is_cont (default 0 (bytes !! m)) = false → (m ≤ clamp_end bytes n)%nat.
Proof.
  induction n as [|n IH]; cbn [clamp_end]; [split_and!; [lia|by left|lia]|].
  change (Z.land (default 0 (bytes !! S n)) 0xc0 =? 0x80) with (is_cont (default 0 (bytes !! S n))).
  destruct (is_cont (default 0 (bytes !! S n))) eqn:E; [|split_and!; [lia|by right|lia]].
  destruct IH as (H1 & H2 & H3). split_and!; [lia|done|]. intros m Hm Hc.
  destruct (decide (m = S n)) as [->|]; [congruence|]. apply H3; [lia|done].
Qed.

Lemma length_clamp bytes limit : (length (clamp bytes limit) ≤ limit)%nat ∧ (length (clamp bytes limit) ≤ length bytes)%nat.
Proof.
  unfold clamp. destruct (Nat.leb_spec (length bytes) limit); [done|].
  destruct (clamp_end_spec bytes limit) as (? & _). rewrite length_take. lia.
Qed.

(** Character starts are the lengths of prefixes of whole characters. *)
Lemma char_start cs : Forall utf8_char cs → ∀ n b, concat cs !! n = Some b →
  is_cont b = false ↔ ∃ k, (k < length cs)%nat ∧ n = length (concat (take k cs)).
Proof.
  induction 1 as [|c cs (b0 & rest & -> & Hb0 & Hrest) Hcs IH]; intros n b Hn; [done|].
  change (concat ((b0 :: rest) :: cs)) with ((b0 :: rest) ++ concat cs) in Hn.
  destruct (decide (n < length (b0 :: rest))%nat) as [Hlt|Hge].
  - rewrite lookup_app_l in Hn by done. destruct n as [|n]; simpl in Hn.
    + injection Hn as <-. split; [|done]. intros _. exists 0%nat. simpl. split; [lia|done].
    + rewrite Forall_lookup in Hrest. rewrite (Hrest n b Hn). split; [done|]. intros (k & Hk & He). exfalso.
      destruct k as [|k]; simpl in He; [done|]. rewrite length_app in He. simpl in Hlt. lia.
  - rewrite lookup_app_r in Hn by lia. rewrite (IH _ _ Hn). split; intros (k & Hk & He).
    + exists (S k). simpl in *. rewrite length_app. split; [lia|lia].
    + destruct k as [|k]; simpl in *; [lia|]. exists k. rewrite length_app in He. split; lia.
Qed.

Lemma concat_take_app (cs : list (list Z)) k : concat cs = concat (take k cs) ++ concat (drop k cs).
Proof. by rewrite <- concat_app, take_drop. Qed.

Lemma clamp_chars cs limit :
  Forall utf8_char cs →
  ∃ k, clamp (concat cs) limit = concat (take k cs) ∧
    ∀ j, (length (concat (take j cs)) ≤ limit)%nat → (length (concat (take j cs)) ≤ length (clamp (concat cs) limit))%nat.
Proof.
  intros Hcs. unfold clamp. destruct (Nat.leb_spec (length (concat cs)) limit) as [Hle|Hgt].
  { exists (length cs). rewrite take_ge by done. split; [done|]. intros j _.
    pose proof (f_equal length (concat_take_app cs j)) as E. rewrite length_app in E. lia. }
  destruct (clamp_end_spec (concat cs) limit) as (H1 & H2 & H3). set (n := clamp_end (concat cs) limit) in *.
  assert (∃ k, n = length (concat (take k cs))) as [k Hk].
  { destruct H2 as [H2|H2]; [exists 0%nat; by rewrite H2|]. destruct (lookup_lt_is_Some_2 (concat cs) n) as [b Hb]; [lia|].
    rewrite Hb in H2. apply (char_start cs Hcs n b Hb) in H2 as (k & _ & ?). by exists k. }
  exists k. split; [rewrite Hk, (concat_take_app cs k); apply take_app_length|].
  intros j Hj. rewrite length_take_le by lia. apply H3; [done|].
  destruct (lookup_lt_is_Some_2 (concat cs) (length (concat (take j cs)))) as [b Hb]; [lia|]. rewrite Hb. simpl.
  apply (char_start cs Hcs _ b Hb). exists j. split; [|done].
  destruct (decide (j < length cs)%nat); [done|]. rewrite take_ge in Hj by lia. lia.
Qed.

(** ** The record and the packet *)

Lemma compose_sizes seq r :
  let sub := clamp (r_subsystem r) SUBSYSTEM_LIMIT in
  let file := clamp (r_file r) FILE_LIMIT in
  let message := clamp (r_message r) (PAYLOAD_CAPACITY - length sub - length file) in
  (length sub ≤ 32)%nat ∧ (length file ≤ 48)%nat ∧ (length sub + length file + length message ≤ 256)%nat ∧
  (compose seq r).1.2 = sub ++ file ++ message.
Proof.
  intros sub file message. destruct (length_clamp (r_subsystem r) SUBSYSTEM_LIMIT) as [H1 _].
  destruct (length_clamp (r_file r) FILE_LIMIT) as [H2 _].
  destruct (length_clamp (r_message r) (PAYLOAD_CAPACITY - length sub - length file)) as [H3 _].
  fold sub in H1. fold file in H2. fold message in H3.
  unfold SUBSYSTEM_LIMIT, FILE_LIMIT, PAYLOAD_CAPACITY in *. split_and!; [done|done|lia|done].
Qed.

(** The header of a record: every field of the producer, and the lengths. *)
Definition header_of (seq : Z) (r : RecordData) : Header := (compose seq r).1.1.
Definition payload_of (seq : Z) (r : RecordData) : list Z := (compose seq r).1.2.

Lemma lor_byte a : is_byte a → is_byte (Z.lor a 1).
Proof.
  unfold is_byte. intros Ha. split; [apply Z.lor_nonneg; lia|]. apply Z.log2_lt_pow2 with (b := 8); [|].
  - assert (0 ≤ Z.lor a 1) by (apply Z.lor_nonneg; lia). destruct (decide (Z.lor a 1 = 0)) as [E|]; [|lia].
    apply Z.lor_eq_0_iff in E. lia.
  - rewrite Z.log2_lor by lia. change (Z.log2 1) with 0. apply Z.max_lub_lt; [|lia].
    destruct (decide (a = 0)) as [->|]; [done|]. apply Z.log2_lt_pow2; lia.
Qed.

Lemma header_of_ok seq r : is_u64 seq → record_ok r → header_ok (header_of seq r).
Proof.
  intros Hs []. pose proof (compose_sizes seq r) as (H1 & H2 & H3 & _). unfold header_of, compose.
  split; simpl; try done; try (apply Z.mod_pos_bound; lia).
  destruct (negb _); [|done]. by apply lor_byte.
Qed.

(** A payload that starts with the bytes of the record. *)
Definition carries (payload bytes : list Z) : Prop := take (length bytes) payload = bytes.

Lemma copy_twice (l e p : list Z) :
  (length e + length p ≤ length l)%nat →
  copy_into (copy_into l 0 e) (length e) p = e ++ p ++ drop (length e + length p) l.
Proof.
  intros Hl. unfold copy_into. rewrite take_0. cbn [app]. rewrite Nat.add_0_l, take_app_length.
  rewrite drop_app_ge by lia. rewrite drop_drop. do 3 f_equal. lia.
Qed.

Lemma slice_mid (a b c : list Z) x y : x = length a → y = (length a + length b)%nat → slice (a ++ b ++ c) x y = b.
Proof.
  intros -> ->. rewrite slice_app_r by done. rewrite Nat.sub_diag, Nat.add_comm, Nat.add_sub.
  rewrite slice_app_l by done. apply slice_all.
Qed.

Lemma deliver_spec seq r payload out :
  is_u64 seq → record_ok r → carries payload (payload_of seq r) → length (pb_bytes out) = MAX_PACKET_SIZE →
  let '(f, b) := deliver (header_of seq r) payload out in
  f = Ready (pb_length b) ∧ pb_header b = header_of seq r ∧
  buffer_bytes b = encode (header_of seq r) ++ payload_of seq r ∧
  buffer_subsystem b = clamp (r_subsystem r) SUBSYSTEM_LIMIT ∧
  buffer_message b = clamp (r_message r)
    (PAYLOAD_CAPACITY - length (clamp (r_subsystem r) SUBSYSTEM_LIMIT) - length (clamp (r_file r) FILE_LIMIT)).
Proof.
  intros Hs Hr Hc Hout. pose proof (compose_sizes seq r) as (H1 & H2 & H3 & Hp).
  assert (payload_of seq r = (compose seq r).1.2) as Ep by done. rewrite Hp in Ep.
  set (sub := clamp (r_subsystem r) SUBSYSTEM_LIMIT) in *. set (file := clamp (r_file r) FILE_LIMIT) in *.
  set (message := clamp (r_message r) (PAYLOAD_CAPACITY - length sub - length file)) in *.
  assert (subsystem_len (header_of seq r) = Z.of_nat (length sub)) as Es by (apply Z.mod_small; lia).
  assert (file_len (header_of seq r) = Z.of_nat (length file)) as Ef by (apply Z.mod_small; lia).
  assert (message_len (header_of seq r) = Z.of_nat (length message)) as Em by (apply Z.mod_small; lia).
  assert (hlength (header_of seq r) = Z.of_nat (40 + length sub + length file + length message)) as El by (apply Z.mod_small; unfold HEADER_SIZE; fold sub file message; lia).
  unfold deliver. rewrite Es, Ef, Em, !Nat2Z.id. unfold PAYLOAD_CAPACITY in *. rewrite !Nat.min_l by lia.
  rewrite !Z.mod_small by (unfold HEADER_SIZE; lia).
  set (h := mkHeader _ _ _ _ _ _ _ _ _ _ _ _ _ _).
  assert (h = header_of seq r) as ->.
  { unfold h. rewrite <- Es, <- Ef, <- Em. replace (Z.of_nat (HEADER_SIZE + (length sub + length file + length message))) with (hlength (header_of seq r)) by (unfold HEADER_SIZE; lia).
    by destruct (header_of seq r). }
  assert (slice payload 0 (length sub + length file + length message) = sub ++ file ++ message) as ->.
  { unfold carries in Hc. rewrite Ep in Hc. unfold slice. rewrite drop_0, Nat.sub_0_r. etrans; [|exact Hc]. f_equal.
    rewrite !length_app. lia. }
  assert (length (encode (header_of seq r)) = HEADER_SIZE) as Hle by (apply length_encode, header_of_ok; done).
  set (e := encode (header_of seq r)) in *.
  assert (copy_into (copy_into (pb_bytes out) 0 e) HEADER_SIZE (sub ++ file ++ message) =
          e ++ (sub ++ file ++ message) ++ drop (length e + length (sub ++ file ++ message)) (pb_bytes out)) as ->.
  { rewrite <- Hle. apply copy_twice. rewrite Hle, Hout, !length_app. unfold HEADER_SIZE, MAX_PACKET_SIZE. lia. }
  set (tail := drop _ _).
  split; [done|]. split; [done|]. unfold buffer_bytes, buffer_subsystem, buffer_message. cbn [pb_bytes pb_length pb_header].
  rewrite Es, Ef, Em, !Nat2Z.id, <- Hle. split; [|split].
  - rewrite (assoc_L app), slice_app_l by (rewrite !length_app; lia). rewrite Ep. etrans; [|apply slice_all]. f_equal.
    rewrite !length_app. lia.
  - rewrite Nat.min_l by lia. rewrite <- !(assoc_L app). by apply slice_mid.
  - destruct (Nat.leb_spec (length e + (length sub + length file + length message)) (length e + length sub + length file)) as [Hz|Hz].
    + destruct message; [done|]. simpl in Hz. lia.
    + rewrite Nat.min_l by lia. replace (e ++ (sub ++ file ++ message) ++ tail) with ((e ++ sub ++ file) ++ message ++ tail) by (by rewrite <- !(assoc_L app)).
      apply slice_mid; rewrite !length_app; lia.
Qed.
