(* ===== verification/KlogRing.v ===== *)
(** The kernel log ring under concurrency ([Ring::append] and [Ring::fetch] of
    [sys/klog/packet.rs]): producers and a reader interleaved at each atomic
    operation and at each cell they copy.

    A slot's record is an array of cells, the fields of the header followed by
    the bytes of the payload, written and read one at a time. *)
From S2P Require Import Prelude.
From S2P Require Import Bytes.
From S2P Require Import Klog.
From S2P Require Import KlogSpec.
Open Scope rust_scope.

Definition header_cells (h : Header) : list Z :=
  [magic h; hlength h; level h; version h; sequence h; timestamp_ns h; cpu h; line h; thread h; subsystem_len h;
   file_len h; message_len h; flags h] ++ reserved h.
Definition header_of_cells (l : list Z) : Header :=
  let f i := nth i l 0 in
  mkHeader (f 0%nat) (f 1%nat) (f 2%nat) (f 3%nat) (f 4%nat) (f 5%nat) (f 6%nat) (f 7%nat) (f 8%nat) (f 9%nat)
    (f 10%nat) (f 11%nat) (f 12%nat) (slice l 13 16).
Definition HEADER_CELLS : nat := 16.
Definition SLOT_CELLS : nat := 272.

Record SlotMem : Type := mkMem { st : Z; cells : list Z }.

(** A producer between its claim and its commit: it has not reserved the slot
    yet, or has these stores left. *)
Inductive Writer : Type :=
| Claimed
| Writing (todo : list (nat * Z)).
(** The reader inside [fetch], with the cells copied so far. *)
Inductive Reader : Type :=
| Idle
| Reading (seq : nat) (before : Z) (got : list Z).
(** What a [fetch] ended with. *)
Inductive Obs : Type :=
| ObsFetch (seq : nat) (f : Fetch)
| ObsPacket (seq : nat) (header : Header) (payload : list Z).

Record Conf : Type := mkConf {
  mem : list SlotMem;
  log : list RecordData;          (* the records claimed, by sequence *)
  writers : gmap nat Writer;      (* the producers at work, by sequence *)
  reader : Reader;
  seen : list Obs;
}.
Definition conf_new : Conf := mkConf (replicate 512 (mkMem 0 (replicate SLOT_CELLS 0))) [] ∅ Idle [].

Definition slot_of (q : nat) : nat := slot_index (Z.of_nat q).
Definition on_slot (q : nat) (f : SlotMem → SlotMem) (c : Conf) : Conf :=
  mkConf (alter f (slot_of q) (mem c)) (log c) (writers c) (reader c) (seen c).
Definition with_writers (f : gmap nat Writer → gmap nat Writer) (c : Conf) : Conf :=
  mkConf (mem c) (log c) (f (writers c)) (reader c) (seen c).
Definition with_reader (r : Reader) (c : Conf) : Conf := mkConf (mem c) (log c) (writers c) r (seen c).
Definition observe (o : Obs) (c : Conf) : Conf := mkConf (mem c) (log c) (writers c) Idle (seen c ++ [o]).

Fixpoint indexed (base : nat) (l : list Z) : list (nat * Z) :=
  match l with [] => [] | x :: l => (base, x) :: indexed (S base) l end.
(** The stores of [append]: the payload, then the header. *)
Definition program (q : nat) (r : RecordData) : list (nat * Z) :=
  indexed HEADER_CELLS (payload_of (Z.of_nat q) r) ++ indexed 0 (header_cells (header_of (Z.of_nat q) r)).

Inductive Action : Type :=
| AClaim (r : RecordData)    (* next.fetch_add *)
| AReserve (q : nat)         (* state.store(sequence << 1) *)
| AWrite (q : nat)           (* one cell *)
| ACommit (q : nat)          (* state.store((sequence << 1) | COMMITTED) *)
| AStart (seq : nat)         (* the load and the checks of [before] *)
| ARead                      (* one cell *)
| AFinish.                   (* the validation load *)

(** No producer at work owns the slot of the next sequence. *)
Definition slot_free (c : Conf) : bool :=
  forallb (λ q, negb (slot_of q =? slot_of (length (log c)))%nat) (map_to_list (writers c)).*1.
Definition first_of (c : Conf) : Z := saturating_sub (Z.of_nat (length (log c))) RING_SLOTS.

(** One action; with [strict], a sequence is claimed only when the ring has
    not come around to a producer still at work. *)
Definition act (strict : bool) (a : Action) (c : Conf) : option Conf :=
  match a with
  | AClaim r =>
      if (strict && negb (slot_free c)) || (9223372036854775807 <=? Z.of_nat (length (log c))) then None
      else Some (mkConf (mem c) (log c ++ [r]) (<[length (log c) := Claimed]> (writers c)) (reader c) (seen c))
  | AReserve q =>
      match writers c !! q, log c !! q with
      | Some Claimed, Some r =>
          Some (with_writers (<[q := Writing (program q r)]>)
                  (on_slot q (λ m, mkMem (u64_shl (Z.of_nat q) 1) (cells m)) c))
      | _, _ => None
      end
  | AWrite q =>
      match writers c !! q with
      | Some (Writing ((i, v) :: todo)) =>
          Some (with_writers (<[q := Writing todo]>) (on_slot q (λ m, mkMem (st m) (<[i := v]> (cells m))) c))
      | _ => None
      end
  | ACommit q =>
      match writers c !! q with
      | Some (Writing []) =>
          Some (with_writers (delete q)
                  (on_slot q (λ m, mkMem (Z.lor (u64_shl (Z.of_nat q) 1) COMMITTED) (cells m)) c))
      | _ => None
      end
  | AStart seq =>
      match reader c, mem c !! slot_of seq with
      | Idle, Some m =>
          match check_state (st m) (Z.of_nat seq) (first_of c) with
          | Some f => Some (observe (ObsFetch seq f) c)
          | None => Some (with_reader (Reading seq (st m) []) c)
          end
      | _, _ => None
      end
  | ARead =>
      match reader c with
      | Reading seq before got =>
          match mem c !! slot_of seq ≫= λ m, cells m !! length got with
          | Some v => Some (with_reader (Reading seq before (got ++ [v])) c)
          | None => None
          end
      | Idle => None
      end
  | AFinish =>
      match reader c with
      | Reading seq before got =>
          match mem c !! slot_of seq with
          | Some m =>
              if (length got =? SLOT_CELLS)%nat then
                if negb (st m =? before) then Some (observe (ObsFetch seq (Lost (first_of c))) c)
                else Some (observe (ObsPacket seq (header_of_cells (take HEADER_CELLS got)) (drop HEADER_CELLS got)) c)
              else None
          | None => None
          end
      | Idle => None
      end
  end.

Inductive reach (strict : bool) : Conf → Prop :=
| reach_new : reach strict conf_new
| reach_act a c c' : reach strict c → act strict a c = Some c' → reach strict c'.

(** ** The cells of a record *)

Definition complete (q : nat) (r : RecordData) (l : list Z) : Prop :=
  take HEADER_CELLS l = header_cells (header_of (Z.of_nat q) r) ∧
  carries (drop HEADER_CELLS l) (payload_of (Z.of_nat q) r).

Definition apply_writes (todo : list (nat * Z)) (l : list Z) : list Z :=
  foldl (λ l p, <[p.1 := p.2]> l) l todo.

Lemma apply_indexed l : ∀ base (cs : list Z),
  (base + length l ≤ length cs)%nat → apply_writes (indexed base l) cs = copy_into cs base l.
Proof.
  induction l as [|x l IH]; intros base cs Hl; unfold copy_into; simpl in *.
  - by rewrite Nat.add_0_r, take_drop.
  - unfold apply_writes in *. simpl. rewrite IH by (rewrite length_insert; lia). unfold copy_into.
    rewrite (drop_insert_lt cs) by lia. replace (base + S (length l))%nat with (S base + length l)%nat by lia.
    assert (take (S base) (<[base := x]> cs) = take base cs ++ [x]) as ->.
    { rewrite (take_S_r _ _ x) by (apply list_lookup_insert_eq; lia). by rewrite take_insert_ge. }
    by rewrite <- (assoc_L app).
Qed.

Lemma header_cells_back h : length (reserved h) = 3%nat → header_of_cells (header_cells h) = h.
Proof. destruct h as [mg hl lv ve sq ts cp li th sl fl ml fg [|r0 [|r1 [|r2 [|? ?]]]]]; simpl; done. Qed.

Lemma program_completes q r l : length l = SLOT_CELLS → complete q r (apply_writes (program q r) l).
Proof.
  intros Hl. pose proof (compose_sizes (Z.of_nat q) r) as (_ & _ & Hp & Ep). unfold program, apply_writes. rewrite foldl_app.
  fold (apply_writes (indexed HEADER_CELLS (payload_of (Z.of_nat q) r)) l).
  assert (length (payload_of (Z.of_nat q) r) ≤ 256)%nat as Hlp by (unfold payload_of; rewrite Ep, !length_app; lia).
  assert (length (header_cells (header_of (Z.of_nat q) r)) = HEADER_CELLS) as Hlh by done.
  unfold SLOT_CELLS in Hl. rewrite apply_indexed by (unfold HEADER_CELLS; lia).
  fold (apply_writes (indexed 0 (header_cells (header_of (Z.of_nat q) r))) (copy_into l HEADER_CELLS (payload_of (Z.of_nat q) r))).
  assert (length (copy_into l HEADER_CELLS (payload_of (Z.of_nat q) r)) = 272%nat) as Hlc by (rewrite length_copy_into; unfold HEADER_CELLS; lia).
  rewrite apply_indexed by (rewrite Hlh, Hlc; unfold HEADER_CELLS; lia).
  set (hs := header_cells _) in *. set (p := payload_of _ r) in *.
  assert (∀ x : list Z, copy_into x 0 hs = hs ++ drop (length hs) x) as Hc0 by done. unfold complete. fold hs p. rewrite Hc0, Hlh. split.
  - rewrite <- Hlh. apply take_app_length.
  - unfold carries. rewrite <- Hlh at 1. rewrite drop_app_length. unfold copy_into.
    rewrite drop_app_length' by (rewrite length_take; unfold HEADER_CELLS; lia). apply take_app_length.
Qed.

Lemma slot_of_mod q : slot_of q = (q mod 512)%nat.
Proof.
  unfold slot_of, slot_index, SLOT_MASK, RING_SLOTS. change (512 - 1) with (Z.ones 9). rewrite Z.land_ones by lia.
  change (2 ^ 9) with (Z.of_nat 512). rewrite <- Nat2Z.inj_mod. apply Nat2Z.id.
Qed.
Lemma slot_of_lt q : (slot_of q < 512)%nat.
Proof. rewrite slot_of_mod. apply Nat.mod_upper_bound. lia. Qed.

Lemma shl_1 q : Z.of_nat q < 9223372036854775808 → u64_shl (Z.of_nat q) 1 = 2 * Z.of_nat q.
Proof. intros Hq. unfold u64_shl. rewrite Z.shiftl_mul_pow2 by lia. rewrite wrap64_small; [lia|]. unfold is_u64. lia. Qed.
Lemma lor_committed x : Z.lor (2 * x) COMMITTED = 2 * x + 1.
Proof.
  unfold COMMITTED. apply Z.bits_inj'. intros n Hn. rewrite Z.lor_spec. destruct (decide (n = 0)) as [->|Hne].
  - by rewrite Z.testbit_even_0, Z.testbit_odd_0.
  - rewrite (Z.bits_above_log2 1 n), orb_false_r by (simpl; lia).
    replace n with (Z.succ (n - 1)) by lia. by rewrite Z.testbit_even_succ, Z.testbit_odd_succ by lia.
Qed.
Lemma check_state_None before s first :
  check_state before s first = None → 0 ≤ before → before = 2 * s + 1.
Proof.
  unfold check_state, COMMITTED. destruct (before =? 0); [done|]. rewrite Z.shiftr_div_pow2 by lia. change (2 ^ 1) with 2.
  destruct (Z.ltb_spec s (before / 2)); [done|]. destruct (Z.ltb_spec (before / 2) s); [done|]. cbn [orb].
  assert (Z.land before 1 = before mod 2) as -> by (apply (Z.land_ones before 1); lia).
  destruct (Z.eqb_spec (before mod 2) 0); [done|]. intros _ Hb. pose proof (Z.div_mod before 2).
  pose proof (Z.mod_pos_bound before 2). lia.
Qed.

(** ** The invariant *)

(** The slot [q] lives in, as far as the ring has 512 of them. *)
Definition slot_at (c : Conf) (q : nat) (m : SlotMem) : Prop := mem c !! slot_of q = Some m.

Record ring_ok (c : Conf) : Prop := {
  ro_len : length (mem c) = 512%nat;
  ro_cells k m : mem c !! k = Some m → length (cells m) = SLOT_CELLS;
  ro_log : Z.of_nat (length (log c)) < 9223372036854775808;
  (* a publication word is that of a claimed sequence of the slot *)
  ro_state k m : mem c !! k = Some m →
    st m = 0 ∨ ∃ q, (q < length (log c))%nat ∧ slot_of q = k ∧ (st m = 2 * Z.of_nat q ∨ st m = 2 * Z.of_nat q + 1);
  ro_committed q m r : slot_at c q m → st m = 2 * Z.of_nat q + 1 → log c !! q = Some r → complete q r (cells m);
  ro_claimed q m : writers c !! q = Some Claimed → slot_at c q m →
    (q < length (log c))%nat ∧ (st m < 2 * Z.of_nat q ∨ q = 0%nat ∧ st m = 0);
  ro_writing q todo m : writers c !! q = Some (Writing todo) → slot_at c q m →
    st m = 2 * Z.of_nat q ∧ ∃ r, log c !! q = Some r ∧ complete q r (apply_writes todo (cells m));
  ro_distinct q q' : is_Some (writers c !! q) → is_Some (writers c !! q') → slot_of q = slot_of q' → q = q';
  ro_reader s before got m : reader c = Reading s before got → slot_at c s m →
    before = 2 * Z.of_nat s + 1 ∧ ((st m = before ∧ got = take (length got) (cells m)) ∨ before < st m);
  ro_seen o : o ∈ seen c →
    match o with
    | ObsPacket s h p => ∃ r, log c !! s = Some r ∧ h = header_of (Z.of_nat s) r ∧ carries p (payload_of (Z.of_nat s) r)
    | ObsFetch s (Lost first) => Z.of_nat s < first
    | ObsFetch s _ => True
    end;
}.

Lemma slot_at_exists c q : ring_ok c → ∃ m, slot_at c q m.
Proof. intros Hok. unfold slot_at. apply lookup_lt_is_Some_2. rewrite (ro_len c Hok). apply slot_of_lt. Qed.

Lemma state_bound c q m : ring_ok c → slot_at c q m → 0 ≤ st m < 2 * Z.of_nat (length (log c)) ∨ st m = 0.
Proof. intros Hok Hm. destruct (ro_state c Hok _ _ Hm) as [->|(q' & Hq & _ & [->| ->])]; lia. Qed.

(** A later generation of the slot of [s] is at least 512 records on. *)
Lemma lapped c s m : ring_ok c → slot_at c s m → 2 * Z.of_nat s + 1 < st m → Z.of_nat s < first_of c.
Proof.
  intros Hok Hm Hlt. unfold first_of, saturating_sub, RING_SLOTS.
  destruct (ro_state c Hok _ _ Hm) as [E|(q & Hq & Hs & Hst)]; [lia|]. rewrite !slot_of_mod in Hs.
  assert (s < q)%nat by lia. assert (s + 512 ≤ q)%nat; [|lia].
  pose proof (Nat.div_mod_eq q 512). pose proof (Nat.div_mod_eq s 512). nia.
Qed.

Lemma alter_at c q f k m :
  alter f (slot_of q) (mem c) !! k = Some m →
  (k = slot_of q ∧ ∃ m0, mem c !! k = Some m0 ∧ m = f m0) ∨ (k ≠ slot_of q ∧ mem c !! k = Some m).
Proof.
  rewrite list_lookup_alter. case_decide as E; [|by right]. subst k. intros Hf. apply fmap_Some in Hf as (m0 & Hm & ->).
  left. split; [done|by exists m0].
Qed.

(** Facts about the other slots are not affected by a change of one. *)
Lemma claim_ok c r :
  ring_ok c → slot_free c = true → Z.of_nat (length (log c)) < 9223372036854775807 →
  ring_ok (mkConf (mem c) (log c ++ [r]) (<[length (log c) := Claimed]> (writers c)) (reader c) (seen c)).
Proof.
  intros Hok Hfree Hb.
  assert (∀ q, is_Some (writers c !! q) → slot_of q ≠ slot_of (length (log c))) as Hnot.
  { intros q [w Hw]. unfold slot_free in Hfree. rewrite forallb_forall in Hfree. specialize (Hfree q).
    rewrite <- list_elem_of_In in Hfree. specialize (Hfree ltac:(apply list_elem_of_fmap; exists (q, w); split; [done|by apply elem_of_map_to_list])).
    by apply negb_true_iff, Nat.eqb_neq in Hfree. }
  split; simpl.
  - apply Hok.
  - apply Hok.
  - rewrite length_app. simpl. lia.
  - intros k m Hm. rewrite length_app. destruct (ro_state c Hok k m Hm) as [|(q & Hq & ?)]; [by left|]. right. exists q. split; [lia|done].
  - intros q m r0 Hm Hst Hr. destruct (state_bound c q m Hok Hm) as [Hbd|Hz]; [|lia].
    rewrite lookup_app_l in Hr by lia. by eapply ro_committed.
  - intros q m Hw Hm. rewrite length_app. destruct (decide (q = length (log c))) as [->|Hne].
    + split; [simpl; lia|]. destruct (state_bound c _ m Hok Hm); lia.
    + rewrite lookup_insert_ne in Hw by done. destruct (ro_claimed c Hok q m Hw Hm). split; [lia|done].
  - intros q todo m Hw Hm. destruct (decide (q = length (log c))) as [->|Hne]; [by rewrite lookup_insert_eq in Hw|].
    rewrite lookup_insert_ne in Hw by done. destruct (ro_writing c Hok q todo m Hw Hm) as (? & r0 & Hr & ?). split; [done|].
    exists r0. split; [|done]. by apply lookup_app_l_Some.
  - intros q q' Hq Hq' Hs. destruct (decide (q = length (log c))) as [->|Hne], (decide (q' = length (log c))) as [->|Hne']; [done| | |].
    + rewrite lookup_insert_ne in Hq' by done. by destruct (Hnot q' Hq').
    + rewrite lookup_insert_ne in Hq by done. by destruct (Hnot q Hq).
    + rewrite lookup_insert_ne in Hq, Hq' by done. by eapply ro_distinct.
  - apply Hok.
  - intros o Ho. pose proof (ro_seen c Hok o Ho) as Hs. destruct o; [done|]. destruct Hs as (r0 & Hr & ?).
    exists r0. split; [by apply lookup_app_l_Some|done].
Qed.

Lemma distinct_slots c q q' w w' :
  ring_ok c → writers c !! q = Some w → writers c !! q' = Some w' → q ≠ q' → slot_of q' ≠ slot_of q.
Proof. intros Hok Hq Hq' Hne E. apply Hne. by eapply ro_distinct; [done|by eexists|by eexists|]. Qed.

Lemma reserve_ok c q r :
  ring_ok c → writers c !! q = Some Claimed → log c !! q = Some r →
  ring_ok (with_writers (<[q := Writing (program q r)]>) (on_slot q (λ m, mkMem (u64_shl (Z.of_nat q) 1) (cells m)) c)).
Proof.
  intros Hok Hw Hr. pose proof (lookup_lt_Some _ _ _ Hr) as Hlt. pose proof (ro_log c Hok). rewrite (shl_1 q) by lia.
  split; simpl.
  - rewrite length_alter. apply Hok.
  - intros k m [(_ & m0 & Hm & ->)|[_ Hm]]%alter_at; exact (ro_cells c Hok _ _ Hm).
  - done.
  - intros k m [(-> & m0 & Hm & ->)|[_ Hm]]%alter_at; [|by eapply (ro_state c Hok)].
    right. exists q. split_and!; [done|done|by left].
  - intros q' m r' [(E & m0 & Hm & ->)|[_ Hm]]%alter_at; simpl; [lia|by eapply (ro_committed c Hok)].
  - intros q' m Hw' Hm. destruct (decide (q = q')) as [<-|Hne]; [by rewrite lookup_insert_eq in Hw'|].
    rewrite lookup_insert_ne in Hw' by done. apply alter_at in Hm as [(E & _)|[_ Hm]]; [|by eapply (ro_claimed c Hok)].
    by destruct (distinct_slots c q q' _ _ Hok Hw Hw' Hne).
  - intros q' todo m Hw' Hm. destruct (decide (q = q')) as [<-|Hne].
    + rewrite lookup_insert_eq in Hw'. injection Hw' as <-. apply alter_at in Hm as [(_ & m0 & Hm & ->)|[? _]]; [|done].
      simpl. split; [done|]. exists r. split; [done|]. apply program_completes. exact (ro_cells c Hok _ _ Hm).
    + rewrite lookup_insert_ne in Hw' by done. apply alter_at in Hm as [(E & _)|[_ Hm]]; [|by eapply (ro_writing c Hok)].
      by destruct (distinct_slots c q q' _ _ Hok Hw Hw' Hne).
  - intros q1 q2 H1 H2. rewrite !lookup_insert_is_Some' in H1, H2.
    apply (ro_distinct c Hok); [destruct H1 as [<-|]; [by eexists|done]|destruct H2 as [<-|]; [by eexists|done]].
  - intros s before got m Hrd [(E & m0 & Hm & ->)|[_ Hm]]%alter_at; [|by eapply (ro_reader c Hok)].
    destruct (ro_reader c Hok s before got m0 Hrd Hm) as [Eb Hcase]. split; [done|]. right. simpl.
    rewrite E in Hm. destruct (ro_claimed c Hok q m0 Hw Hm) as [_ [Hlt0|[_ Hz]]]; destruct Hcase as [[? _]|?]; lia.
  - apply Hok.
Qed.

Lemma write_ok c q i v todo :
  ring_ok c → writers c !! q = Some (Writing ((i, v) :: todo)) →
  ring_ok (with_writers (<[q := Writing todo]>) (on_slot q (λ m, mkMem (st m) (<[i := v]> (cells m))) c)).
Proof.
  intros Hok Hw. split; simpl.
  - rewrite length_alter. apply Hok.
  - intros k m [(_ & m0 & Hm & ->)|[_ Hm]]%alter_at; simpl; rewrite ?length_insert; exact (ro_cells c Hok _ _ Hm).
  - apply Hok.
  - intros k m [(-> & m0 & Hm & ->)|[_ Hm]]%alter_at; exact (ro_state c Hok _ _ Hm).
  - intros q' m r' [(E & m0 & Hm & ->)|[_ Hm]]%alter_at; simpl; [|by eapply (ro_committed c Hok)].
    rewrite E in Hm. destruct (ro_writing c Hok q _ m0 Hw Hm) as [-> _]. lia.
  - intros q' m Hw' Hm. destruct (decide (q = q')) as [<-|Hne]; [by rewrite lookup_insert_eq in Hw'|].
    rewrite lookup_insert_ne in Hw' by done. apply alter_at in Hm as [(E & _)|[_ Hm]]; [|by eapply (ro_claimed c Hok)].
    by destruct (distinct_slots c q q' _ _ Hok Hw Hw' Hne).
  - intros q' todo' m Hw' Hm. destruct (decide (q = q')) as [<-|Hne].
    + rewrite lookup_insert_eq in Hw'. injection Hw' as <-. apply alter_at in Hm as [(_ & m0 & Hm & ->)|[? _]]; [|done].
      apply (ro_writing c Hok q _ m0 Hw Hm).
    + rewrite lookup_insert_ne in Hw' by done. apply alter_at in Hm as [(E & _)|[_ Hm]]; [|by eapply (ro_writing c Hok)].
      by destruct (distinct_slots c q q' _ _ Hok Hw Hw' Hne).
  - intros q1 q2 H1 H2. rewrite !lookup_insert_is_Some' in H1, H2.
    apply (ro_distinct c Hok); [destruct H1 as [<-|]; [by eexists|done]|destruct H2 as [<-|]; [by eexists|done]].
  - intros s before got m Hrd [(E & m0 & Hm & ->)|[_ Hm]]%alter_at; [|by eapply (ro_reader c Hok)].
    destruct (ro_reader c Hok s before got m0 Hrd Hm) as [Eb Hcase]. split; [done|]. right. simpl.
    rewrite E in Hm. destruct (ro_writing c Hok q _ m0 Hw Hm) as [Hst _]. destruct Hcase as [[? _]|?]; lia.
  - apply Hok.
Qed.

Lemma commit_ok c q :
  ring_ok c → writers c !! q = Some (Writing []) →
  ring_ok (with_writers (delete q) (on_slot q (λ m, mkMem (Z.lor (u64_shl (Z.of_nat q) 1) COMMITTED) (cells m)) c)).
Proof.
  intros Hok Hw. destruct (slot_at_exists c q Hok) as [mq Hmq].
  destruct (ro_writing c Hok q _ mq Hw Hmq) as (Hst & r & Hr & Hcomp). simpl in Hcomp.
  pose proof (lookup_lt_Some _ _ _ Hr) as Hlt. pose proof (ro_log c Hok). rewrite (shl_1 q), lor_committed by lia. split; simpl.
  - rewrite length_alter. apply Hok.
  - intros k m [(_ & m0 & Hm & ->)|[_ Hm]]%alter_at; exact (ro_cells c Hok _ _ Hm).
  - done.
  - intros k m [(-> & m0 & Hm & ->)|[_ Hm]]%alter_at; [|by eapply (ro_state c Hok)].
    right. exists q. split_and!; [done|done|by right].
  - intros q' m r' [(E & m0 & Hm & ->)|[_ Hm]]%alter_at; simpl; [|by eapply (ro_committed c Hok)].
    intros Hq Hr'. assert (q' = q) as -> by lia. unfold slot_at in Hmq. by simplify_eq.
  - intros q' m Hw' Hm. apply lookup_delete_Some in Hw' as [Hne Hw'].
    apply alter_at in Hm as [(E & _)|[_ Hm]]; [|by eapply (ro_claimed c Hok)].
    by destruct (distinct_slots c q q' _ _ Hok Hw Hw' Hne).
  - intros q' todo m Hw' Hm. apply lookup_delete_Some in Hw' as [Hne Hw'].
    apply alter_at in Hm as [(E & _)|[_ Hm]]; [|by eapply (ro_writing c Hok)].
    by destruct (distinct_slots c q q' _ _ Hok Hw Hw' Hne).
  - intros q1 q2 [w1 [_ H1]%lookup_delete_Some] [w2 [_ H2]%lookup_delete_Some]. apply (ro_distinct c Hok); by eexists.
  - intros s before got m Hrd [(E & m0 & Hm & ->)|[_ Hm]]%alter_at; [|by eapply (ro_reader c Hok)].
    destruct (ro_reader c Hok s before got m0 Hrd Hm) as [Eb Hcase]. split; [done|]. right. simpl.
    unfold slot_at in Hmq. rewrite E in Hm. simplify_eq. destruct Hcase as [[? _]|?]; lia.
  - apply Hok.
Qed.

Lemma observe_ok c o :
  ring_ok c →
  match o with
  | ObsPacket s h p => ∃ r, log c !! s = Some r ∧ h = header_of (Z.of_nat s) r ∧ carries p (payload_of (Z.of_nat s) r)
  | ObsFetch s (Lost first) => Z.of_nat s < first
  | ObsFetch s _ => True
  end → ring_ok (observe o c).
Proof.
  intros Hok Ho. destruct Hok. split; simpl; try done. intros o' Ho'.
  apply elem_of_app in Ho' as [Ho'|Ho'%list_elem_of_singleton]; [by apply ro_seen0|by subst].
Qed.

Lemma reader_ok c s before got :
  ring_ok c →
  (∀ m, slot_at c s m → before = 2 * Z.of_nat s + 1 ∧ ((st m = before ∧ got = take (length got) (cells m)) ∨ before < st m)) →
  ring_ok (with_reader (Reading s before got) c).
Proof.
  intros [] Hr. split; simpl; try done. intros s' before' got' m [= <- <- <-]. apply Hr.
Qed.

Lemma act_ok a c c' : ring_ok c → act true a c = Some c' → ring_ok c'.
Proof.
  intros Hok Hact. destruct a as [r|q|q|q|seq| |]; simpl in Hact.
  - destruct (slot_free c) eqn:Hf; [|done]. cbn in Hact.
    destruct (Z.leb_spec 9223372036854775807 (Z.of_nat (length (log c)))); simplify_eq/=. by apply claim_ok.
  - destruct (writers c !! q) as [[|]|] eqn:Hw; try done. destruct (log c !! q) eqn:Hr; simplify_eq. by apply reserve_ok.
  - destruct (writers c !! q) as [[|[|[i v] todo]]|] eqn:Hw; simplify_eq. by apply write_ok.
  - destruct (writers c !! q) as [[|[|[i v] todo]]|] eqn:Hw; simplify_eq. by apply commit_ok.
  - destruct (reader c); [|done]. destruct (mem c !! slot_of seq) as [m|] eqn:Hm; [|done].
    destruct (check_state (st m) (Z.of_nat seq) (first_of c)) as [f|] eqn:Hc; simplify_eq.
    + apply observe_ok; [done|]. unfold check_state in Hc. destruct (st m =? 0); [by simplify_eq|].
      rewrite Z.shiftr_div_pow2 in Hc by lia. change (2 ^ 1) with 2 in Hc.
      destruct (Z.ltb_spec (Z.of_nat seq) (st m / 2)); [|destruct (_ || _); by simplify_eq]. simplify_eq.
      apply (lapped c seq m); [done|done|]. pose proof (Z.mul_div_le (st m) 2). destruct (state_bound c seq m Hok Hm); lia.
    + apply reader_ok; [done|]. intros m' Hm'. unfold slot_at in Hm'. simplify_eq.
      apply check_state_None in Hc; [|destruct (state_bound c seq m Hok Hm); lia]. split; [done|]. by left.
  - destruct (reader c) as [|s before got] eqn:Hrd; [done|]. destruct (mem c !! slot_of s) as [m|] eqn:Hm; [|done]. simpl in Hact.
    destruct (cells m !! length got) as [v|] eqn:Hv; simplify_eq. apply reader_ok; [done|]. intros m' Hm'.
    unfold slot_at in Hm'. simplify_eq. destruct (ro_reader c Hok s before got m Hrd Hm) as [? [[? Hg]|?]]; (split; [done|]); [|by right].
    left. split; [done|]. rewrite length_app. simpl. rewrite Nat.add_1_r, (take_S_r _ _ _ Hv). by rewrite <- Hg.
  - destruct (reader c) as [|s before got] eqn:Hrd; [done|]. destruct (mem c !! slot_of s) as [m|] eqn:Hm; [|done].
    destruct (Nat.eqb_spec (length got) SLOT_CELLS) as [Hl|]; [|done].
    destruct (ro_reader c Hok s before got m Hrd Hm) as [Eb Hcase]. destruct (Z.eqb_spec (st m) before) as [Es|Es]; simplify_eq/=.
    + apply observe_ok; [done|]. destruct Hcase as [[_ Hg]|?]; [|lia].
      rewrite Hl, take_ge in Hg by (by rewrite (ro_cells c Hok _ _ Hm)). subst got.
      destruct (ro_state c Hok _ _ Hm) as [?|(q & Hq & _ & Hst)]; [lia|]. assert (q = s) as -> by lia.
      destruct (lookup_lt_is_Some_2 (log c) s Hq) as [r Hr]. exists r. split; [done|].
      destruct (ro_committed c Hok s m r Hm Es Hr) as [Hh Hp]. split; [|done]. rewrite Hh. by apply header_cells_back.
    + apply observe_ok; [done|]. apply (lapped c s m); [done|done|]. destruct Hcase as [[? _]|?]; [done|lia].
Qed.

Lemma fresh_ok m :
  st m = 0 → length (cells m) = SLOT_CELLS → ring_ok (mkConf (replicate 512 m) [] ∅ Idle []).
Proof.
  intros Hst Hc. split; cbn [mem log writers reader seen].
  - apply length_replicate.
  - intros k m' Hm. by apply lookup_replicate in Hm as [-> _].
  - done.
  - intros k m' Hm. apply lookup_replicate in Hm as [-> _]. by left.
  - intros q m' r _ _ Hr. by rewrite lookup_nil in Hr.
  - intros q m' Hw. by rewrite lookup_empty in Hw.
  - intros q todo m' Hw. by rewrite lookup_empty in Hw.
  - intros q q' [w Hw]. by rewrite lookup_empty in Hw.
  - intros s before got m' Hr. done.
  - intros o Ho. by apply not_elem_of_nil in Ho.
Qed.
Lemma conf_new_ok : ring_ok conf_new.
Proof. apply fresh_ok; [done|]. done. Qed.
Lemma reach_ok c : reach true c → ring_ok c.
Proof. induction 1; [apply conf_new_ok|by eapply act_ok]. Qed.
