(* ===== verification/KlogTheorems.v ===== *)
(** The properties of the kernel log: the ring as a window of the last 512
    records, no torn record under interleaved producers that are not lapped,
    and what happens to one that is. *)
From S2P Require Import Prelude.
From S2P Require Import Bytes.
From S2P Require Import Klog.
From S2P Require Import KlogSpec.
From S2P Require Import KlogRing.
Open Scope rust_scope.

(** ** The quiescent ring *)

Lemma write_parts_spec parts : ∀ payload cursor,
  (cursor + length (concat parts) ≤ length payload)%nat →
  length (write_parts payload cursor parts) = length payload ∧
  take (cursor + length (concat parts)) (write_parts payload cursor parts) = take cursor payload ++ concat parts.
Proof.
  induction parts as [|p parts IH]; intros payload cursor Hl; simpl in *.
  - rewrite Nat.add_0_r, app_nil_r. done.
  - rewrite length_app in *. assert (length (copy_into payload cursor p) = length payload) as Hc by (apply length_copy_into; lia).
    destruct (IH (copy_into payload cursor p) (cursor + length p)%nat) as [Hlen Htake]; [lia|]. split; [lia|].
    rewrite Nat.add_assoc, Htake. unfold copy_into. rewrite (assoc_L app), take_app_length' by (rewrite length_app, length_take; lia).
    by rewrite <- (assoc_L app).
Qed.

(** The slot that holds record [r] of sequence [q], committed. *)
Definition holds (s : Slot) (q : nat) (r : RecordData) : Prop :=
  s_state s = 2 * Z.of_nat q + 1 ∧ s_header s = header_of (Z.of_nat q) r ∧ carries (s_payload s) (payload_of (Z.of_nat q) r).

Definition appends (rs : list RecordData) : Ring := foldl (λ ring r, (append r ring).2) ring_new rs.

(** The contents of the ring after [rs] was appended. *)
Record ring_holds (rs : list RecordData) (ring : Ring) : Prop := {
  rh_next : next ring = Z.of_nat (length rs);
  rh_len : length (slots ring) = 512%nat;
  rh_payload k s : slots ring !! k = Some s → length (s_payload s) = PAYLOAD_CAPACITY;
  rh_slot q r : rs !! q = Some r → (length rs ≤ q + 512)%nat → ∃ s, slots ring !! slot_of q = Some s ∧ holds s q r;
  rh_empty k : (length rs ≤ k < 512)%nat → ∃ s, slots ring !! k = Some s ∧ s_state s = 0;
}.

Lemma ring_new_holds : ring_holds [] ring_new.
Proof.
  unfold ring_new. split; cbn [next slots].
  - done.
  - apply length_replicate.
  - intros k s Hs. by apply lookup_replicate in Hs as [-> _].
  - intros q r Hr. done.
  - intros k Hk. exists slot_new. split; [|done]. apply lookup_replicate_2. unfold RING_SLOTS. lia.
Qed.

Lemma append_slot r ring s0 :
  slots ring !! slot_index (next ring) = Some s0 → length (s_payload s0) = PAYLOAD_CAPACITY →
  0 ≤ next ring < 9223372036854775808 →
  ∃ s, slots (append r ring).2 = <[slot_index (next ring) := s]> (slots ring) ∧ length (s_payload s) = PAYLOAD_CAPACITY ∧
    holds s (Z.to_nat (next ring)) r.
Proof.
  intros Hs Hl Hn. unfold append. rewrite Hs. cbn [default id s_payload s_state s_header].
  pose proof (compose_sizes (next ring) r) as (_ & _ & Hsum & Hp).
  destruct (compose (next ring) r) as [[h p] cut] eqn:Ec. cbn [snd slots].
  eexists. split; [reflexivity|]. cbn [s_payload].
  set (parts := [_; _; _]). assert (length (concat parts) ≤ 256)%nat as Hc.
  { unfold parts. simpl. rewrite app_nil_r, !length_app. lia. }
  destruct (write_parts_spec parts (s_payload s0) 0) as [Hlen Htake]; [rewrite Hl; unfold PAYLOAD_CAPACITY; lia|].
  split; [lia|]. unfold holds. cbn [s_state s_header s_payload]. rewrite Z2Nat.id by lia. split_and!.
  - replace (next ring) with (Z.of_nat (Z.to_nat (next ring))) at 1 by lia. rewrite shl_1 by lia.
    rewrite lor_committed, Z2Nat.id by lia. done.
  - unfold header_of. by rewrite Ec.
  - unfold carries, payload_of. rewrite Ec. simpl in Hp |- *. rewrite Hp.
    assert (concat parts = p) as Ep by (simpl; rewrite app_nil_r; by rewrite <- Hp). rewrite <- Hp. by rewrite Ep in Htake.
Qed.

Lemma append_holds rs r ring :
  ring_holds rs ring → Z.of_nat (length rs) < 9223372036854775807 → ring_holds (rs ++ [r]) (append r ring).2.
Proof.
  intros [Hn Hl Hp Hs He] Hb.
  assert (slot_index (next ring) = slot_of (length rs)) as Ei by (by rewrite Hn).
  destruct (lookup_lt_is_Some_2 (slots ring) (slot_of (length rs))) as [s0 Hs0]; [rewrite Hl; apply slot_of_lt|].
  destruct (append_slot r ring s0) as (s & Es & Hlp & Hh); [by rewrite Ei|by eapply Hp|lia|].
  rewrite Hn, Nat2Z.id in Hh. rewrite Ei in Es. split.
  - unfold append. destruct (compose _ _) as [[? ?] ?]. simpl. rewrite Hn, length_app. simpl. unfold u64_add.
    rewrite wrap64_small; [lia|unfold is_u64; lia].
  - by rewrite Es, length_insert.
  - intros k s'. rewrite Es. intros [(_ & <- & _)|[_ Hk]]%list_lookup_insert_Some; [done|by eapply Hp].
  - intros q r' Hr Hq. rewrite length_app in Hq. simpl in Hq. rewrite Es.
    apply lookup_app_Some in Hr as [Hr|[Hge Hr]].
    + pose proof (lookup_lt_Some _ _ _ Hr). destruct (Hs q r' Hr ltac:(lia)) as (s' & Hs' & ?). exists s'. split; [|done].
      rewrite list_lookup_insert_ne; [done|]. rewrite !slot_of_mod. intros E.
      pose proof (Nat.div_mod_eq q 512). pose proof (Nat.div_mod_eq (length rs) 512). nia.
    + apply list_lookup_singleton_Some in Hr as [Hq0 <-]. assert (q = length rs) as -> by lia.
      exists s. split; [|done]. apply list_lookup_insert_eq. rewrite Hl. apply slot_of_lt.
  - intros k Hk. rewrite length_app in Hk. simpl in Hk. rewrite Es. destruct (He k ltac:(lia)) as (s' & Hs' & ?).
    exists s'. split; [|done]. rewrite list_lookup_insert_ne; [done|]. rewrite slot_of_mod, Nat.mod_small by lia. lia.
Qed.

Lemma appends_holds rs : Z.of_nat (length rs) < 9223372036854775808 → ring_holds rs (appends rs).
Proof.
  induction rs as [|r rs IH] using rev_ind; intros Hb; [apply ring_new_holds|].
  rewrite length_app in Hb. simpl in Hb. unfold appends. rewrite foldl_app. simpl. apply append_holds; [apply IH|]; lia.
Qed.

Lemma check_committed q' q first :
  0 ≤ q' → check_state (2 * q' + 1) q first = if q <? q' then Some (Lost first) else if q' <? q then Some Pending else None.
Proof.
  intros Hq. unfold check_state, COMMITTED. destruct (Z.eqb_spec (2 * q' + 1) 0); [lia|]. rewrite Z.shiftr_div_pow2 by lia.
  replace ((2 * q' + 1) / 2 ^ 1) with q' by (change (2 ^ 1) with 2; apply (Z.div_unique _ _ _ 1); lia).
  assert (Z.land (2 * q' + 1) 1 = 1) as ->; [|by rewrite orb_false_r].
  etrans; [apply (Z.land_ones _ 1); lia|]. change (2 ^ 1) with 2. rewrite Z.add_comm, Z.mul_comm. by rewrite Z.mod_add by lia.
Qed.

(** The newest record of a slot. *)
Lemma newest n q : (slot_of q < n)%nat → ∃ q', (q' < n)%nat ∧ (n ≤ q' + 512)%nat ∧ slot_of q' = slot_of q.
Proof.
  rewrite slot_of_mod. intros Hn. pose proof (Nat.mod_upper_bound q 512). set (m := (q mod 512)%nat) in *.
  exists (m + ((n - 1 - m) / 512) * 512)%nat. pose proof (Nat.div_mod_eq (n - 1 - m) 512).
  pose proof (Nat.mod_upper_bound (n - 1 - m) 512). split_and!; [lia|lia|].
  rewrite slot_of_mod, Nat.Div0.mod_add. by apply Nat.mod_small; lia.
Qed.

Lemma fetch_slot ring q s out :
  slots ring !! slot_of q = Some s →
  fetch (Z.of_nat q) out ring =
    match check_state (s_state s) (Z.of_nat q) (first_sequence ring) with
    | Some f => (f, out)
    | None => deliver (s_header s) (s_payload s) out
    end.
Proof.
  intros Hs. unfold fetch. change (slot_index (Z.of_nat q)) with (slot_of q). rewrite Hs. cbn [default id].
  rewrite Z.eqb_refl. done.
Qed.

Lemma newest_slot rs ring q :
  ring_holds rs ring → (slot_of q < length rs)%nat →
  ∃ q' s, (q' < length rs ≤ q' + 512)%nat ∧ slot_of q' = slot_of q ∧ slots ring !! slot_of q = Some s ∧
    s_state s = 2 * Z.of_nat q' + 1.
Proof.
  intros Hr Hq. destruct (newest (length rs) q Hq) as (q' & H1 & H2 & H3).
  destruct (lookup_lt_is_Some_2 rs q' H1) as [r Hrq]. destruct (rh_slot _ _ Hr q' r Hrq H2) as (s & Hs & Hst & _).
  exists q', s. rewrite H3 in Hs. done.
Qed.

(** C30: On a quiescent ring [fetch] serves a window of the last 512 records:
    an older sequence is reported lost with the oldest one kept, a sequence
    not yet appended is pending, and a sequence of the window is delivered as
    the packet of its record (the header, the subsystem, the file and the
    message cut at the limits). *)
Theorem klog_window (rs : list RecordData) (q : nat) (out : PacketBuffer)
    (Hlen : Z.of_nat (length rs) < 9223372036854775808) (Hrs : Forall record_ok rs)
    (Hout : length (pb_bytes out) = MAX_PACKET_SIZE) :
  let '(f, b) := fetch (Z.of_nat q) out (appends rs) in
  if (q <? length rs - 512)%nat then f = Lost (Z.of_nat (length rs - 512)) ∧ b = out
  else match rs !! q with
  | None => f = Pending ∧ b = out
  | Some r =>
      f = Ready (pb_length b) ∧ buffer_bytes b = encode (header_of (Z.of_nat q) r) ++ payload_of (Z.of_nat q) r ∧
      decode_header (buffer_bytes b) = header_of (Z.of_nat q) r ∧
      buffer_subsystem b = clamp (r_subsystem r) SUBSYSTEM_LIMIT ∧
      buffer_message b = clamp (r_message r)
        (PAYLOAD_CAPACITY - length (clamp (r_subsystem r) SUBSYSTEM_LIMIT) - length (clamp (r_file r) FILE_LIMIT))
  end.
Proof.
  pose proof (appends_holds rs Hlen) as Hok.
  assert (first_sequence (appends rs) = Z.of_nat (length rs - 512)) as Hfirst.
  { unfold first_sequence, next_sequence, saturating_sub, RING_SLOTS. rewrite (rh_next _ _ Hok). lia. }
  destruct (Nat.ltb_spec q (length rs - 512)) as [Hold|Hnew].
  - destruct (newest_slot rs _ q Hok) as (q' & s & Hq' & _ & Hs & Hst); [pose proof (slot_of_lt q); lia|].
    rewrite (fetch_slot _ _ s _ Hs), Hst, check_committed, Hfirst by lia. destruct (Z.ltb_spec (Z.of_nat q) (Z.of_nat q')); [done|lia].
  - destruct (rs !! q) as [r|] eqn:Hr.
    + destruct (rh_slot _ _ Hok q r Hr ltac:(lia)) as (s & Hs & Hst & Hh & Hc). pose proof (lookup_lt_Some _ _ _ Hr).
      rewrite (fetch_slot _ _ s _ Hs), Hst, check_committed, Z.ltb_irrefl by lia. rewrite Hh.
      rewrite Forall_lookup in Hrs. assert (is_u64 (Z.of_nat q)) as Hu by (unfold is_u64; lia).
      pose proof (deliver_spec (Z.of_nat q) r (s_payload s) out Hu (Hrs q r Hr) Hc Hout) as Hd.
      destruct (deliver _ _ _) as [f b]. destruct Hd as (-> & _ & Hb & Hsub & Hm). split_and!; [done|done| |done|done].
      rewrite Hb. apply decode_encode_app, header_of_ok; [done|by eapply Hrs].
    + apply lookup_ge_None in Hr. destruct (decide (slot_of q < length rs)%nat) as [Hlt|Hge].
      * destruct (newest_slot rs _ q Hok Hlt) as (q' & s & Hq' & _ & Hs & Hst).
        rewrite (fetch_slot _ _ s _ Hs), Hst, check_committed by lia.
        destruct (Z.ltb_spec (Z.of_nat q) (Z.of_nat q')); [lia|]. destruct (Z.ltb_spec (Z.of_nat q') (Z.of_nat q)); [done|lia].
      * destruct (rh_empty _ _ Hok (slot_of q)) as (s & Hs & Hst); [pose proof (slot_of_lt q); lia|].
        by rewrite (fetch_slot _ _ s _ Hs), Hst.
Qed.

(** ** Under interleaving *)

(** C31: Producers and a reader interleaved at each atomic operation and each
    cell they copy: as long as a producer commits before the ring comes around
    to its slot, a copy that passes the validation of [fetch] is the packet of
    the record of the sequence asked for, complete, and a reader that is told
    it lost records is told to go on further ahead. *)
Theorem klog_no_torn_record (c : Conf) (out : PacketBuffer) (Hc : reach true c) (Hrs : Forall record_ok (log c))
    (Hout : length (pb_bytes out) = MAX_PACKET_SIZE) :
  (∀ s h p, ObsPacket s h p ∈ seen c →
    ∃ r, log c !! s = Some r ∧
    let '(f, b) := deliver h p out in
    f = Ready (pb_length b) ∧ buffer_bytes b = encode (header_of (Z.of_nat s) r) ++ payload_of (Z.of_nat s) r) ∧
  (∀ s first, ObsFetch s (Lost first) ∈ seen c → Z.of_nat s < first).
Proof.
  apply reach_ok in Hc. split.
  - intros s h p Ho. destruct (ro_seen c Hc _ Ho) as (r & Hr & -> & Hp). exists r. split; [done|].
    rewrite Forall_lookup in Hrs. pose proof (lookup_lt_Some _ _ _ Hr). pose proof (ro_log c Hc).
    assert (is_u64 (Z.of_nat s)) as Hu by (unfold is_u64; lia).
    pose proof (deliver_spec (Z.of_nat s) r p out Hu (Hrs s r Hr) Hp Hout) as Hd.
    destruct (deliver _ _ _) as [f b]. by destruct Hd as (-> & _ & -> & _).
  - intros s first Ho. exact (ro_seen c Hc _ Ho).
Qed.

Definition demo_record (message : list Z) : RecordData := mkRecord 6 0 77 1 42 3 [107; 108; 111; 103] [97; 46; 114; 115] message.
Lemma demo_record_ok message : record_ok (demo_record message).
Proof. split; unfold is_byte, is_u64; simpl; lia. Qed.

Lemma klog_window_witness :
  let rs := [demo_record [97]; demo_record [98; 98]] in
  Forall record_ok rs ∧
  let '(f, b) := fetch 1 buffer_new (appends rs) in
  f = Ready (pb_length b) ∧ buffer_bytes b = encode (header_of 1 (demo_record [98; 98])) ++ payload_of 1 (demo_record [98; 98]) ∧
  decode_header (buffer_bytes b) = header_of 1 (demo_record [98; 98]) ∧ buffer_subsystem b = [107; 108; 111; 103] ∧
  buffer_message b = [98; 98].
Proof.
  assert (Forall record_ok [demo_record [97]; demo_record [98; 98]]) as Hrs by (repeat constructor; apply demo_record_ok).
  split; [exact Hrs|].
  exact (klog_window [demo_record [97]; demo_record [98; 98]] 1 buffer_new eq_refl Hrs eq_refl).
Defined.

(** ** Runs *)

Definition run (strict : bool) (acts : list Action) (c : Conf) : option Conf :=
  foldl (λ oc a, oc ≫= act strict a) (Some c) acts.

Lemma run_none strict acts : foldl (λ oc a, oc ≫= act strict a) None acts = None.
Proof. by induction acts. Qed.
Lemma run_reach strict acts : ∀ c c', reach strict c → run strict acts c = Some c' → reach strict c'.
Proof.
  induction acts as [|a acts IH]; intros c c' Hc; unfold run; simpl; [by intros [= ->]|].
  destruct (act strict a c) as [c1|] eqn:Ha; [|by rewrite run_none]. apply IH. by econstructor.
Qed.

(** The record [s] seen, as [fetch] delivers it, against the record claimed. *)
Definition delivered (s : nat) (got claimed : list Z) (oc : option Conf) : bool :=
  match oc with
  | Some c =>
      match seen c, log c !! s with
      | [ObsPacket s' h p], Some r =>
          (s' =? s)%nat && bool_decide (buffer_message (deliver h p buffer_new).2 = got) && bool_decide (r_message r = claimed)
      | _, _ => false
      end
  | None => false
  end.
Lemma delivered_run strict acts s got claimed :
  delivered s got claimed (run strict acts conf_new) = true →
  ∃ c h p r, run strict acts conf_new = Some c ∧ reach strict c ∧ seen c = [ObsPacket s h p] ∧ log c !! s = Some r ∧
    buffer_message (deliver h p buffer_new).2 = got ∧ r_message r = claimed.
Proof.
  unfold delivered. destruct (run strict acts conf_new) as [c|] eqn:Hrun; [|done].
  pose proof (run_reach strict acts conf_new c (reach_new strict) Hrun) as Hc.
  destruct (seen c) as [|[|s' h p] [|? ?]] eqn:Hs; try done. destruct (log c !! s) as [r|] eqn:Hr; [|done].
  rewrite !andb_true_iff, !bool_decide_eq_true. intros [[E%Nat.eqb_eq ?] ?]. subst s'. exists c, h, p, r. done.
Qed.

(** A record appended and read back, uninterrupted. *)
Definition demo_round : list Action :=
  [AClaim (demo_record [98; 98]); AReserve 0] ++ replicate 26 (AWrite 0) ++ [ACommit 0; AStart 0] ++ replicate 272 ARead ++ [AFinish].


Lemma demo_round_delivered : delivered 0 [98; 98] [98; 98] (run true demo_round conf_new) = true.
Proof. vm_compute. reflexivity. Qed.

Definition claims_ok (a : Action) : Prop := match a with AClaim r => record_ok r | _ => True end.
Lemma run_log strict acts : ∀ c c',
  Forall claims_ok acts → Forall record_ok (log c) → run strict acts c = Some c' → Forall record_ok (log c').
Proof.
  induction acts as [|a acts IH]; intros c c' Ha Hc; unfold run; simpl; [by intros [= ->]|].
  inversion Ha as [|? ? Ha1 Ha2]; subst.
  destruct (act strict a c) as [c1|] eqn:E; [|by rewrite run_none]. apply (IH c1 c' Ha2).
  destruct a; simpl in E; repeat (case_match; try done); simplify_eq/=; try done. by apply Forall_app_2; [|constructor].
Qed.
Lemma demo_round_claims : Forall claims_ok demo_round.
Proof.
  unfold demo_round. rewrite !Forall_app. split_and!; try (apply Forall_replicate; done);
    repeat constructor; apply demo_record_ok.
Qed.

Lemma klog_no_torn_record_witness :
  ∃ c h p, reach true c ∧ ObsPacket 0 h p ∈ seen c ∧
    ∃ r, log c !! 0%nat = Some r ∧ let '(f, b) := deliver h p buffer_new in
      f = Ready (pb_length b) ∧ buffer_bytes b = encode (header_of 0 r) ++ payload_of 0 r.
Proof.
  destruct (delivered_run true demo_round 0 _ _ demo_round_delivered) as (c & h & p & r & Hrun & Hc & Hs & _).
  exists c, h, p. split; [exact Hc|]. assert (ObsPacket 0 h p ∈ seen c) as Ho by (rewrite Hs; left). split; [exact Ho|].
  pose proof (run_log true demo_round conf_new c demo_round_claims (Forall_nil_2 _) Hrun) as Hlog.
  exact (proj1 (klog_no_torn_record c buffer_new Hc Hlog eq_refl) 0%nat h p Ho).
Defined.


(** ** Clamping *)

(** Clamping a string to a number of bytes keeps whole characters: the
    result is a prefix of the characters, fits, and no longer prefix of whole
    characters would. *)
Theorem clamp_correct (cs : list (list Z)) (limit : nat) (Hcs : Forall utf8_char cs) :
  ∃ k, clamp (concat cs) limit = concat (take k cs) ∧ (length (concat (take k cs)) ≤ limit)%nat ∧
    ∀ j, (length (concat (take j cs)) ≤ limit)%nat → (length (concat (take j cs)) ≤ length (concat (take k cs)))%nat.
Proof.
  destruct (clamp_chars cs limit Hcs) as (k & E & Hmax). exists k. split; [exact E|].
  rewrite E in Hmax. split; [|exact Hmax]. rewrite <- E. apply length_clamp.
Qed.
(** "aé" clamped to two bytes is "a". *)
Lemma clamp_correct_witness :
  Forall utf8_char [[97]; [195; 169]] ∧ clamp [97; 195; 169] 2 = [97] ∧
  let cs := [[97]; [195; 169]] in ∃ k, clamp (concat cs) 2 = concat (take k cs) ∧ (length (concat (take k cs)) ≤ 2)%nat.
Proof.
  assert (Forall utf8_char [[97]; [195; 169]]) as Hcs.
  { constructor; [by exists 97, []|]. constructor; [|constructor]. exists 195, [169]. split_and!; [done|done|by repeat constructor]. }
  split; [exact Hcs|]. split; [reflexivity|]. destruct (clamp_correct _ 2 Hcs) as (k & E & Hl & _). exists k. split; [exact E|exact Hl].
Defined.
